(* ===== verification/_CoqProject ===== *)
-Q . S2P
Prelude.v
Bytes.v
F64.v
Crypto.v
Text.v
Proto.v
Input.v
Canonical.v
Signing.v
Capability.v
Token.v
Governor.v
Books.v
Membership.v
Merkle.v
Settlement.v
Escrow.v
Cell.v
Dict.v
Boc.v
TonAbi.v
EscrowAbi.v
Anchor.v
TonRail.v
JobEscrow.v
Abuse.v
Redispatch.v
Reputation.v
TrustDb.v
Liveness.v
Attest.v
Dispatch.v
GridQuery.v
ConfigData.v
ResultStream.v
Config.v
Transport.v
Overrides.v
Estimator.v
RunQuery.v
Worker.v
Spill.v
Wallet.v
Sql.v
Sealing.v
DataSource.v
DuckEngine.v
Presign.v
Sandbox.v
Subprocess.v
Decimal.v
Toml.v
Environment.v
Settings.v
Bindings.v
InputResolver.v
Preflight.v
Rounding.v
Wiring.v
Node.v
