(* ===== verification/Prelude.v ===== *)
(** * Duckton verification library

    A model of the core of duckton, a peer-to-peer grid that runs DuckDB queries on
    other people's machines: a requester pins its input, dispatches a query to
    several workers, accepts a result when enough of them commit to the same hash,
    and pays for it through an escrow on the TON chain.  Everything here is
    translated from the Rust sources under src/crates; each definition keeps the
    name of the function it translates.

    ** Parts and files

    - [Prelude], [Bytes], [F64], [Text]: results and error notation, machine-width
      arithmetic ([wrap], [sat_add], ...), byte strings and their encodings, IEEE
      binary64 through the Standard Library's SpecFloat, and the string operations
      the sources use.
    - [Crypto]: hashing and Ed25519 are third-party crates, so they are a typeclass
      ([Crypto]) with the laws the code relies on ([CryptoLaws]: digest and key
      lengths, and that a signature made with a key verifies under it).  Collision
      resistance is never assumed outright: a theorem that needs it takes
      [NoCollision] for exactly the messages it hashes.  [toy_crypto] is a concrete
      instance on which every witness is evaluated.
    - [Proto], [Input]: crates/proto (identities, versions, values, receipts,
      manifests, capability ads; pinned objects and the input fingerprint).
    - [Canonical]: trust/canonical.rs, the canonical hash of a result set and the
      quorum over committed hashes.
    - [Signing], [Capability], [Token]: trust/receipt.rs, antiabuse.rs, sybil.rs,
      capability.rs, token.rs, node/capability_store.rs: signed receipts and abuse
      signals, proof of work, capability ads and the measured-capability ratchet,
      attenuable capability tokens.
    - [Governor]: node/governor.rs, admission.rs and planner.rs' local reservations:
      one machine's memory, threads and job slots shared by served and local work
      through atomic counters.  Each atomic operation is one step of a transition
      system, tasks interleave freely, relaxed loads may return any value.
    - [Books], [Membership]: the canary book, the free-job rate limiter, the gossip
      membership table and candidate selection.
    - [Merkle], [Settlement], [Escrow]: settlement/merkle.rs, types.rs, traits.rs,
      mock.rs, noop.rs, engagement.rs and the coordinator's pricing and
      [settle_paid_job].  The rail is a record of operations ([Settlement]) with laws
      ([RailLaws]: what open and settle may answer; [ReliableRail]: that a settlement that
      fits succeeds); the coordinator's theorems are proved against the laws and the rails
      discharge them - the free and the mock rail both, the TON rail of [TonRail] the
      first only, since its transport can fail ([TonRpcLaws]).
    - [Cell], [Dict], [Boc]: settlement/cell.rs: TON cells, their builder, parser and
      representation hash, the dictionary builder, the bag-of-cells serialiser and
      its hardened parser.
    - [TonAbi], [EscrowAbi], [TonRail]: settlement/ton.rs: every message body and
      contract data cell the code builds, and the rail, stake, anchor and policy clients
      over an abstract [TonRpc].
    - [Anchor], [JobEscrow]: the contracts src/ton/contracts/RecordAnchor.tolk and
      JobEscrow.tolk with their types: parsing, settlement, refund, claim, bounce and
      disputes, so that what the Rust side sends can be run through what the chain does;
      of the parameter contract, its check of an update ([TonAbi.validateEcoParams]).
    - [Abuse], [Reputation], [TrustDb], [Liveness], [Attest]: trust/antiabuse.rs,
      reputation.rs, persistent.rs, failure_detector.rs, attestation.rs, node/antiabuse.rs
      and liveness.rs, settlement/quality.rs: failure classification, deny list, cost
      gate, the trust store in memory and on an ordered key-value database (a class with
      laws; a stored record reads back only when its numbers are finite, as JSON has it),
      phi-accrual detection with SWIM, attestation evidence.
    - [Redispatch], [Dispatch], [GridQuery]: node/coordinator.rs and retry.rs: one
      dispatch attempt from candidates to verdicts, the retry loop around it, and both
      run together against a network that answers anything.
    - [ConfigData], [Config], [Overrides]: config/lib.rs, economics.rs, antiabuse.rs,
      overrides.rs: all records and defaults, validation, derived values, per-query and
      session overrides, and the configuration a dispatch is given.
    - [Transport]: transport/endpoint.rs, version.rs, verifier.rs: frames, handshake,
      pinning; [ResultStream]: node/result_stream.rs and compression.rs: the transfer, in
      the same frames of at most 4 MiB.
    - [Estimator], [RunQuery]: node/estimator.rs, planner.rs and the coordinator's entry
      points: the estimate of a query, where it runs, and the whole path of a call.
    - [Worker], [Spill]: node/worker.rs: the gates of a bid, the ledger of accepted
      offers, the execution of a dispatch as two interleaved steps, and the job's
      directory on disk.
    - [Wallet]: settlement/wallet.rs and ton_proof.rs: the v5r1 wallet's signer and the
      proof that binds a node to a wallet.
    - [Sql], [DataSource], [Presign], [Sealing]: node/datasource.rs, storage.rs and
      trust/sealing.rs: how SQL text reads, the credentials of a job, the secrets and
      signed URLs made from them, sealing to a worker's key and the release of data keys.
    - [DuckEngine], [Sandbox], [Subprocess]: node/duckdb_engine.rs, sandbox.rs (with its
      macOS and Linux backends) and subprocess.rs: the locked-down connection a query runs
      on, the policies around it, and the child process that holds both.
    - [Decimal], [Toml], [Environment], [Settings], [Bindings]: config/lib.rs, store.rs,
      binding.rs and blocklist.rs: how Rust reads and prints decimal floats, dotted paths
      and merging of TOML trees, the environment layer with all its variables, the
      runtime settings with their grouped setters and secret files, and the two files of
      records beside them.
    - [InputResolver]: node/input_resolver.rs: the data sources named in a query, the
      local probe, Delta snapshots and the manifest of a job.
    - [Preflight], [Rounding], [Wiring], [Node]: node/node.rs, the metadata readers of
      estimator.rs, settlement/wiring.rs: the estimate made before a query is planned,
      bounds on rounded products of floats, the money rail of a configuration, and the
      node that is assembled from all of it.

    ** What the theorems show

    - Capacity: no interleaving of reservations, refusals and drops oversubscribes the
      machine, leaks, or underflows a counter; the headroom kept for local work is
      really available ([Governor]).
    - Results: the canonical hash is independent of row order and determines the
      result; a quorum decides what it claims, deterministically, and snapshot drift
      cannot influence it ([Canonical], [Input]).
    - Authority: token verification is exactly its declarative meaning, attenuation
      never widens, and the one place where it does more than documented
      ([group_self_grant]) is stated as a theorem ([Token]).
    - Gossip: whatever is received, only verified ads are stored, within capacity, and
      routing is sound and complete for what the filter admits ([Membership]).
    - Money: an opened escrow is always large enough to settle and settles unless the rail
      itself fails, what is paid to whom, the gate against redirected fees, stake and slashing, inclusion proofs that are sound and
      complete ([Escrow], [Merkle]).
    - Encodings: store/load, serialise/parse and build/look-up round trips, and safety
      of the bag-of-cells parser on arbitrary input ([Cell], [Dict], [Boc]).
    - A call ([RunQuery], [GridQuery]): what a caller in quorum mode gets as verified was
      computed by its own engine or committed by a quorum of the selected workers; the
      retry loop ends; a provider is blamed only for a provable fault.  Where the code
      falls short of that (fast mode, unhashed rows) there is a theorem that says so.
    - A host ([Worker], [Spill], [Transport]): it executes only what it accepted, from
      the peer it accepted it from, after every gate and within its budget; it keeps its
      word to an accepted requester; a private grid admits only its members; the spill
      directory is confined when the job id is.
    - The chain ([JobEscrow], [Anchor], [TonRail], [TonAbi]): the settlement the code
      sends is the one the contract executes, a settlement pays only as agreed, a dispute
      opens exactly for anchored records while dispute numbers last.
    - Stores ([TrustDb], [Reputation], [Liveness]): the persistent trust store refines
      the in-memory one while the numbers it writes are finite, both stay bounded; who is excluded from selection.
    - Configuration ([Config], [Overrides], [Estimator]): what a validated configuration
      guarantees to the components that read it, data-class floors survive every
      override, an estimate never prunes a file that can match.
    - Transfer ([ResultStream], [Transport]): frames and results survive any codec and
      order of streams, and any chunk size whose frames fit; what is received stays
      within the manifest.
    - Wallets ([Wallet]): what is signed and broadcast is what was asked for, and a
      verified binding cannot be moved to another node or wallet.
    - A job's execution ([DuckEngine], [DataSource], [Sandbox], [Subprocess], [Sealing],
      [Presign]): the query starts on a connection with exactly the configured settings;
      hostile credentials stay values; a sealed credential or data key opens only where it
      was meant to; the generated sandbox profile reads back as exactly the rules its
      configuration grants ([granted], [allowed]), and signed URLs as intended; a child
      process gives what the engine would, for results that JSON can carry.
    - Settings ([Environment], [Settings], [Bindings]): a loaded configuration is its file
      with the environment on top; a change of settings happens completely or not at all,
      but for a secret stored before its call is refused; a secret reaches only its own file; bindings and blocks survive a restart.
    - Inputs ([InputResolver]): every source the scan of a query finds is pinned, and
      nothing else; the examples show what the scan misses.
    - The node ([Node], [Preflight], [Wiring]): without a grid it answers from its own
      engine, as a thin client it never does; with remote reads enabled, jobs run in
      children (under a sandbox that may be empty when the backend is foreign); its pools
      hold the job it advertises; a rail that moves funds is built only when asked for and
      signs with the key of the selected network; the parameters it publishes are accepted
      on chain but for the rounding of the slash shares and ranking weights above one.

    ** Bounds and fuel

    Integers are [Z] with the wrap, saturation or check the code applies written out.
    Fuel appears where a Rust loop is not structural and is always enough: the key
    width plus one for dictionary nodes, 8 rounds for a 64-bit shift, the iteration
    limit [max_iters] of the proof of work (the code's own limit).  The retry loop takes
    fuel that [grid_query_returns] shows to be enough, the host of a child process reads
    as many frames as its stream has bytes, and the loop over a query's rows is shown to
    end within the configured number of bytes.  Executions of the governor and of
    a worker are unbounded sequences of steps.  The release profile keeps overflow checks
    on (src/Cargo.toml), so an overflowing operation is a panic: [None] where the model
    has one.

    ** Not modelled

    Network, process and clock I/O; the async runtime (concurrency is modelled where
    components share state); serde, TOML and JSON encodings; DuckDB itself, the calls that
    install a sandbox in the operating system, and object stores; QUIC and TLS; random draws, which are parameters (a permutation, a
    nonce source) where a modelled function uses them; the DuckDB extension and the
    console, which are bindings over the modelled operations. *)

From stdpp Require Export base list list_numbers sorting gmap strings.
From Stdlib Require Export ZArith Lia.
From Stdlib Require Strings.Byte.

#[global] Set Default Goal Selector "!".
#[export] Set Default Proof Using "Type".

Declare Scope duckton_scope.
Delimit Scope duckton_scope with D.
#[global] Open Scope Z_scope.

(** ** The result type of fallible Rust code *)

Inductive result (A E : Type) : Type :=
| Ok (a : A)
| Err (e : E).
Arguments Ok {A E} a.
Arguments Err {A E} e.

Definition res_bind {A B E : Type} (r : result A E) (k : A -> result B E) : result B E :=
  match r with Ok a => k a | Err e => Err e end.

Definition is_ok {A E : Type} (r : result A E) : bool :=
  match r with Ok _ => true | Err _ => false end.

(** [x <-? r ; k] is Rust's [let x = r?; k]; [guard b else e ; k] is
    [if !b { return Err(e) } k]. *)
Notation "x '<-?' r ';;' k" := (res_bind r (fun x => k))
  (at level 60, r at next level, right associativity) : duckton_scope.
Notation "'guard' b 'else' e ';;' k" := (if b then k else Err e)
  (at level 60, b at level 59, e at level 59, right associativity) : duckton_scope.

(** [ok_or o e] is [Option::ok_or]. *)
Definition ok_or {A E : Type} (o : option A) (e : E) : result A E :=
  match o with Some a => Ok a | None => Err e end.

Lemma res_bind_ok {A B E} (r : result A E) (k : A -> result B E) b :
  res_bind r k = Ok b <-> exists a, r = Ok a /\ k a = Ok b.
Proof. destruct r; simpl; naive_solver. Qed.

Lemma ok_or_ok {A E} (o : option A) (e : E) a : ok_or o e = Ok a <-> o = Some a.
Proof. destruct o; simpl; naive_solver. Qed.

(** ** Machine integers

    A [w]-bit unsigned integer is a [Z] in [[0, 2^w)]; the Rust operators
    that differ from the mathematical ones are written out. *)

Definition in_u (w : Z) (z : Z) : Prop := 0 <= z < 2 ^ w.
#[global] Instance in_u_dec w z : Decision (in_u w z).
Proof. unfold in_u. apply _. Defined.

Definition umax (w : Z) : Z := 2 ^ w - 1.
Definition wrap (w : Z) (z : Z) : Z := z mod 2 ^ w.
Definition sat_add (w a b : Z) : Z := Z.min (a + b) (umax w).
Definition sat_mul (w a b : Z) : Z := Z.min (a * b) (umax w).
Definition sat_sub (a b : Z) : Z := Z.max (a - b) 0.
Definition checked_add (w a b : Z) : option Z :=
  if decide (a + b <= umax w) then Some (a + b) else None.
(** Two's-complement reinterpretation of a [w]-bit word. *)
Definition to_signed (w : Z) (z : Z) : Z :=
  if decide (2 ^ (w - 1) <= z) then z - 2 ^ w else z.
Definition in_i (w : Z) (z : Z) : Prop := - 2 ^ (w - 1) <= z < 2 ^ (w - 1).
#[global] Instance in_i_dec w z : Decision (in_i w z).
Proof. unfold in_i. apply _. Defined.
(** [usize::div_ceil] / [u64::div_ceil]. *)
Definition div_ceil (a b : Z) : Z := (a + b - 1) / b.

(** [destruct_if] splits the first conditional of the goal or of a hypothesis. *)
Ltac destruct_if :=
  match goal with
  | |- context [if ?b then _ else _] => destruct b eqn:?
  | H : context [if ?b then _ else _] |- _ => destruct b eqn:?
  end.

(** Turns boolean tests of the code into propositions. *)
Ltac bool_to_prop :=
  repeat match goal with
  | H : _ && _ = true |- _ => apply andb_true_iff in H as [? ?]
  | H : _ && _ = false |- _ => apply andb_false_iff in H
  | H : _ || _ = true |- _ => apply orb_true_iff in H
  | H : _ || _ = false |- _ => apply orb_false_iff in H as [? ?]
  | H : negb _ = true |- _ => apply negb_true_iff in H
  | H : negb _ = false |- _ => apply negb_false_iff in H
  | H : (_ <? _) = true |- _ => apply Z.ltb_lt in H
  | H : (_ <? _) = false |- _ => apply Z.ltb_ge in H
  | H : (_ <=? _) = true |- _ => apply Z.leb_le in H
  | H : (_ <=? _) = false |- _ => apply Z.leb_gt in H
  | H : (_ =? _) = true |- _ => apply Z.eqb_eq in H
  | H : (_ =? _) = false |- _ => apply Z.eqb_neq in H
  | H : bool_decide _ = true |- _ => apply bool_decide_eq_true in H
  | H : bool_decide _ = false |- _ => apply bool_decide_eq_false in H
  | H : (_ <? _)%nat = true |- _ => apply Nat.ltb_lt in H
  | H : (_ <? _)%nat = false |- _ => apply Nat.ltb_ge in H
  | H : (_ <=? _)%nat = true |- _ => apply Nat.leb_le in H
  | H : (_ <=? _)%nat = false |- _ => apply Nat.leb_gt in H
  | H : (_ =? _)%nat = true |- _ => apply Nat.eqb_eq in H
  | H : (_ =? _)%nat = false |- _ => apply Nat.eqb_neq in H
  end.

(** Closes a closed well-formedness goal by evaluation. *)
Ltac decide_closed := apply (bool_decide_unpack _); vm_compute; exact I.
Ltac solve_wf := repeat (hnf; constructor); vm_compute; done.

Create HintDb duckton.

Lemma umax_pos w : 0 <= w -> 0 <= umax w.
Proof. intros. unfold umax. pose proof (Z.pow_pos_nonneg 2 w). lia. Qed.

Lemma sat_add_exact w a b : a + b <= umax w -> sat_add w a b = a + b.
Proof. unfold sat_add. lia. Qed.

Lemma sat_mul_exact w a b : a * b <= umax w -> sat_mul w a b = a * b.
Proof. unfold sat_mul. lia. Qed.

Lemma sat_add_mono w a a' b b' :
  a <= a' -> b <= b' -> sat_add w a b <= sat_add w a' b'.
Proof. unfold sat_add. lia. Qed.

Lemma sat_mul_mono w a a' b b' :
  0 <= a <= a' -> 0 <= b <= b' -> sat_mul w a b <= sat_mul w a' b'.
Proof. unfold sat_mul. intros. assert (a * b <= a' * b') by nia. lia. Qed.

Lemma sat_add_nonneg w a b : 0 <= w -> 0 <= a -> 0 <= b -> 0 <= sat_add w a b.
Proof. intros. unfold sat_add. pose proof (umax_pos w). lia. Qed.

Lemma sat_mul_nonneg w a b : 0 <= w -> 0 <= a -> 0 <= b -> 0 <= sat_mul w a b.
Proof. intros. unfold sat_mul. pose proof (umax_pos w). nia. Qed.

#[export] Hint Resolve umax_pos sat_add_nonneg sat_mul_nonneg : duckton.

(** ** Transition systems: reflexive-transitive closure and invariants *)

Section reachability.
Context {S : Type} (step : S -> S -> Prop).

Inductive steps : S -> S -> Prop :=
| steps_refl s : steps s s
| steps_snoc s t u : steps s t -> step t u -> steps s u.

Lemma steps_trans s t u : steps s t -> steps t u -> steps s u.
Proof. intros H1 H2. induction H2; eauto using steps. Qed.

(** A predicate that holds initially and is preserved by every step holds of
    every reachable state. *)
Lemma steps_invariant (I : S -> Prop) :
  (forall s t, I s -> step s t -> I t) -> forall s t, steps s t -> I s -> I t.
Proof. induction 2; eauto. Qed.
End reachability.

(** ** Sums over lists *)

Definition sum_by {A : Type} (f : A -> Z) (l : list A) : Z :=
  foldr (fun a acc => f a + acc) 0 l.

Lemma sum_by_app {A} (f : A -> Z) l k : sum_by f (l ++ k) = sum_by f l + sum_by f k.
Proof. induction l; simpl; lia. Qed.

Lemma sum_by_nonneg {A} (f : A -> Z) l : (forall a, a ∈ l -> 0 <= f a) -> 0 <= sum_by f l.
Proof.
  induction l as [|a l IH]; simpl; intros H; [lia|].
  pose proof (H a ltac:(set_solver)). assert (0 <= sum_by f l) by (apply IH; set_solver). lia.
Qed.

Lemma sum_by_const {A} (f : A -> Z) c l :
  (forall a, a ∈ l -> f a = c) -> sum_by f l = c * Z.of_nat (length l).
Proof.
  induction l as [|a l IH]; intros H; simpl; [lia|].
  rewrite (H a) by set_solver. rewrite IH by set_solver. lia.
Qed.

Lemma sum_by_perm {A} (f : A -> Z) l k : l ≡ₚ k -> sum_by f l = sum_by f k.
Proof. induction 1; simpl; lia. Qed.

Lemma sum_by_insert {A} (f : A -> Z) l i x y :
  l !! i = Some x -> sum_by f (<[i := y]> l) = sum_by f l - f x + f y.
Proof.
  revert i; induction l as [|a l IH]; intros [|i] H; simpl in *; try done.
  - injection H as ->. lia.
  - rewrite (IH i) by done. lia.
Qed.

Lemma sum_by_ge {A} (f : A -> Z) l i x :
  (forall a, a ∈ l -> 0 <= f a) -> l !! i = Some x -> f x <= sum_by f l.
Proof.
  intros Hf H. apply list_elem_of_split_length in H as (l1 & l2 & -> & _).
  rewrite sum_by_app. simpl.
  assert (0 <= sum_by f l1) by (apply sum_by_nonneg; set_solver).
  assert (0 <= sum_by f l2) by (apply sum_by_nonneg; set_solver). lia.
Qed.

(** [injection] restricted to one level of [cons]. *)
Lemma cons_inj_pair {A} (x y : A) l k : x :: l = y :: k -> x = y /\ l = k.
Proof. by intros [= -> ->]. Qed.

Lemma fmap_inj_on {A B} (f : A -> B) (l k : list A) :
  (forall x y, x ∈ l -> y ∈ k -> f x = f y -> x = y) -> f <$> l = f <$> k -> l = k.
Proof.
  revert k; induction l as [|a l IH]; intros [|b k] Hinj H; try done.
  simpl in H. injection H as Hab H. f_equal; [apply Hinj; set_solver|].
  apply IH; [|done]. intros. apply Hinj; set_solver.
Qed.

(** A function injective on the elements of two lists reflects permutation. *)
Lemma fmap_perm_inj {A B} (f : A -> B) (l k : list A) :
  (forall x y, x ∈ l -> y ∈ k -> f x = f y -> x = y) -> f <$> l ≡ₚ f <$> k -> l ≡ₚ k.
Proof.
  intros Hinj Hp. apply (Permutation_map_inv f k) in Hp as (l' & He & Hp).
  rewrite Hp. apply (fmap_inj_on f) in He as ->; [done|].
  intros x y Hx Hy. apply Hinj; [done|]. by rewrite Hp.
Qed.

(** ** Stable sorting

    [slice::sort_by] is a stable sort: the elements come out ordered, and
    elements the comparator calls equal keep their relative order.  [isort le]
    is that function, for [le a b] the comparator's [a <= b]. *)

Section isort.
Context {A : Type} (le : A -> A -> bool).

Fixpoint insert_sorted (x : A) (l : list A) : list A :=
  match l with
  | [] => [x]
  | y :: l' => if le x y then x :: y :: l' else y :: insert_sorted x l'
  end.

Definition isort (l : list A) : list A := foldr insert_sorted [] l.

Lemma insert_sorted_perm x l : insert_sorted x l ≡ₚ x :: l.
Proof.
  induction l as [|y l IH]; simpl; [done|].
  destruct (le x y); [done|]. rewrite IH. apply Permutation_swap.
Qed.

Lemma isort_perm l : isort l ≡ₚ l.
Proof. induction l as [|x l IH]; simpl; [done|]. by rewrite insert_sorted_perm, IH. Qed.

Lemma isort_length l : length (isort l) = length l.
Proof. by rewrite isort_perm. Qed.

Lemma elem_of_isort x l : x ∈ isort l <-> x ∈ l.
Proof. by rewrite isort_perm. Qed.

Context (le_total : forall x y, le x y = true \/ le y x = true).
Context (le_trans : forall x y z, le x y = true -> le y z = true -> le x z = true).

Abbreviation sorted := (StronglySorted (fun x y => le x y = true)).

Lemma insert_sorted_sorted x l : sorted l -> sorted (insert_sorted x l).
Proof using le_total le_trans.
  induction 1 as [|y l Hl IH Hall]; simpl.
  { repeat constructor. }
  destruct (le x y) eqn:E.
  - constructor; [by constructor|]. constructor; [done|].
    eapply Forall_impl; [exact Hall|]. simpl. eauto.
  - constructor; [done|].
    rewrite insert_sorted_perm. constructor; [|done].
    destruct (le_total x y); congruence.
Qed.

Lemma isort_sorted l : sorted (isort l).
Proof using le_total le_trans.
  induction l; simpl; [constructor|]. by apply insert_sorted_sorted.
Qed.

(** Stability, stated on one equivalence class [p] of the comparator. *)
Lemma insert_sorted_filter (p : A -> bool) x l :
  (forall a b, p a = true -> p b = true -> le a b = true) ->
  List.filter p (insert_sorted x l) = List.filter p (x :: l).
Proof using Type.
  intros Hp. induction l as [|y l IH]; [done|].
  simpl insert_sorted. destruct (le x y) eqn:E; [done|].
  simpl. rewrite IH. simpl. destruct (p x) eqn:Px, (p y) eqn:Py; try done.
  rewrite Hp in E by done. done.
Qed.

Lemma isort_stable (p : A -> bool) l :
  (forall a b, p a = true -> p b = true -> le a b = true) ->
  List.filter p (isort l) = List.filter p l.
Proof using Type.
  intros Hp. induction l as [|x l IH]; [done|].
  simpl isort. rewrite insert_sorted_filter by done. simpl. by rewrite IH.
Qed.

(** When the comparator separates the elements of the two lists, the sorted
    list depends on the multiset of elements only. *)
Lemma isort_unique l k :
  (forall x y, x ∈ l -> y ∈ l -> le x y = true -> le y x = true -> x = y) ->
  l ≡ₚ k -> isort l = isort k.
Proof using le_total le_trans.
  intros Hanti Hp.
  eapply (StronglySorted_unique_strong (fun x y => le x y = true)).
  - intros x y Hx Hy. rewrite elem_of_isort in Hx, Hy. rewrite <- Hp in Hy. eauto.
  - apply isort_sorted.
  - apply isort_sorted.
  - by rewrite !isort_perm.
Qed.

Lemma insert_sorted_head x l :
  sorted (x :: l) -> insert_sorted x l = x :: l.
Proof using Type.
  intros H. inv H. destruct l as [|y l]; [done|]. simpl.
  match goal with H : Forall _ (y :: l) |- _ => inv H end.
  match goal with H : le x y = true |- _ => by rewrite H end.
Qed.

(** Sorting a sorted list is the identity. *)
Lemma isort_id l : sorted l -> isort l = l.
Proof using Type.
  induction 1 as [|x l Hl IH Hall]; [done|]. simpl. rewrite IH.
  apply insert_sorted_head. by constructor.
Qed.
End isort.
