(* ===== verification/Bytes.v ===== *)
(** * Bytes, machine-integer encodings, hexadecimal and self-delimiting codecs

    Rust's [Vec<u8>], [&[u8]] and (UTF-8) [String]/[&str] are all [bytes] here:
    the code under verification only ever compares, concatenates, measures and
    hashes them bytewise.  The second half is the interface the signing and
    hashing components are proved against: an encoder is a [Codec] when the
    encoded value and the bytes that follow it can both be recovered. *)

From S2P Require Import Prelude.

Abbreviation byte := Byte.byte.
Abbreviation bytes := (list byte).

#[global] Instance byte_eq_dec : EqDecision byte := Byte.byte_eq_dec.
#[global] Program Instance byte_countable : Countable byte :=
  inj_countable Byte.to_N Byte.of_N _.
Next Obligation. apply Byte.of_to_N. Qed.

(** A string literal of the source as its bytes. *)
Definition str (s : string) : bytes := String.list_byte_of_string s.
Arguments str s%_string.

(** ** Bytes as integers *)

Definition byte_val (b : byte) : Z := Z.of_N (Byte.to_N b).
(** [z as u8] *)
Definition byte_of_Z (z : Z) : byte :=
  match Byte.of_N (Z.to_N (z mod 256)) with Some b => b | None => Byte.x00 end.

Lemma byte_val_range b : 0 <= byte_val b < 256.
Proof. unfold byte_val. pose proof (Byte.to_N_bounded b). lia. Qed.

Lemma byte_val_inj b c : byte_val b = byte_val c -> b = c.
Proof.
  unfold byte_val. intros H%N2Z.inj.
  pose proof (Byte.of_to_N b) as Hb. rewrite H, Byte.of_to_N in Hb. congruence.
Qed.

Lemma byte_val_of_Z z : byte_val (byte_of_Z z) = z mod 256.
Proof.
  unfold byte_val, byte_of_Z.
  pose proof (Z.mod_pos_bound z 256 ltac:(lia)).
  destruct (Byte.of_N _) eqn:E.
  - apply Byte.to_of_N in E. rewrite E. lia.
  - apply Byte.of_N_None_iff in E. lia.
Qed.

Lemma byte_of_val b : byte_of_Z (byte_val b) = b.
Proof.
  apply byte_val_inj. rewrite byte_val_of_Z. apply Z.mod_small, byte_val_range.
Qed.

Lemma byte_of_Z_small z : 0 <= z < 256 -> byte_val (byte_of_Z z) = z.
Proof. intros. rewrite byte_val_of_Z. by apply Z.mod_small. Qed.

(** ** Little- and big-endian encodings: [x.to_le_bytes()] and [x.to_be_bytes()] *)

Fixpoint le_bytes (n : nat) (z : Z) : bytes :=
  match n with O => [] | S n' => byte_of_Z z :: le_bytes n' (z / 256) end.

Fixpoint le_val (bs : bytes) : Z :=
  match bs with [] => 0 | b :: bs' => byte_val b + 256 * le_val bs' end.

Definition be_bytes (n : nat) (z : Z) : bytes := rev (le_bytes n z).
Definition be_val (bs : bytes) : Z := le_val (rev bs).

Abbreviation le16 := (le_bytes 2).
Abbreviation le32 := (le_bytes 4).
Abbreviation le64 := (le_bytes 8).
Abbreviation le128 := (le_bytes 16).

Lemma length_le_bytes n z : length (le_bytes n z) = n.
Proof. revert z; induction n; simpl; intros; [done|]. by rewrite IHn. Qed.

Lemma length_be_bytes n z : length (be_bytes n z) = n.
Proof. unfold be_bytes. by rewrite length_rev, length_le_bytes. Qed.

Lemma le_val_bytes n z : 0 <= z < 256 ^ Z.of_nat n -> le_val (le_bytes n z) = z.
Proof.
  revert z; induction n as [|n IH]; intros z Hz; cbn [le_bytes le_val].
  { change (256 ^ Z.of_nat 0) with 1 in Hz. lia. }
  rewrite Nat2Z.inj_succ, Z.pow_succ_r in Hz by lia.
  rewrite byte_val_of_Z, IH.
  - rewrite (Z.div_mod z 256) at 3 by lia. lia.
  - split; [apply Z.div_pos; lia|]. apply Z.div_lt_upper_bound; lia.
Qed.

Lemma le_bytes_val bs : le_bytes (length bs) (le_val bs) = bs.
Proof.
  induction bs as [|b bs IH]; [done|]. cbn [length le_bytes le_val].
  pose proof (byte_val_range b). f_equal.
  - apply byte_val_inj. rewrite byte_val_of_Z.
    replace (byte_val b + 256 * le_val bs) with (byte_val b + le_val bs * 256) by lia.
    rewrite Z.mod_add by lia. by apply Z.mod_small.
  - replace (byte_val b + 256 * le_val bs) with (byte_val b + le_val bs * 256) by lia.
    rewrite Z.div_add, Z.div_small by lia. done.
Qed.

Lemma le_val_bound bs : 0 <= le_val bs < 256 ^ Z.of_nat (length bs).
Proof.
  induction bs as [|b bs IH]; cbn [length le_val]; [done|].
  rewrite Nat2Z.inj_succ, Z.pow_succ_r by lia.
  pose proof (byte_val_range b). lia.
Qed.

Lemma be_val_bytes n z : 0 <= z < 256 ^ Z.of_nat n -> be_val (be_bytes n z) = z.
Proof. intros. unfold be_val, be_bytes. rewrite rev_involutive. by apply le_val_bytes. Qed.

Lemma be_bytes_val bs : be_bytes (length bs) (be_val bs) = bs.
Proof.
  unfold be_bytes, be_val. rewrite <- (length_rev bs), le_bytes_val. apply rev_involutive.
Qed.

Lemma pow_256 n : 256 ^ Z.of_nat n = 2 ^ (8 * Z.of_nat n).
Proof. by rewrite Z.pow_mul_r by lia. Qed.

(** ** Lexicographic order on byte strings (Rust's [Ord] on [str] and [Vec<u8>]) *)

Fixpoint lex_leb (a b : bytes) : bool :=
  match a, b with
  | [], _ => true
  | _ :: _, [] => false
  | x :: a', y :: b' =>
      if byte_val x <? byte_val y then true
      else if byte_val y <? byte_val x then false
      else lex_leb a' b'
  end.

Lemma lex_leb_refl a : lex_leb a a = true.
Proof. induction a; simpl; [done|]. by rewrite Z.ltb_irrefl. Qed.

Lemma lex_leb_total a b : lex_leb a b = true \/ lex_leb b a = true.
Proof.
  revert b; induction a as [|x a IH]; intros [|y b]; simpl; auto.
  destruct (Z.ltb_spec (byte_val x) (byte_val y)), (Z.ltb_spec (byte_val y) (byte_val x)); auto.
Qed.

Lemma lex_leb_trans a b c : lex_leb a b = true -> lex_leb b c = true -> lex_leb a c = true.
Proof.
  revert b c; induction a as [|x a IH]; intros [|y b] [|z c]; simpl; try done.
  destruct (Z.ltb_spec (byte_val x) (byte_val y)), (Z.ltb_spec (byte_val y) (byte_val x)),
    (Z.ltb_spec (byte_val y) (byte_val z)), (Z.ltb_spec (byte_val z) (byte_val y)),
    (Z.ltb_spec (byte_val x) (byte_val z)), (Z.ltb_spec (byte_val z) (byte_val x));
    try done; try lia; eauto.
Qed.

Lemma lex_leb_antisym a b : lex_leb a b = true -> lex_leb b a = true -> a = b.
Proof.
  revert b; induction a as [|x a IH]; intros [|y b]; simpl; try done.
  destruct (Z.ltb_spec (byte_val x) (byte_val y)), (Z.ltb_spec (byte_val y) (byte_val x));
    try done; try lia.
  intros. f_equal; [apply byte_val_inj; lia | auto].
Qed.

(** ** Hexadecimal ([hex::encode], [hex::decode]) *)

Definition hex_digit (n : Z) : byte := byte_of_Z (if n <? 10 then 48 + n else 87 + n).

Definition hex_encode (bs : bytes) : bytes :=
  mjoin ((fun b => [hex_digit (byte_val b / 16); hex_digit (byte_val b mod 16)]) <$> bs).

Definition hex_val (c : byte) : option Z :=
  let v := byte_val c in
  if (48 <=? v) && (v <=? 57) then Some (v - 48)
  else if (97 <=? v) && (v <=? 102) then Some (v - 87)
  else if (65 <=? v) && (v <=? 70) then Some (v - 55)
  else None.

Fixpoint hex_decode (s : bytes) : option bytes :=
  match s with
  | [] => Some []
  | [_] => None
  | h :: l :: s' =>
      match hex_val h, hex_val l, hex_decode s' with
      | Some x, Some y, Some r => Some (byte_of_Z (16 * x + y) :: r)
      | _, _, _ => None
      end
  end.

Lemma hex_val_digit n : 0 <= n < 16 -> hex_val (hex_digit n) = Some n.
Proof.
  intros Hn. assert (n ∈ seqZ 0 16) as Hin by (apply elem_of_seqZ; lia).
  clear Hn. revert n Hin. apply Forall_forall.
  apply (bool_decide_unpack _). vm_compute. exact I.
Qed.

Lemma hex_encode_cons b bs :
  hex_encode (b :: bs) =
  hex_digit (byte_val b / 16) :: hex_digit (byte_val b mod 16) :: hex_encode bs.
Proof. done. Qed.

(** Decoding inverts encoding. *)
Lemma hex_decode_encode bs : hex_decode (hex_encode bs) = Some bs.
Proof.
  induction bs as [|b bs IH]; [done|]. rewrite hex_encode_cons. simpl.
  pose proof (byte_val_range b).
  rewrite !hex_val_digit, IH.
  - do 2 f_equal. apply byte_val_inj. rewrite byte_of_Z_small.
    + rewrite (Z.div_mod (byte_val b) 16) at 3 by lia. lia.
    + pose proof (Z.div_mod (byte_val b) 16 ltac:(lia)).
      pose proof (Z.mod_pos_bound (byte_val b) 16 ltac:(lia)). lia.
  - apply Z.mod_pos_bound. lia.
  - split; [apply Z.div_pos; lia | apply Z.div_lt_upper_bound; lia].
Qed.

Lemma hex_encode_inj a b : hex_encode a = hex_encode b -> a = b.
Proof.
  intros H. assert (Some a = Some b) as [=]; [|done].
  by rewrite <- !hex_decode_encode, H.
Qed.

(** [hex::decode(s).ok()?.try_into::<[u8; n]>().ok()] *)
Definition hex_array (n : nat) (s : bytes) : option bytes :=
  match hex_decode s with
  | Some b => if (length b =? n)%nat then Some b else None
  | None => None
  end.

Lemma hex_array_encode n bs : length bs = n -> hex_array n (hex_encode bs) = Some bs.
Proof.
  intros H. unfold hex_array. by rewrite hex_decode_encode, (proj2 (Nat.eqb_eq _ _) H).
Qed.

Lemma hex_array_length n s bs : hex_array n s = Some bs -> length bs = n.
Proof.
  unfold hex_array. destruct (hex_decode s); [|done]. destruct_if; [|done].
  intros [=<-]. by bool_to_prop.
Qed.

(** ** Self-delimiting codecs *)

(** Lengths of Rust buffers are at most [isize::MAX]. *)
Definition fits (b : bytes) : Prop := Z.of_nat (length b) < 2 ^ 63.
#[global] Instance fits_dec b : Decision (fits b).
Proof. unfold fits. apply _. Defined.

(** [enc] is a codec on the values satisfying [wf]: both the value and what
    follows its encoding are determined by the bytes. *)
Class Codec {A : Type} (wf : A -> Prop) (enc : A -> bytes) : Prop :=
  codec_inj : forall a b s t, wf a -> wf b -> enc a ++ s = enc b ++ t -> a = b /\ s = t.

(** Two encodings of equal length agree exactly when their values do. *)
Lemma fixed_codec {A} (wf : A -> Prop) (enc : A -> bytes) n :
  (forall a, wf a -> length (enc a) = n) ->
  (forall a b, wf a -> wf b -> enc a = enc b -> a = b) -> Codec wf enc.
Proof.
  intros Hlen Hinj a b s t Ha Hb H.
  apply app_inj_1 in H as [H ->]; [|by rewrite !Hlen]. eauto.
Qed.

Lemma le_bytes_inj n a b :
  0 <= a < 256 ^ Z.of_nat n -> 0 <= b < 256 ^ Z.of_nat n -> le_bytes n a = le_bytes n b -> a = b.
Proof. intros Ha Hb H. by rewrite <- (le_val_bytes n a), <- (le_val_bytes n b), H. Qed.

#[export] Instance le_codec n : Codec (fun z => 0 <= z < 256 ^ Z.of_nat n) (le_bytes n).
Proof. apply (fixed_codec _ _ n); [intros; apply length_le_bytes | apply le_bytes_inj]. Qed.

(** Signed integers are encoded in two's complement. *)
Lemma le_val_bytes_mod n z : le_val (le_bytes n z) = z mod 256 ^ Z.of_nat n.
Proof.
  revert z; induction n as [|n IH]; intros z; cbn [le_bytes le_val].
  { change (256 ^ Z.of_nat 0) with 1. by rewrite Z.mod_1_r. }
  rewrite byte_val_of_Z, IH, Nat2Z.inj_succ, Z.pow_succ_r by lia.
  rewrite Z.rem_mul_r by lia. lia.
Qed.

#[export] Instance le_signed_codec n :
  Codec (fun z => - 256 ^ Z.of_nat n <= 2 * z < 256 ^ Z.of_nat n) (le_bytes n) | 10.
Proof.
  apply (fixed_codec _ _ n); [intros; apply length_le_bytes|].
  intros a b Ha Hb H.
  pose proof (le_val_bytes_mod n a) as Ea. rewrite H, le_val_bytes_mod in Ea.
  pose proof (Z.pow_pos_nonneg 256 (Z.of_nat n) ltac:(lia) ltac:(lia)).
  pose proof (Z.div_mod a (256 ^ Z.of_nat n) ltac:(lia)).
  pose proof (Z.div_mod b (256 ^ Z.of_nat n) ltac:(lia)).
  assert (a / 256 ^ Z.of_nat n = b / 256 ^ Z.of_nat n); [|congruence].
  set (M := 256 ^ Z.of_nat n) in *. set (qa := a / M) in *. set (qb := b / M) in *.
  assert (M * (qa - qb) = a - b) by lia.
  destruct (Z.lt_trichotomy (qa - qb) 0) as [|[|]]; [nia|lia|nia].
Qed.

#[export] Instance raw_codec n : Codec (fun b => length b = n) (fun b : bytes => b).
Proof. by apply (fixed_codec _ _ n). Qed.

(** The length-prefixed field every signing preimage of the code is made of. *)
Definition field (b : bytes) : bytes := le64 (Z.of_nat (length b)) ++ b.

#[export] Instance field_codec : Codec fits field.
Proof.
  intros a b s t Ha Hb H. unfold field in H. rewrite <- !app_assoc in H.
  apply (codec_inj (A := Z)) in H as [Hl H].
  - apply app_inj_1 in H as [-> ->]; [done|lia].
  - rewrite pow_256. unfold fits in Ha. change (2 ^ (8 * Z.of_nat 8)) with (2 ^ 64). lia.
  - rewrite pow_256. unfold fits in Hb. change (2 ^ (8 * Z.of_nat 8)) with (2 ^ 64). lia.
Qed.

Lemma field_inj a b : fits a -> fits b -> field a = field b -> a = b.
Proof.
  intros Ha Hb H. destruct (codec_inj a b [] [] Ha Hb) as [? _]; [|done].
  by rewrite !app_nil_r.
Qed.

(** Codecs are closed under concatenation of encodings. *)
Lemma codec_list {A} (wf : A -> Prop) (enc : A -> bytes) `{!Codec wf enc} l k s t :
  length l = length k -> Forall wf l -> Forall wf k ->
  mjoin (enc <$> l) ++ s = mjoin (enc <$> k) ++ t -> l = k /\ s = t.
Proof.
  revert k. induction l as [|a l IH]; intros [|b k] Hlen Hl Hk H; try done.
  inv Hl. inv Hk. simpl in H. rewrite <- !app_assoc in H.
  apply codec_inj in H as [-> H]; [|done..].
  apply IH in H as [-> ->]; [done| |done..]. by inv Hlen.
Qed.

Lemma codec_list_inj {A} (wf : A -> Prop) (enc : A -> bytes) `{!Codec wf enc} l k :
  mjoin (enc <$> l) = mjoin (enc <$> k) ->
  length l = length k -> Forall wf l -> Forall wf k -> l = k.
Proof.
  intros H Hlen Hl Hk. destruct (codec_list wf enc l k [] [] Hlen Hl Hk) as [? _]; [|done].
  by rewrite !app_nil_r.
Qed.

Lemma codec_inj_nil {A} (wf : A -> Prop) (enc : A -> bytes) `{!Codec wf enc} a b :
  enc a = enc b -> wf a -> wf b -> a = b.
Proof.
  intros H Ha Hb. destruct (codec_inj a b [] [] Ha Hb) as [? _]; [|done]. by rewrite !app_nil_r.
Qed.

(** A concatenation of fields determines the list of fields. *)
Lemma field_list_inj l k :
  Forall fits l -> Forall fits k -> mjoin (field <$> l) = mjoin (field <$> k) -> l = k.
Proof.
  assert (forall b s, field b ++ s <> []) as Hne.
  { intros b s H. apply (f_equal length) in H. unfold field in H.
    rewrite !length_app, length_le_bytes in H. simpl in H. lia. }
  intros Hl. revert k. induction Hl as [|a l Ha Hl IH]; intros [|b k] Hk H; rewrite ?fmap_cons in H.
  - done.
  - by destruct (Hne b (mjoin (field <$> k))).
  - by destruct (Hne a (mjoin (field <$> l))).
  - apply Forall_cons in Hk as [Hb Hk]. apply codec_inj in H as [-> H]; [|done..].
    f_equal. auto.
Qed.

(** Reassociates an equation between two encodings, and peels one codec off it. *)
Ltac reassoc H := repeat rewrite <- app_assoc in H.

Lemma codec_peel {A} (wf : A -> Prop) (enc : A -> bytes) `{!Codec wf enc} a b s t :
  enc a ++ s = enc b ++ t -> wf a -> wf b -> a = b /\ s = t.
Proof. intros H Ha Hb. by apply codec_inj in H. Qed.

(** [peel_field H], [peel_le n H], [peel_raw n H]: one step of decoding [H];
    side conditions go to [tac]. *)
Tactic Notation "peel_field" hyp(H) "by" tactic3(tac) :=
  apply (codec_peel fits field) in H as [? H]; [|solve [tac]..].
Tactic Notation "peel_le" constr(n) hyp(H) "by" tactic3(tac) :=
  apply (codec_peel _ (le_bytes n)) in H as [? H]; [|solve [tac]..].
Tactic Notation "peel_raw" constr(n) hyp(H) "by" tactic3(tac) :=
  apply (codec_peel (fun b => length b = n) (fun b => b)) in H as [? H]; [|solve [tac]..].

Lemma in_u_le w n z : w = 8 * Z.of_nat n -> in_u w z -> 0 <= z < 256 ^ Z.of_nat n.
Proof. intros -> H. by rewrite pow_256. Qed.

Lemma in_i_le64 g : in_i 64 g -> - 256 ^ Z.of_nat 8 <= 2 * g < 256 ^ Z.of_nat 8.
Proof. rewrite pow_256. unfold in_i. simpl. lia. Qed.

Lemma len64_range (n : nat) : Z.of_nat n < 2 ^ 63 -> 0 <= Z.of_nat n < 256 ^ Z.of_nat 8.
Proof. rewrite pow_256. simpl. lia. Qed.

(** Closes the range side conditions of [peel_le] from [in_u] hypotheses. *)
Ltac solve_range :=
  first [ done
        | match goal with H : in_u ?w ?z |- 0 <= ?z < 256 ^ Z.of_nat ?n =>
            apply (in_u_le w n z); [reflexivity | exact H] end ].

Lemma fits_field_le n z : (n <= 16)%nat -> fits (le_bytes n z).
Proof. intros. unfold fits. rewrite length_le_bytes. lia. Qed.

Lemma fits_small (b : bytes) : (length b <= 4096)%nat -> fits b.
Proof. unfold fits. lia. Qed.

#[export] Hint Resolve fits_field_le fits_small : duckton.
