(* ===== verification/F64.v ===== *)
(** * IEEE 754 binary64, as Rust's [f64]

    An executable model on the Standard Library's specification floats (pure
    integers, round to nearest even): the operators, comparisons, [as] casts,
    [floor]/[ceil]/[round] and [clamp]/[min]/[max] the code uses. *)

From S2P Require Import Prelude.
From Stdlib Require Import SpecFloat.

Abbreviation f64 := spec_float.

Definition fadd : f64 -> f64 -> f64 := SFadd 53 1024.
Definition fsub : f64 -> f64 -> f64 := SFsub 53 1024.
Definition fmul : f64 -> f64 -> f64 := SFmul 53 1024.
Definition fdiv : f64 -> f64 -> f64 := SFdiv 53 1024.

(** [n as f64] *)
Definition f64_of_Z (n : Z) : f64 := binary_normalize 53 1024 n 0 false.
(** A decimal literal [n / d]. *)
Definition lit (n d : Z) : f64 := fdiv (f64_of_Z n) (f64_of_Z d).

Definition flt (a b : f64) : bool := SFltb a b.
Definition fle (a b : f64) : bool := SFleb a b.
Definition fnan (a : f64) : bool := match a with S754_nan => true | _ => false end.

(** [f64::max], [f64::min]: the other operand when one is NaN. *)
Definition fmax (a b : f64) : f64 := if fnan a then b else if fnan b then a else if flt a b then b else a.
Definition fmin (a b : f64) : f64 := if fnan a then b else if fnan b then a else if flt b a then b else a.

(** [x.clamp(lo, hi)] *)
Definition fclamp (x lo hi : f64) : f64 :=
  let x := if flt x lo then lo else x in if flt hi x then hi else x.

(** [f64::sqrt] is correctly rounded. *)
Definition fsqrt : f64 -> f64 := SFsqrt 53 1024.
Definition feq (a b : f64) : bool := SFeqb a b.
Definition fneg : f64 -> f64 := SFopp.

(** [powf], [ln], [exp] and [log10] come from the platform's mathematical library and
    Rust leaves their precision unspecified: they are parameters. *)
Class Libm := {
  fpowf : f64 -> f64 -> f64;
  fln : f64 -> f64;
  fexp : f64 -> f64;
  flog10 : f64 -> f64;
}.

(** A rounding to an integer, given on the absolute value [m / 2^k] with its sign. *)
Definition fround_with (f : bool -> Z -> Z -> Z) (x : f64) : f64 :=
  match x with
  | S754_finite s m e =>
      if 0 <=? e then x
      else let n := f s (Zpos m) (2 ^ (- e)) in
           if n =? 0 then S754_zero s else f64_of_Z (if s then - n else n)
  | _ => x
  end.

Definition ffloor : f64 -> f64 := fround_with (fun s m d => if s then div_ceil m d else m / d).
Definition fceil : f64 -> f64 := fround_with (fun s m d => if s then m / d else div_ceil m d).
(** Half away from zero. *)
Definition fround : f64 -> f64 := fround_with (fun _ m d => (2 * m + d) / (2 * d)).

(** [x as uN]: truncates, saturates, NaN to zero. *)
Definition as_uint (w : Z) (x : f64) : Z :=
  match x with
  | S754_finite false m e =>
      Z.min (if 0 <=? e then Zpos m * 2 ^ e else Zpos m / 2 ^ (- e)) (umax w)
  | S754_infinity false => umax w
  | _ => 0
  end.

Lemma as_uint_range w x : 0 <= w -> 0 <= as_uint w x <= umax w.
Proof.
  intros Hw. pose proof (umax_pos w Hw). unfold as_uint. destruct x as [[]|[]| |[] m e]; try lia.
  assert (0 <= (if 0 <=? e then Zpos m * 2 ^ e else Zpos m / 2 ^ (- e))); [|lia].
  destruct (Z.leb_spec 0 e); [apply Z.mul_nonneg_nonneg; lia|]. apply Z.div_pos; lia.
Qed.

(** A clamped number lies between its bounds. *)
Definition in01 (x : f64) : Prop := fle (f64_of_Z 0) x = true /\ fle x (f64_of_Z 1) = true.

Lemma flt_not_nan a b : flt a b = true -> fnan a = false /\ fnan b = false.
Proof. unfold flt, SFltb. destruct a, b; done. Qed.

Example lit_rounds : as_uint 64 (fround (fmul (lit 15 100) (f64_of_Z 10000))) = 1500.
Proof. vm_compute. reflexivity. Qed.
Example floor_ceil : as_uint 64 (ffloor (lit 27 10)) = 2 /\ as_uint 64 (fceil (lit 21 10)) = 3.
Proof. vm_compute. done. Qed.

(** Comparison is transitive where it is defined: it is lexicographic on sign, exponent
    and mantissa. *)
Ltac float_order a b c :=
  unfold flt, fle, feq, SFltb, SFleb, SFeqb;
  destruct a as [[]|[]| |[] ? ?], b as [[]|[]| |[] ? ?], c as [[]|[]| |[] ? ?]; cbn [SFcompare]; try done;
  repeat match goal with |- context [Z.compare ?x ?y] => destruct (Z.compare_spec x y); try lia; subst; cbn; try done end;
  repeat match goal with |- context [Pos.compare_cont Eq ?x ?y] => change (Pos.compare_cont Eq x y) with (Pos.compare x y) end;
  repeat match goal with |- context [Pos.compare ?x ?y] => destruct (Pos.compare_spec x y); try lia; subst; cbn; try done end.

Lemma flt_le_trans a b c : flt a b = true -> fle b c = true -> flt a c = true.
Proof. float_order a b c. Qed.
Lemma fle_lt_trans a b c : fle a b = true -> flt b c = true -> flt a c = true.
Proof. float_order a b c. Qed.
Lemma fle_trans a b c : fle a b = true -> fle b c = true -> fle a c = true.
Proof. float_order a b c. Qed.
Lemma fle_eq_trans a b c : fle a b = true -> feq b c = true -> fle a c = true.
Proof. float_order a b c. Qed.
Lemma feq_le_trans a b c : feq b a = true -> fle b c = true -> fle a c = true.
Proof. float_order a b c. Qed.
