(* ===== verification/Crypto.v ===== *)
(** * The cryptographic primitives the code calls, as an interface

    [blake3], [sha2] and [ed25519_dalek] are third-party crates: they are
    parameters here.  [CryptoLaws] lists the documented behaviour the code
    relies on (output sizes, and that a signature made with a key verifies
    strictly under its public key).  Nothing is assumed about collisions or
    forgeries; theorems that need a collision-free hash say on exactly which
    messages ([NoCollision]). *)

From S2P Require Import Prelude Bytes.

Class Crypto := {
  blake3 : bytes -> bytes;              (* blake3::hash(m).as_bytes() *)
  sha256 : bytes -> bytes;              (* Sha256::digest(m) *)
  seckey : Type;                        (* ed25519_dalek::SigningKey *)
  ed_public : seckey -> bytes;          (* key.verifying_key().to_bytes() *)
  ed_sign : seckey -> bytes -> bytes;   (* key.sign(m).to_bytes() *)
  vk_from_bytes : bytes -> bool;        (* VerifyingKey::from_bytes(pk).is_ok() *)
  verify_strict : bytes -> bytes -> bytes -> bool; (* pk, message, signature *)
}.

Class CryptoLaws (C : Crypto) : Prop := {
  blake3_len m : length (blake3 m) = 32%nat;
  sha256_len m : length (sha256 m) = 32%nat;
  ed_public_len k : length (ed_public k) = 32%nat;
  ed_sign_len k m : length (ed_sign k m) = 64%nat;
  vk_public k : vk_from_bytes (ed_public k) = true;
  verify_sign k m : verify_strict (ed_public k) m (ed_sign k m) = true;
}.

(** [H] maps no two different messages of [ms] to one digest. *)
Definition NoCollision (H : bytes -> bytes) (ms : list bytes) : Prop :=
  forall x y, x ∈ ms -> y ∈ ms -> H x = H y -> x = y.

#[global] Instance NoCollision_dec H ms : Decision (NoCollision H ms).
Proof.
  refine (cast_if (decide (Forall (fun x => Forall (fun y => H x = H y -> x = y) ms) ms)));
    unfold NoCollision; rewrite Forall_forall in *.
  - intros x y Hx Hy. specialize (f x Hx). rewrite Forall_forall in f. eauto.
  - intros Hn. apply n. intros x Hx. rewrite Forall_forall. eauto.
Defined.

Lemma NoCollision_app_l H l k : NoCollision H (l ++ k) -> NoCollision H l.
Proof. intros Hn x y Hx Hy. apply Hn; set_solver. Qed.

Lemma NoCollision_sub H l k : (forall x, x ∈ l -> x ∈ k) -> NoCollision H k -> NoCollision H l.
Proof. intros Hs Hn x y Hx Hy. apply Hn; auto. Qed.

(** ** A concrete instance

    Small enough to evaluate; it shows that [CryptoLaws] can hold, and every
    witness of the library runs on it. *)

Definition toy_digest (salt : Z) (m : bytes) : bytes :=
  le_bytes 32 (foldl (fun acc b => Z.land (257 * acc + (byte_val b + 1)) (2 ^ 48 - 1)) salt m).

Definition toy_crypto : Crypto := {|
  blake3 := toy_digest 3;
  sha256 := toy_digest 5;
  seckey := Z;
  ed_public k := le_bytes 32 k;
  ed_sign k m := toy_digest 7 m ++ le_bytes 32 k;
  vk_from_bytes pk := (length pk =? 32)%nat;
  verify_strict pk m s := bool_decide (s = toy_digest 7 m ++ pk);
|}.

#[export] Instance toy_laws : CryptoLaws toy_crypto.
Proof.
  split; intros; cbn [toy_crypto blake3 sha256 ed_public ed_sign vk_from_bytes verify_strict];
    rewrite ?length_app; unfold toy_digest; rewrite ?length_le_bytes; try done.
  by apply bool_decide_eq_true.
Qed.

(** Signing with a key and checking hex-decoded parts is what every
    [sign_*]/[verify_*] pair of the code does; this is the common step. *)
Section sign_and_check.
Context {C : Crypto} {CL : CryptoLaws C}.

Lemma hex_public k : hex_array 32 (hex_encode (ed_public k)) = Some (ed_public k).
Proof using CL. apply hex_array_encode, ed_public_len. Qed.

Lemma hex_signature k m : hex_array 64 (hex_encode (ed_sign k m)) = Some (ed_sign k m).
Proof using CL. apply hex_array_encode, ed_sign_len. Qed.
End sign_and_check.

Create Rewrite HintDb crypto.
#[export] Hint Rewrite @hex_public @hex_signature @vk_public @verify_sign using (typeclasses eauto)
  : crypto.
