(* ===== verification/Text.v ===== *)
(** * Decimal integers and splitting: what the code uses of [core::str] and [core::fmt] *)

From S2P Require Import Prelude Bytes.

(** ** Printing: [format!("{}", n)] for an integer *)

Definition digit (n : Z) : byte := byte_of_Z (48 + n).

Fixpoint show_digits (fuel : nat) (n : Z) (acc : bytes) : bytes :=
  match fuel with
  | O => acc
  | S f => if n <? 10 then digit n :: acc
           else show_digits f (n / 10) (digit (n mod 10) :: acc)
  end.

(** [Z.log2 n + 1] divisions by ten always reach a single digit. *)
Definition show_uint (n : Z) : bytes := show_digits (S (Z.to_nat (Z.log2 n))) n [].
Definition show_int (n : Z) : bytes :=
  if n <? 0 then Byte.x2d :: show_uint (- n) else show_uint n.

(** ** Parsing: [s.parse::<uN>()] and [s.parse::<iN>()] *)

Definition digit_val (c : byte) : option Z :=
  let v := byte_val c in if (48 <=? v) && (v <=? 57) then Some (v - 48) else None.

Fixpoint parse_digits (s : bytes) (acc : Z) : option Z :=
  match s with
  | [] => Some acc
  | c :: s' => match digit_val c with
               | Some d => parse_digits s' (10 * acc + d)
               | None => None
               end
  end.

(** An empty string, a lone sign, a non-digit and an overflow are all errors; a
    leading [+] is accepted, and [-] for signed types only. *)
Definition parse_nonempty (s : bytes) : option Z :=
  match s with [] => None | _ => parse_digits s 0 end.

Definition parse_uint (w : Z) (s : bytes) : option Z :=
  let body := match s with
              | Byte.x2b :: s' => s'
              | _ => s
              end in
  match parse_nonempty body with
  | Some n => if n <=? umax w then Some n else None
  | None => None
  end.

Definition parse_int (w : Z) (s : bytes) : option Z :=
  match s with
  | Byte.x2d :: s' =>
      match parse_nonempty s' with
      | Some n => if n <=? 2 ^ (w - 1) then Some (- n) else None
      | None => None
      end
  | _ => match parse_uint (w - 1) s with Some n => Some n | None => None end
  end.

(** ** Splitting and searching *)

(** [s.split(c).collect()] *)
Fixpoint split_on (c : byte) (s : bytes) : list bytes :=
  match s with
  | [] => [[]]
  | x :: s' => if decide (x = c) then [] :: split_on c s'
               else match split_on c s' with
                    | p :: ps => (x :: p) :: ps
                    | [] => [[x]]
                    end
  end.

(** [s.split_once(c)] *)
Fixpoint split_once (c : byte) (s : bytes) : option (bytes * bytes) :=
  match s with
  | [] => None
  | x :: s' => if decide (x = c) then Some ([], s')
               else match split_once c s' with
                    | Some (a, b) => Some (x :: a, b)
                    | None => None
                    end
  end.

(** [s.starts_with(p)] *)
Fixpoint starts_with (p s : bytes) : bool :=
  match p, s with
  | [], _ => true
  | x :: p', y :: s' => if decide (x = y) then starts_with p' s' else false
  | _ :: _, [] => false
  end.

(** [s.contains(p)] *)
Fixpoint contains (p s : bytes) : bool :=
  starts_with p s || match s with [] => false | _ :: s' => contains p s' end.

(** [s.to_ascii_lowercase()] *)
Definition lower_byte (b : byte) : byte :=
  let v := byte_val b in if (65 <=? v) && (v <=? 90) then byte_of_Z (v + 32) else b.
Definition to_ascii_lowercase (s : bytes) : bytes := lower_byte <$> s.
Definition upper_byte (b : byte) : byte :=
  let v := byte_val b in if (97 <=? v) && (v <=? 122) then byte_of_Z (v - 32) else b.
Definition to_ascii_uppercase (s : bytes) : bytes := upper_byte <$> s.

(** ** Facts *)

Lemma starts_with_spec p s : starts_with p s = true <-> exists r, s = p ++ r.
Proof.
  revert s; induction p as [|x p IH]; intros [|y s]; simpl; try naive_solver.
  case_decide as E; [rewrite IH | ]; naive_solver.
Qed.

Lemma contains_spec p s : contains p s = true <-> exists a b, s = a ++ p ++ b.
Proof.
  induction s as [|x s IH]; simpl; rewrite orb_true_iff, starts_with_spec.
  - split.
    + intros [[r ->]|]; [|done]. by exists [], r.
    + intros (a & b & H). left. exists b. by destruct a, p.
  - rewrite IH. split.
    + intros [[r ->]|(a & b & ->)]; [by exists [], r | by exists (x :: a), b].
    + intros ([|y a] & b & H); simplify_eq/=; eauto.
Qed.

Lemma digit_val_digit n : 0 <= n < 10 -> digit_val (digit n) = Some n.
Proof.
  intros Hn. unfold digit_val, digit. rewrite byte_of_Z_small by lia.
  rewrite (proj2 (Z.leb_le _ _)), (proj2 (Z.leb_le _ _)) by lia. f_equal. lia.
Qed.

Lemma parse_digits_app s t acc :
  parse_digits (s ++ t) acc =
  match parse_digits s acc with Some a => parse_digits t a | None => None end.
Proof.
  revert acc; induction s as [|c s IH]; intros acc; simpl; [done|].
  destruct (digit_val c); [apply IH | done].
Qed.

(** Every digit printed satisfies [P] when the ten digits do. *)
Lemma show_digits_all (P : byte -> Prop) fuel n acc :
  (forall d, 0 <= d < 10 -> P (digit d)) -> 0 <= n ->
  Forall P acc -> Forall P (show_digits fuel n acc).
Proof.
  intros HP. revert n acc; induction fuel as [|f IH]; intros n acc Hn Hacc; simpl; [done|].
  destruct (Z.ltb_spec n 10).
  - constructor; [apply HP; lia | done].
  - apply IH; [apply Z.div_pos; lia|]. constructor; [|done].
    apply HP, Z.mod_pos_bound. lia.
Qed.

Lemma show_digits_nonempty fuel n acc : acc <> [] \/ (0 < fuel)%nat -> show_digits fuel n acc <> [].
Proof.
  revert n acc; induction fuel as [|f IH]; intros n acc H; simpl; [naive_solver lia|].
  destruct (n <? 10); [done|]. apply IH. by left.
Qed.

(** Enough fuel prints the number: reading the digits back from an accumulator
    [a] continues it by [n]. *)
Lemma parse_show_digits fuel n acc :
  0 <= n < 2 ^ Z.of_nat fuel ->
  parse_digits (show_digits fuel n acc) 0 = parse_digits acc n.
Proof.
  revert n acc; induction fuel as [|f IH]; intros n acc Hn.
  { simpl in Hn. assert (n = 0) as -> by lia. done. }
  rewrite Nat2Z.inj_succ, Z.pow_succ_r in Hn by lia. simpl.
  destruct (Z.ltb_spec n 10).
  - simpl. rewrite digit_val_digit by lia. done.
  - rewrite IH.
    + simpl. rewrite digit_val_digit by (apply Z.mod_pos_bound; lia).
      f_equal. pose proof (Z.div_mod n 10). lia.
    + split; [apply Z.div_pos; lia|]. apply Z.div_lt_upper_bound; lia.
Qed.

Lemma show_uint_nonempty n : show_uint n <> [].
Proof. apply show_digits_nonempty. right. lia. Qed.

Lemma show_uint_digits (P : byte -> Prop) n :
  0 <= n -> (forall d, 0 <= d < 10 -> P (digit d)) -> Forall P (show_uint n).
Proof. intros Hn HP. by apply show_digits_all. Qed.

Lemma parse_digits_show n : 0 <= n -> parse_digits (show_uint n) 0 = Some n.
Proof.
  intros Hn. unfold show_uint. rewrite parse_show_digits; [done|].
  rewrite Nat2Z.inj_succ, Z2Nat.id by apply Z.log2_nonneg.
  split; [done|]. destruct (decide (n = 0)) as [->|]; [done|].
  apply Z.log2_spec. lia.
Qed.

Lemma digit_ne (c : byte) d : digit_val c = None -> 0 <= d < 10 -> digit d <> c.
Proof. intros Hc Hd <-. by rewrite digit_val_digit in Hc. Qed.

(** A printed number starts with none of the bytes that are not digits. *)
Lemma show_uint_head n c : 0 <= n -> digit_val c = None -> head (show_uint n) <> Some c.
Proof.
  intros Hn Hc H. pose proof (show_uint_digits (fun b => b <> c) n Hn) as Hall.
  rewrite Forall_forall in Hall. eapply Hall.
  - intros. by apply digit_ne.
  - destruct (show_uint n); simplify_eq/=. left.
  - done.
Qed.

Lemma parse_nonempty_show n : 0 <= n -> parse_nonempty (show_uint n) = Some n.
Proof.
  intros Hn. pose proof (parse_digits_show n Hn). pose proof (show_uint_nonempty n).
  unfold parse_nonempty. by destruct (show_uint n).
Qed.

Lemma parse_uint_show w n : in_u w n -> parse_uint w (show_uint n) = Some n.
Proof.
  intros [H0 H1]. unfold parse_uint.
  assert (match show_uint n with Byte.x2b :: s' => s' | _ => show_uint n end = show_uint n) as ->.
  { pose proof (show_uint_head n Byte.x2b H0 eq_refl) as Hh.
    destruct (show_uint n) as [|[] ?]; try done. }
  rewrite parse_nonempty_show by done. unfold umax.
  by rewrite (proj2 (Z.leb_le _ _)) by lia.
Qed.

(** Printing and parsing a signed integer round-trips. *)
Lemma parse_int_show w n : 0 < w -> in_i w n -> parse_int w (show_int n) = Some n.
Proof.
  intros Hw [H0 H1]. unfold show_int, parse_int. destruct (Z.ltb_spec n 0).
  - rewrite parse_nonempty_show by lia.
    rewrite (proj2 (Z.leb_le _ _)) by lia. f_equal. lia.
  - pose proof (show_uint_head n Byte.x2d ltac:(lia) eq_refl) as Hh.
    pose proof (parse_uint_show (w - 1) n ltac:(unfold in_u; lia)) as Hp.
    destruct (show_uint n) as [|[] ?]; try done; by rewrite Hp.
Qed.

(** ** Splitting a join *)

Lemma split_on_no_sep c s : c ∉ s -> split_on c s = [s].
Proof.
  induction s as [|x s IH]; simpl; intros H; [done|].
  rewrite decide_False by set_solver. rewrite IH by set_solver. done.
Qed.

Lemma split_on_cons c s t : c ∉ s -> split_on c (s ++ c :: t) = s :: split_on c t.
Proof.
  induction s as [|x s IH]; simpl; intros H.
  - by rewrite decide_True.
  - rewrite decide_False by set_solver. rewrite IH by set_solver. done.
Qed.

Lemma split_once_spec c s a b : split_once c s = Some (a, b) <-> s = a ++ c :: b /\ c ∉ a.
Proof.
  revert a; induction s as [|x s IH]; intros a; simpl.
  { split; [done|]. intros [H _]. by destruct a. }
  case_decide as E.
  - subst. split; [intros [= <- <-]; set_solver|].
    intros [H Hn]. destruct a; simplify_eq/=; [done|]. set_solver.
  - destruct (split_once c s) as [[a' b']|] eqn:Es.
    + split.
      * intros [= <- <-]. destruct (proj1 (IH a') eq_refl) as [-> ?]. set_solver.
      * intros [H Hn]. destruct a as [|y a]; simplify_eq/=.
        assert (Some (a', b') = Some (a, b)) as [= -> ->]; [|done].
        apply IH. set_solver.
    + split; [done|]. intros [H Hn]. destruct a as [|y a]; simplify_eq/=.
      assert (@None (bytes * bytes) = Some (a, b)) by (apply IH; set_solver). done.
Qed.

Lemma show_uint_no_sep n c : 0 <= n -> digit_val c = None -> c ∉ show_uint n.
Proof.
  intros Hn Hc Hin. pose proof (show_uint_digits (fun b => b <> c) n Hn) as Hall.
  rewrite Forall_forall in Hall. eapply Hall; eauto. intros. by apply digit_ne.
Qed.

(** ** Trimming: [s.trim()] *)

(** The UTF-8 encodings of the characters with the Unicode property [White_Space]. *)
Definition whitespace : list bytes :=
  ((fun z => [byte_of_Z z]) <$> [9; 10; 11; 12; 13; 32])
  ++ (map byte_of_Z <$>
      [[194; 133]; [194; 160]; [225; 154; 128]; [226; 128; 128]; [226; 128; 129]; [226; 128; 130];
       [226; 128; 131]; [226; 128; 132]; [226; 128; 133]; [226; 128; 134]; [226; 128; 135];
       [226; 128; 136]; [226; 128; 137]; [226; 128; 138]; [226; 128; 168]; [226; 128; 169];
       [226; 128; 175]; [226; 129; 159]; [227; 128; 128]]).

Fixpoint strip_one (ws : list bytes) (s : bytes) : option bytes :=
  match ws with
  | [] => None
  | w :: ws' => if starts_with w s then Some (drop (length w) s) else strip_one ws' s
  end.

Fixpoint trim_with (ws : list bytes) (fuel : nat) (s : bytes) : bytes :=
  match fuel with
  | O => s
  | S f => match strip_one ws s with Some s' => trim_with ws f s' | None => s end
  end.

Definition trim_start (s : bytes) : bytes := trim_with whitespace (length s) s.
(** From the back the encodings are read reversed. *)
Definition trim_end (s : bytes) : bytes := rev (trim_with ((fun w : bytes => rev w) <$> whitespace) (length s) (rev s)).
Definition trim (s : bytes) : bytes := trim_end (trim_start s).

(** A printable ASCII character is neither the first nor the last byte of any
    white-space encoding. *)
Definition graphic (b : byte) : bool := (33 <=? byte_val b) && (byte_val b <=? 126).

Definition starts_graphic (w : bytes) : bool := match w with [] => true | x :: _ => graphic x end.

Lemma strip_one_graphic ws b s :
  Forall (fun w => starts_graphic w = false) ws ->
  graphic b = true -> strip_one ws (b :: s) = None.
Proof.
  induction 1 as [|w ws Hw _ IH]; intros Hb; [done|]. destruct w as [|x w]; [done|].
  cbn [strip_one starts_with starts_graphic] in *. destruct (decide (x = b)); [congruence|]. auto.
Qed.

Lemma trim_with_graphic ws n b s :
  Forall (fun w => starts_graphic w = false) ws ->
  graphic b = true -> trim_with ws n (b :: s) = b :: s.
Proof. intros. destruct n; [done|]. cbn [trim_with]. by rewrite strip_one_graphic. Qed.

(** A string that starts and ends with printable characters is left alone. *)
Lemma trim_graphic a s b : graphic a = true -> graphic b = true -> trim (a :: s ++ [b]) = a :: s ++ [b].
Proof.
  intros Ha Hb. unfold trim, trim_start, trim_end. rewrite trim_with_graphic; [|decide_closed|done].
  rewrite app_comm_cons, rev_app_distr. cbn [rev app].
  rewrite trim_with_graphic; [|decide_closed|done].
  change (b :: rev s ++ [a]) with (rev [b] ++ rev (a :: s)). rewrite <- rev_app_distr.
  by rewrite rev_involutive.
Qed.

Lemma trim_all_graphic s : Forall (fun b => graphic b = true) s -> trim s = s.
Proof.
  intros H. destruct s as [|a s]; [done|]. apply Forall_cons in H as [Ha H].
  destruct s as [|b s _] using rev_ind.
  - unfold trim, trim_start, trim_end. rewrite trim_with_graphic; [|decide_closed|done]. cbn [rev app].
    rewrite trim_with_graphic; [done|decide_closed|done].
  - apply Forall_app in H as [_ H]. rewrite Forall_singleton in H. by apply trim_graphic.
Qed.

Lemma trim_start_graphic a s : graphic a = true -> trim_start (a :: s) = a :: s.
Proof. intros Ha. unfold trim_start. rewrite trim_with_graphic; [done|decide_closed|done]. Qed.
