(* ===== verification/Proto.v ===== *)
(** * Wire data model (crates/proto)

    The identifiers, the version type, the SQL value model and the messages the
    other components exchange.  Floats are carried as their IEEE-754 binary64 bit
    pattern (a 64-bit word), which is what the code hashes and signs. *)

From S2P Require Import Prelude Bytes Crypto Text.

(** ** Identifiers (ids.rs): newtypes around strings *)

Abbreviation NodeId := bytes.
Abbreviation JobId := bytes.
Abbreviation QueryHash := bytes.

Section ids.
Context {C : Crypto}.

(** [NodeId::from_pubkey]: ["b3:" ‖ hex(BLAKE3(pubkey))]. *)
Definition from_pubkey (pubkey : bytes) : NodeId :=
  str "b3:" ++ hex_encode (blake3 pubkey).

(** [QueryHash::compute] hashes this preimage. *)
Definition query_preimage (sql engine_version : bytes) : bytes :=
  str "duckdb-p2p-query-v1" ++ engine_version ++ [Byte.x00] ++ sql.
Definition compute (sql engine_version : bytes) : QueryHash :=
  hex_encode (blake3 (query_preimage sql engine_version)).
End ids.

(** The NUL separator makes the preimage unambiguous for engine versions
    without a NUL byte. *)
Lemma query_preimage_inj sql1 e1 sql2 e2 :
  Byte.x00 ∉ e1 -> Byte.x00 ∉ e2 ->
  query_preimage sql1 e1 = query_preimage sql2 e2 -> sql1 = sql2 /\ e1 = e2.
Proof.
  intros H1 H2 H. unfold query_preimage in H. apply app_inv_head in H.
  assert (split_once Byte.x00 (e1 ++ [Byte.x00] ++ sql1) = Some (e1, sql1)) as Ha
    by (by apply split_once_spec).
  assert (split_once Byte.x00 (e2 ++ [Byte.x00] ++ sql2) = Some (e2, sql2)) as Hb
    by (by apply split_once_spec).
  rewrite H in Ha. rewrite Hb in Ha. by inv Ha.
Qed.

(** ** Versions (version.rs) *)

Record Version := mkVersion { major : Z; minor : Z; patch : Z }.
#[global] Instance Version_eq_dec : EqDecision Version.
Proof. solve_decision. Defined.

Definition Version_wf (v : Version) : Prop :=
  in_u 16 (major v) /\ in_u 16 (minor v) /\ in_u 16 (patch v).
#[global] Instance Version_wf_dec v : Decision (Version_wf v).
Proof. unfold Version_wf. apply _. Defined.

Definition PROTOCOL_VERSION : Version := mkVersion 1 0 0.
Definition MIN_SUPPORTED_VERSION : Version := mkVersion 1 0 0.
Definition SCHEMA_VERSION : Z := major PROTOCOL_VERSION.

Definition same_major (a b : Version) : bool := major a =? major b.

(** The derived [Ord]: lexicographic on (major, minor, patch). *)
Definition version_lt (a b : Version) : bool :=
  (major a <? major b)
  || (major a =? major b) && ((minor a <? minor b)
     || (minor a =? minor b) && (patch a <? patch b)).
Definition version_le (a b : Version) : bool := negb (version_lt b a).
(** [Ord::min] *)
Definition version_min (a b : Version) : Version := if version_le a b then a else b.

Definition version_to_string (v : Version) : bytes :=
  show_uint (major v) ++ [Byte.x2e] ++ show_uint (minor v) ++ [Byte.x2e] ++ show_uint (patch v).

Inductive version_error := ExpectedThreeParts | BadMajor | BadMinor | BadPatch.

Open Scope duckton_scope.
Definition version_from_str (s : bytes) : result Version version_error :=
  match split_on Byte.x2e s with
  | [a; b; c] =>
      ma <-? ok_or (parse_uint 16 a) BadMajor ;;
      mi <-? ok_or (parse_uint 16 b) BadMinor ;;
      pa <-? ok_or (parse_uint 16 c) BadPatch ;;
      Ok (mkVersion ma mi pa)
  | _ => Err ExpectedThreeParts
  end.

Definition alpn_for_major (m : Z) : bytes := str "duckdb-p2p" ++ str "/" ++ show_uint m.
Definition current_alpn : bytes := alpn_for_major (major PROTOCOL_VERSION).

(** ** Attestation levels and envelopes (attestation.rs) *)

Inductive AttestationLevel := L0 | L1 | L2.
#[global] Instance AttestationLevel_eq_dec : EqDecision AttestationLevel.
Proof. solve_decision. Defined.

(** [level as u8] *)
Definition level_code (l : AttestationLevel) : Z := match l with L0 => 0 | L1 => 1 | L2 => 2 end.
Definition level_le (a b : AttestationLevel) : bool := level_code a <=? level_code b.
Definition level_as_str (l : AttestationLevel) : bytes :=
  match l with L0 => str "L0" | L1 => str "L1" | L2 => str "L2" end.
Definition level_from_str (s : bytes) : option AttestationLevel :=
  let u := to_ascii_uppercase s in
  if decide (u = str "L0") then Some L0
  else if decide (u = str "L1") then Some L1
  else if decide (u = str "L2") then Some L2
  else None.

Record Attestation := mkAttestation {
  att_level : AttestationLevel;
  att_evidence : bytes;
  att_measurement : option bytes;
}.
Definition stub_l0 : Attestation := mkAttestation L0 [] None.

(** ** SQL values and result sets (value.rs) *)

Inductive Value :=
| VNull
| VBool (b : bool)
| VInt (i : Z)          (* i64 *)
| VFloat (bits : Z)     (* f64, as its 64-bit pattern *)
| VText (s : bytes)
| VBlob (b : bytes).
#[global] Instance Value_eq_dec : EqDecision Value.
Proof. solve_decision. Defined.

Definition type_tag (v : Value) : Z :=
  match v with
  | VNull => 0 | VBool _ => 1 | VInt _ => 2 | VFloat _ => 3 | VText _ => 4 | VBlob _ => 5
  end.

Record ResultSet := mkResultSet { columns : list bytes; rows : list (list Value) }.

(** ** Messages (messages.rs) *)

Inductive DataClass := Public | Internal | Sensitive.
#[global] Instance DataClass_eq_dec : EqDecision DataClass.
Proof. solve_decision. Defined.

Inductive Verdict :=
| Correct | Incorrect | Timeout | Malformed | ResourceExceeded | Infeasible | Inconclusive.
#[global] Instance Verdict_eq_dec : EqDecision Verdict.
Proof. solve_decision. Defined.

Definition is_correct (v : Verdict) : bool := match v with Correct => true | _ => false end.
Definition is_provider_fault (v : Verdict) : bool :=
  match v with Incorrect | Timeout | Malformed => true | _ => false end.
Definition affects_reputation (v : Verdict) : bool := is_correct v || is_provider_fault v.

Record Receipt := mkReceipt {
  r_job_id : JobId;
  r_worker_id : NodeId;
  r_requester_id : NodeId;
  r_query_hash : QueryHash;
  r_result_hash : bytes;
  r_verdict : Verdict;
  r_latency_ms : Z;
  r_ts : Z;
  r_observed_input_bytes : Z;
  r_observed_result_rows : Z;
  r_observed_result_bytes : Z;
  r_input_fingerprint : bytes;
  r_requester_pubkey : bytes;
  r_sig : bytes;
}.

Record AbuseSignal := mkAbuseSignal {
  ab_subject_id : NodeId;
  ab_subject_wallet : option bytes;
  ab_reason : bytes;
  ab_ts : Z;
  ab_reporter_id : NodeId;
  ab_reporter_pubkey : bytes;
  ab_sig : bytes;
}.

Record Hello := mkHello {
  h_schema_version : Z;
  h_protocol_version : Version;
  h_min_supported : Version;
  h_node_id : NodeId;
  h_engine_version : bytes;
  h_extension_version : bytes;
}.

Inductive Compression := CNone | Lz4 | Zstd.

Record ResultManifest := mkManifest {
  m_job_id : JobId;
  m_compression : Compression;
  m_uncompressed_len : Z;
  m_total_len : Z;
  m_parts : Z;
}.

Definition MAX_RESULT_BYTES : Z := 8 * 1024 * 1024 * 1024.
Definition MAX_RESULT_PARTS : Z := 4096.

Inductive manifest_error := ZeroParts | TooManyParts | TotalTooLarge | UncompressedTooLarge.

(** [ResultManifest::validate] *)
Definition validate_manifest (m : ResultManifest) (max_bytes max_parts : Z)
  : result unit manifest_error :=
  let bytes_ceiling := Z.min max_bytes MAX_RESULT_BYTES in
  let parts_ceiling := Z.min max_parts MAX_RESULT_PARTS in
  if m_parts m =? 0 then Err ZeroParts
  else if parts_ceiling <? m_parts m then Err TooManyParts
  else if bytes_ceiling <? m_total_len m then Err TotalTooLarge
  else if bytes_ceiling <? m_uncompressed_len m then Err UncompressedTooLarge
  else Ok tt.

(** ** Capability records (capability.rs) *)

Record CapabilityAd := mkAd {
  ad_schema_version : Z;
  ad_protocol_version : Version;
  ad_node_id : NodeId;
  ad_pubkey : bytes;
  ad_addr : bytes;
  ad_free_mem_bytes : Z;
  ad_free_threads : Z;
  ad_max_jobs : Z;
  ad_attestation_level : AttestationLevel;
  ad_price : Z;
  ad_recent_receipts_root : option bytes;
  ad_pow_nonce : Z;
  ad_pow_bits : Z;
  ad_ts : Z;
  ad_enabled : bool;
  ad_networks : list bytes;
  ad_groups : list bytes;
  ad_region : option bytes;
  ad_sig : bytes;
}.

Record CapabilityProfile := mkProfile {
  p_schema_version : Z;
  p_node_id : NodeId;
  p_pubkey : bytes;
  p_max_input_bytes : Z;
  p_max_result_rows : Z;
  p_max_result_bytes : Z;
  p_max_peak_memory_bytes : Z;
  p_max_temp_dir_bytes : Z;
  p_successes : Z;
  p_seq : Z;
  p_ts : Z;
  p_sig : bytes;
}.

(** ** Facts about versions *)

Lemma version_lt_irrefl a : version_lt a a = false.
Proof. unfold version_lt. by rewrite !Z.ltb_irrefl, !Z.eqb_refl. Qed.

Lemma version_lt_spec a b :
  version_lt a b = true <->
  major a < major b \/ (major a = major b /\
    (minor a < minor b \/ (minor a = minor b /\ patch a < patch b))).
Proof.
  unfold version_lt.
  rewrite !orb_true_iff, !andb_true_iff, !Z.ltb_lt, !Z.eqb_eq, orb_true_iff, andb_true_iff,
    Z.ltb_lt, Z.eqb_eq, Z.ltb_lt. tauto.
Qed.

Lemma version_le_spec a b :
  version_le a b = true <->
  major a < major b \/ (major a = major b /\
    (minor a < minor b \/ (minor a = minor b /\ patch a <= patch b))).
Proof.
  unfold version_le. rewrite negb_true_iff.
  destruct (version_lt b a) eqn:E.
  - apply version_lt_spec in E. split; [done|lia].
  - split; [|done]. intros _.
    assert (~ (version_lt b a = true)) as H by congruence. rewrite version_lt_spec in H. lia.
Qed.

Lemma version_min_comm a b : version_min a b = version_min b a.
Proof.
  unfold version_min. destruct (version_le a b) eqn:E1, (version_le b a) eqn:E2; try done.
  - apply version_le_spec in E1, E2. destruct a, b; simpl in *. f_equal; lia.
  - unfold version_le in *. bool_to_prop. apply version_lt_spec in E1, E2. lia.
Qed.

Lemma version_min_le a b : version_le (version_min a b) a = true /\ version_le (version_min a b) b = true.
Proof.
  assert (forall x, version_le x x = true) as R.
  { intros. unfold version_le. by rewrite version_lt_irrefl. }
  unfold version_min. destruct (version_le a b) eqn:E; [done|]. split; [|done].
  unfold version_le in *. bool_to_prop. apply version_lt_spec in E.
  destruct (version_lt a b) eqn:E2; [apply version_lt_spec in E2; lia|done].
Qed.

(** Printing then parsing a version gives it back. *)
Lemma version_roundtrip v : Version_wf v -> version_from_str (version_to_string v) = Ok v.
Proof.
  intros (H1 & H2 & H3). unfold version_from_str, version_to_string. simpl.
  assert (forall n, 0 <= n -> Byte.x2e ∉ show_uint n) as Hsep
    by (intros; by apply show_uint_no_sep).
  pose proof (proj1 H1). pose proof (proj1 H2). pose proof (proj1 H3).
  rewrite !split_on_cons, split_on_no_sep by auto.
  rewrite !parse_uint_show by done. by destruct v.
Qed.

Lemma version_to_string_inj v w :
  Version_wf v -> Version_wf w -> version_to_string v = version_to_string w -> v = w.
Proof.
  intros Hv Hw H. pose proof (version_roundtrip v Hv) as Hr.
  rewrite H, version_roundtrip in Hr by done. congruence.
Qed.
