(* ===== verification/Input.v ===== *)
(** * Deterministic-input pinning (crates/proto/src/input.rs)

    The manifest of external objects a job reads and its fingerprint.  The
    fingerprint is a hash of [fingerprint_preimage]; the theorems are about that
    preimage, so they hold for whatever hash the [Crypto] instance provides. *)

From S2P Require Import Prelude Bytes Crypto.

Inductive ObjectVersion :=
| S3 (version_id etag : option bytes) (size : Z)
| Azure (etag version_id : option bytes)
| Gcs (generation : option Z)
| ContentAddressed (sha256 : bytes)
| Lakehouse (format snapshot_id : bytes).
#[global] Instance ObjectVersion_eq_dec : EqDecision ObjectVersion.
Proof. solve_decision. Defined.

Definition nonempty (b : bytes) : bool := match b with [] => false | _ => true end.

Definition is_concrete (v : ObjectVersion) : bool :=
  match v with
  | S3 version_id _ _ => bool_decide (is_Some version_id)
  | Azure _ version_id => bool_decide (is_Some version_id)
  | Gcs generation => bool_decide (is_Some generation)
  | ContentAddressed sha256 => nonempty sha256
  | Lakehouse _ snapshot_id => nonempty snapshot_id
  end.

(** [push_bytes] / [push_bytes_h] *)
Definition push_bytes (b : bytes) : bytes := field b.

Definition push_opt (s : option bytes) : bytes :=
  match s with Some v => [Byte.x01] ++ push_bytes v | None => [Byte.x00] end.

(** [ObjectVersion::fingerprint_into]: the bytes appended to the buffer. *)
Definition fingerprint_into (v : ObjectVersion) : bytes :=
  match v with
  | S3 version_id etag size => [Byte.x01] ++ push_opt version_id ++ push_opt etag ++ le64 size
  | Azure etag version_id => [Byte.x02] ++ push_opt etag ++ push_opt version_id
  | Gcs generation =>
      [Byte.x03] ++ match generation with
                    | Some g => [Byte.x01] ++ le64 g
                    | None => [Byte.x00]
                    end
  | ContentAddressed sha256 => [Byte.x04] ++ push_bytes sha256
  | Lakehouse format snapshot_id => [Byte.x05] ++ push_bytes format ++ push_bytes snapshot_id
  end.

Record PinnedObject := mkPinned { uri : bytes; provider : bytes; version : ObjectVersion }.
#[global] Instance PinnedObject_eq_dec : EqDecision PinnedObject.
Proof. solve_decision. Defined.

Record InputSnapshot := mkSnapshot { fingerprint : bytes; objects : list PinnedObject }.

(** The comparator [a.uri.cmp(&b.uri).then_with(|| a.provider.cmp(&b.provider))],
    as "not greater". *)
Definition pin_leb (a b : PinnedObject) : bool :=
  if decide (uri a = uri b) then lex_leb (provider a) (provider b) else lex_leb (uri a) (uri b).

Definition pin_key (o : PinnedObject) : bytes * bytes := (uri o, provider o).

Definition encode_object (o : PinnedObject) : bytes :=
  push_bytes (uri o) ++ push_bytes (provider o) ++ push_bytes (fingerprint_into (version o)).

Definition FINGERPRINT_DOMAIN : bytes := str "duckdb-p2p-input-fingerprint-v1".

(** Everything [compute_fingerprint] feeds the hasher. *)
Definition fingerprint_preimage (objs : list PinnedObject) : bytes :=
  let sorted := isort pin_leb objs in
  FINGERPRINT_DOMAIN ++ le64 (Z.of_nat (length sorted)) ++ mjoin (encode_object <$> sorted).

Section fingerprint.
Context {C : Crypto}.

Definition compute_fingerprint (objs : list PinnedObject) : bytes :=
  hex_encode (blake3 (fingerprint_preimage objs)).

(** [InputSnapshot::from_objects] *)
Definition from_objects (objs : list PinnedObject) : InputSnapshot :=
  let sorted := isort pin_leb objs in
  mkSnapshot (compute_fingerprint sorted) sorted.

Definition snapshot_is_empty (s : InputSnapshot) : bool :=
  match objects s with [] => true | _ => false end.
Definition fully_concrete (s : InputSnapshot) : bool :=
  forallb (fun o => is_concrete (version o)) (objects s).
End fingerprint.

(** ** Well-formed manifests: every field is a value of its Rust type *)

Definition opt_fits (o : option bytes) : Prop := match o with Some b => fits b | None => True end.

Definition ObjectVersion_wf (v : ObjectVersion) : Prop :=
  match v with
  | S3 version_id etag size => opt_fits version_id /\ opt_fits etag /\ in_u 64 size
  | Azure etag version_id => opt_fits etag /\ opt_fits version_id
  | Gcs (Some g) => in_i 64 g
  | Gcs None => True
  | ContentAddressed s => fits s
  | Lakehouse f s => fits f /\ fits s
  end.

Definition Pinned_wf (o : PinnedObject) : Prop :=
  fits (uri o) /\ fits (provider o) /\ ObjectVersion_wf (version o)
  /\ fits (fingerprint_into (version o)).

Definition manifest_wf (objs : list PinnedObject) : Prop :=
  Z.of_nat (length objs) < 2 ^ 63 /\ Forall Pinned_wf objs.

(** Each object is listed once per (uri, provider). *)
Definition distinct_keys (objs : list PinnedObject) : Prop := NoDup (pin_key <$> objs).

(** ** The comparator is a total preorder whose classes are the keys *)

Lemma pin_leb_total a b : pin_leb a b = true \/ pin_leb b a = true.
Proof.
  unfold pin_leb. destruct (decide (uri a = uri b)) as [E|E];
    [rewrite decide_True by done | rewrite decide_False by congruence]; apply lex_leb_total.
Qed.

Lemma pin_leb_trans a b c : pin_leb a b = true -> pin_leb b c = true -> pin_leb a c = true.
Proof.
  unfold pin_leb. intros H1 H2.
  destruct (decide (uri a = uri b)) as [E1|E1], (decide (uri b = uri c)) as [E2|E2].
  - rewrite decide_True by congruence. eauto using lex_leb_trans.
  - rewrite decide_False by congruence. congruence.
  - rewrite decide_False by congruence. congruence.
  - destruct (decide (uri a = uri c)) as [E3|E3]; [|eauto using lex_leb_trans].
    destruct E1. rewrite E3 in H1. apply lex_leb_antisym; congruence.
Qed.

Lemma pin_leb_antisym a b : pin_leb a b = true -> pin_leb b a = true -> pin_key a = pin_key b.
Proof.
  unfold pin_leb, pin_key. intros H1 H2.
  destruct (decide (uri a = uri b)) as [E|E].
  - rewrite decide_True in H2 by done. rewrite E. f_equal. by apply lex_leb_antisym.
  - rewrite decide_False in H2 by done. destruct E. by apply lex_leb_antisym.
Qed.

Lemma distinct_keys_inj objs a b :
  distinct_keys objs -> a ∈ objs -> b ∈ objs -> pin_key a = pin_key b -> a = b.
Proof.
  intros Hd Ha Hb Hk. unfold distinct_keys in Hd. revert Ha Hb.
  induction objs as [|o objs IH]; [by intros ?%not_elem_of_nil|].
  rewrite fmap_cons, NoDup_cons in Hd. destruct Hd as [Hn Hd].
  rewrite !elem_of_cons. intros [->|Ha] [->|Hb]; auto.
  - destruct Hn. rewrite Hk. by apply list_elem_of_fmap_2.
  - destruct Hn. rewrite <- Hk. by apply list_elem_of_fmap_2.
Qed.

Lemma isort_pin_perm l k : distinct_keys l -> l ≡ₚ k -> isort pin_leb l = isort pin_leb k.
Proof.
  intros Hd Hp. apply isort_unique; [apply pin_leb_total | exact pin_leb_trans | | done].
  intros x y Hx Hy H1 H2. eapply distinct_keys_inj; eauto using pin_leb_antisym.
Qed.

(** ** The encodings are self-delimiting *)

#[export] Instance push_opt_codec : Codec opt_fits push_opt.
Proof.
  intros [a|] [b|] s t Ha Hb H; cbn [push_opt] in H; rewrite <- ?app_assoc in H;
    try (cbn in H; discriminate H); apply app_inv_head in H.
  - unfold push_bytes in H. peel_field H by done. naive_solver.
  - done.
Qed.

#[export] Instance version_codec : Codec ObjectVersion_wf fingerprint_into.
Proof.
  intros a b s t Ha Hb H.
  destruct a as [a1 a2 a3|a1 a2|[a1|]|a1|a1 a2], b as [b1 b2 b3|b1 b2|[b1|]|b1|b1 b2];
    try (cbn in H; discriminate H); cbn [fingerprint_into] in H; rewrite <- ?app_assoc in H;
    repeat (apply app_inv_head in H); cbn [ObjectVersion_wf] in *; destruct_and?.
  - apply codec_inj in H as [-> H]; [|done..]. apply codec_inj in H as [-> H]; [|done..].
    peel_le 8%nat H by solve_range. naive_solver.
  - apply codec_inj in H as [-> H]; [|done..]. apply codec_inj in H as [-> H]; [|done..]. done.
  - apply (codec_peel _ (le_bytes 8) (Codec0 := le_signed_codec 8)) in H as [-> H];
      [done|by apply in_i_le64..].
  - done.
  - unfold push_bytes in H. peel_field H by done. naive_solver.
  - unfold push_bytes in H. peel_field H by done. peel_field H by done. naive_solver.
Qed.

#[export] Instance object_codec : Codec Pinned_wf encode_object.
Proof.
  intros a b s t (Ha1 & Ha2 & Ha3 & Ha4) (Hb1 & Hb2 & Hb3 & Hb4) H.
  unfold encode_object, push_bytes in H. reassoc H.
  peel_field H by done. peel_field H by done. peel_field H by done.
  match goal with E : fingerprint_into _ = _ |- _ =>
    apply (codec_inj_nil ObjectVersion_wf fingerprint_into) in E; [|done..] end.
  destruct a, b; naive_solver.
Qed.

Lemma manifest_wf_sorted objs : manifest_wf objs -> manifest_wf (isort pin_leb objs).
Proof.
  intros [H1 H2]. split; [by rewrite isort_length|]. by rewrite isort_perm.
Qed.

(** The preimage determines the sorted manifest. *)
Lemma preimage_sorted_inj a b :
  manifest_wf a -> manifest_wf b ->
  fingerprint_preimage a = fingerprint_preimage b -> isort pin_leb a = isort pin_leb b.
Proof.
  intros [Ha1 Ha2]%manifest_wf_sorted [Hb1 Hb2]%manifest_wf_sorted H.
  unfold fingerprint_preimage in H. apply app_inv_head in H.
  peel_le 8%nat H by (rewrite pow_256; simpl; lia).
  apply (codec_list_inj Pinned_wf encode_object) in H; [done|lia|done..].
Qed.

Lemma preimage_perm l k :
  distinct_keys l -> l ≡ₚ k -> fingerprint_preimage l = fingerprint_preimage k.
Proof. intros Hd Hp. unfold fingerprint_preimage. by rewrite (isort_pin_perm l k). Qed.

Section claims.
Context {C : Crypto}.

(** The input fingerprint does not depend on the order in which the pinned
    objects were enumerated, for manifests that list each (uri, provider) once. *)
Theorem fingerprint_order_independent (l k : list PinnedObject) :
  distinct_keys l -> l ≡ₚ k -> compute_fingerprint l = compute_fingerprint k.
Proof. intros Hd Hp. unfold compute_fingerprint. by rewrite (preimage_perm l k). Qed.

(** Any change to the pinned objects flips the fingerprint: two manifests
    with the same fingerprint are permutations of each other, unless their two
    preimages are a hash collision. *)
Theorem fingerprint_binds_manifest (a b : list PinnedObject) :
  manifest_wf a -> manifest_wf b ->
  NoCollision blake3 [fingerprint_preimage a; fingerprint_preimage b] ->
  compute_fingerprint a = compute_fingerprint b -> a ≡ₚ b.
Proof.
  intros Ha Hb Hnc H. unfold compute_fingerprint in H. apply hex_encode_inj in H.
  apply Hnc in H; [|set_solver..].
  rewrite <- (isort_perm pin_leb a), <- (isort_perm pin_leb b).
  by rewrite (preimage_sorted_inj a b).
Qed.

(** A snapshot carries the fingerprint of its own manifest: recomputing it
    over the stored (sorted) objects, or over the objects as first enumerated,
    gives the stored fingerprint. *)
Theorem snapshot_fingerprint_reproducible (objs : list PinnedObject) :
  compute_fingerprint (objects (from_objects objs)) = fingerprint (from_objects objs)
  /\ compute_fingerprint objs = fingerprint (from_objects objs).
Proof.
  unfold from_objects. simpl. split; [done|].
  unfold compute_fingerprint, fingerprint_preimage.
  rewrite (isort_id pin_leb (isort pin_leb objs)); [done|].
  apply isort_sorted; [apply pin_leb_total | exact pin_leb_trans].
Qed.
End claims.

(** ** Evaluation on concrete manifests *)

Definition obj_a : PinnedObject :=
  mkPinned (str "s3://b/a.parquet") (str "s3") (S3 (Some (str "v1")) None 10).
Definition obj_a' : PinnedObject :=
  mkPinned (str "s3://b/a.parquet") (str "s3") (S3 (Some (str "v2")) None 10).
Definition obj_b : PinnedObject :=
  mkPinned (str "gs://b/b.parquet") (str "gcs") (Gcs (Some (-7))).

Lemma wf_ab : manifest_wf [obj_a; obj_b].
Proof. split; [done|]. repeat (constructor; [by vm_compute|]). constructor. Qed.

Lemma wf_ba : manifest_wf [obj_b; obj_a].
Proof. split; [done|]. repeat (constructor; [by vm_compute|]). constructor. Qed.

Lemma fingerprint_order_independent_witness :
  @compute_fingerprint toy_crypto [obj_a; obj_b] = @compute_fingerprint toy_crypto [obj_b; obj_a].
Proof.
  apply fingerprint_order_independent.
  - apply (bool_decide_unpack _). vm_compute. exact I.
  - apply Permutation_swap.
Defined.

Lemma fingerprint_binds_manifest_witness : [obj_a; obj_b] ≡ₚ [obj_b; obj_a].
Proof.
  apply (@fingerprint_binds_manifest toy_crypto); [apply wf_ab | apply wf_ba | | ].
  - apply (bool_decide_unpack _). vm_compute. exact I.
  - vm_compute. reflexivity.
Defined.

(** The hypothesis of [fingerprint_order_independent] is needed: the comparator
    ignores the version, so two pins of one object keep their enumeration order. *)
Lemma fingerprint_order_dependent_on_duplicates :
  [obj_a; obj_a'] ≡ₚ [obj_a'; obj_a]
  /\ fingerprint_preimage [obj_a; obj_a'] <> fingerprint_preimage [obj_a'; obj_a].
Proof.
  split; [apply Permutation_swap|]. apply (bool_decide_unpack _). vm_compute. exact I.
Qed.
