(* ===== verification/Canonical.v ===== *)
(** * Canonical result hashing and quorum agreement (crates/trust/src/canonical.rs) *)

From S2P Require Import Prelude Bytes Crypto Proto.

(** ** Canonical encoding of a result set *)

(** An f64 is its 64-bit pattern: [is_nan] and [== 0.0] on patterns. *)
Definition f64_is_nan (bits : Z) : bool := 0x7ff0000000000000 <? bits mod 2 ^ 63.
Definition f64_is_zero (bits : Z) : bool := bits mod 2 ^ 63 =? 0.

Definition canonical_f64_bits (bits : Z) : Z :=
  if f64_is_nan bits then 0x7ff8000000000000
  else if f64_is_zero bits then 0
  else bits.

Definition encode_value (v : Value) : bytes :=
  [byte_of_Z (type_tag v)] ++
  match v with
  | VNull => []
  | VBool b => [byte_of_Z (if b then 1 else 0)]
  | VInt i => le64 i
  | VFloat f => le64 (canonical_f64_bits f)
  | VText s => le64 (Z.of_nat (length s)) ++ s
  | VBlob b => le64 (Z.of_nat (length b)) ++ b
  end.

Definition encode_row (row : list Value) : bytes :=
  le64 (Z.of_nat (length row)) ++ mjoin (encode_value <$> row).

Definition DOMAIN : bytes := str "duckdb-p2p-result-v1".

(** [update_len] / [update_bytes] append to the hashed message. *)
Definition update_len (n : Z) : bytes := le64 n.
Definition update_bytes (b : bytes) : bytes := le64 (Z.of_nat (length b)) ++ b.

(** Everything [canonical_hash] feeds the hasher. *)
Definition canonical_preimage (rs : ResultSet) : bytes :=
  let encoded_rows := isort lex_leb (encode_row <$> rows rs) in
  DOMAIN
  ++ update_len (Z.of_nat (length (columns rs))) ++ mjoin (update_bytes <$> columns rs)
  ++ update_len (Z.of_nat (length encoded_rows)) ++ mjoin (update_bytes <$> encoded_rows).

Definition canonical_hash {C : Crypto} (rs : ResultSet) : bytes :=
  hex_encode (blake3 (canonical_preimage rs)).

(** ** Quorum *)

Record QuorumOutcome := mkOutcome {
  agreed_hash : option bytes;
  agreement : nat;
  quorum : nat;
  split : bool;
}.

Definition reached (o : QuorumOutcome) : bool := bool_decide (is_Some (agreed_hash o)).

(** The [HashMap] of counts: [*tally.entry(h).or_insert(0) += 1] for each hash. *)
Definition tally_one (m : gmap bytes nat) (h : bytes) : gmap bytes nat :=
  <[h := S (default 0%nat (m !! h))]> m.
Definition tally (hashes : list bytes) : gmap bytes nat := foldl tally_one ∅ hashes.

(** The comparator [b.1.cmp(&a.1).then_with(|| a.0.cmp(b.0))], as "not greater". *)
Definition entry_leb (a b : bytes * nat) : bool :=
  if decide (a.2 = b.2) then lex_leb a.1 b.1 else (b.2 <? a.2)%nat.

Definition quorum_entries (hashes : list bytes) : list (bytes * nat) :=
  isort entry_leb (map_to_list (tally hashes)).

Definition evaluate_quorum (hashes : list bytes) (q : nat) : QuorumOutcome :=
  let entries := quorum_entries hashes in
  let meeting := length (List.filter (fun e => (q <=? e.2)%nat) entries) in
  let best_count := match entries with e :: _ => e.2 | [] => 0%nat end in
  if (1 <? meeting)%nat then mkOutcome None best_count q true
  else if (meeting =? 1)%nat then
    match entries with
    | (hash, count) :: _ => mkOutcome (Some hash) count q false
    | [] => mkOutcome None best_count q false   (* unreachable: entries[0] exists *)
    end
  else mkOutcome None best_count q false.

Record CommitKey := mkCommitKey { ck_input_fingerprint : bytes; ck_result_hash : bytes }.

Record FingerprintQuorumOutcome := mkFQ { pinned : QuorumOutcome; drifted : nat }.

(** The loop of [evaluate_quorum_on_commits]: a commit either joins [on_pinned]
    or counts as drifted. *)
Definition is_drifted (pin : option bytes) (c : CommitKey) : bool :=
  match pin with
  | Some p => bool_decide (ck_input_fingerprint c <> []) && bool_decide (ck_input_fingerprint c <> p)
  | None => false
  end.

Definition sort_commits (commits : list CommitKey) (pin : option bytes) : list bytes * nat :=
  foldl (fun '(on_pinned, dr) c =>
           if is_drifted pin c then (on_pinned, S dr)
           else (on_pinned ++ [ck_result_hash c], dr))
        ([], 0%nat) commits.

Definition evaluate_quorum_on_commits (commits : list CommitKey) (pin : option bytes) (q : nat)
  : FingerprintQuorumOutcome :=
  let '(on_pinned, dr) := sort_commits commits pin in
  mkFQ (evaluate_quorum on_pinned q) dr.

(** ** Encoding: normal forms and injectivity *)

(** The value a cell hashes as: NaNs are one value, the two zeros are one value. *)
Definition norm_value (v : Value) : Value :=
  match v with VFloat f => VFloat (canonical_f64_bits f) | _ => v end.

Definition norm_row (row : list Value) : list Value := norm_value <$> row.

(** Two result sets the hash must identify: the same columns and the same
    multiset of (normalized) rows. *)
Definition same_result (a b : ResultSet) : Prop :=
  columns a = columns b
  /\ (norm_row <$> rows a) ≡ₚ (norm_row <$> rows b).

#[export] Instance same_result_equivalence : Equivalence same_result.
Proof.
  split.
  - by intros a.
  - intros a b [H1 H2]. split; by symmetry.
  - intros a b c [H1 H2] [H3 H4]. split; etrans; eauto.
Qed.

Definition Value_wf (v : Value) : Prop :=
  match v with
  | VInt i => in_i 64 i
  | VFloat f => in_u 64 f
  | VText s => fits s
  | VBlob b => fits b
  | _ => True
  end.

Definition row_wf (row : list Value) : Prop :=
  Z.of_nat (length row) < 2 ^ 63 /\ Forall Value_wf row /\ fits (encode_row row).

Definition ResultSet_wf (rs : ResultSet) : Prop :=
  Z.of_nat (length (columns rs)) < 2 ^ 63 /\ Forall fits (columns rs)
  /\ Z.of_nat (length (rows rs)) < 2 ^ 63 /\ Forall row_wf (rows rs).

Lemma canonical_bits_idem f : canonical_f64_bits (canonical_f64_bits f) = canonical_f64_bits f.
Proof.
  unfold canonical_f64_bits. destruct (f64_is_nan f) eqn:E1; [done|].
  destruct (f64_is_zero f) eqn:E2; [done|]. by rewrite E1, E2.
Qed.

Lemma canonical_bits_range f : in_u 64 f -> in_u 64 (canonical_f64_bits f).
Proof. intros H. unfold canonical_f64_bits, in_u in *. repeat destruct_if; lia. Qed.

Lemma encode_value_norm v : encode_value (norm_value v) = encode_value v.
Proof. destruct v; try done. unfold encode_value; simpl. by rewrite canonical_bits_idem. Qed.

Lemma encode_row_norm row : encode_row (norm_row row) = encode_row row.
Proof.
  unfold encode_row, norm_row. rewrite length_fmap, <- list_fmap_compose. do 2 f_equal.
  apply list_fmap_ext. intros. apply encode_value_norm.
Qed.

Lemma norm_value_wf v : Value_wf v -> Value_wf (norm_value v).
Proof. destruct v; simpl; auto using canonical_bits_range. Qed.

(** On normalized values the encoding is self-delimiting. *)
Definition normal_value (v : Value) : Prop := Value_wf v /\ norm_value v = v.

Lemma norm_value_normal v : Value_wf v -> normal_value (norm_value v).
Proof.
  intros H. split; [by apply norm_value_wf|]. destruct v; simpl; try done.
  by rewrite canonical_bits_idem.
Qed.

(** The value bytes after the type tag. *)
Definition encode_payload (v : Value) : bytes := tail (encode_value v).

Lemma encode_value_split v : encode_value v = byte_of_Z (type_tag v) :: encode_payload v.
Proof. by destruct v. Qed.

Lemma type_tag_byte_inj a b :
  byte_of_Z (type_tag a) = byte_of_Z (type_tag b) -> type_tag a = type_tag b.
Proof.
  intros H. apply (f_equal byte_val) in H.
  rewrite !byte_of_Z_small in H by (destruct a, b; simpl; lia). done.
Qed.

Lemma bool_byte_inj (a b : bool) :
  byte_of_Z (if a then 1 else 0) = byte_of_Z (if b then 1 else 0) -> a = b.
Proof. by destruct a, b. Qed.

#[export] Instance value_codec : Codec normal_value encode_value.
Proof.
  intros a b s t [Ha Na] [Hb Nb] H. rewrite !encode_value_split in H.
  injection H as Ht H. apply type_tag_byte_inj in Ht.
  destruct a as [|a|a|a|a|a], b as [|b|b|b|b|b]; try discriminate Ht;
    cbn [Value_wf norm_value] in *; unfold encode_payload, encode_value, tail, app in H; fold (@app byte) in H.
  - done.
  - injection H as Hh H. apply bool_byte_inj in Hh as ->. done.
  - apply (codec_peel _ (le_bytes 8) (Codec0 := le_signed_codec 8)) in H as [-> ->];
      [done|by apply in_i_le64..].
  - injection Na as Na. injection Nb as Nb. rewrite Na, Nb in H.
    peel_le 8%nat H by solve_range. naive_solver.
  - peel_field H by done. naive_solver.
  - peel_field H by done. naive_solver.
Qed.

Lemma norm_row_normal row : Forall Value_wf row -> Forall normal_value (norm_row row).
Proof. intros H. apply Forall_fmap. eapply Forall_impl; [exact H|]. apply norm_value_normal. Qed.

Lemma encode_row_inj a b :
  row_wf a -> row_wf b -> encode_row a = encode_row b -> norm_row a = norm_row b.
Proof.
  intros (Ha1 & Ha2 & _) (Hb1 & Hb2 & _) H.
  rewrite <- (encode_row_norm a), <- (encode_row_norm b) in H.
  unfold encode_row in H. unfold norm_row in *. rewrite !length_fmap in H.
  peel_le 8%nat H by (by apply len64_range).
  apply (codec_list_inj normal_value encode_value) in H; [done| | |].
  - rewrite !length_fmap. lia.
  - by apply norm_row_normal.
  - by apply norm_row_normal.
Qed.

Lemma encode_rows_inj l k :
  Forall row_wf l -> Forall row_wf k ->
  encode_row <$> l = encode_row <$> k -> norm_row <$> l = norm_row <$> k.
Proof.
  intros Hl. revert k. induction Hl as [|x l Hx Hl IH]; intros [|y k] Hk He; try done.
  rewrite !fmap_cons in *. apply cons_inj_pair in He as [Hxy He].
  apply Forall_cons in Hk as [Hy Hk].
  rewrite (encode_row_inj x y) by done. by rewrite (IH k).
Qed.

Lemma encode_rows_perm a b :
  (norm_row <$> a) ≡ₚ (norm_row <$> b) -> (encode_row <$> a) ≡ₚ (encode_row <$> b).
Proof.
  intros H. apply (fmap_Permutation encode_row) in H. rewrite <- !list_fmap_compose in H.
  rewrite (list_fmap_ext (encode_row ∘ norm_row) encode_row a) in H
    by (intros; apply encode_row_norm).
  rewrite (list_fmap_ext (encode_row ∘ norm_row) encode_row b) in H
    by (intros; apply encode_row_norm). done.
Qed.

Lemma sorted_rows_perm (a b : list bytes) : a ≡ₚ b -> isort lex_leb a = isort lex_leb b.
Proof.
  apply isort_unique; [apply lex_leb_total | exact lex_leb_trans |].
  intros. by apply lex_leb_antisym.
Qed.

(** What two equal preimages have in common. *)
Lemma preimage_parts a b :
  ResultSet_wf a -> ResultSet_wf b -> canonical_preimage a = canonical_preimage b ->
  columns a = columns b
  /\ isort lex_leb (encode_row <$> rows a) = isort lex_leb (encode_row <$> rows b).
Proof.
  intros (Ha1 & Ha2 & Ha3 & Ha4) (Hb1 & Hb2 & Hb3 & Hb4) H.
  unfold canonical_preimage, update_len in H. apply app_inv_head in H. reassoc H.
  peel_le 8%nat H by (by apply len64_range).
  apply codec_list with (wf := fits) in H as [? H]; [|apply field_codec|lia|done..].
  peel_le 8%nat H by (rewrite isort_length, length_fmap; by apply len64_range).
  apply (codec_list_inj fits field) in H; [done|lia| |];
    rewrite isort_perm; apply Forall_fmap; eapply Forall_impl; eauto; by intros ? (_ & _ & ?).
Qed.

(** The preimage identifies exactly the result sets that are the same up to row
    order and float normalization. *)
Lemma preimage_same_result a b :
  ResultSet_wf a -> ResultSet_wf b ->
  canonical_preimage a = canonical_preimage b <-> same_result a b.
Proof.
  intros Ha Hb. split.
  - intros H. destruct (preimage_parts a b Ha Hb H) as [Hc Hr]. split; [done|].
    assert ((encode_row <$> rows a) ≡ₚ (encode_row <$> rows b)) as Hp.
    { by rewrite <- (isort_perm lex_leb (_ <$> rows a)), Hr, isort_perm. }
    apply (Permutation_map_inv encode_row (rows b)) in Hp as (rb & He & Hp).
    assert (norm_row <$> rows a = norm_row <$> rb) as ->; [|by rewrite Hp].
    destruct Ha as (_ & _ & _ & Ha). destruct Hb as (_ & _ & _ & Hb). rewrite Hp in Hb.
    by apply encode_rows_inj.
  - intros [Hc Hr]. unfold canonical_preimage. rewrite Hc.
    by rewrite (sorted_rows_perm _ _ (encode_rows_perm _ _ Hr)).
Qed.

(** Equal results hash equally, whatever their sizes. *)
Lemma same_result_preimage a b : same_result a b -> canonical_preimage a = canonical_preimage b.
Proof.
  intros [Hc Hr]. unfold canonical_preimage. rewrite Hc.
  by rewrite (sorted_rows_perm _ _ (encode_rows_perm _ _ Hr)).
Qed.

#[export] Instance canonical_hash_proper {C : Crypto} : Proper (same_result ==> eq) canonical_hash.
Proof. intros a b H. unfold canonical_hash. by rewrite (same_result_preimage a b). Qed.

Section hash_claims.
Context {C : Crypto}.

(** The canonical hash is independent of the order in which the rows were
    produced and of the sign of zero and the payload of NaNs. *)
Theorem canonical_hash_order_independent (a b : ResultSet) :
  same_result a b -> canonical_hash a = canonical_hash b.
Proof. by intros ->. Qed.

(** C7: conversely, two result sets with one canonical hash have the same column
    names and the same multiset of rows up to float normalization, unless the two
    encoded messages are a hash collision. *)
Theorem canonical_hash_binds_result (a b : ResultSet) :
  ResultSet_wf a -> ResultSet_wf b ->
  NoCollision blake3 [canonical_preimage a; canonical_preimage b] ->
  canonical_hash a = canonical_hash b -> same_result a b.
Proof.
  intros Ha Hb Hnc H. unfold canonical_hash in H. apply hex_encode_inj in H.
  apply preimage_same_result; [done..|]. apply Hnc; [set_solver..|done].
Qed.
End hash_claims.

Definition rs1 : ResultSet := mkResultSet [str "region"; str "n"]
  [[VText (str "us"); VInt 3]; [VText (str "eu"); VFloat 0]].
Definition rs2 : ResultSet := mkResultSet [str "region"; str "n"]
  [[VText (str "eu"); VFloat (2 ^ 63)]; [VText (str "us"); VInt 3]].

Lemma rs_wf : ResultSet_wf rs1 /\ ResultSet_wf rs2.
Proof. solve_wf. Qed.

Lemma canonical_hash_order_independent_witness :
  @canonical_hash toy_crypto rs1 = @canonical_hash toy_crypto rs2.
Proof.
  apply canonical_hash_order_independent. split; [done|]. apply Permutation_swap.
Defined.

Lemma canonical_hash_binds_result_witness : same_result rs1 rs2.
Proof.
  apply (@canonical_hash_binds_result toy_crypto); [apply rs_wf | apply rs_wf | |].
  - apply (bool_decide_unpack _). vm_compute. exact I.
  - vm_compute. reflexivity.
Defined.

(** ** Quorum: specification and proofs *)

(** How many workers committed [h]. *)
Definition votes (h : bytes) (l : list bytes) : nat := length (filter (.= h) l).

(** [h] was committed and reached the quorum [q]. *)
Definition reaches (l : list bytes) (q : nat) (h : bytes) : Prop := h ∈ l /\ (q <= votes h l)%nat.

Lemma votes_pos h l : (0 < votes h l)%nat <-> h ∈ l.
Proof.
  unfold votes. split.
  - intros H. destruct (filter (.= h) l) as [|x k] eqn:E; [simpl in H; lia|].
    assert (x ∈ filter (.= h) l) as Hx by (rewrite E; set_solver).
    apply list_elem_of_filter in Hx as [-> ?]. done.
  - intros H. assert (h ∈ filter (.= h) l) as Hx by by apply list_elem_of_filter.
    destruct (filter (.= h) l); [set_solver|simpl; lia].
Qed.

Lemma votes_snoc h l x : votes h (l ++ [x]) = (votes h l + if decide (x = h) then 1 else 0)%nat.
Proof.
  unfold votes. rewrite filter_app, length_app. f_equal.
  rewrite filter_cons. by destruct (decide (x = h)).
Qed.

Lemma votes_perm h l k : l ≡ₚ k -> votes h l = votes h k.
Proof. intros H. unfold votes. by rewrite H. Qed.

Lemma tally_lookup l h :
  tally l !! h = if decide (h ∈ l) then Some (votes h l) else None.
Proof.
  induction l as [|x l IH] using rev_ind; [done|].
  unfold tally in *. rewrite foldl_snoc. unfold tally_one at 1.
  rewrite votes_snoc. destruct (decide (x = h)) as [->|Hne].
  - rewrite lookup_insert_eq, decide_True by set_solver. rewrite IH. f_equal.
    destruct (decide (h ∈ l)) as [|Hn]; simpl; [lia|].
    rewrite <- votes_pos in Hn. lia.
  - rewrite lookup_insert_ne by done. rewrite IH, Nat.add_0_r.
    destruct (decide (h ∈ l)); [rewrite decide_True by set_solver | rewrite decide_False by set_solver]; done.
Qed.

Lemma entry_leb_total a b : entry_leb a b = true \/ entry_leb b a = true.
Proof.
  unfold entry_leb. destruct (decide (a.2 = b.2)) as [E|E].
  - rewrite decide_True by done. apply lex_leb_total.
  - rewrite decide_False by done. rewrite !Nat.ltb_lt. lia.
Qed.

Lemma entry_leb_trans a b c : entry_leb a b = true -> entry_leb b c = true -> entry_leb a c = true.
Proof.
  unfold entry_leb. intros H1 H2.
  destruct (decide (a.2 = b.2)), (decide (b.2 = c.2)); bool_to_prop;
    [rewrite decide_True by congruence; eauto using lex_leb_trans
    | rewrite decide_False by lia; apply Nat.ltb_lt; lia..].
Qed.

Lemma entry_leb_count a b : entry_leb a b = true -> (b.2 <= a.2)%nat.
Proof. unfold entry_leb. destruct (decide _); intros; bool_to_prop; lia. Qed.

Lemma elem_of_entries l h c : (h, c) ∈ quorum_entries l <-> h ∈ l /\ c = votes h l.
Proof.
  unfold quorum_entries. rewrite elem_of_isort, elem_of_map_to_list, tally_lookup.
  case_decide; naive_solver.
Qed.

Lemma NoDup_entries l : NoDup (quorum_entries l).
Proof. unfold quorum_entries. rewrite isort_perm. apply NoDup_map_to_list. Qed.

(** The entries that meet the quorum are the hashes that reach it. *)
Lemma elem_of_meeting l q h c :
  (h, c) ∈ List.filter (fun e => (q <=? e.2)%nat) (quorum_entries l)
  <-> reaches l q h /\ c = votes h l.
Proof.
  rewrite list_elem_of_In, filter_In, <- list_elem_of_In, elem_of_entries. simpl.
  rewrite Nat.leb_le. unfold reaches. naive_solver.
Qed.

(** The first entry has the most votes. *)
Lemma entries_head_max l e es : quorum_entries l = e :: es ->
  forall h, h ∈ l -> (votes h l <= e.2)%nat.
Proof.
  intros He h Hh.
  assert (StronglySorted (fun x y => entry_leb x y = true) (quorum_entries l)) as Hs.
  { apply isort_sorted; [apply entry_leb_total | exact entry_leb_trans]. }
  assert ((h, votes h l) ∈ quorum_entries l) as Hin by by apply elem_of_entries.
  rewrite He in Hs, Hin. inv Hs. apply elem_of_cons in Hin as [<-|Hin]; [done|].
  rewrite Forall_forall in *. apply (entry_leb_count e (h, votes h l)). auto.
Qed.

(** The three-way verdict of [evaluate_quorum], in terms of [reaches]. *)
Lemma evaluate_quorum_cases l q :
  let o := evaluate_quorum l q in
  (exists h1 h2, h1 <> h2 /\ reaches l q h1 /\ reaches l q h2
      /\ split o = true /\ agreed_hash o = None)
  \/ (exists h, reaches l q h /\ (forall h', reaches l q h' -> h' = h)
      /\ split o = false /\ agreed_hash o = Some h /\ agreement o = votes h l)
  \/ ((forall h, ~ reaches l q h) /\ split o = false /\ agreed_hash o = None).
Proof.
  intros o. unfold o, evaluate_quorum.
  pose proof (elem_of_meeting l q) as HM. pose proof (NoDup_entries l) as HN.
  pose proof (entries_head_max l) as Hmax. pose proof (elem_of_entries l) as HE.
  destruct (List.filter _ _) as [|[h1 c1] [|[h2 c2] M]] eqn:EM; simpl.
  - right; right. split; [|done]. intros h Hh.
    apply (not_elem_of_nil (h, votes h l)). apply HM. done.
  - right; left. destruct (proj1 (HM h1 c1)) as [Hr1 Hc1]; [set_solver|].
    destruct (quorum_entries l) as [|[h c] es]; [done|].
    assert (reaches l q h) as Hr.
    { destruct (proj1 (HE h c)) as [Hin ->]; [set_solver|]. split; [done|].
      destruct Hr1 as [Hin1 Hv1]. specialize (Hmax _ _ eq_refl h1 Hin1). simpl in Hmax. lia. }
    exists h. split; [done|]. split.
    + intros h' Hr'.
      pose proof (proj2 (HM h (votes h l)) (conj Hr eq_refl)) as E1.
      pose proof (proj2 (HM h' (votes h' l)) (conj Hr' eq_refl)) as E2. set_solver.
    + split; [done|]. split; [done|]. simpl. apply (HE h c). set_solver.
  - left. exists h1, h2. destruct (proj1 (HM h1 c1)) as [? ->]; [set_solver|].
    destruct (proj1 (HM h2 c2)) as [? ->]; [set_solver|].
    split; [|done]. intros ->.
    apply (NoDup_ListNoDup (quorum_entries l)) in HN.
    apply (List.NoDup_filter (fun e => (q <=? e.2)%nat)) in HN. rewrite EM in HN.
    inv HN. match goal with H : ~ In _ _ |- _ => apply H; by left end.
Qed.

Lemma tally_perm l k : l ≡ₚ k -> tally l = tally k.
Proof.
  intros H. apply map_eq. intros h. rewrite !tally_lookup, (votes_perm h l k) by done.
  destruct (decide (h ∈ l)) as [E|E]; rewrite H in E;
    [by rewrite decide_True | by rewrite decide_False].
Qed.

(** Votes for two different hashes are votes of different workers. *)
Lemma votes_disjoint h1 h2 l : h1 <> h2 -> (votes h1 l + votes h2 l <= length l)%nat.
Proof.
  intros Hne. unfold votes. induction l as [|x l IH]; simpl; [done|].
  rewrite !filter_cons. destruct (decide (x = h1)), (decide (x = h2)); simpl; [congruence|lia..].
Qed.

Lemma sort_commits_spec commits pin :
  sort_commits commits pin =
  (ck_result_hash <$> List.filter (fun c => negb (is_drifted pin c)) commits,
   length (List.filter (is_drifted pin) commits)).
Proof.
  unfold sort_commits. induction commits as [|c cs IH] using rev_ind; [done|].
  rewrite foldl_snoc, IH, !List.filter_app, fmap_app, length_app. simpl.
  destruct (is_drifted pin c); simpl; f_equal; rewrite ?app_nil_r; try done; lia.
Qed.

Section quorum_claims.
(** C21: a result hash is accepted exactly when it is the only hash that reaches
    the quorum: it was committed by at least [q] workers and no other hash was. *)
Theorem quorum_agreed_iff (l : list bytes) (q : nat) (h : bytes) :
  agreed_hash (evaluate_quorum l q) = Some h
  <-> reaches l q h /\ (forall h', reaches l q h' -> h' = h).
Proof.
  destruct (evaluate_quorum_cases l q)
    as [(h1 & h2 & Hne & H1 & H2 & _ & ->)|[(g & Hg & Hu & _ & -> & _)|(Hn & _ & ->)]].
  - split; [done|]. intros [_ Hu]. destruct Hne. by rewrite (Hu h1), (Hu h2).
  - split; [by intros [= <-]|]. intros [Hr _]. f_equal. symmetry. auto.
  - split; [done|]. intros [Hr _]. by destruct (Hn h).
Qed.

(** The outcome is flagged as an equivocation exactly when two different
    hashes each reach the quorum, and then nothing is accepted. *)
Theorem quorum_split_iff (l : list bytes) (q : nat) :
  (split (evaluate_quorum l q) = true
     <-> exists h1 h2, h1 <> h2 /\ reaches l q h1 /\ reaches l q h2)
  /\ (split (evaluate_quorum l q) = true -> reached (evaluate_quorum l q) = false).
Proof.
  unfold reached.
  destruct (evaluate_quorum_cases l q)
    as [(h1 & h2 & Hne & H1 & H2 & -> & ->)|[(g & Hg & Hu & -> & -> & _)|(Hn & -> & ->)]].
  - split; [naive_solver|]. intros _. done.
  - split; [|done]. split; [done|]. intros (h1 & h2 & Hne & H1 & H2).
    destruct Hne. by rewrite (Hu h1), (Hu h2).
  - split; [|done]. split; [done|]. intros (h1 & h2 & _ & H1 & _). by destruct (Hn h1).
Qed.

(** Two verifiers that tally the same multiset of commits in any order reach
    the same outcome, including the reported agreement count. *)
Theorem quorum_deterministic (l k : list bytes) (q : nat) :
  l ≡ₚ k -> evaluate_quorum l q = evaluate_quorum k q.
Proof.
  intros H. unfold evaluate_quorum, quorum_entries. by rewrite (tally_perm l k H).
Qed.

(** With a strict-majority quorum an equivocation is impossible, and a result
    accepted by one verifier can never be contradicted: any hash that reaches the
    quorum is the accepted one. *)
Theorem quorum_majority_safe (l : list bytes) (q : nat) (h : bytes) :
  (length l < 2 * q)%nat -> reaches l q h ->
  split (evaluate_quorum l q) = false /\ agreed_hash (evaluate_quorum l q) = Some h.
Proof.
  intros Hq Hh.
  assert (forall h', reaches l q h' -> h' = h) as Hu.
  { intros h' [_ Hv']. destruct (decide (h' = h)) as [|Hne]; [done|].
    pose proof (votes_disjoint h' h l Hne). destruct Hh as [_ Hv]. lia. }
  destruct (evaluate_quorum_cases l q)
    as [(h1 & h2 & Hne & H1 & H2 & _)|[(g & Hg & _ & -> & -> & _)|(Hn & _)]].
  - destruct Hne. by rewrite (Hu h1), (Hu h2).
  - split; [done|]. f_equal. auto.
  - by destruct (Hn h).
Qed.

(** Commits that read another (non-empty) snapshot are only counted as drift:
    the verdict is the plain quorum over the commits on the pinned snapshot, so a
    replica that read newer bytes can neither win nor cause a split. *)
Theorem drift_excluded_from_quorum (commits : list CommitKey) (pin : option bytes) (q : nat) :
  evaluate_quorum_on_commits commits pin q =
  mkFQ (evaluate_quorum
          (ck_result_hash <$> List.filter (fun c => negb (is_drifted pin c)) commits) q)
       (length (List.filter (is_drifted pin) commits)).
Proof. unfold evaluate_quorum_on_commits. by rewrite sort_commits_spec. Qed.
End quorum_claims.

Lemma quorum_deterministic_witness :
  evaluate_quorum [str "aa"; str "bb"; str "aa"] 2 = evaluate_quorum [str "bb"; str "aa"; str "aa"] 2.
Proof. apply quorum_deterministic. apply Permutation_swap. Defined.

Lemma quorum_majority_safe_witness :
  split (evaluate_quorum [str "aa"; str "bb"; str "aa"] 2) = false
  /\ agreed_hash (evaluate_quorum [str "aa"; str "bb"; str "aa"] 2) = Some (str "aa").
Proof.
  apply quorum_majority_safe; [vm_compute; lia|].
  split; [set_solver|]. apply Nat.leb_le. vm_compute. reflexivity.
Defined.

(** A split is surfaced, not decided by a coin flip. *)
Example quorum_split_example :
  evaluate_quorum [str "aa"; str "bb"; str "bb"; str "aa"] 2 = mkOutcome None 2 2 true.
Proof. vm_compute. reflexivity. Qed.
