(* ===== verification/Signing.v ===== *)
(** * Signed statements (crates/trust/src/receipt.rs, antiabuse.rs, sybil.rs)

    A receipt, an abuse signal and a vouch are Ed25519 signatures over canonical
    bytes.  For each: the bytes, signing, verification, and that the bytes
    determine every signed field. *)

From S2P Require Import Prelude Bytes Crypto Text Proto.

(** ** The node's signer (receipt.rs [Signer], node/src/signer.rs) *)

Record Signer := mkSigner {
  sign_bytes : bytes -> bytes;
  public_key : bytes;
  node_id : NodeId;
}.

(** [IdentitySigner] over a [NodeIdentity] built from a signing key. *)
Definition identity_signer {C : Crypto} (k : seckey) : Signer :=
  mkSigner (ed_sign k) (ed_public k) (from_pubkey (ed_public k)).

(** ** Receipts *)

Definition verdict_tag (v : Verdict) : Z :=
  match v with
  | Correct => 1 | Incorrect => 2 | Timeout => 3 | Malformed => 4
  | ResourceExceeded => 5 | Infeasible => 6 | Inconclusive => 7
  end.

(** The canonical bytes a receipt's signature covers. *)
Definition signing_bytes (job_id : JobId) (worker_id requester_id : NodeId)
    (query_hash : QueryHash) (result_hash : bytes) (verdict : Verdict)
    (latency_ms ts observed_input_bytes observed_result_rows observed_result_bytes : Z)
    (input_fingerprint : bytes) : bytes :=
  str "duckdb-p2p-receipt-v1"
  ++ field job_id ++ field worker_id ++ field requester_id ++ field query_hash
  ++ field input_fingerprint ++ field result_hash
  ++ le_bytes 1 (verdict_tag verdict)
  ++ le64 latency_ms ++ le64 ts
  ++ le64 observed_input_bytes ++ le64 observed_result_rows ++ le64 observed_result_bytes.

Record ReceiptDraft := mkDraft {
  d_job_id : JobId;
  d_worker_id : NodeId;
  d_query_hash : QueryHash;
  d_result_hash : bytes;
  d_verdict : Verdict;
  d_latency_ms : Z;
  d_ts : Z;
  d_observed_input_bytes : Z;
  d_observed_result_rows : Z;
  d_observed_result_bytes : Z;
  d_input_fingerprint : bytes;
}.

(** [ReceiptDraft::new]: no measured magnitudes, no pin. *)
Definition new_draft (job_id : JobId) (worker_id : NodeId) (query_hash : QueryHash)
    (result_hash : bytes) (verdict : Verdict) (latency_ms ts : Z) : ReceiptDraft :=
  mkDraft job_id worker_id query_hash result_hash verdict latency_ms ts 0 0 0 [].

Definition receipt_message (r : Receipt) : bytes :=
  signing_bytes (r_job_id r) (r_worker_id r) (r_requester_id r) (r_query_hash r)
    (r_result_hash r) (r_verdict r) (r_latency_ms r) (r_ts r) (r_observed_input_bytes r)
    (r_observed_result_rows r) (r_observed_result_bytes r) (r_input_fingerprint r).

Definition sign_receipt (d : ReceiptDraft) (signer : Signer) : Receipt :=
  let requester_id := node_id signer in
  let msg := signing_bytes (d_job_id d) (d_worker_id d) requester_id (d_query_hash d)
    (d_result_hash d) (d_verdict d) (d_latency_ms d) (d_ts d) (d_observed_input_bytes d)
    (d_observed_result_rows d) (d_observed_result_bytes d) (d_input_fingerprint d) in
  let sig := sign_bytes signer msg in
  mkReceipt (d_job_id d) (d_worker_id d) requester_id (d_query_hash d) (d_result_hash d)
    (d_verdict d) (d_latency_ms d) (d_ts d) (d_observed_input_bytes d)
    (d_observed_result_rows d) (d_observed_result_bytes d) (d_input_fingerprint d)
    (hex_encode (public_key signer)) (hex_encode sig).

Definition verify_receipt {C : Crypto} (r : Receipt) : bool :=
  match hex_array 32 (r_requester_pubkey r) with
  | None => false
  | Some pk =>
      if negb (vk_from_bytes pk) then false
      else if negb (bool_decide (r_requester_id r = from_pubkey pk)) then false
      else match hex_array 64 (r_sig r) with
           | None => false
           | Some sig => verify_strict pk (receipt_message r) sig
           end
  end.

(** ** Abuse signals *)

Definition abuse_signing_bytes (subject_id : NodeId) (subject_wallet : option bytes)
    (reason : bytes) (ts : Z) (reporter_id : NodeId) : bytes :=
  str "duckdb-p2p-abuse-v1"
  ++ field subject_id ++ field (default [] subject_wallet) ++ field reason ++ field reporter_id
  ++ le64 ts.

Definition abuse_message (s : AbuseSignal) : bytes :=
  abuse_signing_bytes (ab_subject_id s) (ab_subject_wallet s) (ab_reason s) (ab_ts s)
    (ab_reporter_id s).

Definition sign_abuse_signal (subject_id : NodeId) (subject_wallet : option bytes)
    (reason : bytes) (ts : Z) (signer : Signer) : AbuseSignal :=
  let reporter_id := node_id signer in
  let msg := abuse_signing_bytes subject_id subject_wallet reason ts reporter_id in
  mkAbuseSignal subject_id subject_wallet reason ts reporter_id
    (hex_encode (public_key signer)) (hex_encode (sign_bytes signer msg)).

Definition verify_abuse_signal {C : Crypto} (s : AbuseSignal) : bool :=
  match hex_array 32 (ab_reporter_pubkey s) with
  | None => false
  | Some pk =>
      if negb (vk_from_bytes pk) then false
      else if negb (bool_decide (ab_reporter_id s = from_pubkey pk)) then false
      else match hex_array 64 (ab_sig s) with
           | None => false
           | Some sig => verify_strict pk (abuse_message s) sig
           end
  end.

(** ** Vouches: the signed bytes *)

Definition vouch_signing_bytes (voucher_pubkey : bytes) (subject : NodeId)
    (weight_milli expiry : Z) : bytes :=
  str "duckdb-p2p-vouch-v2" ++ voucher_pubkey ++ subject ++ le32 weight_milli ++ le64 expiry.

(** ** Well-formedness *)

Definition Receipt_wf (r : Receipt) : Prop :=
  fits (r_job_id r) /\ fits (r_worker_id r) /\ fits (r_requester_id r) /\ fits (r_query_hash r)
  /\ fits (r_result_hash r) /\ fits (r_input_fingerprint r)
  /\ in_u 64 (r_latency_ms r) /\ in_u 64 (r_ts r) /\ in_u 64 (r_observed_input_bytes r)
  /\ in_u 64 (r_observed_result_rows r) /\ in_u 64 (r_observed_result_bytes r).

Definition Abuse_wf (s : AbuseSignal) : Prop :=
  fits (ab_subject_id s) /\ fits (default [] (ab_subject_wallet s)) /\ fits (ab_reason s)
  /\ fits (ab_reporter_id s) /\ in_u 64 (ab_ts s).

(** The part of a receipt its signature covers. *)
Definition receipt_body (r : Receipt) : Receipt :=
  mkReceipt (r_job_id r) (r_worker_id r) (r_requester_id r) (r_query_hash r) (r_result_hash r)
    (r_verdict r) (r_latency_ms r) (r_ts r) (r_observed_input_bytes r)
    (r_observed_result_rows r) (r_observed_result_bytes r) (r_input_fingerprint r) [] [].

Lemma verdict_tag_inj a b : verdict_tag a = verdict_tag b -> a = b.
Proof. by destruct a, b. Qed.

Lemma verdict_tag_range v : 0 <= verdict_tag v < 256 ^ Z.of_nat 1.
Proof. rewrite pow_256. destruct v; simpl; lia. Qed.

Lemma receipt_message_inj r1 r2 :
  Receipt_wf r1 -> Receipt_wf r2 ->
  receipt_message r1 = receipt_message r2 -> receipt_body r1 = receipt_body r2.
Proof.
  intros H1 H2 H. unfold Receipt_wf in *. destruct_and!.
  unfold receipt_message, signing_bytes in H. apply app_inv_head in H.
  do 6 (peel_field H by done).
  peel_le 1%nat H by apply verdict_tag_range.
  do 4 (peel_le 8%nat H by solve_range).
  apply le_bytes_inj in H; [|solve_range..].
  match goal with E : verdict_tag _ = _ |- _ => apply verdict_tag_inj in E end.
  unfold receipt_body. congruence.
Qed.

(** A vouch's bytes determine it: the subject sits between fixed-size fields. *)
Lemma vouch_bytes_inj pk1 s1 w1 e1 pk2 s2 w2 e2 :
  length pk1 = 32%nat -> length pk2 = 32%nat -> in_u 32 w1 -> in_u 32 w2 ->
  in_u 64 e1 -> in_u 64 e2 ->
  vouch_signing_bytes pk1 s1 w1 e1 = vouch_signing_bytes pk2 s2 w2 e2 ->
  pk1 = pk2 /\ s1 = s2 /\ w1 = w2 /\ e1 = e2.
Proof.
  intros Hp1 Hp2 Hw1 Hw2 He1 He2 H. unfold vouch_signing_bytes in H.
  apply app_inv_head in H. peel_raw 32%nat H by done.
  apply app_inj_2 in H as [Hs H]; [|by rewrite !length_app, !length_le_bytes].
  peel_le 4%nat H by solve_range. apply le_bytes_inj in H; [done|solve_range..].
Qed.

Section claims.
Context {C : Crypto} {CL : CryptoLaws C}.

Lemma verify_receipt_spec r :
  verify_receipt r = true <-> exists pk sig,
    hex_array 32 (r_requester_pubkey r) = Some pk /\ hex_array 64 (r_sig r) = Some sig
    /\ vk_from_bytes pk = true /\ r_requester_id r = from_pubkey pk
    /\ verify_strict pk (receipt_message r) sig = true.
Proof using Type.
  unfold verify_receipt. destruct (hex_array 32 _) as [pk|]; [|naive_solver].
  destruct (vk_from_bytes pk) eqn:Ev; simpl; [|naive_solver].
  case_bool_decide as Ei; simpl; [|naive_solver].
  destruct (hex_array 64 _) as [sig|]; naive_solver.
Qed.

(** A receipt signed with a node identity verifies, and it names that identity
    as the requester. *)
Theorem sign_receipt_verifies (d : ReceiptDraft) (k : seckey) :
  verify_receipt (sign_receipt d (identity_signer k)) = true
  /\ r_requester_id (sign_receipt d (identity_signer k)) = from_pubkey (ed_public k).
Proof using CL.
  split; [|done]. apply verify_receipt_spec. eexists _, _.
  split; [apply hex_public|]. split; [apply hex_signature|].
  split; [apply vk_public|]. split; [done|]. apply verify_sign.
Qed.

(** A receipt's signature covers every field: two receipts that verify with
    one public key and whose signed bytes agree are equal up to the signature
    itself, and an accepted receipt cannot name an identity other than the hash of
    the key that signed it. *)
Theorem receipt_signature_binds_fields (r1 r2 : Receipt) :
  Receipt_wf r1 -> Receipt_wf r2 ->
  verify_receipt r1 = true -> verify_receipt r2 = true ->
  receipt_message r1 = receipt_message r2 ->
  receipt_body r1 = receipt_body r2
  /\ exists pk, hex_array 32 (r_requester_pubkey r1) = Some pk
       /\ r_requester_id r2 = from_pubkey pk.
Proof using Type.
  intros W1 W2 V1 V2 H. assert (receipt_body r1 = receipt_body r2) as Hb
    by by apply receipt_message_inj.
  split; [done|]. apply verify_receipt_spec in V1 as (pk & sig & Hpk & _ & _ & Hid & _).
  exists pk. split; [done|]. apply (f_equal r_requester_id) in Hb. simpl in Hb. congruence.
Qed.

(** An abuse signal signed with a node identity verifies. *)
Theorem sign_abuse_signal_verifies (subject : NodeId) (wallet : option bytes)
    (reason : bytes) (ts : Z) (k : seckey) :
  verify_abuse_signal (sign_abuse_signal subject wallet reason ts (identity_signer k)) = true.
Proof using CL.
  unfold verify_abuse_signal, sign_abuse_signal, identity_signer, abuse_message; simpl.
  rewrite hex_public, vk_public, bool_decide_eq_true_2, hex_signature by done. apply verify_sign.
Qed.
End claims.

Definition receipt_example : Receipt :=
  sign_receipt (new_draft (str "job") (str "b3:w") (str "q") (str "h") Correct 12 100)
    (@identity_signer toy_crypto 42).

(** The same receipt carried with the public key in upper-case hex. *)
Definition receipt_example_upper : Receipt :=
  let r := receipt_example in
  mkReceipt (r_job_id r) (r_worker_id r) (r_requester_id r) (r_query_hash r) (r_result_hash r)
    (r_verdict r) (r_latency_ms r) (r_ts r) (r_observed_input_bytes r)
    (r_observed_result_rows r) (r_observed_result_bytes r) (r_input_fingerprint r)
    (to_ascii_uppercase (r_requester_pubkey r)) (r_sig r).

Lemma sign_receipt_verifies_witness :
  let r := sign_receipt (new_draft (str "job") (str "b3:w") (str "q") (str "h") Correct 12 100)
             (@identity_signer toy_crypto 42) in
  @verify_receipt toy_crypto r = true /\ r_requester_id r = @from_pubkey toy_crypto (le_bytes 32 42).
Proof. apply (@sign_receipt_verifies toy_crypto toy_laws). Defined.

Lemma receipt_signature_binds_fields_witness :
  receipt_body receipt_example = receipt_body receipt_example_upper
  /\ exists pk, hex_array 32 (r_requester_pubkey receipt_example) = Some pk
       /\ r_requester_id receipt_example_upper = @from_pubkey toy_crypto pk.
Proof.
  apply (@receipt_signature_binds_fields toy_crypto);
    [solve_wf | solve_wf | vm_compute; reflexivity..].
Defined.

Lemma sign_abuse_signal_verifies_witness :
  @verify_abuse_signal toy_crypto
    (sign_abuse_signal (str "b3:x") None (str "spam") 5 (@identity_signer toy_crypto 42)) = true.
Proof. apply (@sign_abuse_signal_verifies toy_crypto toy_laws). Defined.
