(* ===== verification/Capability.v ===== *)
(** * Proof-of-work identities, capability ads and durable profiles
    (crates/trust/src/sybil.rs, capability.rs; crates/node/src/capability_store.rs) *)

From S2P Require Import Prelude Bytes Crypto Text Proto Signing.

(** ** Proof of work (sybil.rs) *)

Definition POW_DOMAIN : bytes := str "duckdb-p2p-identity-pow-v2".
Definition POW_EPOCH_SECS : Z := 24 * 3600.
Definition pow_epoch (ts : Z) : Z := ts / POW_EPOCH_SECS.

(** [u8::leading_zeros] of a non-zero byte. *)
Definition byte_leading_zeros (b : byte) : Z := 7 - Z.log2 (byte_val b).

Fixpoint leading_zero_bits (bs : bytes) : Z :=
  match bs with
  | [] => 0
  | b :: bs' => if byte_val b =? 0 then 8 + leading_zero_bits bs' else byte_leading_zeros b
  end.

Record PowStamp := mkStamp { nonce : Z; difficulty_bits : Z }.

Section pow.
Context {C : Crypto}.

Definition pow_digest (pubkey : bytes) (epoch nonce : Z) : bytes :=
  blake3 (POW_DOMAIN ++ pubkey ++ le64 epoch ++ le64 nonce).

(** The search loop [for nonce in 0..max_iters]. *)
Fixpoint mint_loop (pubkey : bytes) (epoch difficulty_bits : Z) (n : nat) (nonce : Z)
  : option PowStamp :=
  match n with
  | O => None
  | S n' =>
      if difficulty_bits <=? leading_zero_bits (pow_digest pubkey epoch nonce)
      then Some (mkStamp nonce difficulty_bits)
      else mint_loop pubkey epoch difficulty_bits n' (nonce + 1)
  end.

Definition mint_pow (pubkey : bytes) (epoch difficulty_bits max_iters : Z) : option PowStamp :=
  mint_loop pubkey epoch difficulty_bits (Z.to_nat max_iters) 0.

Definition verify_pow (pubkey : bytes) (epoch : Z) (stamp : PowStamp) (required_bits : Z) : bool :=
  if difficulty_bits stamp <? required_bits then false
  else required_bits <=? leading_zero_bits (pow_digest pubkey epoch (nonce stamp)).
End pow.

(** ** Capability ads (capability.rs) *)

Record CapabilityDraft := mkAdDraft {
  cd_addr : bytes;
  cd_free_mem_bytes : Z;
  cd_free_threads : Z;
  cd_max_jobs : Z;
  cd_attestation_level : AttestationLevel;
  cd_price : Z;
  cd_recent_receipts_root : option bytes;
  cd_pow : PowStamp;
  cd_ts : Z;
  cd_enabled : bool;
  cd_networks : list bytes;
  cd_groups : list bytes;
  cd_region : option bytes;
}.

(** The fields [signing_bytes] appends, in order. *)
Definition ad_fields (ad : CapabilityAd) : list bytes :=
  [str "duckdb-p2p-capability-ad-v1"; le16 (ad_schema_version ad);
   version_to_string (ad_protocol_version ad); ad_node_id ad; ad_pubkey ad; ad_addr ad;
   le64 (ad_free_mem_bytes ad); le32 (ad_free_threads ad); le32 (ad_max_jobs ad);
   le_bytes 1 (level_code (ad_attestation_level ad)); le64 (ad_price ad);
   default [] (ad_recent_receipts_root ad); le64 (ad_pow_nonce ad); le32 (ad_pow_bits ad);
   le64 (ad_ts ad); le_bytes 1 (if ad_enabled ad then 1 else 0);
   le64 (Z.of_nat (length (ad_networks ad)))] ++ ad_networks ad
  ++ [le64 (Z.of_nat (length (ad_groups ad)))] ++ ad_groups ad
  ++ [default [] (ad_region ad)].

Definition ad_signing_bytes (ad : CapabilityAd) : bytes := mjoin (field <$> ad_fields ad).

Definition ad_set_sig (ad : CapabilityAd) (sig : bytes) : CapabilityAd :=
  mkAd (ad_schema_version ad) (ad_protocol_version ad) (ad_node_id ad) (ad_pubkey ad)
    (ad_addr ad) (ad_free_mem_bytes ad) (ad_free_threads ad) (ad_max_jobs ad)
    (ad_attestation_level ad) (ad_price ad) (ad_recent_receipts_root ad) (ad_pow_nonce ad)
    (ad_pow_bits ad) (ad_ts ad) (ad_enabled ad) (ad_networks ad) (ad_groups ad) (ad_region ad) sig.

Definition sign_capability_ad (d : CapabilityDraft) (signer : Signer) : CapabilityAd :=
  let ad := mkAd SCHEMA_VERSION PROTOCOL_VERSION (node_id signer)
    (hex_encode (public_key signer)) (cd_addr d) (cd_free_mem_bytes d) (cd_free_threads d)
    (cd_max_jobs d) (cd_attestation_level d) (cd_price d) (cd_recent_receipts_root d)
    (nonce (cd_pow d)) (difficulty_bits (cd_pow d)) (cd_ts d) (cd_enabled d) (cd_networks d)
    (cd_groups d) (cd_region d) [] in
  ad_set_sig ad (hex_encode (sign_bytes signer (ad_signing_bytes ad))).

Definition verify_capability_ad {C : Crypto} (ad : CapabilityAd) (required_pow_bits : Z) : bool :=
  match hex_array 32 (ad_pubkey ad) with
  | None => false
  | Some pk =>
      if negb (bool_decide (ad_node_id ad = from_pubkey pk)) then false
      else
        let stamp := mkStamp (ad_pow_nonce ad) (ad_pow_bits ad) in
        if negb (verify_pow pk (pow_epoch (ad_ts ad)) stamp required_pow_bits) then false
        else if negb (vk_from_bytes pk) then false
        else match hex_array 64 (ad_sig ad) with
             | None => false
             | Some sig => verify_strict pk (ad_signing_bytes ad) sig
             end
  end.

(** ** Durable capability profiles (capability.rs) *)

Record CapabilityProfileDraft := mkProfileDraft {
  pd_max_input_bytes : Z;
  pd_max_result_rows : Z;
  pd_max_result_bytes : Z;
  pd_max_peak_memory_bytes : Z;
  pd_max_temp_dir_bytes : Z;
  pd_successes : Z;
  pd_seq : Z;
  pd_ts : Z;
}.

Definition profile_fields (p : CapabilityProfile) : list bytes :=
  [str "duckdb-p2p-capability-profile-v1"; le16 (p_schema_version p); p_node_id p; p_pubkey p;
   le64 (p_max_input_bytes p); le64 (p_max_result_rows p); le64 (p_max_result_bytes p);
   le64 (p_max_peak_memory_bytes p); le64 (p_max_temp_dir_bytes p); le64 (p_successes p);
   le64 (p_seq p); le64 (p_ts p)].

Definition profile_signing_bytes (p : CapabilityProfile) : bytes :=
  mjoin (field <$> profile_fields p).

Definition sign_capability_profile (d : CapabilityProfileDraft) (signer : Signer)
  : CapabilityProfile :=
  let mk sig := mkProfile SCHEMA_VERSION (node_id signer) (hex_encode (public_key signer))
    (pd_max_input_bytes d) (pd_max_result_rows d) (pd_max_result_bytes d)
    (pd_max_peak_memory_bytes d) (pd_max_temp_dir_bytes d) (pd_successes d) (pd_seq d)
    (pd_ts d) sig in
  mk (hex_encode (sign_bytes signer (profile_signing_bytes (mk [])))).

Definition verify_capability_profile {C : Crypto} (p : CapabilityProfile) : bool :=
  match hex_array 32 (p_pubkey p) with
  | None => false
  | Some pk =>
      if negb (bool_decide (p_node_id p = from_pubkey pk)) then false
      else if negb (vk_from_bytes pk) then false
      else match hex_array 64 (p_sig p) with
           | None => false
           | Some sig => verify_strict pk (profile_signing_bytes p) sig
           end
  end.

(** ** The profile store (capability_store.rs)

    The file is modelled by what reading and parsing it gives: [None] when it is
    missing or does not parse. *)

Record MeasuredExecution := mkMeasured {
  me_input_bytes : Z;
  me_result_rows : Z;
  me_result_bytes : Z;
  me_peak_memory_bytes : Z;
  me_temp_dir_bytes : Z;
}.

Section store.
Context {C : Crypto}.

Definition load_verified (file : option CapabilityProfile) (expected_node : NodeId)
  : option CapabilityProfile :=
  match file with
  | None => None
  | Some p =>
      if negb (bool_decide (p_node_id p = expected_node)) then None
      else if negb (verify_capability_profile p) then None
      else Some p
  end.

(** The cold-start profile of [observe]. *)
Definition base_profile (node : NodeId) : CapabilityProfile :=
  mkProfile 0 node [] 0 0 0 0 0 0 0 0 [].

(** [observe] at clock [now], returning the profile (or an I/O error) and the
    file's contents afterwards.  [write_failed = Some f]: the write fails and
    leaves [f] on disk. *)
Definition observe (file : option CapabilityProfile) (signer : Signer) (m : MeasuredExecution)
    (now : Z) (write_failed : option (option CapabilityProfile))
  : option CapabilityProfile * option CapabilityProfile :=
  let base := default (base_profile (node_id signer)) (load_verified file (node_id signer)) in
  let draft := mkProfileDraft
    (Z.max (p_max_input_bytes base) (me_input_bytes m))
    (Z.max (p_max_result_rows base) (me_result_rows m))
    (Z.max (p_max_result_bytes base) (me_result_bytes m))
    (Z.max (p_max_peak_memory_bytes base) (me_peak_memory_bytes m))
    (Z.max (p_max_temp_dir_bytes base) (me_temp_dir_bytes m))
    (sat_add 64 (p_successes base) 1)
    (sat_add 64 (p_seq base) 1)
    now in
  let profile := sign_capability_profile draft signer in
  match write_failed with
  | None => (Some profile, Some profile)
  | Some f => (None, f)
  end.
End store.

(** ** Leading zero bits as a bound on the digest *)

Lemma le_val_app a b : le_val (a ++ b) = le_val a + 256 ^ Z.of_nat (length a) * le_val b.
Proof.
  induction a as [|x a IH]; cbn [app le_val length]; [change (256 ^ Z.of_nat 0) with 1; lia|].
  rewrite IH, Nat2Z.inj_succ, Z.pow_succ_r by lia. lia.
Qed.

Lemma be_val_cons b bs : be_val (b :: bs) = byte_val b * 256 ^ Z.of_nat (length bs) + be_val bs.
Proof. unfold be_val. simpl. rewrite le_val_app, length_rev. simpl. lia. Qed.

Lemma be_val_bound bs : 0 <= be_val bs < 256 ^ Z.of_nat (length bs).
Proof. unfold be_val. rewrite <- length_rev. apply le_val_bound. Qed.

Lemma byte_log2 b : byte_val b <> 0 ->
  0 <= Z.log2 (byte_val b) <= 7
  /\ 2 ^ Z.log2 (byte_val b) <= byte_val b < 2 ^ (Z.log2 (byte_val b) + 1).
Proof.
  intros H. pose proof (byte_val_range b).
  pose proof (Z.log2_spec (byte_val b) ltac:(lia)). pose proof (Z.log2_nonneg (byte_val b)).
  assert (Z.log2 (byte_val b) < 8) by (apply Z.log2_lt_pow2; lia).
  replace (Z.log2 (byte_val b) + 1) with (Z.succ (Z.log2 (byte_val b))) by lia. lia.
Qed.

Lemma leading_zero_bits_nonneg bs : 0 <= leading_zero_bits bs.
Proof.
  induction bs as [|b bs IH]; simpl; [done|].
  destruct (Z.eqb_spec (byte_val b) 0) as [|Hb]; [lia|].
  unfold byte_leading_zeros. pose proof (byte_log2 b Hb). lia.
Qed.

(** A byte string has at least [d] leading zero bits exactly when, read as a
    big-endian integer, it lies below the target. *)
Lemma leading_zero_bits_target bs d :
  0 <= d <= 8 * Z.of_nat (length bs) ->
  d <= leading_zero_bits bs <-> be_val bs < 2 ^ (8 * Z.of_nat (length bs) - d).
Proof.
  revert d; induction bs as [|b bs IH]; intros d Hd.
  { simpl in *. assert (d = 0) as -> by lia. done. }
  cbn [leading_zero_bits length] in *. rewrite be_val_cons, pow_256 in *.
  rewrite Nat2Z.inj_succ in *. set (n := Z.of_nat (length bs)) in *.
  pose proof (be_val_bound bs) as Hv. rewrite pow_256 in Hv. fold n in Hv.
  pose proof (byte_val_range b).
  destruct (Z.eqb_spec (byte_val b) 0) as [Hb|Hb].
  - rewrite Hb, Z.mul_0_l, Z.add_0_l. destruct (Z_le_gt_dec d 8).
    + pose proof (leading_zero_bits_nonneg bs). split; [intros _|lia].
      eapply Z.lt_le_trans; [apply Hv|]. apply Z.pow_le_mono_r; lia.
    + replace (8 * Z.succ n - d) with (8 * n - (d - 8)) by lia. rewrite <- IH by lia. lia.
  - unfold byte_leading_zeros. destruct (byte_log2 b Hb) as [Hk [Hlo Hhi]].
    set (k := Z.log2 (byte_val b)) in *.
    assert (2 ^ (k + 8 * n) <= byte_val b * 2 ^ (8 * n) + be_val bs < 2 ^ (k + 1 + 8 * n)) as Hr.
    { rewrite (Z.pow_add_r 2 k (8 * n)), (Z.pow_add_r 2 (k + 1) (8 * n)) by lia.
      set (P := 2 ^ (8 * n)) in *. set (A := 2 ^ k) in *. set (B := 2 ^ (k + 1)) in *. nia. }
    split.
    + intros. eapply Z.lt_le_trans; [apply Hr|]. apply Z.pow_le_mono_r; lia.
    + intros Hlt. destruct (Z_le_gt_dec d (7 - k)); [done|].
      assert (2 ^ (8 * Z.succ n - d) <= 2 ^ (k + 8 * n)) by (apply Z.pow_le_mono_r; lia). lia.
Qed.

Section pow_claims.
Context {C : Crypto} {CL : CryptoLaws C}.

Lemma mint_loop_spec pk e d n i :
  match mint_loop pk e d n i with
  | Some st => difficulty_bits st = d /\ i <= nonce st < i + Z.of_nat n
      /\ d <= leading_zero_bits (pow_digest pk e (nonce st))
      /\ (forall j, i <= j < nonce st -> leading_zero_bits (pow_digest pk e j) < d)
  | None => forall j, i <= j < i + Z.of_nat n -> leading_zero_bits (pow_digest pk e j) < d
  end.
Proof using Type.
  revert i; induction n as [|n IH]; intros i; cbn [mint_loop]; [intros; lia|].
  destruct (Z.leb_spec d (leading_zero_bits (pow_digest pk e i))) as [Hd|Hd]; cbn [nonce difficulty_bits].
  { repeat split; lia. }
  specialize (IH (i + 1)). destruct (mint_loop _ _ _ _ _) as [st|].
  - destruct IH as (H1 & H2 & H3 & H4). repeat split; [done|lia|lia|done|].
    intros j Hj. destruct (decide (j = i)) as [->|]; [done|]. apply H4. lia.
  - intros j Hj. destruct (decide (j = i)) as [->|]; [done|]. apply IH. lia.
Qed.

(** Minting returns the least qualifying nonce below [max_iters], its stamp
    verifies for the same key and epoch at every requirement up to the difficulty,
    and it gives up only when no nonce below [max_iters] qualifies. *)
Theorem mint_pow_correct (pk : bytes) (epoch d max_iters : Z) :
  0 <= max_iters ->
  match mint_pow pk epoch d max_iters with
  | Some st =>
      0 <= nonce st < max_iters
      /\ (forall r, r <= d -> verify_pow pk epoch st r = true)
      /\ (forall j, 0 <= j < nonce st -> verify_pow pk epoch (mkStamp j d) d = false)
  | None => forall j, 0 <= j < max_iters -> verify_pow pk epoch (mkStamp j d) d = false
  end.
Proof using Type.
  intros Hm. unfold mint_pow, verify_pow. pose proof (mint_loop_spec pk epoch d (Z.to_nat max_iters) 0) as H.
  rewrite Z2Nat.id in H by done. destruct (mint_loop _ _ _ _ _) as [st|]; cbn [nonce difficulty_bits].
  - destruct H as (-> & H2 & H3 & H4). split; [lia|]. split.
    + intros r Hr. rewrite (proj2 (Z.ltb_ge _ _)) by lia. apply Z.leb_le. lia.
    + intros j Hj. rewrite Z.ltb_irrefl. apply Z.leb_gt. auto.
  - intros j Hj. rewrite Z.ltb_irrefl. apply Z.leb_gt. auto.
Qed.

(** A stamp is accepted exactly when it claims the required difficulty and the
    digest binding key, epoch and nonce, read as a 256-bit integer, is below
    [2^(256 - required)]. *)
Theorem verify_pow_target (pk : bytes) (epoch r : Z) (st : PowStamp) :
  0 <= r <= 256 ->
  verify_pow pk epoch st r = true
  <-> r <= difficulty_bits st /\ be_val (pow_digest pk epoch (nonce st)) < 2 ^ (256 - r).
Proof using CL.
  intros Hr. unfold verify_pow.
  pose proof (leading_zero_bits_target (pow_digest pk epoch (nonce st)) r) as H.
  unfold pow_digest in *. rewrite blake3_len in H. change (8 * Z.of_nat 32) with 256 in H.
  destruct (Z.ltb_spec (difficulty_bits st) r); [split; [done|lia]|].
  rewrite Z.leb_le, H by lia. naive_solver.
Qed.
End pow_claims.

(** ** Signed ads *)

Definition Ad_wf (ad : CapabilityAd) : Prop :=
  in_u 16 (ad_schema_version ad) /\ Version_wf (ad_protocol_version ad)
  /\ in_u 64 (ad_free_mem_bytes ad) /\ in_u 32 (ad_free_threads ad) /\ in_u 32 (ad_max_jobs ad)
  /\ in_u 64 (ad_price ad) /\ in_u 64 (ad_pow_nonce ad) /\ in_u 32 (ad_pow_bits ad)
  /\ in_u 64 (ad_ts ad)
  /\ Z.of_nat (length (ad_networks ad)) < 2 ^ 63 /\ Z.of_nat (length (ad_groups ad)) < 2 ^ 63
  /\ Forall fits (ad_fields ad).

#[global] Instance Ad_wf_dec ad : Decision (Ad_wf ad).
Proof. unfold Ad_wf. apply _. Defined.

(** What an ad's signature covers: everything but the signature, with an absent
    optional string and an empty one identified. *)
Definition ad_signed (ad : CapabilityAd) : CapabilityAd :=
  mkAd (ad_schema_version ad) (ad_protocol_version ad) (ad_node_id ad) (ad_pubkey ad)
    (ad_addr ad) (ad_free_mem_bytes ad) (ad_free_threads ad) (ad_max_jobs ad)
    (ad_attestation_level ad) (ad_price ad) (Some (default [] (ad_recent_receipts_root ad)))
    (ad_pow_nonce ad) (ad_pow_bits ad) (ad_ts ad) (ad_enabled ad) (ad_networks ad)
    (ad_groups ad) (Some (default [] (ad_region ad))) [].

Lemma level_code_inj a b : level_code a = level_code b -> a = b.
Proof. by destruct a, b. Qed.

Lemma level_code_range v : 0 <= level_code v < 256 ^ Z.of_nat 1.
Proof. rewrite pow_256. destruct v; simpl; lia. Qed.

Lemma bool_code_inj (a b : bool) :
  le_bytes 1 (if a then 1 else 0) = le_bytes 1 (if b then 1 else 0) -> a = b.
Proof. destruct a, b; vm_compute; congruence. Qed.

(** Two length-prefixed lists in a row are determined by their concatenation. *)
Lemma counted_app_inj (l k : list bytes) s t :
  Z.of_nat (length l) < 2 ^ 63 -> Z.of_nat (length k) < 2 ^ 63 ->
  le64 (Z.of_nat (length l)) :: l ++ s = le64 (Z.of_nat (length k)) :: k ++ t ->
  l = k /\ s = t.
Proof.
  intros Hl Hk H. apply cons_inj_pair in H as [Hn H].
  apply le_bytes_inj in Hn; [|by apply len64_range..].
  apply app_inj_1 in H; [done|lia].
Qed.

(** Takes apart an equation between two lists of fields. *)
Ltac split_fields H :=
  repeat (let E := fresh "E" in apply cons_inj_pair in H as [E H]).
Ltac le_eqs :=
  repeat match goal with
  | E : le_bytes _ ?x = le_bytes _ ?y |- _ => apply le_bytes_inj in E; [|solve_range..]
  end.

Lemma ad_signing_bytes_inj a b :
  Ad_wf a -> Ad_wf b -> ad_signing_bytes a = ad_signing_bytes b -> ad_signed a = ad_signed b.
Proof.
  intros Ha Hb H. unfold Ad_wf in *. destruct_and!.
  apply field_list_inj in H; [|done..]. unfold ad_fields in H. cbn [app] in H.
  do 9 (let E := fresh "E" in apply cons_inj_pair in H as [E H]).
  apply cons_inj_pair in H as [El H].
  do 5 (let E := fresh "E" in apply cons_inj_pair in H as [E H]).
  apply cons_inj_pair in H as [Ee H].
  apply counted_app_inj in H as [En H]; [|done..].
  apply counted_app_inj in H as [Eg H]; [|done..].
  apply cons_inj_pair in H as [Er _].
  apply bool_code_inj in Ee. apply le_bytes_inj in El; [|apply level_code_range..].
  apply level_code_inj in El.
  match goal with E : version_to_string _ = _ |- _ => apply version_to_string_inj in E; [|done..] end.
  le_eqs. unfold ad_signed. congruence.
Qed.

Definition profile_body (p : CapabilityProfile) : CapabilityProfile :=
  mkProfile (p_schema_version p) (p_node_id p) (p_pubkey p) (p_max_input_bytes p)
    (p_max_result_rows p) (p_max_result_bytes p) (p_max_peak_memory_bytes p)
    (p_max_temp_dir_bytes p) (p_successes p) (p_seq p) (p_ts p) [].

Definition Profile_wf (p : CapabilityProfile) : Prop :=
  in_u 16 (p_schema_version p) /\ in_u 64 (p_max_input_bytes p) /\ in_u 64 (p_max_result_rows p)
  /\ in_u 64 (p_max_result_bytes p) /\ in_u 64 (p_max_peak_memory_bytes p)
  /\ in_u 64 (p_max_temp_dir_bytes p) /\ in_u 64 (p_successes p) /\ in_u 64 (p_seq p)
  /\ in_u 64 (p_ts p) /\ Forall fits (profile_fields p).

Lemma profile_signing_bytes_inj a b :
  Profile_wf a -> Profile_wf b -> profile_signing_bytes a = profile_signing_bytes b ->
  profile_body a = profile_body b.
Proof.
  intros Ha Hb H. unfold Profile_wf in *. destruct_and!.
  apply field_list_inj in H; [|done..]. unfold profile_fields in H.
  split_fields H. le_eqs. unfold profile_body. congruence.
Qed.

(** ** The profile store as a ratchet *)

(** What a history of executions proves: the maxima and the number of runs. *)
Record Proven := mkProven {
  pv_input : Z; pv_rows : Z; pv_bytes : Z; pv_mem : Z; pv_temp : Z; pv_runs : Z;
}.

Definition prove (v : Proven) (m : MeasuredExecution) : Proven :=
  mkProven (Z.max (pv_input v) (me_input_bytes m)) (Z.max (pv_rows v) (me_result_rows m))
    (Z.max (pv_bytes v) (me_result_bytes m)) (Z.max (pv_mem v) (me_peak_memory_bytes m))
    (Z.max (pv_temp v) (me_temp_dir_bytes m)) (sat_add 64 (pv_runs v) 1).

Definition nothing_proven : Proven := mkProven 0 0 0 0 0 0.

Definition proven_of (p : CapabilityProfile) : Proven :=
  mkProven (p_max_input_bytes p) (p_max_result_rows p) (p_max_result_bytes p)
    (p_max_peak_memory_bytes p) (p_max_temp_dir_bytes p) (p_successes p).

Section claims.
Context {C : Crypto} {CL : CryptoLaws C}.

(** A history of successful [observe] calls on one file, at the given clocks. *)
Fixpoint observe_all (file : option CapabilityProfile) (signer : Signer)
    (ms : list (MeasuredExecution * Z)) : option CapabilityProfile :=
  match ms with
  | [] => file
  | (m, now) :: ms' => observe_all (snd (observe file signer m now None)) signer ms'
  end.

Lemma verify_signed_profile d k :
  verify_capability_profile (sign_capability_profile d (identity_signer k)) = true.
Proof using CL.
  unfold verify_capability_profile, sign_capability_profile. cbn [identity_signer node_id public_key
    sign_bytes p_pubkey p_node_id p_sig].
  rewrite hex_public, bool_decide_eq_true_2, vk_public, hex_signature by done. apply verify_sign.
Qed.

Lemma load_signed d k node :
  node = from_pubkey (ed_public k) ->
  load_verified (Some (sign_capability_profile d (identity_signer k))) node
  = Some (sign_capability_profile d (identity_signer k)).
Proof using CL.
  intros ->. unfold load_verified. rewrite verify_signed_profile.
  by rewrite bool_decide_eq_true_2.
Qed.

Lemma observe_all_spec file k ms :
  proven_of (default (base_profile (from_pubkey (ed_public k)))
    (load_verified (observe_all file (identity_signer k) ms) (from_pubkey (ed_public k))))
  = foldl prove (proven_of (default (base_profile (from_pubkey (ed_public k)))
      (load_verified file (from_pubkey (ed_public k))))) (ms.*1).
Proof using CL.
  revert file; induction ms as [|[m now] ms IH]; intros file; [done|].
  cbn [observe_all]. rewrite IH. rewrite fmap_cons. cbn [foldl fst snd observe].
  rewrite load_signed by done. done.
Qed.

(** An ad signed by a node identity verifies at every difficulty its
    proof-of-work stamp meets for the key and the epoch of its timestamp; in
    particular with the stamp [mint_pow] found for that epoch. *)
Theorem sign_capability_ad_verifies (d : CapabilityDraft) (k : seckey) (bits iters r : Z) :
  mint_pow (ed_public k) (pow_epoch (cd_ts d)) bits iters = Some (cd_pow d) ->
  0 <= iters -> r <= bits ->
  verify_capability_ad (sign_capability_ad d (identity_signer k)) r = true.
Proof using CL.
  intros Hm Hi Hr. unfold verify_capability_ad, sign_capability_ad.
  cbn [identity_signer node_id public_key sign_bytes ad_set_sig ad_pubkey ad_node_id ad_sig
       ad_pow_nonce ad_pow_bits ad_ts].
  rewrite hex_public, bool_decide_eq_true_2 by done. cbn [negb].
  pose proof (mint_loop_spec (ed_public k) (pow_epoch (cd_ts d)) bits (Z.to_nat iters) 0) as H.
  unfold mint_pow in Hm. rewrite Hm in H. destruct H as (H1 & H2 & H3 & _).
  unfold verify_pow. cbn [nonce difficulty_bits].
  rewrite (proj2 (Z.ltb_ge _ _)), (proj2 (Z.leb_le _ _)) by lia. cbn [negb].
  rewrite vk_public, hex_signature. apply verify_sign.
Qed.

(** An accepted ad's signature covers every advertised field, and the ad
    carries the proof of work of the key it is signed with: two accepted ads with
    equal signed bytes agree on everything but the signature (an absent region or
    receipts root being the same as an empty one), and the identity is the hash of
    the key whose stamp is below the target of the timestamp's epoch. *)
Theorem capability_ad_binds (a b : CapabilityAd) (r : Z) :
  Ad_wf a -> Ad_wf b -> 0 <= r <= 256 ->
  verify_capability_ad a r = true -> verify_capability_ad b r = true ->
  ad_signing_bytes a = ad_signing_bytes b ->
  ad_signed a = ad_signed b
  /\ exists pk, ad_node_id b = from_pubkey pk
       /\ be_val (pow_digest pk (pow_epoch (ad_ts b)) (ad_pow_nonce b)) < 2 ^ (256 - r).
Proof using CL.
  intros Ha Hb Hr Va Vb H. split; [by apply ad_signing_bytes_inj|].
  unfold verify_capability_ad in Vb. destruct (hex_array 32 _) as [pk|]; [|done].
  case_bool_decide as Hid; [|done]. cbn [negb] in Vb.
  destruct (verify_pow _ _ _ _) eqn:Hp; [|done]. exists pk. split; [done|].
  unfold verify_pow in Hp. cbn [nonce difficulty_bits] in Hp.
  destruct (ad_pow_bits b <? r); [done|].
  apply Z.leb_le in Hp. apply (proj1 (leading_zero_bits_target _ r
    ltac:(unfold pow_digest; rewrite blake3_len; lia))) in Hp.
  unfold pow_digest in *. rewrite blake3_len in Hp. done.
Qed.

(** The store is a ratchet that survives restarts: after any history of
    executions the stored profile re-loads as this node's own and holds, per
    dimension, the maximum of what was stored before and of everything measured,
    and the (saturating) number of runs. *)
Theorem observe_ratchet (file : option CapabilityProfile) (k : seckey)
    (ms : list (MeasuredExecution * Z)) :
  let me := from_pubkey (ed_public k) in
  proven_of (default (base_profile me) (load_verified (observe_all file (identity_signer k) ms) me))
  = foldl prove (proven_of (default (base_profile me) (load_verified file me))) (ms.*1).
Proof using CL. apply observe_all_spec. Qed.

(** A stored profile that is missing, belongs to another node or fails its
    signature is ignored (cold start): the next observation starts from zero, and
    what it stores is accepted and carries sequence number one. *)
Theorem observe_cold_start (file : option CapabilityProfile) (k : seckey) (m : MeasuredExecution)
    (now : Z) :
  match file with
  | None => True
  | Some p => p_node_id p <> from_pubkey (ed_public k) \/ verify_capability_profile p = false
  end ->
  exists p, observe file (identity_signer k) m now None = (Some p, Some p)
    /\ load_verified (Some p) (from_pubkey (ed_public k)) = Some p
    /\ p_seq p = 1 /\ p_successes p = 1 /\ proven_of p = prove nothing_proven m.
Proof using CL.
  intros Hf. assert (load_verified file (from_pubkey (ed_public k)) = None) as Hl.
  { destruct file as [p|]; [|done]. unfold load_verified. case_bool_decide; [|done].
    destruct Hf as [Hf|Hf]; [done|by rewrite Hf]. }
  unfold observe. cbn [identity_signer node_id]. rewrite Hl. eexists.
  split; [reflexivity|]. split; [by apply load_signed|]. done.
Qed.
End claims.

Definition pow_example : PowStamp :=
  default (mkStamp 0 0) (@mint_pow toy_crypto (le_bytes 32 42) 1 4 4096).

Definition ad_draft_example : CapabilityDraft :=
  mkAdDraft (str "127.0.0.1:4433") (4 * 2 ^ 30) 8 2 L1 10 None pow_example 90000 true
    [str "main"] [str "prod"] (Some (str "eu")).

Definition ad_example : CapabilityAd :=
  sign_capability_ad ad_draft_example (@identity_signer toy_crypto 42).

(** The same ad with an empty receipts root instead of an absent one: one
    signature covers both. *)
Definition ad_example_empty_root : CapabilityAd :=
  let a := ad_example in
  mkAd (ad_schema_version a) (ad_protocol_version a) (ad_node_id a) (ad_pubkey a) (ad_addr a)
    (ad_free_mem_bytes a) (ad_free_threads a) (ad_max_jobs a) (ad_attestation_level a)
    (ad_price a) (Some []) (ad_pow_nonce a) (ad_pow_bits a) (ad_ts a) (ad_enabled a)
    (ad_networks a) (ad_groups a) (ad_region a) (ad_sig a).

Lemma mint_pow_correct_witness :
  match @mint_pow toy_crypto (le_bytes 32 42) 1 4 4096 with
  | Some st => 0 <= nonce st < 4096
      /\ (forall r, r <= 4 -> @verify_pow toy_crypto (le_bytes 32 42) 1 st r = true)
      /\ (forall j, 0 <= j < nonce st ->
            @verify_pow toy_crypto (le_bytes 32 42) 1 (mkStamp j 4) 4 = false)
  | None => forall j, 0 <= j < 4096 -> @verify_pow toy_crypto (le_bytes 32 42) 1 (mkStamp j 4) 4 = false
  end.
Proof. apply (@mint_pow_correct toy_crypto). lia. Defined.

Lemma verify_pow_target_witness :
  @verify_pow toy_crypto (le_bytes 32 42) 1 pow_example 4 = true
  <-> 4 <= difficulty_bits pow_example
      /\ be_val (@pow_digest toy_crypto (le_bytes 32 42) 1 (nonce pow_example)) < 2 ^ (256 - 4).
Proof. apply (@verify_pow_target toy_crypto toy_laws). lia. Defined.

Lemma sign_capability_ad_verifies_witness :
  @verify_capability_ad toy_crypto ad_example 4 = true.
Proof.
  apply (@sign_capability_ad_verifies toy_crypto toy_laws ad_draft_example 42 4 4096 4);
    [vm_compute; reflexivity | lia | lia].
Defined.

Lemma capability_ad_binds_witness :
  ad_signed ad_example = ad_signed ad_example_empty_root
  /\ exists pk, ad_node_id ad_example_empty_root = @from_pubkey toy_crypto pk
       /\ be_val (@pow_digest toy_crypto pk (pow_epoch (ad_ts ad_example_empty_root))
            (ad_pow_nonce ad_example_empty_root)) < 2 ^ (256 - 4).
Proof.
  apply (@capability_ad_binds toy_crypto toy_laws);
    [decide_closed | decide_closed | lia | vm_compute; reflexivity..].
Defined.

Lemma observe_ratchet_witness :
  proven_of (default (base_profile (@from_pubkey toy_crypto (le_bytes 32 42)))
    (@load_verified toy_crypto
      (@observe_all toy_crypto None (@identity_signer toy_crypto 42)
        [(mkMeasured 10 5 3 9 0, 1); (mkMeasured 2 50 3 1 7, 2)])
      (@from_pubkey toy_crypto (le_bytes 32 42))))
  = mkProven 10 50 3 9 7 2.
Proof. apply (@observe_ratchet toy_crypto toy_laws). Defined.

Lemma observe_cold_start_witness :
  exists p, @observe toy_crypto None (@identity_signer toy_crypto 42) (mkMeasured 1 2 3 4 5) 9 None
      = (Some p, Some p)
    /\ @load_verified toy_crypto (Some p) (@from_pubkey toy_crypto (le_bytes 32 42)) = Some p
    /\ p_seq p = 1 /\ p_successes p = 1
    /\ proven_of p = prove nothing_proven (mkMeasured 1 2 3 4 5).
Proof. apply (@observe_cold_start toy_crypto toy_laws). exact I. Defined.
