(* ===== verification/Token.v ===== *)
(** * Capability tokens (crates/trust/src/token.rs)

    Delegation chains: minting, attenuation, verification, and the group and
    region proofs built on them.  [Chain] is the declarative reading of a valid
    chain; [verify] is shown to decide it. *)

From S2P Require Import Prelude Bytes Crypto Text Proto.

Definition DOMAIN : bytes := str "duckdb-p2p-capability-v1".

Inductive Caveat :=
| ExpiresAt (t : Z)
| Operation (op : bytes)
| ResourcePrefix (p : bytes)
| MaxRows (m : Z)
| Group (g : bytes)
| Region (r : bytes).
#[global] Instance Caveat_eq_dec : EqDecision Caveat.
Proof. solve_decision. Defined.

Record AuthContext := mkCtx {
  now : Z;
  operation : bytes;
  resource : bytes;
  rows : Z;
  group : option bytes;
  region : option bytes;
}.

Definition satisfied_by (c : Caveat) (ctx : AuthContext) : bool :=
  match c with
  | ExpiresAt t => now ctx <=? t
  | Operation op => bool_decide (operation ctx = op)
  | ResourcePrefix p => starts_with p (resource ctx)
  | MaxRows m => rows ctx <=? m
  | Group g => bool_decide (group ctx = Some g)
  | Region r => bool_decide (region ctx = Some r)
  end.

Record Layer := mkLayer {
  holder_pubkey : bytes;
  caveats : list Caveat;
  signer_pubkey : bytes;
  sig : bytes;
}.

Record CapabilityToken := mkToken { layers : list Layer }.

Inductive TokenError :=
| Empty | IssuerMismatch | BrokenChain (i : nat) | BadSignature (i : nat) | Encoding
| CaveatFailed | NotHolder | MissingExpiry.

(** One TLV entry of [encode_caveats]. *)
Definition encode_caveat (c : Caveat) : bytes :=
  match c with
  | ExpiresAt t => Byte.x01 :: le64 t
  | Operation op => Byte.x02 :: field op
  | ResourcePrefix p => Byte.x03 :: field p
  | MaxRows m => Byte.x04 :: le64 m
  | Group g => Byte.x05 :: field g
  | Region r => Byte.x06 :: field r
  end.

Definition encode_caveats (cs : list Caveat) : bytes :=
  le64 (Z.of_nat (length cs)) ++ mjoin (encode_caveat <$> cs).

Definition layer_bytes (index : nat) (holder : bytes) (cs : list Caveat) (prev_sig : bytes) : bytes :=
  let cav := encode_caveats cs in
  DOMAIN ++ le64 (Z.of_nat index) ++ holder
  ++ le64 (Z.of_nat (length cav)) ++ cav ++ le64 (Z.of_nat (length prev_sig)) ++ prev_sig.

Definition decode_key (s : bytes) : result bytes TokenError := ok_or (hex_array 32 s) Encoding.
Definition decode_sig (s : bytes) : result bytes TokenError := ok_or (hex_array 64 s) Encoding.

Section token.
Context {C : Crypto}.
Open Scope duckton_scope.

Definition mint (issuer : seckey) (holder : bytes) (cs : list Caveat) : CapabilityToken :=
  mkToken [mkLayer (hex_encode holder) cs (hex_encode (ed_public issuer))
             (hex_encode (ed_sign issuer (layer_bytes 0 holder cs [])))].

Definition holder (t : CapabilityToken) : result bytes TokenError :=
  last_layer <-? ok_or (last (layers t)) Empty ;;
  decode_key (holder_pubkey last_layer).

Definition attenuate (t : CapabilityToken) (holder_key : seckey) (delegate : bytes)
    (added : list Caveat) : result CapabilityToken TokenError :=
  current_holder <-? holder t ;;
  guard bool_decide (ed_public holder_key = current_holder) else NotHolder ;;
  last_layer <-? ok_or (last (layers t)) Empty ;;
  prev_sig <-? decode_sig (sig last_layer) ;;
  let index := length (layers t) in
  let msg := layer_bytes index delegate added prev_sig in
  Ok (mkToken (layers t ++
    [mkLayer (hex_encode delegate) added (hex_encode current_holder)
       (hex_encode (ed_sign holder_key msg))])).

Definition is_expiry (c : Caveat) : bool := match c with ExpiresAt _ => true | _ => false end.

(** The caveat loop of one layer: [saw_expiry] afterwards, or the failure. *)
Fixpoint check_caveats (cs : list Caveat) (ctx : AuthContext) (saw_expiry : bool)
  : result bool TokenError :=
  match cs with
  | [] => Ok saw_expiry
  | cav :: cs' =>
      let saw_expiry := is_expiry cav || saw_expiry in
      if negb (satisfied_by cav ctx) then Err CaveatFailed
      else check_caveats cs' ctx saw_expiry
  end.

(** The layer loop of [verify], at index [i]; returns [saw_expiry]. *)
Fixpoint verify_layers (issuer : bytes) (ctx : AuthContext) (i : nat) (ls : list Layer)
    (prev_sig expected_signer : bytes) (saw_expiry : bool) : result bool TokenError :=
  match ls with
  | [] => Ok saw_expiry
  | l :: ls' =>
      signer <-? decode_key (signer_pubkey l) ;;
      _u <-? (if (i =? 0)%nat
              then guard bool_decide (signer = issuer) else IssuerMismatch ;; Ok tt
              else guard bool_decide (signer = expected_signer) else BrokenChain i ;; Ok tt) ;;
      hold <-? decode_key (holder_pubkey l) ;;
      s <-? decode_sig (sig l) ;;
      guard vk_from_bytes signer else Encoding ;;
      guard verify_strict signer (layer_bytes i hold (caveats l) prev_sig) s
        else BadSignature i ;;
      saw <-? check_caveats (caveats l) ctx saw_expiry ;;
      verify_layers issuer ctx (S i) ls' s hold saw
  end.

Definition verify (t : CapabilityToken) (trusted_issuer : bytes) (ctx : AuthContext)
  : result bytes TokenError :=
  match layers t with
  | [] => Err Empty
  | _ :: _ =>
      saw_expiry <-? verify_layers trusted_issuer ctx 0 (layers t) [] trusted_issuer false ;;
      guard saw_expiry else MissingExpiry ;;
      holder t
  end.

Definition authorizes_group (t : CapabilityToken) (g : bytes) : bool :=
  existsb (fun c => match c with Group g' => bool_decide (g' = g) | _ => false end)
    (layers t ≫= caveats).

Definition authorizes_region (t : CapabilityToken) (r : bytes) : bool :=
  existsb (fun c => match c with Region r' => bool_decide (r' = r) | _ => false end)
    (layers t ≫= caveats).

Definition verify_group_membership (t : CapabilityToken) (issuer : bytes) (g : bytes) (at_ : Z)
  : result bytes TokenError :=
  guard authorizes_group t g else CaveatFailed ;;
  verify t issuer (mkCtx at_ [] [] 0 (Some g) None).

Definition verify_region_attestation (t : CapabilityToken) (issuer : bytes) (r : bytes) (at_ : Z)
  : result bytes TokenError :=
  guard authorizes_region t r else CaveatFailed ;;
  verify t issuer (mkCtx at_ [] [] 0 None (Some r)).

(** ** The declarative reading of a chain

    [Chain i prev signer ls h]: layer [i] is signed by [signer] over its own
    position, holder and caveats and the previous signature [prev]; its holder
    signs the next one; the last holder is [h]. *)
Inductive Chain : nat -> bytes -> bytes -> list Layer -> bytes -> Prop :=
| Chain_nil i prev signer : Chain i prev signer [] signer
| Chain_cons i prev signer l ls hold s h :
    hex_array 32 (signer_pubkey l) = Some signer ->
    hex_array 32 (holder_pubkey l) = Some hold ->
    hex_array 64 (sig l) = Some s ->
    vk_from_bytes signer = true ->
    verify_strict signer (layer_bytes i hold (caveats l) prev) s = true ->
    Chain (S i) s hold ls h ->
    Chain i prev signer (l :: ls) h.
End token.

Definition all_caveats (t : CapabilityToken) : list Caveat := layers t ≫= caveats.

Definition satisfies_all (cs : list Caveat) (ctx : AuthContext) : Prop :=
  Forall (fun c => satisfied_by c ctx = true) cs.

Lemma check_caveats_ok cs ctx b b' :
  check_caveats cs ctx b = Ok b' <-> satisfies_all cs ctx /\ b' = b || existsb is_expiry cs.
Proof.
  unfold satisfies_all. revert b; induction cs as [|c cs IH]; intros b; cbn [check_caveats existsb].
  { rewrite orb_false_r. split; [intros [= <-]; done|intros [_ ->]; done]. }
  rewrite Forall_cons. destruct (satisfied_by c ctx); cbn [negb]; [|naive_solver].
  rewrite IH. destruct (is_expiry c), b; simpl; naive_solver.
Qed.

(** ** Signed bytes determine the layer *)

Definition Caveat_wf (c : Caveat) : Prop :=
  match c with
  | ExpiresAt t => in_u 64 t
  | MaxRows m => in_u 64 m
  | Operation b | ResourcePrefix b | Group b | Region b => fits b
  end.

#[global] Instance Caveat_wf_dec c : Decision (Caveat_wf c).
Proof. destruct c; apply _. Defined.

#[export] Instance caveat_codec : Codec Caveat_wf encode_caveat.
Proof.
  intros a b s t Ha Hb H. destruct a, b; cbn [encode_caveat Caveat_wf app] in *;
    apply cons_inj_pair in H as [E H]; try discriminate E;
    first [ apply (codec_peel fits field) in H as [-> ->]; [done|done|done]
          | apply (codec_peel _ (le_bytes 8)) in H as [-> ->]; [done|solve_range|solve_range] ].
Qed.

Lemma encode_caveats_inj l k :
  Z.of_nat (length l) < 2 ^ 63 -> Z.of_nat (length k) < 2 ^ 63 ->
  Forall Caveat_wf l -> Forall Caveat_wf k -> encode_caveats l = encode_caveats k -> l = k.
Proof.
  intros Hl Hk Wl Wk H. unfold encode_caveats in H.
  apply (codec_peel _ (le_bytes 8)) in H as [E H]; [|by apply len64_range..].
  apply Nat2Z.inj in E. by apply (codec_list_inj Caveat_wf encode_caveat) in H.
Qed.

(** A layer the encoding is faithful on. *)
Definition Signed_wf (i : nat) (h : bytes) (cs : list Caveat) (prev : bytes) : Prop :=
  Z.of_nat i < 2 ^ 63 /\ length h = 32%nat /\ Forall Caveat_wf cs
  /\ Z.of_nat (length cs) < 2 ^ 63 /\ fits (encode_caveats cs) /\ fits prev.

#[global] Instance Signed_wf_dec i h cs prev : Decision (Signed_wf i h cs prev).
Proof. unfold Signed_wf. apply _. Defined.

Lemma layer_bytes_inj i h cs p j h' cs' p' :
  Signed_wf i h cs p -> Signed_wf j h' cs' p' ->
  layer_bytes i h cs p = layer_bytes j h' cs' p' -> i = j /\ h = h' /\ cs = cs' /\ p = p'.
Proof.
  intros W1 W2 H. unfold Signed_wf in *. destruct_and!. unfold layer_bytes in H.
  apply app_inv_head in H.
  peel_le 8%nat H by (by apply len64_range).
  peel_raw 32%nat H by done.
  rewrite !app_assoc in H. rewrite <- !(app_assoc (_ ++ _)) in H.
  apply (codec_peel fits field) in H as [Hc H]; [|done..].
  apply (field_inj p p') in H; [|done..].
  apply encode_caveats_inj in Hc; [|done..]. repeat split; auto; lia.
Qed.

Section claims.
Context {C : Crypto} {CL : CryptoLaws C}.

Lemma verify_layers_ok issuer ctx i ls prev signer saw b :
  (i = 0%nat -> signer = issuer) ->
  verify_layers issuer ctx i ls prev signer saw = Ok b <->
  (exists h, Chain i prev signer ls h) /\ satisfies_all (ls ≫= caveats) ctx
  /\ b = saw || existsb is_expiry (ls ≫= caveats).
Proof using Type.
  revert i prev signer saw. induction ls as [|l ls IH]; intros i prev signer saw Hi.
  { simpl. rewrite orb_false_r. unfold satisfies_all. split.
    - intros [= <-]. split_and!; [eexists; constructor|constructor|done].
    - intros (_ & _ & ->). done. }
  cbn [verify_layers mbind list_bind]. rewrite existsb_app. unfold satisfies_all.
  rewrite Forall_app. fold (satisfies_all (caveats l) ctx) (satisfies_all (ls ≫= caveats) ctx).
  split.
  - intros H. apply res_bind_ok in H as (sg & Hs%ok_or_ok & H).
    apply res_bind_ok in H as ([] & Hg & H).
    assert (sg = signer) as ->.
    { destruct (Nat.eqb_spec i 0) as [E|E]; case_bool_decide; try done. rewrite Hi; done. }
    apply res_bind_ok in H as (hold & Hh%ok_or_ok & H).
    apply res_bind_ok in H as (s & Hsig%ok_or_ok & H).
    destruct (vk_from_bytes signer) eqn:Hv; [|done].
    destruct (verify_strict _ _ _) eqn:Hst; [|done].
    apply res_bind_ok in H as (saw' & [Hc ->]%check_caveats_ok & H).
    apply IH in H as ([h Hch] & Hall & ->); [|done].
    split_and!; [|done|done|by rewrite orb_assoc]. exists h. by econstructor.
  - intros ([h Hch] & [Hc Hall] & ->). inv Hch.
    unfold decode_key, decode_sig.
    repeat match goal with E : hex_array _ _ = Some _ |- _ => rewrite E; clear E end.
    cbn [ok_or res_bind].
    assert ((if (i =? 0)%nat then (if bool_decide (signer = issuer) then Ok tt else Err IssuerMismatch)
      else (if bool_decide (signer = signer) then Ok tt else Err (BrokenChain i))) = Ok tt) as ->.
    { rewrite (bool_decide_eq_true_2 (signer = signer)) by done.
      destruct (Nat.eqb_spec i 0) as [->|]; [|done]. by rewrite bool_decide_eq_true_2 by auto. }
    cbn [res_bind].
    repeat match goal with E : ?x = true |- context [if ?x then _ else _] => rewrite E end.
    rewrite (proj2 (check_caveats_ok _ _ _ _) (conj Hc eq_refl)). cbn [res_bind].
    apply IH; [done|]. split_and!; [eauto|done|by rewrite orb_assoc].
Qed.

Lemma Chain_holder i prev signer ls h :
  ls <> [] -> Chain i prev signer ls h -> holder (mkToken ls) = Ok h.
Proof using Type.
  intros Hne H. induction H as [|i prev signer l ls hold s h ? Hh ? ? ? Hch IH]; [done|].
  destruct ls as [|l' ls'].
  - inv Hch. unfold holder, decode_key. simpl. by rewrite Hh.
  - unfold holder in *. cbn [layers] in *. rewrite last_cons_cons. auto.
Qed.

Lemma Chain_det i prev signer ls h h' : Chain i prev signer ls h -> Chain i prev signer ls h' -> h = h'.
Proof using Type. intros H. revert h'. induction H; intros h' H'; inv H'; naive_solver. Qed.

Lemma verify_ok_spec t issuer ctx h :
  verify t issuer ctx = Ok h <->
  layers t <> [] /\ Chain 0 [] issuer (layers t) h /\ satisfies_all (all_caveats t) ctx
  /\ existsb is_expiry (all_caveats t) = true.
Proof using Type.
  unfold verify, all_caveats. destruct t as [[|l ls]]; cbn [layers]; [naive_solver|]. split.
  - intros H. apply res_bind_ok in H as (saw & Hv & H).
    apply verify_layers_ok in Hv as ([h' Hch] & Hall & ->); [|done].
    rewrite orb_false_l in H. destruct (existsb _ _) eqn:E; [|done].
    rewrite (Chain_holder 0 [] issuer _ h') in H by done. injection H as <-. done.
  - intros (_ & Hch & Hall & He). apply res_bind_ok. exists true. split.
    + apply verify_layers_ok; [done|]. rewrite He. eauto.
    + by apply (Chain_holder 0 [] issuer).
Qed.

Lemma attenuate_layers t k d cs t' :
  attenuate t k d cs = Ok t' -> exists l, layers t' = layers t ++ [l] /\ caveats l = cs.
Proof using Type.
  unfold attenuate. intros H. apply res_bind_ok in H as (ch & _ & H).
  case_bool_decide; [|done]. apply res_bind_ok in H as (ll & _ & H).
  apply res_bind_ok in H as (ps & _ & [= <-]). eexists. done.
Qed.

Lemma Chain_last_sig i prev signer ls h :
  ls <> [] -> Chain i prev signer ls h ->
  exists lst p, last ls = Some lst /\ hex_array 64 (sig lst) = Some p.
Proof using Type.
  intros Hne H. induction H as [|i prev signer l ls hold s h ? ? Hs ? ? Hch IH]; [done|].
  destruct ls as [|l1 ls']; [|rewrite last_cons_cons; auto].
  exists l, s. done.
Qed.

Lemma Chain_snoc i prev signer ls h l hold s :
  ls <> [] -> Chain i prev signer ls h ->
  (exists lst p, last ls = Some lst /\ hex_array 64 (sig lst) = Some p
     /\ hex_array 32 (signer_pubkey l) = Some h /\ hex_array 32 (holder_pubkey l) = Some hold
     /\ hex_array 64 (sig l) = Some s /\ vk_from_bytes h = true
     /\ verify_strict h (layer_bytes (i + length ls) hold (caveats l) p) s = true) ->
  Chain i prev signer (ls ++ [l]) hold.
Proof using Type.
  intros Hne H (lst & p & Hl & Hp & H1 & H2 & H3 & H4 & H5).
  induction H as [|i prev signer l0 ls hold0 s0 h ? ? Hs0 ? ? Hch IH]; [done|].
  cbn [app]. eapply Chain_cons; [done..|].
  destruct ls as [|l1 ls'].
  - inv Hch. simpl in Hl. injection Hl as <-. rewrite Hs0 in Hp. injection Hp as ->.
    simpl in H5. replace (i + 1)%nat with (S i) in H5 by lia. econstructor; [done..|constructor].
  - rewrite last_cons_cons in Hl. apply IH; [done..|].
    replace (S i + length (l1 :: ls'))%nat with (i + length (l0 :: l1 :: ls'))%nat by (simpl; lia).
    done.
Qed.


(** C6: [verify] decides exactly the declared meaning of a token: a non-empty
    delegation chain from the trusted issuer in which every layer is signed by the
    previous holder over its position, holder, caveats and the previous signature,
    with at least one expiry, and every caveat of every layer satisfied. *)
Theorem verify_decides_chain (t : CapabilityToken) (issuer : bytes) (ctx : AuthContext) (h : bytes) :
  verify t issuer ctx = Ok h <->
  layers t <> [] /\ Chain 0 [] issuer (layers t) h /\ satisfies_all (all_caveats t) ctx
  /\ exists e, ExpiresAt e ∈ all_caveats t.
Proof using Type.
  rewrite verify_ok_spec. repeat apply and_iff_compat_l. rewrite existsb_exists. split.
  - intros (c & Hin & Hc). destruct c; try done. eexists. by apply list_elem_of_In.
  - intros (e & Hin). exists (ExpiresAt e). split; [by apply list_elem_of_In|done].
Qed.

Lemma mint_verify (k : seckey) (hold : bytes) (cs : list Caveat) (ctx : AuthContext) :
  length hold = 32%nat ->
  verify (mint k hold cs) (ed_public k) ctx = Ok hold
  <-> satisfies_all cs ctx /\ existsb is_expiry cs = true.
Proof using CL.
  intros Hl. rewrite verify_ok_spec. unfold mint, all_caveats. cbn [layers mbind list_bind].
  cbn [caveats]. rewrite app_nil_r. split; [by intros (_ & _ & ?)|]. intros [? ?].
  split_and!; [done| |done|done]. econstructor.
  - apply hex_public.
  - by apply hex_array_encode.
  - apply hex_signature.
  - apply vk_public.
  - apply verify_sign.
  - constructor.
Qed.

(** A freshly minted token verifies for exactly the contexts its caveats
    allow, provided they include an expiry, and authorizes the named holder. *)
Theorem mint_verifies (k : seckey) (hold : bytes) (cs : list Caveat) (ctx : AuthContext) :
  length hold = 32%nat ->
  verify (mint k hold cs) (ed_public k) ctx = Ok hold
  <-> satisfies_all cs ctx /\ existsb is_expiry cs = true.
Proof using CL. apply mint_verify. Qed.

Lemma attenuate_verify (t : CapabilityToken) (issuer : bytes) (k : seckey) (delegate : bytes)
    (added : list Caveat) (ctx ctx' : AuthContext) :
  length delegate = 32%nat -> verify t issuer ctx = Ok (ed_public k) ->
  exists t', attenuate t k delegate added = Ok t'
    /\ (verify t' issuer ctx' = Ok delegate
        <-> satisfies_all (all_caveats t) ctx' /\ satisfies_all added ctx').
Proof using CL.
  intros Hd Hv. apply verify_ok_spec in Hv as (Hne & Hch & _ & He).
  destruct t as [ls]; cbn [layers] in *.
  pose proof (Chain_holder _ _ _ _ _ Hne Hch) as Hh.
  assert (exists lst p, last ls = Some lst /\ hex_array 64 (sig lst) = Some p) as (lst & p & Hlast & Hp).
  { by eapply Chain_last_sig. }
  unfold attenuate. rewrite Hh. cbn [res_bind layers]. rewrite bool_decide_eq_true_2 by done.
  rewrite Hlast. cbn [ok_or res_bind]. unfold decode_sig. rewrite Hp. cbn [ok_or res_bind].
  eexists. split; [reflexivity|]. rewrite verify_ok_spec. unfold all_caveats in *. cbn [layers] in *.
  rewrite bind_app, existsb_app. unfold satisfies_all. rewrite Forall_app.
  cbn [mbind list_bind caveats]. rewrite app_nil_r.
  split; [by intros (_ & _ & ? & _)|]. intros Hs. split_and!.
  - by destruct ls.
  - eapply (Chain_snoc _ _ _ _ (ed_public k)); [done|done|]. exists lst, p.
    cbn [signer_pubkey holder_pubkey sig caveats]. split_and!; try done.
    + apply hex_public.
    + by apply hex_array_encode.
    + apply hex_signature.
    + apply vk_public.
    + apply verify_sign.
  - apply Hs.
  - apply Hs.
  - by rewrite He.
Qed.

(** The holder of a verified token can delegate it, and the delegated token
    verifies for exactly the contexts that also satisfy the added caveats. *)
Theorem attenuate_verifies (t : CapabilityToken) (issuer : bytes) (k : seckey) (delegate : bytes)
    (added : list Caveat) (ctx ctx' : AuthContext) :
  length delegate = 32%nat -> verify t issuer ctx = Ok (ed_public k) ->
  exists t', attenuate t k delegate added = Ok t'
    /\ (verify t' issuer ctx' = Ok delegate
        <-> satisfies_all (all_caveats t) ctx' /\ satisfies_all added ctx').
Proof using CL. apply attenuate_verify. Qed.


(** A layer's signed bytes determine its position, holder, caveats and the
    signature it extends, so a signature made for one layer of one chain is not
    a signature for any other: layers cannot be reordered or spliced. *)
Theorem layer_signature_binds (i j : nat) (h h' : bytes) (cs cs' : list Caveat) (p p' : bytes) :
  Signed_wf i h cs p -> Signed_wf j h' cs' p' ->
  layer_bytes i h cs p = layer_bytes j h' cs' p' -> i = j /\ h = h' /\ cs = cs' /\ p = p'.
Proof using Type. apply layer_bytes_inj. Qed.

(** An accepted group proof carries the group, names no other group, no
    region and no operation, has an expiry and is not expired. *)
Theorem group_proof_sound (t : CapabilityToken) (issuer g : bytes) (at_ : Z) (h : bytes) :
  verify_group_membership t issuer g at_ = Ok h ->
  Chain 0 [] issuer (layers t) h /\ Group g ∈ all_caveats t
  /\ (exists e, ExpiresAt e ∈ all_caveats t)
  /\ forall c, c ∈ all_caveats t ->
       match c with
       | ExpiresAt e => at_ <= e
       | Group g' => g' = g
       | Region _ => False
       | Operation b => b = []
       | _ => True
       end.
Proof using Type.
  unfold verify_group_membership. destruct (authorizes_group t g) eqn:Ha; [|done].
  intros Hv. apply verify_ok_spec in Hv as (_ & Hch & Hs & He). split; [done|]. split_and!.
  - apply existsb_exists in Ha as (c & Hin & Hc). destruct c; try done. bool_to_prop. subst.
    by apply list_elem_of_In.
  - apply existsb_exists in He as (c & Hin & Hc). destruct c; try done. eexists.
    by apply list_elem_of_In.
  - intros c Hin. unfold satisfies_all in Hs. rewrite Forall_forall in Hs. specialize (Hs c Hin).
    destruct c; cbn [satisfied_by now group region operation] in Hs; bool_to_prop; try done; congruence.
Qed.

(** A group proof need not come from an issuer that named the group: the
    holder of any verified root token whose caveats allow it (an expiry and
    nothing else, say) can add a caveat for a group of its choice and delegate to
    itself, and the result is accepted as a membership proof for that group. *)
Theorem group_self_grant (issuer k : seckey) (cs : list Caveat) (g : bytes) (at_ : Z) :
  satisfies_all cs (mkCtx at_ [] [] 0 (Some g) None) -> existsb is_expiry cs = true ->
  exists t', attenuate (mint issuer (ed_public k) cs) k (ed_public k) [Group g] = Ok t'
    /\ verify_group_membership t' (ed_public issuer) g at_ = Ok (ed_public k).
Proof using CL.
  intros Hs He. set (ctx := mkCtx at_ [] [] 0 (Some g) None) in *.
  destruct (attenuate_verify (mint issuer (ed_public k) cs) (ed_public issuer) k (ed_public k)
    [Group g] ctx ctx) as (t' & Ha & Hv).
  { apply ed_public_len. }
  { apply mint_verify; [apply ed_public_len|done]. }
  exists t'. split; [done|]. unfold verify_group_membership.
  assert (authorizes_group t' g = true) as ->.
  { apply attenuate_layers in Ha as (l & Hl & Hc). unfold authorizes_group.
    rewrite Hl, bind_app, existsb_app. cbn [mbind list_bind]. rewrite Hc. simpl.
    rewrite bool_decide_eq_true_2 by done. apply orb_true_r. }
  apply Hv. split.
  - unfold all_caveats, mint. cbn [layers mbind list_bind caveats]. by rewrite app_nil_r.
  - repeat constructor. by apply bool_decide_eq_true_2.
Qed.
End claims.

(** A token minted by key 7 for key 8 (an expiry and a row limit), then delegated
    to key 9 with an operation caveat. *)
Definition root_example : CapabilityToken :=
  @mint toy_crypto 7 (le_bytes 32 8) [ExpiresAt 1000; MaxRows 50].
Definition ctx_example : AuthContext := mkCtx 900 (str "query") [] 10 None None.

Lemma mint_verifies_witness :
  @verify toy_crypto root_example (le_bytes 32 7) ctx_example = Ok (le_bytes 32 8)
  <-> satisfies_all [ExpiresAt 1000; MaxRows 50] ctx_example
      /\ existsb is_expiry [ExpiresAt 1000; MaxRows 50] = true.
Proof. apply (@mint_verifies toy_crypto toy_laws). reflexivity. Defined.

Lemma attenuate_verifies_witness :
  exists t', @attenuate toy_crypto root_example 8 (le_bytes 32 9) [Operation (str "query")] = Ok t'
    /\ (@verify toy_crypto t' (le_bytes 32 7) ctx_example = Ok (le_bytes 32 9)
        <-> satisfies_all (all_caveats root_example) ctx_example
            /\ satisfies_all [Operation (str "query")] ctx_example).
Proof.
  apply (@attenuate_verifies toy_crypto toy_laws root_example (le_bytes 32 7) 8 (le_bytes 32 9)
    [Operation (str "query")] ctx_example ctx_example); [reflexivity|vm_compute; reflexivity].
Defined.


Lemma layer_signature_binds_witness :
  1%nat = 1%nat /\ le_bytes 32 9 = le_bytes 32 9
  /\ [Operation (str "query")] = [Operation (str "query")] /\ le_bytes 64 5 = le_bytes 64 5.
Proof.
  apply (layer_signature_binds 1 1 (le_bytes 32 9) (le_bytes 32 9) [Operation (str "query")]
    [Operation (str "query")] (le_bytes 64 5) (le_bytes 64 5));
    [decide_closed|decide_closed|reflexivity].
Defined.

Definition group_example : CapabilityToken :=
  @mint toy_crypto 7 (le_bytes 32 8) [ExpiresAt 1000; Group (str "prod")].

Lemma group_proof_sound_witness :
  @Chain toy_crypto 0 [] (le_bytes 32 7) (layers group_example) (le_bytes 32 8)
  /\ Group (str "prod") ∈ all_caveats group_example
  /\ (exists e, ExpiresAt e ∈ all_caveats group_example)
  /\ forall c, c ∈ all_caveats group_example ->
       match c with
       | ExpiresAt e => 900 <= e
       | Group g' => g' = str "prod"
       | Region _ => False
       | Operation b => b = []
       | _ => True
       end.
Proof.
  apply (@group_proof_sound toy_crypto group_example (le_bytes 32 7) (str "prod") 900 (le_bytes 32 8)).
  vm_compute. reflexivity.
Defined.

Lemma group_self_grant_witness :
  exists t', @attenuate toy_crypto root_example 8 (le_bytes 32 8) [Group (str "prod")] = Ok t'
    /\ @verify_group_membership toy_crypto t' (le_bytes 32 7) (str "prod") 900
       = Ok (le_bytes 32 8).
Proof.
  apply (@group_self_grant toy_crypto toy_laws 7 8 [ExpiresAt 1000; MaxRows 50] (str "prod") 900);
    [decide_closed|reflexivity].
Defined.
