(* ===== verification/Governor.v ===== *)
(** * Resource accounting under concurrency
    (crates/node/src/governor.rs, admission.rs, planner.rs [LocalExecutor])

    Three pools of atomic counters and semaphores are reserved from by tasks
    that run concurrently: the process-wide governor, the worker's admission
    controller and the requester's local executor.  An operation of the code
    ([try_reserve], [try_admit], [reserve]) is written as the list of its atomic
    reservations, each with the [fetch_sub]s and permit drops the code performs
    when that reservation is refused; dropping a lease is the list of its
    [fetch_sub]s in drop order.  A step of the system is one atomic operation of
    one task.  A relaxed load, or the value a failed [compare_exchange_weak]
    reports, may be any value: nothing is assumed about how stale it is. *)

From S2P Require Import Prelude.

Inductive Role := Local | Served.

(** The shared cells; for a semaphore the number of permits in use. *)
Inductive cell :=
| GovSlot | GovMem | GovServed | GovThr
| AdmSlot | AdmMem | AdmThr
| LocSlot | LocMem.
#[global] Instance cell_eq_dec : EqDecision cell.
Proof. solve_decision. Defined.

(** The limits of the three pools. *)
Record Pools := mkPools {
  memory_total : Z; threads_total : Z; served_memory_ceiling : Z; max_jobs : Z;
  adm_memory_bytes : Z; adm_threads : Z; adm_max_jobs : Z;
  local_budget_bytes : Z; local_max_jobs : Z; job_threads : Z; min_reservation_bytes : Z;
}.

Definition cap (P : Pools) (c : cell) : Z :=
  match c with
  | GovSlot => max_jobs P | GovMem => memory_total P | GovServed => served_memory_ceiling P
  | GovThr => threads_total P
  | AdmSlot => adm_max_jobs P | AdmMem => adm_memory_bytes P | AdmThr => adm_threads P
  | LocSlot => local_max_jobs P | LocMem => local_budget_bytes P
  end.

(** Width of the atomic: [AtomicU32] for threads, 64 bits elsewhere. *)
Definition width (c : cell) : Z := match c with GovThr | AdmThr => 32 | _ => 64 end.

Abbreviation amounts := (list (cell * Z)).

(** One reservation of an operation, with what is undone when it is refused. *)
Inductive instr :=
| TryAcquire (c : cell) (undo : amounts)
| CasAdd (c : cell) (a : Z) (undo : amounts).

Definition target (i : instr) : cell := match i with TryAcquire c _ => c | CasAdd c _ _ => c end.
Definition amount (i : instr) : Z := match i with TryAcquire _ _ => 1 | CasAdd _ a _ => a end.
Definition undo (i : instr) : amounts := match i with TryAcquire _ u => u | CasAdd _ _ u => u end.

(** [rollback_memory] *)
Definition rollback_memory (role : Role) (memory : Z) : amounts :=
  (GovMem, memory) :: match role with Served => [(GovServed, memory)] | Local => [] end.

(** [CapacityGovernor::try_reserve] *)
Definition try_reserve (role : Role) (memory threads : Z) : list instr :=
  [TryAcquire GovSlot []; CasAdd GovMem memory [(GovSlot, 1)]]
  ++ match role with
     | Served => [CasAdd GovServed memory [(GovMem, memory); (GovSlot, 1)]]
     | Local => []
     end
  ++ [CasAdd GovThr threads (rollback_memory role memory ++ [(GovSlot, 1)])].

(** [Drop for GovernorLease], then the permit field. *)
Definition drop_governor_lease (role : Role) (memory threads : Z) : amounts :=
  rollback_memory role memory ++ [(GovThr, threads); (GovSlot, 1)].

(** A nested operation: when it is refused, [outer] is undone after its own. *)
Definition on_refusal (outer : amounts) (p : list instr) : list instr :=
  (fun i => match i with
            | TryAcquire c u => TryAcquire c (u ++ outer)
            | CasAdd c a u => CasAdd c a (u ++ outer)
            end) <$> p.

(** [AdmissionController::try_admit]; [governed]: [self.governor] is set. *)
Definition try_admit (governed : bool) (memory threads : Z) : list instr :=
  [TryAcquire AdmSlot []; CasAdd AdmMem memory [(AdmSlot, 1)];
   CasAdd AdmThr threads [(AdmMem, memory); (AdmSlot, 1)]]
  ++ if governed
     then on_refusal [(AdmMem, memory); (AdmThr, threads); (AdmSlot, 1)]
            (try_reserve Served memory threads)
     else [].

(** [Drop for Lease], then its fields in declaration order. *)
Definition drop_lease (governed : bool) (memory threads : Z) : amounts :=
  [(AdmMem, memory); (AdmThr, threads); (AdmSlot, 1)]
  ++ if governed then drop_governor_lease Served memory threads else [].

(** [LocalExecutor::reserve] *)
Definition reserve (P : Pools) (governed : bool) (reserve_bytes : Z) : list instr :=
  let b := Z.max reserve_bytes (min_reservation_bytes P) in
  [TryAcquire LocSlot []; CasAdd LocMem b [(LocSlot, 1)]]
  ++ if governed
     then on_refusal [(LocMem, b); (LocSlot, 1)] (try_reserve Local b (job_threads P))
     else [].

(** [Drop for LocalReservation], then its fields in declaration order. *)
Definition drop_reservation (P : Pools) (governed : bool) (reserve_bytes : Z) : amounts :=
  let b := Z.max reserve_bytes (min_reservation_bytes P) in
  [(LocMem, b); (LocSlot, 1)]
  ++ if governed then drop_governor_lease Local b (job_threads P) else [].

(** The operations a task can be running. *)
Inductive call :=
| CallReserve (role : Role) (memory threads : Z)
| CallAdmit (governed : bool) (memory threads : Z)
| CallLocal (governed : bool) (bytes : Z).

Definition program (P : Pools) (k : call) : list instr :=
  match k with
  | CallReserve r m t => try_reserve r m t
  | CallAdmit g m t => try_admit g m t
  | CallLocal g b => reserve P g b
  end.

Definition release (P : Pools) (k : call) : amounts :=
  match k with
  | CallReserve r m t => drop_governor_lease r m t
  | CallAdmit g m t => drop_lease g m t
  | CallLocal g b => drop_reservation P g b
  end.

(** ** The step relation *)

Definition counters := cell -> Z.
Definition set_cell (s : counters) (c : cell) (v : Z) : counters :=
  fun d => if decide (d = c) then v else s d.

(** Where a task is.  [held] records what it has reserved so far. *)
Inductive pc :=
| Ready (held : amounts) (p : list instr)
| Loaded (held : amounts) (cur : Z) (p : list instr)
| Leased
| Unwinding (l : amounts)
| Returned.

Record task := mkTask { t_call : call; t_pc : pc }.

Inductive task_step (P : Pools) (k : call) : counters -> pc -> counters -> pc -> Prop :=
| st_acquire s h c u p : s c + 1 <= cap P c ->
    task_step P k s (Ready h (TryAcquire c u :: p)) (set_cell s c (s c + 1)) (Ready (h ++ [(c, 1)]) p)
| st_no_permit s h c u p : cap P c < s c + 1 ->
    task_step P k s (Ready h (TryAcquire c u :: p)) s (Unwinding u)
| st_load s h c a u p cur :
    task_step P k s (Ready h (CasAdd c a u :: p)) s (Loaded h cur (CasAdd c a u :: p))
| st_refuse s h c a u p cur : Z.min (umax (width c)) (cap P c) < cur + a ->
    task_step P k s (Loaded h cur (CasAdd c a u :: p)) s (Unwinding u)
| st_exchange s h c a u p : s c + a <= Z.min (umax (width c)) (cap P c) ->
    task_step P k s (Loaded h (s c) (CasAdd c a u :: p)) (set_cell s c (s c + a))
      (Ready (h ++ [(c, a)]) p)
| st_retry s h c a u p cur observed : cur + a <= Z.min (umax (width c)) (cap P c) ->
    task_step P k s (Loaded h cur (CasAdd c a u :: p)) s (Loaded h observed (CasAdd c a u :: p))
| st_granted s h : task_step P k s (Ready h []) s Leased
| st_drop s : task_step P k s Leased s (Unwinding (release P k))
| st_sub s c a l :
    task_step P k s (Unwinding ((c, a) :: l)) (set_cell s c (wrap (width c) (s c - a))) (Unwinding l)
| st_return s : task_step P k s (Unwinding []) s Returned.

Record system := mkSys { cells : counters; tasks : list task }.

Definition call_wf (P : Pools) (k : call) : Prop :=
  match k with
  | CallReserve _ m t | CallAdmit _ m t => in_u 64 m /\ in_u 32 t
  | CallLocal _ b => in_u 64 b
  end.

#[global] Instance call_wf_dec P k : Decision (call_wf P k).
Proof. destruct k; apply _. Defined.

Inductive sys_step (P : Pools) : system -> system -> Prop :=
| sys_call s ts k : call_wf P k ->
    sys_step P (mkSys s ts) (mkSys s (ts ++ [mkTask k (Ready [] (program P k))]))
| sys_task s ts i k p s' p' :
    ts !! i = Some (mkTask k p) -> task_step P k s p s' p' ->
    sys_step P (mkSys s ts) (mkSys s' (<[i := mkTask k p']> ts)).

Definition init : system := mkSys (fun _ => 0) [].

Definition Pools_wf (P : Pools) : Prop :=
  (forall c, 0 <= cap P c <= umax (width c)) /\ 0 <= job_threads P /\ 0 <= min_reservation_bytes P.

(** ** The accounting invariant *)

Definition on_cell (c : cell) (p : cell * Z) : Z := if decide (p.1 = c) then p.2 else 0.
Definition total (c : cell) (l : amounts) : Z := sum_by (on_cell c) l.

(** What a task holds: while it unwinds, what it has not returned yet. *)
Definition held_of (P : Pools) (t : task) : amounts :=
  match t_pc t with
  | Ready h _ | Loaded h _ _ => h
  | Leased => release P (t_call t)
  | Unwinding l => l
  | Returned => []
  end.

Definition nonneg (l : amounts) : Prop := Forall (fun p => 0 <= p.2) l.

(** The undo list of every reservation returns exactly what is held there, and
    dropping the lease returns exactly what the whole operation reserved. *)
Fixpoint prog_wf (held : amounts) (p : list instr) (rel : amounts) : Prop :=
  match p with
  | [] => held ≡ₚ rel
  | i :: p' => undo i ≡ₚ held /\ 0 <= amount i /\ prog_wf (held ++ [(target i, amount i)]) p' rel
  end.

Definition task_wf (P : Pools) (t : task) : Prop :=
  nonneg (held_of P t) /\
  match t_pc t with
  | Ready h p | Loaded h _ p => prog_wf h p (release P (t_call t))
  | _ => True
  end.

Definition Inv (P : Pools) (y : system) : Prop :=
  (forall c, cells y c = sum_by (fun t => total c (held_of P t)) (tasks y))
  /\ (forall c, 0 <= cells y c <= cap P c)
  /\ Forall (task_wf P) (tasks y).

Lemma total_app c l k : total c (l ++ k) = total c l + total c k.
Proof. apply sum_by_app. Qed.

Lemma total_perm c l k : l ≡ₚ k -> total c l = total c k.
Proof. apply sum_by_perm. Qed.

Lemma total_nonneg c l : nonneg l -> 0 <= total c l.
Proof.
  intros H. apply sum_by_nonneg. intros p Hp. unfold nonneg in H. rewrite Forall_forall in H.
  unfold on_cell. destruct (decide _); [by apply H|lia].
Qed.

Lemma set_cell_total s c d v : set_cell s c v d = s d + (if decide (c = d) then v - s d else 0).
Proof. unfold set_cell. repeat destruct (decide _); subst; try done; lia. Qed.

(** The programs of the code return what they took, on every path. *)
Ltac solve_prog :=
  repeat match goal with
  | |- _ /\ _ => split
  | |- ?l ≡ₚ ?k => solve [ done | solve_Permutation | simpl; solve_Permutation ]
  | |- _ <= _ => lia
  end.

Lemma program_wf P k :
  Pools_wf P -> call_wf P k -> prog_wf [] (program P k) (release P k).
Proof.
  intros (_ & Hj & Hm) Hk.
  destruct k as [[] m t|[] m t|[] b]; cbn in *; unfold in_u in *; solve_prog.
Qed.

Lemma nonneg_snoc h c a : nonneg h -> 0 <= a -> nonneg (h ++ [(c, a)]).
Proof. intros. apply Forall_app. split; [done|]. by repeat constructor. Qed.

Lemma total_snoc c h d a : total c (h ++ [(d, a)]) = total c h + if decide (d = c) then a else 0.
Proof. rewrite total_app. unfold total at 2, on_cell. simpl. lia. Qed.

Lemma nonneg_perm l k : l ≡ₚ k -> nonneg k -> nonneg l.
Proof. unfold nonneg. by intros ->. Qed.

(** One atomic operation: the counters change by what the task's holding changes
    by, stay within their limits, and the task stays well formed. *)
Lemma task_step_account P k s p s' p' :
  Pools_wf P -> call_wf P k -> task_wf P (mkTask k p) ->
  (forall c, 0 <= s c <= cap P c) -> (forall c, total c (held_of P (mkTask k p)) <= s c) ->
  task_step P k s p s' p' ->
  (forall c, s' c = s c - total c (held_of P (mkTask k p)) + total c (held_of P (mkTask k p')))
  /\ (forall c, 0 <= s' c <= cap P c) /\ task_wf P (mkTask k p').
Proof.
  intros HP Hk [Hn Hw] Hs Hle Hst. destruct Hst; unfold task_wf, held_of in *; cbn [t_pc t_call] in *.
  - cbn [prog_wf undo target amount] in Hw. destruct Hw as (Hu & Ha & Hw). split_and!; try done.
    + intros d. rewrite set_cell_total, total_snoc. destruct (decide (c = d)); subst; lia.
    + intros d. rewrite set_cell_total. pose proof (Hs d). destruct (decide (c = d)); subst; lia.
    + by apply nonneg_snoc.
  - cbn [prog_wf undo] in Hw. destruct Hw as (Hu & _). split_and!; try done.
    + intros d. rewrite (total_perm d _ _ Hu). lia.
    + by apply (nonneg_perm _ _ Hu).
  - split_and!; try done. intros d. lia.
  - cbn [prog_wf undo] in Hw. destruct Hw as (Hu & _). split_and!; try done.
    + intros d. rewrite (total_perm d _ _ Hu). lia.
    + by apply (nonneg_perm _ _ Hu).
  - cbn [prog_wf undo target amount] in Hw. destruct Hw as (Hu & Ha & Hw). split_and!; try done.
    + intros d. rewrite set_cell_total, total_snoc. destruct (decide (c = d)); subst; lia.
    + intros d. rewrite set_cell_total. pose proof (Hs d). destruct (decide (c = d)); subst; lia.
    + by apply nonneg_snoc.
  - split_and!; try done. intros d. lia.
  - cbn [prog_wf] in Hw. split_and!; try done.
    + intros d. rewrite (total_perm d _ _ Hw). lia.
    + by apply (nonneg_perm _ _ (symmetry Hw)).
  - split_and!; try done. intros d. lia.
  - apply Forall_cons in Hn as [Ha Hn]. cbn [snd] in Ha.
    assert (forall d, total d ((c, a) :: l) = (if decide (c = d) then a else 0) + total d l) as Ht
      by done.
    pose proof (Hle c) as Hc. rewrite Ht, decide_True in Hc by done.
    pose proof (total_nonneg c l Hn). pose proof (Hs c). destruct HP as [HP _]. pose proof (HP c).
    assert (wrap (width c) (s c - a) = s c - a) as ->.
    { unfold wrap. apply Z.mod_small. unfold umax in *. lia. }
    split_and!; try done.
    + intros d. rewrite set_cell_total, Ht. destruct (decide (c = d)); subst; lia.
    + intros d. rewrite set_cell_total. pose proof (Hs d). destruct (decide (c = d)); subst; lia.
  - split_and!; try done. intros d. lia.
Qed.

Lemma task_held_nonneg P c t : task_wf P t -> 0 <= total c (held_of P t).
Proof. intros [H _]. by apply total_nonneg. Qed.

Lemma Inv_init P : Pools_wf P -> Inv P init.
Proof. intros [H _]. split_and!; [done| |constructor]. intros c. simpl. specialize (H c). lia. Qed.

(** Calls keep their arguments: every task's call is well formed. *)
Definition Inv' (P : Pools) (y : system) : Prop :=
  Inv P y /\ Forall (fun t => call_wf P (t_call t)) (tasks y).

Lemma sys_step_inv P y y' : Pools_wf P -> Inv' P y -> sys_step P y y' -> Inv' P y'.
Proof.
  intros HP [(Hsum & Hcap & Hwf) Hcalls] Hst. destruct Hst as [s ts k Hk|s ts i k p s' p' Hi Hst];
    cbn [cells tasks] in *.
  - split; [split_and!|]; cbn [cells tasks].
    + intros c. rewrite sum_by_app, Hsum. simpl. lia.
    + done.
    + apply Forall_app. split; [done|]. repeat constructor. by apply program_wf.
    + apply Forall_app. split; [done|]. by repeat constructor.
  - assert (task_wf P (mkTask k p)) as Hw by (eapply Forall_lookup_1 in Hwf; eauto).
    assert (call_wf P k) as Hk by (eapply (Forall_lookup_1 _ _ _ _ Hcalls) in Hi; done).
    assert (forall c, total c (held_of P (mkTask k p)) <= s c) as Hle.
    { intros c. rewrite Hsum. apply (sum_by_ge (fun t => total c (held_of P t)) ts i); [|done].
      intros t Ht. apply task_held_nonneg. rewrite Forall_forall in Hwf. auto. }
    destruct (task_step_account P k s p s' p') as (H1 & H2 & H3); try done.
    split; [split_and!|]; cbn [cells tasks].
    + intros c. rewrite H1, (sum_by_insert _ _ _ _ _ Hi), <- Hsum. done.
    + done.
    + by apply Forall_insert.
    + by apply Forall_insert.
Qed.

Lemma reachable_inv P y : Pools_wf P -> steps (sys_step P) init y -> Inv P y.
Proof.
  intros HP H. apply (steps_invariant (sys_step P) (Inv' P)) in H; [apply H| |].
  - intros s t. by apply sys_step_inv.
  - split; [by apply Inv_init|constructor].
Qed.

(** ** An operation running alone *)

Definition room (P : Pools) (s : counters) (i : instr) : bool :=
  match i with
  | TryAcquire c _ => s c + 1 <=? cap P c
  | CasAdd c a _ => s c + a <=? Z.min (umax (width c)) (cap P c)
  end.

Fixpoint undo_all (s : counters) (l : amounts) : counters :=
  match l with
  | [] => s
  | (c, a) :: l' => undo_all (set_cell s c (wrap (width c) (s c - a))) l'
  end.

(** Runs the reservations in order: granted, or refused with everything undone. *)
Fixpoint run (P : Pools) (s : counters) (p : list instr) : bool * counters :=
  match p with
  | [] => (true, s)
  | i :: p' =>
      if room P s i then run P (set_cell s (target i) (s (target i) + amount i)) p'
      else (false, undo_all s (undo i))
  end.

(** [free_memory], [free_threads], [available_slots] of the governor. *)
Definition free_memory (P : Pools) (s : counters) : Z := sat_sub (memory_total P) (s GovMem).
Definition free_threads (P : Pools) (s : counters) : Z := sat_sub (threads_total P) (s GovThr).
Definition available_slots (P : Pools) (s : counters) : Z := max_jobs P - s GovSlot.

Lemma unwind_steps P k i l s ts :
  ts !! i = Some (mkTask k (Unwinding l)) ->
  steps (sys_step P) (mkSys s ts) (mkSys (undo_all s l) (<[i := mkTask k Returned]> ts)).
Proof.
  revert s ts. induction l as [|[c a] l IH]; intros s ts Hi.
  - eapply steps_snoc; [constructor|]. econstructor; [done|constructor].
  - eapply steps_trans.
    + eapply steps_snoc; [constructor|]. eapply sys_task; [exact Hi|apply st_sub].
    + rewrite <- (list_insert_insert_eq ts i (mkTask k Returned) (mkTask k (Unwinding l))).
      apply IH. apply list_lookup_insert_eq. by eapply lookup_lt_Some.
Qed.

Lemma run_steps P k i h p s ts :
  ts !! i = Some (mkTask k (Ready h p)) ->
  steps (sys_step P) (mkSys s ts)
    (mkSys (run P s p).2 (<[i := mkTask k (if (run P s p).1 then Leased else Returned)]> ts)).
Proof.
  revert h s ts. induction p as [|j p IH]; intros h s ts Hi.
  { eapply steps_snoc; [constructor|]. econstructor; [done|constructor]. }
  pose proof (lookup_lt_Some _ _ _ Hi) as Hlt. cbn [run].
  assert (forall s' q, steps (sys_step P) (mkSys s ts) (mkSys s' (<[i := mkTask k q]> ts)) ->
    forall s'' q', steps (sys_step P) (mkSys s' (<[i := mkTask k q]> ts))
                     (mkSys s'' (<[i := mkTask k q']> (<[i := mkTask k q]> ts))) ->
    steps (sys_step P) (mkSys s ts) (mkSys s'' (<[i := mkTask k q']> ts))) as Hgo.
  { intros s' q H1 s'' q' H2. rewrite list_insert_insert_eq in H2. by eapply steps_trans. }
  destruct j as [c u|c a u]; cbn [room target amount undo].
  - destruct (Z.leb_spec (s c + 1) (cap P c)).
    + eapply Hgo; [eapply steps_snoc; [constructor|]; eapply sys_task; [exact Hi|by apply st_acquire]|].
      eapply IH. by apply list_lookup_insert_eq.
    + eapply Hgo; [eapply steps_snoc; [constructor|]; eapply sys_task; [exact Hi|by apply st_no_permit]|].
      apply unwind_steps. by apply list_lookup_insert_eq.
  - assert (steps (sys_step P) (mkSys s ts)
      (mkSys s (<[i := mkTask k (Loaded h (s c) (CasAdd c a u :: p))]> ts))) as Hload.
    { eapply steps_snoc; [constructor|]. eapply sys_task; [exact Hi|apply st_load]. }
    destruct (Z.leb_spec (s c + a) (Z.min (umax (width c)) (cap P c))).
    + eapply (Hgo _ (Ready (h ++ [(c, a)]) p)).
      * rewrite <- (list_insert_insert_eq ts i _ (mkTask k (Loaded h (s c) (CasAdd c a u :: p)))).
        eapply steps_snoc; [exact Hload|].
        eapply sys_task; [by apply list_lookup_insert_eq|by apply st_exchange].
      * eapply IH. by apply list_lookup_insert_eq.
    + eapply (Hgo _ (Unwinding u)).
      * rewrite <- (list_insert_insert_eq ts i _ (mkTask k (Loaded h (s c) (CasAdd c a u :: p)))).
        eapply steps_snoc; [exact Hload|].
        eapply sys_task; [by apply list_lookup_insert_eq|by apply st_refuse].
      * apply unwind_steps. by apply list_lookup_insert_eq.
Qed.

Lemma undo_all_spec P l s :
  Pools_wf P -> nonneg l -> (forall c, 0 <= s c <= cap P c) -> (forall c, total c l <= s c) ->
  forall c, undo_all s l c = s c - total c l.
Proof.
  intros HP. revert s. induction l as [|[c a] l IH]; intros s Hn Hs Hle d; [cbn; lia|].
  apply Forall_cons in Hn as [Ha Hn]. cbn [snd undo_all] in *.
  assert (forall d, total d ((c, a) :: l) = (if decide (c = d) then a else 0) + total d l) as Ht
    by done.
  pose proof (Hle c) as Hc. rewrite Ht, decide_True in Hc by done.
  pose proof (total_nonneg c l Hn). pose proof (Hs c). pose proof (proj1 HP c).
  assert (wrap (width c) (s c - a) = s c - a) as ->.
  { unfold wrap. apply Z.mod_small. unfold umax in *. lia. }
  rewrite IH; [| done | |].
  - rewrite set_cell_total, Ht. destruct (decide (c = d)); subst; lia.
  - intros e. rewrite set_cell_total. pose proof (Hs e). destruct (decide (c = e)); subst; lia.
  - intros e. rewrite set_cell_total. specialize (Hle e). rewrite Ht in Hle.
    destruct (decide (c = e)); subst; lia.
Qed.

Lemma room_cap P s i :
  room P s i = true -> s (target i) + amount i <= cap P (target i).
Proof. destruct i; simpl; intros; bool_to_prop; lia. Qed.

Lemma run_spec P h p rel s :
  Pools_wf P -> prog_wf h p rel -> nonneg h -> (forall c, 0 <= s c <= cap P c) ->
  (forall c, total c h <= s c) ->
  forall c, (run P s p).2 c = s c - total c h + (if (run P s p).1 then total c rel else 0).
Proof.
  intros HP. revert h s. induction p as [|i p IH]; intros h s Hw Hn Hs Hle c.
  - cbn in *. rewrite (total_perm c _ _ Hw). lia.
  - cbn [prog_wf] in Hw. destruct Hw as (Hu & Ha & Hw). cbn [run].
    destruct (room P s i) eqn:Hr.
    + apply room_cap in Hr. rewrite (IH (h ++ [(target i, amount i)])).
      * rewrite total_snoc, set_cell_total. destruct (decide (target i = c)); subst; lia.
      * done.
      * by apply nonneg_snoc.
      * intros d. rewrite set_cell_total. pose proof (Hs d).
        destruct (decide (target i = d)); subst; lia.
      * intros d. rewrite set_cell_total, total_snoc. pose proof (Hle d).
        destruct (decide (target i = d)); subst; lia.
    + cbn [fst snd]. rewrite (undo_all_spec P), (total_perm c _ _ Hu); [lia|done| |done|].
      * by apply (nonneg_perm _ _ Hu).
      * intros d. by rewrite (total_perm d _ _ Hu).
Qed.

Lemma run_granted P s p :
  NoDup (target <$> p) -> (run P s p).1 = forallb (room P s) p.
Proof.
  revert s. induction p as [|i p IH]; intros s Hd; [done|].
  rewrite fmap_cons in Hd. apply NoDup_cons in Hd as [Hi Hd]. cbn [run forallb].
  destruct (room P s i); [|done]. rewrite IH by done. cbn [andb].
  assert (forall j, j ∈ p -> room P (set_cell s (target i) (s (target i) + amount i)) j = room P s j) as Hj.
  { intros j Hj. assert (target j <> target i) as Hne.
    { intros E. apply Hi. rewrite <- E. by apply list_elem_of_fmap_2. }
    destruct j; cbn [room target] in *; unfold set_cell; by rewrite decide_False. }
  clear -Hj. induction p as [|j p IHp]; [done|]. cbn [forallb].
  rewrite Hj, IHp by set_solver. done.
Qed.

Lemma program_targets P k : NoDup (target <$> program P k).
Proof. destruct k as [[] m t|[] m t|[] b]; cbn; decide_closed. Qed.

(** ** What the leases hold *)

(** The governor reservation a granted call comes with. *)
Definition grant (P : Pools) (k : call) : option (Role * Z * Z) :=
  match k with
  | CallReserve r m t => Some (r, m, t)
  | CallAdmit true m t => Some (Served, m, t)
  | CallLocal true b => Some (Local, Z.max b (min_reservation_bytes P), job_threads P)
  | _ => None
  end.

Definition is_leased (t : task) : bool := match t_pc t with Leased => true | _ => false end.

Definition lease_sum (P : Pools) (f : Role -> Z -> Z -> Z) (y : system) : Z :=
  sum_by (fun t => if is_leased t
                   then match grant P (t_call t) with Some (r, m, th) => f r m th | None => 0 end
                   else 0) (tasks y).

Definition own_memory P := lease_sum P (fun r m _ => match r with Local => m | Served => 0 end).
Definition served_memory P := lease_sum P (fun r m _ => match r with Local => 0 | Served => m end).
Definition leased_threads P := lease_sum P (fun _ _ t => t).
Definition leased_jobs P := lease_sum P (fun _ _ _ => 1).

(** Evaluates the total of a concrete list of amounts. *)
Ltac eval_total :=
  unfold total, on_cell; cbn [release drop_governor_lease drop_lease drop_reservation
    rollback_memory app sum_by foldr fst snd];
  repeat first [rewrite decide_True by done | rewrite decide_False by done].

Lemma lease_sum_le P y f c :
  Inv P y -> (forall k, match grant P k with
                        | Some (r, m, t) => f r m t <= total c (release P k)
                        | None => 0 <= total c (release P k) end \/ ~ call_wf P k) ->
  Forall (fun t => call_wf P (t_call t)) (tasks y) -> lease_sum P f y <= cells y c.
Proof.
  intros (Hsum & _ & Hwf) Hf Hc. rewrite Hsum. clear Hsum. unfold lease_sum.
  induction (tasks y) as [|t ts IH]; [done|]. cbn [sum_by foldr].
  apply Forall_cons in Hwf as [Ht Hwf], Hc as [Hct Hc]. specialize (IH Hwf Hc).
  unfold sum_by in IH. pose proof (task_held_nonneg P c t Ht) as Hnn.
  destruct t as [k p]. unfold is_leased, held_of in *; cbn [t_pc t_call] in *.
  destruct p; try lia. destruct (Hf k) as [H|]; [|done].
  destruct (grant P k) as [[[r m] th]|]; lia.
Qed.

(** The state of a system between operations: no task is inside one. *)
Definition quiescent (y : system) : Prop :=
  Forall (fun t => match t_pc t with Leased | Returned => True | _ => False end) (tasks y).

Lemma reachable_calls P y :
  Pools_wf P -> steps (sys_step P) init y -> Forall (fun t => call_wf P (t_call t)) (tasks y).
Proof.
  intros HP H. apply (steps_invariant (sys_step P) (Inv' P)) in H; [apply H| |].
  - intros s t. by apply sys_step_inv.
  - split; [by apply Inv_init|constructor].
Qed.

(** C4: the machine is never oversubscribed: in every state reachable by any
    interleaving of any number of concurrent reservations, admissions, local
    executions, refusals and drops (with arbitrarily stale relaxed loads), the
    memory of own and served leases together is within the budget, served leases
    alone are within the served ceiling, and threads and jobs are within theirs. *)
Theorem governor_no_oversubscription (P : Pools) (y : system) :
  Pools_wf P -> steps (sys_step P) init y ->
  own_memory P y + served_memory P y <= memory_total P
  /\ served_memory P y <= served_memory_ceiling P
  /\ leased_threads P y <= threads_total P
  /\ leased_jobs P y <= max_jobs P.
Proof.
  intros HP H. pose proof (reachable_inv P y HP H) as HI. pose proof (reachable_calls P y HP H) as HC.
  pose proof (proj1 (proj2 HI)) as Hcap.
  assert (forall f c, (forall k, call_wf P k -> match grant P k with
      | Some (r, m, t) => f r m t <= total c (release P k)
      | None => 0 <= total c (release P k) end) -> lease_sum P f y <= cap P c) as Hsum.
  { intros f c Hf. transitivity (cells y c); [|apply Hcap]. apply lease_sum_le; [done| |done].
    intros k. destruct (decide (call_wf P k)); [left; by apply Hf|by right]. }
  assert (own_memory P y + served_memory P y = lease_sum P (fun _ m _ => m) y) as ->.
  { unfold own_memory, served_memory, lease_sum. clear. induction (tasks y) as [|t ts IH]; [done|].
    cbn [sum_by foldr]. unfold sum_by in IH.
    destruct (is_leased t), (grant P (t_call t)) as [[[[] ?] ?]|]; lia. }
  split_and!; [apply (Hsum _ GovMem)|apply (Hsum _ GovServed)|apply (Hsum _ GovThr)|apply (Hsum _ GovSlot)];
    intros [[] m t|[] m t|[] b] Hk; cbn [grant]; eval_total; cbn in Hk; unfold in_u in *;
    destruct HP as (_ & ? & ?); lia.
Qed.

Lemma lease_sum_eq P y f c :
  Inv P y -> quiescent y ->
  (forall k, match grant P k with Some (r, m, t) => f r m t | None => 0 end = total c (release P k)) ->
  lease_sum P f y = cells y c.
Proof.
  intros (Hsum & _) Hq Hf. rewrite Hsum. clear Hsum. unfold lease_sum, quiescent in *.
  induction (tasks y) as [|[k p] ts IH]; [done|]. apply Forall_cons in Hq as [Ht Hq].
  cbn [sum_by foldr]. specialize (IH Hq). unfold sum_by in IH. rewrite IH.
  unfold is_leased, held_of; cbn [t_pc t_call] in *. destruct p; try done. by rewrite Hf.
Qed.

(** Accounting is exact: a [fetch_sub] never underflows, whatever is
    interleaved with it, and once every task has returned all counters are zero
    and all permits are back. *)
Theorem governor_no_leak (P : Pools) (y : system) :
  Pools_wf P -> steps (sys_step P) init y ->
  (forall i k c a l, tasks y !! i = Some (mkTask k (Unwinding ((c, a) :: l))) -> 0 <= a <= cells y c)
  /\ (Forall (fun t => t_pc t = Returned) (tasks y) -> forall c, cells y c = 0).
Proof.
  intros HP H. pose proof (reachable_inv P y HP H) as (Hsum & _ & Hwf). split.
  - intros i k c a l Hi. pose proof (Forall_lookup_1 _ _ _ _ Hwf Hi) as [Hn _].
    unfold held_of in Hn; cbn [t_pc] in Hn. apply Forall_cons in Hn as [Ha Hn]. split; [done|].
    rewrite Hsum. transitivity (total c ((c, a) :: l)).
    + pose proof (total_nonneg c l Hn). unfold total, on_cell in *. cbn [sum_by foldr fst snd].
      rewrite decide_True by done. unfold sum_by in *. lia.
    + apply (sum_by_ge (fun t => total c (held_of P t)) _ _ _) in Hi; [done|].
      intros t Ht. apply task_held_nonneg. rewrite Forall_forall in Hwf. auto.
  - intros Hr c. rewrite Hsum. rewrite (sum_by_const _ 0); [lia|].
    intros t Ht. rewrite Forall_forall in Hr. unfold held_of. by rewrite (Hr t Ht).
Qed.

(** [try_reserve] running alone grants exactly when a job slot is free and the
    memory, the served ceiling (for a served job) and the threads have room; it
    then adds the request to the counters, and a refusal leaves every counter as it
    was. *)
Theorem try_reserve_alone (P : Pools) (s : counters) (role : Role) (m t : Z) :
  Pools_wf P -> (forall c, 0 <= s c <= cap P c) -> in_u 64 m -> in_u 32 t ->
  let r := run P s (try_reserve role m t) in
  (r.1 = true <->
     s GovSlot + 1 <= max_jobs P /\ s GovMem + m <= memory_total P
     /\ match role with Served => s GovServed + m <= served_memory_ceiling P | Local => True end
     /\ s GovThr + t <= threads_total P)
  /\ (forall c, r.2 c = s c + if r.1 then total c (drop_governor_lease role m t) else 0).
Proof.
  intros HP Hs Hm Ht r. subst r. change (try_reserve role m t) with (program P (CallReserve role m t)).
  split.
  - rewrite (run_granted P s (program P (CallReserve role m t)) (program_targets P _)).
    pose proof (proj1 HP) as Hc. pose proof (Hc GovMem). pose proof (Hc GovThr).
    pose proof (Hc GovServed). cbn [cap width] in *.
    destruct role; cbn [program try_reserve app forallb room cap width]; rewrite !andb_true_iff, !Z.leb_le; lia.
  - intros c. rewrite (run_spec P [] _ (release P (CallReserve role m t)) s HP); try done.
    + cbn [total sum_by foldr]. cbn [release]. unfold total; simpl. lia.
    + by apply (program_wf P (CallReserve role m t)).
    + constructor.
    + intros d. apply Hs.
Qed.

(** An operation that runs without interference terminates: from any state of
    the system in which task [i] is about to start, the system can run it to its
    end, granted or refused, and that run is the sequential execution. *)
Theorem operation_runs_to_completion (P : Pools) (s : counters) (ts : list task) (i : nat) (k : call) :
  ts !! i = Some (mkTask k (Ready [] (program P k))) ->
  let r := run P s (program P k) in
  steps (sys_step P) (mkSys s ts)
    (mkSys r.2 (<[i := mkTask k (if r.1 then Leased else Returned)]> ts)).
Proof. apply run_steps. Qed.

(** Serving cannot lock the node out of its own work: between operations, in
    any reachable state, a local reservation that fits the headroom the served
    ceiling leaves (next to the memory own leases hold) is granted whenever a job
    slot and the threads are free. *)
Theorem local_headroom_guaranteed (P : Pools) (y : system) (m t : Z) :
  Pools_wf P -> steps (sys_step P) init y -> quiescent y -> in_u 64 m -> in_u 32 t ->
  own_memory P y + m <= memory_total P - served_memory_ceiling P ->
  leased_jobs P y + 1 <= max_jobs P -> leased_threads P y + t <= threads_total P ->
  (run P (cells y) (try_reserve Local m t)).1 = true.
Proof.
  intros HP H Hq Hm Ht Hfit Hjobs Hthr. pose proof (reachable_inv P y HP H) as HI.
  pose proof (proj1 (proj2 HI)) as Hcap. pose proof (Hcap GovServed) as Hsv.
  assert (served_memory P y = cells y GovServed) as Es.
  { apply lease_sum_eq; [done..|]. intros [[] ? ?|[] ? ?|[] ?]; cbn [grant]; eval_total; lia. }
  assert (own_memory P y + served_memory P y = cells y GovMem) as Em.
  { transitivity (lease_sum P (fun _ m _ => m) y).
    - unfold own_memory, served_memory, lease_sum. clear. induction (tasks y) as [|a ts IH]; [done|].
      cbn [sum_by foldr]. unfold sum_by in IH.
      destruct (is_leased a), (grant P (t_call a)) as [[[[] ?] ?]|]; lia.
    - apply lease_sum_eq; [done..|]. intros [[] ? ?|[] ? ?|[] ?]; cbn [grant]; eval_total; lia. }
  assert (leased_jobs P y = cells y GovSlot) as Ej.
  { apply lease_sum_eq; [done..|]. intros [[] ? ?|[] ? ?|[] ?]; cbn [grant]; eval_total; lia. }
  assert (leased_threads P y = cells y GovThr) as Et.
  { apply lease_sum_eq; [done..|]. intros [[] ? ?|[] ? ?|[] ?]; cbn [grant]; eval_total; lia. }
  change (try_reserve Local m t) with (program P (CallReserve Local m t)).
  rewrite (run_granted P _ (program P (CallReserve Local m t)) (program_targets P _)).
  pose proof (proj1 HP GovMem). pose proof (proj1 HP GovThr). cbn [cap width] in *.
  cbn [program try_reserve app forallb room cap width]. rewrite !andb_true_iff, !Z.leb_le. lia.
Qed.

(** ** Witnesses *)

Definition pools_example : Pools := mkPools 1000 8 600 4 1000 8 4 600 2 1 100.

Lemma pools_example_wf : Pools_wf pools_example.
Proof. split; [|done]. intros []; vm_compute; split; discriminate. Qed.

(** A served admission, then a local execution, each run to its lease. *)
Definition busy_example : system :=
  mkSys (run pools_example (run pools_example (fun _ => 0) (program pools_example (CallAdmit true 500 2))).2
           (program pools_example (CallLocal true 50))).2
    [mkTask (CallAdmit true 500 2) Leased; mkTask (CallLocal true 50) Leased].

Lemma busy_example_reachable : steps (sys_step pools_example) init busy_example.
Proof.
  pose (k1 := CallAdmit true 500 2). pose (k2 := CallLocal true 50).
  pose (s1 := (run pools_example (fun _ => 0) (program pools_example k1)).2).
  assert (steps (sys_step pools_example) init (mkSys s1 [mkTask k1 Leased])) as H1.
  { eapply steps_trans.
    - eapply steps_snoc; [apply steps_refl|]. apply (sys_call _ _ _ k1). decide_closed.
    - exact (run_steps pools_example k1 0 [] (program pools_example k1) (fun _ => 0)
        [mkTask k1 (Ready [] (program pools_example k1))] eq_refl). }
  eapply steps_trans; [exact H1|]. eapply steps_trans.
  - eapply steps_snoc; [apply steps_refl|]. apply (sys_call _ _ _ k2). decide_closed.
  - exact (run_steps pools_example k2 1 [] (program pools_example k2) s1
      [mkTask k1 Leased; mkTask k2 (Ready [] (program pools_example k2))] eq_refl).
Qed.

Lemma governor_no_oversubscription_witness :
  own_memory pools_example busy_example + served_memory pools_example busy_example <= 1000
  /\ served_memory pools_example busy_example <= 600
  /\ leased_threads pools_example busy_example <= 8
  /\ leased_jobs pools_example busy_example <= 4.
Proof.
  apply (governor_no_oversubscription pools_example busy_example);
    [apply pools_example_wf|apply busy_example_reachable].
Defined.

Lemma governor_no_leak_witness :
  (forall i k c a l, tasks busy_example !! i = Some (mkTask k (Unwinding ((c, a) :: l))) ->
     0 <= a <= cells busy_example c)
  /\ (Forall (fun t => t_pc t = Returned) (tasks busy_example) -> forall c, cells busy_example c = 0).
Proof.
  apply (governor_no_leak pools_example busy_example);
    [apply pools_example_wf|apply busy_example_reachable].
Defined.

Lemma try_reserve_alone_witness :
  let r := run pools_example (fun _ => 0) (try_reserve Served 500 2) in
  (r.1 = true <-> 0 + 1 <= 4 /\ 0 + 500 <= 1000 /\ 0 + 500 <= 600 /\ 0 + 2 <= 8)
  /\ (forall c, r.2 c = 0 + if r.1 then total c (drop_governor_lease Served 500 2) else 0).
Proof.
  apply (try_reserve_alone pools_example (fun _ => 0) Served 500 2);
    [apply pools_example_wf| |decide_closed|decide_closed].
  intros []; vm_compute; split; discriminate.
Defined.

Lemma operation_runs_to_completion_witness :
  steps (sys_step pools_example)
    (mkSys (fun _ => 0) [mkTask (CallAdmit true 700 2) (Ready [] (try_admit true 700 2))])
    (mkSys (run pools_example (fun _ => 0) (try_admit true 700 2)).2
       [mkTask (CallAdmit true 700 2) Returned]).
Proof.
  apply (operation_runs_to_completion pools_example (fun _ => 0)
    [mkTask (CallAdmit true 700 2) (Ready [] (try_admit true 700 2))] 0 (CallAdmit true 700 2)).
  reflexivity.
Defined.

Lemma local_headroom_guaranteed_witness :
  (run pools_example (cells busy_example) (try_reserve Local 200 2)).1 = true.
Proof.
  apply (local_headroom_guaranteed pools_example busy_example 200 2);
    [apply pools_example_wf|apply busy_example_reachable|repeat constructor|decide_closed
    |decide_closed|vm_compute; discriminate..].
Defined.
