(* ===== verification/Books.v ===== *)
(** * Bounded FIFO books: the canary book and the free-job rate limiter
    (crates/trust/src/canary.rs, crates/node/src/antiabuse.rs [RateLimiter])

    Both keep a hash map next to a queue of its keys in insertion order and make
    room by popping the queue.  The shared representation and its invariant come
    first; each book's operations are then written out as in the code.  A
    [Mutex]-guarded method is one atomic step. *)

From S2P Require Import Prelude Bytes Proto.

Section fifo.
Context {V : Type}.

Record Book := mkBook { entries : gmap bytes V; order : list bytes }.

Definition empty_book : Book := mkBook ∅ [].

(** [while full { match order.pop_front() { Some(old) => remove, None => break } }] *)
Fixpoint evict (full : gmap bytes V -> list bytes -> bool) (m : gmap bytes V) (o : list bytes) : Book :=
  match o with
  | [] => mkBook m []
  | k :: o' => if full m o then evict full (delete k m) o' else mkBook m o
  end.

(** The queue lists the keys, once each, and the book is within its capacity. *)
Definition book_ok (capacity : nat) (b : Book) : Prop :=
  NoDup (order b) /\ (forall k, k ∈ order b <-> is_Some (entries b !! k))
  /\ (length (order b) <= capacity)%nat.

Lemma book_size c b : book_ok c b -> size (entries b) = length (order b).
Proof.
  intros (Hd & Hk & _). assert (dom (entries b) = list_to_set (order b) :> gset bytes) as E.
  { apply set_eq. intros k. rewrite elem_of_dom, elem_of_list_to_set. symmetry. apply Hk. }
  rewrite <- size_dom, E. by apply size_list_to_set.
Qed.

(** Dropping the oldest entry. *)
Lemma book_ok_pop c k m o :
  book_ok c (mkBook m (k :: o)) -> book_ok (pred c) (mkBook (delete k m) o).
Proof.
  intros (Hd & Hk & Hl). unfold book_ok. cbn [entries order length] in *.
  apply NoDup_cons in Hd as [Hn Hd]. split_and!; [done| |lia].
  intros j. destruct (decide (j = k)) as [->|Hj]; cbn [entries order].
  - rewrite lookup_delete_eq. split; [done|by intros []].
  - rewrite lookup_delete_ne by done. rewrite <- Hk. set_solver.
Qed.

Lemma book_ok_push c k v m o :
  k ∉ o -> (S (length o) <= c)%nat -> book_ok c (mkBook m o) ->
  book_ok c (mkBook (<[k := v]> m) (o ++ [k])).
Proof.
  intros Hn Hl (Hd & Hk & _). unfold book_ok. cbn [entries order] in *. split_and!.
  - apply NoDup_app. split_and!; [done|set_solver|apply NoDup_singleton].
  - intros j. rewrite elem_of_app, list_elem_of_singleton. destruct (decide (j = k)) as [->|Hj].
    + rewrite lookup_insert_eq. split; [by eexists|by right].
    + rewrite lookup_insert_ne by done. rewrite <- Hk. set_solver.
  - rewrite length_app. simpl. lia.
Qed.

(** On a book within its capacity, both loops of the code pop at most one entry:
    the oldest, and only when the book is full. *)
Lemma evict_full (c : nat) (full : gmap bytes V -> list bytes -> bool) (b : Book) :
  (0 < c)%nat -> book_ok c b ->
  (forall m o, book_ok c (mkBook m o) -> full m o = (c <=? length o)%nat) ->
  evict full (entries b) (order b) =
  if (length (order b) <? c)%nat then b
  else mkBook (match head (order b) with Some k => delete k (entries b) | None => entries b end)
         (tail (order b)).
Proof.
  intros Hc Hb Hf. destruct b as [m o]. cbn [entries order] in *.
  destruct o as [|k o]; cbn [evict length head tail].
  { by rewrite (proj2 (Nat.ltb_lt _ _) Hc). }
  pose proof Hb as (_ & _ & Hl). cbn in Hl. rewrite Hf by done. cbn [length].
  destruct (Nat.ltb_spec (S (length o)) c).
  - by rewrite (proj2 (Nat.leb_gt _ _)) by lia.
  - rewrite (proj2 (Nat.leb_le _ _)) by lia. apply book_ok_pop in Hb.
    assert (full (delete k m) o = false) as Hno.
    { rewrite Hf; [apply Nat.leb_gt; lia|]. destruct Hb as (? & ? & ?). split_and!; try done. lia. }
    destruct o as [|k' o']; cbn [evict]; [done|]. by rewrite Hno.
Qed.
End fifo.
Arguments Book : clear implicits.

(** ** The canary book *)

Section canary.
Context (capacity : nat).

(** [CanaryBook::new] clamps the capacity to at least one. *)
Definition canary_capacity : nat := Nat.max capacity 1.

Definition canary_insert (b : Book bytes) (query : QueryHash) (result_hash : bytes) : Book bytes :=
  match entries b !! query with
  | None =>
      let b' := evict (fun m _ => (canary_capacity <=? size m)%nat) (entries b) (order b) in
      mkBook (<[query := result_hash]> (entries b')) (order b' ++ [query])
  | Some _ => mkBook (<[query := result_hash]> (entries b)) (order b)
  end.

Definition expected (b : Book bytes) (query : QueryHash) : option bytes := entries b !! query.
Definition is_canary (b : Book bytes) (query : QueryHash) : bool :=
  bool_decide (is_Some (entries b !! query)).

Inductive canary_step : Book bytes -> Book bytes -> Prop :=
| canary_step_insert b q h : canary_step b (canary_insert b q h).
End canary.

(** [judge_canary] *)
Definition judge_canary (expected_hash observed_hash : bytes) : Verdict :=
  if bool_decide (expected_hash = observed_hash) then Correct else Incorrect.

(** ** The rate limiter *)

Record RateLimiter := mkLimiter {
  max_per_window : Z;
  window_secs : Z;
  limiter_capacity : nat;
}.

Definition new_limiter (max window : Z) (capacity : nat) : RateLimiter :=
  mkLimiter max (Z.max window 1) (Nat.max capacity 1).

(** Pops the hits that left the window. *)
Fixpoint expire (window now_secs : Z) (q : list Z) : list Z :=
  match q with
  | [] => []
  | front :: q' => if window <=? sat_sub now_secs front then expire window now_secs q' else q
  end.

(** The part of [check_and_record] that works on one identity's queue. *)
Definition check_queue (L : RateLimiter) (q : list Z) (now_secs : Z) : bool * list Z :=
  let q := expire (window_secs L) now_secs q in
  if max_per_window L <=? Z.of_nat (length q) then (false, q) else (true, q ++ [now_secs]).

Definition check_and_record (L : RateLimiter) (b : Book (list Z)) (id : NodeId) (now_secs : Z)
  : bool * Book (list Z) :=
  let b := match entries b !! id with
           | Some _ => b
           | None =>
               let b' := evict (fun _ o => (limiter_capacity L <=? length o)%nat) (entries b) (order b) in
               mkBook (<[id := []]> (entries b')) (order b' ++ [id])
           end in
  let q := default [] (entries b !! id) in
  let (allowed, q') := check_queue L q now_secs in
  (allowed, mkBook (<[id := q']> (entries b)) (order b)).

(** The calls that were admitted. *)
Fixpoint admitted (L : RateLimiter) (b : Book (list Z)) (calls : list (NodeId * Z))
  : list (NodeId * Z) :=
  match calls with
  | [] => []
  | (id, t) :: calls' =>
      let (ok, b') := check_and_record L b id t in
      (if ok then [(id, t)] else []) ++ admitted L b' calls'
  end.

Fixpoint queue_admitted (L : RateLimiter) (q ts : list Z) : list Z :=
  match ts with
  | [] => []
  | t :: ts' =>
      let (ok, q') := check_queue L q t in (if ok then [t] else []) ++ queue_admitted L q' ts'
  end.

Definition times_of (id : NodeId) (calls : list (NodeId * Z)) : list Z :=
  (List.filter (fun c => bool_decide (c.1 = id)) calls).*2.

Definition Limiter_wf (L : RateLimiter) : Prop :=
  0 <= max_per_window L /\ 1 <= window_secs L /\ (1 <= limiter_capacity L)%nat.
#[global] Instance Limiter_wf_dec L : Decision (Limiter_wf L).
Proof. unfold Limiter_wf. apply _. Defined.

(** ** The canary book is a FIFO cache *)

Lemma canary_full (capacity : nat) (m : gmap bytes bytes) (o : list bytes) :
  book_ok (canary_capacity capacity) (mkBook m o) ->
  (canary_capacity capacity <=? size m)%nat = (canary_capacity capacity <=? length o)%nat.
Proof. intros H. apply book_size in H. cbn [entries order] in H. by rewrite H. Qed.

Lemma canary_insert_new (capacity : nat) (b : Book bytes) (q : QueryHash) (h : bytes) :
  book_ok (canary_capacity capacity) b -> entries b !! q = None ->
  exists m o, canary_insert capacity b q h = mkBook (<[q := h]> m) (o ++ [q])
    /\ (q ∉ o) /\ (S (length o) <= canary_capacity capacity)%nat
    /\ book_ok (canary_capacity capacity) (mkBook m o)
    /\ (forall k, m !! k = (if (length (order b) <? canary_capacity capacity)%nat then entries b !! k
          else if bool_decide (head (order b) = Some k) then None else entries b !! k)).
Proof.
  intros Hb Hq. unfold canary_insert. rewrite Hq.
  set (c := canary_capacity capacity) in *.
  assert (0 < c)%nat as Hc by (unfold c, canary_capacity; lia).
  rewrite (evict_full c); [|done|done|apply canary_full].
  assert (q ∉ order b) as Hnq by (intros Hin; apply Hb in Hin as [? ?]; congruence).
  pose proof Hb as (_ & _ & Hl). destruct b as [m o]; cbn [entries order] in *.
  destruct (Nat.ltb_spec (length o) c) as [Hlt|Hge].
  { exists m, o. split_and!; try done. }
  destruct o as [|k o]; [simpl in Hge; lia|]. cbn [head tail entries order length] in *.
  exists (delete k m), o. apply book_ok_pop in Hb as (H1 & H2 & H3).
  split; [done|]. split; [set_solver|]. split; [done|]. split.
  - split_and!; try done. cbn [order] in *. lia.
  - intros j. case_bool_decide as Hj.
    + injection Hj as ->. apply lookup_delete_eq.
    + apply lookup_delete_ne. congruence.
Qed.

Lemma canary_insert_ok (capacity : nat) (b : Book bytes) (q : QueryHash) (h : bytes) :
  book_ok (canary_capacity capacity) b -> book_ok (canary_capacity capacity) (canary_insert capacity b q h).
Proof.
  intros Hb. destruct (entries b !! q) eqn:E.
  - unfold canary_insert. rewrite E. destruct Hb as (H1 & H2 & H3). split_and!; try done.
    intros k. cbn [entries order]. rewrite H2. destruct (decide (k = q)) as [->|].
    + rewrite E, lookup_insert_eq. done.
    + by rewrite lookup_insert_ne.
  - destruct (canary_insert_new capacity b q h Hb E) as (m & o & -> & Hn & Hl & Hok & _).
    by apply book_ok_push.
Qed.

(** ** One queue of the limiter *)

Lemma expire_spec w t q :
  exists d, q = d ++ expire w t q /\ Forall (fun a => w <= sat_sub t a) d.
Proof.
  induction q as [|a q IH]; [by exists []|]. cbn [expire].
  destruct (Z.leb_spec w (sat_sub t a)).
  - destruct IH as (d & E & Hd). exists (a :: d). split; [simpl; by f_equal|by constructor].
  - by exists [].
Qed.

Definition count_after (t : Z) (l : list Z) : nat := length (List.filter (fun a => t <? a) l).

Lemma count_after_app t l k : count_after t (l ++ k) = (count_after t l + count_after t k)%nat.
Proof. unfold count_after. by rewrite List.filter_app, length_app. Qed.

Lemma count_after_le t l : (count_after t l <= length l)%nat.
Proof. unfold count_after. induction l as [|a l IH]; simpl; [lia|]. destruct (t <? a); simpl; lia. Qed.

Lemma count_after_0 t l : Forall (fun a => a <= t) l -> count_after t l = 0%nat.
Proof.
  unfold count_after. induction 1 as [|a l Ha _ IH]; [done|]. simpl.
  by rewrite (proj2 (Z.ltb_ge _ _)) by done.
Qed.

(** Along a run with a clock that does not go back: everything admitted is still
    queued or has left the window, and the queue never exceeds the limit. *)
Lemma queue_window L A q t ts now :
  Limiter_wf L -> Sorted Z.le (t :: ts) -> Forall (fun x => x <= now) (t :: ts) ->
  (exists d, A = d ++ q /\ Forall (fun a => a <= t - window_secs L) d) ->
  Forall (fun a => a <= t) q -> Z.of_nat (length q) <= max_per_window L ->
  Z.of_nat (count_after (now - window_secs L) (A ++ queue_admitted L q ts)) <= max_per_window L.
Proof.
  intros HL. pose proof HL as (Hm & Hw & _). revert A q t. induction ts as [|u ts IH];
    intros A q t Hs Hn (d & -> & Hd) Hq Hlen.
  - cbn [queue_admitted]. rewrite app_nil_r, count_after_app, count_after_0.
    + pose proof (count_after_le (now - window_secs L) q). lia.
    + apply Forall_cons in Hn as [Hn _]. eapply Forall_impl; [exact Hd|]. simpl. lia.
  - apply Sorted_inv in Hs as [Hs Hhd]. apply HdRel_inv in Hhd.
    apply Forall_cons in Hn as [Hn1 Hn].
    cbn [queue_admitted]. unfold check_queue. destruct (expire_spec (window_secs L) u q) as (e & Eq & He).
    set (q1 := expire (window_secs L) u q) in *.
    assert (Forall (fun a => a <= u - window_secs L) (d ++ e)) as Hde.
    { apply Forall_app. split; [eapply Forall_impl; [exact Hd|simpl; lia]|].
      eapply Forall_impl; [exact He|]. unfold sat_sub. simpl. lia. }
    assert (Forall (fun a => a <= u) q1) as Hq1.
    { rewrite Eq in Hq. apply Forall_app in Hq as [_ Hq]. eapply Forall_impl; [exact Hq|]. simpl. lia. }
    assert (Z.of_nat (length q1) <= max_per_window L) as Hl1.
    { rewrite Eq, length_app in Hlen. lia. }
    rewrite Eq. destruct (Z.leb_spec (max_per_window L) (Z.of_nat (length q1))) as [Hfull|Hroom].
    + apply (IH _ q1 u); try done. exists (d ++ e). by rewrite <- app_assoc.
    + rewrite app_assoc. apply (IH _ (q1 ++ [u]) u); try done.
      * exists (d ++ e). by rewrite <- !app_assoc.
      * apply Forall_app. split; [done|]. by repeat constructor.
      * rewrite length_app. simpl. lia.
Qed.

(** ** The limiter as one queue per identity *)

Definition ids_seen (b : Book (list Z)) (calls : list (NodeId * Z)) : gset bytes :=
  list_to_set (order b) ∪ list_to_set (calls.*1).

Lemma check_and_record_room L b id t :
  Limiter_wf L -> book_ok (limiter_capacity L) b ->
  (size (list_to_set (order b) ∪ {[id]} :> gset bytes) <= limiter_capacity L)%nat ->
  let r := check_queue L (default [] (entries b !! id)) t in
  exists o, check_and_record L b id t = (r.1, mkBook (<[id := r.2]> (entries b)) o)
    /\ book_ok (limiter_capacity L) (mkBook (<[id := r.2]> (entries b)) o)
    /\ list_to_set o = list_to_set (order b) ∪ {[id]} :> gset bytes.
Proof.
  intros (_ & _ & Hc) Hb Hsz r. unfold check_and_record. subst r.
  destruct (entries b !! id) as [q|] eqn:E.
  - rewrite E. cbn [default Datatypes.id]. destruct (check_queue L q t) as [ok q'] eqn:Eq.
    assert (id ∈ order b) as Hin by (apply (proj1 (proj2 Hb)); by eexists).
    exists (order b). cbn [fst snd]. split_and!; [done| |set_solver].
    destruct Hb as (H1 & H2 & H3). split_and!; try done. intros k. cbn [entries order].
    rewrite H2. destruct (decide (k = id)) as [->|]; [rewrite E, lookup_insert_eq; done|].
    by rewrite lookup_insert_ne.
  - assert (id ∉ order b) as Hn by (intros Hin; apply Hb in Hin as [? ?]; congruence).
    assert (length (order b) < limiter_capacity L)%nat as Hlt.
    { rewrite size_union in Hsz by set_solver. rewrite size_singleton in Hsz.
      rewrite size_list_to_set in Hsz by apply Hb. lia. }
    rewrite (evict_full (limiter_capacity L)); [|lia|done|done].
    rewrite (proj2 (Nat.ltb_lt _ _) Hlt). cbn [entries order default Datatypes.id].
    rewrite lookup_insert_eq. cbn [default Datatypes.id]. destruct (check_queue L [] t) as [ok q'] eqn:Eq.
    rewrite insert_insert_eq. exists (order b ++ [id]). cbn [fst snd]. split_and!; [done| |].
    + destruct b. by apply book_ok_push.
    + rewrite list_to_set_app_L. set_solver.
Qed.

Lemma admitted_isolated L b id calls :
  Limiter_wf L -> book_ok (limiter_capacity L) b ->
  (size (ids_seen b calls) <= limiter_capacity L)%nat ->
  times_of id (admitted L b calls)
  = queue_admitted L (default [] (entries b !! id)) (times_of id calls).
Proof.
  intros HL. revert b. induction calls as [|[j t] calls IH]; intros b Hb Hsz; [done|].
  destruct (check_and_record_room L b j t HL Hb) as (o & Hr & Hb' & Ho).
  { etransitivity; [|exact Hsz]. apply subseteq_size. unfold ids_seen. rewrite fmap_cons. simpl. set_solver. }
  cbn [admitted]. rewrite Hr. unfold times_of in *. rewrite List.filter_app, fmap_app.
  rewrite IH; [|done|].
  2: { etransitivity; [|exact Hsz]. apply subseteq_size. unfold ids_seen. cbn [order].
       rewrite Ho, fmap_cons. simpl. set_solver. }
  cbn [List.filter fst]. destruct (decide (j = id)) as [->|Hj].
  - rewrite bool_decide_eq_true_2 by done. rewrite fmap_cons. cbn [snd queue_admitted].
    destruct (check_queue L (default [] (entries b !! id)) t) as [ok q'] eqn:Eq. cbn [fst snd entries].
    rewrite lookup_insert_eq. cbn [default Datatypes.id].
    destruct ok; cbn [List.filter fst]; rewrite ?bool_decide_eq_true_2 by done; done.
  - rewrite bool_decide_eq_false_2 by done. cbn [entries]. rewrite lookup_insert_ne by done.
    destruct ((check_queue L _ t).1); cbn [List.filter fst];
      rewrite ?bool_decide_eq_false_2 by done; done.
Qed.

Lemma times_of_sorted id calls : Sorted Z.le (calls.*2) -> StronglySorted Z.le (times_of id calls).
Proof.
  intros H%Sorted_StronglySorted; [|intros ???; lia]. unfold times_of.
  induction calls as [|[j t] calls IH]; [constructor|]. rewrite fmap_cons in H.
  apply StronglySorted_inv in H as [Hs Ha]. cbn [List.filter fst].
  case_bool_decide; [|auto]. rewrite fmap_cons. cbn [snd]. constructor; [auto|].
  rewrite Forall_forall in *. intros x Hx. apply Ha. clear -Hx.
  induction calls as [|[k u] calls IHc]; [done|]. cbn [List.filter fst] in Hx. rewrite fmap_cons.
  case_bool_decide; [rewrite fmap_cons in Hx|]; set_solver.
Qed.

(** The canary book is a bounded FIFO cache: after any history of insertions,
    inserting makes the new answer the one that is looked up, keeps the book
    within its capacity, and leaves every other answer as it was, except that a new
    query entering a full book evicts the oldest one. *)
Theorem canary_book_fifo (capacity : nat) (b : Book bytes) (q : QueryHash) (h : bytes) :
  steps (canary_step capacity) empty_book b ->
  let b' := canary_insert capacity b q h in
  expected b' q = Some h /\ (size (entries b') <= canary_capacity capacity)%nat
  /\ forall q', q' <> q ->
       expected b' q' =
       (if bool_decide (expected b q = None) && (canary_capacity capacity <=? size (entries b))%nat
           && bool_decide (head (order b) = Some q')
        then None else expected b q').
Proof.
  intros Hst. assert (book_ok (canary_capacity capacity) b) as Hb.
  { apply (steps_invariant (canary_step capacity) (book_ok (canary_capacity capacity))) in Hst; [done| |].
    - intros s t Hs Ht. destruct Ht. by apply canary_insert_ok.
    - split_and!; [constructor| |cbn; lia]. intros k. cbn. rewrite lookup_empty.
      split; [set_solver|by intros []]. }
  intros b'. pose proof (canary_insert_ok capacity b q h Hb) as Hok. fold b' in Hok.
  pose proof (book_size _ _ Hok) as Hsz. pose proof Hok as (_ & _ & Hl). split_and!; [|lia|].
  - unfold b', canary_insert, expected. destruct (entries b !! q); cbn [entries];
      apply lookup_insert_eq.
  - intros q' Hne. subst b'. unfold expected. rewrite (book_size _ _ Hb).
    destruct (entries b !! q) as [v|] eqn:E.
    + unfold canary_insert. rewrite E. cbn [entries]. by rewrite lookup_insert_ne.
    + destruct (canary_insert_new capacity b q h Hb E) as (m & o & -> & _ & _ & _ & Hm).
      cbn [entries]. rewrite lookup_insert_ne, Hm by done.
      rewrite (bool_decide_eq_true_2 (@None bytes = None)) by done. rewrite Nat.ltb_antisym. cbn [andb].
      by destruct (canary_capacity capacity <=? length (order b))%nat.
Qed.

(** The free-job limiter enforces its quota: while no more identities are seen
    than it tracks and the clock does not go back, at any moment at or after the
    last call each identity has had at most [max_per_window] jobs admitted in the
    trailing window, whatever the other identities do. *)
Theorem rate_limit_enforced (L : RateLimiter) (calls : list (NodeId * Z)) (id : NodeId) (now : Z) :
  Limiter_wf L -> (size (ids_seen empty_book calls) <= limiter_capacity L)%nat ->
  Sorted Z.le (calls.*2) -> Forall (fun t => 0 <= t <= now) (calls.*2) ->
  Z.of_nat (count_after (now - window_secs L) (times_of id (admitted L empty_book calls)))
  <= max_per_window L.
Proof.
  intros HL Hsz Hs Hn. rewrite admitted_isolated; [|done| |done].
  2: { split_and!; [constructor| |cbn; lia]. intros k. cbn. rewrite lookup_empty.
       split; [set_solver|by intros []]. }
  apply (times_of_sorted id) in Hs.
  assert (Forall (fun t => 0 <= t <= now) (times_of id calls)) as Ht.
  { unfold times_of. rewrite Forall_forall in *. intros x Hx. apply Hn.
    apply list_elem_of_fmap in Hx as (c & -> & Hc). apply list_elem_of_In, filter_In in Hc as [Hc _].
    apply list_elem_of_fmap_2. by apply list_elem_of_In. }
  cbn [entries empty_book]. rewrite lookup_empty. cbn [default Datatypes.id].
  destruct (times_of id calls) as [|t ts] eqn:E.
  { cbn [queue_admitted]. unfold count_after. simpl. apply HL. }
  apply (queue_window L [] [] 0 (t :: ts) now HL).
  - constructor; [by apply StronglySorted_Sorted|]. constructor. apply Forall_cons in Ht as [? _]. lia.
  - apply Forall_cons in Ht as [Ht1 Ht]. constructor; [lia|]. constructor; [lia|].
    eapply Forall_impl; [exact Ht|]. simpl. lia.
  - by exists [].
  - constructor.
  - simpl. apply HL.
Qed.

(** A refused call is not recorded: the identity's queue afterwards is its
    queue with the hits that left the window removed, so repeated refused attempts
    do not push the window forward. *)
Theorem refused_call_not_recorded (L : RateLimiter) (b : Book (list Z)) (id : NodeId) (t : Z)
    (b' : Book (list Z)) :
  check_and_record L b id t = (false, b') ->
  entries b' !! id = Some (expire (window_secs L) t (default [] (entries b !! id))).
Proof.
  unfold check_and_record. destruct (entries b !! id) as [q|] eqn:E; cbn [entries].
  - rewrite E. cbn [default Datatypes.id]. unfold check_queue. destruct (_ <=? _); intros [= <-].
    cbn [entries]. apply lookup_insert_eq.
  - rewrite lookup_insert_eq. cbn [default Datatypes.id]. unfold check_queue. destruct (_ <=? _); intros [= <-].
    cbn [entries]. apply lookup_insert_eq.
Qed.

Definition book_example : Book bytes :=
  canary_insert 2 (canary_insert 2 empty_book (str "a") (str "1")) (str "b") (str "2").

Lemma canary_book_fifo_witness :
  let b' := canary_insert 2 book_example (str "c") (str "3") in
  expected b' (str "c") = Some (str "3") /\ (size (entries b') <= 2)%nat
  /\ forall q', q' <> str "c" ->
       expected b' q' =
       (if bool_decide (expected book_example (str "c") = None) && (2 <=? size (entries book_example))%nat
           && bool_decide (head (order book_example) = Some q')
        then None else expected book_example q').
Proof.
  apply (canary_book_fifo 2 book_example).
  eapply steps_snoc; [eapply steps_snoc; [apply steps_refl|]|]; constructor.
Defined.

Definition calls_example : list (NodeId * Z) :=
  [(str "x", 10); (str "y", 10); (str "x", 11); (str "x", 12); (str "y", 30)].

Lemma rate_limit_enforced_witness :
  Z.of_nat (count_after (12 - 10)
    (times_of (str "x") (admitted (new_limiter 2 10 4) empty_book (take 4 calls_example)))) <= 2.
Proof.
  apply (rate_limit_enforced (new_limiter 2 10 4) (take 4 calls_example) (str "x") 12);
    [decide_closed|vm_compute; lia| |decide_closed].
  repeat constructor; discriminate.
Defined.

Lemma refused_call_not_recorded_witness :
  entries (check_and_record (new_limiter 1 10 4)
             (check_and_record (new_limiter 1 10 4) empty_book (str "x") 10).2 (str "x") 11).2
    !! str "x" = Some [10].
Proof.
  apply (refused_call_not_recorded (new_limiter 1 10 4)
    (check_and_record (new_limiter 1 10 4) empty_book (str "x") 10).2 (str "x") 11).
  vm_compute. reflexivity.
Defined.
