(* ===== verification/Membership.v ===== *)
(** * Membership and candidate discovery
    (crates/node/src/membership.rs, discovery.rs)

    The bounded table of verified ads that gossip feeds, the label filter a
    request is routed by, and candidate sampling.  The clock and the shuffle are
    inputs; [SocketAddr] parsing is a parameter. *)

From S2P Require Import Prelude Bytes Crypto Text Proto Signing Capability Books.

(** ** Candidates and filters (discovery.rs) *)

Inductive IdProvenance := Pinned | Advertised | Tofu.
Definition is_verified (p : IdProvenance) : bool :=
  match p with Pinned | Advertised => true | Tofu => false end.

Section discovery.
Context {SocketAddr : Type} (parse_addr : bytes -> option SocketAddr).

Record Candidate := mkCandidate {
  c_node_id : option NodeId;
  c_id_provenance : IdProvenance;
  c_addr : SocketAddr;
  c_advertised_level : option AttestationLevel;
  c_advertised_networks : list bytes;
  c_advertised_groups : list bytes;
  c_advertised_region : option bytes;
}.

Definition new_candidate (node_id : option NodeId) (addr : SocketAddr) : Candidate :=
  mkCandidate node_id (match node_id with Some _ => Pinned | None => Tofu end) addr None [] [] None.

Definition advertised (c : Candidate) : Candidate :=
  mkCandidate (c_node_id c) Advertised (c_addr c) (c_advertised_level c) (c_advertised_networks c)
    (c_advertised_groups c) (c_advertised_region c).

Definition with_tofu_id (c : Candidate) (id : NodeId) : Candidate :=
  mkCandidate (Some id) Tofu (c_addr c) (c_advertised_level c) (c_advertised_networks c)
    (c_advertised_groups c) (c_advertised_region c).

Record CandidateFilter := mkFilter {
  f_data_class : DataClass;
  f_min_attestation : AttestationLevel;
  f_network : option bytes;
  f_groups : list bytes;
  f_regions : list bytes;
  f_fail_closed_labels : bool;
  f_nodes : list NodeId;
}.

Definition mem (x : bytes) (l : list bytes) : bool := bool_decide (x ∈ l).

Definition admits_nodes (f : CandidateFilter) (c : Candidate) : bool :=
  match f_nodes f with
  | [] => true
  | _ :: _ => match c_node_id c with Some id => mem id (f_nodes f) | None => false end
  end.

Definition admits_network (f : CandidateFilter) (c : Candidate) : bool :=
  match f_network f with
  | None => true
  | Some net =>
      match c_advertised_networks c with
      | [] => negb (f_fail_closed_labels f)
      | _ :: _ => mem net (c_advertised_networks c)
      end
  end.

Definition admits_groups (f : CandidateFilter) (c : Candidate) : bool :=
  match c_advertised_groups c with
  | _ :: _ => existsb (fun g => mem g (f_groups f)) (c_advertised_groups c)
  | [] => negb (f_fail_closed_labels f && match f_groups f with [] => false | _ => true end)
  end.

Definition admits_regions (f : CandidateFilter) (c : Candidate) : bool :=
  match f_regions f with
  | [] => true
  | _ :: _ => match c_advertised_region c with Some r => mem r (f_regions f) | None => false end
  end.

(** The early returns of the code, in its order. *)
Definition admits_labels (f : CandidateFilter) (c : Candidate) : bool :=
  if negb (admits_nodes f c) then false
  else if negb (admits_network f c) then false
  else if negb (admits_groups f c) then false
  else admits_regions f c.

(** [StaticDiscovery::find_candidates]; [shuffle] is the permutation the seeded
    generator yields. *)
Definition static_find_candidates (peers : list Candidate) (sample_cap : nat)
    (shuffle : list Candidate -> list Candidate) (want : nat) (f : CandidateFilter)
  : list Candidate :=
  let take_n := Nat.min want (Nat.max sample_cap 1) in
  let eligible := List.filter (admits_labels f)
    (List.filter (fun c => match c_advertised_level c with
                           | Some level => level_le (f_min_attestation f) level
                           | None => true
                           end) peers) in
  take take_n (shuffle eligible).

(** ** The membership table *)

Record Config := mkConfig {
  capacity : nat;
  required_pow_bits : Z;
  capability_ttl_secs : Z;
}.

Definition new_config (cap : nat) (bits ttl : Z) : Config := mkConfig (Nat.max cap 1) bits ttl.

Record Table := mkTable {
  ads : gmap bytes CapabilityAd;
  profiles : gmap bytes CapabilityProfile;
  t_order : list NodeId;
}.

Definition empty_table : Table := mkTable ∅ ∅ [].

Context {C : Crypto}.

(** The eviction loop of [ingest]. *)
Fixpoint evict_members (cap : nat) (a : gmap bytes CapabilityAd) (p : gmap bytes CapabilityProfile)
    (o : list NodeId) : Table :=
  match o with
  | [] => mkTable a p []
  | k :: o' => if (cap <=? length o)%nat then evict_members cap (delete k a) (delete k p) o'
               else mkTable a p o
  end.

Definition ingest (cfg : Config) (t : Table) (ad : CapabilityAd) : bool * Table :=
  if negb (verify_capability_ad ad (required_pow_bits cfg)) then (false, t)
  else
    let key := ad_node_id ad in
    let t := match ads t !! key with
             | Some _ => t
             | None =>
                 let t' := evict_members (capacity cfg) (ads t) (profiles t) (t_order t) in
                 mkTable (ads t') (profiles t') (t_order t' ++ [key])
             end in
    (true, mkTable (<[key := ad]> (ads t)) (profiles t) (t_order t)).

Definition ingest_profile (t : Table) (p : CapabilityProfile) : bool * Table :=
  if negb (verify_capability_profile p) then (false, t)
  else match ads t !! p_node_id p with
       | None => (false, t)
       | Some _ =>
           let stale := match profiles t !! p_node_id p with
                        | Some prev => p_seq p <=? p_seq prev
                        | None => false
                        end in
           if stale then (false, t)
           else (true, mkTable (ads t) (<[p_node_id p := p]> (profiles t)) (t_order t))
       end.

Definition proven_capacity (t : Table) (node : NodeId) : option CapabilityProfile := profiles t !! node.
Definition table_len (t : Table) : nat := size (ads t).

Definition fresh (cfg : Config) (ad : CapabilityAd) (now : Z) : bool :=
  sat_sub now (ad_ts ad) <=? capability_ttl_secs cfg.

Record MemberSnapshot := mkSnapshot {
  ms_node_id : NodeId; ms_addr : bytes; ms_free_mem_bytes : Z; ms_free_threads : Z; ms_max_jobs : Z;
  ms_attestation_level : AttestationLevel; ms_price : Z; ms_enabled : bool;
  ms_networks : list bytes; ms_groups : list bytes; ms_region : option bytes;
  ms_last_seen_ts : Z; ms_age_secs : Z;
}.

Definition snapshot (cfg : Config) (t : Table) (now : Z) : list MemberSnapshot :=
  (fun ad => mkSnapshot (ad_node_id ad) (ad_addr ad) (ad_free_mem_bytes ad) (ad_free_threads ad)
     (ad_max_jobs ad) (ad_attestation_level ad) (ad_price ad) (ad_enabled ad) (ad_networks ad)
     (ad_groups ad) (ad_region ad) (ad_ts ad) (sat_sub now (ad_ts ad)))
  <$> List.filter (fun ad => fresh cfg ad now) (map_to_list (ads t)).*2.

(** The candidate an ad becomes. *)
Definition candidate_of (ad : CapabilityAd) : option Candidate :=
  match parse_addr (ad_addr ad) with
  | None => None
  | Some addr =>
      Some (mkCandidate (Some (ad_node_id ad)) Advertised addr (Some (ad_attestation_level ad))
              (ad_networks ad) (ad_groups ad) (ad_region ad))
  end.

Definition eligible (cfg : Config) (t : Table) (now : Z) (f : CandidateFilter) : list Candidate :=
  List.filter (admits_labels f)
    (omap candidate_of
       (List.filter (fun ad => level_le (f_min_attestation f) (ad_attestation_level ad))
          (List.filter (fun ad => fresh cfg ad now)
             (List.filter ad_enabled (map_to_list (ads t)).*2)))).

(** [find_candidates]: [shuffle] is the permutation the generator yields. *)
Definition find_candidates (cfg : Config) (t : Table) (now : Z)
    (shuffle : list Candidate -> list Candidate) (want : nat) (f : CandidateFilter)
  : list Candidate :=
  take (Nat.min want (capacity cfg)) (shuffle (eligible cfg t now f)).

Inductive table_step (cfg : Config) : Table -> Table -> Prop :=
| step_ingest t ad : table_step cfg t (ingest cfg t ad).2
| step_profile t p : table_step cfg t (ingest_profile t p).2.
End discovery.

Section proofs.
Context {C : Crypto}.

(** The order queue and the ads form a book; ads and profiles sit under their own
    identity and have been verified; a profile only exists next to an ad. *)
Definition Table_ok (cfg : Config) (t : Table) : Prop :=
  book_ok (capacity cfg) (mkBook (ads t) (t_order t))
  /\ map_Forall (fun k ad => ad_node_id ad = k
       /\ verify_capability_ad ad (required_pow_bits cfg) = true) (ads t)
  /\ map_Forall (fun k p => p_node_id p = k /\ verify_capability_profile p = true
       /\ is_Some (ads t !! k)) (profiles t).

Lemma evict_members_spec cap a p o :
  (0 < cap)%nat -> book_ok cap (mkBook a o) ->
  evict_members cap a p o =
  if (length o <? cap)%nat then mkTable a p o
  else match o with [] => mkTable a p [] | k :: o' => mkTable (delete k a) (delete k p) o' end.
Proof using Type.
  intros Hc (_ & _ & Hl). destruct o as [|k o]; cbn [evict_members length order] in *.
  { by destruct cap. }
  destruct (Nat.ltb_spec (S (length o)) cap).
  - by rewrite (proj2 (Nat.leb_gt _ _)) by lia.
  - rewrite (proj2 (Nat.leb_le _ _)) by lia. destruct o as [|k' o']; [done|].
    cbn [evict_members length] in *. by rewrite (proj2 (Nat.leb_gt _ _)) by lia.
Qed.

Lemma ingest_ok cfg t ad :
  (0 < capacity cfg)%nat -> Table_ok cfg t -> Table_ok cfg (ingest cfg t ad).2.
Proof using Type.
  intros Hc (Hb & Ha & Hp). unfold ingest.
  destruct (verify_capability_ad ad _) eqn:Hv; cbn [negb snd]; [|done].
  destruct (ads t !! ad_node_id ad) as [old|] eqn:E.
  - split_and!; cbn [ads profiles t_order snd].
    + destruct Hb as (H1 & H2 & H3). split_and!; try done. intros k. rewrite H2. cbn [entries].
      destruct (decide (k = ad_node_id ad)) as [->|]; [|by rewrite lookup_insert_ne].
      rewrite E, lookup_insert_eq. split; by eexists.
    + by apply map_Forall_insert_2.
    + intros k p Hk. destruct (Hp k p Hk) as (? & ? & ?). split_and!; try done.
      destruct (decide (k = ad_node_id ad)) as [->|]; [by rewrite lookup_insert_eq; eexists|].
      by rewrite lookup_insert_ne.
  - assert (ad_node_id ad ∉ t_order t) as Hn.
    { intros Hin. apply Hb in Hin as [? Hs]. cbn [entries] in Hs. congruence. }
    rewrite (evict_members_spec _ _ _ _ Hc Hb).
    destruct t as [a p o]; cbn [ads profiles t_order] in *.
    destruct (Nat.ltb_spec (length o) (capacity cfg)) as [Hlt|Hge]; cbn [ads profiles t_order].
    { split_and!; cbn [ads profiles t_order].
      - apply book_ok_push; [done|lia|done].
      - by apply map_Forall_insert_2.
      - intros k q Hk. destruct (Hp k q Hk) as (? & ? & Hs). split_and!; try done.
        destruct (decide (k = ad_node_id ad)) as [->|]; [by rewrite lookup_insert_eq; eexists|].
        by rewrite lookup_insert_ne. }
    destruct o as [|k0 o]; [simpl in Hge; lia|]. pose proof Hb as (_ & _ & Hl).
    cbn [order length] in Hl. cbn [ads profiles t_order length] in *.
    apply book_ok_pop in Hb. apply not_elem_of_cons in Hn as [Hne Hn]. split_and!; cbn [ads profiles t_order].
    + apply book_ok_push; [done|lia|]. destruct Hb as (? & ? & Hlo). split_and!; try done.
      cbn [order] in *. lia.
    + apply map_Forall_insert_2; [done|]. by apply map_Forall_delete.
    + intros k q Hk. apply lookup_delete_Some in Hk as [Hk0 Hk]. destruct (Hp k q Hk) as (? & ? & Hs).
      split_and!; try done. destruct (decide (k = ad_node_id ad)) as [->|].
      * by rewrite lookup_insert_eq; eexists.
      * by rewrite lookup_insert_ne, lookup_delete_ne.
Qed.

Lemma ingest_profile_ok cfg t p : Table_ok cfg t -> Table_ok cfg (ingest_profile t p).2.
Proof using Type.
  intros (Hb & Ha & Hp). unfold ingest_profile.
  destruct (verify_capability_profile p) eqn:Hv; cbn [negb snd]; [|done].
  destruct (ads t !! p_node_id p) as [ad|] eqn:E; [|done].
  destruct (match profiles t !! p_node_id p with Some prev => _ | None => false end); [done|].
  split_and!; cbn [ads profiles t_order snd]; try done.
  apply map_Forall_insert_2; [|done]. split_and!; [done|done|]. rewrite E. by eexists.
Qed.

Lemma Table_ok_empty cfg : Table_ok cfg empty_table.
Proof using Type.
  split_and!; [|apply map_Forall_empty..]. split_and!; [constructor| |cbn; lia].
  intros k. cbn. rewrite lookup_empty. split; [set_solver|by intros []].
Qed.

Lemma reachable_table_ok cfg t :
  (0 < capacity cfg)%nat -> steps (table_step cfg) empty_table t -> Table_ok cfg t.
Proof using Type.
  intros Hc H. apply (steps_invariant (table_step cfg) (Table_ok cfg)) in H; [done| |].
  - intros s u Hs Hu. destruct Hu; [by apply ingest_ok|by apply ingest_profile_ok].
  - apply Table_ok_empty.
Qed.

(** C30: whatever gossip delivers, the table holds at most [capacity] members; every
    stored ad passed the signature, identity and proof-of-work checks and sits under
    its own identity; and a capacity profile is only kept, verified, for an identity
    with such an ad. *)
Theorem membership_invariant (cfg : Config) (t : Table) :
  (0 < capacity cfg)%nat -> steps (table_step cfg) empty_table t ->
  (table_len t <= capacity cfg)%nat
  /\ (forall k ad, ads t !! k = Some ad ->
        ad_node_id ad = k /\ verify_capability_ad ad (required_pow_bits cfg) = true)
  /\ (forall k p, proven_capacity t k = Some p ->
        p_node_id p = k /\ verify_capability_profile p = true
        /\ exists ad, ads t !! k = Some ad /\ verify_capability_ad ad (required_pow_bits cfg) = true).
Proof using Type.
  intros Hc H. pose proof (reachable_table_ok cfg t Hc H) as (Hb & Ha & Hp). split_and!.
  - unfold table_len. pose proof (book_size _ _ Hb) as Hs. cbn [entries order] in Hs. rewrite Hs. apply Hb.
  - apply Ha.
  - intros k p Hk. destruct (Hp k p Hk) as (? & ? & [ad Had]). split_and!; try done.
    exists ad. split; [done|]. by apply (Ha k ad).
Qed.

(** A stored capacity profile is never rolled back: across any single event, a
    node that keeps a profile keeps one with an equal sequence number and the same
    profile, or a strictly larger one. *)
Theorem profile_no_rollback (cfg : Config) (t t' : Table) (k : NodeId) (p p' : CapabilityProfile) :
  (0 < capacity cfg)%nat -> steps (table_step cfg) empty_table t -> table_step cfg t t' ->
  proven_capacity t k = Some p -> proven_capacity t' k = Some p' ->
  p' = p \/ p_seq p < p_seq p'.
Proof using Type.
  intros Hc Hr Hst Hp Hp'. pose proof (reachable_table_ok cfg t Hc Hr) as (Hb & _ & _).
  unfold proven_capacity in *. destruct Hst as [t ad|t q].
  - left. unfold ingest in Hp'. destruct (negb _); [cbn in Hp'; congruence|].
    destruct (ads t !! ad_node_id ad) eqn:E; cbn [snd profiles] in Hp'; [congruence|].
    rewrite (evict_members_spec _ _ _ _ Hc Hb) in Hp'.
    destruct (_ <? _)%nat; cbn [profiles] in Hp'; [congruence|].
    destruct (t_order t) as [|k0 o]; cbn [profiles] in Hp'; [congruence|].
    apply lookup_delete_Some in Hp' as [_ Hp']. congruence.
  - unfold ingest_profile in Hp'. destruct (negb _); [cbn in Hp'; left; congruence|].
    destruct (ads t !! p_node_id q); [|cbn in Hp'; left; congruence].
    destruct (decide (k = p_node_id q)) as [->|Hne].
    + rewrite Hp in Hp'. destruct (Z.leb_spec (p_seq q) (p_seq p)); cbn [snd profiles] in Hp'.
      * left; congruence.
      * rewrite lookup_insert_eq in Hp'. injection Hp' as <-. by right.
    + left. destruct (match profiles t !! p_node_id q with Some prev => _ | None => false end);
        cbn [snd profiles] in Hp'; [congruence|]. rewrite lookup_insert_ne in Hp' by done. congruence.
Qed.
End proofs.

Lemma mem_true x l : mem x l = true <-> x ∈ l.
Proof. apply bool_decide_eq_true. Qed.

Lemma length_omap_le {A B} (g : A -> option B) (l : list A) : (length (omap g l) <= length l)%nat.
Proof. induction l as [|a l IH]; csimpl; [lia|]. destruct (g a); csimpl; lia. Qed.

Section routing.
Context {SocketAddr : Type} (parse_addr : bytes -> option SocketAddr) {C : Crypto}.
Implicit Types (c : @Candidate SocketAddr) (f : CandidateFilter).

Lemma admits_labels_and f c :
  admits_labels f c = true <->
  admits_nodes f c = true /\ admits_network f c = true /\ admits_groups f c = true
  /\ admits_regions f c = true.
Proof using Type.
  unfold admits_labels. destruct (admits_nodes f c), (admits_network f c), (admits_groups f c);
    cbn [negb]; naive_solver.
Qed.

Lemma eligible_spec cfg t now f c :
  c ∈ eligible parse_addr cfg t now f <->
  exists ad, ad ∈ (map_to_list (ads t)).*2 /\ ad_enabled ad = true /\ fresh cfg ad now = true
    /\ level_le (f_min_attestation f) (ad_attestation_level ad) = true
    /\ candidate_of parse_addr ad = Some c /\ admits_labels f c = true.
Proof using Type.
  unfold eligible. rewrite list_elem_of_In, filter_In, <- list_elem_of_In.
  rewrite list_elem_of_omap. setoid_rewrite list_elem_of_In. setoid_rewrite filter_In.
  setoid_rewrite filter_In. setoid_rewrite filter_In. naive_solver.
Qed.

(** Routing is sound and bounded: every candidate [find_candidates] returns
    stands for an enabled, fresh member of the table whose ad verified, with an
    attestation level and labels the filter admits and an address that parses; at
    most [want] and at most [capacity] are returned; and when [want] covers them,
    every eligible member is returned, whatever the shuffle. *)
Theorem find_candidates_correct (cfg : Config) (t : Table) (now : Z)
    (shuffle : list (@Candidate SocketAddr) -> list (@Candidate SocketAddr))
    (want : nat) (f : CandidateFilter) :
  (0 < capacity cfg)%nat -> steps (table_step cfg) empty_table t ->
  (forall l, shuffle l ≡ₚ l) ->
  let r := find_candidates parse_addr cfg t now shuffle want f in
  (length r <= Nat.min want (capacity cfg))%nat
  /\ (forall c, c ∈ r -> exists ad,
        ads t !! ad_node_id ad = Some ad /\ c_node_id c = Some (ad_node_id ad)
        /\ c_id_provenance c = Advertised /\ parse_addr (ad_addr ad) = Some (c_addr c)
        /\ verify_capability_ad ad (required_pow_bits cfg) = true /\ ad_enabled ad = true
        /\ sat_sub now (ad_ts ad) <= capability_ttl_secs cfg
        /\ level_le (f_min_attestation f) (ad_attestation_level ad) = true
        /\ admits_labels f c = true)
  /\ ((length (eligible parse_addr cfg t now f) <= want)%nat -> r ≡ₚ eligible parse_addr cfg t now f).
Proof using Type.
  intros Hc Hr Hsh r. pose proof (reachable_table_ok cfg t Hc Hr) as (Hb & Ha & _).
  unfold r, find_candidates. split_and!.
  - rewrite length_take. lia.
  - intros c Hin. apply elem_of_take in Hin as (i & Hi & _). apply list_elem_of_lookup_2 in Hi.
    rewrite Hsh in Hi. apply eligible_spec in Hi as (ad & Had & He & Hf & Hl & Hcand & Hadm).
    apply list_elem_of_fmap in Had as ([k ad'] & E & Hk). cbn in E; subst ad'.
    apply elem_of_map_to_list in Hk. destruct (Ha k ad Hk) as [<- Hv].
    unfold candidate_of in Hcand. destruct (parse_addr (ad_addr ad)) as [addr|] eqn:Ep; [|done].
    injection Hcand as <-. exists ad. split_and!; try done. by apply Z.leb_le.
  - intros Hw. rewrite take_ge; [apply Hsh|]. rewrite (Permutation_length (Hsh _)).
    assert (length (eligible parse_addr cfg t now f) <= capacity cfg)%nat; [|lia].
    transitivity (size (ads t)).
    + unfold eligible. etransitivity; [apply filter_length_le|].
      etransitivity; [apply length_omap_le|].
      do 3 (etransitivity; [apply filter_length_le|]). by rewrite length_fmap, length_map_to_list.
    + pose proof (book_size _ _ Hb) as Hs. cbn [entries order] in Hs. rewrite Hs. apply Hb.
Qed.

(** In a private network labels fail closed: a candidate is admitted only if it
    is one of the targeted nodes (when nodes are targeted), advertises the requested
    network (when there is one), shares a group with the requester (when it claims
    groups or the candidate advertises any) and advertises an accepted region (when
    regions are constrained); and the private filter never admits a candidate the
    public one drops. *)
Theorem private_labels_fail_closed (f : CandidateFilter) c :
  f_fail_closed_labels f = true -> admits_labels f c = true ->
  (f_nodes f <> [] -> exists id, c_node_id c = Some id /\ id ∈ f_nodes f)
  /\ (forall net, f_network f = Some net -> net ∈ c_advertised_networks c)
  /\ (f_groups f <> [] \/ c_advertised_groups c <> [] ->
        exists g, g ∈ f_groups f /\ g ∈ c_advertised_groups c)
  /\ (f_regions f <> [] -> exists r, c_advertised_region c = Some r /\ r ∈ f_regions f)
  /\ admits_labels (mkFilter (f_data_class f) (f_min_attestation f) (f_network f) (f_groups f)
       (f_regions f) false (f_nodes f)) c = true.
Proof using Type.
  intros Hfc H. apply admits_labels_and in H as (Hn & Hw & Hg & Hr). split_and!.
  - intros Hne. unfold admits_nodes in Hn. destruct (f_nodes f) eqn:E; [done|].
    destruct (c_node_id c) as [id|]; [|done]. exists id. split; [done|]. by apply mem_true.
  - intros net E. unfold admits_network in Hw. rewrite E in Hw.
    destruct (c_advertised_networks c) eqn:En; [by rewrite Hfc in Hw|]. by apply mem_true.
  - intros Hor. unfold admits_groups in Hg. rewrite Hfc in Hg.
    destruct (c_advertised_groups c) as [|g0 gs] eqn:Eg.
    + destruct (f_groups f) eqn:Ef; [|done]. destruct Hor; done.
    + apply existsb_exists in Hg as (g & Hin & Hm). exists g. split; [by apply mem_true|].
      by apply list_elem_of_In.
  - intros Hne. unfold admits_regions in Hr. destruct (f_regions f) eqn:E; [done|].
    destruct (c_advertised_region c) as [r|]; [|done]. exists r. split; [done|]. by apply mem_true.
  - apply admits_labels_and. unfold admits_nodes, admits_network, admits_groups, admits_regions in *.
    cbn [f_nodes f_network f_groups f_regions f_fail_closed_labels].
    destruct (f_network f), (c_advertised_networks c), (c_advertised_groups c);
      rewrite ?Hfc in *; cbn [negb andb] in *; try done.
Qed.
End routing.

(** An ad dated in the future is fresh at every moment up to its date plus the
    time-to-live. *)
Lemma post_dated_ad_fresh cfg ad now :
  0 <= capability_ttl_secs cfg -> now <= ad_ts ad + capability_ttl_secs cfg -> fresh cfg ad now = true.
Proof. intros. apply Z.leb_le. unfold sat_sub. lia. Qed.

(** ** Witnesses *)

Definition config_example : Config := new_config 2 4 3600.
Definition profile_example : CapabilityProfile :=
  sign_capability_profile (mkProfileDraft 10 20 30 40 50 1 1 90000) (@identity_signer toy_crypto 42).
Definition profile_example2 : CapabilityProfile :=
  sign_capability_profile (mkProfileDraft 11 20 30 40 50 2 2 90001) (@identity_signer toy_crypto 42).
Definition table_example0 : Table := (@ingest toy_crypto config_example empty_table ad_example).2.
Definition table_example : Table := (@ingest_profile toy_crypto table_example0 profile_example).2.
Definition table_example2 : Table := (@ingest_profile toy_crypto table_example profile_example2).2.

Lemma table_example_reachable : steps (@table_step toy_crypto config_example) empty_table table_example.
Proof.
  apply (steps_snoc _ empty_table table_example0).
  - apply (steps_snoc _ empty_table empty_table); [apply steps_refl|].
    exact (@step_ingest toy_crypto config_example empty_table ad_example).
  - exact (@step_profile toy_crypto config_example table_example0 profile_example).
Qed.

Definition filter_example : CandidateFilter :=
  mkFilter Internal L0 (Some (str "main")) [str "prod"] [str "eu"] true [].

Lemma membership_invariant_witness :
  (table_len table_example <= 2)%nat
  /\ (forall k ad, ads table_example !! k = Some ad ->
        ad_node_id ad = k /\ @verify_capability_ad toy_crypto ad 4 = true)
  /\ (forall k p, proven_capacity table_example k = Some p ->
        p_node_id p = k /\ @verify_capability_profile toy_crypto p = true
        /\ exists ad, ads table_example !! k = Some ad
             /\ @verify_capability_ad toy_crypto ad 4 = true).
Proof.
  apply (@membership_invariant toy_crypto config_example table_example);
    [vm_compute; lia|apply table_example_reachable].
Defined.

Lemma profile_no_rollback_witness :
  profile_example2 = profile_example \/ p_seq profile_example < p_seq profile_example2.
Proof.
  apply (@profile_no_rollback toy_crypto config_example table_example table_example2
    (p_node_id profile_example)).
  - vm_compute; lia.
  - apply table_example_reachable.
  - exact (@step_profile toy_crypto config_example table_example profile_example2).
  - vm_compute. reflexivity.
  - vm_compute. reflexivity.
Defined.

Lemma find_candidates_correct_witness :
  let r := find_candidates Some config_example table_example 90010 (fun l => l) 5 filter_example in
  (length r <= 2)%nat
  /\ (forall c, c ∈ r -> exists ad,
        ads table_example !! ad_node_id ad = Some ad /\ c_node_id c = Some (ad_node_id ad)
        /\ c_id_provenance c = Advertised /\ Some (ad_addr ad) = Some (c_addr c)
        /\ @verify_capability_ad toy_crypto ad 4 = true /\ ad_enabled ad = true
        /\ sat_sub 90010 (ad_ts ad) <= 3600
        /\ level_le L0 (ad_attestation_level ad) = true
        /\ admits_labels filter_example c = true)
  /\ ((length (eligible Some config_example table_example 90010 filter_example) <= 5)%nat ->
      r ≡ₚ eligible Some config_example table_example 90010 filter_example).
Proof.
  apply (@find_candidates_correct bytes Some toy_crypto config_example table_example 90010
    (fun l => l) 5 filter_example); [vm_compute; lia|apply table_example_reachable|done].
Defined.

Definition candidate_example : @Candidate bytes :=
  mkCandidate (Some (str "b3:x")) Advertised (str "a") (Some L1) [str "main"] [str "prod"] (Some (str "eu")).

Lemma private_labels_fail_closed_witness :
  (f_nodes filter_example <> [] ->
     exists id, c_node_id candidate_example = Some id /\ id ∈ f_nodes filter_example)
  /\ (forall net, f_network filter_example = Some net -> net ∈ c_advertised_networks candidate_example)
  /\ (f_groups filter_example <> [] \/ c_advertised_groups candidate_example <> [] ->
        exists g, g ∈ f_groups filter_example /\ g ∈ c_advertised_groups candidate_example)
  /\ (f_regions filter_example <> [] ->
        exists r, c_advertised_region candidate_example = Some r /\ r ∈ f_regions filter_example)
  /\ admits_labels (mkFilter Internal L0 (Some (str "main")) [str "prod"] [str "eu"] false [])
       candidate_example = true.
Proof. apply (private_labels_fail_closed filter_example); [reflexivity|vm_compute; reflexivity]. Defined.
