(* ===== verification/Merkle.v ===== *)
(** * Receipt Merkle trees (crates/settlement/src/merkle.rs)

    Level-by-level construction with promotion of odd nodes, inclusion proofs and
    their verification.  The reference is a binary tree whose leaves are the
    values in order; the levels of the code are the hashes of levels of such
    trees, and the theorems are proved on the trees. *)

From S2P Require Import Prelude Bytes Crypto.

Definition PAIR_CELL_DESCRIPTOR : bytes := [Byte.x00; Byte.x80].
Definition LEAF_CELL_DESCRIPTOR : bytes := [Byte.x00; Byte.x40].

Abbreviation Hash32 := bytes.

Record InclusionProof := mkProof { leaf : Hash32; siblings : list (bool * Hash32) }.

Section merkle.
Context {C : Crypto}.

Definition leaf_preimage (value : Hash32) : bytes := LEAF_CELL_DESCRIPTOR ++ value.
Definition node_preimage (left right : Hash32) : bytes := PAIR_CELL_DESCRIPTOR ++ left ++ right.

Definition hash_leaf (value : Hash32) : Hash32 := sha256 (leaf_preimage value).
Definition hash_node (left right : Hash32) : Hash32 := sha256 (node_preimage left right).

(** The inner loop of [levels]: pairs are hashed, an odd last node is promoted. *)
Fixpoint pair_up {A : Type} (node : A -> A -> A) (cur : list A) : list A :=
  match cur with
  | l :: r :: cur' => node l r :: pair_up node cur'
  | _ => cur
  end.

(** The outer loop; [fuel] bounds the number of levels above [cur]. *)
Fixpoint levels_from {A : Type} (node : A -> A -> A) (fuel : nat) (cur : list A) : list (list A) :=
  match fuel with
  | O => [cur]
  | S fuel' => if (1 <? length cur)%nat then cur :: levels_from node fuel' (pair_up node cur) else [cur]
  end.

Definition levels (values : list Hash32) : option (list (list Hash32)) :=
  match values with
  | [] => None
  | _ :: _ => Some (levels_from hash_node (length values) (hash_leaf <$> values))
  end.

Definition try_merkle_root (values : list Hash32) : option Hash32 :=
  match levels values with
  | None => None
  | Some all => match last all with Some top => head top | None => None end
  end.

Definition merkle_root (values : list Hash32) : Hash32 :=
  default (le_bytes 32 0) (try_merkle_root values).

(** The loop of [build_proof] over all levels but the last. *)
Fixpoint collect_siblings (lvls : list (list Hash32)) (idx : nat) : list (bool * Hash32) :=
  match lvls with
  | [] | [_] => []
  | level :: lvls' =>
      (if Nat.even idx
       then match level !! (idx + 1)%nat with Some s => [(false, s)] | None => [] end
       else match level !! (idx - 1)%nat with Some s => [(true, s)] | None => [] end)
      ++ collect_siblings lvls' (idx / 2)
  end.

Definition build_proof (values : list Hash32) (index : nat) : option InclusionProof :=
  match values !! index with
  | None => None
  | Some v =>
      match levels values with
      | None => None
      | Some all => Some (mkProof v (collect_siblings all index))
      end
  end.

Definition fold_step (acc : Hash32) (s : bool * Hash32) : Hash32 :=
  if s.1 then hash_node s.2 acc else hash_node acc s.2.

Definition computed_root (proof : InclusionProof) : Hash32 :=
  foldl fold_step (hash_leaf (leaf proof)) (siblings proof).

Definition verify_inclusion (root : Hash32) (proof : InclusionProof) : bool :=
  bool_decide (computed_root proof = root).
End merkle.

(** ** Reference trees *)

Inductive tree := Leaf (v : Hash32) | Node (l r : tree).

Fixpoint leaves (t : tree) : list Hash32 :=
  match t with Leaf v => [v] | Node l r => leaves l ++ leaves r end.

Section trees.
Context {C : Crypto} {CL : CryptoLaws C}.

Fixpoint tree_hash (t : tree) : Hash32 :=
  match t with Leaf v => hash_leaf v | Node l r => hash_node (tree_hash l) (tree_hash r) end.

(** Everything that is hashed to hash a tree, or to check a proof. *)
Fixpoint tree_queries (t : tree) : list bytes :=
  match t with
  | Leaf v => [leaf_preimage v]
  | Node l r => node_preimage (tree_hash l) (tree_hash r) :: tree_queries l ++ tree_queries r
  end.

Fixpoint fold_queries (acc : Hash32) (ss : list (bool * Hash32)) : list bytes :=
  match ss with
  | [] => []
  | s :: ss' =>
      (if s.1 then node_preimage s.2 acc else node_preimage acc s.2)
      :: fold_queries (fold_step acc s) ss'
  end.

Definition proof_queries (p : InclusionProof) : list bytes :=
  leaf_preimage (leaf p) :: fold_queries (hash_leaf (leaf p)) (siblings p).

(** The tree the construction builds. *)
Definition merkle_tree (values : list Hash32) : option tree :=
  match last (levels_from Node (length values) (Leaf <$> values)) with
  | Some top => head top
  | None => None
  end.

Lemma pair_up_length {A} (node : A -> A -> A) cur :
  length (pair_up node cur) = ((length cur + 1) / 2)%nat.
Proof using Type.
  revert cur. fix IH 1. intros [|l [|r cur]]; [done|done|].
  cbn [pair_up length]. rewrite IH.
  replace (S (S (length cur)) + 1)%nat with (1 * 2 + (length cur + 1))%nat by lia.
  rewrite Nat.div_add_l by lia. lia.
Qed.

(** Pairing commutes with a map that respects the node function. *)
Lemma pair_up_fmap {A B} (f : A -> B) nodeA nodeB cur :
  (forall x y, f (nodeA x y) = nodeB (f x) (f y)) ->
  pair_up nodeB (f <$> cur) = f <$> pair_up nodeA cur.
Proof using Type.
  intros Hf. revert cur. fix IH 1. intros [|l [|r cur]]; [done|done|].
  rewrite !fmap_cons. cbn [pair_up]. by rewrite fmap_cons, IH, Hf.
Qed.

Lemma levels_from_fmap {A B} (f : A -> B) nodeA nodeB fuel (cur : list A) :
  (forall x y, f (nodeA x y) = nodeB (f x) (f y)) ->
  levels_from nodeB fuel (f <$> cur) = (fun l : list A => f <$> l) <$> levels_from nodeA fuel cur.
Proof using Type.
  intros Hf. revert cur. induction fuel as [|fuel IH]; intros cur; [done|].
  cbn [levels_from]. rewrite length_fmap. destruct (_ <? _)%nat; [|done].
  rewrite fmap_cons, (pair_up_fmap f nodeA nodeB), IH by done. done.
Qed.

(** With fuel for its length, a non-empty level ends in a single node. *)
Lemma levels_from_last {A} (node : A -> A -> A) fuel cur :
  (0 < length cur <= fuel)%nat -> exists x, last (levels_from node fuel cur) = Some [x].
Proof using Type.
  revert cur. induction fuel as [|fuel IH]; intros cur H; [lia|]. cbn [levels_from].
  destruct (Nat.ltb_spec 1 (length cur)) as [Hl|Hl].
  - destruct (IH (pair_up node cur)) as [x Hx].
    { rewrite pair_up_length. split.
      - apply Nat.div_str_pos. lia.
      - apply Nat.lt_succ_r. apply Nat.Div0.div_lt_upper_bound. lia. }
    exists x. rewrite last_cons, Hx. done.
  - destruct cur as [|x [|y cur]]; simpl in *; try lia. by exists x.
Qed.

Lemma pair_up_leaves cur : pair_up Node cur ≫= leaves = cur ≫= leaves.
Proof using Type.
  revert cur. fix IH 1. intros [|l [|r cur]]; [done|done|].
  cbn [pair_up mbind list_bind leaves]. rewrite IH. by rewrite <- app_assoc.
Qed.

Lemma last_level {A} (node : A -> A -> A) fuel cur x :
  last (x :: levels_from node fuel cur) = last (levels_from node fuel cur).
Proof using Type.
  destruct fuel; cbn [levels_from]; [done|]. by destruct (_ <? _)%nat.
Qed.

Lemma levels_from_leaves fuel cur top :
  last (levels_from Node fuel cur) = Some top -> top ≫= leaves = cur ≫= leaves.
Proof using Type.
  revert cur. induction fuel as [|fuel IH]; intros cur H; cbn [levels_from] in H.
  { by injection H as <-. }
  destruct (_ <? _)%nat; [|by injection H as <-].
  rewrite last_level in H. apply IH in H. by rewrite H, pair_up_leaves.
Qed.

Lemma merkle_tree_spec values :
  values <> [] -> exists t, merkle_tree values = Some t /\ leaves t = values
    /\ try_merkle_root values = Some (tree_hash t).
Proof using Type.
  intros Hne. destruct (levels_from_last Node (length values) (Leaf <$> values)) as [t Ht].
  { rewrite length_fmap. destruct values; [done|]. simpl. lia. }
  exists t. unfold merkle_tree. rewrite Ht. split_and!; [done| |].
  - apply levels_from_leaves in Ht. cbn [mbind list_bind] in Ht. rewrite app_nil_r in Ht. rewrite Ht.
    clear. induction values as [|v vs IH]; [done|]. rewrite fmap_cons. cbn [mbind list_bind leaves app].
    by rewrite <- IH at 2.
  - unfold try_merkle_root, levels. destruct values as [|v vs]; [done|].
    assert (hash_leaf <$> (v :: vs) = tree_hash <$> (Leaf <$> (v :: vs))) as ->.
    { by rewrite <- list_fmap_compose. }
    rewrite (levels_from_fmap tree_hash Node) by done. rewrite fmap_last, Ht. done.
Qed.

(** ** Completeness *)

Lemma pair_up_lookup {A} (node : A -> A -> A) (cur : list A) idx x :
  cur !! idx = Some x ->
  pair_up node cur !! (idx / 2)%nat =
  Some (if Nat.even idx
        then match cur !! (idx + 1)%nat with Some s => node x s | None => x end
        else match cur !! (idx - 1)%nat with Some s => node s x | None => x end).
Proof using Type.
  revert cur idx. fix IH 1. intros [|l [|r cur]] idx H.
  - done.
  - destruct idx as [|[|idx]]; [|done|done]. cbn in *. congruence.
  - destruct idx as [|[|idx]]; cbn [lookup list_lookup] in H.
    + injection H as ->. done.
    + injection H as ->. done.
    + replace (S (S idx) / 2)%nat with (S (idx / 2)) by
        (replace (S (S idx)) with (1 * 2 + idx)%nat by lia; rewrite Nat.div_add_l; lia).
      cbn [pair_up]. change ((node l r :: pair_up node cur) !! S (idx / 2))
        with (pair_up node cur !! (idx / 2)%nat). rewrite (IH cur idx H).
      change (Nat.even (S (S idx))) with (Nat.even idx). destruct (Nat.even idx) eqn:Ev; [done|].
      destruct idx; [done|]. replace (S (S (S idx)) - 1)%nat with (S (S (S idx - 1))) by lia. done.
Qed.

Lemma collect_siblings_root fuel cur idx x :
  (length cur <= fuel)%nat -> cur !! idx = Some x ->
  exists top, last (levels_from hash_node fuel cur) = Some top
    /\ head top = Some (foldl fold_step x (collect_siblings (levels_from hash_node fuel cur) idx)).
Proof using Type.
  revert cur idx x. induction fuel as [|fuel IH]; intros cur idx x Hf Hx.
  { apply lookup_lt_Some in Hx. lia. }
  cbn [levels_from]. destruct (Nat.ltb_spec 1 (length cur)) as [Hl|Hl].
  - pose proof (pair_up_lookup hash_node cur idx x Hx) as Hp.
    apply IH in Hp as (top & Ht & Hh).
    2: { rewrite pair_up_length. apply Nat.lt_succ_r. apply Nat.Div0.div_lt_upper_bound. lia. }
    exists top. rewrite last_level. split; [done|]. rewrite Hh. f_equal.
    assert (exists y ys, levels_from hash_node fuel (pair_up hash_node cur) = y :: ys) as (y & ys & E).
    { destruct fuel; cbn [levels_from]; [eauto|]. destruct (_ <? _)%nat; eauto. }
    cbn [collect_siblings]. rewrite E. rewrite foldl_app.
    destruct (Nat.even idx); [destruct (cur !! (idx + 1)%nat)|destruct (cur !! (idx - 1)%nat)]; done.
  - apply lookup_lt_Some in Hx as Hi. destruct cur as [|c [|d cur]]; simpl in *; try lia.
    destruct idx; [|lia]. injection Hx as ->. by exists [x].
Qed.

Lemma build_proof_verifies values idx v :
  values !! idx = Some v ->
  exists p, build_proof values idx = Some p /\ leaf p = v
    /\ Some (computed_root p) = try_merkle_root values.
Proof using Type.
  intros Hv. unfold build_proof. rewrite Hv. unfold try_merkle_root, levels.
  destruct values as [|a vs]; [done|]. eexists. split; [reflexivity|]. split; [done|].
  destruct (collect_siblings_root (length (a :: vs)) (hash_leaf <$> a :: vs) idx (hash_leaf v))
    as (top & Ht & Hh).
  { by rewrite length_fmap. }
  { by rewrite list_lookup_fmap, Hv. }
  rewrite Ht, Hh. done.
Qed.

(** ** Binding, given a hash without collisions on what is hashed *)

Lemma tree_hash_length t : length (tree_hash t) = 32%nat.
Proof using CL. destruct t; apply sha256_len. Qed.

Lemma node_preimage_inj a b a' b' :
  length a = 32%nat -> length a' = 32%nat -> node_preimage a b = node_preimage a' b' -> a = a' /\ b = b'.
Proof using Type.
  intros Ha Ha' H. unfold node_preimage in H. apply app_inv_head in H.
  apply app_inj_1 in H; [done|congruence].
Qed.

Lemma leaf_node_preimage v a b : leaf_preimage v <> node_preimage a b.
Proof using Type. unfold leaf_preimage, node_preimage. cbn [app LEAF_CELL_DESCRIPTOR PAIR_CELL_DESCRIPTOR]. congruence. Qed.

Lemma tree_hash_inj t u :
  NoCollision sha256 (tree_queries t ++ tree_queries u) -> tree_hash t = tree_hash u -> t = u.
Proof using CL.
  revert u. induction t as [v|l IHl r IHr]; intros [w|l' r'] Hn H; cbn [tree_hash tree_queries] in *.
  - assert (leaf_preimage v = leaf_preimage w) as E by (apply Hn; [left|right; left|exact H]).
    unfold leaf_preimage in E. by apply app_inv_head in E as ->.
  - assert (leaf_preimage v = node_preimage (tree_hash l') (tree_hash r')) as E
      by (apply Hn; [left|right; left|exact H]).
    by apply leaf_node_preimage in E.
  - assert (node_preimage (tree_hash l) (tree_hash r) = leaf_preimage w) as E
      by (apply Hn; [left|apply elem_of_app; right; left|exact H]).
    symmetry in E. by apply leaf_node_preimage in E.
  - assert (node_preimage (tree_hash l) (tree_hash r) = node_preimage (tree_hash l') (tree_hash r')) as E
      by (apply Hn; [left|apply elem_of_app; right; left|exact H]).
    apply node_preimage_inj in E as [El Er]; [|apply tree_hash_length..].
    f_equal; [apply IHl|apply IHr]; try done; (eapply NoCollision_sub; [|exact Hn]); set_solver.
Qed.

Inductive subtree : tree -> tree -> Prop :=
| sub_refl t : subtree t t
| sub_left s l r : subtree s l -> subtree s (Node l r)
| sub_right s l r : subtree s r -> subtree s (Node l r).

Lemma subtree_queries s t m : subtree s t -> m ∈ tree_queries s -> m ∈ tree_queries t.
Proof using CL. induction 1; cbn [tree_queries]; set_solver. Qed.

Lemma subtree_leaves s t v : subtree s t -> v ∈ leaves s -> v ∈ leaves t.
Proof using CL. induction 1; cbn [leaves]; set_solver. Qed.

Lemma subtree_trans s t u : subtree s t -> subtree t u -> subtree s u.
Proof using Type. intros H1 H2. induction H2; eauto using subtree. Qed.

(** Walking a verified proof from the root: the accumulator is always the hash of
    a subtree. *)
Lemma fold_subtree ss acc t :
  Forall (fun s => length s.2 = 32%nat) ss -> length acc = 32%nat ->
  NoCollision sha256 (fold_queries acc ss ++ tree_queries t) ->
  foldl fold_step acc ss = tree_hash t -> exists s, subtree s t /\ tree_hash s = acc.
Proof using CL.
  revert acc. induction ss as [|[b s] ss IH]; intros acc Hs Ha Hn H; cbn [foldl fold_queries] in *.
  { exists t. split; [constructor|done]. }
  apply Forall_cons in Hs as [Hs1 Hs]. cbn [snd] in Hs1.
  destruct (IH (fold_step acc (b, s))) as (u & Hu & Eu); [done| | |done|].
  { unfold fold_step. destruct b; apply sha256_len. }
  { eapply NoCollision_sub; [|exact Hn]. set_solver. }
  set (q := if b then node_preimage s acc else node_preimage acc s) in *.
  assert (fold_step acc (b, s) = sha256 q) as Eq by (unfold q; by destruct b).
  assert (forall m, m ∈ tree_queries u -> sha256 m = sha256 q -> m = q) as Hq.
  { intros m Hm. apply Hn; [|left]. apply elem_of_app. right. by eapply subtree_queries. }
  rewrite Eq in Eu. destruct u as [v|l r]; cbn [tree_hash tree_queries] in *.
  - apply (Hq (leaf_preimage v)) in Eu; [|left]. exfalso.
    unfold q in Eu. destruct b; by apply leaf_node_preimage in Eu.
  - apply (Hq (node_preimage (tree_hash l) (tree_hash r))) in Eu; [|left].
    unfold q in Eu. destruct b; apply node_preimage_inj in Eu as [E1 E2];
      try apply tree_hash_length; try done.
    + exists r. split; [|done]. eapply subtree_trans; [|exact Hu]. apply sub_right, sub_refl.
    + exists l. split; [|done]. eapply subtree_trans; [|exact Hu]. apply sub_left, sub_refl.
Qed.

Definition proof_ok (p : InclusionProof) : Prop := Forall (fun s => length s.2 = 32%nat) (siblings p).

Lemma verified_leaf root p values t :
  merkle_tree values = Some t -> leaves t = values -> root = tree_hash t ->
  proof_ok p -> NoCollision sha256 (proof_queries p ++ tree_queries t) ->
  verify_inclusion root p = true -> leaf p ∈ values.
Proof using CL.
  intros Ht Hl -> Hp Hn Hv. apply bool_decide_eq_true in Hv. unfold computed_root in Hv.
  destruct (fold_subtree (siblings p) (hash_leaf (leaf p)) t) as (s & Hs & Es); [done|apply sha256_len| |done|].
  { eapply NoCollision_sub; [|exact Hn]. unfold proof_queries. set_solver. }
  assert (s = Leaf (leaf p)) as ->.
  { apply tree_hash_inj; [|done]. eapply NoCollision_sub; [|exact Hn]. intros m Hm.
    apply elem_of_app in Hm as [Hm|Hm]; apply elem_of_app.
    - right. by eapply subtree_queries.
    - left. unfold proof_queries. cbn [tree_queries] in Hm. set_solver. }
  rewrite <- Hl. eapply subtree_leaves; [exact Hs|]. cbn. set_solver.
Qed.

(** Every leaf of an epoch has an inclusion proof, it carries the raw leaf, and
    it verifies against the epoch's root. *)
Theorem inclusion_proof_complete (values : list Hash32) (index : nat) (v : Hash32) :
  values !! index = Some v ->
  exists p, build_proof values index = Some p /\ leaf p = v
    /\ verify_inclusion (merkle_root values) p = true.
Proof using Type.
  intros Hv. destruct (build_proof_verifies values index v Hv) as (p & Hp & Hl & Hr).
  exists p. split_and!; try done. apply bool_decide_eq_true. unfold merkle_root. by rewrite <- Hr.
Qed.

(** C29: a proof that verifies against an epoch's root proves that its leaf is one of
    the epoch's values, for any proof whatever its length or directions: nothing but
    a SHA-256 collision among the messages hashed to build the tree and to check the
    proof can break it (in particular an inner node cannot pass for a leaf). *)
Theorem inclusion_proof_sound (values : list Hash32) (t : tree) (p : InclusionProof) :
  values <> [] -> merkle_tree values = Some t -> proof_ok p ->
  NoCollision sha256 (proof_queries p ++ tree_queries t) ->
  verify_inclusion (merkle_root values) p = true -> leaf p ∈ values.
Proof using CL.
  intros Hne Ht Hp Hn Hv. destruct (merkle_tree_spec values Hne) as (t' & Ht' & Hl & Hr).
  rewrite Ht' in Ht. injection Ht as ->. apply (verified_leaf (merkle_root values) p values t); try done.
  unfold merkle_root. by rewrite Hr.
Qed.

(** An anchored root commits to the whole epoch: two non-empty epochs with the
    same root have the same values in the same order and number (promotion of odd
    nodes included), unless SHA-256 collides on the messages hashed for them. *)
Theorem merkle_root_binds_epoch (xs ys : list Hash32) (tx ty : tree) :
  xs <> [] -> ys <> [] -> merkle_tree xs = Some tx -> merkle_tree ys = Some ty ->
  NoCollision sha256 (tree_queries tx ++ tree_queries ty) ->
  try_merkle_root xs = try_merkle_root ys -> xs = ys.
Proof using CL.
  intros Hx Hy Htx Hty Hn H.
  destruct (merkle_tree_spec xs Hx) as (t & Et & Lt & Rt), (merkle_tree_spec ys Hy) as (u & Eu & Lu & Ru).
  rewrite Htx in Et. rewrite Hty in Eu. injection Et as <-. injection Eu as <-.
  rewrite Rt, Ru in H. injection H as H. apply tree_hash_inj in H as ->; [|done]. congruence.
Qed.
End trees.

(** ** Witnesses: an epoch of three values, whose last is promoted *)

Definition epoch_example : list Hash32 := le_bytes 32 <$> [11; 22; 33].
Definition tree_example : tree :=
  Node (Node (Leaf (le_bytes 32 11)) (Leaf (le_bytes 32 22))) (Leaf (le_bytes 32 33)).
Definition proof_example : InclusionProof :=
  default (mkProof [] []) (@build_proof toy_crypto epoch_example 2).

Lemma inclusion_proof_complete_witness :
  exists p, @build_proof toy_crypto epoch_example 2 = Some p /\ leaf p = le_bytes 32 33
    /\ @verify_inclusion toy_crypto (@merkle_root toy_crypto epoch_example) p = true.
Proof. apply (@inclusion_proof_complete toy_crypto). reflexivity. Defined.

Lemma inclusion_proof_sound_witness : leaf proof_example ∈ epoch_example.
Proof.
  apply (@inclusion_proof_sound toy_crypto toy_laws epoch_example tree_example proof_example).
  - discriminate.
  - vm_compute. reflexivity.
  - unfold proof_ok. decide_closed.
  - decide_closed.
  - vm_compute. reflexivity.
Defined.

Lemma merkle_root_binds_epoch_witness : epoch_example = le_bytes 32 <$> [11; 22; 33].
Proof.
  apply (@merkle_root_binds_epoch toy_crypto toy_laws epoch_example (le_bytes 32 <$> [11; 22; 33])
    tree_example tree_example); [discriminate|discriminate|reflexivity|reflexivity| |reflexivity].
  decide_closed.
Defined.
