(* ===== verification/Settlement.v ===== *)
(** * Settlement types (crates/settlement/src/types.rs)

    Wallet addresses and their encodings, the escrow arithmetic, and the anchored
    job record. *)

From S2P Require Import Prelude Bytes Crypto Text Proto Merkle.

(** Nanoton, a [u128]. *)
Abbreviation Amount := Z.
Abbreviation sat_add128 := (sat_add 128).
Abbreviation sat_mul128 := (sat_mul 128).

(** ** Wallet addresses *)

Record WalletAddress := mkWallet { workchain : Z; hash : Hash32 }.
#[global] Instance WalletAddress_eq_dec : EqDecision WalletAddress.
Proof. solve_decision. Defined.

Inductive BindingError :=
| BadAddress | BadKeyOrSig | NodeIdMismatch | NodeSigInvalid | TonProofInvalid | Expired
| PayloadMismatch | DomainMismatch | ProofExpired | WalletAddressMismatch.

Definition Wallet_wf (w : WalletAddress) : Prop := in_i 32 (workchain w) /\ length (hash w) = 32%nat.
#[global] Instance Wallet_wf_dec w : Decision (Wallet_wf w).
Proof. unfold Wallet_wf. apply _. Defined.

Definition to_raw_bytes (w : WalletAddress) : bytes := be_bytes 4 (workchain w) ++ hash w.

Definition to_raw_string (w : WalletAddress) : bytes :=
  show_int (workchain w) ++ [Byte.x3a] ++ hex_encode (hash w).

Definition from_raw_str (s : bytes) : result WalletAddress BindingError :=
  match split_once Byte.x3a s with
  | None => Err BadAddress
  | Some (wc, hexpart) =>
      match parse_int 32 wc with
      | None => Err BadAddress
      | Some workchain =>
          match hex_decode hexpart with
          | None => Err BadAddress
          | Some bs => if negb (length bs =? 32)%nat then Err BadAddress
                       else Ok (mkWallet workchain bs)
          end
      end
  end.

(** One character of either base64 alphabet. *)
Definition b64_val (c : byte) : option Z :=
  let v := byte_val c in
  if (65 <=? v) && (v <=? 90) then Some (v - 65)
  else if (97 <=? v) && (v <=? 122) then Some (v - 97 + 26)
  else if (48 <=? v) && (v <=? 57) then Some (v - 48 + 52)
  else if (v =? 43) || (v =? 45) then Some 62
  else if (v =? 47) || (v =? 95) then Some 63
  else None.

(** [s.trim_end_matches('=')] *)
Fixpoint trim_padding (s : bytes) : bytes :=
  match s with
  | [] => []
  | c :: s' => match trim_padding s' with
               | [] => if decide (c = Byte.x3d) then [] else [c]
               | r => c :: r
               end
  end.

(** The decoding loop, with its [u32] bit buffer. *)
Fixpoint b64_loop (s : bytes) (buf bits : Z) : option bytes :=
  match s with
  | [] => Some []
  | c :: s' =>
      match b64_val c with
      | None => None
      | Some v =>
          let buf := Z.lor (wrap 32 (Z.shiftl buf 6)) v in
          let bits := bits + 6 in
          if 8 <=? bits
          then match b64_loop s' buf (bits - 8) with
               | None => None
               | Some out => Some (byte_of_Z (Z.shiftr buf (bits - 8)) :: out)
               end
          else b64_loop s' buf bits
      end
  end.

Definition b64_decode (s : bytes) : option bytes := b64_loop (trim_padding s) 0 0.

Definition crc16_bit (crc : Z) : Z :=
  if Z.land crc 32768 =? 0 then wrap 16 (Z.shiftl crc 1)
  else Z.lxor (wrap 16 (Z.shiftl crc 1)) 4129.

Definition crc16_byte (crc : Z) (b : byte) : Z :=
  Nat.iter 8 crc16_bit (Z.lxor crc (Z.shiftl (byte_val b) 8)).

Definition crc16_ccitt (data : bytes) : Z := foldl crc16_byte 0 data.

Definition from_base64_str (s : bytes) : result WalletAddress BindingError :=
  match b64_decode (trim s) with
  | None => Err BadAddress
  | Some bs =>
      if negb (length bs =? 36)%nat then Err BadAddress
      else if negb (crc16_ccitt (take 34 bs) =? be_val (drop 34 bs)) then Err BadAddress
      else Ok (mkWallet (to_signed 8 (byte_val (nth 1 bs Byte.x00))) (take 32 (drop 2 bs)))
  end.

Definition from_any_str (s : bytes) : result WalletAddress BindingError :=
  let t := trim s in
  if bool_decide (Byte.x3a ∈ t) then from_raw_str t else from_base64_str t.

(** ** Slashing reasons *)

Inductive SlashReason :=
| WrongResult | Cheat | Downtime | Equivocation | AnchorFault | FailedCommitment.
Definition code (r : SlashReason) : Z :=
  match r with
  | WrongResult => 1 | Cheat => 2 | Downtime => 3 | Equivocation => 4 | AnchorFault => 5
  | FailedCommitment => 6
  end.

(** ** Settlement outcomes and escrow arithmetic *)

Record Payout := mkPayout { to : WalletAddress; amount : Amount }.

Record SettlementOutcome := mkOutcome {
  result_hash : Hash32;
  base : Amount;
  winner : Payout;
  participants : list Payout;
  platform_fee : Amount;
}.

(** The sum is exact: additions are overflow-checked. *)
Definition total (o : SettlementOutcome) : Amount :=
  amount (winner o) + platform_fee o + sum_by amount (participants o).

Record EscrowHandle := mkHandle { h_job : JobId; h_address : WalletAddress; h_max_bid : Amount }.

Inductive SettleError :=
| NotFunded (job : bytes)
| PayoutExceedsEscrow (payout escrow : Amount)
| InsufficientEscrow (needed have : Amount) (runners platform_fee_bps participation_commission_bps : Z)
| HashMismatch
| TreasuryMismatch (bound expected : bytes) (params_version : Z)
| Backend (msg : bytes)
| Disabled (msg : bytes)
| TxFailed (exit_code : Z)
| TxUnconfirmed.

Inductive SlashError :=
| UnknownNode (node : bytes)
| ExceedsStake (amount slashable : Amount)
| StakeBackend (msg : bytes).

Definition BPS_DENOM : Amount := 10000.

Definition required_escrow_total (base : Amount) (agreeing_non_winners : nat)
    (platform_fee_bps participation_commission_bps : Z) : Amount :=
  let fee := sat_mul128 base platform_fee_bps / BPS_DENOM in
  let commission_each := sat_mul128 base participation_commission_bps / BPS_DENOM in
  let commissions := sat_mul128 commission_each (Z.of_nat agreeing_non_winners) in
  sat_add128 (sat_add128 base fee) commissions.

Definition ensure_escrow_covers (available base : Amount) (agreeing_non_winners : nat)
    (platform_fee_bps participation_commission_bps : Z) : result Amount SettleError :=
  let needed := required_escrow_total base agreeing_non_winners platform_fee_bps
                  participation_commission_bps in
  if available <? needed
  then Err (InsufficientEscrow needed available (Z.of_nat agreeing_non_winners) platform_fee_bps
              participation_commission_bps)
  else Ok needed.

(** ** Anchored job records *)

Record JobRecord := mkJobRecord {
  j_job_id : bytes;
  j_query_hash : bytes;
  j_requester_wallet : bytes;
  j_max_bid : Amount;
  j_result_hash : bytes;
  j_epoch : Z;
  j_prev_root : Hash32;
  j_params_version : Z;
  j_input_fingerprint : bytes;
}.

(** The [u32]-length-prefixed field of [canonical_bytes]. *)
Definition field32 (b : bytes) : bytes := le32 (wrap 32 (Z.of_nat (length b))) ++ b.

Definition record_bytes (r : JobRecord) : bytes :=
  field32 (j_job_id r) ++ field32 (j_query_hash r) ++ field32 (j_requester_wallet r)
  ++ le128 (j_max_bid r) ++ field32 (j_result_hash r) ++ le64 (j_epoch r) ++ j_prev_root r
  ++ le32 (j_params_version r) ++ field32 (j_input_fingerprint r).

Definition record_leaf {C : Crypto} (r : JobRecord) : Hash32 := blake3 (record_bytes r).

(** ** Addresses round-trip *)

Lemma show_int_no_colon w : Byte.x3a ∉ show_int w.
Proof.
  unfold show_int. destruct (Z.ltb_spec w 0).
  - apply not_elem_of_cons. split; [done|]. apply show_uint_no_sep; [lia|reflexivity].
  - apply show_uint_no_sep; [lia|reflexivity].
Qed.

Lemma from_raw_to_raw w : Wallet_wf w -> from_raw_str (to_raw_string w) = Ok w.
Proof.
  intros [Hw Hl]. unfold from_raw_str, to_raw_string.
  rewrite (proj2 (split_once_spec Byte.x3a _ (show_int (workchain w)) (hex_encode (hash w)))).
  2: { split; [done|apply show_int_no_colon]. }
  rewrite parse_int_show by (done || lia). rewrite hex_decode_encode, Hl. simpl. by destruct w.
Qed.

Lemma digit_graphic n : 0 <= n < 10 -> graphic (digit n) = true.
Proof.
  intros Hn. assert (n ∈ seqZ 0 10) as Hin by (apply elem_of_seqZ; lia).
  clear Hn. revert n Hin. apply Forall_forall. decide_closed.
Qed.

Lemma show_int_graphic w : exists a s, show_int w = a :: s /\ graphic a = true.
Proof.
  unfold show_int. destruct (Z.ltb_spec w 0); [by exists Byte.x2d, (show_uint (- w))|].
  pose proof (show_uint_nonempty w) as Hne.
  assert (Forall (fun b => graphic b = true) (show_uint w)) as Hall.
  { apply show_uint_digits; [done|]. intros d Hd. by apply digit_graphic. }
  destruct (show_uint w) as [|a s]; [done|]. apply Forall_cons in Hall as [? _]. by exists a, s.
Qed.

Lemma hex_digit_graphic n : 0 <= n < 16 -> graphic (hex_digit n) = true.
Proof.
  intros Hn. assert (n ∈ seqZ 0 16) as Hin by (apply elem_of_seqZ; lia).
  clear Hn. revert n Hin. apply Forall_forall. decide_closed.
Qed.

Lemma hex_encode_last bs : bs <> [] -> exists s b, hex_encode bs = s ++ [b] /\ graphic b = true.
Proof.
  intros Hne. destruct bs as [|x bs] using rev_ind; [done|].
  exists (hex_encode bs ++ [hex_digit (byte_val x / 16)]), (hex_digit (byte_val x mod 16)). split.
  - unfold hex_encode. rewrite fmap_app, join_app, <- app_assoc. done.
  - apply hex_digit_graphic. apply Z.mod_pos_bound. lia.
Qed.

Lemma to_raw_bytes_inj v w : Wallet_wf v -> Wallet_wf w -> to_raw_bytes v = to_raw_bytes w -> v = w.
Proof.
  intros [Hv Lv] [Hw Lw] H. unfold to_raw_bytes in H.
  apply app_inj_1 in H as [Hwc Hh]; [|by rewrite !length_be_bytes].
  assert (le_bytes 4 (workchain v) = le_bytes 4 (workchain w)) as E.
  { unfold be_bytes in Hwc. by rewrite <- (rev_involutive (le_bytes 4 (workchain v))), Hwc, rev_involutive. }
  apply (@codec_inj_nil _ _ (le_bytes 4) (le_signed_codec 4)) in E.
  - destruct v, w; simpl in *; congruence.
  - rewrite pow_256. unfold in_i in Hv. simpl in *. lia.
  - rewrite pow_256. unfold in_i in Hw. simpl in *. lia.
Qed.

(** ** Escrow arithmetic *)

Definition Bps_wf (b : Z) : Prop := in_u 16 b.

Lemma bps_share_le base bps : 0 <= base -> 0 <= bps -> sat_mul128 base bps / BPS_DENOM <= base * bps / BPS_DENOM.
Proof. intros. apply Z.div_le_mono; [done|]. unfold sat_mul. lia. Qed.

Lemma bps_share_nonneg base bps : 0 <= base -> 0 <= bps -> 0 <= sat_mul128 base bps / BPS_DENOM.
Proof. intros. apply Z.div_pos; [|done]. apply sat_mul_nonneg; lia. Qed.

Lemma bps_share_mono b b' bps :
  0 <= b <= b' -> 0 <= bps -> sat_mul128 b bps / BPS_DENOM <= sat_mul128 b' bps / BPS_DENOM.
Proof. intros. apply Z.div_le_mono; [done|]. apply sat_mul_mono; lia. Qed.

(** The requirement never exceeds the exact sum, and grows with the price and the
    number of runners. *)
Lemma required_le_exact base n fee comm :
  0 <= base -> 0 <= fee -> 0 <= comm ->
  required_escrow_total base n fee comm
  <= base + base * fee / BPS_DENOM + Z.of_nat n * (base * comm / BPS_DENOM).
Proof.
  intros. unfold required_escrow_total. pose proof (bps_share_le base fee). pose proof (bps_share_le base comm).
  set (f := sat_mul128 base fee / BPS_DENOM) in *. set (c := sat_mul128 base comm / BPS_DENOM) in *.
  unfold sat_add, sat_mul in *. nia.
Qed.

Lemma required_mono base base' n n' fee comm :
  0 <= base <= base' -> (n <= n')%nat -> 0 <= fee -> 0 <= comm ->
  required_escrow_total base n fee comm <= required_escrow_total base' n' fee comm.
Proof.
  intros. unfold required_escrow_total. apply sat_add_mono.
  - apply sat_add_mono; [lia|]. by apply bps_share_mono.
  - apply sat_mul_mono; [|lia]. split; [apply bps_share_nonneg; lia|by apply bps_share_mono].
Qed.

Lemma required_exact base n fee comm :
  0 <= base -> 0 <= fee -> 0 <= comm ->
  base * fee <= umax 128 -> base * comm <= umax 128 ->
  base + base * fee / BPS_DENOM + Z.of_nat n * (base * comm / BPS_DENOM) <= umax 128 ->
  required_escrow_total base n fee comm
  = base + base * fee / BPS_DENOM + Z.of_nat n * (base * comm / BPS_DENOM).
Proof.
  intros. unfold required_escrow_total. rewrite !(sat_mul_exact 128 base) by done.
  assert (0 <= base * fee / BPS_DENOM) by (apply Z.div_pos; [nia|done]).
  assert (0 <= base * comm / BPS_DENOM) by (apply Z.div_pos; [nia|done]).
  set (f := base * fee / BPS_DENOM) in *. set (c := base * comm / BPS_DENOM) in *.
  rewrite (Z.mul_comm (Z.of_nat n)) in *. assert (0 <= c * Z.of_nat n) by nia.
  rewrite (sat_mul_exact 128 c) by lia. rewrite (sat_add_exact 128 base f) by lia.
  rewrite sat_add_exact by lia. done.
Qed.

(** The raw textual form of a wallet address parses back to it, also through
    the entry point that accepts either form, and the raw byte form is injective. *)
Theorem wallet_address_roundtrip (w v : WalletAddress) :
  Wallet_wf w -> Wallet_wf v ->
  from_raw_str (to_raw_string w) = Ok w /\ from_any_str (to_raw_string w) = Ok w
  /\ (to_raw_bytes w = to_raw_bytes v -> w = v).
Proof.
  intros Hw Hv. split_and!; [by apply from_raw_to_raw| |by apply to_raw_bytes_inj].
  unfold from_any_str. assert (trim (to_raw_string w) = to_raw_string w) as ->.
  { destruct (show_int_graphic (workchain w)) as (a & s & Es & Ha).
    destruct (hex_encode_last (hash w)) as (t & b & Et & Hb).
    { destruct Hw as [_ Hl]. by destruct (hash w). }
    unfold to_raw_string. rewrite Es, Et.
    replace ((a :: s) ++ [Byte.x3a] ++ t ++ [b]) with (a :: (s ++ [Byte.x3a] ++ t) ++ [b])
      by (by rewrite <- !app_assoc).
    by apply trim_graphic. }
  rewrite bool_decide_eq_true_2; [by apply from_raw_to_raw|].
  unfold to_raw_string. apply elem_of_app. right. apply elem_of_app. left. by left.
Qed.

(** The coverage guard is exact: with amounts that do not saturate it accepts
    exactly when the escrow covers the winner's price, the platform fee and one
    commission per agreeing runner (all floored like the contract), and then every
    settlement of that job with at most that many participants fits the escrow. *)
Theorem escrow_coverage (available b : Amount) (n : nat) (fee comm : Z) :
  0 <= b -> 0 <= fee -> 0 <= comm -> b * fee <= umax 128 -> b * comm <= umax 128 ->
  b + b * fee / BPS_DENOM + Z.of_nat n * (b * comm / BPS_DENOM) <= umax 128 ->
  ((exists needed, ensure_escrow_covers available b n fee comm = Ok needed)
   <-> b + b * fee / BPS_DENOM + Z.of_nat n * (b * comm / BPS_DENOM) <= available)
  /\ (forall o, is_ok (ensure_escrow_covers available b n fee comm) = true ->
        amount (winner o) <= b -> platform_fee o = b * fee / BPS_DENOM ->
        (length (participants o) <= n)%nat ->
        Forall (fun p => amount p = b * comm / BPS_DENOM) (participants o) ->
        total o <= available).
Proof.
  intros Hb Hf Hc H1 H2 H3. unfold ensure_escrow_covers. rewrite required_exact by done.
  set (need := b + b * fee / BPS_DENOM + Z.of_nat n * (b * comm / BPS_DENOM)) in *.
  destruct (Z.ltb_spec available need); cbn [is_ok]; split.
  - split; [intros [? ?]; done|lia].
  - done.
  - split; [intros _; lia|by eexists].
  - intros o _ Hw Hfee Hlen Hp. unfold total. rewrite (sum_by_const amount (b * comm / BPS_DENOM)).
    2: { intros p Hin. rewrite Forall_forall in Hp. auto. }
    rewrite Hfee. assert (0 <= b * comm / BPS_DENOM) by (apply Z.div_pos; [nia|done]).
    unfold need in *. nia.
Qed.

(** ** Job records *)

Definition fits32 (b : bytes) : Prop := Z.of_nat (length b) < 2 ^ 32.
#[global] Instance fits32_dec b : Decision (fits32 b).
Proof. unfold fits32. apply _. Defined.

#[export] Instance field32_codec : Codec fits32 field32.
Proof.
  intros a b s t Ha Hb H. unfold field32, fits32 in *. rewrite <- !app_assoc in H.
  unfold wrap in H. rewrite !Z.mod_small in H by lia.
  apply (codec_peel _ (le_bytes 4)) in H as [Hl H].
  - apply app_inj_1 in H as [-> ->]; [done|lia].
  - rewrite pow_256. simpl. lia.
  - rewrite pow_256. simpl. lia.
Qed.

Definition Record_wf (r : JobRecord) : Prop :=
  fits32 (j_job_id r) /\ fits32 (j_query_hash r) /\ fits32 (j_requester_wallet r)
  /\ in_u 128 (j_max_bid r) /\ fits32 (j_result_hash r) /\ in_u 64 (j_epoch r)
  /\ length (j_prev_root r) = 32%nat /\ in_u 32 (j_params_version r)
  /\ fits32 (j_input_fingerprint r).
#[global] Instance Record_wf_dec r : Decision (Record_wf r).
Proof. unfold Record_wf. apply _. Defined.

(** The canonical bytes of a job record determine the record (fields below 4
    GiB), so its anchored leaf commits to every field, the params version and the
    input fingerprint included, unless BLAKE3 collides on the two records. *)
Theorem job_record_leaf_binds {C : Crypto} (r s : JobRecord) :
  Record_wf r -> Record_wf s -> NoCollision blake3 [record_bytes r; record_bytes s] ->
  record_leaf r = record_leaf s -> r = s.
Proof.
  intros Hr Hs Hn H. apply Hn in H; [|set_solver..].
  unfold Record_wf in *. destruct_and!. unfold record_bytes in H.
  do 3 (apply (codec_peel fits32 field32) in H as [? H]; [|done..]).
  peel_le 16%nat H by solve_range.
  apply (codec_peel fits32 field32) in H as [? H]; [|done..].
  peel_le 8%nat H by solve_range. peel_raw 32%nat H by done. peel_le 4%nat H by solve_range.
  apply (codec_inj_nil fits32 field32) in H; [|done..].
  destruct r, s; simpl in *; congruence.
Qed.

Lemma wallet_address_roundtrip_witness :
  let w := mkWallet (-1) (le_bytes 32 77) in
  from_raw_str (to_raw_string w) = Ok w /\ from_any_str (to_raw_string w) = Ok w
  /\ (to_raw_bytes w = to_raw_bytes w -> w = w).
Proof. apply wallet_address_roundtrip; decide_closed. Defined.

Lemma escrow_coverage_witness :
  ((exists needed, ensure_escrow_covers 1200 1000 2 1500 500 = Ok needed)
   <-> 1000 + 1000 * 1500 / BPS_DENOM + Z.of_nat 2 * (1000 * 500 / BPS_DENOM) <= 1200)
  /\ (forall o, is_ok (ensure_escrow_covers 1200 1000 2 1500 500) = true ->
        amount (winner o) <= 1000 -> platform_fee o = 1000 * 1500 / BPS_DENOM ->
        (length (participants o) <= 2)%nat ->
        Forall (fun p => amount p = 1000 * 500 / BPS_DENOM) (participants o) -> total o <= 1200).
Proof. apply escrow_coverage; vm_compute; discriminate. Defined.

Definition record_example : JobRecord :=
  mkJobRecord (str "job-1") (str "qh") (str "0:ab") 1000 (str "rh") 0 (le_bytes 32 0) 3 (str "fp").

Lemma job_record_leaf_binds_witness : record_example = record_example.
Proof.
  apply (@job_record_leaf_binds toy_crypto); [decide_closed|decide_closed|decide_closed|reflexivity].
Defined.
