(* ===== verification/Escrow.v ===== *)
(** * Escrow rails, stake, anchoring and the paid-job settlement
    (crates/settlement/src/traits.rs, mock.rs, noop.rs, engagement.rs;
     crates/node/src/coordinator.rs: metered pricing and [settle_paid_job])

    The traits are records of operations on an explicit state; what the
    coordinator relies on is the class [RailLaws].  The coordinator's theorems are
    proved against the interface; the in-memory and no-op rails discharge it here,
    the TON rail in [TonRail]. *)

From S2P Require Import Prelude Bytes F64 Crypto Text Proto Merkle Settlement.

(** ** Interfaces (traits.rs) *)

(** The terms bound into a per-job escrow. *)
Record EscrowTerms := mkTerms {
  expected_hash : Hash32;
  params_version : Z;
  candidates : list WalletAddress;
  fee_recipient : option WalletAddress;
  terms_fee_bps : option Z;
  terms_comm_bps : option Z;
}.

Record Settlement (S : Type) := mkRail {
  open_escrow : S -> JobId -> Amount -> result EscrowHandle SettleError * S;
  open_escrow_with_terms : S -> JobId -> Amount -> EscrowTerms -> result EscrowHandle SettleError * S;
  settle : S -> EscrowHandle -> SettlementOutcome -> result unit SettleError * S;
  refund : S -> EscrowHandle -> result unit SettleError * S;
  is_onchain : bool;
}.
Arguments open_escrow {S}. Arguments open_escrow_with_terms {S}.
Arguments settle {S}. Arguments refund {S}. Arguments is_onchain {S}.

(** A refusal because of the amounts. *)
Definition size_refusal (e : SettleError) : bool :=
  match e with PayoutExceedsEscrow _ _ | InsufficientEscrow _ _ _ _ _ => true | _ => false end.

(** What the coordinator relies on: an opened escrow locks the requested amount,
    and settling refuses no outcome for its size that fits what is locked.  It may
    still fail in the backend. *)
Class RailLaws {S : Type} (R : Settlement S) : Prop := {
  open_locks s job b t h s' :
    open_escrow_with_terms R s job b t = (Ok h, s') -> h_max_bid h = b /\ h_job h = job;
  settle_fits s h o e : total o <= h_max_bid h -> (settle R s h o).1 = Err e -> size_refusal e = false;
}.

(** A rail without a backend that can fail. *)
Class ReliableRail {S : Type} (R : Settlement S) : Prop :=
  settle_pays s h o : total o <= h_max_bid h -> (settle R s h o).1 = Ok tt.

(** The trait's default: the terms are ignored. *)
Definition default_with_terms {S} (open : S -> JobId -> Amount -> result EscrowHandle SettleError * S)
    (s : S) (job : JobId) (b : Amount) (_ : EscrowTerms) := open s job b.

(** ** The in-memory rail (mock.rs) *)

Inductive SettlementEvent :=
| Opened (job : JobId) (max_bid : Amount)
| Settled (job : JobId) (total : Amount)
| Refunded (job : JobId).

Section mock.
Context {C : Crypto}.

Definition escrow_address_for (job : JobId) : WalletAddress := mkWallet 0 (blake3 job).

Definition mock_open (s : list SettlementEvent) (job : JobId) (b : Amount)
  : result EscrowHandle SettleError * list SettlementEvent :=
  (Ok (mkHandle job (escrow_address_for job) b), s ++ [Opened job b]).

Definition mock_settle (s : list SettlementEvent) (h : EscrowHandle) (o : SettlementOutcome)
  : result unit SettleError * list SettlementEvent :=
  if h_max_bid h <? total o then (Err (PayoutExceedsEscrow (total o) (h_max_bid h)), s)
  else (Ok tt, s ++ [Settled (h_job h) (total o)]).

Definition mock_refund (s : list SettlementEvent) (h : EscrowHandle)
  : result unit SettleError * list SettlementEvent := (Ok tt, s ++ [Refunded (h_job h)]).

Definition MockSettlement : Settlement (list SettlementEvent) :=
  mkRail _ mock_open (default_with_terms mock_open) mock_settle mock_refund true.

#[export] Instance mock_reliable : ReliableRail MockSettlement.
Proof. intros s h o Ht. cbn. unfold mock_settle. by rewrite (proj2 (Z.ltb_ge _ _) Ht). Qed.
#[export] Instance mock_laws : RailLaws MockSettlement.
Proof.
  split.
  - intros s job b t h s'. cbn. by intros [= <- <-].
  - intros s h o e Ht. by rewrite mock_reliable.
Qed.
End mock.

(** ** The no-op rail (noop.rs) *)

Definition noop_open (s : unit) (job : JobId) (b : Amount) : result EscrowHandle SettleError * unit :=
  (Ok (mkHandle job (mkWallet 0 (le_bytes 32 0)) b), s).

Definition NoopSettlement : Settlement unit :=
  mkRail _ noop_open (default_with_terms noop_open) (fun s _ _ => (Ok tt, s)) (fun s _ => (Ok tt, s)) false.

#[export] Instance noop_reliable : ReliableRail NoopSettlement.
Proof. done. Qed.
#[export] Instance noop_laws : RailLaws NoopSettlement.
Proof. split; [|done]. intros s job b t h s'. cbn. by intros [= <- <-]. Qed.

(** ** Per-job engagement (engagement.rs) *)

Inductive PaymentMode := Free | Paid.
Definition is_free (m : PaymentMode) : bool := match m with Free => true | Paid => false end.

Definition settle_if_paid {S} (R : Settlement S) (mode : PaymentMode) (s : S) (job : JobId)
    (max_bid : Amount) (o : SettlementOutcome) : result bool SettleError * S :=
  if is_free mode then (Ok false, s)
  else match open_escrow R s job max_bid with
       | (Err e, s1) => (Err e, s1)
       | (Ok h, s1) =>
           match settle R s1 h o with
           | (Err e, s2) => (Err e, s2)
           | (Ok _, s2) => (Ok true, s2)
           end
       end.

(** ** Stake (mock.rs [InMemoryStakeRegistry]) *)

Record StakeEntry := mkStake { staked : Amount; unbonding : Amount }.

Record StakeConfig := mkStakeConfig { min_public : Amount; min_internal : Amount; min_sensitive : Amount }.

Abbreviation registry := (gmap bytes StakeEntry).

Definition set_stake (g : registry) (node : NodeId) (a : Amount) : registry :=
  <[node := mkStake a (unbonding (default (mkStake 0 0) (g !! node)))]> g.

Definition stake_of (g : registry) (node : NodeId) : Amount :=
  match g !! node with Some e => staked e | None => 0 end.

Definition min_for (cfg : StakeConfig) (c : DataClass) : Amount :=
  match c with Public => min_public cfg | Internal => min_internal cfg | Sensitive => min_sensitive cfg end.

Definition is_eligible (cfg : StakeConfig) (g : registry) (node : NodeId) (c : DataClass) : bool :=
  min_for cfg c <=? stake_of g node.

Definition slash (g : registry) (node : NodeId) (_ : SlashReason) (a : Amount)
  : result unit SlashError * registry :=
  match g !! node with
  | None => (Err (UnknownNode node), g)
  | Some e =>
      let slashable := staked e + unbonding e in
      if slashable <? a then (Err (ExceedsStake a slashable), g)
      else
        let from_staked := Z.min a (staked e) in
        (Ok tt, <[node := mkStake (staked e - from_staked) (unbonding e - (a - from_staked))]> g)
  end.

Definition request_unbond (g : registry) (node : NodeId) (a : Amount)
  : result unit SlashError * registry :=
  match g !! node with
  | None => (Err (UnknownNode node), g)
  | Some e =>
      if staked e <? a then (Err (ExceedsStake a (staked e)), g)
      else (Ok tt, <[node := mkStake (staked e - a) (unbonding e + a)]> g)
  end.

(** ** Record anchoring (mock.rs [InMemoryRecordAnchor]) *)

Abbreviation anchor_state := (list (JobId * Hash32)).

Section anchor.
Context {C : Crypto}.

Definition append (st : anchor_state) (r : JobRecord) : anchor_state :=
  st ++ [(j_job_id r, record_leaf r)].

Definition epoch_root (st : anchor_state) : Hash32 := merkle_root (st.*2).

(** [iter().position(|(j, _)| j == job)] *)
Fixpoint position (st : anchor_state) (job : JobId) : option nat :=
  match st with
  | [] => None
  | (j, _) :: st' => if decide (j = job) then Some 0%nat
                     else match position st' job with Some i => Some (S i) | None => None end
  end.

Definition prove_inclusion (st : anchor_state) (job : JobId) : option InclusionProof :=
  match position st job with
  | None => None
  | Some idx => build_proof (st.*2) idx
  end.
End anchor.

(** ** Metered pricing (coordinator.rs) *)

Definition GIB_BYTES : Amount := 1024 * 1024 * 1024.

(** The pricing fields of a [Bid]. *)
Record BidPrice := mkBidPrice {
  bid_price : Z; bid_rate_per_second : Z; bid_rate_per_gb : Z; bid_cap_seconds : Z;
}.

Record MeteredTerms := mkMetered { rate_per_second : Amount; rate_per_gb : Amount; cap_seconds : Z }.

Definition from_bid (b : BidPrice) : option MeteredTerms :=
  if bid_rate_per_second b =? 0 then None
  else Some (mkMetered (bid_rate_per_second b) (bid_rate_per_gb b) (Z.max (bid_cap_seconds b) 1)).

Definition bytes_term (t : MeteredTerms) (n : Z) : Amount := sat_mul128 (rate_per_gb t) n / GIB_BYTES.

Definition cap_base (t : MeteredTerms) (n : Z) : Amount :=
  sat_add128 (sat_mul128 (rate_per_second t) (cap_seconds t)) (bytes_term t n).

Definition base_for (t : MeteredTerms) (billed_seconds n : Z) : Amount :=
  let secs := Z.min billed_seconds (cap_seconds t) in
  sat_add128 (sat_mul128 (rate_per_second t) secs) (bytes_term t n).

Record MeteredSettle := mkMeteredSettle { ms_terms : MeteredTerms; ms_billed_seconds : Z; ms_bytes : Z }.

Definition bid_price_signal (b : BidPrice) : Z :=
  if 0 <? bid_rate_per_second b then bid_rate_per_second b else bid_price b.

Definition median_ms (latencies : list Z) : Z :=
  match latencies with
  | [] => 0
  | _ :: _ =>
      let v := isort Z.leb latencies in
      let n := length v in
      if Nat.odd n then nth (n / 2) v 0
      else (nth (n / 2 - 1) v 0 + nth (n / 2) v 0) / 2
  end.

Definition ceil_secs (ms : Z) : Z := div_ceil ms 1000.

Definition metered_billed_seconds (winner_ms : Z) (agreeing_ms : list Z) (tolerance : f64) : Z :=
  let winner_secs := ceil_secs winner_ms in
  let median := median_ms agreeing_ms in
  if median =? 0 then winner_secs
  else
    let median_cap_secs :=
      ceil_secs (as_uint 64 (fceil (fmul (f64_of_Z median) (fmax tolerance (f64_of_Z 1))))) in
    Z.min winner_secs median_cap_secs.

(** ** Settling a paid job (coordinator.rs [settle_paid_job]) *)

Record PayConfig := mkPayConfig {
  economics_enabled : bool;
  platform_fee_pct : f64;
  participation_commission_frac : f64;
  cfg_max_bid : Z;                        (* whole TON *)
  local_fee_recipient : option bytes;
}.

(** What the coordinator has been wired with. *)
Record Wiring := mkWiring {
  current_params_version : Z;
  current_fee_recipient : option WalletAddress;
  wallet_binding : option (NodeId -> option WalletAddress);
  wallet_resolver : option (NodeId -> WalletAddress);
  has_settlement : bool;                  (* self.settlement is Some *)
  has_anchor : bool;                      (* self.record_anchor is Some *)
}.

(** [to_bps] *)
Definition to_bps (frac : f64) : Amount :=
  as_uint 128 (fclamp (fround (fmul frac (f64_of_Z 10000))) (f64_of_Z 0) (f64_of_Z 65535)).

Definition escrow_bid_nanoton (cfg : PayConfig) : Amount := Z.max (cfg_max_bid cfg) 1 * 1000000000.

(** How the function ends: it returns unit, the reasons it stops go to the log. *)
Inductive exit :=
| NotPaid
| NoRail
| RecipientRefused
| OpenFailed (e : SettleError)
| CoverageFailed (e : SettleError)
| SettleFailed (o : SettlementOutcome) (e : SettleError)
| Done (h : EscrowHandle) (o : SettlementOutcome).

Section settle.
Context {C : Crypto} {S : Type} (R : Settlement S).

Definition wallet_of (w : Wiring) (node : NodeId) : WalletAddress :=
  let fallback := match wallet_resolver w with
                  | Some r => r node
                  | None => mkWallet 0 (blake3 node)
                  end in
  match wallet_binding w with
  | Some b => match b node with Some a => a | None => fallback end
  | None => fallback
  end.

Definition payout_wallet_of (w : Wiring) (node : NodeId) : option WalletAddress :=
  match wallet_binding w with
  | Some b => b node
  | None => Some (wallet_of w node)
  end.

(** The fee-recipient gate: [true] when the function returns early. *)
Definition recipient_refused (w : Wiring) (cfg : PayConfig) : bool :=
  match current_fee_recipient w with
  | None => false
  | Some chain =>
      match local_fee_recipient cfg with
      | None => false
      | Some s =>
          match trim s with
          | [] => false
          | _ :: _ =>
              match from_any_str s with
              | Ok local => negb (bool_decide (local = chain))
              | Err _ => true
              end
          end
      end
  end.

(** [candidate_wallets]: the winner, then each new wallet of the others. *)
Definition candidate_wallets (w : Wiring) (winner : NodeId) (others : list NodeId) : list WalletAddress :=
  foldl (fun acc n => if bool_decide (wallet_of w n ∈ acc) then acc else acc ++ [wallet_of w n])
    [wallet_of w winner] others.

(** The amount locked. *)
Definition escrow_size (cfg : PayConfig) (others : list NodeId) (metered : option MeteredSettle) : Amount :=
  match metered with
  | Some m =>
      required_escrow_total (cap_base (ms_terms m) (ms_bytes m)) (length others)
        (wrap 16 (to_bps (platform_fee_pct cfg))) (wrap 16 (to_bps (participation_commission_frac cfg)))
  | None => escrow_bid_nanoton cfg
  end.

(** The winner's price within the escrow [b]. *)
Definition settled_base (cfg : PayConfig) (others : list NodeId) (metered : option MeteredSettle)
    (b : Amount) : Amount :=
  match metered with
  | Some m => Z.min (base_for (ms_terms m) (ms_billed_seconds m) (ms_bytes m)) b
  | None =>
      let denom := sat_add128 (sat_add128 BPS_DENOM (to_bps (platform_fee_pct cfg)))
        (sat_mul128 (Z.of_nat (length others)) (to_bps (participation_commission_frac cfg))) in
      sat_mul128 b BPS_DENOM / denom
  end.

Definition job_outcome (w : Wiring) (cfg : PayConfig) (winner_id : NodeId) (others : list NodeId)
    (result_hash : Hash32) (bs : Amount) : SettlementOutcome :=
  let fee := sat_mul128 bs (to_bps (platform_fee_pct cfg)) / BPS_DENOM in
  let commission_each := sat_mul128 bs (to_bps (participation_commission_frac cfg)) / BPS_DENOM in
  let participants :=
    (fun node => mkPayout (wallet_of w node) commission_each)
    <$> List.filter (fun node => bool_decide (is_Some (payout_wallet_of w node))) others in
  let winner_amount := match payout_wallet_of w winner_id with Some _ => bs | None => 0 end in
  mkOutcome result_hash bs (mkPayout (wallet_of w winner_id) winner_amount) participants fee.

Definition settle_paid_job (w : Wiring) (cfg : PayConfig) (paid : bool) (job : JobId)
    (winner_id : NodeId) (others : list NodeId) (agreed_hash query_hash : bytes) (requester : NodeId)
    (input_fingerprint : bytes) (metered : option MeteredSettle) (s : S) (a : anchor_state)
  : exit * S * anchor_state :=
  if negb (paid && economics_enabled cfg) then (NotPaid, s, a)
  else if negb (has_settlement w) then (NoRail, s, a)
  else
    let rh := blake3 agreed_hash in
    let version := current_params_version w in
    let max_bid := escrow_size cfg others metered in
    if recipient_refused w cfg then (RecipientRefused, s, a)
    else
      let terms := mkTerms rh version (candidate_wallets w winner_id others) (current_fee_recipient w)
        (Some (wrap 16 (to_bps (platform_fee_pct cfg))))
        (Some (wrap 16 (to_bps (participation_commission_frac cfg)))) in
      match open_escrow_with_terms R s job max_bid terms with
      | (Err e, s1) => (OpenFailed e, s1, a)
      | (Ok h, s1) =>
          let b := h_max_bid h in
          let bs := settled_base cfg others metered b in
          let o := job_outcome w cfg winner_id others rh bs in
          match ensure_escrow_covers b bs (length (participants o))
                  (wrap 16 (to_bps (platform_fee_pct cfg)))
                  (wrap 16 (to_bps (participation_commission_frac cfg))) with
          | Err e => (CoverageFailed e, s1, a)
          | Ok _ =>
              match settle R s1 h o with
              | (Err e, s2) => (SettleFailed o e, s2, a)
              | (Ok _, s2) =>
                  (Done h o, s2,
                   if has_anchor w
                   then append a (mkJobRecord job query_hash (to_raw_string (wallet_of w requester)) b
                          agreed_hash 0 (le_bytes 32 0) version input_fingerprint)
                   else a)
              end
          end
      end.
End settle.

(** ** The split fits the escrow *)

Definition Cfg_wf (cfg : PayConfig) : Prop :=
  in_u 16 (to_bps (platform_fee_pct cfg)) /\ in_u 16 (to_bps (participation_commission_frac cfg)).

Lemma wrap_small w z : in_u w z -> wrap w z = z.
Proof. intros H. by apply Z.mod_small. Qed.

Lemma base_for_le_cap t secs n :
  0 <= rate_per_second t -> 0 <= secs -> 0 <= cap_seconds t -> base_for t secs n <= cap_base t n.
Proof.
  intros. unfold base_for, cap_base. apply sat_add_mono; [|lia]. apply sat_mul_mono; lia.
Qed.

Lemma base_for_nonneg t secs n :
  0 <= rate_per_second t -> 0 <= rate_per_gb t -> 0 <= secs -> 0 <= cap_seconds t -> 0 <= n ->
  0 <= base_for t secs n.
Proof.
  intros. apply sat_add_nonneg; [done|apply sat_mul_nonneg; lia|].
  apply Z.div_pos; [apply sat_mul_nonneg; lia|done].
Qed.

(** Price, platform fee and one commission per runner, floored like the contract. *)
Definition split_need (bs fee comm n : Z) : Z :=
  bs + bs * fee / BPS_DENOM + n * (bs * comm / BPS_DENOM).

Lemma split_need_mono bs bs' fee comm n :
  0 <= bs <= bs' -> 0 <= fee -> 0 <= comm -> 0 <= n -> split_need bs fee comm n <= split_need bs' fee comm n.
Proof.
  intros. unfold split_need.
  assert (bs * fee / BPS_DENOM <= bs' * fee / BPS_DENOM) by (apply Z.div_le_mono; [done|nia]).
  assert (bs * comm / BPS_DENOM <= bs' * comm / BPS_DENOM) by (apply Z.div_le_mono; [done|nia]). nia.
Qed.

Lemma metered_base_fits x cb fee comm n :
  0 <= x <= cb -> cb <= 2 ^ 80 -> in_u 16 fee -> in_u 16 comm -> Z.of_nat n < 2 ^ 20 ->
  0 <= Z.min x (required_escrow_total cb n fee comm)
  /\ split_need (Z.min x (required_escrow_total cb n fee comm)) fee comm (Z.of_nat n)
     <= required_escrow_total cb n fee comm.
Proof.
  intros Hx Hcb [Hf1 Hf2] [Hc1 Hc2] Hn.
  change (2 ^ 16) with 65536 in *. change (2 ^ 20) with 1048576 in *.
  change (2 ^ 80) with 1208925819614629174706176 in *.
  assert (0 <= cb * fee <= 1208925819614629174706176 * 65536) as Hcf by nia.
  assert (0 <= cb * comm <= 1208925819614629174706176 * 65536) as Hcc by nia.
  assert (0 <= cb * fee / BPS_DENOM <= cb * fee) as Hdf
    by (split; [apply Z.div_pos; [lia|done]|apply Z.div_le_upper_bound; unfold BPS_DENOM; lia]).
  assert (0 <= cb * comm / BPS_DENOM <= cb * comm) as Hdc
    by (split; [apply Z.div_pos; [lia|done]|apply Z.div_le_upper_bound; unfold BPS_DENOM; lia]).
  assert (0 <= Z.of_nat n * (cb * comm / BPS_DENOM)
    <= 1048576 * (1208925819614629174706176 * 65536)) as Hnc by nia.
  assert (required_escrow_total cb n fee comm = split_need cb fee comm (Z.of_nat n)) as ->.
  { unfold split_need.
    apply required_exact; change (umax 128) with 340282366920938463463374607431768211455; lia. }
  assert (cb <= split_need cb fee comm (Z.of_nat n)) by (unfold split_need; lia).
  split; [lia|]. rewrite Z.min_l by lia. apply split_need_mono; lia.
Qed.

(** [base * (1 + fee + n * comm) <= B] in integer arithmetic. *)
Lemma derived_base_fits b fee comm n :
  0 <= b -> 0 <= fee -> 0 <= comm -> 0 <= n ->
  let denom := sat_add128 (sat_add128 BPS_DENOM fee) (sat_mul128 n comm) in
  BPS_DENOM + fee + n * comm <= umax 128 ->
  let bs := sat_mul128 b BPS_DENOM / denom in
  0 <= bs /\ split_need bs fee comm n <= b.
Proof.
  intros Hb Hf Hc Hn denom Hd bs.
  assert (denom = BPS_DENOM + fee + n * comm) as Ed.
  { unfold denom. rewrite (sat_mul_exact 128 n) by (unfold BPS_DENOM in *; lia).
    rewrite (sat_add_exact 128 BPS_DENOM fee) by nia. apply sat_add_exact. lia. }
  assert (0 < denom) by (rewrite Ed; unfold BPS_DENOM; nia).
  assert (0 <= bs) as Hbs by (apply Z.div_pos; [apply sat_mul_nonneg; unfold BPS_DENOM; lia|lia]).
  split; [done|]. unfold split_need.
  assert (bs * denom <= b * BPS_DENOM) as Hmul.
  { transitivity (sat_mul128 b BPS_DENOM); [|unfold sat_mul; lia].
    rewrite Z.mul_comm. by apply Z.mul_div_le. }
  rewrite Ed in Hmul.
  pose proof (Z.mul_div_le (bs * fee) BPS_DENOM ltac:(done)) as H1.
  pose proof (Z.mul_div_le (bs * comm) BPS_DENOM ltac:(done)) as H2.
  set (x := bs * fee / BPS_DENOM) in *. set (y := bs * comm / BPS_DENOM) in *.
  assert (BPS_DENOM * (bs + x + n * y) <= BPS_DENOM * b); [|unfold BPS_DENOM in *; lia].
  assert (n * (BPS_DENOM * y) <= n * (bs * comm)) by nia. nia.
Qed.

(** Metered terms within a range no supply reaches (2^80 nanoton is 10^15 TON). *)
Definition Metered_wf (m : option MeteredSettle) : Prop :=
  match m with
  | None => True
  | Some m => 0 <= rate_per_second (ms_terms m) /\ 0 <= rate_per_gb (ms_terms m)
      /\ 0 <= cap_seconds (ms_terms m) /\ 0 <= ms_billed_seconds m /\ 0 <= ms_bytes m
      /\ cap_base (ms_terms m) (ms_bytes m) <= 2 ^ 80
  end.

Section settle_proofs.
Context {C : Crypto} {S : Type} (R : Settlement S) {RL : RailLaws R}.

Lemma job_outcome_total w cfg win others rh bs :
  Cfg_wf cfg -> 0 <= bs ->
  total (job_outcome w cfg win others rh bs)
  <= split_need bs (to_bps (platform_fee_pct cfg)) (to_bps (participation_commission_frac cfg))
       (Z.of_nat (length others)).
Proof using Type.
  intros [[Hf _] [Hc _]] Hb. unfold total, job_outcome, split_need. cbn [winner participants platform_fee amount].
  set (c := sat_mul128 bs (to_bps (participation_commission_frac cfg)) / BPS_DENOM).
  rewrite (sum_by_const amount c).
  2: { intros p Hp. apply list_elem_of_fmap in Hp as (n & -> & _). done. }
  rewrite length_fmap.
  pose proof (bps_share_le bs (to_bps (platform_fee_pct cfg)) Hb Hf).
  pose proof (bps_share_le bs (to_bps (participation_commission_frac cfg)) Hb Hc).
  pose proof (bps_share_nonneg bs (to_bps (participation_commission_frac cfg)) Hb Hc).
  pose proof (filter_length_le (fun node => bool_decide (is_Some (payout_wallet_of w node))) others).
  fold c in H0, H1.
  assert ((match payout_wallet_of w win with Some _ => bs | None => 0 end) <= bs) by (destruct (payout_wallet_of w win); lia).
  set (k := length (List.filter _ others)) in *.
  set (e := bs * to_bps (participation_commission_frac cfg) / BPS_DENOM) in *.
  assert (c * Z.of_nat k <= Z.of_nat (length others) * e) by nia. lia.
Qed.

(** The price the code settles at leaves room for the whole split. *)
Lemma settled_base_fits cfg others m :
  Cfg_wf cfg -> Metered_wf m -> Z.of_nat (length others) < 2 ^ 20 ->
  0 <= settled_base cfg others m (escrow_size cfg others m)
  /\ split_need (settled_base cfg others m (escrow_size cfg others m))
       (to_bps (platform_fee_pct cfg)) (to_bps (participation_commission_frac cfg))
       (Z.of_nat (length others)) <= escrow_size cfg others m.
Proof using Type.
  intros [Hf Hc] Hm Hn. destruct m as [m|]; cbn [settled_base escrow_size].
  - destruct Hm as (H1 & H2 & H3 & H4 & H5 & H6). rewrite !wrap_small by done.
    pose proof (base_for_nonneg (ms_terms m) (ms_billed_seconds m) (ms_bytes m) H1 H2 H4 H3 H5) as Hb0.
    pose proof (base_for_le_cap (ms_terms m) (ms_billed_seconds m) (ms_bytes m) H1 H4 H3) as Hb1.
    apply metered_base_fits; try done; lia.
  - apply derived_base_fits; try apply Hf; try apply Hc; try lia.
    + unfold escrow_bid_nanoton. lia.
    + destruct Hf as [Hf1 Hf2], Hc as [Hc1 Hc2].
      change (2 ^ 16) with 65536 in *. change (2 ^ 20) with 1048576 in *.
      change (umax 128) with 340282366920938463463374607431768211455.
      unfold BPS_DENOM. nia.
Qed.

Lemma covers_ok b bs k n fee comm :
  0 <= bs -> 0 <= fee -> 0 <= comm -> (k <= n)%nat -> split_need bs fee comm (Z.of_nat n) <= b ->
  exists needed, ensure_escrow_covers b bs k fee comm = Ok needed.
Proof using Type.
  intros Hb Hf Hc Hk Hn. unfold ensure_escrow_covers.
  pose proof (required_le_exact bs k fee comm Hb Hf Hc) as Hr.
  assert (0 <= bs * comm / BPS_DENOM) by (apply Z.div_pos; [nia|done]).
  rewrite (proj2 (Z.ltb_ge _ _)); [by eexists|]. unfold split_need in Hn. nia.
Qed.

Lemma participants_le w cfg win others rh bs :
  (length (participants (job_outcome w cfg win others rh bs)) <= length others)%nat.
Proof using Type. cbn [participants job_outcome]. rewrite length_fmap. apply filter_length_le. Qed.

Lemma candidate_wallets_app w acc others :
  (forall a, a ∈ acc -> a ∈ foldl (fun acc n => if bool_decide (wallet_of w n ∈ acc) then acc
     else acc ++ [wallet_of w n]) acc others)
  /\ (forall n, n ∈ others -> wallet_of w n ∈ foldl (fun acc n => if bool_decide (wallet_of w n ∈ acc) then acc
     else acc ++ [wallet_of w n]) acc others).
Proof using Type.
  revert acc. induction others as [|n ns IH]; intros acc; cbn [foldl].
  { split; [done|]. intros n Hn. by apply elem_of_nil in Hn. }
  destruct (IH (if bool_decide (wallet_of w n ∈ acc) then acc else acc ++ [wallet_of w n])) as [IH1 IH2].
  assert (forall a, a ∈ acc \/ a = wallet_of w n ->
    a ∈ (if bool_decide (wallet_of w n ∈ acc) then acc else acc ++ [wallet_of w n])) as Hin.
  { intros a Ha. case_bool_decide; [destruct Ha; by subst|]. apply elem_of_app.
    destruct Ha; [by left|right; subst; by left]. }
  split.
  - intros a Ha. apply IH1, Hin. by left.
  - intros m Hm. apply elem_of_cons in Hm as [->|Hm]; [|auto]. apply IH1, Hin. by right.
Qed.

(** C12: a paid job that gets its escrow is never refused over its amounts: whatever
    the number of agreeing runners (below 2^20) and the rates in basis points (sixteen
    bits), and for a metered job whatever the prices whose worst case stays within
    2^80 nanoton (10^15 TON), once economics and a rail are there, the fee recipient is
    accepted and the rail opens the escrow, the escrow locks the computed size, the
    split fits in it, the coverage preflight passes, and the job is settled - or the
    rail itself fails, with an error that is not about the amounts.  On a rail without
    a backend that can fail, the in-memory and the no-op one, the job is settled. *)
Theorem paid_job_settles (w : Wiring) (cfg : PayConfig) (job : JobId) (winner_id : NodeId)
    (others : list NodeId) (agreed qh : bytes) (requester : NodeId) (fp : bytes)
    (m : option MeteredSettle) (s : S) (a : anchor_state) :
  Cfg_wf cfg -> Metered_wf m -> Z.of_nat (length others) < 2 ^ 20 ->
  economics_enabled cfg = true -> has_settlement w = true -> recipient_refused w cfg = false ->
  (forall t, exists h s', open_escrow_with_terms R s job (escrow_size cfg others m) t = (Ok h, s')) ->
  exists h o x s' a',
    settle_paid_job R w cfg true job winner_id others agreed qh requester fp m s a = (x, s', a')
    /\ h_max_bid h = escrow_size cfg others m /\ total o <= h_max_bid h
    /\ (x = Done h o \/ exists e, x = SettleFailed o e /\ size_refusal e = false)
    /\ (ReliableRail R -> x = Done h o).
Proof using RL.
  intros Hcfg Hm Hn He Hs Hr Hopen. unfold settle_paid_job. rewrite He, Hs, Hr. cbn [andb negb].
  match goal with |- context [open_escrow_with_terms R s job _ ?t] => destruct (Hopen t) as (h & s1 & Eo) end.
  rewrite Eo. destruct (open_locks _ _ _ _ _ _ Eo) as [Hb _].
  destruct (settled_base_fits cfg others m Hcfg Hm Hn) as [Hbs Hfit]. rewrite Hb.
  set (bs := settled_base cfg others m (escrow_size cfg others m)) in *.
  pose proof (job_outcome_total w cfg winner_id others (blake3 agreed) bs Hcfg Hbs) as Ht.
  rewrite !wrap_small by apply Hcfg.
  destruct (covers_ok (escrow_size cfg others m) bs
    (length (participants (job_outcome w cfg winner_id others (blake3 agreed) bs))) (length others)
    (to_bps (platform_fee_pct cfg)) (to_bps (participation_commission_frac cfg))) as [needed Hc];
    [done|apply Hcfg|apply Hcfg|apply participants_le|done|]. rewrite Hc.
  assert (total (job_outcome w cfg winner_id others (blake3 agreed) bs) <= h_max_bid h) as Htot
    by (rewrite Hb; etransitivity; [exact Ht|exact Hfit]).
  exists h, (job_outcome w cfg winner_id others (blake3 agreed) bs).
  pose proof (fun e => settle_fits s1 h _ e Htot) as Hp. pose proof (fun Hrel : ReliableRail R => Hrel s1 h _ Htot) as Hrel.
  destruct (settle R s1 h _) as [[[]|e] s2]; cbn [fst] in *; do 3 eexists; (split; [reflexivity|]); (split; [done|]); (split; [done|]).
  - split; [by left|done].
  - split; [right; exists e; split; [done|by apply Hp]|]. intros Hr'. by specialize (Hrel Hr').
Qed.

(** What a settled job pays: exactly the quoted price to a winner with a
    wallet and nothing to one without, the platform share of that price, and one
    equal commission to each agreeing runner that has a wallet and to nobody else;
    every payee is in the candidate set the escrow was opened with. *)
Theorem paid_job_split (w : Wiring) (cfg : PayConfig) (paid : bool) (job : JobId) (winner_id : NodeId)
    (others : list NodeId) (agreed qh : bytes) (requester : NodeId) (fp : bytes)
    (m : option MeteredSettle) (s s' : S) (a a' : anchor_state) (h : EscrowHandle) (o : SettlementOutcome) :
  settle_paid_job R w cfg paid job winner_id others agreed qh requester fp m s a = (Done h o, s', a') ->
  result_hash o = blake3 agreed
  /\ amount (winner o) = (match payout_wallet_of w winner_id with Some _ => base o | None => 0 end)
  /\ platform_fee o = sat_mul128 (base o) (to_bps (platform_fee_pct cfg)) / BPS_DENOM
  /\ (forall p, p ∈ participants o <-> exists n, n ∈ others /\ is_Some (payout_wallet_of w n)
        /\ p = mkPayout (wallet_of w n)
                 (sat_mul128 (base o) (to_bps (participation_commission_frac cfg)) / BPS_DENOM))
  /\ (forall p, p = winner o \/ p ∈ participants o -> to p ∈ candidate_wallets w winner_id others).
Proof using Type.
  unfold settle_paid_job. destruct (negb _); [done|]. destruct (negb _); [done|]. destruct (recipient_refused w cfg); [done|].
  destruct (open_escrow_with_terms _ _ _ _ _) as [[h1|e] s1]; [|done].
  destruct (ensure_escrow_covers _ _ _ _ _); [|done].
  destruct (settle R s1 h1 _) as [[[]|e] s2]; [|done]. intros [= <- <- <- <-].
  set (bs := settled_base cfg others m (h_max_bid h1)).
  destruct (candidate_wallets_app w [wallet_of w winner_id] others) as [HA HB].
  assert (forall p, p ∈ participants (job_outcome w cfg winner_id others (blake3 agreed) bs) <->
    exists n, n ∈ others /\ is_Some (payout_wallet_of w n) /\ p = mkPayout (wallet_of w n)
      (sat_mul128 bs (to_bps (participation_commission_frac cfg)) / BPS_DENOM)) as Hp.
  { intros p. cbn [participants job_outcome]. rewrite list_elem_of_fmap.
    setoid_rewrite list_elem_of_In. setoid_rewrite filter_In. setoid_rewrite bool_decide_eq_true.
    naive_solver. }
  split_and!; [done|done|done|exact Hp|].
  intros p [->|Hin]; [apply HA; by left|]. apply Hp in Hin as (n & Hn & _ & ->). by apply HB.
Qed.

(** The platform fee cannot be redirected by local configuration, and free jobs
    never reach the rail: whenever the rail or the anchor is touched at all, the job
    was paid, economics was enabled, a rail was wired, and a locally configured fee recipient, if any
    and if the chain's is known, parses to exactly the chain's. *)
Theorem escrow_gate (w : Wiring) (cfg : PayConfig) (paid : bool) (job : JobId) (winner_id : NodeId)
    (others : list NodeId) (agreed qh : bytes) (requester : NodeId) (fp : bytes)
    (m : option MeteredSettle) (s s' : S) (a a' : anchor_state) (x : exit) :
  settle_paid_job R w cfg paid job winner_id others agreed qh requester fp m s a = (x, s', a') ->
  (s', a') <> (s, a) ->
  paid = true /\ economics_enabled cfg = true /\ has_settlement w = true
  /\ (forall chain local, current_fee_recipient w = Some chain -> local_fee_recipient cfg = Some local ->
        trim local <> [] -> from_any_str local = Ok chain).
Proof using Type.
  unfold settle_paid_job. intros H Hne. destruct paid, (economics_enabled cfg); cbn [andb negb] in H; try congruence.
  destruct (has_settlement w); cbn [negb] in H; [|congruence].
  destruct (recipient_refused w cfg) eqn:Hr; [congruence|]. split_and!; [done|done|done|].
  intros chain local Hc Hl Ht. unfold recipient_refused in Hr. rewrite Hc, Hl in Hr.
  destruct (trim local) eqn:Et; [done|]. destruct (from_any_str local) as [lw|]; [|done].
  apply negb_false_iff, bool_decide_eq_true in Hr. by subst.
Qed.
End settle_proofs.

(** ** Stake *)

Definition Stake_wf (g : registry) : Prop :=
  map_Forall (fun _ e => 0 <= staked e /\ 0 <= unbonding e) g.

Definition bonded (g : registry) (node : NodeId) : Amount :=
  match g !! node with Some e => staked e + unbonding e | None => 0 end.

Lemma slash_spec g node r a :
  Stake_wf g -> 0 <= a ->
  match slash g node r a with
  | (Ok _, g') => a <= bonded g node /\ bonded g' node = bonded g node - a /\ Stake_wf g'
      /\ (forall n, n <> node -> g' !! n = g !! n)
      /\ stake_of g' node = Z.max 0 (stake_of g node - a)
  | (Err _, g') => g' = g /\ (g !! node = None \/ bonded g node < a)
  end.
Proof.
  intros Hw Ha. unfold slash, bonded, stake_of. destruct (g !! node) as [e|] eqn:E; [|by split; [|left]].
  destruct (Hw node e E) as [H1 H2]. destruct (Z.ltb_spec (staked e + unbonding e) a).
  { split; [done|]. by right. }
  cbv beta iota zeta. rewrite lookup_insert_eq. cbn [staked unbonding]. split_and!; [lia|lia| | |lia].
  - apply map_Forall_insert_2; [|done]. cbn [staked unbonding]. lia.
  - intros n Hn. by rewrite lookup_insert_ne.
Qed.

Lemma request_unbond_spec g node a :
  Stake_wf g -> 0 <= a ->
  match request_unbond g node a with
  | (Ok _, g') => a <= stake_of g node /\ bonded g' node = bonded g node /\ Stake_wf g'
      /\ stake_of g' node = stake_of g node - a
  | (Err _, g') => g' = g /\ (g !! node = None \/ stake_of g node < a)
  end.
Proof.
  intros Hw Ha. unfold request_unbond, bonded, stake_of. destruct (g !! node) as [e|] eqn:E; [|by split; [|left]].
  destruct (Hw node e E) as [H1 H2]. destruct (Z.ltb_spec (staked e) a); [split; [done|by right]|].
  cbv beta iota zeta. rewrite lookup_insert_eq. cbn [staked unbonding]. split_and!; [lia|lia| |lia].
  apply map_Forall_insert_2; [|done]. cbn [staked unbonding]. lia.
Qed.

(** Unbonding is no escape from slashing, and slashing is exact: after a node
    moves stake into unbonding, any slash its bond covered before still succeeds, the
    bond shrinks by exactly the slashed amount (from the active stake first), other
    nodes are untouched, and no balance goes negative. *)
Theorem unbonding_stays_slashable (g g1 : registry) (node : NodeId) (r : SlashReason) (u a : Amount) :
  Stake_wf g -> 0 <= u -> 0 <= a <= bonded g node -> g !! node <> None ->
  request_unbond g node u = (Ok tt, g1) ->
  exists g2, slash g1 node r a = (Ok tt, g2) /\ bonded g2 node = bonded g node - a
    /\ stake_of g2 node = Z.max 0 (stake_of g node - u - a) /\ Stake_wf g2
    /\ (forall n, n <> node -> g2 !! n = g !! n).
Proof.
  intros Hw Hu Ha Hne Hr. pose proof (request_unbond_spec g node u Hw Hu) as H. rewrite Hr in H.
  destruct H as (H1 & H2 & H3 & H4).
  assert (g1 !! node <> None /\ (forall n, n <> node -> g1 !! n = g !! n)) as [Hne1 Hoth].
  { unfold request_unbond in Hr. destruct (g !! node) as [e|]; [|done].
    destruct (_ <? _); [done|]. injection Hr as <-. rewrite lookup_insert_eq. split; [done|].
    intros n Hn. by rewrite lookup_insert_ne. }
  pose proof (slash_spec g1 node r a H3 ltac:(lia)) as Hs.
  destruct (slash g1 node r a) as [[[]|e] g2].
  - destruct Hs as (_ & S2 & S3 & S4 & S5). exists g2. split_and!; [done|lia|lia|done|].
    intros n Hn. rewrite S4 by done. by apply Hoth.
  - destruct Hs as (_ & [Hs|Hs]); [done|lia].
Qed.

(** ** Anchored records *)

Section anchor_proofs.
Context {C : Crypto}.

Lemma position_spec st job :
  match position st job with
  | Some i => exists h, st !! i = Some (job, h) /\ forall k j x, (k < i)%nat -> st !! k = Some (j, x) -> j <> job
  | None => forall k x, st !! k <> Some (job, x)
  end.
Proof using Type.
  induction st as [|[j x] st IH]; cbn [position]; [by intros []|].
  destruct (decide (j = job)) as [->|Hne]; [exists x; split; [done|intros; lia]|].
  destruct (position st job) as [i|].
  - destruct IH as (h & Hi & Hb). exists h. split; [done|].
    intros [|k] j' x' Hk Hl; cbn in Hl; [congruence|]. eapply Hb; [|exact Hl]. lia.
  - intros [|k] y Hk; cbn in Hk; [congruence|]. by apply (IH k y).
Qed.

Lemma append_all st rs :
  foldl append st rs = st ++ ((fun r => (j_job_id r, record_leaf r)) <$> rs).
Proof using Type.
  revert st. induction rs as [|r rs IH]; intros st; cbn [foldl]; [by rewrite app_nil_r|].
  rewrite IH. unfold append. by rewrite <- app_assoc.
Qed.

(** Every appended record can be proved: for a job whose first record in the
    epoch is [r], [prove_inclusion] returns a proof that carries that record's leaf
    and verifies against the epoch root, however many records surround it. *)
Theorem anchored_record_provable (st : anchor_state) (r : JobRecord) (more : list JobRecord) :
  (forall k x, st !! k <> Some (j_job_id r, x)) ->
  let st' := foldl append (append st r) more in
  exists p, prove_inclusion st' (j_job_id r) = Some p /\ leaf p = record_leaf r
    /\ verify_inclusion (epoch_root st') p = true.
Proof using Type.
  intros Hnew st'. assert (exists tl, st' = st ++ (j_job_id r, record_leaf r) :: tl) as [tl Est].
  { unfold st'. rewrite append_all. unfold append. eexists. by rewrite <- app_assoc. }
  assert (position st' (j_job_id r) = Some (length st)) as Hpos.
  { rewrite Est. clear -Hnew. induction st as [|[j x] st IH]; cbn [app position length].
    - by rewrite decide_True.
    - rewrite decide_False; [|intros ->; by apply (Hnew 0%nat x)].
      rewrite IH; [done|]. intros k y. apply (Hnew (S k) y). }
  unfold prove_inclusion, epoch_root. rewrite Hpos.
  assert (st'.*2 !! length st = Some (record_leaf r)) as Hl.
  { rewrite list_lookup_fmap, Est, lookup_app_r, Nat.sub_diag by lia. done. }
  destruct (build_proof_verifies _ _ _ Hl) as (p & Hp & Hlf & Hr). exists p. split_and!; try done.
  apply bool_decide_eq_true. unfold merkle_root. by rewrite <- Hr.
Qed.
End anchor_proofs.

(** ** The billing cross-check *)

Definition count_le (L : Z) (l : list Z) : nat := length (List.filter (fun x => x <=? L) l).

Lemma count_le_perm L l k : l ≡ₚ k -> count_le L l = count_le L k.
Proof.
  unfold count_le. induction 1 as [|x l k _ IH|x y l|]; cbn [List.filter]; try done.
  - destruct (x <=? L); cbn [length]; congruence.
  - destruct (x <=? L), (y <=? L); done.
  - congruence.
Qed.

(** In a sorted list, everything before the count of small elements is small. *)
Lemma sorted_count_le L l i x :
  StronglySorted (fun a b => (a <=? b) = true) l -> l !! i = Some x -> (i < count_le L l)%nat -> x <= L.
Proof.
  intros Hs. revert i x. unfold count_le.
  induction Hs as [|a l Hs IH Ha]; intros i x Hi Hc; [done|]. cbn [List.filter] in Hc.
  destruct (Z.leb_spec a L) as [Hal|Hal].
  - destruct i as [|i]; cbn in Hi; [congruence|]. apply (IH i); [done|]. simpl in Hc. lia.
  - assert (List.filter (fun x => x <=? L) l = []) as E.
    { clear -Ha Hal. induction Ha as [|b l Hb _ IH]; [done|]. cbn [List.filter].
      apply Z.leb_le in Hb. rewrite (proj2 (Z.leb_gt b L)) by lia. done. }
    rewrite E in Hc. simpl in Hc. lia.
Qed.

(** The billing cross-check withstands a minority of over-reporters: when more
    than half of the agreeing latencies are at most [L], their median is at most [L],
    and the billed seconds never exceed what the winner itself took nor, through the
    price, the worst case the escrow was sized for. *)
Theorem metered_billing_bounded (latencies : list Z) (L winner_ms : Z) (tolerance : f64)
    (t : MeteredTerms) (n : Z) :
  (length latencies < 2 * count_le L latencies)%nat ->
  0 <= winner_ms -> 0 <= rate_per_second t -> 0 <= cap_seconds t ->
  median_ms latencies <= L
  /\ metered_billed_seconds winner_ms latencies tolerance <= ceil_secs winner_ms
  /\ base_for t (ceil_secs winner_ms) n <= cap_base t n.
Proof.
  intros Hmaj Hw Hr Hcap. split_and!.
  - unfold median_ms. destruct latencies as [|a l] eqn:El; [unfold count_le in Hmaj; simpl in Hmaj; lia|].
    rewrite <- El in *. set (v := isort Z.leb latencies).
    assert (StronglySorted (fun a b => (a <=? b) = true) v) as Hs.
    { apply isort_sorted; intros; rewrite ?Z.leb_le in *; lia. }
    assert (length v = length latencies) as Hlen by apply isort_length.
    assert (count_le L v = count_le L latencies) as Hcnt by (apply count_le_perm, isort_perm).
    assert (0 < length v)%nat by (rewrite Hlen, El; simpl; lia).
    assert (forall i, (i <= length v / 2)%nat -> nth i v 0 <= L) as Hnth.
    { intros i Hi. assert (length v / 2 < length v)%nat by (apply Nat.div_lt; lia).
      destruct (lookup_lt_is_Some_2 v i ltac:(lia)) as [x Hx].
      rewrite (nth_lookup_Some _ _ _ _ Hx). apply (sorted_count_le L v i x Hs Hx).
      assert (length v / 2 < count_le L v)%nat; [|lia].
      apply Nat.Div0.div_lt_upper_bound. lia. }
    cbv zeta. destruct (Nat.odd (length v)); [by apply Hnth|].
    assert (nth (length v / 2 - 1) v 0 <= L) by (apply Hnth; lia).
    assert (nth (length v / 2) v 0 <= L) by (apply Hnth; lia).
    apply Z.div_le_upper_bound; lia.
  - unfold metered_billed_seconds. destruct (_ =? 0); lia.
  - apply base_for_le_cap; [done| |done]. unfold ceil_secs, div_ceil. apply Z.div_pos; lia.
Qed.

(** ** Witnesses *)

Definition cfg_example : PayConfig := mkPayConfig true (lit 15 100) (lit 5 100) 2 None.
Definition wiring_example : Wiring := mkWiring 3 (Some (mkWallet 0 (le_bytes 32 9))) None None true true.
Definition metered_example : option MeteredSettle := Some (mkMeteredSettle (mkMetered 1000 0 60) 12 4096).

Lemma paid_job_settles_witness :
  exists h o s' a',
    @settle_paid_job toy_crypto _ (@MockSettlement toy_crypto) wiring_example cfg_example true
      (str "job") (str "b3:w") [str "b3:x"; str "b3:y"] (str "hash") (str "qh") (str "b3:r") (str "fp")
      metered_example [] [] = (Done h o, s', a')
    /\ h_max_bid h = escrow_size cfg_example [str "b3:x"; str "b3:y"] metered_example
    /\ total o <= h_max_bid h.
Proof.
  destruct (@paid_job_settles toy_crypto _ (@MockSettlement toy_crypto) mock_laws wiring_example cfg_example
    (str "job") (str "b3:w") [str "b3:x"; str "b3:y"] (str "hash") (str "qh") (str "b3:r") (str "fp") metered_example [] [])
    as (h & o & x & s' & a' & E & H1 & H2 & _ & H3).
  - split; decide_closed.
  - cbn. repeat split; vm_compute; discriminate.
  - reflexivity.
  - reflexivity.
  - reflexivity.
  - reflexivity.
  - intros t. eexists _, _. reflexivity.
  - rewrite (H3 (@mock_reliable toy_crypto)) in E. exists h, o, s', a'. exact (conj E (conj H1 H2)).
Defined.

Definition settled_example :=
  @settle_paid_job toy_crypto _ (@MockSettlement toy_crypto) wiring_example cfg_example true
    (str "job") (str "b3:w") [str "b3:x"] (str "hash") (str "qh") (str "b3:r") (str "fp") None [] [].
Definition outcome_example : SettlementOutcome :=
  @job_outcome toy_crypto wiring_example cfg_example (str "b3:w") [str "b3:x"]
    (@blake3 toy_crypto (str "hash")) (settled_base cfg_example [str "b3:x"] None 2000000000).

Lemma paid_job_split_witness :
  result_hash outcome_example = @blake3 toy_crypto (str "hash")
  /\ amount (winner outcome_example)
     = (match @payout_wallet_of toy_crypto wiring_example (str "b3:w") with
        | Some _ => base outcome_example | None => 0 end)
  /\ platform_fee outcome_example
     = sat_mul128 (base outcome_example) (to_bps (platform_fee_pct cfg_example)) / BPS_DENOM
  /\ (forall p, p ∈ participants outcome_example <-> exists n, n ∈ [str "b3:x"]
        /\ is_Some (@payout_wallet_of toy_crypto wiring_example n)
        /\ p = mkPayout (@wallet_of toy_crypto wiring_example n)
                 (sat_mul128 (base outcome_example) (to_bps (participation_commission_frac cfg_example))
                  / BPS_DENOM))
  /\ (forall p, p = winner outcome_example \/ p ∈ participants outcome_example ->
        to p ∈ @candidate_wallets toy_crypto wiring_example (str "b3:w") [str "b3:x"]).
Proof.
  apply (@paid_job_split toy_crypto _ (@MockSettlement toy_crypto) wiring_example cfg_example true
    (str "job") (str "b3:w") [str "b3:x"] (str "hash") (str "qh") (str "b3:r") (str "fp") None [] 
    settled_example.1.2 [] settled_example.2 (mkHandle (str "job") (@escrow_address_for toy_crypto (str "job")) 2000000000)
    outcome_example).
  vm_compute. reflexivity.
Defined.

Lemma escrow_gate_witness :
  true = true /\ economics_enabled cfg_example = true /\ has_settlement wiring_example = true
  /\ (forall chain local, current_fee_recipient wiring_example = Some chain ->
        local_fee_recipient cfg_example = Some local -> trim local <> [] -> from_any_str local = Ok chain).
Proof.
  apply (@escrow_gate toy_crypto _ (@MockSettlement toy_crypto) wiring_example cfg_example true
    (str "job") (str "b3:w") [str "b3:x"] (str "hash") (str "qh") (str "b3:r") (str "fp") None []
    settled_example.1.2 [] settled_example.2 settled_example.1.1).
  - vm_compute. reflexivity.
  - vm_compute. discriminate.
Defined.

Lemma unbonding_stays_slashable_witness :
  exists g2, slash {[ str "n" := mkStake 40 60 ]} (str "n") Cheat 80 = (Ok tt, g2)
    /\ bonded g2 (str "n") = bonded {[ str "n" := mkStake 100 0 ]} (str "n") - 80
    /\ stake_of g2 (str "n") = Z.max 0 (stake_of {[ str "n" := mkStake 100 0 ]} (str "n") - 60 - 80)
    /\ Stake_wf g2
    /\ (forall n, n <> str "n" -> g2 !! n = ({[ str "n" := mkStake 100 0 ]} : registry) !! n).
Proof.
  apply (unbonding_stays_slashable {[ str "n" := mkStake 100 0 ]} _ (str "n") Cheat 60 80).
  - unfold Stake_wf. apply map_Forall_singleton. cbn. lia.
  - lia.
  - vm_compute. split; discriminate.
  - vm_compute. discriminate.
  - vm_compute. reflexivity.
Defined.

Lemma anchored_record_provable_witness :
  let st' := foldl (@append toy_crypto) (@append toy_crypto [] record_example) [record_example] in
  exists p, @prove_inclusion toy_crypto st' (j_job_id record_example) = Some p
    /\ leaf p = @record_leaf toy_crypto record_example
    /\ @verify_inclusion toy_crypto (@epoch_root toy_crypto st') p = true.
Proof. apply (@anchored_record_provable toy_crypto [] record_example [record_example]). intros k x. done. Defined.

Lemma metered_billing_bounded_witness :
  median_ms [900; 1000; 99999] <= 1000
  /\ metered_billed_seconds 99999 [900; 1000; 99999] (lit 15 10) <= ceil_secs 99999
  /\ base_for (mkMetered 10 0 60) (ceil_secs 99999) 0 <= cap_base (mkMetered 10 0 60) 0.
Proof. apply metered_billing_bounded; vm_compute; try lia; discriminate. Defined.
