(* ===== verification/Cell.v ===== *)
(** * TON cells (crates/settlement/src/cell.rs)

    Cells hold their bits packed in bytes.  [cell_bits] is the abstraction to a bit
    list; the builder is shown to append bits and the parser to consume them, so
    that each store/load pair is a round trip, and the representation hash to
    determine the cell. *)

From S2P Require Import Prelude Bytes Crypto Merkle Settlement.

Inductive Cell := mkCell (data : bytes) (bit_len : nat) (refs : list Cell).
Definition data (c : Cell) : bytes := let 'mkCell d _ _ := c in d.
Definition bit_len (c : Cell) : nat := let 'mkCell _ n _ := c in n.
Definition refs (c : Cell) : list Cell := let 'mkCell _ _ r := c in r.

(** Bit [i] of a byte string, most significant first within a byte; zero past the
    end. *)
Definition byte_bit (b : byte) (k : nat) : bool := Z.testbit (byte_val b) (7 - Z.of_nat k).
Definition get_bit (d : bytes) (i : nat) : bool := byte_bit (nth (i / 8) d Byte.x00) (i mod 8).

(** [cell_bits] *)
Definition cell_bits (c : Cell) : list bool := get_bit (data c) <$> seq 0 (bit_len c).

(** ** Hashing *)

Fixpoint depth (c : Cell) : Z :=
  let 'mkCell _ _ rs := c in foldr (fun r acc => Z.max (depth r + 1) acc) 0 rs.

Definition descriptor (c : Cell) : bytes :=
  let d1 := Z.of_nat (length (refs c)) in
  let full := Z.of_nat (bit_len c / 8) in
  let d2 := if (bit_len c mod 8 =? 0)%nat then 2 * full else 2 * full + 1 in
  [byte_of_Z d1; byte_of_Z d2].

(** [b |= 1 << (7 - pos)] *)
Definition set_bit (pos : nat) (b : byte) : byte :=
  byte_of_Z (Z.lor (byte_val b) (2 ^ (7 - Z.of_nat pos))).

Definition augmented_data (c : Cell) : bytes :=
  let rem := (bit_len c mod 8)%nat in
  if (rem =? 0)%nat then data c
  else alter (set_bit rem) (length (data c) - 1)%nat (data c).

Section hashing.
Context {C : Crypto}.

Fixpoint repr_hash (c : Cell) : Hash32 :=
  let 'mkCell _ _ rs := c in
  sha256 (descriptor c ++ augmented_data c
    ++ mjoin ((fun r => be_bytes 2 (depth r)) <$> rs) ++ mjoin (repr_hash <$> rs)).

Definition repr_preimage (c : Cell) : bytes :=
  descriptor c ++ augmented_data c
  ++ mjoin ((fun r => be_bytes 2 (depth r)) <$> refs c) ++ mjoin (repr_hash <$> refs c).
End hashing.

(** ** The builder *)

Definition empty_builder : Cell := mkCell [] 0 [].

Definition push_bit (c : Cell) (bit : bool) : Cell :=
  let pos := (bit_len c mod 8)%nat in
  let d := if (pos =? 0)%nat then data c ++ [Byte.x00] else data c in
  let d := if bit then alter (set_bit pos) (length d - 1)%nat d else d in
  mkCell d (S (bit_len c)) (refs c).

(** The indices [(0..nbits).rev()]. *)
Definition down (nbits : nat) : list nat := rev (seq 0 nbits).

Definition store_uint (c : Cell) (value : Z) (nbits : nat) : Cell :=
  foldl (fun c i => push_bit c (Z.testbit value (Z.of_nat i))) c (down nbits).

(** [(value as i128 as u128) & mask] *)
Definition store_int (c : Cell) (value : Z) (nbits : nat) : Cell :=
  store_uint c (wrap (Z.of_nat (Nat.min nbits 128)) value) nbits.

Definition store_bits (c : Cell) (bs : bytes) (nbits : nat) : Cell :=
  foldl (fun c i => push_bit c (get_bit bs i)) c (seq 0 nbits).

Definition store_u256 (c : Cell) (h : Hash32) : Cell := store_bits c h 256.

(** Bytes needed for a [coins] value: [(128 - leading_zeros).div_ceil(8)]. *)
Definition coin_bytes (value : Z) : nat :=
  if value =? 0 then 0%nat else Z.to_nat (div_ceil (Z.log2 value + 1) 8).

Definition store_coins (c : Cell) (value : Z) : Cell :=
  let used := coin_bytes value in
  let c := store_uint c (Z.of_nat used) 4 in
  foldl (fun c i => store_uint c (Z.land (Z.shiftr value (8 * Z.of_nat i)) 255) 8) c (down used).

Definition store_address (c : Cell) (a : WalletAddress) : Cell :=
  store_u256 (store_int (store_uint c 4 3) (workchain a) 8) (hash a).

Definition store_ref (c r : Cell) : Cell := mkCell (data c) (bit_len c) (refs c ++ [r]).

Definition store_maybe_ref (c : Cell) (r : option Cell) : Cell :=
  match r with Some x => store_ref (store_uint c 1 1) x | None => store_uint c 0 1 end.

Definition store_cell_inline (c other : Cell) : Cell :=
  let c := foldl (fun c i => push_bit c (get_bit (data other) i)) c (seq 0 (bit_len other)) in
  mkCell (data c) (bit_len c) (refs c ++ refs other).

(** ** The parser *)

Record CellParser := mkParser { p_cell : Cell; p_bit : nat; p_next_ref : nat }.
Definition parser (c : Cell) : CellParser := mkParser c 0 0.

Definition remaining_bits (p : CellParser) : nat := (bit_len (p_cell p) - p_bit p)%nat.
Definition remaining_refs (p : CellParser) : nat := (length (refs (p_cell p)) - p_next_ref p)%nat.

Definition load_bit (p : CellParser) : option bool * CellParser :=
  if (bit_len (p_cell p) <=? p_bit p)%nat then (None, p)
  else (Some (get_bit (data (p_cell p)) (p_bit p)), mkParser (p_cell p) (S (p_bit p)) (p_next_ref p)).

(** The loop of [load_uint]; [v] is a [u128]. *)
Fixpoint load_uint_loop (n : nat) (v : Z) (p : CellParser) : option Z * CellParser :=
  match n with
  | O => (Some v, p)
  | S n' => match load_bit p with
            | (None, p') => (None, p')
            | (Some b, p') => load_uint_loop n' (Z.lor (wrap 128 (Z.shiftl v 1)) (Z.b2z b)) p'
            end
  end.

Definition load_uint (p : CellParser) (nbits : nat) : option Z * CellParser :=
  if (128 <? nbits)%nat || (bit_len (p_cell p) <? p_bit p + nbits)%nat then (None, p)
  else load_uint_loop nbits 0 p.

Definition load_int (p : CellParser) (nbits : nat) : option Z * CellParser :=
  match load_uint p nbits with
  | (None, p') => (None, p')
  | (Some u, p') =>
      if (0 <? nbits)%nat && Z.testbit u (Z.of_nat nbits - 1)
      then (Some (u - 2 ^ Z.of_nat nbits), p') else (Some u, p')
  end.

Definition load_coins (p : CellParser) : option Z * CellParser :=
  match load_uint p 4 with
  | (None, p') => (None, p')
  | (Some len, p') => if len =? 0 then (Some 0, p') else load_uint p' (Z.to_nat len * 8)
  end.

(** The loop of [load_bits]. *)
Fixpoint load_bits_loop (idx : list nat) (out : bytes) (p : CellParser) : option bytes * CellParser :=
  match idx with
  | [] => (Some out, p)
  | i :: idx' =>
      match load_bit p with
      | (None, p') => (None, p')
      | (Some b, p') =>
          load_bits_loop idx' (if b then alter (set_bit (i mod 8)) (i / 8)%nat out else out) p'
      end
  end.

Definition load_bits (p : CellParser) (nbits : nat) : option bytes * CellParser :=
  load_bits_loop (seq 0 nbits) (replicate ((nbits + 7) / 8) Byte.x00) p.

Definition load_address (p : CellParser) : option WalletAddress * CellParser :=
  match load_uint p 2 with
  | (None, p) => (None, p)
  | (Some tag, p) =>
      if tag =? 0 then (None, p)
      else if negb (tag =? 2) then (None, p)
      else match load_bit p with
           | (None, p) => (None, p)
           | (Some true, p) => (None, p)
           | (Some false, p) =>
               match load_int p 8 with
               | (None, p) => (None, p)
               | (Some wc, p) =>
                   match load_bits p 256 with
                   | (None, p) => (None, p)
                   | (Some h, p) => (Some (mkWallet wc h), p)
                   end
               end
           end
  end.

Definition load_ref (p : CellParser) : option Cell * CellParser :=
  match refs (p_cell p) !! p_next_ref p with
  | None => (None, p)
  | Some r => (Some r, mkParser (p_cell p) (p_bit p) (S (p_next_ref p)))
  end.

(** ** StateInit addresses *)

Definition state_init_cell (code data : Cell) : Cell :=
  store_ref (store_ref (store_uint empty_builder 6 5) code) data.

Section addresses.
Context {C : Crypto}.

Definition from_state_init (wc : Z) (code data : Cell) : WalletAddress :=
  mkWallet wc (repr_hash (state_init_cell code data)).

Definition from_code_hash_state_init (wc : Z) (code_hash : Hash32) (code_depth : Z) (d : Cell)
  : WalletAddress :=
  mkWallet wc (sha256 ([byte_of_Z 2; byte_of_Z 1] ++ [byte_of_Z 52] ++ be_bytes 2 code_depth
    ++ be_bytes 2 (depth d) ++ code_hash ++ repr_hash d)).
End addresses.

(** ** Bits of bytes *)

Lemma byte_bit_ext a b : (forall k, (k < 8)%nat -> byte_bit a k = byte_bit b k) -> a = b.
Proof.
  intros H. apply byte_val_inj. apply Z.bits_inj'. intros n Hn.
  destruct (Z_lt_ge_dec n 8) as [Hlt|Hge].
  - specialize (H (Z.to_nat (7 - n)) ltac:(lia)). unfold byte_bit in H.
    by replace (7 - Z.of_nat (Z.to_nat (7 - n))) with n in H by lia.
  - assert (forall c, Z.testbit (byte_val c) n = false) as Hz.
    { intros c. pose proof (byte_val_range c). destruct (Z.eq_dec (byte_val c) 0) as [->|].
      - apply Z.bits_0.
      - apply Z.bits_above_log2; [lia|]. apply Z.log2_lt_pow2; [lia|].
        apply Z.lt_le_trans with (2 ^ 8); [lia|]. apply Z.pow_le_mono_r; lia. }
    by rewrite !Hz.
Qed.

Lemma byte_bit_set pos b k :
  (pos < 8)%nat -> (k < 8)%nat -> byte_bit (set_bit pos b) k = (k =? pos)%nat || byte_bit b k.
Proof.
  intros Hp Hk. unfold byte_bit, set_bit. rewrite byte_val_of_Z. change 256 with (2 ^ 8).
  rewrite Z.mod_pow2_bits_low by lia. rewrite Z.lor_spec, Z.pow2_bits_eqb by lia.
  rewrite orb_comm. f_equal. destruct (Nat.eqb_spec k pos) as [->|Hne].
  - apply Z.eqb_refl.
  - apply Z.eqb_neq. lia.
Qed.

Lemma byte_bit_zero k : byte_bit Byte.x00 k = false.
Proof. apply Z.bits_0. Qed.

Lemma get_bit_beyond d i : (8 * length d <= i)%nat -> get_bit d i = false.
Proof.
  intros H. unfold get_bit. rewrite nth_overflow; [apply byte_bit_zero|].
  apply Nat.div_le_lower_bound; lia.
Qed.

Lemma nth_alter_byte (f : byte -> byte) k d i :
  (k < length d)%nat -> nth i (alter f k d) Byte.x00 = if (i =? k)%nat then f (nth i d Byte.x00) else nth i d Byte.x00.
Proof.
  intros Hk. rewrite !nth_lookup. destruct (Nat.eqb_spec i k) as [->|Hne].
  - rewrite list_lookup_alter_eq. destruct (lookup_lt_is_Some_2 d k Hk) as [x ->]. done.
  - by rewrite list_lookup_alter_ne.
Qed.

(** Setting bit [j] of a byte string sets exactly that bit. *)
Lemma get_bit_set d j i :
  (j < 8 * length d)%nat ->
  get_bit (alter (set_bit (j mod 8)) (j / 8)%nat d) i = (i =? j)%nat || get_bit d i.
Proof.
  intros Hj. unfold get_bit. rewrite nth_alter_byte by (apply Nat.Div0.div_lt_upper_bound; lia).
  pose proof (Nat.mod_upper_bound i 8 ltac:(lia)). pose proof (Nat.mod_upper_bound j 8 ltac:(lia)).
  pose proof (Nat.div_mod_eq i 8). pose proof (Nat.div_mod_eq j 8).
  destruct (Nat.eqb_spec (i / 8) (j / 8)) as [E|E].
  - rewrite byte_bit_set by done. f_equal.
    destruct (Nat.eqb_spec (i mod 8) (j mod 8)), (Nat.eqb_spec i j); try done; lia.
  - rewrite (proj2 (Nat.eqb_neq i j)) by (intros ->; lia). done.
Qed.

Lemma get_bit_ext d e :
  length d = length e -> (forall i, get_bit d i = get_bit e i) -> d = e.
Proof.
  intros Hl H. apply (nth_ext _ _ Byte.x00 Byte.x00 Hl). intros n Hn. apply byte_bit_ext. intros k Hk.
  specialize (H (8 * n + k)%nat). unfold get_bit in H.
  replace ((8 * n + k) / 8)%nat with n in H by (rewrite Nat.mul_comm, Nat.div_add_l by lia; rewrite Nat.div_small by lia; lia).
  replace ((8 * n + k) mod 8)%nat with k in H; [done|].
  rewrite Nat.add_comm, Nat.mul_comm, Nat.Div0.mod_add. by rewrite Nat.mod_small.
Qed.

(** ** The builder appends bits *)

(** The bytes are as many as the bits need, and the unused low bits are zero. *)
Definition Cell_ok (c : Cell) : Prop :=
  length (data c) = ((bit_len c + 7) / 8)%nat /\ (forall i, (bit_len c <= i)%nat -> get_bit (data c) i = false).

Lemma length_cell_bits c : length (cell_bits c) = bit_len c.
Proof. unfold cell_bits. by rewrite length_fmap, length_seq. Qed.

Lemma cell_bits_lookup c i : (i < bit_len c)%nat -> cell_bits c !! i = Some (get_bit (data c) i).
Proof. intros H. unfold cell_bits. rewrite list_lookup_fmap, lookup_seq_lt by done. done. Qed.

Lemma div8_up n : ((S n + 7) / 8 = (if (n mod 8 =? 0)%nat then S ((n + 7) / 8) else (n + 7) / 8))%nat.
Proof.
  pose proof (Nat.div_mod_eq n 8) as E. pose proof (Nat.mod_upper_bound n 8 ltac:(lia)) as Hr.
  set (q := (n / 8)%nat) in *. set (r := (n mod 8)%nat) in *.
  destruct (Nat.eqb_spec r 0) as [Hz|Hz].
  - replace (S n + 7)%nat with ((q + 1) * 8 + 0)%nat by lia. replace (n + 7)%nat with (q * 8 + 7)%nat by lia.
    rewrite !Nat.div_add_l by lia. change (0 / 8)%nat with 0%nat. change (7 / 8)%nat with 0%nat. lia.
  - replace (S n + 7)%nat with ((q + 1) * 8 + r)%nat by lia.
    replace (n + 7)%nat with ((q + 1) * 8 + (r - 1))%nat by lia.
    rewrite !Nat.div_add_l, !Nat.div_small by lia. lia.
Qed.

Lemma push_bit_get c b i :
  Cell_ok c -> get_bit (data (push_bit c b)) i = if (i =? bit_len c)%nat then b else get_bit (data c) i.
Proof.
  intros [Hl Hz]. unfold push_bit. cbn [data].
  set (n := bit_len c) in *.
  set (d := if (n mod 8 =? 0)%nat then data c ++ [Byte.x00] else data c).
  assert (forall j, get_bit d j = get_bit (data c) j) as Hd.
  { intros j. unfold d. destruct (n mod 8 =? 0)%nat; [|done]. unfold get_bit. f_equal.
    destruct (Nat.lt_ge_cases (j / 8) (length (data c))); [by rewrite app_nth1|].
    rewrite app_nth2 by done. rewrite (nth_overflow (data c)) by done.
    by destruct (j / 8 - length (data c))%nat as [|[|]]. }
  assert (length d = S (n / 8)) as Hlen.
  { unfold d. pose proof (Nat.div_mod_eq n 8) as E. pose proof (Nat.mod_upper_bound n 8 ltac:(lia)).
    destruct (Nat.eqb_spec (n mod 8) 0) as [E0|E0]; rewrite ?length_app, Hl.
    - replace (n + 7)%nat with (n / 8 * 8 + 7)%nat by lia. rewrite Nat.div_add_l by lia. change (7 / 8)%nat with 0%nat. simpl. lia.
    - replace (n + 7)%nat with ((n / 8 + 1) * 8 + (n mod 8 - 1))%nat by lia.
      rewrite Nat.div_add_l by lia. rewrite (Nat.div_small (n mod 8 - 1)) by lia. lia. }
  destruct b.
  - rewrite Hlen. replace (S (n / 8) - 1)%nat with (n / 8)%nat by lia. rewrite get_bit_set, Hd.
    + by destruct (Nat.eqb_spec i n).
    + rewrite Hlen. pose proof (Nat.div_mod_eq n 8). pose proof (Nat.mod_upper_bound n 8 ltac:(lia)). lia.
  - rewrite Hd. destruct (Nat.eqb_spec i n) as [->|]; [|done]. apply Hz. lia.
Qed.

Lemma push_bit_ok c b : Cell_ok c -> Cell_ok (push_bit c b).
Proof.
  intros Hc. pose proof Hc as [Hl Hz]. split.
  - unfold push_bit. cbn [data bit_len]. rewrite div8_up.
    destruct b; rewrite ?length_alter; destruct (bit_len c mod 8 =? 0)%nat; rewrite ?length_app, Hl; simpl; lia.
  - intros i Hi. rewrite push_bit_get by done. change (bit_len (push_bit c b)) with (S (bit_len c)) in Hi.
    rewrite (proj2 (Nat.eqb_neq _ _)) by lia. apply Hz. lia.
Qed.

Lemma push_bit_bits c b : Cell_ok c -> cell_bits (push_bit c b) = cell_bits c ++ [b].
Proof.
  intros Hc. unfold cell_bits. change (bit_len (push_bit c b)) with (S (bit_len c)).
  rewrite seq_S, fmap_app. cbn [fmap list_fmap]. rewrite push_bit_get, Nat.eqb_refl by done. f_equal.
  apply list_fmap_ext. intros i x Hx. apply lookup_seq in Hx as [-> Hx].
  rewrite push_bit_get by done. by rewrite (proj2 (Nat.eqb_neq _ _)) by lia.
Qed.

(** [appends c l c']: [c'] is [c] with the bits [l] appended. *)
Definition appends (c : Cell) (l : list bool) (c' : Cell) : Prop :=
  Cell_ok c -> Cell_ok c' /\ cell_bits c' = cell_bits c ++ l /\ refs c' = refs c.

Lemma appends_push l c : appends c l (foldl push_bit c l).
Proof.
  revert c. induction l as [|b l IH]; intros c Hc; cbn [foldl]; [by rewrite app_nil_r|].
  destruct (IH (push_bit c b)) as (H1 & H2 & H3); [by apply push_bit_ok|].
  rewrite H2, H3, push_bit_bits, <- app_assoc by done. done.
Qed.

Lemma appends_trans c l c' k c'' : appends c l c' -> appends c' k c'' -> appends c (l ++ k) c''.
Proof.
  intros H1 H2 Hc. destruct (H1 Hc) as (A & B & D). destruct (H2 A) as (A' & B' & D').
  rewrite B', B, D', D, app_assoc. done.
Qed.

(** ** The bits each encoder writes *)

Definition uint_bits (v : Z) (n : nat) : list bool := (fun i => Z.testbit v (Z.of_nat i)) <$> down n.
Definition coin_bits (v : Z) : list bool :=
  uint_bits (Z.of_nat (coin_bytes v)) 4 ++ uint_bits v (8 * coin_bytes v).
Definition int_bits (v : Z) (n : nat) : list bool := uint_bits (wrap (Z.of_nat (Nat.min n 128)) v) n.
Definition address_bits (a : WalletAddress) : list bool :=
  uint_bits 4 3 ++ int_bits (workchain a) 8 ++ (get_bit (hash a) <$> seq 0 256).

Lemma foldl_push_fmap {A} (f : A -> bool) (l : list A) c :
  foldl (fun c i => push_bit c (f i)) c l = foldl push_bit c (f <$> l).
Proof. revert c. induction l as [|a l IH]; intros c; [done|]. rewrite fmap_cons. cbn [foldl]. apply IH. Qed.

Lemma store_uint_appends c v n : appends c (uint_bits v n) (store_uint c v n).
Proof. unfold store_uint. rewrite foldl_push_fmap. apply appends_push. Qed.

Lemma store_bits_appends c bs n : appends c (get_bit bs <$> seq 0 n) (store_bits c bs n).
Proof. unfold store_bits. rewrite foldl_push_fmap. apply appends_push. Qed.

Lemma down_S n : down (S n) = n :: down n.
Proof. unfold down. by rewrite seq_S, rev_app_distr. Qed.

Lemma down_add a b : down (a + b) = ((fun i => a + i)%nat <$> down b) ++ down a.
Proof.
  induction b as [|b IH]; [by rewrite Nat.add_0_r|].
  rewrite Nat.add_succ_r, !down_S, fmap_cons, IH. done.
Qed.

Lemma length_down n : length (down n) = n.
Proof. unfold down. by rewrite length_rev, length_seq. Qed.

Lemma elem_of_down i n : i ∈ down n <-> (i < n)%nat.
Proof. unfold down. rewrite list_elem_of_In, <- in_rev, in_seq. lia. Qed.

Lemma length_uint_bits v n : length (uint_bits v n) = n.
Proof. unfold uint_bits. by rewrite length_fmap, length_down. Qed.

(** The byte loop of [store_coins] writes the [8 * used] low bits. *)
Lemma coin_loop_appends c v k :
  appends c (uint_bits v (8 * k))
    (foldl (fun c i => store_uint c (Z.land (Z.shiftr v (8 * Z.of_nat i)) 255) 8) c (down k)).
Proof.
  revert c. induction k as [|k IH]; intros c.
  { intros Hc. cbn. by rewrite app_nil_r. }
  rewrite down_S. cbn [foldl]. replace (8 * S k)%nat with (8 * k + 8)%nat by lia.
  unfold uint_bits at 1. rewrite down_add, fmap_app. eapply appends_trans; [|apply IH].
  assert ((fun i => Z.testbit v (Z.of_nat i)) <$> ((fun i => 8 * k + i)%nat <$> down 8)
    = uint_bits (Z.land (Z.shiftr v (8 * Z.of_nat k)) 255) 8) as ->; [|apply store_uint_appends].
  unfold uint_bits. rewrite <- list_fmap_compose. apply list_fmap_ext. intros j x Hx.
  apply list_elem_of_lookup_2, elem_of_down in Hx. cbn [compose].
  change 255 with (Z.ones 8). rewrite Z.land_ones, Z.mod_pow2_bits_low, Z.shiftr_spec by lia.
  f_equal. lia.
Qed.

Lemma store_coins_appends c v : appends c (coin_bits v) (store_coins c v).
Proof. eapply appends_trans; [apply store_uint_appends|apply coin_loop_appends]. Qed.

Lemma store_address_appends c a : appends c (address_bits a) (store_address c a).
Proof.
  eapply appends_trans; [apply store_uint_appends|].
  eapply appends_trans; [apply store_uint_appends|apply store_bits_appends].
Qed.

(** ** The parser consumes bits *)

Definition rest (p : CellParser) : list bool := drop (p_bit p) (cell_bits (p_cell p)).
Definition advance (p : CellParser) (n : nat) : CellParser := mkParser (p_cell p) (p_bit p + n) (p_next_ref p).
Definition parser_ok (p : CellParser) : Prop := (p_bit p <= bit_len (p_cell p))%nat.

Definition bits_val (l : list bool) : Z := foldl (fun v b => 2 * v + Z.b2z b) 0 l.

Lemma rest_length p : length (rest p) = (bit_len (p_cell p) - p_bit p)%nat.
Proof. unfold rest. by rewrite length_drop, length_cell_bits. Qed.

Lemma rest_advance p bs l : rest p = bs ++ l -> rest (advance p (length bs)) = l.
Proof. intros H. unfold rest, advance in *. cbn [p_cell p_bit]. by rewrite <- drop_drop, H, drop_app_length. Qed.

Lemma load_bit_cons p b l : rest p = b :: l -> load_bit p = (Some b, advance p 1).
Proof.
  intros H. assert (length (rest p) = S (length l)) as Hlen by (by rewrite H). rewrite rest_length in Hlen.
  unfold load_bit. rewrite (proj2 (Nat.leb_gt _ _)) by lia. unfold advance. rewrite Nat.add_1_r.
  assert (cell_bits (p_cell p) !! p_bit p = Some b) as Hb.
  { apply (f_equal (fun x => x !! 0%nat)) in H. unfold rest in H. rewrite lookup_drop, Nat.add_0_r in H. done. }
  rewrite cell_bits_lookup in Hb by lia. by injection Hb as <-.
Qed.

Lemma bits_val_cons acc l : foldl (fun v b => 2 * v + Z.b2z b) acc l = acc * 2 ^ Z.of_nat (length l) + bits_val l.
Proof.
  unfold bits_val. revert acc. induction l as [|b l IH]; intros acc; cbn [foldl length]; [rewrite Z.mul_1_r; lia|].
  rewrite (IH (2 * acc + Z.b2z b)), (IH (2 * 0 + Z.b2z b)), Nat2Z.inj_succ, Z.pow_succ_r by lia. lia.
Qed.

Lemma bits_val_bound l : 0 <= bits_val l < 2 ^ Z.of_nat (length l).
Proof.
  induction l as [|b l IH]; [done|]. unfold bits_val. cbn [foldl length].
  rewrite bits_val_cons, Nat2Z.inj_succ, Z.pow_succ_r by lia. destruct b; simpl; lia.
Qed.

Lemma lor_double v b : 0 <= v -> Z.lor (v * 2) (Z.b2z b) = 2 * v + Z.b2z b.
Proof.
  intros Hv. rewrite Z.mul_comm. destruct b; cbn [Z.b2z]; [|rewrite Z.lor_0_r; lia].
  destruct v as [|q|q]; [done| |lia]. done.
Qed.

Lemma load_uint_loop_spec n v p bs l :
  rest p = bs ++ l -> length bs = n -> 0 <= v -> (v + 1) * 2 ^ Z.of_nat n <= 2 ^ 128 ->
  load_uint_loop n v p = (Some (v * 2 ^ Z.of_nat n + bits_val bs), advance p n).
Proof.
  revert v p bs. induction n as [|n IH]; intros v p bs Hr Hl Hv Hb.
  { destruct bs; [|done]. cbn. rewrite Z.mul_1_r. unfold advance. destruct p; simpl. do 2 f_equal; [f_equal; unfold bits_val; simpl; lia|lia]. }
  destruct bs as [|b bs]; [done|]. cbn [load_uint_loop]. rewrite (load_bit_cons p b (bs ++ l)) by done.
  rewrite Nat2Z.inj_succ, Z.pow_succ_r in Hb by lia.
  pose proof (Z.pow_pos_nonneg 2 (Z.of_nat n) ltac:(lia) ltac:(lia)).
  assert (Z.lor (wrap 128 (Z.shiftl v 1)) (Z.b2z b) = 2 * v + Z.b2z b) as ->.
  { rewrite Z.shiftl_mul_pow2 by lia. unfold wrap. rewrite Z.mod_small by (change (2 ^ 1) with 2; nia).
    change (v * 2 ^ 1) with (v * 2). by apply lor_double. }
  rewrite (IH _ _ bs); [|apply (rest_advance p [b] (bs ++ l)); done|simpl in Hl; lia|destruct b; simpl; lia|destruct b; simpl; nia].
  unfold advance; cbn [p_cell p_bit p_next_ref]. f_equal; [|f_equal; lia]. f_equal.
  unfold bits_val at 2. cbn [foldl]. rewrite bits_val_cons, Nat2Z.inj_succ, Z.pow_succ_r by lia.
  simpl in Hl. replace (length bs) with n by lia. lia.
Qed.

Lemma load_uint_spec p n bs l :
  rest p = bs ++ l -> length bs = n -> (n <= 128)%nat -> parser_ok p ->
  load_uint p n = (Some (bits_val bs), advance p n).
Proof.
  intros Hr Hl Hn Hp. unfold load_uint.
  assert (length (rest p) = (n + length l)%nat) as Hlen by (by rewrite Hr, length_app, Hl).
  rewrite rest_length in Hlen. unfold parser_ok in Hp.
  rewrite (proj2 (Nat.ltb_ge _ _)) by lia. rewrite (proj2 (Nat.ltb_ge _ _)) by lia. cbn [orb].
  rewrite (load_uint_loop_spec n 0 p bs l); [by rewrite Z.mul_0_l, Z.add_0_l|done|done|done|].
  rewrite Z.mul_1_l. apply Z.pow_le_mono_r; lia.
Qed.

Lemma advance_ok p bs l : rest p = bs ++ l -> parser_ok p -> parser_ok (advance p (length bs)).
Proof.
  intros Hr Hp. unfold parser_ok, advance in *. cbn [p_cell p_bit].
  assert (length (rest p) = (length bs + length l)%nat) as Hlen by (by rewrite Hr, length_app).
  rewrite rest_length in Hlen. lia.
Qed.

Lemma bits_val_uint v n : bits_val (uint_bits v n) = v mod 2 ^ Z.of_nat n.
Proof.
  induction n as [|n IH]; [by rewrite Z.mod_1_r|]. unfold uint_bits. rewrite down_S, fmap_cons.
  unfold bits_val. cbn [foldl]. rewrite bits_val_cons. fold (uint_bits v n). rewrite IH, length_uint_bits.
  rewrite Nat2Z.inj_succ. set (k := Z.of_nat n). assert (0 <= k) by lia.
  apply Z.bits_inj'. intros i Hi.
  rewrite <- Z.add_1_r, Z.pow_add_r, Z.rem_mul_r by (try apply Z.pow_nonzero; lia).
  f_equal. rewrite Z.mul_0_r, Z.add_0_l. rewrite (Z.testbit_spec' v k) by lia. change (2 ^ 1) with 2. lia.
Qed.

(** A reader [f] decodes [v] from the bits [l]. *)
Definition reads {A} (f : CellParser -> option A * CellParser) (l : list bool) (v : A) : Prop :=
  forall p k, parser_ok p -> rest p = l ++ k -> f p = (Some v, advance p (length l)).

Lemma reads_rest {A} f l (v : A) p k :
  reads f l v -> parser_ok p -> rest p = l ++ k ->
  exists p', f p = (Some v, p') /\ parser_ok p' /\ rest p' = k
    /\ p_next_ref p' = p_next_ref p /\ p_cell p' = p_cell p.
Proof.
  intros H Hp Hr. exists (advance p (length l)). split; [by apply (H p k)|].
  split; [by apply (advance_ok p l k)|]. split; [by apply rest_advance|]. done.
Qed.

Lemma reads_uint v n : in_u (Z.of_nat n) v -> (n <= 128)%nat -> reads (fun p => load_uint p n) (uint_bits v n) v.
Proof.
  intros Hv Hn p k Hp Hr. rewrite length_uint_bits.
  rewrite (load_uint_spec p n (uint_bits v n) k); [|done|apply length_uint_bits|done|done].
  rewrite bits_val_uint, Z.mod_small by done. done.
Qed.

Lemma reads_int v n :
  (0 < n <= 64)%nat -> in_i (Z.of_nat n) v -> reads (fun p => load_int p n) (int_bits v n) v.
Proof.
  intros Hn [Hlo Hhi] p k Hp Hr. unfold load_int, int_bits in *. rewrite Nat.min_l in * by lia.
  set (u := wrap (Z.of_nat n) v) in *.
  assert (0 < 2 ^ (Z.of_nat n - 1)) as Hpos by (apply Z.pow_pos_nonneg; lia).
  assert (2 ^ Z.of_nat n = 2 * 2 ^ (Z.of_nat n - 1)) as Ep.
  { rewrite <- Z.pow_succ_r by lia. f_equal. lia. }
  assert (in_u (Z.of_nat n) u) as Hu by (unfold in_u, u, wrap; apply Z.mod_pos_bound; lia).
  rewrite (reads_uint u n Hu ltac:(lia) p k Hp Hr). rewrite (proj2 (Nat.ltb_lt 0 n)) by lia. cbn [andb].
  assert (u = if decide (0 <= v) then v else v + 2 ^ Z.of_nat n) as Eu.
  { unfold u, wrap. destruct (decide (0 <= v)); [apply Z.mod_small; lia|].
    symmetry. apply Z.mod_unique_pos with (-1); lia. }
  assert (Z.testbit u (Z.of_nat n - 1) = negb (bool_decide (0 <= v))) as ->.
  { unfold in_u in Hu. destruct (Z.testbit u (Z.of_nat n - 1)) eqn:Et; case_bool_decide; try done; exfalso.
    - rewrite decide_True in Eu by done. rewrite Z.testbit_true in Et by lia.
      rewrite Z.div_small in Et by lia. done.
    - rewrite decide_False in Eu by done. rewrite Z.testbit_false in Et by lia.
      assert (u / 2 ^ (Z.of_nat n - 1) = 1) as Ed by (symmetry; apply Z.div_unique_pos with (u - 2 ^ (Z.of_nat n - 1)); lia).
      rewrite Ed in Et. done. }
  case_bool_decide; cbn [negb]; rewrite Eu; [by rewrite decide_True|].
  rewrite decide_False by done. by rewrite Z.add_simpl_r.
Qed.

Lemma coin_bytes_spec v : 0 <= v < 2 ^ 120 ->
  (coin_bytes v <= 15)%nat /\ v < 2 ^ Z.of_nat (8 * coin_bytes v) /\ (coin_bytes v = 0%nat -> v = 0).
Proof.
  intros Hv. unfold coin_bytes. destruct (Z.eqb_spec v 0) as [->|Hne]; [cbn; lia|].
  pose proof (Z.log2_nonneg v). assert (Z.log2 v < 120) by (apply Z.log2_lt_pow2; lia).
  pose proof (Z.log2_spec v ltac:(lia)) as [_ Hs]. unfold div_ceil.
  set (L := Z.log2 v) in *. pose proof (Z.div_mod (L + 1 + 8 - 1) 8 ltac:(lia)).
  pose proof (Z.mod_pos_bound (L + 1 + 8 - 1) 8 ltac:(lia)). set (q := (L + 1 + 8 - 1) / 8) in *.
  split; [lia|]. split; [|lia].
  apply Z.lt_le_trans with (2 ^ Z.succ L); [done|]. apply Z.pow_le_mono_r; lia.
Qed.

Lemma reads_coins v : 0 <= v < 2 ^ 120 -> reads load_coins (coin_bits v) v.
Proof.
  intros Hv p k Hp Hr. destruct (coin_bytes_spec v Hv) as (H15 & Hlt & H0). unfold coin_bits, load_coins in *.
  rewrite <- app_assoc in Hr.
  pose proof (reads_uint (Z.of_nat (coin_bytes v)) 4 ltac:(unfold in_u; simpl; lia) ltac:(lia) p _ Hp Hr) as E.
  cbv beta in E. rewrite E. pose proof (advance_ok _ _ _ Hr Hp) as Hp'. pose proof (rest_advance _ _ _ Hr) as Hr'.
  rewrite length_app, length_uint_bits in *. rewrite !length_uint_bits.
  destruct (Z.eqb_spec (Z.of_nat (coin_bytes v)) 0) as [Ez|Ez].
  - assert (coin_bytes v = 0%nat) as Ec by lia. rewrite Ec, (H0 Ec). rewrite Nat.mul_0_r, Nat.add_0_r. done.
  - rewrite Nat2Z.id, (Nat.mul_comm (coin_bytes v) 8).
    rewrite (reads_uint v (8 * coin_bytes v) ltac:(unfold in_u; lia) ltac:(lia) _ k Hp' Hr').
    rewrite length_uint_bits. unfold advance. cbn [p_cell p_bit p_next_ref]. do 2 f_equal. lia.
Qed.

Lemma load_bits_loop_spec n s out p bs l :
  rest p = bs ++ l -> length bs = n -> (s + n <= 8 * length out)%nat ->
  exists out', load_bits_loop (seq s n) out p = (Some out', advance p n) /\ length out' = length out
    /\ forall i, get_bit out' i = ((s <=? i)%nat && nth (i - s) bs false) || get_bit out i.
Proof.
  revert s out p bs. induction n as [|n IH]; intros s out p bs Hr Hl Hs.
  { destruct bs; [|done]. exists out. cbn. split; [|split; [done|]].
    - unfold advance. destruct p. simpl. by rewrite Nat.add_0_r.
    - intros i. destruct (i - s)%nat; by rewrite andb_false_r. }
  destruct bs as [|b bs]; [done|]. cbn [seq load_bits_loop]. rewrite (load_bit_cons p b (bs ++ l)) by done.
  set (out1 := if b then alter (set_bit (s mod 8)) (s / 8)%nat out else out).
  assert (length out1 = length out) as Hl1 by (unfold out1; destruct b; [apply length_alter|done]).
  destruct (IH (S s) out1 (advance p 1) bs) as (out' & E & Hl' & Hg).
  { by apply (rest_advance p [b]). }
  { simpl in Hl. lia. }
  { lia. }
  exists out'. split; [|split; [lia|]].
  - rewrite E. unfold advance. cbn [p_cell p_bit p_next_ref]. do 2 f_equal. lia.
  - intros i. rewrite Hg. assert (get_bit out1 i = ((i =? s)%nat && b) || get_bit out i) as ->.
    { unfold out1. destruct b; [rewrite get_bit_set by lia; by rewrite andb_true_r|by rewrite andb_false_r]. }
    destruct (Nat.lt_trichotomy i s) as [Hlt|[->|Hgt]].
    + rewrite (proj2 (Nat.leb_gt (S s) i)), (proj2 (Nat.leb_gt s i)), (proj2 (Nat.eqb_neq i s)) by lia. done.
    + rewrite (proj2 (Nat.leb_gt (S s) s)), Nat.leb_refl, Nat.eqb_refl, Nat.sub_diag by lia. done.
    + rewrite (proj2 (Nat.leb_le (S s) i)), (proj2 (Nat.leb_le s i)), (proj2 (Nat.eqb_neq i s)) by lia.
      replace (i - s)%nat with (S (i - S s)) by lia. done.
Qed.

Lemma nth_fmap_seq (f : nat -> bool) n i : nth i (f <$> seq 0 n) false = if (i <? n)%nat then f i else false.
Proof.
  rewrite nth_lookup, list_lookup_fmap. destruct (Nat.ltb_spec i n).
  - by rewrite lookup_seq_lt.
  - by rewrite lookup_seq_ge.
Qed.

Lemma reads_bits h n :
  length h = ((n + 7) / 8)%nat -> (forall i, (n <= i)%nat -> get_bit h i = false) ->
  reads (fun p => load_bits p n) (get_bit h <$> seq 0 n) h.
Proof.
  intros Hl Hz p k Hp Hr. unfold load_bits. rewrite length_fmap, length_seq.
  destruct (load_bits_loop_spec n 0 (replicate ((n + 7) / 8) Byte.x00) p _ k Hr) as (out & E & Hlo & Hg).
  { by rewrite length_fmap, length_seq. }
  { rewrite length_replicate. pose proof (Nat.div_mod_eq (n + 7) 8). pose proof (Nat.mod_upper_bound (n + 7) 8 ltac:(lia)). lia. }
  rewrite E. do 2 f_equal. apply get_bit_ext; [by rewrite Hlo, length_replicate|].
  intros i. rewrite Hg, Nat.sub_0_r, nth_fmap_seq. cbn [andb].
  assert (get_bit (replicate ((n + 7) / 8) Byte.x00) i = false) as ->.
  { unfold get_bit. rewrite nth_lookup. destruct (replicate _ _ !! _) eqn:El; cbn; [|apply byte_bit_zero].
    apply lookup_replicate in El as [-> _]. apply byte_bit_zero. }
  rewrite orb_false_r. change (0 <=? i)%nat with true. cbn [andb].
  destruct (Nat.ltb_spec i n); [done|]. symmetry. by apply Hz.
Qed.

Definition Address_wf (a : WalletAddress) : Prop := in_i 8 (workchain a) /\ length (hash a) = 32%nat.
#[global] Instance Address_wf_dec a : Decision (Address_wf a).
Proof. unfold Address_wf. apply _. Defined.

Lemma reads_address a : Address_wf a -> reads load_address (address_bits a) a.
Proof.
  intros [Hw Hh] p k Hp Hr. unfold address_bits in *.
  change (uint_bits 4 3) with (uint_bits 2 2 ++ [false]) in *. rewrite <- !app_assoc in Hr.
  unfold load_address.
  pose proof (reads_uint 2 2 ltac:(unfold in_u; simpl; lia) ltac:(lia) p _ Hp Hr) as E1. cbv beta in E1. rewrite E1.
  pose proof (advance_ok _ _ _ Hr Hp) as Hp1. apply rest_advance in Hr. cbn [Z.eqb negb Pos.eqb].
  rewrite (load_bit_cons _ _ _ Hr).
  pose proof (advance_ok _ [false] _ Hr Hp1) as Hp2. apply (rest_advance _ [false]) in Hr. cbn [length] in Hp2, Hr.
  rewrite (reads_int (workchain a) 8 ltac:(lia) Hw _ _ Hp2 Hr).
  pose proof (advance_ok _ _ _ Hr Hp2) as Hp3. apply rest_advance in Hr.
  assert (reads (fun p => load_bits p 256) (get_bit (hash a) <$> seq 0 256) (hash a)) as Hb.
  { apply reads_bits; [by rewrite Hh|]. intros i Hi. apply get_bit_beyond. lia. }
  rewrite (Hb _ _ Hp3 Hr). unfold advance. cbn [p_cell p_bit p_next_ref].
  assert (length ((uint_bits 2 2 ++ [false]) ++ int_bits (workchain a) 8 ++ (get_bit (hash a) <$> seq 0 256)) = 267%nat) as ->.
  { unfold int_bits. rewrite !length_app, !length_uint_bits, length_fmap, length_seq. done. }
  unfold int_bits. rewrite !length_uint_bits, length_fmap, length_seq. destruct a. do 2 f_equal. lia.
Qed.

(** ** Typed fields: a cell is a sequence of them *)

Inductive Field :=
| FUint (v : Z) (n : nat) | FInt (v : Z) (n : nat) | FCoins (v : Z) | FAddress (a : WalletAddress)
| FU256 (h : Hash32) | FRef (c : Cell).

Definition store_field (c : Cell) (f : Field) : Cell :=
  match f with
  | FUint v n => store_uint c v n
  | FInt v n => store_int c v n
  | FCoins v => store_coins c v
  | FAddress a => store_address c a
  | FU256 h => store_u256 c h
  | FRef r => store_ref c r
  end.

(** Reads a field of the same kind and width. *)
Definition load_like (f : Field) (p : CellParser) : option Field * CellParser :=
  match f with
  | FUint _ n => let (r, p') := load_uint p n in ((fun v => FUint v n) <$> r, p')
  | FInt _ n => let (r, p') := load_int p n in ((fun v => FInt v n) <$> r, p')
  | FCoins _ => let (r, p') := load_coins p in (FCoins <$> r, p')
  | FAddress _ => let (r, p') := load_address p in (FAddress <$> r, p')
  | FU256 _ => let (r, p') := load_bits p 256 in (FU256 <$> r, p')
  | FRef _ => let (r, p') := load_ref p in (FRef <$> r, p')
  end.

Fixpoint load_all (fs : list Field) (p : CellParser) : option (list Field) * CellParser :=
  match fs with
  | [] => (Some [], p)
  | f :: fs' =>
      match load_like f p with
      | (None, p') => (None, p')
      | (Some g, p') => let (r, p'') := load_all fs' p' in ((fun l => g :: l) <$> r, p'')
      end
  end.

Definition Field_wf (f : Field) : Prop :=
  match f with
  | FUint v n => in_u (Z.of_nat n) v /\ (n <= 128)%nat
  | FInt v n => in_i (Z.of_nat n) v /\ (0 < n <= 64)%nat
  | FCoins v => 0 <= v < 2 ^ 120
  | FAddress a => Address_wf a
  | FU256 h => length h = 32%nat
  | FRef _ => True
  end.
#[global] Instance Field_wf_dec f : Decision (Field_wf f).
Proof. destruct f; apply _. Defined.

Definition field_bits (f : Field) : list bool :=
  match f with
  | FUint v n => uint_bits v n
  | FInt v n => int_bits v n
  | FCoins v => coin_bits v
  | FAddress a => address_bits a
  | FU256 h => get_bit h <$> seq 0 256
  | FRef _ => []
  end.

Definition field_refs (f : Field) : list Cell := match f with FRef r => [r] | _ => [] end.

Lemma store_field_spec c f :
  Cell_ok c -> Cell_ok (store_field c f)
  /\ cell_bits (store_field c f) = cell_bits c ++ field_bits f
  /\ refs (store_field c f) = refs c ++ field_refs f.
Proof.
  intros Hc. assert (forall l c', appends c l c' ->
    Cell_ok c' /\ cell_bits c' = cell_bits c ++ l /\ refs c' = refs c ++ []) as H.
  { intros l c' H. destruct (H Hc) as (? & ? & ?). by rewrite app_nil_r. }
  destruct f; cbn [store_field field_bits field_refs]; try apply H.
  - apply store_uint_appends.
  - apply store_uint_appends.
  - apply store_coins_appends.
  - apply store_address_appends.
  - apply store_bits_appends.
  - rewrite app_nil_r. done.
Qed.

Lemma load_like_spec f p k :
  Field_wf f -> parser_ok p -> rest p = field_bits f ++ k ->
  drop (p_next_ref p) (refs (p_cell p)) = field_refs f ++ drop (p_next_ref p + length (field_refs f)) (refs (p_cell p)) ->
  load_like f p = (Some f, mkParser (p_cell p) (p_bit p + length (field_bits f)) (p_next_ref p + length (field_refs f))).
Proof.
  intros Hf Hp Hr Hrf. destruct f; cbn [load_like field_bits field_refs length] in *; rewrite ?Nat.add_0_r.
  - destruct Hf as [Hv Hn]. by rewrite (reads_uint v n Hv Hn p k Hp Hr).
  - destruct Hf as [Hv Hn]. by rewrite (reads_int v n Hn Hv p k Hp Hr).
  - by rewrite (reads_coins v Hf p k Hp Hr).
  - by rewrite (reads_address a Hf p k Hp Hr).
  - assert (reads (fun p => load_bits p 256) (get_bit h <$> seq 0 256) h) as Hb.
    { cbn in Hf. apply reads_bits; [by rewrite Hf|]. intros i Hi. apply get_bit_beyond. lia. }
    by rewrite (Hb p k Hp Hr).
  - unfold load_ref. apply (f_equal (fun l => l !! 0%nat)) in Hrf. rewrite lookup_drop, Nat.add_0_r in Hrf.
    rewrite Hrf. cbn. by rewrite Nat.add_1_r.
Qed.

Lemma store_all_spec fs c :
  Cell_ok c -> Cell_ok (foldl store_field c fs)
  /\ cell_bits (foldl store_field c fs) = cell_bits c ++ mjoin (field_bits <$> fs)
  /\ refs (foldl store_field c fs) = refs c ++ mjoin (field_refs <$> fs).
Proof.
  revert c. induction fs as [|f fs IH]; intros c Hc; cbn [foldl].
  { rewrite !app_nil_r. done. }
  destruct (store_field_spec c f Hc) as (H1 & H2 & H3). destruct (IH _ H1) as (G1 & G2 & G3).
  rewrite G2, G3, H2, H3, !fmap_cons. cbn [mjoin list_join]. by rewrite <- !app_assoc.
Qed.

Lemma load_all_spec fs p k kr :
  Forall Field_wf fs -> parser_ok p -> rest p = mjoin (field_bits <$> fs) ++ k ->
  drop (p_next_ref p) (refs (p_cell p)) = mjoin (field_refs <$> fs) ++ kr ->
  exists p', load_all fs p = (Some fs, p') /\ rest p' = k /\ p_cell p' = p_cell p
    /\ drop (p_next_ref p') (refs (p_cell p)) = kr.
Proof.
  intros Hf. revert p. induction Hf as [|f fs Hf _ IH]; intros p Hp Hr Hrf; cbn [load_all].
  { by exists p. }
  rewrite fmap_cons in Hr. rewrite fmap_cons in Hrf. cbn [mjoin list_join] in Hr, Hrf.
  rewrite <- app_assoc in Hr. rewrite <- app_assoc in Hrf.
  assert (drop (p_next_ref p + length (field_refs f)) (refs (p_cell p)) = mjoin (field_refs <$> fs) ++ kr) as Hd.
  { by rewrite <- drop_drop, Hrf, drop_app_length. }
  rewrite (load_like_spec f p _ Hf Hp Hr) by (by rewrite Hd).
  set (p1 := mkParser _ _ _).
  destruct (IH p1) as (p' & E & G1 & G2 & G3).
  - apply (advance_ok p _ _ Hr Hp).
  - apply (rest_advance p _ _ Hr).
  - done.
  - exists p'. rewrite E. done.
Qed.

(** What the builder writes the parser reads back: any sequence of unsigned and
    signed integers, coins below 2^120, standard addresses, 256-bit hashes and
    references, stored into a fresh cell and loaded in the same order, comes back
    unchanged, with no bit and no reference left over. *)
Theorem cell_fields_roundtrip (fs : list Field) :
  Forall Field_wf fs ->
  exists p', load_all fs (parser (foldl store_field empty_builder fs)) = (Some fs, p')
    /\ remaining_bits p' = 0%nat /\ remaining_refs p' = 0%nat.
Proof.
  intros Hf. destruct (store_all_spec fs empty_builder) as (H1 & H2 & H3).
  { split; [done|]. intros i _. by apply get_bit_beyond, Nat.le_0_l. }
  set (c := foldl store_field empty_builder fs) in *.
  destruct (load_all_spec fs (parser c) [] []) as (p' & E & Hr & Hc & Hd); try done.
  - unfold parser_ok, parser. cbn [p_bit]. lia.
  - unfold rest, parser. cbn [p_bit p_cell]. rewrite drop_0, app_nil_r. apply H2.
  - cbn [p_next_ref parser p_cell]. rewrite drop_0, app_nil_r. apply H3.
  - exists p'. split; [done|]. unfold remaining_bits, remaining_refs. rewrite <- rest_length, Hr. split; [done|].
    rewrite Hc. apply (f_equal length) in Hd. by rewrite length_drop in Hd.
Qed.

(** An escrow-like body: opcode, amount, payee, a signed field, a code hash, a child. *)
Definition fields_example : list Field :=
  [FUint 1196441857 32; FCoins 1234567890; FCoins 0; FAddress (mkWallet (-1) (replicate 32 Byte.xab));
   FInt (-3) 8; FU256 (replicate 32 Byte.x05); FRef (store_uint empty_builder 48879 16)].

Lemma cell_fields_roundtrip_witness :
  exists p', load_all fields_example (parser (foldl store_field empty_builder fields_example))
             = (Some fields_example, p')
    /\ remaining_bits p' = 0%nat /\ remaining_refs p' = 0%nat.
Proof. apply (cell_fields_roundtrip fields_example). decide_closed. Defined.

(** The two ways to derive a contract address agree: hashing the StateInit cell
    built from the code, and hashing its fixed layout from the code's hash and depth
    alone. *)
Theorem state_init_address_agrees {C : Crypto} (wc : Z) (code d : Cell) :
  from_state_init wc code d = from_code_hash_state_init wc (repr_hash code) (depth code) d.
Proof.
  unfold from_state_init, from_code_hash_state_init. f_equal.
  change (repr_hash (state_init_cell code d))
    with (sha256 ([byte_of_Z 2; byte_of_Z 1] ++ [byte_of_Z 52]
            ++ mjoin [be_bytes 2 (depth code); be_bytes 2 (depth d)] ++ mjoin [repr_hash code; repr_hash d])).
  cbn [mjoin list_join]. by rewrite !app_nil_r, <- !app_assoc.
Qed.

(** ** The representation hash determines the cell *)

Section binding.
Context {C : Crypto} {CL : CryptoLaws C}.

Fixpoint cell_queries (c : Cell) : list bytes :=
  let 'mkCell _ _ rs := c in repr_preimage c :: mjoin (cell_queries <$> rs).

(** An ordinary cell: packed bits, at most 1023 of them, at most four references. *)
Inductive Tree_ok : Cell -> Prop :=
| tree_ok c : Cell_ok c -> (bit_len c <= 1023)%nat -> (length (refs c) <= 4)%nat ->
    Forall Tree_ok (refs c) -> Tree_ok c.

Lemma cell_ind' (P : Cell -> Prop) :
  (forall d n rs, Forall P rs -> P (mkCell d n rs)) -> forall c, P c.
Proof using Type.
  intros H. fix IH 1. intros [d n rs]. apply H. induction rs as [|r rs IHrs]; constructor; [apply IH|apply IHrs].
Qed.

Lemma repr_hash_preimage c : repr_hash c = sha256 (repr_preimage c).
Proof using Type. by destruct c. Qed.

Lemma repr_hash_length c : length (repr_hash c) = 32%nat.
Proof using CL. rewrite repr_hash_preimage. apply sha256_len. Qed.

Lemma augmented_length c : length (augmented_data c) = length (data c).
Proof using Type. unfold augmented_data. destruct (_ =? 0)%nat; [done|]. apply length_alter. Qed.

Lemma augmented_bit c i :
  Cell_ok c -> get_bit (augmented_data c) i =
  (negb (bit_len c mod 8 =? 0)%nat && (i =? bit_len c)%nat) || get_bit (data c) i.
Proof using Type.
  intros [Hl _]. unfold augmented_data. destruct (Nat.eqb_spec (bit_len c mod 8) 0) as [E|E]; [done|].
  cbn [negb andb]. pose proof (Nat.div_mod_eq (bit_len c) 8) as Ed.
  pose proof (Nat.mod_upper_bound (bit_len c) 8 ltac:(lia)).
  assert (length (data c) = S (bit_len c / 8)) as Hlen.
  { rewrite Hl. replace (bit_len c + 7)%nat with ((bit_len c / 8 + 1) * 8 + (bit_len c mod 8 - 1))%nat by lia.
    rewrite Nat.div_add_l by lia. rewrite (Nat.div_small (bit_len c mod 8 - 1)) by lia. lia. }
  rewrite Hlen. replace (S (bit_len c / 8) - 1)%nat with (bit_len c / 8)%nat by lia.
  rewrite get_bit_set by lia. done.
Qed.

(** Same descriptor and same augmented bytes: same bits. *)
Lemma augmented_inj c d :
  Cell_ok c -> Cell_ok d -> (bit_len c / 8 = bit_len d / 8)%nat ->
  (bit_len c mod 8 = 0 <-> bit_len d mod 8 = 0)%nat ->
  augmented_data c = augmented_data d -> bit_len c = bit_len d /\ data c = data d.
Proof using Type.
  intros Hc Hd Hq Hm Ha.
  pose proof (Nat.div_mod_eq (bit_len c) 8). pose proof (Nat.div_mod_eq (bit_len d) 8).
  assert (forall i, (negb (bit_len c mod 8 =? 0)%nat && (i =? bit_len c)%nat) || get_bit (data c) i
    = (negb (bit_len d mod 8 =? 0)%nat && (i =? bit_len d)%nat) || get_bit (data d) i) as Hbits.
  { intros i. rewrite <- !augmented_bit by done. by rewrite Ha. }
  assert (bit_len c = bit_len d) as Hn.
  { destruct (Nat.eq_dec (bit_len c mod 8) 0) as [E|E]; [lia|].
    destruct (Nat.lt_trichotomy (bit_len c) (bit_len d)) as [Hlt|[|Hgt]]; [exfalso|done|exfalso].
    - specialize (Hbits (bit_len d)). rewrite Nat.eqb_refl in Hbits.
      rewrite (proj2 (Nat.eqb_neq (bit_len d mod 8) 0)) in Hbits by tauto.
      rewrite (proj2 (Nat.eqb_neq (bit_len d) (bit_len c))) in Hbits by lia.
      rewrite (proj2 Hc) in Hbits by lia. by rewrite andb_false_r in Hbits.
    - specialize (Hbits (bit_len c)). rewrite Nat.eqb_refl in Hbits.
      rewrite (proj2 (Nat.eqb_neq (bit_len c mod 8) 0)) in Hbits by done.
      rewrite (proj2 (Nat.eqb_neq (bit_len c) (bit_len d))) in Hbits by lia.
      rewrite (proj2 Hd) in Hbits by lia. by rewrite andb_false_r in Hbits. }
  split; [done|]. apply get_bit_ext.
  - by rewrite (proj1 Hc), (proj1 Hd), Hn.
  - intros i. specialize (Hbits i). rewrite Hn in Hbits.
    destruct (Nat.eqb_spec i (bit_len d)) as [E|].
    + rewrite (proj2 Hc), (proj2 Hd) by lia. done.
    + by rewrite !andb_false_r in Hbits.
Qed.

Lemma descriptor_inj c d :
  (bit_len c <= 1023)%nat -> (bit_len d <= 1023)%nat -> (length (refs c) <= 4)%nat -> (length (refs d) <= 4)%nat ->
  descriptor c = descriptor d ->
  length (refs c) = length (refs d) /\ (bit_len c / 8 = bit_len d / 8)%nat
  /\ (bit_len c mod 8 = 0 <-> bit_len d mod 8 = 0)%nat.
Proof using Type.
  intros Hc Hd Hrc Hrd H. unfold descriptor in H. apply cons_inj_pair in H as [H1 H].
  apply cons_inj_pair in H as [H2 _].
  apply (f_equal byte_val) in H1, H2. rewrite !byte_of_Z_small in H1 by lia.
  assert (forall n, (n <= 1023)%nat -> (n / 8 <= 127)%nat) as Hq.
  { intros n Hn. apply Nat.lt_succ_r. apply Nat.Div0.div_lt_upper_bound. lia. }
  pose proof (Hq _ Hc). pose proof (Hq _ Hd).
  set (qc := (bit_len c / 8)%nat) in *. set (qd := (bit_len d / 8)%nat) in *.
  split; [lia|].
  destruct (Nat.eqb_spec (bit_len c mod 8) 0) as [Ec|Ec], (Nat.eqb_spec (bit_len d mod 8) 0) as [Ed|Ed];
    rewrite !byte_of_Z_small in H2 by lia.
  - split; [lia|tauto].
  - exfalso; lia.
  - exfalso; lia.
  - split; [lia|tauto].
Qed.

Lemma augmented_length_eq c d :
  Cell_ok c -> Cell_ok d -> (bit_len c / 8 = bit_len d / 8)%nat ->
  (bit_len c mod 8 = 0 <-> bit_len d mod 8 = 0)%nat ->
  length (augmented_data c) = length (augmented_data d).
Proof using Type.
  intros [Hc _] [Hd _] Hq Hm. rewrite !augmented_length, Hc, Hd.
  pose proof (Nat.div_mod_eq (bit_len c) 8). pose proof (Nat.div_mod_eq (bit_len d) 8).
  pose proof (Nat.mod_upper_bound (bit_len c) 8 ltac:(lia)). pose proof (Nat.mod_upper_bound (bit_len d) 8 ltac:(lia)).
  destruct (Nat.eq_dec (bit_len c mod 8) 0) as [E|E]; [f_equal; lia|].
  assert (bit_len d mod 8 <> 0)%nat by tauto.
  replace (bit_len c + 7)%nat with ((bit_len c / 8 + 1) * 8 + (bit_len c mod 8 - 1))%nat by lia.
  replace (bit_len d + 7)%nat with ((bit_len c / 8 + 1) * 8 + (bit_len d mod 8 - 1))%nat by lia.
  rewrite !Nat.div_add_l by lia.
  rewrite (Nat.div_small (bit_len c mod 8 - 1)), (Nat.div_small (bit_len d mod 8 - 1)) by lia. done.
Qed.

(** Equal preimages: equal bits, and equal hashes of the references in order. *)
Lemma repr_preimage_inj c d :
  Tree_ok c -> Tree_ok d -> repr_preimage c = repr_preimage d ->
  data c = data d /\ bit_len c = bit_len d /\ repr_hash <$> refs c = repr_hash <$> refs d.
Proof using CL.
  intros Hc Hd H. destruct Hc as [c Oc Bc Rc _], Hd as [d Od Bd Rd _].
  unfold repr_preimage in H. apply app_inj_1 in H as [Hds H]; [|done].
  apply descriptor_inj in Hds as (Hr & Hq & Hm); [|done..].
  apply app_inj_1 in H as [Ha H]; [|by apply augmented_length_eq].
  apply augmented_inj in Ha as [Hbl Hdt]; [|done..]. split; [done|]. split; [done|].
  assert (forall l : list Cell, length (mjoin ((fun r => be_bytes 2 (depth r)) <$> l)) = (2 * length l)%nat) as Hlen.
  { intros l. induction l as [|r l IHl]; [done|]. rewrite fmap_cons.
    change (length (be_bytes 2 (depth r) ++ mjoin ((fun r => be_bytes 2 (depth r)) <$> l)) = (2 * length (r :: l))%nat).
    rewrite length_app, length_be_bytes, IHl. cbn [length]. lia. }
  apply app_inj_1 in H as [_ H]; [|by rewrite !Hlen, Hr].
  rewrite <- (list_fmap_id (repr_hash <$> refs c)), <- (list_fmap_id (repr_hash <$> refs d)) in H.
  assert (forall l : list Cell, Forall (fun b : bytes => length b = 32%nat) (repr_hash <$> l)) as Hall.
  { intros l. apply Forall_fmap, Forall_forall. intros r _. apply repr_hash_length. }
  apply (codec_list_inj (fun b : bytes => length b = 32%nat) (fun b => b)); [done| |done|done].
  by rewrite !length_fmap.
Qed.

Lemma elem_of_queries r c m : r ∈ refs c -> m ∈ cell_queries r -> m ∈ cell_queries c.
Proof using Type.
  intros Hr Hm. destruct c as [d n rs]. cbn [refs cell_queries] in *. right.
  apply list_elem_of_join. exists (cell_queries r). split; [done|]. by apply list_elem_of_fmap_2.
Qed.

Lemma Tree_ok_refs c : Tree_ok c -> Forall Tree_ok (refs c).
Proof using Type. by intros []. Qed.

Lemma repr_hash_inj c d :
  Tree_ok c -> Tree_ok d -> NoCollision sha256 (cell_queries c ++ cell_queries d) ->
  repr_hash c = repr_hash d -> c = d.
Proof using CL.
  revert d. induction c as [dc nc rc IH] using cell_ind'. intros d Hc Hd Hn H.
  assert (repr_preimage (mkCell dc nc rc) = repr_preimage d) as Hp.
  { apply Hn; [apply elem_of_app; left; left| |by rewrite <- !repr_hash_preimage].
    apply elem_of_app; right. destruct d; left. }
  destruct (repr_preimage_inj _ _ Hc Hd Hp) as (E1 & E2 & E3). destruct d as [dd nd rd].
  cbn [data bit_len refs] in *. subst dd nd. f_equal.
  apply Tree_ok_refs in Hc as Fc. apply Tree_ok_refs in Hd as Fd. cbn [refs] in *.
  apply list_eq_same_length with (n := length rc); [|done|].
  { apply (f_equal length) in E3. by rewrite !length_fmap in E3. }
  intros i x y Hi Hx Hy. apply (f_equal (lookup i)) in E3. rewrite !list_lookup_fmap, Hx, Hy in E3.
  cbn [fmap option_fmap option_map] in E3.
  apply list_elem_of_lookup_2 in Hx as Hx', Hy as Hy'.
  rewrite Forall_forall in IH, Fc, Fd. apply IH; [done|by apply Fc|by apply Fd| |congruence].
  refine (NoCollision_sub _ _ _ _ Hn). intros m Hm. apply elem_of_app. apply elem_of_app in Hm as [Hm|Hm].
  - left. by apply (elem_of_queries x).
  - right. by apply (elem_of_queries y).
Qed.

Lemma empty_builder_ok : Cell_ok empty_builder.
Proof using Type. split; [done|]. intros i _. apply get_bit_beyond, Nat.le_0_l. Qed.

(** Whatever the builder makes within the limits of a cell is an ordinary cell. *)
Lemma built_tree_ok fs :
  (length (mjoin (field_bits <$> fs)) <= 1023)%nat -> (length (mjoin (field_refs <$> fs)) <= 4)%nat ->
  Forall Tree_ok (mjoin (field_refs <$> fs)) -> Tree_ok (foldl store_field empty_builder fs).
Proof using Type.
  intros Hb Hr Ht. destruct (store_all_spec fs empty_builder empty_builder_ok) as (H1 & H2 & H3).
  constructor; [done| | |].
  - rewrite <- length_cell_bits, H2. done.
  - by rewrite H3.
  - by rewrite H3.
Qed.

Lemma state_init_fields code d :
  state_init_cell code d = foldl store_field empty_builder [FUint 6 5; FRef code; FRef d].
Proof using Type. done. Qed.

Lemma state_init_tree_ok code d : Tree_ok code -> Tree_ok d -> Tree_ok (state_init_cell code d).
Proof using Type.
  intros Hc Hd. rewrite state_init_fields. apply built_tree_ok; [cbn; lia..|].
  change (Forall Tree_ok [code; d]). by repeat apply Forall_cons_2.
Qed.

(** A contract address commits to the contract: two deployments with one address
    have one workchain, the same code cell and the same initial data cell, in full,
    unless sha256 collides on one of the cells' representations. *)
Theorem state_init_address_binds (wc wc' : Z) (code code' d d' : Cell) :
  Tree_ok code -> Tree_ok code' -> Tree_ok d -> Tree_ok d' ->
  NoCollision sha256 (cell_queries (state_init_cell code d) ++ cell_queries (state_init_cell code' d')) ->
  from_state_init wc code d = from_state_init wc' code' d' -> wc = wc' /\ code = code' /\ d = d'.
Proof using CL.
  intros Hc Hc' Hd Hd' Hn H. unfold from_state_init in H. set (x := repr_hash _) in H at 1. set (y := repr_hash _) in H.
  injection H as -> H. split; [done|].
  apply (repr_hash_inj _ _ (state_init_tree_ok _ _ Hc Hd) (state_init_tree_ok _ _ Hc' Hd') Hn) in H.
  apply (f_equal refs) in H. by injection H as -> ->.
Qed.
End binding.

Definition code_example : Cell := foldl store_field empty_builder [FUint 49374 16; FRef (store_uint empty_builder 5 3)].
Definition data_example : Cell := foldl store_field empty_builder [FUint 305419896 32; FCoins 77].

Lemma state_init_address_binds_witness :
  NoCollision (sha256 (Crypto := toy_crypto))
    (cell_queries (C := toy_crypto) (state_init_cell code_example data_example)
     ++ cell_queries (C := toy_crypto) (state_init_cell code_example data_example))
  /\ 0 = 0 /\ code_example = code_example /\ data_example = data_example.
Proof.
  assert (Tree_ok code_example) as Hc.
  { apply built_tree_ok; [decide_closed..|]. constructor; [|done].
    apply (built_tree_ok [FUint 5 3]); [decide_closed..|by constructor]. }
  assert (Tree_ok data_example) as Hd by (apply built_tree_ok; [decide_closed..|by constructor]).
  assert (NoCollision (sha256 (Crypto := toy_crypto))
    (cell_queries (C := toy_crypto) (state_init_cell code_example data_example)
     ++ cell_queries (C := toy_crypto) (state_init_cell code_example data_example))) as Hn by decide_closed.
  split; [exact Hn|].
  exact (state_init_address_binds (C := toy_crypto) (CL := toy_laws) 0 0 code_example code_example
    data_example data_example Hc Hc Hd Hd Hn eq_refl).
Defined.
