(* ===== verification/Dict.v ===== *)
(** * TON dictionaries (crates/settlement/src/cell.rs, [HashmapE])

    The builder of the binary radix tree a contract reads as a [map<K, V>]: edge
    labels in the shortest of three forms, forks at the first bit where keys
    differ, values spliced into the leaves.  [hashmap_lookup] is the reader's side
    of the TL-B type [Hashmap n X], used only to say what a built tree means. *)

From S2P Require Import Prelude Bytes Crypto Settlement Cell.

Record DictEntry := mkEntry { key : list bool; value : Cell }.

Definition ADDRESS_KEY_BITS : nat := 267.

Definition address_key_bits (a : WalletAddress) : list bool :=
  cell_bits (store_address empty_builder a).

Definition label_len_bits (max_n : nat) : nat :=
  if (max_n =? 0)%nat then 0%nat else S (Nat.log2 max_n).

(** [usize::MAX] *)
Definition USIZE_MAX : Z := 2 ^ 64 - 1.

Definition all_same (bits : list bool) : bool :=
  (0 <? length bits)%nat && forallb (fun b => Bool.eqb b (hd false bits)) bits.

(** [for &b in bits { cb = cb.store_uint(b as u128, 1) }] *)
Definition store_label_bits (cb : Cell) (bits : list bool) : Cell :=
  foldl (fun cb b => store_uint cb (Z.b2z b) 1) cb bits.

Definition store_label (cb : Cell) (bits : list bool) (max_n : nat) : Cell :=
  let l := length bits in
  let k := label_len_bits max_n in
  let short_len := 2 * Z.of_nat l + 2 in
  let long_len := 2 + Z.of_nat k + Z.of_nat l in
  let same_len := if all_same bits then 3 + Z.of_nat k else USIZE_MAX in
  if (short_len <=? long_len) && (short_len <=? same_len) then
    let cb := store_uint cb 0 1 in
    let cb := store_label_bits cb (replicate l true) in
    let cb := store_uint cb 0 1 in
    store_label_bits cb bits
  else if long_len <=? same_len then
    store_label_bits (store_uint (store_uint cb 2 2) (Z.of_nat l) k) bits
  else
    store_uint (store_uint (store_uint cb 3 2) (Z.b2z (hd false bits)) 1) (Z.of_nat l) k.

(** What [build_hashmap_node] works on: the rest of each key, and its value. *)
Abbreviation entry := (list bool * Cell)%type.

(** [while i < l && key[i] == first[i] { i += 1 }] *)
Fixpoint prefix_scan (l : nat) (k first : list bool) : nat :=
  match l, k, first with
  | S l', b :: k', f :: first' => if Bool.eqb b f then S (prefix_scan l' k' first') else 0%nat
  | _, _, _ => 0%nat
  end.

Fixpoint prefix_loop (first : list bool) (l : nat) (es : list entry) : nat :=
  match es with
  | [] => l
  | (k, _) :: es' => let l := prefix_scan l k first in if (l =? 0)%nat then l else prefix_loop first l es'
  end.

Definition common_prefix_len (entries : list entry) : nat :=
  match entries with
  | [] => 0%nat
  | (first, _) :: es => prefix_loop first (length first) es
  end.

(** The entries on side [b] of a fork after [l] common bits, in their order. *)
Definition branch (b : bool) (l : nat) (entries : list entry) : list entry :=
  (fun e => (drop (S l) e.1, e.2)) <$> List.filter (fun e => Bool.eqb (nth l e.1 false) b) entries.

(** [None] is a panic: no entry, or two entries with one key (the index [key[l]] is
    then out of range).  Each level consumes a bit, so [S n] levels are enough. *)
Fixpoint build_hashmap_node (fuel : nat) (entries : list entry) (n : nat) : option Cell :=
  match fuel with
  | O => None
  | S fuel' =>
      match entries with
      | [] => None
      | [(k, val)] => Some (store_cell_inline (store_label empty_builder k n) val)
      | (k0, _) :: _ =>
          let l := common_prefix_len entries in
          if (n <=? l)%nat then None
          else
            let cb := store_label empty_builder (take l k0) n in
            let child_n := (n - l - 1)%nat in
            left ← build_hashmap_node fuel' (branch false l entries) child_n;
            right ← build_hashmap_node fuel' (branch true l entries) child_n;
            Some (store_ref (store_ref cb left) right)
      end
  end.

Definition build_hashmap_root (n : nat) (entries : list DictEntry) : option Cell :=
  if (length entries =? 0)%nat then None
  else if forallb (fun e => (length (key e) =? n)%nat) entries
  then build_hashmap_node (S n) ((fun e => (key e, value e)) <$> entries) n
  else None.

Definition store_dict (cb : Cell) (key_bits : nat) (entries : list DictEntry) : option Cell :=
  if (length entries =? 0)%nat then Some (store_uint cb 0 1)
  else root ← build_hashmap_root key_bits entries; Some (store_ref (store_uint cb 1 1) root).

(** ** Reading a [Hashmap n X] *)

Fixpoint parse_unary (l : list bool) : option (nat * list bool) :=
  match l with
  | true :: l' => '(m, r) ← parse_unary l'; Some (S m, r)
  | false :: l' => Some (0%nat, l')
  | [] => None
  end.

Definition split_bits (m : nat) (l : list bool) : option (list bool * list bool) :=
  if (m <=? length l)%nat then Some (take m l, drop m l) else None.

(** [hml_short$0 len:(Unary ~n) s:(n * Bit)], [hml_long$10 n:(#<= m) s:(n * Bit)],
    [hml_same$11 v:Bit n:(#<= m)]. *)
Definition parse_label (n : nat) (l : list bool) : option (list bool * list bool) :=
  match l with
  | false :: l => '(m, l) ← parse_unary l; split_bits m l
  | true :: false :: l =>
      '(len, l) ← split_bits (label_len_bits n) l; split_bits (Z.to_nat (bits_val len)) l
  | true :: true :: v :: l =>
      '(len, l) ← split_bits (label_len_bits n) l; Some (replicate (Z.to_nat (bits_val len)) v, l)
  | _ => None
  end.

(** The bits and references of the value stored under [k]. *)
Fixpoint hashmap_lookup (fuel n : nat) (c : Cell) (k : list bool) : option (list bool * list Cell) :=
  match fuel with
  | O => None
  | S fuel' =>
      '(lab, r) ← parse_label n (cell_bits c);
      if bool_decide (take (length lab) k = lab) then
        match drop (length lab) k with
        | [] => Some (r, refs c)
        | b :: k' => child ← refs c !! (if b then 1%nat else 0%nat);
                     hashmap_lookup fuel' (n - length lab - 1) child k'
        end
      else None
  end.

(** ** Labels *)

Definition label_bits (bits : list bool) (max_n : nat) : list bool :=
  let l := length bits in
  let k := label_len_bits max_n in
  let short_len := 2 * Z.of_nat l + 2 in
  let long_len := 2 + Z.of_nat k + Z.of_nat l in
  let same_len := if all_same bits then 3 + Z.of_nat k else USIZE_MAX in
  if (short_len <=? long_len) && (short_len <=? same_len) then
    [false] ++ replicate l true ++ [false] ++ bits
  else if long_len <=? same_len then [true; false] ++ uint_bits (Z.of_nat l) k ++ bits
  else [true; true] ++ [hd false bits] ++ uint_bits (Z.of_nat l) k.

Lemma uint_bits_b2z b : uint_bits (Z.b2z b) 1 = [b].
Proof. by destruct b. Qed.

Lemma store_label_bits_appends cb bits : appends cb bits (store_label_bits cb bits).
Proof.
  revert cb. induction bits as [|b bits IH]; intros cb; [intros Hc; cbn; by rewrite app_nil_r|].
  apply (appends_trans _ [b] (store_uint cb (Z.b2z b) 1)); [|apply IH].
  rewrite <- uint_bits_b2z. apply store_uint_appends.
Qed.

Lemma store_bit_appends cb b : appends cb [b] (store_uint cb (Z.b2z b) 1).
Proof. rewrite <- uint_bits_b2z. apply store_uint_appends. Qed.

Lemma store_label_appends cb bits n : appends cb (label_bits bits n) (store_label cb bits n).
Proof.
  unfold store_label, label_bits. destruct (_ && _); [|destruct (_ <=? _)].
  - eapply appends_trans; [apply (store_bit_appends _ false)|].
    eapply appends_trans; [apply store_label_bits_appends|].
    eapply appends_trans; [apply (store_bit_appends _ false)|apply store_label_bits_appends].
  - eapply (appends_trans _ [true; false]); [apply (store_uint_appends _ 2 2)|].
    eapply appends_trans; [apply store_uint_appends|apply store_label_bits_appends].
  - eapply (appends_trans _ [true; true]); [apply (store_uint_appends _ 3 2)|].
    eapply appends_trans; [apply store_bit_appends|apply store_uint_appends].
Qed.

Lemma split_bits_app m l k : length l = m -> split_bits m (l ++ k) = Some (l, k).
Proof.
  intros <-. unfold split_bits. rewrite (proj2 (Nat.leb_le _ _)) by (rewrite length_app; lia).
  by rewrite take_app_length, drop_app_length.
Qed.

Lemma parse_unary_app m k : parse_unary (replicate m true ++ false :: k) = Some (m, k).
Proof. induction m as [|m IH]; [done|]. cbn. by rewrite IH. Qed.

(** The length field is wide enough for any label that fits. *)
Lemma label_len_bits_val l n : (l <= n)%nat -> bits_val (uint_bits (Z.of_nat l) (label_len_bits n)) = Z.of_nat l.
Proof.
  intros Hl. rewrite bits_val_uint. apply Z.mod_small. split; [lia|].
  unfold label_len_bits. destruct (Nat.eqb_spec n 0) as [->|Hn].
  - assert (l = 0%nat) as -> by lia. done.
  - pose proof (Nat.log2_spec n ltac:(lia)) as [_ H]. apply Z.le_lt_trans with (Z.of_nat n); [lia|].
    change 2 with (Z.of_nat 2). rewrite <- Nat2Z.inj_pow. lia.
Qed.

Lemma all_same_replicate bits : all_same bits = true -> bits = replicate (length bits) (hd false bits).
Proof.
  intros H. apply andb_true_iff in H as [_ H]. apply symmetry, replicate_as_elem_of. split; [done|].
  intros x Hx. rewrite forallb_forall in H. apply eqb_prop, H. by apply list_elem_of_In.
Qed.

Lemma parse_label_bits bits n k :
  (length bits <= n)%nat -> (n <= 1023)%nat -> parse_label n (label_bits bits n ++ k) = Some (bits, k).
Proof.
  intros Hl Hn. unfold label_bits. destruct (_ && _); [|destruct (Z.leb_spec (2 + Z.of_nat (label_len_bits n) + Z.of_nat (length bits)) (if all_same bits then 3 + Z.of_nat (label_len_bits n) else USIZE_MAX)) as [Hle|Hgt]].
  - cbn [app]. rewrite <- !app_assoc. cbn [app parse_label]. rewrite parse_unary_app. cbn [mbind option_bind].
    by apply split_bits_app.
  - cbn [app]. rewrite <- !app_assoc. cbn [parse_label]. rewrite split_bits_app by apply length_uint_bits.
    cbn [mbind option_bind]. rewrite label_len_bits_val by done. by apply split_bits_app, symmetry, Nat2Z.id.
  - cbn [app parse_label]. rewrite split_bits_app by apply length_uint_bits.
    cbn [mbind option_bind]. rewrite label_len_bits_val, Nat2Z.id by done.
    destruct (all_same bits) eqn:E; [by rewrite <- all_same_replicate|].
    exfalso. unfold USIZE_MAX in Hgt. pose proof (Nat.log2_le_lin n ltac:(lia)).
    unfold label_len_bits in Hgt. destruct (n =? 0)%nat; lia.
Qed.

(** ** The common prefix *)

(** All keys start with the same [l] bits. *)
Definition agree (l : nat) (es : list entry) : Prop :=
  forall x y, x ∈ es -> y ∈ es -> take l x.1 = take l y.1.

(** The entries of a [Hashmap n X]. *)
Definition entries_wf (n : nat) (es : list entry) : Prop :=
  Forall (fun e => length e.1 = n) es /\ NoDup es.*1.

Lemma prefix_scan_spec l k first :
  length k = length first -> (l <= length first)%nat ->
  let r := prefix_scan l k first in
  (r <= l)%nat /\ take r k = take r first
  /\ (forall m, (m <= l)%nat -> take m k = take m first -> (m <= r)%nat).
Proof.
  revert k first. induction l as [|l IH]; intros k first Hk Hl; cbn.
  { split; [lia|]. split; [done|]. intros; lia. }
  destruct k as [|b k], first as [|f first]; cbn in Hk, Hl; try lia.
  destruct (IH k first) as (H1 & H2 & H3); [lia..|]. destruct (eqb_spec b f) as [->|Hne].
  - split; [lia|]. split; [cbn; by rewrite H2|]. intros [|m] Hm E; [lia|]. cbn in E. injection E as E.
    specialize (H3 m ltac:(lia) E). lia.
  - split; [lia|]. split; [done|]. intros [|m] Hm E; [lia|]. cbn in E. congruence.
Qed.

Lemma prefix_loop_spec first l es :
  Forall (fun e : entry => length e.1 = length first) es -> (l <= length first)%nat ->
  let r := prefix_loop first l es in
  (r <= l)%nat /\ Forall (fun e : entry => take r e.1 = take r first) es
  /\ (forall m, (m <= l)%nat -> Forall (fun e : entry => take m e.1 = take m first) es -> (m <= r)%nat).
Proof.
  intros H. revert l. induction H as [|[k v] es Hk _ IH]; intros l Hl; cbn [prefix_loop].
  { split; [lia|]. split; [done|]. intros; lia. }
  destruct (prefix_scan_spec l k first Hk Hl) as (H1 & H2 & H3). set (r := prefix_scan l k first) in *.
  destruct (Nat.eqb_spec r 0) as [E|E].
  - rewrite E in *. split; [lia|]. split; [by apply Forall_forall|]. intros m Hm Hall.
    apply H3; [done|]. by apply Forall_cons in Hall as [? _].
  - destruct (IH r ltac:(lia)) as (G1 & G2 & G3). set (q := prefix_loop first r es) in *.
    split; [lia|]. split.
    + constructor; [|done]. cbn. rewrite <- (Nat.min_l q r) by done. by rewrite <- !take_take, H2.
    + intros m Hm Hall. apply Forall_cons in Hall as [Hh Hall]. apply G3; [|done]. by apply H3.
Qed.

(** [common_prefix_len] is the largest length on which all keys agree. *)
Lemma common_prefix_len_spec n es :
  Forall (fun e : entry => length e.1 = n) es -> es <> [] ->
  let l := common_prefix_len es in
  (l <= n)%nat /\ agree l es /\ (forall m, (m <= n)%nat -> agree m es -> (m <= l)%nat).
Proof.
  intros H Hne. destruct es as [|[first v] es]; [done|]. apply Forall_cons in H as [Hf H]. cbn in Hf. subst n.
  destruct (prefix_loop_spec first (length first) es H (le_n _)) as (H1 & H2 & H3).
  cbn [common_prefix_len]. set (l := prefix_loop _ _ _) in *. split; [done|]. rewrite Forall_forall in H2. split.
  - assert (forall x, x ∈ (first, v) :: es -> take l x.1 = take l first) as Hall.
    { intros x Hx. apply elem_of_cons in Hx as [->|Hx]; [done|by apply H2]. }
    intros x y Hx Hy. by rewrite !Hall.
  - intros m Hm Ha. apply H3; [done|]. apply Forall_forall. intros x Hx.
    apply (Ha x (first, v)); [by right|by left].
Qed.

Lemma agree_perm l es es' : es ≡ₚ es' -> agree l es -> agree l es'.
Proof. intros Hp Ha x y Hx Hy. apply Ha; by rewrite Hp. Qed.

Lemma common_prefix_len_perm n es es' :
  Forall (fun e : entry => length e.1 = n) es -> es <> [] -> es ≡ₚ es' ->
  common_prefix_len es = common_prefix_len es'.
Proof.
  intros H Hne Hp. assert (es' <> []) as Hne'. { intros ->. by apply Permutation_nil_r in Hp. }
  assert (Forall (fun e : entry => length e.1 = n) es') as H' by (by rewrite <- Hp).
  destruct (common_prefix_len_spec n es H Hne) as (A1 & A2 & A3).
  destruct (common_prefix_len_spec n es' H' Hne') as (B1 & B2 & B3).
  apply Nat.le_antisymm; [apply B3|apply A3]; try done.
  - by apply (agree_perm _ es).
  - by apply (agree_perm _ es').
Qed.

(** ** Forks *)

Lemma branch_perm b l es es' : es ≡ₚ es' -> branch b l es ≡ₚ branch b l es'.
Proof.
  intros Hp. unfold branch. apply fmap_Permutation. induction Hp as [|x l' l'' _ IH|x y l'|? ? ? _ IH1 _ IH2]; cbn.
  - done.
  - destruct (Bool.eqb _ b); by rewrite ?IH.
  - destruct (Bool.eqb _ b), (Bool.eqb _ b); try done. constructor.
  - by rewrite IH1.
Qed.

(** A key is its first [l] bits, the bit at [l], and the rest. *)
Lemma key_split n l (k : list bool) :
  length k = n -> (l < n)%nat -> k = take l k ++ nth l k false :: drop (S l) k.
Proof.
  intros Hk Hl. rewrite <- (take_drop l k) at 1. f_equal.
  destruct (lookup_lt_is_Some_2 k l) as [b Hb]; [lia|]. rewrite (drop_S _ _ _ Hb). f_equal.
  by rewrite nth_lookup, Hb.
Qed.

Lemma elem_of_branch b l es e :
  e ∈ branch b l es <-> exists f, f ∈ es /\ nth l f.1 false = b /\ e = (drop (S l) f.1, f.2).
Proof.
  unfold branch. rewrite list_elem_of_fmap. split.
  - intros (f & -> & Hf). apply list_elem_of_In, filter_In in Hf as [Hf E]. apply list_elem_of_In in Hf.
    exists f. split; [done|]. split; [by apply eqb_prop|done].
  - intros (f & Hf & E & ->). exists f. split; [done|]. apply list_elem_of_In, filter_In.
    split; [by apply list_elem_of_In|]. by rewrite E, eqb_reflx.
Qed.

Lemma branch_wf b n l es :
  entries_wf n es -> agree l es -> (l < n)%nat -> entries_wf (n - l - 1) (branch b l es).
Proof.
  intros [Hlen Hnd] Ha Hl. split.
  - apply Forall_forall. intros e He. apply elem_of_branch in He as (f & Hf & _ & ->). cbn.
    rewrite Forall_forall in Hlen. rewrite length_drop, (Hlen f Hf). lia.
  - unfold branch. induction es as [|e es IH]; [constructor|]. cbn.
    apply Forall_cons in Hlen as [He Hlen]. cbn in Hnd. apply NoDup_cons in Hnd as [Hni Hnd].
    assert (NoDup (branch b l es).*1) as Hb.
    { apply IH; [done|done|]. intros x y Hx Hy. apply Ha; by right. }
    destruct (eqb_spec (nth l e.1 false) b) as [E|E]; [|done]. cbn. apply NoDup_cons. split; [|done].
    intros Hin. apply list_elem_of_fmap in Hin as (x & Ex & Hx). apply elem_of_branch in Hx as (f & Hf & Ef & ->).
    cbn in Ex. apply Hni. apply list_elem_of_fmap. exists f. split; [|done].
    rewrite (key_split n l e.1), (key_split n l f.1), (Ha e f), E, Ef, Ex; try done; [by left|by right|].
    rewrite Forall_forall in Hlen. by apply Hlen.
Qed.

(** With two distinct keys the prefix ends before the key does and both sides have
    entries: the panics of the fork are unreachable. *)
Lemma fork_in_range n e1 e2 es :
  entries_wf n (e1 :: e2 :: es) -> (common_prefix_len (e1 :: e2 :: es) < n)%nat.
Proof.
  intros [Hlen Hnd]. destruct (common_prefix_len_spec n _ Hlen ltac:(done)) as (H1 & H2 & _).
  set (l := common_prefix_len _) in *. destruct (decide (l = n)) as [E|]; [exfalso|lia].
  cbn in Hnd. apply NoDup_cons in Hnd as [Hni _]. apply Hni.
  assert (e1.1 = e2.1) as ->; [|by left].
  specialize (H2 e1 e2 ltac:(by left) ltac:(right; by left)). rewrite E in H2.
  apply Forall_cons in Hlen as [L1 Hlen]. apply Forall_cons in Hlen as [L2 _].
  rewrite !take_ge in H2 by lia. done.
Qed.

Lemma branch_nonempty b n es :
  Forall (fun e : entry => length e.1 = n) es -> es <> [] -> (common_prefix_len es < n)%nat ->
  branch b (common_prefix_len es) es <> [].
Proof.
  intros Hlen Hne Hl E. destruct (common_prefix_len_spec n es Hlen Hne) as (_ & Ha & Hmax).
  set (l := common_prefix_len es) in *.
  assert (forall x, x ∈ es -> nth l x.1 false = negb b) as Hb.
  { intros x Hx. destruct (bool_dec (nth l x.1 false) b) as [Eb|Eb]; [|by destruct (nth l x.1 false), b].
    assert ((drop (S l) x.1, x.2) ∈ branch b l es) as Hin by (apply elem_of_branch; by exists x).
    rewrite E in Hin. by apply not_elem_of_nil in Hin. }
  assert (agree (S l) es) as Ha'; [|specialize (Hmax (S l) ltac:(lia) Ha'); lia].
  intros x y Hx Hy. rewrite Forall_forall in Hlen.
  assert (forall z, z ∈ es -> take (S l) z.1 = take l z.1 ++ [negb b]) as Ht.
  { intros z Hz. rewrite <- (Hb z Hz). apply take_S_r. rewrite nth_lookup.
    destruct (lookup_lt_is_Some_2 z.1 l) as [w ->]; [rewrite (Hlen z Hz); lia|done]. }
  by rewrite !Ht, (Ha x y).
Qed.

(** ** The tree is canonical *)

Lemma build_node_perm fuel n es es' :
  entries_wf n es -> es ≡ₚ es' -> build_hashmap_node fuel es n = build_hashmap_node fuel es' n.
Proof.
  revert n es es'. induction fuel as [|fuel IH]; intros n es es' Hwf Hp; [done|].
  destruct es as [|e1 [|e2 es]].
  { apply Permutation_nil_l in Hp as <-. done. }
  { apply Permutation_singleton_l in Hp as <-. done. }
  pose proof (Permutation_length Hp) as Hlen. destruct es' as [|f1 [|f2 es']]; [done..|].
  set (E := e1 :: e2 :: es) in *. set (F := f1 :: f2 :: es') in *.
  pose proof (proj1 Hwf) as Hl.
  pose proof (common_prefix_len_perm n E F Hl ltac:(done) Hp) as El.
  destruct (common_prefix_len_spec n E Hl ltac:(done)) as (_ & Ha & _).
  pose proof (fork_in_range n e1 e2 es Hwf) as Hlt. fold E in Hlt.
  assert (take (common_prefix_len E) e1.1 = take (common_prefix_len E) f1.1) as Eh.
  { apply Ha; [by left|]. rewrite Hp. by left. }
  cbn [build_hashmap_node]. unfold E at 1, F at 1. destruct e1 as [k1 v1], f1 as [g1 w1].
  fold E. fold F. rewrite <- El. cbn [fst] in Eh. rewrite <- Eh. destruct (n <=? _)%nat; [done|].
  rewrite (IH _ _ _ (branch_wf false _ _ _ Hwf Ha Hlt) (branch_perm false _ _ _ Hp)).
  by rewrite (IH _ _ _ (branch_wf true _ _ _ Hwf Ha Hlt) (branch_perm true _ _ _ Hp)).
Qed.

(** ** Building and reading *)

(** The value stored under [k]. *)
Fixpoint entry_lookup (es : list entry) (k : list bool) : option (list bool * list Cell) :=
  match es with
  | [] => None
  | e :: es' => if bool_decide (e.1 = k) then Some (cell_bits e.2, refs e.2) else entry_lookup es' k
  end.

Lemma entry_lookup_branch n l es lab k :
  Forall (fun e : entry => length e.1 = n) es -> (l < n)%nat ->
  (forall e, e ∈ es -> take l e.1 = lab) -> length k = n -> take l k = lab ->
  entry_lookup (branch (nth l k false) l es) (drop (S l) k) = entry_lookup es k.
Proof.
  intros Hlen Hl Hlab Hk Ek. unfold branch. induction es as [|e es IH]; [done|].
  apply Forall_cons in Hlen as [He Hlen]. cbn.
  assert (e.1 = k <-> nth l e.1 false = nth l k false /\ drop (S l) e.1 = drop (S l) k) as Hiff.
  { split; [by intros ->|]. intros [E1 E2].
    rewrite (key_split n l e.1), (key_split n l k), E1, E2, Ek, (Hlab e); [done|by left|done..]. }
  assert (forall x, x ∈ es -> take l x.1 = lab) as Hlab' by (intros; apply Hlab; by right).
  destruct (eqb_spec (nth l e.1 false) (nth l k false)) as [Eb|Eb]; cbn.
  - destruct (decide (e.1 = k)) as [E|E].
    + rewrite !bool_decide_true; [done|done|tauto].
    + rewrite !bool_decide_false; [by apply IH|done|tauto].
  - rewrite (bool_decide_false (e.1 = k)); [by apply IH|tauto].
Qed.

Lemma entry_lookup_miss l es lab k :
  (forall e, e ∈ es -> take l e.1 = lab) -> take l k <> lab -> entry_lookup es k = None.
Proof.
  intros Hlab Hk. induction es as [|e es IH]; [done|]. cbn. rewrite bool_decide_false.
  - apply IH. intros x Hx. apply Hlab. by right.
  - intros <-. apply Hk, Hlab. by left.
Qed.

Lemma empty_builder_bits : cell_bits empty_builder = [].
Proof. done. Qed.

(** A leaf: the label, then the value's bits and references. *)
Lemma leaf_shape k n v :
  let c := store_cell_inline (store_label empty_builder k n) v in
  cell_bits c = label_bits k n ++ cell_bits v /\ refs c = refs v.
Proof.
  destruct (store_label_appends empty_builder k n empty_builder_ok) as (H1 & H2 & H3).
  unfold store_cell_inline. rewrite foldl_push_fmap.
  destruct (appends_push (get_bit (data v) <$> seq 0 (bit_len v)) _ H1) as (G1 & G2 & G3).
  set (c := foldl push_bit _ _) in *. cbn [refs]. rewrite G3, H3. split; [|done].
  change (cell_bits (mkCell (data c) (bit_len c) ((refs empty_builder) ++ refs v))) with (cell_bits c).
  by rewrite G2, H2.
Qed.

(** A fork: the label and the two children. *)
Lemma fork_shape k n l r :
  let c := store_ref (store_ref (store_label empty_builder k n) l) r in
  cell_bits c = label_bits k n /\ refs c = [l; r].
Proof.
  destruct (store_label_appends empty_builder k n empty_builder_ok) as (H1 & H2 & H3).
  cbn. rewrite H3. split; [|done]. exact H2.
Qed.

Lemma build_node_correct fuel n es :
  entries_wf n es -> es <> [] -> (n < fuel)%nat -> (n <= 1023)%nat ->
  exists c, build_hashmap_node fuel es n = Some c
    /\ forall k, length k = n -> hashmap_lookup fuel n c k = entry_lookup es k.
Proof.
  revert n es. induction fuel as [|fuel IH]; intros n es Hwf Hne Hf Hn; [lia|].
  destruct es as [|[k1 v1] [|e2 es]]; [done| |].
  - cbn [build_hashmap_node]. eexists. split; [done|]. intros k Hk. cbn [hashmap_lookup].
    destruct (leaf_shape k1 n v1) as [-> ->]. destruct Hwf as [Hl _]. apply Forall_cons in Hl as [Hl _]. cbn in Hl.
    rewrite parse_label_bits by lia. cbn [mbind option_bind entry_lookup fst snd].
    rewrite Hl, take_ge, drop_ge by lia. destruct (decide (k = k1)) as [->|Hd].
    + by rewrite !bool_decide_true.
    + rewrite !bool_decide_false; congruence.
  - set (E := (k1, v1) :: e2 :: es) in *. pose proof (proj1 Hwf) as Hl.
    destruct (common_prefix_len_spec n E Hl ltac:(done)) as (_ & Ha & _).
    pose proof (fork_in_range n (k1, v1) e2 es Hwf) as Hlt. fold E in Hlt.
    assert (length k1 = n) as Hk1 by (by apply Forall_cons in Hl as [? _]).
    cbn [build_hashmap_node]. unfold E at 1. fold E.
    pose proof (branch_nonempty false n E Hl ltac:(done) Hlt) as Nf.
    pose proof (branch_nonempty true n E Hl ltac:(done) Hlt) as Nt.
    set (l := common_prefix_len E) in *. rewrite (proj2 (Nat.leb_gt _ _)) by done.
    destruct (IH (n - l - 1)%nat (branch false l E)) as (cl & -> & Hcl); [by apply branch_wf|done|lia..|].
    destruct (IH (n - l - 1)%nat (branch true l E)) as (cr & -> & Hcr); [by apply branch_wf|done|lia..|].
    cbn [mbind option_bind]. eexists. split; [done|]. intros k Hk. cbn [hashmap_lookup].
    destruct (fork_shape (take l k1) n cl cr) as [-> ->].
    rewrite <- (app_nil_r (label_bits _ _)), parse_label_bits by (rewrite ?length_take; lia).
    cbn [mbind option_bind]. assert (length (take l k1) = l) as -> by (rewrite length_take; lia).
    assert (forall e, e ∈ E -> take l e.1 = take l k1) as Hlab by (intros e He; apply (Ha e (k1, v1)); [done|by left]).
    destruct (decide (take l k = take l k1)) as [Et|Et].
    + rewrite bool_decide_true by done. rewrite <- (entry_lookup_branch n l E (take l k1) k) by done.
      rewrite (key_split n l k Hk Hlt) at 1. rewrite drop_app_length' by (rewrite length_take; lia).
      destruct (nth l k false); cbn [lookup list_lookup mbind option_bind]; [apply Hcr|apply Hcl];
        rewrite length_drop; lia.
    + rewrite bool_decide_false by done. by rewrite (entry_lookup_miss l E (take l k1)).
Qed.

(** ** The dictionary a contract reads *)

Definition dict_wf (n : nat) (es : list DictEntry) : Prop :=
  Forall (fun e => length (key e) = n) es /\ NoDup (key <$> es).

Definition entries_of (es : list DictEntry) : list entry := (fun e => (key e, value e)) <$> es.

Lemma dict_wf_entries n es : dict_wf n es -> entries_wf n (entries_of es).
Proof.
  intros [H1 H2]. split; [by apply Forall_fmap|]. unfold entries_of. by rewrite <- list_fmap_compose.
Qed.

Lemma build_root_node n es :
  dict_wf n es -> es <> [] -> build_hashmap_root n es = build_hashmap_node (S n) (entries_of es) n.
Proof.
  intros [H _] Hne. unfold build_hashmap_root. destruct es as [|e es]; [done|]. set (l := e :: es) in *.
  rewrite (proj2 (forallb_forall _ _)); [done|]. intros x Hx. rewrite Forall_forall in H.
  apply Nat.eqb_eq, H. by apply list_elem_of_In.
Qed.

(** A built dictionary is the map it was built from: for any non-empty list of
    entries with distinct keys of one width, the build does not panic, reading the
    tree at the key of an entry gives exactly the bits and references of its value,
    and reading it at any other key of that width finds nothing. *)
Theorem dict_lookup_correct (n : nat) (es : list DictEntry) :
  dict_wf n es -> es <> [] -> (n <= 1023)%nat ->
  exists root, build_hashmap_root n es = Some root
    /\ (forall e, e ∈ es -> hashmap_lookup (S n) n root (key e) = Some (cell_bits (value e), refs (value e)))
    /\ (forall k, length k = n -> k ∉ (key <$> es) -> hashmap_lookup (S n) n root k = None).
Proof.
  intros Hwf Hne Hn. rewrite build_root_node by done.
  destruct (build_node_correct (S n) n (entries_of es)) as (c & -> & Hc); [by apply dict_wf_entries|by destruct es|lia..|].
  exists c. split; [done|]. destruct Hwf as [Hlen Hnd]. split.
  - intros e He. rewrite Hc by (rewrite Forall_forall in Hlen; by apply Hlen). clear Hc Hlen Hne.
    induction es as [|f es IH]; [by apply not_elem_of_nil in He|]. cbn in *. apply NoDup_cons in Hnd as [Hni Hnd].
    apply elem_of_cons in He as [->|He]; [by rewrite bool_decide_true|].
    rewrite bool_decide_false; [by apply IH|]. intros E. apply Hni. rewrite E. by apply list_elem_of_fmap_2.
  - intros k Hk Hni. rewrite Hc by done. clear Hc Hlen Hne Hnd.
    induction es as [|f es IH]; [done|]. cbn in *. apply not_elem_of_cons in Hni as [Hne Hni].
    rewrite bool_decide_false; [by apply IH|congruence].
Qed.

Definition addr_example (b : byte) : WalletAddress := mkWallet 0 (replicate 32 b).
Definition dict_example : list DictEntry :=
  [mkEntry (address_key_bits (addr_example Byte.x01)) (store_coins empty_builder 5);
   mkEntry (address_key_bits (addr_example Byte.xf0)) (store_uint empty_builder 7 8);
   mkEntry (address_key_bits (addr_example Byte.x03)) (store_ref empty_builder (store_uint empty_builder 1 1))].

#[global] Instance dict_wf_dec n es : Decision (dict_wf n es).
Proof. apply _. Defined.

Lemma dict_lookup_correct_witness :
  exists root, build_hashmap_root ADDRESS_KEY_BITS dict_example = Some root
    /\ (forall e, e ∈ dict_example -> hashmap_lookup (S ADDRESS_KEY_BITS) ADDRESS_KEY_BITS root (key e)
                                     = Some (cell_bits (value e), refs (value e)))
    /\ (forall k, length k = ADDRESS_KEY_BITS -> k ∉ (key <$> dict_example) ->
        hashmap_lookup (S ADDRESS_KEY_BITS) ADDRESS_KEY_BITS root k = None).
Proof.
  apply (dict_lookup_correct ADDRESS_KEY_BITS dict_example); [decide_closed|done|].
  unfold ADDRESS_KEY_BITS. lia.
Defined.

(** The dictionary cell is canonical: entries with distinct keys give the same
    tree, hence the same hash, in whatever order they are listed, through
    [build_hashmap_root] and through [store_dict]. *)
Theorem dict_order_independent (cb : Cell) (n : nat) (es es' : list DictEntry) :
  dict_wf n es -> es ≡ₚ es' ->
  build_hashmap_root n es = build_hashmap_root n es' /\ store_dict cb n es = store_dict cb n es'.
Proof.
  intros Hwf Hp.
  assert (build_hashmap_root n es = build_hashmap_root n es') as H.
  { destruct (decide (es = [])) as [->|Hne]; [by apply Permutation_nil_l in Hp as <-|].
    assert (dict_wf n es') as Hwf' by (destruct Hwf; split; by rewrite <- Hp).
    assert (es' <> []) as Hne' by (intros ->; by apply Permutation_nil_r in Hp).
    rewrite !build_root_node by done. apply build_node_perm; [by apply dict_wf_entries|].
    by apply fmap_Permutation. }
  split; [done|]. unfold store_dict. by rewrite H, (Permutation_length Hp).
Qed.

Lemma dict_order_independent_witness :
  build_hashmap_root ADDRESS_KEY_BITS dict_example = build_hashmap_root ADDRESS_KEY_BITS (rev dict_example)
  /\ store_dict empty_builder ADDRESS_KEY_BITS dict_example
     = store_dict empty_builder ADDRESS_KEY_BITS (rev dict_example).
Proof.
  apply (dict_order_independent empty_builder ADDRESS_KEY_BITS dict_example (rev dict_example)); [decide_closed|].
  apply Permutation_rev.
Defined.
