(* ===== verification/Boc.v ===== *)
(** * Bags of cells (crates/settlement/src/cell.rs, [to_boc] and [from_boc])

    The wire form of a cell tree: distinct cells in an order where references point
    forward, each with its descriptor, augmented data and reference indices, behind
    a header and in front of a CRC32C trailer.  [from_boc] reads what a remote node
    sent, so its panics (an index or a slice out of range) are a third outcome of
    the model, next to a result and a rejection. *)

From S2P Require Import Prelude Bytes Crypto Merkle Settlement Cell.

(** ** Results that may panic *)

Inductive res (A : Type) := Ret (a : A) | Reject | Panic.
Arguments Ret {A} a.
Arguments Reject {A}.
Arguments Panic {A}.

#[global] Instance res_ret : MRet res := fun A a => Ret a.
#[global] Instance res_bind : MBind res := fun A B f m =>
  match m with Ret a => f a | Reject => Reject | Panic => Panic end.

(** [v[i]] and [v[a..b]] *)
Definition index {A} (v : list A) (i : nat) : res A :=
  match v !! i with Some a => Ret a | None => Panic end.
Definition slice (v : bytes) (a b : nat) : res bytes :=
  if (a <=? b)%nat && (b <=? length v)%nat then Ret (take (b - a) (drop a v)) else Panic.

(** [o?] and [if c { return None; }] *)
Definition try {A} (o : option A) : res A := match o with Some a => Ret a | None => Reject end.
Definition reject_if (c : bool) : res unit := if c then Reject else Ret tt.

(** ** Integers and checksum *)

(** At most 8 rounds shift a [u64] out. *)
Fixpoint bytes_for_loop (fuel n : nat) (x : Z) : nat :=
  match fuel with
  | O => n
  | S fuel' => if 0 <? x then bytes_for_loop fuel' (S n) (Z.shiftr x 8) else n
  end.
Definition bytes_for (v : Z) : nat := bytes_for_loop 8 0 v.

Definition boc_be (v : Z) (n : nat) : bytes := drop (8 - n) (be_bytes 8 v).

Definition crc32c_bit (crc : Z) : Z :=
  if Z.testbit crc 0 then Z.lxor (Z.shiftr crc 1) 2197175160 else Z.shiftr crc 1.
Definition crc32c (d : bytes) : Z :=
  Z.lxor (foldl (fun crc b => Nat.iter 8 crc32c_bit (Z.lxor crc (byte_val b))) 4294967295 d) 4294967295.

Definition MAGIC : bytes := byte_of_Z <$> [181; 238; 156; 114].

(** A parsed cell before its references are resolved: data, bit length, indices. *)
Abbreviation raw_cell := (bytes * nat * list Z)%type.

Section boc.
Context {C : Crypto}.

(** ** Serialising *)

Definition serialized_len (ref_size : nat) (c : Cell) : nat :=
  (2 + length (augmented_data c) + length (refs c) * ref_size)%nat.

(** [visit]: the hashes seen, and the cells in post-order. *)
Fixpoint visit (c : Cell) (st : list Hash32 * list Cell) : list Hash32 * list Cell :=
  let 'mkCell _ _ rs := c in
  let h := repr_hash c in
  if bool_decide (h ∈ st.1) then st
  else
    let st := foldl (fun st r => visit r st) (h :: st.1, st.2) rs in
    (st.1, st.2 ++ [c]).

(** [index[&h]]: the map is filled in order, so the last cell with the hash wins; a
    missing key panics. *)
Fixpoint index_of (i : nat) (h : Hash32) (cells : list Cell) : option nat :=
  match cells with
  | [] => None
  | c :: cells' =>
      match index_of (S i) h cells' with
      | Some j => Some j
      | None => if bool_decide (repr_hash c = h) then Some i else None
      end
  end.

Definition topological_order (c : Cell) : list Cell * list (list (option nat)) :=
  let order := rev (visit c ([], [])).2 in
  (order, (fun c => (fun r => index_of 0 (repr_hash r) order) <$> refs c) <$> order).

Definition cell_body (ref_size : nat) (c : Cell) (rs : list (option nat)) : bytes :=
  descriptor c ++ augmented_data c
  ++ mjoin ((fun r => boc_be (Z.of_nat (default 0%nat r)) ref_size) <$> rs).

Definition to_boc (root : Cell) : bytes :=
  let (cells, ref_indices) := topological_order root in
  let cell_count := length cells in
  let ref_size := Nat.max (bytes_for (Z.of_nat cell_count)) 1 in
  let tot_size := sum_list (serialized_len ref_size <$> cells) in
  let off_bytes := Nat.max (bytes_for (Z.of_nat tot_size)) 1 in
  let out := MAGIC
    ++ [byte_of_Z (Z.lor (2 ^ 6) (Z.land (Z.of_nat ref_size) 7))]
    ++ [byte_of_Z (Z.of_nat off_bytes)]
    ++ boc_be (Z.of_nat cell_count) ref_size
    ++ boc_be 1 ref_size
    ++ boc_be 0 ref_size
    ++ boc_be (Z.of_nat tot_size) off_bytes
    ++ boc_be 0 ref_size
    ++ mjoin (zip_with (cell_body ref_size) cells ref_indices) in
  out ++ le_bytes 4 (crc32c out).

(** ** Parsing *)

Definition MAX_BOC_CELLS : Z := 2 ^ 16.
Definition MAX_CELL_DEPTH : Z := 1024.

(** The closure [read]: [n] bytes at [p], big-endian. *)
Definition read (buf : bytes) (p n : nat) : res (Z * nat) :=
  if (8 <? n)%nat || (length buf <? p + n)%nat then Reject
  else bs ← slice buf p (p + n);
       Ret (foldl (fun v b => Z.lor (wrap 64 (Z.shiftl v 8)) (byte_val b)) 0 bs, (p + n)%nat).

Fixpoint read_refs (buf : bytes) (p ref_size k : nat) : res (list Z * nat) :=
  match k with
  | O => Ret ([], p)
  | S k' => '(r, p) ← read buf p ref_size;
            '(rs, p) ← read_refs buf p ref_size k';
            Ret (r :: rs, p)
  end.

(** The search for the lowest set bit of the last byte. *)
Definition strip_len (full : nat) (last : byte) : nat :=
  match List.find (fun i => Z.testbit (byte_val last) (Z.of_nat i)) (seq 0 8) with
  | Some i => (full * 8 + (7 - i))%nat
  | None => (full * 8)%nat
  end.

Definition parse_cell (buf : bytes) (body_end ref_size p : nat) : res (raw_cell * nat) :=
  reject_if (body_end <? p + 2)%nat;;
  d1 ← index buf p;
  d2 ← index buf (p + 1);
  let p := (p + 2)%nat in
  let refs_n := Z.to_nat (Z.land (byte_val d1) 7) in
  let data_bytes := Z.to_nat (div_ceil (byte_val d2) 2) in
  let not_aligned := Z.testbit (byte_val d2) 0 in
  reject_if (body_end <? p + data_bytes)%nat;;
  d ← slice buf p (p + data_bytes);
  let p := (p + data_bytes)%nat in
  bit_len ←
    (if not_aligned then
       reject_if (data_bytes =? 0)%nat;;
       last ← index d (data_bytes - 1);
       Ret (strip_len (data_bytes - 1) last)
     else Ret (data_bytes * 8)%nat);
  '(rs, p) ← read_refs buf p ref_size refs_n;
  Ret ((d, bit_len, rs), p).

Fixpoint parse_cells (buf : bytes) (body_end ref_size p k : nat) : res (list raw_cell) :=
  match k with
  | O => Ret []
  | S k' => '(c, p) ← parse_cell buf body_end ref_size p;
            cs ← parse_cells buf body_end ref_size p k';
            Ret (c :: cs)
  end.

(** The loop over the references of cell [i]: its children and their largest depth. *)
Fixpoint collect_children (i cell_count : nat) (built : list (option Cell)) (depths : list Z)
    (rs : list Z) (max_d : Z) (acc : list Cell) : res (Z * list Cell) :=
  match rs with
  | [] => Ret (max_d, acc)
  | r :: rs' =>
      reject_if ((r <=? Z.of_nat i) || (Z.of_nat cell_count <=? r));;
      d ← index depths (Z.to_nat r);
      b ← index built (Z.to_nat r);
      c ← try b;
      collect_children i cell_count built depths rs' (Z.max max_d d) (acc ++ [c])
  end.

Definition build_cell (raw : list raw_cell) (cell_count i : nat) (st : list (option Cell) * list Z)
  : res (list (option Cell) * list Z) :=
  '(d, bit_len, rs) ← index raw i;
  '(max_d, children) ← collect_children i cell_count st.1 st.2 rs 0 [];
  depth ← (if (length rs =? 0)%nat then Ret 0
           else if 65535 <? max_d + 1 then Reject else Ret (max_d + 1));
  reject_if (MAX_CELL_DEPTH <? depth);;
  Ret (<[i := Some (mkCell d bit_len children)]> st.1, <[i := depth]> st.2).

Fixpoint build_cells (raw : list raw_cell) (cell_count : nat) (idx : list nat)
    (st : list (option Cell) * list Z) : res (list (option Cell) * list Z) :=
  match idx with
  | [] => Ret st
  | i :: idx' => st ← build_cell raw cell_count i st; build_cells raw cell_count idx' st
  end.

Definition from_boc (buf : bytes) : res Cell :=
  reject_if (length buf <? 6)%nat;;
  magic ← slice buf 0 4;
  reject_if (negb (bool_decide (magic = MAGIC)));;
  flags ← index buf 4;
  let has_idx := Z.testbit (byte_val flags) 7 in
  let has_crc := Z.testbit (byte_val flags) 6 in
  let ref_size := Z.to_nat (Z.land (byte_val flags) 7) in
  reject_if ((ref_size =? 0)%nat || (8 <? ref_size)%nat);;
  off ← index buf 5;
  let off_bytes := Z.to_nat (byte_val off) in
  '(cell_count, p) ← read buf 6 ref_size;
  reject_if ((cell_count =? 0) || (MAX_BOC_CELLS <? cell_count));;
  '(_, p) ← read buf p ref_size;
  '(_, p) ← read buf p ref_size;
  '(_, p) ← read buf p off_bytes;
  '(root_idx, p) ← read buf p ref_size;
  reject_if (cell_count <=? root_idx);;
  let cell_count := Z.to_nat cell_count in
  let p := if has_idx then (p + cell_count * off_bytes)%nat else p in
  body_end ← (if has_crc
              then if (length buf <? 4)%nat then Reject else Ret (length buf - 4)%nat
              else Ret (length buf));
  (if has_crc then
     want ← slice buf body_end (body_end + 4);
     body ← slice buf 0 body_end;
     reject_if (negb (crc32c body =? le_val want))
   else Ret tt);;
  raw ← parse_cells buf body_end ref_size p cell_count;
  st ← build_cells raw cell_count (down cell_count) (replicate cell_count None, replicate cell_count 0);
  b ← index st.1 (Z.to_nat root_idx);
  try b.
End boc.

Definition boc_example : Cell :=
  let shared := store_uint empty_builder 43981 16 in
  let child := store_ref (store_uint empty_builder 5 3) shared in
  store_ref (store_ref (store_address (store_coins empty_builder 123456) (mkWallet 0 (replicate 32 Byte.x09))) child) shared.

(** ** Hostile input: no panic, no deep tree, no short data *)

(** The weakest precondition of a parse for "no panic, and the result satisfies [Q]". *)
Definition safe {A} (m : res A) (Q : A -> Prop) : Prop :=
  match m with Ret a => Q a | Reject => True | Panic => False end.

Lemma safe_bind {A B} (m : res A) (f : A -> res B) (Q : B -> Prop) :
  safe m (fun a => safe (f a) Q) -> safe (m ≫= f) Q.
Proof. by destruct m. Qed.

Lemma safe_mono {A} (m : res A) (P Q : A -> Prop) : safe m P -> (forall a, P a -> Q a) -> safe m Q.
Proof. destruct m; cbn; auto. Qed.

Lemma safe_reject_if (c : bool) (Q : unit -> Prop) : (c = false -> Q tt) -> safe (reject_if c) Q.
Proof. destruct c; cbn; auto. Qed.

Lemma safe_index {A} (v : list A) i (Q : A -> Prop) :
  (i < length v)%nat -> (forall a, v !! i = Some a -> Q a) -> safe (index v i) Q.
Proof. intros Hi HQ. unfold index. destruct (lookup_lt_is_Some_2 v i Hi) as [a E]. rewrite E. by apply HQ. Qed.

Lemma safe_slice v a b (Q : bytes -> Prop) :
  (a <= b <= length v)%nat -> (forall s, length s = (b - a)%nat -> Q s) -> safe (slice v a b) Q.
Proof.
  intros [H1 H2] HQ. unfold slice.
  rewrite (proj2 (Nat.leb_le a b)), (proj2 (Nat.leb_le b (length v))) by done.
  apply HQ. rewrite length_take, length_drop. lia.
Qed.

Lemma safe_try {A} (o : option A) (Q : A -> Prop) : (forall a, o = Some a -> Q a) -> safe (try o) Q.
Proof. destruct o; cbn; auto. Qed.

Lemma read_fold_nonneg bs v :
  0 <= v -> 0 <= foldl (fun v b => Z.lor (wrap 64 (Z.shiftl v 8)) (byte_val b)) v bs.
Proof.
  revert v. induction bs as [|b bs IH]; intros v Hv; [done|]. cbn [foldl]. apply IH, Z.lor_nonneg.
  pose proof (byte_val_range b). unfold wrap. split; [|lia]. by apply Z.mod_pos_bound.
Qed.

Lemma safe_read buf p n (Q : Z * nat -> Prop) :
  (forall v, 0 <= v -> Q (v, (p + n)%nat)) -> safe (read buf p n) Q.
Proof.
  intros HQ. unfold read. destruct (Nat.ltb_spec 8 n) as [H8|H8]; [done|].
  destruct (Nat.ltb_spec (length buf) (p + n)) as [Hl|Hl]; [done|]. cbn [orb].
  apply safe_bind, safe_slice; [lia|]. intros s _. cbn. by apply HQ, read_fold_nonneg.
Qed.

Lemma read_refs_safe buf p ref_size k : safe (read_refs buf p ref_size k) (fun r => length r.1 = k).
Proof.
  revert p. induction k as [|k IH]; intros p; [done|]. cbn [read_refs].
  apply safe_bind, safe_read. intros v _. apply safe_bind.
  apply (safe_mono _ _ _ (IH _)). intros [rs q] E. cbn in *. lia.
Qed.

(** The bit length is within the data read. *)
Definition raw_covered (r : raw_cell) : Prop := (r.1.2 <= 8 * length r.1.1)%nat.

Lemma strip_len_le full last : (strip_len full last <= 8 * (full + 1))%nat.
Proof. unfold strip_len. destruct (List.find _ _); lia. Qed.

Lemma parse_cell_safe buf body_end ref_size p :
  (body_end <= length buf)%nat -> safe (parse_cell buf body_end ref_size p) (fun r => raw_covered r.1).
Proof.
  intros Hb. unfold parse_cell.
  apply safe_bind, safe_reject_if. intros H1. apply Nat.ltb_ge in H1.
  apply safe_bind, safe_index; [lia|]. intros d1 _.
  apply safe_bind, safe_index; [lia|]. intros d2 _.
  set (n := Z.to_nat (div_ceil (byte_val d2) 2)).
  apply safe_bind, safe_reject_if. intros H2. apply Nat.ltb_ge in H2.
  apply safe_bind, safe_slice; [lia|]. intros d Hd.
  apply safe_bind. apply (safe_mono _ (fun bl => (bl <= 8 * length d)%nat)).
  - destruct (Z.testbit _ _); cbn [safe]; [|lia].
    apply safe_bind, safe_reject_if. intros H3. apply Nat.eqb_neq in H3.
    apply safe_bind, safe_index; [lia|]. intros last _. cbn [safe].
    pose proof (strip_len_le (n - 1) last). lia.
  - intros bl Hbl. apply safe_bind. apply (safe_mono _ _ _ (read_refs_safe _ _ _ _)).
    intros [rs q] _. exact Hbl.
Qed.

Lemma parse_cells_safe buf body_end ref_size p k :
  (body_end <= length buf)%nat ->
  safe (parse_cells buf body_end ref_size p k) (fun cs => length cs = k /\ Forall raw_covered cs).
Proof.
  intros Hb. revert p. induction k as [|k IH]; intros p; [done|]. cbn [parse_cells].
  apply safe_bind, (safe_mono _ _ _ (parse_cell_safe _ _ _ _ Hb)). intros [c q] Hc.
  apply safe_bind, (safe_mono _ _ _ (IH q)). intros cs [Hl Hcs]. cbn. split; [lia|by constructor].
Qed.

(** Every cell of the tree holds at least the bits it claims, so no read of it
    ([load_bit], [augmented_data]) indexes past its data. *)
Inductive Covered : Cell -> Prop :=
| covered d n rs : (n <= 8 * length d)%nat -> Forall Covered rs -> Covered (mkCell d n rs).

(** The rebuild loop's invariant: whatever has been built is covered, and its depth is
    the recorded one, within the limit. *)
Definition build_inv (n : nat) (st : list (option Cell) * list Z) : Prop :=
  length st.1 = n /\ length st.2 = n
  /\ forall j c, st.1 !! j = Some (Some c) ->
       Covered c /\ st.2 !! j = Some (depth c) /\ depth c <= MAX_CELL_DEPTH.

Lemma depth_children d n rs : depth (mkCell d n rs) = foldr (fun r acc => Z.max (depth r + 1) acc) 0 rs.
Proof. done. Qed.

(** The running maximum is that of the children collected so far. *)
Definition max_depth (cs : list Cell) : Z := foldr (fun r acc => Z.max (depth r) acc) 0 cs.

Lemma max_depth_app cs c : max_depth (cs ++ [c]) = Z.max (max_depth cs) (Z.max (depth c) 0).
Proof. unfold max_depth. induction cs as [|x cs IH]; cbn; [lia|]. rewrite IH. lia. Qed.

Lemma depth_nonneg c : 0 <= depth c.
Proof.
  destruct c as [d n rs]. rewrite depth_children. induction rs as [|r rs IH]; [done|]. cbn. lia.
Qed.

Lemma depth_max d n cs : cs <> [] -> depth (mkCell d n cs) = max_depth cs + 1.
Proof.
  intros H. rewrite depth_children. unfold max_depth. destruct cs as [|c cs]; [done|]. clear H.
  revert c. induction cs as [|c' cs IH]; intros c; cbn in *.
  - pose proof (depth_nonneg c). lia.
  - rewrite IH. lia.
Qed.

Lemma collect_children_safe i n st rs acc :
  build_inv n st -> Forall Covered acc ->
  safe (collect_children i n st.1 st.2 rs (max_depth acc) acc)
    (fun r => r.1 = max_depth r.2 /\ Forall Covered r.2 /\ length r.2 = (length acc + length rs)%nat).
Proof.
  intros (L1 & L2 & Hinv). revert acc. induction rs as [|r rs IH]; intros acc Hacc; cbn [collect_children].
  { cbn. repeat split; [done|lia]. }
  apply safe_bind, safe_reject_if. intros Hr. apply orb_false_iff in Hr as [Hr1 Hr2].
  apply Z.leb_gt in Hr1, Hr2.
  apply safe_bind, safe_index; [lia|]. intros d Hd.
  apply safe_bind, safe_index; [lia|]. intros b Hb.
  apply safe_bind, safe_try. intros c ->. destruct (Hinv _ _ Hb) as (Hc & Hdc & _).
  rewrite Hdc in Hd. injection Hd as <-.
  assert (Z.max (max_depth acc) (depth c) = max_depth (acc ++ [c])) as ->.
  { rewrite max_depth_app. pose proof (depth_nonneg c). lia. }
  apply (safe_mono _ _ _ (IH (acc ++ [c]) ltac:(by apply Forall_app_2; [|constructor]))).
  intros [m cs] (E1 & E2 & E3). cbn in *. rewrite length_app in E3. cbn in E3. split; [done|]. split; [done|]. lia.
Qed.

Lemma build_cell_safe raw n i st :
  build_inv n st -> length raw = n -> Forall raw_covered raw -> (i < n)%nat ->
  safe (build_cell raw n i st) (build_inv n).
Proof.
  intros Hinv Hraw Hcov Hi. unfold build_cell. apply safe_bind, safe_index; [lia|].
  intros [[d bl] rs] Hrw. apply safe_bind.
  apply (safe_mono _ _ _ (collect_children_safe i n st rs [] Hinv ltac:(constructor))).
  intros [m cs] (Em & Hcs & Hl). cbn [fst snd] in *. cbn [length] in Hl.
  apply safe_bind, (safe_mono _ (fun dp => dp = depth (mkCell d bl cs))).
  - destruct (Nat.eqb_spec (length rs) 0) as [E|E].
    + cbn. rewrite E in Hl. by destruct cs.
    + destruct (_ <? _); [done|]. cbn [safe]. rewrite depth_max; [by rewrite Em|]. intros ->. cbn in Hl. lia.
  - intros dp ->. apply safe_bind, safe_reject_if. intros Hd. apply Z.ltb_ge in Hd. cbn [safe].
    destruct Hinv as (L1 & L2 & Hinv). cbn [fst snd] in *.
    split; [by cbn [fst]; rewrite length_insert|]. split; [by cbn [snd]; rewrite length_insert|].
    intros j c Hj. cbn [fst snd] in *. destruct (decide (i = j)) as [<-|Hne].
    + rewrite list_lookup_insert_eq in Hj by lia. injection Hj as <-. rewrite list_lookup_insert_eq by lia.
      split; [|done]. constructor; [|done]. rewrite Forall_forall in Hcov.
      apply (Hcov (d, bl, rs)), (list_elem_of_lookup_2 _ _ _ Hrw).
    + rewrite list_lookup_insert_ne in Hj by done. rewrite list_lookup_insert_ne by done. by apply Hinv.
Qed.

Lemma build_cells_safe raw n idx st :
  build_inv n st -> length raw = n -> Forall raw_covered raw -> Forall (fun i => (i < n)%nat) idx ->
  safe (build_cells raw n idx st) (build_inv n).
Proof.
  intros Hinv Hraw Hcov Hidx. revert st Hinv. induction Hidx as [|i idx Hi _ IH]; intros st Hinv; [done|].
  cbn [build_cells]. apply safe_bind, (safe_mono _ _ _ (build_cell_safe raw n i st Hinv Hraw Hcov Hi)). apply IH.
Qed.

(** [from_boc] is safe on any bytes whatsoever: it never indexes or slices out of
    range, and a cell tree it accepts is at most 1024 deep (so the recursive [depth]
    and [repr_hash] cannot overflow the stack) and holds, in every cell, at least the
    bits the cell claims. *)
Theorem from_boc_safe (buf : bytes) :
  from_boc buf <> Panic
  /\ forall c, from_boc buf = Ret c -> depth c <= MAX_CELL_DEPTH /\ Covered c.
Proof.
  assert (safe (from_boc buf) (fun c => depth c <= MAX_CELL_DEPTH /\ Covered c)) as H.
  2: { split; [by intros E; rewrite E in H|]. intros c E. by rewrite E in H. }
  unfold from_boc.
  apply safe_bind, safe_reject_if. intros Hlen. apply Nat.ltb_ge in Hlen.
  apply safe_bind, safe_slice; [lia|]. intros magic _.
  apply safe_bind, safe_reject_if. intros _.
  apply safe_bind, safe_index; [lia|]. intros flags _.
  apply safe_bind, safe_reject_if. intros _.
  apply safe_bind, safe_index; [lia|]. intros off _.
  apply safe_bind, safe_read. intros count Hcount0.
  apply safe_bind, safe_reject_if. intros Hcount. apply orb_false_iff in Hcount as [Hc1 Hc2].
  apply safe_bind, safe_read. intros _ _. apply safe_bind, safe_read. intros _ _.
  apply safe_bind, safe_read. intros _ _. apply safe_bind, safe_read. intros root Hroot0.
  apply safe_bind, safe_reject_if. intros Hroot.
  apply safe_bind, (safe_mono _ (fun e => (e <= length buf)%nat /\ (Z.testbit (byte_val flags) 6 = true -> e + 4 <= length buf)%nat)).
  { destruct (Z.testbit (byte_val flags) 6); [|by cbn].
    destruct (Nat.ltb_spec (length buf) 4); cbn; [done|]. lia. }
  intros body_end [He1 He2]. apply safe_bind, (safe_mono _ (fun _ => True)).
  { destruct (Z.testbit (byte_val flags) 6); [|done].
    apply safe_bind, safe_slice; [specialize (He2 eq_refl); lia|]. intros want _.
    apply safe_bind, safe_slice; [lia|]. intros body _. by apply safe_reject_if. }
  intros _ _. apply safe_bind, (safe_mono _ _ _ (parse_cells_safe _ _ _ _ _ He1)).
  intros raw [Hraw Hcov]. set (n := Z.to_nat count) in *.
  apply safe_bind, (safe_mono _ (build_inv n)).
  { apply build_cells_safe; [|done|done|].
    - split; [apply length_replicate|]. split; [apply length_replicate|].
      intros j c Hj. apply lookup_replicate in Hj as [? _]. done.
    - apply Forall_forall. intros i Hi. by apply elem_of_down. }
  intros st (L1 & L2 & Hinv). apply Z.leb_gt in Hroot. apply Z.eqb_neq in Hc1.
  apply safe_bind, safe_index; [lia|]. intros b Hb. apply safe_try. intros c ->.
  destruct (Hinv _ _ Hb) as (? & _ & ?). done.
Qed.

(** ** The order of cells *)

Fixpoint subcells (c : Cell) : list Cell := let 'mkCell _ _ rs := c in c :: mjoin (subcells <$> rs).
Fixpoint csize (c : Cell) : nat := let 'mkCell _ _ rs := c in S (foldr (fun r acc => csize r + acc) 0 rs)%nat.

Lemma csize_ref r c : r ∈ refs c -> (csize r < csize c)%nat.
Proof.
  destruct c as [d n rs]. cbn [refs csize]. intros H. induction rs as [|x rs IH]; [by apply not_elem_of_nil in H|].
  cbn [foldr]. apply elem_of_cons in H as [->|H]; [lia|]. specialize (IH H). lia.
Qed.

Lemma subcells_self c : c ∈ subcells c.
Proof. destruct c; by left. Qed.

Lemma subcells_ref r c x : r ∈ refs c -> x ∈ subcells r -> x ∈ subcells c.
Proof.
  intros Hr Hx. destruct c as [d n rs]. cbn [refs subcells] in *. right.
  apply list_elem_of_join. exists (subcells r). split; [done|]. by apply list_elem_of_fmap_2.
Qed.

Lemma subcells_inv x c : x ∈ subcells c -> x = c \/ exists r, r ∈ refs c /\ x ∈ subcells r.
Proof.
  destruct c as [d n rs]. cbn [refs subcells]. intros H. apply elem_of_cons in H as [->|H]; [by left|right].
  apply list_elem_of_join in H as (l & Hx & Hl). apply list_elem_of_fmap in Hl as (r & -> & Hr). by exists r.
Qed.

Lemma subcells_trans x y c : x ∈ subcells y -> y ∈ subcells c -> x ∈ subcells c.
Proof.
  intros Hx. induction c as [d n rs IH] using cell_ind'. intros Hy.
  apply subcells_inv in Hy as [->|(r & Hr & Hy)]; [done|]. rewrite Forall_forall in IH.
  apply (subcells_ref r); [done|]. by apply IH.
Qed.

Lemma ref_subcell r c : r ∈ refs c -> r ∈ subcells c.
Proof. intros H. apply (subcells_ref r); [done|apply subcells_self]. Qed.

(** References point to earlier cells (later ones, once the order is reversed). *)
Definition closed (order : list Cell) : Prop :=
  forall i x r, order !! i = Some x -> r ∈ refs x -> exists j, (j < i)%nat /\ order !! j = Some r.

Section order.
Context {C : Crypto}.
Variable root : Cell.
Hypothesis hash_inj : forall x y, x ∈ subcells root -> y ∈ subcells root -> repr_hash x = repr_hash y -> x = y.

(** The state of [visit] while the cells of [anc] are being visited. *)
Record visit_inv (anc : list Cell) (st : list Hash32 * list Cell) : Prop := {
  vi_seen h : h ∈ st.1 -> exists x, h = repr_hash x /\ x ∈ subcells root /\ (x ∈ st.2 \/ x ∈ anc);
  vi_order x : x ∈ st.2 -> x ∈ subcells root /\ repr_hash x ∈ st.1;
  vi_closed : closed st.2;
  vi_nodup : NoDup st.2 }.

(** What a visit of [c] does to the state. *)
Record visit_post (c : Cell) (anc : list Cell) (st st' : list Hash32 * list Cell) : Prop := {
  vp_inv : visit_inv anc st';
  vp_ext : exists l, st'.2 = st.2 ++ l;
  vp_in : c ∈ st'.2;
  vp_seen h : h ∈ st.1 -> h ∈ st'.1;
  vp_small x : x ∈ st'.2 -> x ∈ st.2 \/ (csize x <= csize c)%nat }.

Lemma closed_snoc order c :
  closed order -> (forall r, r ∈ refs c -> r ∈ order) -> closed (order ++ [c]).
Proof using Type.
  intros Hc Hr i x r Hi Hx. assert (forall j y, order !! j = Some y -> (order ++ [c]) !! j = Some y) as Hmono.
  { intros j y Hj. apply lookup_app_l_Some, Hj. }
  apply lookup_app_Some in Hi as [Hi|[Hge Hi]].
  - destruct (Hc _ _ _ Hi Hx) as (j & Hj & Ej). exists j. auto.
  - apply list_lookup_singleton_Some in Hi as [E <-].
    destruct (list_elem_of_lookup_1 _ _ (Hr r Hx)) as [j Hj]. exists j. split; [|auto].
    apply lookup_lt_Some in Hj. lia.
Qed.

Lemma visit_children (rs : list Cell) anc st m :
  Forall (fun c => forall anc st, c ∈ subcells root -> (forall a, a ∈ anc -> csize c < csize a)%nat ->
    visit_inv anc st -> visit_post c anc st (visit c st)) rs ->
  (forall r, r ∈ rs -> r ∈ subcells root /\ csize r < m)%nat -> (forall a, a ∈ anc -> m <= csize a)%nat ->
  visit_inv anc st ->
  let st' := foldl (fun st r => visit r st) st rs in
  visit_inv anc st' /\ (exists l, st'.2 = st.2 ++ l) /\ (forall r, r ∈ rs -> r ∈ st'.2)
  /\ (forall x, x ∈ st'.2 -> x ∈ st.2 \/ csize x < m)%nat /\ (forall h, h ∈ st.1 -> h ∈ st'.1).
Proof using Type.
  intros HF. revert st. induction HF as [|r rs Hr _ IH]; intros st Hs Ha Hi; cbn [foldl].
  { split; [done|]. split; [exists []; by rewrite app_nil_r|]. split; [by intros r Hr%not_elem_of_nil|]. split; auto. }
  destruct (Hs r) as [Sr Mr]; [by left|].
  destruct (Hr anc st Sr) as [P1 [l1 P2] P3 P5 P4]; [intros a Haa; specialize (Ha a Haa); lia|done|].
  destruct (IH (visit r st)) as (Q1 & [l2 Q2] & Q3 & Q4 & Q5); [|done|done|].
  { intros q Hq. apply Hs. by right. }
  split; [done|]. split; [exists (l1 ++ l2); by rewrite Q2, P2, app_assoc|]. split; [|split; [|auto]].
  - intros q Hq. apply elem_of_cons in Hq as [->|Hq]; [|by apply Q3]. rewrite Q2. apply elem_of_app; by left.
  - intros x Hx. destruct (Q4 x Hx) as [Hx'|]; [|by right]. destruct (P4 x Hx'); [by left|right; lia].
Qed.

Lemma visit_inv_enter c anc st :
  c ∈ subcells root -> visit_inv anc st -> visit_inv (c :: anc) (repr_hash c :: st.1, st.2).
Proof using Type.
  intros Hc [V1 V2 V3 V4]. split; cbn [fst snd]; [| |done|done].
  - intros h Hh. apply elem_of_cons in Hh as [->|Hh].
    + exists c. split; [done|]. split; [done|]. right. by left.
    + destruct (V1 h Hh) as (x & E & Hx & [?|?]); exists x; (split; [done|]); (split; [done|]); [by left|right; by right].
  - intros x Hx. destruct (V2 x Hx). split; [done|]. by right.
Qed.

Lemma visit_spec c anc st :
  c ∈ subcells root -> (forall a, a ∈ anc -> csize c < csize a)%nat ->
  visit_inv anc st -> visit_post c anc st (visit c st).
Proof using hash_inj.
  revert anc st. induction c as [d n rs IH] using cell_ind'. intros anc st Hc Ha Hi.
  set (c := mkCell d n rs) in *. change (visit c st) with
    (if bool_decide (repr_hash c ∈ st.1) then st
     else let st' := foldl (fun st r => visit r st) (repr_hash c :: st.1, st.2) rs in (st'.1, st'.2 ++ [c])).
  destruct (decide (repr_hash c ∈ st.1)) as [Hin|Hin].
  - rewrite bool_decide_true by done. split; [done|exists []; by rewrite app_nil_r| |done|auto].
    destruct (vi_seen _ _ Hi _ Hin) as (x & E & Hx & Hor). apply hash_inj in E as <-; [|done|done].
    destruct Hor as [?|Hanc]; [done|]. specialize (Ha c Hanc). lia.
  - rewrite bool_decide_false by done.
    destruct (visit_children rs (c :: anc) (repr_hash c :: st.1, st.2) (csize c) IH) as ([V1 V2 V3 V4] & [l El] & Q3 & Q4 & Q5).
    + intros r Hr. split; [|by apply csize_ref]. apply (subcells_trans _ c); [by apply ref_subcell|done].
    + intros a Haa. apply elem_of_cons in Haa as [->|Haa]; [done|]. specialize (Ha a Haa). lia.
    + by apply visit_inv_enter.
    + set (st' := foldl _ _ _) in *. cbn [fst snd] in *.
      assert (c ∉ st'.2) as Hni.
      { intros Hx. destruct (Q4 c Hx) as [Hx'|]; [|lia]. by apply Hin, (vi_order _ _ Hi). }
      split; cbn [fst snd].
      * split; cbn [fst snd].
        -- intros h Hh. destruct (V1 h Hh) as (x & E & Hx & [Ho|Han]); exists x; (split; [done|]); (split; [done|]).
           ++ left. apply elem_of_app; by left.
           ++ apply elem_of_cons in Han as [->|]; [left|by right]. apply elem_of_app; right; by left.
        -- intros x Hx. apply elem_of_app in Hx as [Hx|Hx]; [by apply V2|].
           apply list_elem_of_singleton in Hx as ->. split; [done|].
           apply Q5. by left.
        -- by apply closed_snoc.
        -- apply NoDup_app. split; [done|]. split; [|apply NoDup_singleton].
           intros x Hx Hx'. apply list_elem_of_singleton in Hx' as ->. done.
      * exists (l ++ [c]). by rewrite El, app_assoc.
      * apply elem_of_app; right; by left.
      * intros h Hh. apply Q5. by right.
      * intros x Hx. apply elem_of_app in Hx as [Hx|Hx].
        -- destruct (Q4 x Hx); [by left|right; lia].
        -- apply list_elem_of_singleton in Hx as ->. by right.
Qed.

Lemma index_of_elem (cells : list Cell) i h k :
  index_of i h cells = Some k -> exists x, x ∈ cells /\ repr_hash x = h.
Proof using Type.
  revert i. induction cells as [|c cells IH]; intros i E; [done|]. cbn in E.
  destruct (index_of (S i) h cells) eqn:E'.
  - destruct (IH _ ltac:(by rewrite E', E)) as (x & ? & ?). exists x. split; [by right|done].
  - case_bool_decide as Hx; [|done]. exists c. split; [by left|done].
Qed.

Lemma index_of_spec (cells : list Cell) i j r :
  cells !! j = Some r -> NoDup cells -> (forall x, x ∈ cells -> repr_hash x = repr_hash r -> x = r) ->
  index_of i (repr_hash r) cells = Some (i + j)%nat.
Proof using Type.
  revert i j. induction cells as [|c cells IH]; intros i j Hj Hnd Hinj; [done|].
  apply NoDup_cons in Hnd as [Hni Hnd]. cbn [index_of]. destruct j as [|j]; cbn in Hj.
  - injection Hj as ->. destruct (index_of (S i) (repr_hash r) cells) as [k|] eqn:E.
    + apply index_of_elem in E as (x & Hx & E). apply Hinj in E as ->; [done|by right].
    + rewrite bool_decide_true by done. f_equal. lia.
  - rewrite (IH (S i) j Hj Hnd); [f_equal; lia|]. intros x Hx. apply Hinj. by right.
Qed.

(** The order [to_boc] writes: the root first, no cell twice, references forward. *)
Definition cell_order : list Cell := (topological_order root).1.
Definition ref_index (r : Cell) : nat := default 0%nat (index_of 0 (repr_hash r) cell_order).

Lemma visit_root_inv : visit_inv [] (visit root ([], [])) /\ exists l, (visit root ([], [])).2 = l ++ [root].
Proof using hash_inj.
  split.
  - apply (vp_inv root [] ([], [])). apply visit_spec; [apply subcells_self|by intros a Ha%not_elem_of_nil|].
    split; cbn; [by intros h Hh%not_elem_of_nil|by intros x Hx%not_elem_of_nil|done|constructor].
  - destruct root as [d n rs]. cbn [visit fst snd].
    rewrite bool_decide_false by (intros H%not_elem_of_nil; done). by eexists.
Qed.

Lemma cell_order_root : cell_order !! 0%nat = Some root.
Proof using hash_inj.
  destruct visit_root_inv as [_ [l E]]. unfold cell_order, topological_order. cbn [fst]. by rewrite E, rev_app_distr.
Qed.

Lemma cell_order_sub x : x ∈ cell_order -> x ∈ subcells root.
Proof using hash_inj.
  destruct visit_root_inv as [[_ V2 _ _] _]. unfold cell_order, topological_order. cbn [fst].
  intros Hx. apply V2. apply list_elem_of_In in Hx. apply list_elem_of_In. by apply in_rev.
Qed.

Lemma cell_order_nodup : NoDup cell_order.
Proof using hash_inj.
  destruct visit_root_inv as [[_ _ _ V4] _]. unfold cell_order, topological_order. cbn [fst].
  by rewrite <- Permutation_rev.
Qed.

(** A reference's index is that of the cell it points to, further on. *)
Lemma ref_index_spec i x r :
  cell_order !! i = Some x -> r ∈ refs x -> cell_order !! ref_index r = Some r /\ (i < ref_index r)%nat.
Proof using hash_inj.
  intros Hi Hr. destruct visit_root_inv as [[_ V2 V3 V4] _].
  set (order := (visit root ([], [])).2) in *.
  assert (cell_order = reverse order) as Ho by (unfold cell_order, topological_order; cbn [fst]; apply rev_alt).
  rewrite Ho in Hi. apply reverse_lookup_Some in Hi as [Hi Hlt].
  destruct (V3 _ _ _ Hi Hr) as (j & Hj & Ej). pose proof (lookup_lt_Some _ _ _ Ej) as Hjl.
  assert (cell_order !! (length order - S j)%nat = Some r) as Ek.
  { rewrite Ho, reverse_lookup by lia. by replace (length order - S (length order - S j))%nat with j by lia. }
  assert (ref_index r = length order - S j)%nat as ->; [|split; [done|lia]].
  unfold ref_index. rewrite (index_of_spec _ _ _ _ Ek cell_order_nodup); [done|].
  intros y Hy. apply hash_inj; [by apply cell_order_sub|].
  apply cell_order_sub, (list_elem_of_lookup_2 _ _ _ Ek).
Qed.
End order.

(** ** Reading back integers *)

Lemma be_bytes_S n v : be_bytes (S n) v = be_bytes n (v / 256) ++ [byte_of_Z v].
Proof. done. Qed.

Lemma be_bytes_split k n v : be_bytes (k + n) v = be_bytes k (v / 256 ^ Z.of_nat n) ++ be_bytes n v.
Proof.
  revert v. induction n as [|n IH]; intros v.
  { rewrite Nat.add_0_r, app_nil_r. cbn [Z.of_nat Z.pow]. by rewrite Z.pow_0_r, Z.div_1_r. }
  rewrite Nat.add_succ_r, !be_bytes_S, IH, <- app_assoc. do 2 f_equal.
  rewrite Z.div_div by lia. f_equal. rewrite Nat2Z.inj_succ, Z.pow_succ_r; lia.
Qed.

Lemma boc_be_bytes v n : (n <= 8)%nat -> boc_be v n = be_bytes n v.
Proof.
  intros Hn. unfold boc_be. replace 8%nat with (8 - n + n)%nat at 2 by lia.
  rewrite be_bytes_split. apply drop_app_length'. by rewrite length_be_bytes.
Qed.

Lemma lor_byte v b : Z.lor (v * 256) (byte_val b) = v * 256 + byte_val b.
Proof.
  symmetry. apply Z.add_nocarry_lor. apply Z.bits_inj'. intros i Hi. rewrite Z.land_spec, Z.bits_0.
  change 256 with (2 ^ 8). destruct (Z_lt_ge_dec i 8) as [Hlt|Hge].
  - by rewrite Z.mul_pow2_bits_low by lia.
  - rewrite andb_comm. pose proof (byte_val_range b).
    destruct (Z.eq_dec (byte_val b) 0) as [->|]; [by rewrite Z.bits_0|].
    rewrite Z.bits_above_log2; [done|lia|]. apply Z.log2_lt_pow2; [lia|].
    apply Z.lt_le_trans with (2 ^ 8); [lia|]. apply Z.pow_le_mono_r; lia.
Qed.

Lemma read_fold n v :
  (n <= 8)%nat -> 0 <= v < 256 ^ Z.of_nat n ->
  foldl (fun v b => Z.lor (wrap 64 (Z.shiftl v 8)) (byte_val b)) 0 (be_bytes n v) = v.
Proof.
  revert v. induction n as [|n IH]; intros v Hn Hv.
  { change (256 ^ Z.of_nat 0) with 1 in Hv. cbn. lia. }
  rewrite Nat2Z.inj_succ, Z.pow_succ_r in Hv by lia.
  assert (256 ^ Z.of_nat n <= 2 ^ 56).
  { change (2 ^ 56) with (256 ^ 7). apply Z.pow_le_mono_r; lia. }
  assert (0 <= v / 256 < 256 ^ Z.of_nat n) as Hd.
  { split; [apply Z.div_pos; lia|]. apply Z.div_lt_upper_bound; lia. }
  rewrite be_bytes_S, foldl_app. cbn [foldl]. rewrite IH by lia.
  rewrite Z.shiftl_mul_pow2 by lia. change (2 ^ 8) with 256.
  unfold wrap. rewrite Z.mod_small by lia. rewrite lor_byte, byte_val_of_Z.
  pose proof (Z.div_mod v 256). lia.
Qed.

(** A big-endian field at a position reads as its value. *)
Lemma read_spec pre post n v :
  (n <= 8)%nat -> 0 <= v < 256 ^ Z.of_nat n ->
  read (pre ++ be_bytes n v ++ post) (length pre) n = Ret (v, (length pre + n)%nat).
Proof.
  intros Hn Hv. unfold read.
  rewrite (proj2 (Nat.ltb_ge 8 n)) by done.
  rewrite (proj2 (Nat.ltb_ge _ _)) by (rewrite !length_app, length_be_bytes; lia). cbn [orb].
  unfold slice. rewrite (proj2 (Nat.leb_le _ _)) by lia.
  rewrite (proj2 (Nat.leb_le _ _)) by (rewrite !length_app, length_be_bytes; lia). cbn [andb mbind res_bind].
  rewrite drop_app_length. replace (length pre + n - length pre)%nat with n by lia.
  rewrite take_app_length' by (symmetry; apply length_be_bytes). by rewrite read_fold.
Qed.

Lemma read_refs_spec pre post ref_size vs :
  (ref_size <= 8)%nat -> Forall (fun v => 0 <= v < 256 ^ Z.of_nat ref_size) vs ->
  read_refs (pre ++ mjoin ((fun v => be_bytes ref_size v) <$> vs) ++ post) (length pre) ref_size (length vs)
  = Ret (vs, (length pre + length vs * ref_size)%nat).
Proof.
  intros Hr Hv. revert pre. induction Hv as [|v vs Hv _ IH]; intros pre.
  { cbn. by rewrite Nat.add_0_r. }
  rewrite fmap_cons. change (mjoin (?x :: ?l)) with (x ++ mjoin l). rewrite <- app_assoc. cbn [length read_refs].
  rewrite read_spec by done. cbn [mbind res_bind].
  rewrite (app_assoc pre). specialize (IH (pre ++ be_bytes ref_size v)). rewrite length_app, length_be_bytes in IH.
  rewrite IH. cbn. do 2 f_equal. lia.
Qed.

Lemma bytes_for_loop_spec fuel n x :
  0 <= x < 256 ^ Z.of_nat fuel -> (n <= bytes_for_loop fuel n x <= n + fuel)%nat
  /\ x < 256 ^ Z.of_nat (bytes_for_loop fuel n x - n).
Proof.
  revert n x. induction fuel as [|fuel IH]; intros n x Hx; cbn [bytes_for_loop].
  { split; [lia|]. rewrite Nat.sub_diag. change (256 ^ Z.of_nat 0) with 1 in *. lia. }
  destruct (Z.ltb_spec 0 x) as [Hp|Hp]; [|split; [lia|]; rewrite Nat.sub_diag; change (256 ^ Z.of_nat 0) with 1; lia].
  rewrite Z.shiftr_div_pow2 by lia. change (2 ^ 8) with 256.
  rewrite Nat2Z.inj_succ, Z.pow_succ_r in Hx by lia.
  destruct (IH (S n) (x / 256)) as [H1 H2].
  { split; [apply Z.div_pos; lia|]. apply Z.div_lt_upper_bound; lia. }
  set (m := bytes_for_loop fuel (S n) (x / 256)) in *. split; [lia|].
  replace (m - n)%nat with (S (m - S n)) by lia. rewrite Nat2Z.inj_succ, Z.pow_succ_r by lia.
  pose proof (Z.div_mod x 256 ltac:(lia)). pose proof (Z.mod_pos_bound x 256 ltac:(lia)). lia.
Qed.

Lemma bytes_for_le v : (bytes_for v <= 8)%nat.
Proof.
  assert (forall fuel n x, bytes_for_loop fuel n x <= n + fuel)%nat as H; [|apply (H 8%nat 0%nat)].
  induction fuel as [|fuel IH]; intros n x; cbn; [lia|]. destruct (0 <? x); [|lia].
  specialize (IH (S n) (Z.shiftr x 8)). lia.
Qed.

Lemma bytes_for_bound v : 0 <= v < 2 ^ 64 -> v < 256 ^ Z.of_nat (bytes_for v).
Proof.
  intros Hv. destruct (bytes_for_loop_spec 8 0 v Hv) as [_ H]. by rewrite Nat.sub_0_r in H.
Qed.

(** ** Reading back a cell *)

Lemma find_seq_first (p : nat -> bool) m n k :
  (m <= k < m + n)%nat -> p k = true -> (forall j, (m <= j < k)%nat -> p j = false) ->
  List.find p (seq m n) = Some k.
Proof.
  revert m. induction n as [|n IH]; intros m Hk Hp Hj; [lia|]. cbn. destruct (decide (m = k)) as [->|Hne].
  - by rewrite Hp.
  - rewrite Hj by lia. apply IH; [lia|done|]. intros j ?. apply Hj. lia.
Qed.

(** The augmentation bit marks the end of the data: the lowest set bit of the last byte. *)
Lemma strip_len_augmented c last :
  Cell_ok c -> (bit_len c mod 8 <> 0)%nat -> augmented_data c !! (bit_len c / 8)%nat = Some last ->
  strip_len (bit_len c / 8) last = bit_len c.
Proof.
  intros Hc Hm Hl. pose proof (Nat.div_mod_eq (bit_len c) 8) as Ed.
  pose proof (Nat.mod_upper_bound (bit_len c) 8 ltac:(lia)) as Hb.
  set (q := (bit_len c / 8)%nat) in *. set (m := (bit_len c mod 8)%nat) in *.
  assert (forall j, (j < 8)%nat -> Z.testbit (byte_val last) (Z.of_nat j) = get_bit (augmented_data c) (8 * q + (7 - j))) as Hbit.
  { intros j Hj. unfold get_bit, byte_bit.
    replace ((8 * q + (7 - j)) / 8)%nat with q
      by (rewrite Nat.mul_comm, Nat.div_add_l, Nat.div_small by lia; lia).
    replace ((8 * q + (7 - j)) mod 8)%nat with (7 - j)%nat
      by (rewrite Nat.add_comm, Nat.mul_comm, Nat.Div0.mod_add, Nat.mod_small; lia).
    rewrite nth_lookup, Hl. cbn [default Datatypes.id]. f_equal. lia. }
  unfold strip_len. rewrite (find_seq_first _ 0 8 (7 - m)).
  - lia.
  - lia.
  - rewrite Hbit, augmented_bit by (done || lia). fold m. rewrite (proj2 (Nat.eqb_neq m 0)) by done.
    rewrite (proj2 (Nat.eqb_eq _ _)) by lia. done.
  - intros j Hj. rewrite Hbit, augmented_bit by (done || lia). fold m.
    rewrite (proj2 (Nat.eqb_neq (8 * q + (7 - j)) (bit_len c))) by lia.
    rewrite andb_false_r. cbn [orb]. apply Hc. lia.
Qed.

Lemma slice_app pre s post : slice (pre ++ s ++ post) (length pre) (length pre + length s) = Ret s.
Proof.
  unfold slice. rewrite (proj2 (Nat.leb_le _ _)) by lia.
  rewrite (proj2 (Nat.leb_le _ _)) by (rewrite !length_app; lia). cbn [andb].
  rewrite drop_app_length. replace (length pre + length s - length pre)%nat with (length s) by lia.
  by rewrite take_app_length.
Qed.

Lemma index_app {A} (pre : list A) x post : index (pre ++ x :: post) (length pre) = Ret x.
Proof. unfold index. by rewrite list_lookup_middle. Qed.

Lemma augmented_len_cases c :
  Cell_ok c -> length (augmented_data c) = (if (bit_len c mod 8 =? 0)%nat then bit_len c / 8 else S (bit_len c / 8))%nat.
Proof.
  intros [Hlen _]. rewrite augmented_length, Hlen. pose proof (Nat.div_mod_eq (bit_len c) 8) as Ed.
  pose proof (Nat.mod_upper_bound (bit_len c) 8 ltac:(lia)) as Hm.
  set (q := (bit_len c / 8)%nat) in *. set (m := (bit_len c mod 8)%nat) in *. rewrite Ed.
  destruct (Nat.eqb_spec m 0) as [E|E].
  - rewrite E. replace (8 * q + 0 + 7)%nat with (q * 8 + 7)%nat by lia. rewrite Nat.div_add_l by lia. cbn. lia.
  - replace (8 * q + m + 7)%nat with ((q + 1) * 8 + (m - 1))%nat by lia.
    rewrite Nat.div_add_l, Nat.div_small by lia. lia.
Qed.

(** What the second descriptor byte says of the data: how many bytes, and whether the
    last one carries the augmentation bit. *)
Lemma descriptor_decode c :
  Cell_ok c -> (bit_len c <= 1023)%nat -> (length (refs c) <= 4)%nat ->
  exists d1 d2, descriptor c = [d1; d2]
    /\ Z.to_nat (Z.land (byte_val d1) 7) = length (refs c)
    /\ Z.to_nat (div_ceil (byte_val d2) 2) = length (augmented_data c)
    /\ Z.testbit (byte_val d2) 0 = negb (bit_len c mod 8 =? 0)%nat.
Proof.
  intros Hc Hb Hr. unfold descriptor. eexists _, _. split; [done|].
  assert (bit_len c / 8 <= 127)%nat as Hq by (apply Nat.lt_succ_r, Nat.Div0.div_lt_upper_bound; lia).
  rewrite byte_of_Z_small by lia. split.
  { change 7 with (Z.ones 3). rewrite Z.land_ones by lia. rewrite Z.mod_small; lia. }
  rewrite (augmented_len_cases c Hc). unfold div_ceil.
  destruct (Nat.eqb_spec (bit_len c mod 8) 0) as [E|E]; rewrite byte_of_Z_small by lia; split.
  - replace (2 * Z.of_nat (bit_len c / 8) + 2 - 1) with (Z.of_nat (bit_len c / 8) * 2 + 1) by lia.
    rewrite Z.div_add_l by lia. change (1 / 2) with 0. lia.
  - by rewrite Z.testbit_even_0.
  - replace (2 * Z.of_nat (bit_len c / 8) + 1 + 2 - 1) with ((Z.of_nat (bit_len c / 8) + 1) * 2) by lia.
    rewrite Z.div_mul by lia. lia.
  - by rewrite Z.testbit_odd_0.
Qed.

Lemma bit_len_decode c :
  Cell_ok c ->
  (if negb (bit_len c mod 8 =? 0)%nat
   then reject_if (length (augmented_data c) =? 0)%nat;;
        last ← index (augmented_data c) (length (augmented_data c) - 1);
        Ret (strip_len (length (augmented_data c) - 1) last)
   else Ret (length (augmented_data c) * 8)%nat) = Ret (bit_len c).
Proof.
  intros Hc. pose proof (augmented_len_cases c Hc) as Hl. pose proof (Nat.div_mod_eq (bit_len c) 8).
  destruct (Nat.eqb_spec (bit_len c mod 8) 0) as [E|E]; cbn [negb].
  - f_equal. lia.
  - rewrite Hl. cbn [Nat.eqb reject_if mbind res_bind]. replace (S (bit_len c / 8) - 1)%nat with (bit_len c / 8)%nat by lia.
    destruct (lookup_lt_is_Some_2 (augmented_data c) (bit_len c / 8)) as [last El]; [lia|].
    unfold index. rewrite El. cbn [mbind res_bind]. by rewrite (strip_len_augmented c last).
Qed.

Lemma length_join_be n (vs : list Z) : length (mjoin ((fun v => be_bytes n v) <$> vs)) = (length vs * n)%nat.
Proof.
  induction vs as [|v vs IH]; [done|]. rewrite fmap_cons. change (mjoin (?x :: ?l)) with (x ++ mjoin l).
  rewrite length_app, length_be_bytes, IH. cbn [length]. lia.
Qed.

Lemma parse_cell_spec pre post ref_size c vs body_end :
  Cell_ok c -> (bit_len c <= 1023)%nat -> (length (refs c) <= 4)%nat -> length vs = length (refs c) ->
  (ref_size <= 8)%nat -> Forall (fun v => 0 <= v < 256 ^ Z.of_nat ref_size) vs ->
  let body := descriptor c ++ augmented_data c ++ mjoin ((fun v => be_bytes ref_size v) <$> vs) in
  (length pre + length body <= body_end)%nat ->
  parse_cell (pre ++ body ++ post) body_end ref_size (length pre)
  = Ret ((augmented_data c, bit_len c, vs), (length pre + length body)%nat).
Proof.
  intros Hc Hb Hr Hvs Hrs Hv body Hend.
  destruct (descriptor_decode c Hc Hb Hr) as (d1 & d2 & Ed & E1 & E2 & E3).
  set (rb := mjoin ((fun v => be_bytes ref_size v) <$> vs)) in *.
  set (aug := augmented_data c) in *.
  assert (length body = 2 + length aug + length rb)%nat as Hbl.
  { unfold body. rewrite !length_app, Ed. cbn [length]. lia. }
  assert (pre ++ body ++ post = pre ++ d1 :: d2 :: aug ++ rb ++ post) as Ebuf.
  { unfold body. rewrite Ed, <- !app_assoc. done. }
  unfold parse_cell. rewrite (proj2 (Nat.ltb_ge _ _)) by lia. cbn [reject_if mbind res_bind].
  rewrite Ebuf, index_app. cbn [mbind res_bind].
  replace (pre ++ d1 :: d2 :: aug ++ rb ++ post) with ((pre ++ [d1]) ++ d2 :: aug ++ rb ++ post)
    by (by rewrite <- app_assoc).
  replace (length pre + 1)%nat with (length (pre ++ [d1])) by (by rewrite length_app).
  rewrite index_app. cbn [mbind res_bind]. rewrite E1, E2, E3.
  rewrite (proj2 (Nat.ltb_ge _ _)) by lia. cbn [reject_if mbind res_bind].
  replace ((pre ++ [d1]) ++ d2 :: aug ++ rb ++ post) with ((pre ++ [d1; d2]) ++ aug ++ rb ++ post)
    by (by rewrite <- !app_assoc).
  replace (length pre + 2)%nat with (length (pre ++ [d1; d2])) by (by rewrite length_app).
  rewrite slice_app. cbn [mbind res_bind].
  pose proof (bit_len_decode c Hc) as Hbd. cbn [mbind res_bind] in Hbd. fold aug in Hbd. rewrite Hbd. clear Hbd.
  cbn [mbind res_bind]. rewrite app_assoc.
  replace (length (pre ++ [d1; d2]) + length aug)%nat with (length ((pre ++ [d1; d2]) ++ aug)) by (by rewrite length_app).
  rewrite <- Hvs. rewrite (read_refs_spec _ post ref_size vs Hrs Hv). cbn [mbind res_bind]. do 2 f_equal.
  rewrite Hbl, !length_app. unfold rb. rewrite length_join_be. cbn [length]. lia.
Qed.

(** The bytes of one cell of the body, given the indices of its references. *)
Definition body_of (ref_size : nat) (vs : Cell -> list Z) (c : Cell) : bytes :=
  descriptor c ++ augmented_data c ++ mjoin ((fun v => be_bytes ref_size v) <$> vs c).

Lemma parse_cells_spec ref_size (vs : Cell -> list Z) cells pre post body_end :
  (ref_size <= 8)%nat ->
  Forall (fun c => Cell_ok c /\ (bit_len c <= 1023)%nat /\ (length (refs c) <= 4)%nat
    /\ length (vs c) = length (refs c) /\ Forall (fun v => 0 <= v < 256 ^ Z.of_nat ref_size) (vs c)) cells ->
  (length pre + length (mjoin (body_of ref_size vs <$> cells)) <= body_end)%nat ->
  parse_cells (pre ++ mjoin (body_of ref_size vs <$> cells) ++ post) body_end ref_size (length pre) (length cells)
  = Ret ((fun c => (augmented_data c, bit_len c, vs c)) <$> cells).
Proof.
  intros Hr H. revert pre. induction H as [|c cells (H1 & H2 & H3 & H4 & H5) _ IH]; intros pre Hend; [done|].
  rewrite !fmap_cons in *. change (mjoin (?x :: ?l)) with (x ++ mjoin l) in *. rewrite length_app in Hend.
  rewrite <- app_assoc. cbn [length parse_cells].
  rewrite (parse_cell_spec pre _ ref_size c (vs c) body_end) by (done || unfold body_of in Hend; lia).
  cbn [mbind res_bind]. rewrite app_assoc. fold (body_of ref_size vs c).
  replace (length pre + length (body_of ref_size vs c))%nat with (length (pre ++ body_of ref_size vs c)) by apply length_app.
  rewrite IH by (rewrite length_app; lia). done.
Qed.

(** ** Rebuilding the tree *)

(** What parsing returns: the cells with the augmentation bit left in the data. *)
Fixpoint augmented (c : Cell) : Cell :=
  let 'mkCell _ n rs := c in mkCell (augmented_data c) n (augmented <$> rs).

Lemma depth_augmented c : depth (augmented c) = depth c.
Proof.
  induction c as [d n rs IH] using cell_ind'. cbn [augmented depth].
  induction IH as [|r rs Hr _ IHrs]; [done|]. cbn. by rewrite Hr, IHrs.
Qed.

Lemma refs_augmented c : refs (augmented c) = augmented <$> refs c.
Proof. by destruct c. Qed.

Section rebuild.
Variable cells : list Cell.
Variable vs : Cell -> list Z.
Hypothesis forward : forall i x, cells !! i = Some x ->
  Forall2 (fun v r => Z.of_nat i < v /\ cells !! Z.to_nat v = Some r) (vs x) (refs x).
Hypothesis shallow : Forall (fun c => depth c <= MAX_CELL_DEPTH) cells.

(** Cells [i] and up are built. *)
Definition built_from (i : nat) (st : list (option Cell) * list Z) : Prop :=
  length st.1 = length cells /\ length st.2 = length cells
  /\ forall j x, (i <= j)%nat -> cells !! j = Some x ->
       st.1 !! j = Some (Some (augmented x)) /\ st.2 !! j = Some (depth x).

Lemma collect_children_spec i st rvs rs acc :
  built_from (S i) st -> Forall2 (fun v r => Z.of_nat i < v /\ cells !! Z.to_nat v = Some r) rvs rs ->
  collect_children i (length cells) st.1 st.2 rvs (max_depth acc) (augmented <$> acc)
  = Ret (max_depth (acc ++ rs), augmented <$> (acc ++ rs)).
Proof using Type.
  intros (L1 & L2 & Hb) H. revert acc. induction H as [|v r rvs rs [Hv Hr] _ IH]; intros acc; cbn [collect_children].
  { by rewrite app_nil_r. }
  pose proof (lookup_lt_Some _ _ _ Hr) as Hlt.
  rewrite (proj2 (Z.leb_gt _ _)), (proj2 (Z.leb_gt _ _)) by lia. cbn [orb reject_if mbind res_bind].
  destruct (Hb (Z.to_nat v) r ltac:(lia) Hr) as [B1 B2].
  unfold index. rewrite B1, B2. cbn [try mbind res_bind].
  replace ((augmented <$> acc) ++ [augmented r]) with (augmented <$> (acc ++ [r])) by (by rewrite fmap_app).
  replace (Z.max (max_depth acc) (depth r)) with (max_depth (acc ++ [r]))
    by (rewrite max_depth_app; pose proof (depth_nonneg r); lia).
  rewrite IH. by rewrite <- app_assoc.
Qed.

Lemma build_cell_spec i x st :
  built_from (S i) st -> cells !! i = Some x ->
  exists st', build_cell ((fun c => (augmented_data c, bit_len c, vs c)) <$> cells) (length cells) i st = Ret st'
    /\ built_from i st'.
Proof using forward shallow.
  intros Hb Hx. pose proof Hb as (L1 & L2 & Hb'). pose proof (lookup_lt_Some _ _ _ Hx) as Hlt.
  unfold build_cell, index at 1. rewrite list_lookup_fmap, Hx. cbn [fmap option_fmap option_map mbind res_bind].
  change (collect_children i (length cells) st.1 st.2 (vs x) 0 [])
    with (collect_children i (length cells) st.1 st.2 (vs x) (max_depth []) (augmented <$> [])).
  rewrite (collect_children_spec i st (vs x) (refs x) [] Hb (forward i x Hx)). cbn [mbind res_bind app].
  pose proof (Forall2_length _ _ _ (forward i x Hx)) as Hl.
  assert (depth x <= MAX_CELL_DEPTH) as Hd.
  { rewrite Forall_forall in shallow. by apply shallow, (list_elem_of_lookup_2 _ _ _ Hx). }
  assert ((if (length (vs x) =? 0)%nat then Ret 0
           else if 65535 <? max_depth (refs x) + 1 then Reject else Ret (max_depth (refs x) + 1)) = Ret (depth x)) as ->.
  { destruct x as [d n rs]. cbn [refs] in *. rewrite Hl. destruct rs as [|r rs]; [done|].
    cbn [length Nat.eqb]. rewrite depth_max in * by done. unfold MAX_CELL_DEPTH in Hd.
    by rewrite (proj2 (Z.ltb_ge _ _)) by lia. }
  cbn [mbind res_bind]. rewrite (proj2 (Z.ltb_ge _ _)) by done. cbn [reject_if mbind res_bind].
  eexists. split; [done|]. split; [by cbn [fst]; rewrite length_insert|]. split; [by cbn [snd]; rewrite length_insert|].
  intros j y Hj Hy. cbn [fst snd]. destruct (decide (i = j)) as [<-|Hne].
  - rewrite Hx in Hy. injection Hy as <-. rewrite !list_lookup_insert_eq by lia. by destruct x.
  - rewrite !list_lookup_insert_ne by done. apply Hb'; [lia|done].
Qed.

Lemma build_cells_spec n st :
  (n <= length cells)%nat -> built_from n st ->
  exists st', build_cells ((fun c => (augmented_data c, bit_len c, vs c)) <$> cells) (length cells) (down n) st = Ret st'
    /\ built_from 0 st'.
Proof using forward shallow.
  revert st. induction n as [|n IH]; intros st Hn Hb; [by exists st|].
  rewrite down_S. cbn [build_cells]. destruct (lookup_lt_is_Some_2 cells n) as [x Hx]; [lia|].
  destruct (build_cell_spec n x st Hb Hx) as (st' & -> & Hb'). cbn [mbind res_bind]. apply IH; [lia|done].
Qed.
End rebuild.

(** ** Round trip *)

Lemma lxor_u32 a b : in_u 32 a -> in_u 32 b -> in_u 32 (Z.lxor a b).
Proof.
  assert (forall x, in_u 32 x -> Z.log2 x < 32) as Hlog.
  { intros x [H0 H1]. destruct (Z.eq_dec x 0) as [->|]; [done|]. apply Z.log2_lt_pow2; lia. }
  intros Ha Hb. split; [apply Z.lxor_nonneg; destruct Ha, Hb; lia|].
  destruct (Z.le_gt_cases (Z.lxor a b) 0) as [Hz|Hp]; [lia|]. apply Z.log2_lt_pow2; [done|].
  pose proof (Z.log2_lxor a b (proj1 Ha) (proj1 Hb)). pose proof (Hlog a Ha). pose proof (Hlog b Hb). lia.
Qed.

Lemma crc32c_bit_u32 c : in_u 32 c -> in_u 32 (crc32c_bit c).
Proof.
  intros Hc. assert (in_u 32 (Z.shiftr c 1)) as Hs.
  { destruct Hc as [H0 H1]. rewrite Z.shiftr_div_pow2 by lia. change (2 ^ 1) with 2.
    split; [apply Z.div_pos; lia|]. apply Z.div_lt_upper_bound; lia. }
  unfold crc32c_bit. destruct (Z.testbit c 0); [|done]. by apply lxor_u32.
Qed.

Lemma crc32c_u32 d : in_u 32 (crc32c d).
Proof.
  unfold crc32c. apply lxor_u32; [|done].
  assert (forall x, in_u 32 x -> in_u 32 (foldl (fun crc b => Nat.iter 8 crc32c_bit (Z.lxor crc (byte_val b))) x d)) as H; [|by apply H].
  induction d as [|b d IH]; intros x Hx; [done|]. cbn [foldl]. apply IH. unfold Nat.iter, nat_rect.
  repeat apply crc32c_bit_u32. apply lxor_u32; [done|]. pose proof (byte_val_range b). split; lia.
Qed.

Lemma bytes_for_small v k : 0 <= v < 256 ^ Z.of_nat k -> (bytes_for v <= k)%nat.
Proof.
  assert (forall fuel n x, 0 <= x < 256 ^ Z.of_nat k -> (bytes_for_loop fuel n x <= n + k)%nat) as H; [|apply (H 8%nat 0%nat)].
  induction k as [|k IH]; intros fuel n x Hx.
  { change (256 ^ Z.of_nat 0) with 1 in Hx. assert (x = 0) as -> by lia. destruct fuel; cbn; lia. }
  rewrite Nat2Z.inj_succ, Z.pow_succ_r in Hx by lia.
  destruct fuel as [|fuel]; cbn; [lia|]. destruct (0 <? x); [|lia].
  rewrite Nat.add_succ_r. apply (IH fuel (S n)). rewrite Z.shiftr_div_pow2 by lia. change (2 ^ 8) with 256.
  split; [apply Z.div_pos; lia|]. apply Z.div_lt_upper_bound; lia.
Qed.

Lemma read_any pre s post n :
  length s = n -> (n <= 8)%nat -> exists v, read (pre ++ s ++ post) (length pre) n = Ret (v, (length pre + n)%nat).
Proof.
  intros <- Hn. unfold read. rewrite (proj2 (Nat.ltb_ge 8 _)) by done.
  rewrite (proj2 (Nat.ltb_ge _ _)) by (rewrite !length_app; lia). cbn [orb].
  rewrite slice_app. cbn [mbind res_bind]. by eexists.
Qed.

Lemma flags_decode ref_size :
  (1 <= ref_size <= 7)%nat ->
  let fl := byte_of_Z (Z.lor (2 ^ 6) (Z.land (Z.of_nat ref_size) 7)) in
  Z.testbit (byte_val fl) 7 = false /\ Z.testbit (byte_val fl) 6 = true
  /\ Z.to_nat (Z.land (byte_val fl) 7) = ref_size.
Proof.
  intros H. destruct ref_size as [|[|[|[|[|[|[|[|n]]]]]]]]; try (exfalso; lia); by vm_compute.
Qed.

(** A well-formed header leads [from_boc] to the parse of the body. *)
Lemma from_boc_header (ref_size off_bytes count : nat) f2 f3 f4 bodies :
  (1 <= ref_size <= 7)%nat -> (off_bytes <= 8)%nat -> (0 < count)%nat -> Z.of_nat count <= MAX_BOC_CELLS ->
  Z.of_nat count < 256 ^ Z.of_nat ref_size ->
  length f2 = ref_size -> length f3 = ref_size -> length f4 = off_bytes ->
  let hdr := MAGIC ++ [byte_of_Z (Z.lor (2 ^ 6) (Z.land (Z.of_nat ref_size) 7))] ++ [byte_of_Z (Z.of_nat off_bytes)]
    ++ be_bytes ref_size (Z.of_nat count) ++ f2 ++ f3 ++ f4 ++ be_bytes ref_size 0 in
  let out := hdr ++ bodies in
  let buf := out ++ le_bytes 4 (crc32c out) in
  from_boc buf =
    (raw ← parse_cells buf (length out) ref_size (length hdr) count;
     st ← build_cells raw count (down count) (replicate count None, replicate count 0);
     b ← index st.1 0%nat; try b).
Proof.
  intros Hr Ho Hc0 Hc1 Hc2 L2 L3 L4 hdr out buf.
  set (fl := byte_of_Z (Z.lor (2 ^ 6) (Z.land (Z.of_nat ref_size) 7))) in *.
  destruct (flags_decode ref_size Hr) as (Hidx & Hcrc & Hrs). fold fl in Hidx, Hcrc, Hrs.
  set (p0 := MAGIC ++ [fl] ++ [byte_of_Z (Z.of_nat off_bytes)]) in *.
  set (f1 := be_bytes ref_size (Z.of_nat count)) in *.
  set (f5 := be_bytes ref_size 0) in *.
  set (tr := le_bytes 4 (crc32c out)) in *. set (tl := bodies ++ tr).
  assert (length f1 = ref_size) as L1 by apply length_be_bytes.
  assert (buf = p0 ++ f1 ++ f2 ++ f3 ++ f4 ++ f5 ++ tl) as Eb.
  { unfold buf, out, hdr, p0, tl. rewrite <- !app_assoc. reflexivity. }
  assert (read buf 6 ref_size = Ret (Z.of_nat count, (length (p0 ++ f1)))) as R1.
  { rewrite Eb. change 6%nat with (length p0). unfold f1. rewrite read_spec by lia.
    by rewrite length_app, length_be_bytes. }
  assert (exists v, read buf (length (p0 ++ f1)) ref_size = Ret (v, length (p0 ++ f1 ++ f2))) as [v2 R2].
  { destruct (read_any (p0 ++ f1) f2 (f3 ++ f4 ++ f5 ++ tl) ref_size L2 ltac:(lia)) as [v E]. exists v.
    rewrite Eb, (app_assoc p0), E. do 2 f_equal. rewrite (app_assoc p0), (length_app _ f2). lia. }
  assert (exists v, read buf (length (p0 ++ f1 ++ f2)) ref_size = Ret (v, length (p0 ++ f1 ++ f2 ++ f3))) as [v3 R3].
  { destruct (read_any (p0 ++ f1 ++ f2) f3 (f4 ++ f5 ++ tl) ref_size L3 ltac:(lia)) as [v E]. exists v.
    rewrite <- !app_assoc in E. rewrite Eb, E. do 2 f_equal. rewrite !length_app. lia. }
  assert (exists v, read buf (length (p0 ++ f1 ++ f2 ++ f3)) off_bytes = Ret (v, length (p0 ++ f1 ++ f2 ++ f3 ++ f4))) as [v4 R4].
  { destruct (read_any (p0 ++ f1 ++ f2 ++ f3) f4 (f5 ++ tl) off_bytes L4 Ho) as [v E]. exists v.
    rewrite <- !app_assoc in E. rewrite Eb, E. do 2 f_equal. rewrite !length_app. lia. }
  assert (read buf (length (p0 ++ f1 ++ f2 ++ f3 ++ f4)) ref_size = Ret (0, length hdr)) as R5.
  { pose proof (read_spec (p0 ++ f1 ++ f2 ++ f3 ++ f4) tl ref_size 0 ltac:(lia) ltac:(lia)) as E.
    fold f5 in E. rewrite <- !app_assoc in E. rewrite Eb, E. do 2 f_equal. unfold hdr.
    change (length (MAGIC ++ [fl] ++ [byte_of_Z (Z.of_nat off_bytes)] ++ f1 ++ f2 ++ f3 ++ f4 ++ f5))
      with (length (p0 ++ f1 ++ f2 ++ f3 ++ f4 ++ f5)).
    rewrite !length_app. unfold f5. rewrite length_be_bytes. lia. }
  assert (6 <= length buf)%nat as Hlen by (rewrite Eb; unfold p0; rewrite !length_app; cbn; lia).
  assert (length buf = length out + 4)%nat as Hout by (unfold buf, tr; rewrite length_app, length_le_bytes; done).
  assert (Z.to_nat (byte_val (byte_of_Z (Z.of_nat off_bytes))) = off_bytes) as Hoff by (rewrite byte_of_Z_small; lia).
  unfold from_boc. rewrite (proj2 (Nat.ltb_ge _ _)) by lia. cbn [reject_if mbind res_bind].
  assert (slice buf 0 4 = Ret MAGIC) as ->.
  { rewrite Eb. exact (slice_app [] MAGIC (([fl] ++ [byte_of_Z (Z.of_nat off_bytes)]) ++ f1 ++ f2 ++ f3 ++ f4 ++ f5 ++ tl)). }
  assert (index buf 4 = Ret fl) as -> by (by rewrite Eb).
  assert (index buf 5 = Ret (byte_of_Z (Z.of_nat off_bytes))) as -> by (by rewrite Eb).
  cbn [mbind res_bind]. rewrite bool_decide_true by done. cbn [negb reject_if mbind res_bind].
  rewrite Hidx, Hcrc, Hrs, Hoff.
  rewrite (proj2 (Nat.eqb_neq ref_size 0)), (proj2 (Nat.ltb_ge 8 ref_size)) by lia. cbn [orb reject_if mbind res_bind].
  rewrite R1. cbn [mbind res_bind].
  rewrite (proj2 (Z.eqb_neq _ 0)), (proj2 (Z.ltb_ge MAX_BOC_CELLS _)) by lia. cbn [orb reject_if mbind res_bind].
  rewrite R2. cbn [mbind res_bind]. rewrite R3. cbn [mbind res_bind]. rewrite R4. cbn [mbind res_bind].
  rewrite R5. cbn [mbind res_bind]. rewrite (proj2 (Z.leb_gt _ _)) by lia. cbn [reject_if mbind res_bind].
  rewrite Nat2Z.id. rewrite (proj2 (Nat.ltb_ge _ _)) by lia. cbn [mbind res_bind].
  replace (length buf - 4)%nat with (length out) by lia.
  assert (slice buf (length out) (length out + 4) = Ret tr) as ->.
  { pose proof (slice_app out tr []) as E. rewrite app_nil_r in E. unfold tr in E at 2. by rewrite length_le_bytes in E. }
  assert (slice buf 0 (length out) = Ret out) as -> by exact (slice_app [] out tr).
  cbn [mbind res_bind]. unfold tr. rewrite le_val_bytes by apply crc32c_u32. by rewrite Z.eqb_refl.
Qed.

Lemma Tree_ok_limits c : Tree_ok c -> Cell_ok c /\ (bit_len c <= 1023)%nat /\ (length (refs c) <= 4)%nat.
Proof. by intros []. Qed.

Lemma subcells_tree_ok x c : Tree_ok c -> x ∈ subcells c -> Tree_ok x.
Proof.
  intros Hc Hx. revert Hc. induction c as [d n rs IH] using cell_ind'. intros Hc.
  apply subcells_inv in Hx as [->|(r & Hr & Hx)]; [done|]. rewrite Forall_forall in IH.
  apply (IH r Hr Hx). apply Tree_ok_refs in Hc. rewrite Forall_forall in Hc. by apply Hc.
Qed.

Lemma depth_ref r c : r ∈ refs c -> depth r <= depth c.
Proof.
  destruct c as [d n rs]. cbn [refs]. rewrite depth_children. intros H.
  induction rs as [|x rs IH]; [by apply not_elem_of_nil in H|]. cbn. apply elem_of_cons in H as [->|H]; [lia|].
  specialize (IH H). lia.
Qed.

Lemma depth_subcell x c : x ∈ subcells c -> depth x <= depth c.
Proof.
  intros Hx. induction c as [d n rs IH] using cell_ind'. apply subcells_inv in Hx as [->|(r & Hr & Hx)]; [done|].
  rewrite Forall_forall in IH. specialize (IH r Hr Hx). apply depth_ref in Hr. lia.
Qed.

Section roundtrip.
Context {C : Crypto} {CL : CryptoLaws C}.

Lemma queries_subcell x c m : x ∈ subcells c -> m ∈ cell_queries x -> m ∈ cell_queries c.
Proof using Type.
  intros Hx Hm. induction c as [d n rs IH] using cell_ind'. apply subcells_inv in Hx as [->|(r & Hr & Hx)]; [done|].
  rewrite Forall_forall in IH. apply (elem_of_queries r); [done|]. by apply IH.
Qed.

Lemma subcells_hash_inj root :
  Tree_ok root -> NoCollision sha256 (cell_queries root) ->
  forall x y, x ∈ subcells root -> y ∈ subcells root -> repr_hash x = repr_hash y -> x = y.
Proof using CL.
  intros Ht Hn x y Hx Hy. apply repr_hash_inj; [by apply (subcells_tree_ok _ root)..|].
  refine (NoCollision_sub _ _ _ _ Hn). intros m Hm. apply elem_of_app in Hm as [Hm|Hm];
    [by apply (queries_subcell x)|by apply (queries_subcell y)].
Qed.

(** The indices [to_boc] writes for the references of a cell. *)
Definition written_refs (root c : Cell) : list Z := (fun r => Z.of_nat (ref_index root r)) <$> refs c.

Lemma to_boc_body root ref_size :
  (ref_size <= 8)%nat ->
  zip_with (cell_body ref_size) (topological_order root).1 (topological_order root).2
  = body_of ref_size (written_refs root) <$> cell_order root.
Proof using Type.
  intros Hr. unfold topological_order. cbn [fst snd].
  change (rev (visit root ([], [])).2) with (cell_order root).
  assert (forall l, zip_with (cell_body ref_size) l
    ((fun c => (fun r => index_of 0 (repr_hash r) (cell_order root)) <$> refs c) <$> l)
    = body_of ref_size (written_refs root) <$> l) as H; [|apply H].
  induction l as [|c l IH]; [done|]. rewrite !fmap_cons. cbn [zip_with]. f_equal; [|done].
  unfold cell_body, body_of, written_refs. do 3 f_equal. rewrite <- !list_fmap_compose.
  apply list_fmap_ext. intros i r _. cbn [compose]. by apply boc_be_bytes.
Qed.

Lemma written_refs_forward root :
  Tree_ok root -> NoCollision sha256 (cell_queries root) -> forall i x, cell_order root !! i = Some x ->
  Forall2 (fun v r => Z.of_nat i < v /\ cell_order root !! Z.to_nat v = Some r) (written_refs root x) (refs x).
Proof using CL.
  intros Ht Hn i x Hx. unfold written_refs. apply Forall2_fmap_l, Forall_Forall2_diag, Forall_forall.
  intros r Hr.
  change (Z.of_nat i < Z.of_nat (ref_index root r) /\ cell_order root !! Z.to_nat (Z.of_nat (ref_index root r)) = Some r).
  rewrite Nat2Z.id.
  destruct (ref_index_spec root (subcells_hash_inj root Ht Hn) i x r Hx Hr) as [H1 H2]. split; [lia|done].
Qed.

Lemma augmented_data_idem d n rs rs' :
  augmented_data (mkCell (augmented_data (mkCell d n rs)) n rs') = augmented_data (mkCell d n rs).
Proof using Type.
  unfold augmented_data. cbn [bit_len data]. pose proof (Nat.mod_upper_bound n 8 ltac:(lia)).
  destruct (n mod 8 =? 0)%nat; [done|]. rewrite length_alter. apply list_eq. intros i.
  destruct (decide (i = (length d - 1)%nat)) as [->|Hne]; [|by rewrite !list_lookup_alter_ne].
  rewrite !list_lookup_alter_eq. destruct (d !! _) as [b|]; [|done].
  cbn [fmap option_fmap option_map]. f_equal. apply byte_bit_ext. intros k Hk. rewrite !byte_bit_set by done. by destruct (k =? n mod 8)%nat.
Qed.

Lemma repr_hash_augmented c : repr_hash (augmented c) = repr_hash c.
Proof using Type.
  induction c as [d n rs IH] using cell_ind'. cbn [augmented repr_hash]. rewrite augmented_data_idem.
  unfold descriptor. cbn [refs bit_len]. rewrite length_fmap. do 3 f_equal.
  assert (repr_hash <$> (augmented <$> rs) = repr_hash <$> rs) as ->.
  { rewrite <- list_fmap_compose. apply list_fmap_ext. intros i r Hr. rewrite Forall_forall in IH.
    by apply IH, (list_elem_of_lookup_2 _ _ _ Hr). }
  f_equal. f_equal. rewrite <- list_fmap_compose. apply list_fmap_ext. intros i r _. cbn. by rewrite depth_augmented.
Qed.

Lemma cell_bits_augmented c : Cell_ok c -> cell_bits (augmented c) = cell_bits c.
Proof using Type.
  intros Hc. unfold cell_bits.
  assert (bit_len (augmented c) = bit_len c) as -> by (by destruct c).
  assert (data (augmented c) = augmented_data c) as -> by (by destruct c).
  apply list_fmap_ext. intros i k Hk. apply lookup_seq in Hk as [-> Hk].
  rewrite augmented_bit by done. rewrite (proj2 (Nat.eqb_neq (0 + i) (bit_len c))) by lia. by rewrite andb_false_r.
Qed.

Lemma cell_order_ok root :
  Tree_ok root -> NoCollision sha256 (cell_queries root) -> forall c, c ∈ cell_order root ->
  Tree_ok c /\ depth c <= depth root.
Proof using CL.
  intros Ht Hn c Hc. apply (cell_order_sub root (subcells_hash_inj root Ht Hn)) in Hc.
  split; [by apply (subcells_tree_ok _ root)|by apply depth_subcell].
Qed.

(** The body: [parse_cells] and [build_cells] invert the cells written. *)
Lemma body_roundtrip root ref_size hdr post body_end :
  Tree_ok root -> depth root <= MAX_CELL_DEPTH -> NoCollision sha256 (cell_queries root) ->
  (ref_size <= 8)%nat -> Z.of_nat (length (cell_order root)) < 256 ^ Z.of_nat ref_size ->
  let cells := cell_order root in
  let bodies := mjoin (body_of ref_size (written_refs root) <$> cells) in
  (length hdr + length bodies <= body_end)%nat ->
  (raw ← parse_cells (hdr ++ bodies ++ post) body_end ref_size (length hdr) (length cells);
   st ← build_cells raw (length cells) (down (length cells)) (replicate (length cells) None, replicate (length cells) 0);
   b ← index st.1 0%nat; try b) = Ret (augmented root).
Proof using CL.
  intros Ht Hd Hn Hr Hlt cells bodies Hend.
  pose proof (written_refs_forward root Ht Hn) as Hfw. pose proof (cell_order_ok root Ht Hn) as Hok.
  unfold bodies in *.
  rewrite (parse_cells_spec ref_size (written_refs root) cells hdr post body_end Hr); [|clear Hend|done].
  - cbn [mbind res_bind].
    destruct (build_cells_spec cells (written_refs root) Hfw) with (n := length cells)
      (st := (replicate (length cells) (None : option Cell), replicate (length cells) 0)) as (st & E & Hb).
    + apply Forall_forall. intros c Hc. destruct (Hok c Hc). lia.
    + done.
    + split; [apply length_replicate|]. split; [apply length_replicate|].
      intros j x Hj Hx. apply lookup_lt_Some in Hx. lia.
    + rewrite E. cbn [mbind res_bind]. destruct Hb as (_ & _ & Hb).
      destruct (Hb 0%nat root ltac:(lia) (cell_order_root root (subcells_hash_inj root Ht Hn))) as [B _].
      unfold index. by rewrite B.
  - apply Forall_forall. intros c Hc. destruct (Hok c Hc) as [Htc _].
    destruct (Tree_ok_limits c Htc) as (H1 & H2 & H3).
    split; [done|]. split; [done|]. split; [done|]. split; [apply length_fmap|].
    apply Forall_forall. intros v Hv. apply list_elem_of_lookup_1 in Hc as [i Hi].
    apply list_elem_of_lookup_1 in Hv as [k Hk].
    destruct (Forall2_lookup_l _ _ _ _ _ (Hfw i c Hi) Hk) as (r & _ & Hgt & Hr').
    apply lookup_lt_Some in Hr'. lia.
Qed.

(** C10: the encoder and the parser agree: any tree of ordinary cells, at most 1024 deep
    and with at most 2^16 distinct cells, parses back from its bag of cells (unless
    sha256 collides on two of its cells).  The parsed tree keeps the augmentation bit
    in the data of unaligned cells ([augmented]); bit for bit within each cell's
    length, and by representation hash, it is the original. *)
Theorem boc_roundtrip (root : Cell) :
  Tree_ok root -> depth root <= MAX_CELL_DEPTH ->
  Z.of_nat (length (topological_order root).1) <= MAX_BOC_CELLS ->
  NoCollision sha256 (cell_queries root) ->
  from_boc (to_boc root) = Ret (augmented root)
  /\ (forall c, c ∈ subcells root -> cell_bits (augmented c) = cell_bits c)
  /\ repr_hash (augmented root) = repr_hash root.
Proof using CL.
  intros Ht Hd Hc Hn. split; [|split; [|apply repr_hash_augmented]].
  2: { intros c Hs. apply cell_bits_augmented. by destruct (subcells_tree_ok _ _ Ht Hs). }
  pose proof (cell_order_root root (subcells_hash_inj root Ht Hn)) as H0. apply lookup_lt_Some in H0.
  unfold to_boc. rewrite (surjective_pairing (topological_order root)). fold (cell_order root) in *.
  set (n := length (cell_order root)) in *.
  assert (0 <= Z.of_nat n < 256 ^ Z.of_nat 3) as Hn3 by (unfold MAX_BOC_CELLS in Hc; lia).
  pose proof (bytes_for_small _ _ Hn3) as Hs. pose proof (bytes_for_bound (Z.of_nat n) ltac:(lia)) as Hb.
  set (ref_size := Nat.max (bytes_for (Z.of_nat n)) 1) in *.
  assert (Z.of_nat n < 256 ^ Z.of_nat ref_size) as Hb'.
  { apply Z.lt_le_trans with (1 := Hb), Z.pow_le_mono_r; lia. }
  set (tot := sum_list _). pose proof (bytes_for_le (Z.of_nat tot)) as Ho.
  set (off := Nat.max (bytes_for (Z.of_nat tot)) 1) in *.
  rewrite !boc_be_bytes by lia. pose proof (to_boc_body root ref_size ltac:(lia)) as Eb.
  fold (cell_order root) in Eb. rewrite !Eb. set (bodies := mjoin (body_of _ _ <$> _)).
  pose proof (from_boc_header ref_size off n (be_bytes ref_size 1) (be_bytes ref_size 0) (be_bytes off (Z.of_nat tot)) bodies
    ltac:(lia) ltac:(lia) ltac:(lia) Hc Hb' (length_be_bytes _ _) (length_be_bytes _ _) (length_be_bytes _ _)) as H.
  cbv zeta in H. set (hdr := MAGIC ++ _) in H. set (out := MAGIC ++ _).
  assert (out = hdr ++ bodies) as -> by (unfold out, hdr; by rewrite <- !app_assoc).
  rewrite H, <- (app_assoc hdr). apply body_roundtrip; [done..|lia|done|]. fold bodies. rewrite length_app. lia.
Qed.
End roundtrip.

Lemma boc_roundtrip_witness :
  from_boc (to_boc (C := toy_crypto) boc_example) = Ret (augmented boc_example)
  /\ (forall c, c ∈ subcells boc_example -> cell_bits (augmented c) = cell_bits c)
  /\ repr_hash (C := toy_crypto) (augmented boc_example) = repr_hash (C := toy_crypto) boc_example.
Proof.
  apply (boc_roundtrip (C := toy_crypto) (CL := toy_laws) boc_example).
  - pose (shared := foldl store_field empty_builder [FUint 43981 16]).
    assert (Tree_ok shared) as Hs by (apply built_tree_ok; [decide_closed..|constructor]).
    assert (Tree_ok (foldl store_field empty_builder [FUint 5 3; FRef shared])) as Hc.
    { apply built_tree_ok; [decide_closed..|]. by apply Forall_cons_2. }
    apply (built_tree_ok [FCoins 123456; FAddress (mkWallet 0 (replicate 32 Byte.x09));
      FRef (foldl store_field empty_builder [FUint 5 3; FRef shared]); FRef shared]); [decide_closed..|].
    by repeat apply Forall_cons_2.
  - decide_closed.
  - decide_closed.
  - decide_closed.
Defined.

(** A bag whose only cell claims an unaligned length (odd [d2]) but carries no
    augmentation bit is accepted, as a cell of 0 bits with one byte of data. *)
Definition unterminated_boc : bytes :=
  MAGIC ++ (byte_of_Z <$> [1; 1; 1; 1; 0; 3; 0; 0; 1; 0]).

Lemma from_boc_accepts_unterminated : from_boc unterminated_boc = Ret (mkCell [Byte.x00] 0 []).
Proof. vm_compute. reflexivity. Qed.
