(* ===== verification/TonAbi.v ===== *)
(** * TON message bodies and contract data (crates/settlement/src/ton.rs, the ABI part)

    The typed bodies the bridge sends to the stake vault, the job escrow, the record
    anchor and the parameter contract, each built twice in lockstep (a flat byte
    form and the TL-B cell), the candidate-set and payout dictionaries, the Merkle
    proof chain of a dispute, the parameter set with its validation, and the init
    data cells that determine contract addresses. *)

From S2P Require Import Prelude Bytes Crypto Merkle Settlement Cell Dict.

(** ** Opcodes *)

Definition OP_STAKE_DEPOSIT : Z := 0x534b4b01.
Definition OP_STAKE_UNBOND : Z := 0x534b4b02.
Definition OP_STAKE_WITHDRAW : Z := 0x534b4b03.
Definition OP_STAKE_SLASH : Z := 0x534b4b05.
Definition OP_STAKE_ANNOUNCE_UPGRADE : Z := 0x534b4b07.
Definition OP_STAKE_APPLY_UPGRADE : Z := 0x534b4b08.
Definition OP_STAKE_CANCEL_UPGRADE : Z := 0x534b4b09.
Definition OP_STAKE_CLAIM : Z := 0x534b4b0a.
Definition OP_ESCROW_TOPUP : Z := 0x45534300.
Definition OP_ESCROW_SETTLE : Z := 0x45534302.
Definition OP_ESCROW_REFUND : Z := 0x45534303.
Definition OP_ESCROW_CLAIM : Z := 0x45534304.
Definition OP_ANCHOR_SUBMIT : Z := 0x414e4301.
Definition OP_ANCHOR_OPEN_DISPUTE : Z := 0x414e4302.
Definition OP_ANCHOR_UPGRADE_CODE : Z := 0x414e4304.
Definition OP_UPDATE_PARAMS : Z := 0x47504101.
Definition OP_UPDATE_ADMIN : Z := 0x47504102.
Definition OP_UPGRADE_CODE : Z := 0x47504104.
Definition OP_ANNOUNCE_CODE : Z := 0x47504105.
Definition OP_CANCEL_CODE : Z := 0x47504106.

(** ** Message bodies *)

Record MessageBody := mkBody { opcode : Z; flat : bytes; body_cell : Cell; cb : Cell }.

Definition new_body (op : Z) : MessageBody :=
  mkBody op (be_bytes 4 op) empty_builder (store_uint empty_builder op 32).
Definition b_u64 (b : MessageBody) (v : Z) : MessageBody :=
  mkBody (opcode b) (flat b ++ be_bytes 8 v) (body_cell b) (store_uint (cb b) v 64).
Definition b_u32 (b : MessageBody) (v : Z) : MessageBody :=
  mkBody (opcode b) (flat b ++ be_bytes 4 v) (body_cell b) (store_uint (cb b) v 32).
Definition b_coins (b : MessageBody) (v : Amount) : MessageBody :=
  mkBody (opcode b) (flat b ++ be_bytes 16 v) (body_cell b) (store_coins (cb b) v).
Definition b_addr (b : MessageBody) (a : WalletAddress) : MessageBody :=
  mkBody (opcode b) (flat b ++ to_raw_bytes a) (body_cell b) (store_address (cb b) a).
Definition b_hash (b : MessageBody) (h : Hash32) : MessageBody :=
  mkBody (opcode b) (flat b ++ h) (body_cell b) (store_u256 (cb b) h).
Definition b_byte (b : MessageBody) (v : Z) : MessageBody :=
  mkBody (opcode b) (flat b ++ [byte_of_Z v]) (body_cell b) (store_uint (cb b) v 8).
Definition b_cell_ref (b : MessageBody) (c : Cell) : MessageBody :=
  mkBody (opcode b) (flat b) (body_cell b) (store_ref (cb b) c).
Definition b_maybe_ref (b : MessageBody) (c : option Cell) : MessageBody :=
  mkBody (opcode b) (flat b) (body_cell b) (store_maybe_ref (cb b) c).
(** Panics ([None]) when two entries have the same key. *)
Definition b_dict (b : MessageBody) (key_bits : nat) (entries : list DictEntry) : option MessageBody :=
  c ← store_dict (cb b) key_bits entries;
  Some (mkBody (opcode b) (flat b) (body_cell b) c).
Definition finish (b : MessageBody) : MessageBody := mkBody (opcode b) (flat b) (cb b) (cb b).

Definition build_stake_deposit (query_id : Z) (a : Amount) : MessageBody :=
  finish (b_coins (b_u64 (new_body OP_STAKE_DEPOSIT) query_id) a).

Definition build_stake_slash (query_id : Z) (a : Amount) (reason : SlashReason) (challenger : WalletAddress)
  : MessageBody :=
  finish (b_addr (b_byte (b_coins (b_u64 (new_body OP_STAKE_SLASH) query_id) a) (code reason)) challenger).

Definition build_stake_unbond (query_id : Z) (a : Amount) : MessageBody :=
  finish (b_coins (b_u64 (new_body OP_STAKE_UNBOND) query_id) a).

Definition build_escrow_refund (query_id : Z) : MessageBody :=
  finish (b_u64 (new_body OP_ESCROW_REFUND) query_id).
Definition build_escrow_claim (query_id : Z) (recipient : WalletAddress) : MessageBody :=
  finish (b_addr (b_u64 (new_body OP_ESCROW_CLAIM) query_id) recipient).
Definition build_escrow_topup (query_id : Z) : MessageBody :=
  finish (b_u64 (new_body OP_ESCROW_TOPUP) query_id).

Definition build_anchor_submit (query_id epoch : Z) (root prev_root : Hash32) (stake_weight : Amount) : MessageBody :=
  finish (b_coins (b_hash (b_hash (b_u32 (b_u64 (new_body OP_ANCHOR_SUBMIT) query_id) epoch) root) prev_root)
    stake_weight).

Definition build_update_admin (query_id : Z) (new_admin : WalletAddress) : MessageBody :=
  finish (b_addr (b_u64 (new_body OP_UPDATE_ADMIN) query_id) new_admin).
Definition build_upgrade_code (query_id : Z) (new_code : Cell) : MessageBody :=
  finish (b_cell_ref (b_u64 (new_body OP_UPGRADE_CODE) query_id) new_code).
Definition build_announce_code (query_id : Z) (new_code_hash : Hash32) : MessageBody :=
  finish (b_hash (b_u64 (new_body OP_ANNOUNCE_CODE) query_id) new_code_hash).
Definition build_cancel_code (query_id : Z) : MessageBody :=
  finish (b_u64 (new_body OP_CANCEL_CODE) query_id).
Definition build_anchor_upgrade_code (query_id : Z) (new_code : Cell) : MessageBody :=
  finish (b_cell_ref (b_u64 (new_body OP_ANCHOR_UPGRADE_CODE) query_id) new_code).
Definition build_stake_announce_upgrade (query_id : Z) (new_code_hash : Hash32) : MessageBody :=
  finish (b_hash (b_u64 (new_body OP_STAKE_ANNOUNCE_UPGRADE) query_id) new_code_hash).
Definition build_stake_apply_upgrade (query_id : Z) (new_code : Cell) : MessageBody :=
  finish (b_cell_ref (b_u64 (new_body OP_STAKE_APPLY_UPGRADE) query_id) new_code).
Definition build_stake_cancel_upgrade (query_id : Z) : MessageBody :=
  finish (b_u64 (new_body OP_STAKE_CANCEL_UPGRADE) query_id).
Definition build_stake_claim (query_id : Z) (recipient : WalletAddress) : MessageBody :=
  finish (b_addr (b_u64 (new_body OP_STAKE_CLAIM) query_id) recipient).

(** ** Dictionaries of payees *)

(** The loop that keeps the first occurrence of each address. *)
Definition dedup_wallets (ws : list WalletAddress) : list WalletAddress :=
  foldl (fun seen c => if bool_decide (c ∈ seen) then seen else seen ++ [c]) [] ws.

Definition candidates_dict_entries (candidates : list WalletAddress) : list DictEntry :=
  (fun a => mkEntry (address_key_bits a) (store_uint empty_builder 1 1)) <$> dedup_wallets candidates.

(** [merged.iter_mut().find(..)]: add to the wallet's entry, or append one. *)
Fixpoint merge_payout (merged : list (WalletAddress * Amount)) (w : WalletAddress) (a : Amount)
  : list (WalletAddress * Amount) :=
  match merged with
  | [] => [(w, a)]
  | (w', a') :: rest => if bool_decide (w' = w) then (w', sat_add 128 a' a) :: rest
                        else (w', a') :: merge_payout rest w a
  end.

Definition merge_payouts (ps : list Payout) : list (WalletAddress * Amount) :=
  foldl (fun merged p => if amount p =? 0 then merged else merge_payout merged (to p) (amount p)) [] ps.

Definition participants_dict_entries (ps : list Payout) : list DictEntry :=
  (fun wa => mkEntry (address_key_bits wa.1) (store_coins empty_builder wa.2)) <$> merge_payouts ps.

Definition build_escrow_settle (query_id : Z) (result_hash : Hash32) (winner : WalletAddress)
    (base winner_amount platform_fee : Amount) (participants : list Payout) (candidates : list WalletAddress)
  : option MessageBody :=
  let b := b_coins (b_coins (b_coins (b_addr (b_hash (b_u64 (new_body OP_ESCROW_SETTLE) query_id) result_hash)
             winner) base) winner_amount) platform_fee in
  b ← b_dict b ADDRESS_KEY_BITS (participants_dict_entries participants);
  b ← b_dict b ADDRESS_KEY_BITS (candidates_dict_entries candidates);
  Some (finish b).

(** ** Disputes *)

Definition build_merkle_proof_cell (proof : InclusionProof) : option Cell :=
  foldl (fun next s => Some (store_maybe_ref (store_u256 (store_uint empty_builder (if s.1 : bool then 1 else 0) 1) s.2) next))
    None (rev (siblings proof)).

Definition build_anchor_open_dispute (query_id epoch : Z) (lf : Hash32) (proof : InclusionProof) : MessageBody :=
  finish (b_maybe_ref (b_hash (b_u32 (b_u64 (new_body OP_ANCHOR_OPEN_DISPUTE) query_id) epoch) lf)
    (build_merkle_proof_cell proof)).

(** ** Platform parameters *)

Record GlobalParams := mkParams {
  platform_fee_bps : Z; surcharge_bps : Z; participation_commission_bps : Z;
  slash_wrong_bps : Z; slash_cheat_bps : Z; slash_downtime_bps : Z; slash_equivocation_bps : Z;
  split_challenger_bps : Z; split_redundancy_bps : Z; split_burn_bps : Z; split_treasury_bps : Z;
  min_stake : Amount; min_stake_internal : Amount; min_stake_sensitive : Amount; stake_cap : Amount;
  unbonding_secs : Z; challenge_window_secs : Z;
  n_public : Z; n_default : Z; n_max : Z; quorum : Z; checksum_min : Z;
  w_quality_bps : Z; w_stake_bps : Z; w_price_bps : Z;
  slash_failed_commitment_bps : Z;
  attempt_deadline_ms : Z; progress_interval_ms : Z; progress_stall_mult : Z;
}.

(** The reasons [validate] gives, in the order it checks them. *)
Inductive params_error :=
| SplitSum (got : Z) | CommissionTooHigh | StakeOrder | CapBelowMin | UnbondingTooShort
| ReplicaOrder | QuorumRange | FailedCommitmentRange | ProgressInterval | StallMult.

Definition validate_params (p : GlobalParams) : result unit params_error :=
  let split := split_challenger_bps p + split_redundancy_bps p + split_burn_bps p + split_treasury_bps p in
  if negb (split =? 10000) then Err (SplitSum split)
  else if 1000 <? participation_commission_bps p then Err CommissionTooHigh
  else if negb ((min_stake_internal p <=? min_stake_sensitive p) && (min_stake p <=? min_stake_internal p)) then Err StakeOrder
  else if stake_cap p <? min_stake p then Err CapBelowMin
  else if unbonding_secs p <? challenge_window_secs p then Err UnbondingTooShort
  else if (checksum_min p <? 1) || (n_public p <? checksum_min p) || (n_default p <? n_public p) || (n_max p <? n_default p)
       then Err ReplicaOrder
  else if (quorum p <? 1) || (n_default p <? quorum p) then Err QuorumRange
  else if 10000 <? slash_failed_commitment_bps p then Err FailedCommitmentRange
  else if progress_interval_ms p <? 1 then Err ProgressInterval
  else if progress_stall_mult p <? 1 then Err StallMult
  else Ok tt.

(** [validateEcoParams] of the contract (ton/contracts/global_params_types.tolk): every
    assertion of it throws the same error. *)
Definition MAX_BPS : Z := 10000.
Definition validateEcoParams (p : GlobalParams) : bool :=
  (platform_fee_bps p <=? MAX_BPS) && (surcharge_bps p <=? MAX_BPS)
  && (slash_wrong_bps p <=? MAX_BPS) && (slash_cheat_bps p <=? MAX_BPS)
  && (slash_downtime_bps p <=? MAX_BPS) && (slash_equivocation_bps p <=? MAX_BPS)
  && (w_quality_bps p <=? MAX_BPS) && (w_stake_bps p <=? MAX_BPS) && (w_price_bps p <=? MAX_BPS)
  && (slash_failed_commitment_bps p <=? MAX_BPS)
  && (participation_commission_bps p <=? 1000)
  && (1 <=? progress_interval_ms p) && (1 <=? progress_stall_mult p)
  && (split_challenger_bps p + split_redundancy_bps p + split_burn_bps p + split_treasury_bps p =? MAX_BPS)
  && (min_stake_internal p <=? min_stake_sensitive p) && (min_stake p <=? min_stake_internal p)
  && (min_stake p <=? stake_cap p)
  && (challenge_window_secs p <=? unbonding_secs p)
  && (1 <=? checksum_min p) && (checksum_min p <=? n_public p) && (n_public p <=? n_default p) && (n_default p <=? n_max p)
  && (1 <=? quorum p) && (quorum p <=? n_default p).

(** What the contract accepts passes the check before sending; the converse needs six
    rates and three weights within 10000, which [GlobalParams::validate] does not look at. *)
Lemma contract_stricter p :
  validateEcoParams p = true <->
  validate_params p = Ok tt
  /\ Forall (fun v => v <= MAX_BPS) [platform_fee_bps p; surcharge_bps p; slash_wrong_bps p; slash_cheat_bps p;
       slash_downtime_bps p; slash_equivocation_bps p; w_quality_bps p; w_stake_bps p; w_price_bps p].
Proof.
  unfold validateEcoParams, validate_params, MAX_BPS. rewrite !andb_true_iff, !Z.leb_le, Z.eqb_eq, !Forall_cons, Forall_nil.
  set (split := _ + split_treasury_bps p). split.
  - intros H. destruct_and!. split; [|by split_and!]. rewrite (proj2 (Z.eqb_eq split 10000)) by done. cbn [negb].
    rewrite !(proj2 (Z.ltb_ge _ _)) by lia. rewrite !(proj2 (Z.leb_le _ _)) by lia. done.
  - intros [H Hr]. destruct (Z.eqb_spec split 10000); [|done]. cbn [negb] in H.
    repeat match type of H with
           | context [?a <? ?b] => destruct (Z.ltb_spec a b); cbn [orb andb negb] in H; [discriminate H|]
           | context [?a <=? ?b] => destruct (Z.leb_spec a b); cbn [orb andb negb] in H; [|discriminate H]
           end.
    destruct_and!. split_and!; lia.
Qed.

(** The four field macros of [eco_params_encoded], on the flat bytes and the cell. *)
Definition u16f (st : bytes * Cell) (v : Z) : bytes * Cell := (st.1 ++ be_bytes 2 v, store_uint st.2 v 16).
Definition coinsf (st : bytes * Cell) (v : Z) : bytes * Cell := (st.1 ++ be_bytes 16 v, store_coins st.2 v).
Definition u32f (st : bytes * Cell) (v : Z) : bytes * Cell := (st.1 ++ be_bytes 4 v, store_uint st.2 v 32).
Definition bytef (st : bytes * Cell) (v : Z) : bytes * Cell := (st.1 ++ [byte_of_Z v], store_uint st.2 v 8).

Definition eco_params_encoded (p : GlobalParams) : bytes * Cell :=
  let st := ([], empty_builder) in
  let st := foldl u16f st [platform_fee_bps p; surcharge_bps p; participation_commission_bps p;
    slash_wrong_bps p; slash_cheat_bps p; slash_downtime_bps p; slash_equivocation_bps p;
    split_challenger_bps p; split_redundancy_bps p; split_burn_bps p; split_treasury_bps p] in
  let st := foldl coinsf st [min_stake p; min_stake_internal p; min_stake_sensitive p; stake_cap p] in
  let st := foldl u32f st [unbonding_secs p; challenge_window_secs p] in
  let st := foldl bytef st [n_public p; n_default p; n_max p; quorum p; checksum_min p] in
  let st := foldl u16f st [w_quality_bps p; w_stake_bps p; w_price_bps p] in
  let st := u16f st (slash_failed_commitment_bps p) in
  let st := foldl u32f st [attempt_deadline_ms p; progress_interval_ms p] in
  bytef st (progress_stall_mult p).

(** [b.flat.extend_from_slice(..)]. *)
Definition b_flat (b : MessageBody) (fl : bytes) : MessageBody :=
  mkBody (opcode b) (flat b ++ fl) (body_cell b) (cb b).

Definition build_update_params (query_id : Z) (fee_recipient : WalletAddress) (p : GlobalParams) : MessageBody :=
  let (fl, eco) := eco_params_encoded p in
  finish (b_cell_ref (b_flat (b_addr (b_u64 (new_body OP_UPDATE_PARAMS) query_id) fee_recipient) fl) eco).

(** ** Contract init data *)

Record VaultInit := mkVaultInit { owner : WalletAddress; binding_hash : Hash32 }.

(** An empty dictionary is a single 0 bit. *)
Definition store_empty_dict (c : Cell) : Cell := store_uint c 0 1.

Definition build_vault_data (init : VaultInit) (config : Cell) : Cell :=
  let upgrade := store_uint (store_u256 (store_uint empty_builder 0 32) (le_bytes 32 0)) 0 32 in
  let c := store_address empty_builder (owner init) in
  let c := store_uint (store_coins (store_coins c 0) 0) 0 32 in
  let c := store_u256 (store_coins c 0) (binding_hash init) in
  store_empty_dict (store_ref (store_ref c config) upgrade).

Record SlashSplitConfig := mkSplit {
  sp_treasury : WalletAddress; sp_redundancy_pool : WalletAddress;
  sp_challenger_bps : Z; sp_redundancy_bps : Z; sp_burn_bps : Z; sp_treasury_bps : Z;
}.

Record VaultConfigParams := mkVaultConfig {
  vc_min_stake : Amount; vc_unbonding_period : Z; vc_challenge_window : Z; vc_keeper_grace : Z;
  vc_keeper_bounty_bps : Z; vc_slasher : WalletAddress; vc_upgrade_authority : WalletAddress;
  vc_receipt_wallet_code : Cell; vc_slash : SlashSplitConfig;
}.

Definition build_slash_config (s : SlashSplitConfig) : Cell :=
  let c := store_address (store_address empty_builder (sp_treasury s)) (sp_redundancy_pool s) in
  let c := store_uint (store_uint c (sp_challenger_bps s) 16) (sp_redundancy_bps s) 16 in
  store_uint (store_uint c (sp_burn_bps s) 16) (sp_treasury_bps s) 16.

Definition build_vault_config (c : VaultConfigParams) : Cell :=
  let b := store_coins empty_builder (vc_min_stake c) in
  let b := store_uint (store_uint (store_uint b (vc_unbonding_period c) 32) (vc_challenge_window c) 32) (vc_keeper_grace c) 32 in
  let b := store_uint b (vc_keeper_bounty_bps c) 16 in
  let b := store_address (store_address b (vc_slasher c)) (vc_upgrade_authority c) in
  store_ref (store_ref b (vc_receipt_wallet_code c)) (build_slash_config (vc_slash c)).

Record EscrowInit := mkEscrowInit { requester : WalletAddress; arbiter : WalletAddress; escrow_amount : Amount; deadline : Z }.

Definition build_escrow_terms (treasury : WalletAddress) (expected_hash candidates_hash : Hash32)
    (params_version fee_bps comm_bps : Z) : Cell :=
  let c := store_u256 (store_u256 (store_address empty_builder treasury) expected_hash) candidates_hash in
  store_uint (store_uint (store_uint c params_version 32) fee_bps 16) comm_bps 16.

Definition build_escrow_data (init : EscrowInit) (terms : Cell) : Cell :=
  let c := store_address (store_address empty_builder (requester init)) (arbiter init) in
  let c := store_uint (store_uint (store_coins c (escrow_amount init)) (deadline init) 32) 0 1 in
  store_empty_dict (store_ref c terms).

Section commitment.
Context {C : Crypto}.

Definition candidates_commitment (candidates : list WalletAddress) : option Hash32 :=
  repr_hash <$> store_dict empty_builder ADDRESS_KEY_BITS (candidates_dict_entries candidates).
End commitment.

(** ** Bodies as sequences of typed fields *)

(** The requests whose bodies hold only integers, coins, addresses, hashes and
    references (settlements and disputes also hold dictionaries and optional
    references; they are treated below). *)
Inductive Request :=
| StakeDeposit (q : Z) (a : Amount)
| StakeSlash (q : Z) (a : Amount) (r : SlashReason) (challenger : WalletAddress)
| StakeUnbond (q : Z) (a : Amount)
| EscrowRefund (q : Z)
| EscrowClaim (q : Z) (w : WalletAddress)
| EscrowTopUp (q : Z)
| AnchorSubmit (q epoch : Z) (root prev : Hash32) (weight : Amount)
| UpdateParams (q : Z) (w : WalletAddress) (p : GlobalParams)
| UpdateAdmin (q : Z) (w : WalletAddress)
| UpgradeCode (q : Z) (c : Cell)
| AnnounceCode (q : Z) (h : Hash32)
| CancelCode (q : Z)
| AnchorUpgradeCode (q : Z) (c : Cell)
| StakeAnnounceUpgrade (q : Z) (h : Hash32)
| StakeApplyUpgrade (q : Z) (c : Cell)
| StakeCancelUpgrade (q : Z)
| StakeClaim (q : Z) (w : WalletAddress).

Definition build (r : Request) : MessageBody :=
  match r with
  | StakeDeposit q a => build_stake_deposit q a
  | StakeSlash q a r w => build_stake_slash q a r w
  | StakeUnbond q a => build_stake_unbond q a
  | EscrowRefund q => build_escrow_refund q
  | EscrowClaim q w => build_escrow_claim q w
  | EscrowTopUp q => build_escrow_topup q
  | AnchorSubmit q e rt pr w => build_anchor_submit q e rt pr w
  | UpdateParams q w p => build_update_params q w p
  | UpdateAdmin q w => build_update_admin q w
  | UpgradeCode q c => build_upgrade_code q c
  | AnnounceCode q h => build_announce_code q h
  | CancelCode q => build_cancel_code q
  | AnchorUpgradeCode q c => build_anchor_upgrade_code q c
  | StakeAnnounceUpgrade q h => build_stake_announce_upgrade q h
  | StakeApplyUpgrade q c => build_stake_apply_upgrade q c
  | StakeCancelUpgrade q => build_stake_cancel_upgrade q
  | StakeClaim q w => build_stake_claim q w
  end.

Definition request_op (r : Request) : Z :=
  match r with
  | StakeDeposit _ _ => OP_STAKE_DEPOSIT | StakeSlash _ _ _ _ => OP_STAKE_SLASH
  | StakeUnbond _ _ => OP_STAKE_UNBOND | EscrowRefund _ => OP_ESCROW_REFUND
  | EscrowClaim _ _ => OP_ESCROW_CLAIM | EscrowTopUp _ => OP_ESCROW_TOPUP
  | AnchorSubmit _ _ _ _ _ => OP_ANCHOR_SUBMIT | UpdateParams _ _ _ => OP_UPDATE_PARAMS
  | UpdateAdmin _ _ => OP_UPDATE_ADMIN | UpgradeCode _ _ => OP_UPGRADE_CODE
  | AnnounceCode _ _ => OP_ANNOUNCE_CODE | CancelCode _ => OP_CANCEL_CODE
  | AnchorUpgradeCode _ _ => OP_ANCHOR_UPGRADE_CODE | StakeAnnounceUpgrade _ _ => OP_STAKE_ANNOUNCE_UPGRADE
  | StakeApplyUpgrade _ _ => OP_STAKE_APPLY_UPGRADE | StakeCancelUpgrade _ => OP_STAKE_CANCEL_UPGRADE
  | StakeClaim _ _ => OP_STAKE_CLAIM
  end.

Definition params_fields (p : GlobalParams) : list Field :=
  ((fun v => FUint v 16) <$> [platform_fee_bps p; surcharge_bps p; participation_commission_bps p;
    slash_wrong_bps p; slash_cheat_bps p; slash_downtime_bps p; slash_equivocation_bps p;
    split_challenger_bps p; split_redundancy_bps p; split_burn_bps p; split_treasury_bps p])
  ++ (FCoins <$> [min_stake p; min_stake_internal p; min_stake_sensitive p; stake_cap p])
  ++ ((fun v => FUint v 32) <$> [unbonding_secs p; challenge_window_secs p])
  ++ ((fun v => FUint v 8) <$> [n_public p; n_default p; n_max p; quorum p; checksum_min p])
  ++ ((fun v => FUint v 16) <$> [w_quality_bps p; w_stake_bps p; w_price_bps p; slash_failed_commitment_bps p])
  ++ ((fun v => FUint v 32) <$> [attempt_deadline_ms p; progress_interval_ms p])
  ++ [FUint (progress_stall_mult p) 8].

Definition eco_cell (p : GlobalParams) : Cell := (eco_params_encoded p).2.

Definition request_args (r : Request) : list Field :=
  match r with
  | StakeDeposit q a | StakeUnbond q a => [FUint q 64; FCoins a]
  | StakeSlash q a r w => [FUint q 64; FCoins a; FUint (code r) 8; FAddress w]
  | EscrowRefund q | EscrowTopUp q | CancelCode q | StakeCancelUpgrade q => [FUint q 64]
  | EscrowClaim q w | UpdateAdmin q w | StakeClaim q w => [FUint q 64; FAddress w]
  | AnchorSubmit q e rt pr w => [FUint q 64; FUint e 32; FU256 rt; FU256 pr; FCoins w]
  | UpdateParams q w p => [FUint q 64; FAddress w; FRef (eco_cell p)]
  | UpgradeCode q c | AnchorUpgradeCode q c | StakeApplyUpgrade q c => [FUint q 64; FRef c]
  | AnnounceCode q h | StakeAnnounceUpgrade q h => [FUint q 64; FU256 h]
  end.

Definition request_fields (r : Request) : list Field := FUint (request_op r) 32 :: request_args r.

(** Arguments within the widths of the Rust types (coins below 2^120, workchains of 8 bits). *)
Definition Params_wf (p : GlobalParams) : Prop := Forall Field_wf (params_fields p).
Definition Request_wf (r : Request) : Prop :=
  Forall Field_wf (request_args r) /\ match r with UpdateParams _ _ p => Params_wf p | _ => True end.
#[global] Instance Params_wf_dec p : Decision (Params_wf p).
Proof. unfold Params_wf. apply _. Defined.
#[global] Instance Request_wf_dec r : Decision (Request_wf r).
Proof. unfold Request_wf. destruct r; apply _. Defined.

(** What each writer does to the cell under construction; the flat form plays no part in it. *)
Lemma cb_new op : cb (new_body op) = store_field empty_builder (FUint op 32).
Proof. reflexivity. Qed.
Lemma cb_u64 b v : cb (b_u64 b v) = store_field (cb b) (FUint v 64).
Proof. reflexivity. Qed.
Lemma cb_u32 b v : cb (b_u32 b v) = store_field (cb b) (FUint v 32).
Proof. reflexivity. Qed.
Lemma cb_byte b v : cb (b_byte b v) = store_field (cb b) (FUint v 8).
Proof. reflexivity. Qed.
Lemma cb_coins b v : cb (b_coins b v) = store_field (cb b) (FCoins v).
Proof. reflexivity. Qed.
Lemma cb_addr b v : cb (b_addr b v) = store_field (cb b) (FAddress v).
Proof. reflexivity. Qed.
Lemma cb_hash b v : cb (b_hash b v) = store_field (cb b) (FU256 v).
Proof. reflexivity. Qed.
Lemma cb_ref b v : cb (b_cell_ref b v) = store_field (cb b) (FRef v).
Proof. reflexivity. Qed.
Lemma cb_flat b v : cb (b_flat b v) = cb b.
Proof. reflexivity. Qed.
Lemma cb_finish b : body_cell (finish b) = cb b.
Proof. reflexivity. Qed.

Create Rewrite HintDb message_cells.
#[export] Hint Rewrite cb_finish cb_flat cb_ref cb_hash cb_addr cb_coins cb_byte cb_u32 cb_u64 cb_new : message_cells.

Lemma build_update_params_cell q w p :
  build_update_params q w p
  = finish (b_cell_ref (b_flat (b_addr (b_u64 (new_body OP_UPDATE_PARAMS) q) w) (eco_params_encoded p).1) (eco_cell p)).
Proof. unfold build_update_params, eco_cell. generalize (eco_params_encoded p). by intros [fl eco]. Qed.

Lemma build_fields r : body_cell (build r) = foldl store_field empty_builder (request_fields r).
Proof.
  destruct r; cbn [build]; rewrite ?build_update_params_cell;
    unfold build_stake_deposit, build_stake_slash, build_stake_unbond, build_escrow_refund, build_escrow_claim,
      build_escrow_topup, build_anchor_submit, build_update_admin, build_upgrade_code, build_announce_code,
      build_cancel_code, build_anchor_upgrade_code, build_stake_announce_upgrade, build_stake_apply_upgrade,
      build_stake_cancel_upgrade, build_stake_claim;
    autorewrite with message_cells; unfold request_fields; cbn [foldl request_args request_op]; reflexivity.
Qed.

Lemma macro_cell (f : bytes * Cell -> Z -> bytes * Cell) (g : Z -> Field) l st :
  (forall st v, (f st v).2 = store_field st.2 (g v)) ->
  (foldl f st l).2 = foldl store_field st.2 (g <$> l).
Proof.
  intros H. revert st. induction l as [|v l IH]; intros st; [done|]. rewrite fmap_cons. cbn [foldl].
  by rewrite IH, H.
Qed.

Lemma eco_cell_fields p : eco_cell p = foldl store_field empty_builder (params_fields p).
Proof.
  unfold eco_cell, eco_params_encoded, params_fields. rewrite !foldl_app. cbn [bytef snd].
  rewrite (macro_cell u32f (fun v => FUint v 32)) by done. cbn [u16f snd].
  rewrite (macro_cell u16f (fun v => FUint v 16)) by done.
  rewrite (macro_cell bytef (fun v => FUint v 8)) by done.
  rewrite (macro_cell u32f (fun v => FUint v 32)) by done.
  rewrite (macro_cell coinsf FCoins) by done.
  rewrite (macro_cell u16f (fun v => FUint v 16)) by done. reflexivity.
Qed.

Lemma request_op_range r : in_u 32 (request_op r).
Proof. destruct r; decide_closed. Qed.

Lemma request_fields_wf r : Request_wf r -> Forall Field_wf (request_fields r).
Proof. intros [H _]. constructor; [|done]. split; [apply request_op_range|lia]. Qed.

(** What is stored into a fresh cell is read back in full, whatever follows it. *)
Lemma load_built fs c k kr :
  Forall Field_wf fs -> cell_bits c = mjoin (field_bits <$> fs) ++ k -> refs c = mjoin (field_refs <$> fs) ++ kr ->
  exists p', load_all fs (parser c) = (Some fs, p') /\ rest p' = k /\ p_cell p' = c
    /\ drop (p_next_ref p') (refs c) = kr.
Proof.
  intros Hf Hb Hr. apply (load_all_spec fs (parser c)); [done| | |].
  - unfold parser_ok, parser. cbn [p_bit]. lia.
  - unfold rest, parser. cbn [p_bit p_cell]. by rewrite drop_0.
  - cbn [p_next_ref parser p_cell]. by rewrite drop_0.
Qed.

Lemma load_fresh fs :
  Forall Field_wf fs ->
  exists p', load_all fs (parser (foldl store_field empty_builder fs)) = (Some fs, p')
    /\ remaining_bits p' = 0%nat /\ remaining_refs p' = 0%nat.
Proof.
  intros Hf. destruct (store_all_spec fs empty_builder empty_builder_ok) as (_ & H2 & H3).
  destruct (load_built fs (foldl store_field empty_builder fs) [] []) as (p' & E & Hr & Hc & Hd);
    [done|by rewrite app_nil_r|by rewrite app_nil_r|].
  exists p'. split; [done|]. unfold remaining_bits, remaining_refs. rewrite <- rest_length, Hr. split; [done|].
  rewrite Hc. apply (f_equal length) in Hd. by rewrite length_drop in Hd.
Qed.

(** Two fields of the same kind and width read the same way. *)
Definition same_shape (f g : Field) : Prop :=
  match f, g with
  | FUint _ n, FUint _ m | FInt _ n, FInt _ m => n = m
  | FCoins _, FCoins _ | FAddress _, FAddress _ | FU256 _, FU256 _ | FRef _, FRef _ => True
  | _, _ => False
  end.

Lemma load_like_shape f g p : same_shape f g -> load_like f p = load_like g p.
Proof.
  intros H. destruct f, g; unfold same_shape in H; try solve [destruct H]; unfold load_like; subst; reflexivity.
Qed.

Lemma load_all_shape fs gs p : Forall2 same_shape fs gs -> load_all fs p = load_all gs p.
Proof.
  intros H. revert p. induction H as [|f g fs gs Hfg _ IH]; intros p; [done|].
  cbn [load_all]. rewrite (load_like_shape f g p Hfg). destruct (load_like g p) as [[?|] ?]; [|done]. by rewrite IH.
Qed.

Lemma fields_inj fs gs :
  Forall Field_wf fs -> Forall Field_wf gs -> Forall2 same_shape fs gs ->
  foldl store_field empty_builder fs = foldl store_field empty_builder gs -> fs = gs.
Proof.
  intros Hf Hg Hs E. destruct (load_fresh fs Hf) as (p & E1 & _). destruct (load_fresh gs Hg) as (p' & E2 & _).
  rewrite E, (load_all_shape fs gs _ Hs), E2 in E1. by injection E1 as ->.
Qed.

Lemma params_shape p q : Forall2 same_shape (params_fields p) (params_fields q).
Proof. unfold params_fields. cbn. by repeat constructor. Qed.

Lemma params_fields_inj p q : params_fields p = params_fields q -> p = q.
Proof.
  destruct p, q. unfold params_fields. cbn [fmap list_fmap app]. cbn. intros H. injection H. intros. subst. reflexivity.
Qed.

(** The parameter cell determines the parameters. *)
Lemma eco_cell_inj p q : Params_wf p -> Params_wf q -> eco_cell p = eco_cell q -> p = q.
Proof.
  intros Hp Hq E. apply params_fields_inj. rewrite !eco_cell_fields in E.
  by apply fields_inj; [| |apply params_shape|].
Qed.

(** The first field of a body is its opcode. *)
Lemma body_opcode r : Request_wf r ->
  exists p, load_uint (parser (body_cell (build r))) 32 = (Some (request_op r), p).
Proof.
  intros Hr. destruct (load_fresh (request_fields r) (request_fields_wf r Hr)) as (p & E & _).
  rewrite build_fields. unfold request_fields in E at 1. cbn [load_all load_like] in E.
  destruct (load_uint _ 32) as [[v|] p1]; cbn in E; [|done].
  destruct (load_all _ p1) as [[l|] p2]; cbn in E; [|done]. injection E as -> _ _. by exists p1.
Qed.

Lemma code_inj r r' : code r = code r' -> r = r'.
Proof. by destruct r, r'. Qed.

(** From here on the parameter cell is only known through [eco_cell_fields]. *)
#[local] Opaque eco_cell.

(** Requests with one opcode are of one kind, so their fields have one shape. *)
Lemma request_shape r r' : request_op r = request_op r' -> Forall2 same_shape (request_fields r) (request_fields r').
Proof.
  intros H. destruct r, r'; try (vm_compute in H; discriminate);
    unfold request_fields; cbn [request_args]; repeat (constructor; [exact eq_refl || exact I|]); constructor.
Qed.

Lemma request_fields_inj r r' :
  Request_wf r -> Request_wf r' -> request_op r = request_op r' -> request_fields r = request_fields r' -> r = r'.
Proof.
  intros [_ Hr] [_ Hr'] H E. destruct r, r'; try (vm_compute in H; discriminate);
    unfold request_fields in E; cbn [request_args request_op] in E; apply (f_equal tail) in E; cbn [tail] in E; clear H.
  8: { pose proof (eco_cell_inj p p0 Hr Hr') as He. revert E He. generalize (eco_cell p) (eco_cell p0).
       intros c c' E He. injection E. intros. subst. f_equal. by apply He. }
  all: injection E; intros; subst; try reflexivity.
  f_equal. by apply code_inj.
Qed.

(** Every message the bridge sends can be read by the contract that receives it and
    by no other: parsing the body cell of any request in the order its fields were
    written returns the opcode and the arguments exactly, with no bit or reference left
    over, and two different requests (of any kind, to any contract) never share a
    body. *)
Theorem message_bodies_faithful (r : Request) :
  Request_wf r ->
  (exists p', load_all (request_fields r) (parser (body_cell (build r))) = (Some (request_fields r), p')
     /\ remaining_bits p' = 0%nat /\ remaining_refs p' = 0%nat)
  /\ (forall r', Request_wf r' -> body_cell (build r') = body_cell (build r) -> r' = r).
Proof.
  intros Hr. pose proof (request_fields_wf r Hr) as Hf. split.
  - rewrite build_fields. by apply load_fresh.
  - intros r' Hr' E. destruct (body_opcode r Hr) as (p & E1). destruct (body_opcode r' Hr') as (p' & E2).
    rewrite E, E1 in E2. injection E2 as Eop _. apply request_fields_inj; [done|done|done|].
    rewrite !build_fields in E. apply fields_inj; [by apply request_fields_wf|done|by apply request_shape|done].
Qed.

Definition params_example : GlobalParams :=
  mkParams 1500 0 500 1000 5000 100 5000 5000 2000 2000 1000 10000000000 20000000000 50000000000 100000000000
    604800 86400 3 5 9 3 2 5000 3000 2000 500 60000 1000 5.

Lemma message_bodies_faithful_witness :
  let r := UpdateParams 7 (mkWallet 0 (replicate 32 Byte.x11)) params_example in
  (exists p', load_all (request_fields r) (parser (body_cell (build r))) = (Some (request_fields r), p')
     /\ remaining_bits p' = 0%nat /\ remaining_refs p' = 0%nat)
  /\ (forall r', Request_wf r' -> body_cell (build r') = body_cell (build r) -> r' = r).
Proof. apply message_bodies_faithful. decide_closed. Defined.
