(* ===== verification/EscrowAbi.v ===== *)
(** * Settlement dictionaries, candidate commitments and dispute proofs
      (crates/settlement/src/ton.rs)

    What a contract reads from the bodies that hold dictionaries or chains of
    cells: the [EscrowSettle] body with its payout and candidate maps, the
    commitment to a candidate set, and the Merkle path of a dispute. *)

From S2P Require Import Prelude Bytes Crypto Merkle Settlement Cell Dict TonAbi.

(** ** Reading a [HashmapE] *)

(** The optional root that a dictionary field holds. *)
Definition read_dict (p : CellParser) : option (option Cell) * CellParser :=
  match load_bit p with
  | (None, p) => (None, p)
  | (Some false, p) => (Some None, p)
  | (Some true, p) => let (r, p) := load_ref p in (Some <$> r, p)
  end.

Definition dict_get (n : nat) (root : option Cell) (k : list bool) : option (list bool * list Cell) :=
  r ← root; hashmap_lookup (S n) n r k.

(** All entries, in the order of their keys. *)
Fixpoint hashmap_entries (fuel n : nat) (c : Cell) : option (list (list bool * (list bool * list Cell))) :=
  match fuel with
  | O => None
  | S fuel' =>
      '(lab, r) ← parse_label n (cell_bits c);
      if (n <? length lab)%nat then None
      else if (n =? length lab)%nat then Some [(lab, (r, refs c))]
      else
        left ← refs c !! 0%nat; right ← refs c !! 1%nat;
        el ← hashmap_entries fuel' (n - length lab - 1) left;
        er ← hashmap_entries fuel' (n - length lab - 1) right;
        Some ((prod_map (app (lab ++ [false])) id <$> el) ++ (prod_map (app (lab ++ [true])) id <$> er))
  end.

Definition dict_entries (n : nat) (root : option Cell) : option (list (list bool * (list bool * list Cell))) :=
  match root with None => Some [] | Some r => hashmap_entries (S n) n r end.

(** Keys have the width of the dictionary. *)
Lemma hashmap_entries_keys fuel n c l : hashmap_entries fuel n c = Some l -> Forall (fun e => length e.1 = n) l.
Proof.
  revert n c l. induction fuel as [|fuel IH]; intros n c l; [done|]. cbn [hashmap_entries].
  destruct (parse_label n (cell_bits c)) as [[lab r]|]; [|done]. cbn [mbind option_bind].
  destruct (Nat.ltb_spec n (length lab)); [done|]. destruct (Nat.eqb_spec n (length lab)) as [E|E].
  { intros [= <-]. apply Forall_cons_2; [by rewrite E|constructor]. }
  destruct (refs c !! 0%nat) as [cl|]; [|done]. destruct (refs c !! 1%nat) as [cr|]; [|done]. cbn [mbind option_bind].
  destruct (hashmap_entries fuel _ cl) as [el|] eqn:El; [|done]. destruct (hashmap_entries fuel _ cr) as [er|] eqn:Er; [|done].
  cbn [mbind option_bind]. intros [= <-]. apply IH in El, Er. apply Forall_app. split; apply Forall_fmap;
    (eapply Forall_impl; [eassumption|]); intros [k v] Hk; cbn in *; rewrite !length_app; cbn [length]; lia.
Qed.

Lemma dict_entries_keys n root l : dict_entries n root = Some l -> Forall (fun e => length e.1 = n) l.
Proof. destruct root as [r|]; cbn [dict_entries]; [apply hashmap_entries_keys|]. intros [= <-]. constructor. Qed.

(** ** Address keys *)

Lemma address_key_bits_eq a : address_key_bits a = address_bits a.
Proof. unfold address_key_bits. by destruct (store_address_appends empty_builder a empty_builder_ok) as (_ & -> & _). Qed.

Lemma length_address_key a : length (address_key_bits a) = ADDRESS_KEY_BITS.
Proof.
  rewrite address_key_bits_eq. unfold address_bits, int_bits. rewrite !length_app, !length_uint_bits, length_fmap, length_seq.
  reflexivity.
Qed.

(** Different standard addresses have different keys. *)
Lemma address_key_inj a b : Address_wf a -> Address_wf b -> address_key_bits a = address_key_bits b -> a = b.
Proof.
  rewrite !address_key_bits_eq. intros Ha Hb E. set (p := parser (store_address empty_builder a)).
  destruct (store_address_appends empty_builder a empty_builder_ok) as (_ & Hc & _).
  assert (rest p = address_bits a ++ []) as Hr by (unfold rest, p; cbn [parser p_bit p_cell]; by rewrite drop_0, Hc, app_nil_r).
  assert (parser_ok p) as Hp by (unfold parser_ok, p; cbn [parser p_bit p_cell]; lia).
  pose proof (reads_address a Ha p [] Hp Hr) as E1. rewrite E in Hr.
  pose proof (reads_address b Hb p [] Hp Hr) as E2. congruence.
Qed.

Lemma address_keys_nodup {A} (f : A -> WalletAddress) l :
  Forall Address_wf (f <$> l) -> NoDup (f <$> l) -> NoDup ((fun x => address_key_bits (f x)) <$> l).
Proof.
  induction l as [|x l IH]; [constructor|]. rewrite !fmap_cons. intros [Hx Hf]%Forall_cons [Hn Hd]%NoDup_cons.
  apply NoDup_cons. split; [|by apply IH]. intros (y & E & Hy)%list_elem_of_fmap. apply Hn.
  apply list_elem_of_fmap. exists y. split; [|done]. apply address_key_inj; [done| |done].
  rewrite Forall_fmap, Forall_forall in Hf. by apply Hf.
Qed.

(** ** Building dictionaries into a message *)

Lemma filter_sides l (es : list entry) :
  List.filter (fun e : entry => Bool.eqb (nth l e.1 false) false) es
  ++ List.filter (fun e => Bool.eqb (nth l e.1 false) true) es ≡ₚ es.
Proof.
  induction es as [|e es IH]; [done|]. cbn [List.filter]. destruct (nth l e.1 false); cbn [Bool.eqb].
  - by rewrite <- Permutation_middle, IH.
  - cbn [app]. by rewrite IH.
Qed.

(** What a reader sees of an entry: its key, and the bits and references of its value. *)
Definition seen (e : entry) : list bool * (list bool * list Cell) := (e.1, (cell_bits e.2, refs e.2)).

(** Putting the shared label and the branching bit back gives the entries of a side. *)
Lemma unbranch b n l es lab :
  Forall (fun e : entry => length e.1 = n) es -> (l < n)%nat -> (forall e, e ∈ es -> take l e.1 = lab) ->
  prod_map (app (lab ++ [b])) id <$> (seen <$> branch b l es)
  = seen <$> List.filter (fun e : entry => Bool.eqb (nth l e.1 false) b) es.
Proof.
  intros Hlen Hl Hlab. unfold branch. induction es as [|e es IH]; [done|].
  apply Forall_cons in Hlen as [He Hlen]. cbn [List.filter].
  assert (forall x, x ∈ es -> take l x.1 = lab) as Hlab' by (intros x Hx; apply Hlab; by right).
  destruct (Bool.eqb (nth l e.1 false) b) eqn:Eb; [|by apply IH]. apply eqb_prop in Eb.
  rewrite !fmap_cons, IH by done. f_equal. unfold seen, prod_map. cbn [fst snd id]. f_equal.
  rewrite <- app_assoc. symmetry. rewrite (key_split n l e.1 He Hl) at 1.
  by rewrite Eb, (Hlab e) by (by left).
Qed.

Lemma build_node_entries fuel n es :
  entries_wf n es -> es <> [] -> (n < fuel)%nat -> (n <= 1023)%nat ->
  exists c l, build_hashmap_node fuel es n = Some c /\ hashmap_entries fuel n c = Some l /\ l ≡ₚ seen <$> es.
Proof.
  revert n es. induction fuel as [|fuel IH]; intros n es Hwf Hne Hf Hn; [lia|].
  destruct es as [|[k1 v1] [|e2 es]]; [done| |].
  - cbn [build_hashmap_node hashmap_entries]. eexists _, _. split; [done|].
    destruct (leaf_shape k1 n v1) as [-> ->]. destruct Hwf as [Hl _]. apply Forall_cons in Hl as [Hl _]. cbn in Hl.
    rewrite parse_label_bits by lia. cbn [mbind option_bind]. rewrite (proj2 (Nat.ltb_ge _ _)), (proj2 (Nat.eqb_eq _ _)) by lia. by split.
  - set (E := (k1, v1) :: e2 :: es) in *. pose proof (proj1 Hwf) as Hl.
    destruct (common_prefix_len_spec n E Hl ltac:(done)) as (_ & Ha & _).
    pose proof (fork_in_range n (k1, v1) e2 es Hwf) as Hlt. fold E in Hlt.
    assert (length k1 = n) as Hk1 by (by apply Forall_cons in Hl as [? _]).
    cbn [build_hashmap_node]. unfold E at 1. fold E.
    pose proof (branch_nonempty false n E Hl ltac:(done) Hlt) as Nf.
    pose proof (branch_nonempty true n E Hl ltac:(done) Hlt) as Nt.
    set (l := common_prefix_len E) in *. rewrite (proj2 (Nat.leb_gt _ _)) by done.
    destruct (IH (n - l - 1)%nat (branch false l E)) as (cl & ll & -> & Hcl & Pl); [by apply branch_wf|done|lia..|].
    destruct (IH (n - l - 1)%nat (branch true l E)) as (cr & lr & -> & Hcr & Pr); [by apply branch_wf|done|lia..|].
    cbn [mbind option_bind hashmap_entries]. eexists _, _. split; [done|].
    destruct (fork_shape (take l k1) n cl cr) as [-> ->].
    rewrite <- (app_nil_r (label_bits _ _)), parse_label_bits by (rewrite ?length_take; lia).
    cbn [mbind option_bind]. assert (length (take l k1) = l) as -> by (rewrite length_take; lia).
    rewrite (proj2 (Nat.ltb_ge _ _)), (proj2 (Nat.eqb_neq _ _)) by lia. cbn [lookup list_lookup mbind option_bind]. rewrite Hcl, Hcr.
    split; [done|]. assert (forall e, e ∈ E -> take l e.1 = take l k1) as Hlab
      by (intros e He; apply (Ha e (k1, v1)); [done|by left]).
    rewrite Pl, Pr, !(unbranch _ n l E (take l k1)) by done. by rewrite <- fmap_app, filter_sides.
Qed.

Definition root_bit (root : option Cell) : bool := match root with Some _ => true | None => false end.
Definition root_refs (root : option Cell) : list Cell := match root with Some r => [r] | None => [] end.

(** [root] is a dictionary with the entries [es]: reading it at a key finds exactly
    the entry listed under it, and iterating over it visits each entry once. *)
Definition represents (n : nat) (root : option Cell) (es : list entry) : Prop :=
  (forall k, length k = n -> dict_get n root k = entry_lookup es k)
  /\ exists l, dict_entries n root = Some l /\ l ≡ₚ seen <$> es.

Lemma store_maybe_ref_spec c r :
  Cell_ok c -> Cell_ok (store_maybe_ref c r) /\ cell_bits (store_maybe_ref c r) = cell_bits c ++ [root_bit r]
  /\ refs (store_maybe_ref c r) = refs c ++ root_refs r.
Proof.
  intros Hc. destruct r as [x|]; cbn [store_maybe_ref root_bit root_refs].
  - destruct (store_bit_appends c true Hc) as (H1 & H2 & H3). change (Z.b2z true) with 1 in *.
    unfold Cell_ok, cell_bits, store_ref. cbn [data bit_len refs]. split; [exact H1|]. split; [exact H2|]. by rewrite H3.
  - destruct (store_bit_appends c false Hc) as (H1 & H2 & H3). change (Z.b2z false) with 0 in *.
    split; [exact H1|]. split; [exact H2|]. by rewrite app_nil_r.
Qed.

Lemma store_dict_root n es :
  dict_wf n es -> (n <= 1023)%nat ->
  exists root, (forall c, store_dict c n es = Some (store_maybe_ref c root)) /\ represents n root (entries_of es).
Proof.
  intros Hwf Hn. unfold store_dict. destruct es as [|e es].
  - exists None. split; [done|]. split; [done|]. by exists [].
  - pose proof (dict_wf_entries n _ Hwf) as He. rewrite build_root_node by done.
    destruct (build_node_correct (S n) n (entries_of (e :: es))) as (r & Er & Hl); [done|done|lia|lia|].
    destruct (build_node_entries (S n) n (entries_of (e :: es))) as (r' & l & Er' & Hv & Hp); [done|done|lia|lia|].
    rewrite Er in Er'. injection Er' as <-. rewrite Er. cbn [length Nat.eqb mbind option_bind].
    exists (Some r). split; [done|]. split; [exact Hl|]. by exists l.
Qed.

Lemma store_dict_spec c n es :
  Cell_ok c -> dict_wf n es -> (n <= 1023)%nat ->
  exists c' root, store_dict c n es = Some c' /\ Cell_ok c' /\ cell_bits c' = cell_bits c ++ [root_bit root]
    /\ refs c' = refs c ++ root_refs root /\ represents n root (entries_of es)
    /\ (forall c0, store_dict c0 n es = Some (store_maybe_ref c0 root)).
Proof.
  intros Hc Hwf Hn. destruct (store_dict_root n es Hwf Hn) as (root & E & H).
  destruct (store_maybe_ref_spec c root Hc) as (H1 & H2 & H3). exists (store_maybe_ref c root), root. by rewrite E.
Qed.

Lemma read_dict_spec root p k kr :
  parser_ok p -> rest p = root_bit root :: k -> drop (p_next_ref p) (refs (p_cell p)) = root_refs root ++ kr ->
  exists p', read_dict p = (Some root, p') /\ parser_ok p' /\ rest p' = k /\ p_cell p' = p_cell p
    /\ drop (p_next_ref p') (refs (p_cell p')) = kr.
Proof.
  intros Hp Hr Hd. unfold read_dict. rewrite (load_bit_cons p (root_bit root) k Hr).
  pose proof (advance_ok p [root_bit root] k Hr Hp) as Ho. pose proof (rest_advance p [root_bit root] k Hr) as Hk.
  cbn [length] in *. destruct root as [r|]; cbn [root_bit root_refs app] in *.
  - unfold load_ref, advance. cbn [p_cell p_next_ref p_bit].
    assert (refs (p_cell p) !! p_next_ref p = Some r) as ->.
    { apply (f_equal (lookup 0%nat)) in Hd. rewrite lookup_drop, Nat.add_0_r in Hd. done. }
    eexists. split; [reflexivity|]. cbn [p_cell p_next_ref]. split; [exact Ho|]. split; [exact Hk|]. split; [done|].
    apply (f_equal (drop 1)) in Hd. rewrite drop_drop, Nat.add_1_r in Hd. done.
  - eexists. split; [reflexivity|]. by repeat split.
Qed.

(** ** The payout and candidate maps *)

(** What a list of payouts owes one wallet, saturating at [u128]. *)
Definition paid_to (w : WalletAddress) (ps : list Payout) : Amount :=
  Z.min (sum_by (fun p => if bool_decide (to p = w) then amount p else 0) ps) (umax 128).

Fixpoint amount_for (m : list (WalletAddress * Amount)) (w : WalletAddress) : Amount :=
  match m with
  | [] => 0
  | (w', a) :: m' => if bool_decide (w' = w) then a else amount_for m' w
  end.

Lemma amount_for_merge m w a w' :
  0 <= amount_for m w' -> 0 <= a <= umax 128 ->
  amount_for (merge_payout m w a) w' = if bool_decide (w = w') then sat_add 128 (amount_for m w') a else amount_for m w'.
Proof.
  intros Hm Ha. induction m as [|[x b] m IH]; cbn [merge_payout amount_for] in *.
  - destruct (bool_decide (w = w')); [|done]. unfold sat_add. lia.
  - destruct (bool_decide_reflect (x = w)) as [->|Hx]; cbn [amount_for].
    + by destruct (bool_decide_reflect (w = w')).
    + destruct (bool_decide_reflect (x = w')) as [->|]; [|by apply IH].
      by rewrite bool_decide_false by congruence.
Qed.

Lemma merge_payout_keys m w a : (merge_payout m w a).*1 = if bool_decide (w ∈ m.*1) then m.*1 else m.*1 ++ [w].
Proof.
  induction m as [|[x b] m IH]; cbn [merge_payout]; [done|]. rewrite fmap_cons. cbn [fst].
  destruct (bool_decide_reflect (x = w)) as [->|Hx]; rewrite fmap_cons; cbn [fst].
  - rewrite bool_decide_true; [done|by left].
  - rewrite IH. destruct (bool_decide_reflect (w ∈ m.*1)).
    + by rewrite bool_decide_true by (by right).
    + rewrite bool_decide_false; [done|]. by intros [->|]%elem_of_cons.
Qed.

(** The merged list: one positive entry per wallet that is owed something. *)
Definition merged_ok (m : list (WalletAddress * Amount)) : Prop :=
  NoDup m.*1 /\ Forall (fun wa => 0 < wa.2 <= umax 128) m.

Lemma merge_payout_ok m w a : merged_ok m -> 0 < a <= umax 128 -> merged_ok (merge_payout m w a).
Proof.
  intros [Hn Hp] Ha. split.
  - rewrite merge_payout_keys. destruct (bool_decide_reflect (w ∈ m.*1)); [done|].
    apply NoDup_app. split; [done|]. split; [|apply NoDup_singleton].
    intros x Hx ->%list_elem_of_singleton. done.
  - clear Hn. induction Hp as [|[x b] m Hb Hp IH]; cbn [merge_payout]; [by apply Forall_singleton|].
    destruct (bool_decide (x = w)); apply Forall_cons_2; [|done|done|done].
    cbn [snd] in *. unfold sat_add. lia.
Qed.

Lemma amount_for_nonneg m w : merged_ok m -> 0 <= amount_for m w.
Proof.
  intros [_ Hp]. induction Hp as [|[x b] m Hb Hp IH]; cbn [amount_for snd] in *; [lia|].
  destruct (bool_decide _); lia.
Qed.

Definition Payout_wf (p : Payout) : Prop := Address_wf (to p) /\ in_u 128 (amount p).
#[global] Instance Payout_wf_dec p : Decision (Payout_wf p).
Proof. unfold Payout_wf. apply _. Defined.

Lemma paid_to_snoc w ps p :
  Forall Payout_wf ps -> in_u 128 (amount p) ->
  paid_to w (ps ++ [p]) = if bool_decide (to p = w) then sat_add 128 (paid_to w ps) (amount p) else paid_to w ps.
Proof.
  intros Hps [Hp _]. unfold paid_to. rewrite sum_by_app. cbn [sum_by foldr].
  assert (0 <= sum_by (fun p => if bool_decide (to p = w) then amount p else 0) ps).
  { apply sum_by_nonneg. intros x Hx. rewrite Forall_forall in Hps. destruct (Hps x Hx) as [_ [? _]].
    destruct (bool_decide _); lia. }
  unfold sat_add. destruct (bool_decide _); lia.
Qed.

Lemma merge_payouts_spec ps :
  Forall Payout_wf ps ->
  merged_ok (merge_payouts ps) /\ (forall w, amount_for (merge_payouts ps) w = paid_to w ps)
  /\ Forall Address_wf (merge_payouts ps).*1.
Proof.
  unfold merge_payouts. induction ps as [|p ps IH] using rev_ind; intros Hps.
  { split; [split; constructor|]. split; [done|constructor]. }
  apply Forall_app in Hps as [Hps Hp]. apply Forall_singleton in Hp as [Hw Ha].
  destruct (IH Hps) as (Hm & Hl & Hf). rewrite foldl_app. cbn [foldl]. set (m := foldl _ _ ps) in *.
  assert (0 <= amount p <= umax 128) as Ha' by (unfold in_u, umax in *; lia).
  destruct (Z.eqb_spec (amount p) 0) as [E|E].
  - split; [done|]. split; [|done]. intros w. rewrite paid_to_snoc, E, Hl by done.
    destruct (bool_decide (to p = w)); [|done]. unfold sat_add.
    assert (paid_to w ps <= umax 128) by (unfold paid_to; lia). lia.
  - split; [apply merge_payout_ok; [done|lia]|]. split.
    + intros w. rewrite amount_for_merge, paid_to_snoc, Hl by (done || by apply amount_for_nonneg). done.
    + rewrite merge_payout_keys. destruct (bool_decide _); [done|]. apply Forall_app. split; [done|by constructor].
Qed.

Lemma participants_dict_wf ps : Forall Payout_wf ps -> dict_wf ADDRESS_KEY_BITS (participants_dict_entries ps).
Proof.
  intros (Hm & _ & Hf)%merge_payouts_spec. unfold participants_dict_entries. split.
  - apply Forall_fmap, Forall_forall. intros [w a] _. apply length_address_key.
  - rewrite <- list_fmap_compose. exact (address_keys_nodup fst _ Hf (proj1 Hm)).
Qed.

(** Reading the payout map at a wallet's key. *)
Lemma participants_lookup ps w :
  Forall Payout_wf ps -> Address_wf w ->
  entry_lookup (entries_of (participants_dict_entries ps)) (address_key_bits w)
  = if paid_to w ps =? 0 then None else Some (coin_bits (paid_to w ps), []).
Proof.
  intros Hps Hw. destruct (merge_payouts_spec ps Hps) as ([_ Hm] & Hl & Hf). rewrite <- Hl. clear Hl Hps.
  unfold participants_dict_entries, entries_of. induction (merge_payouts ps) as [|[x a] m IH]; [done|].
  rewrite !fmap_cons in *. cbn [fst snd entry_lookup amount_for key value] in *.
  apply Forall_cons in Hm as [Ha Hm], Hf as [Hx Hf].
  destruct (bool_decide_reflect (x = w)) as [->|Hne].
  - rewrite bool_decide_true by done. destruct (store_coins_appends empty_builder a empty_builder_ok) as (_ & -> & ->).
    cbn [snd] in Ha. by rewrite (proj2 (Z.eqb_neq _ _)) by lia.
  - rewrite bool_decide_false by (intros E; apply Hne; by apply address_key_inj). by apply IH.
Qed.

(** The loops that collect addresses, skipping those already there. *)
Lemma elem_of_collect {A} (f : A -> WalletAddress) l acc w :
  w ∈ foldl (fun c x => if bool_decide (f x ∈ c) then c else c ++ [f x]) acc l <-> w ∈ acc \/ exists x, x ∈ l /\ f x = w.
Proof.
  revert acc. induction l as [|y l IH]; intros acc; cbn [foldl].
  - split; [by left|]. intros [H|(x & H & _)]; [done|]. by apply not_elem_of_nil in H.
  - rewrite IH. assert (w ∈ (if bool_decide (f y ∈ acc) then acc else acc ++ [f y]) <-> w ∈ acc \/ w = f y) as ->.
    { destruct (bool_decide_reflect (f y ∈ acc)) as [H|H]; [|by rewrite elem_of_app, list_elem_of_singleton].
      split; [by left|]. by intros [Hw| ->]. }
    split.
    + intros [[H| ->]|(x & H & E)]; [by left|right; exists y; split; [by left|done]|right; exists x; split; [by right|done]].
    + intros [H|(x & [->|H]%elem_of_cons & E)]; [by left; left|left; right; done|right; by exists x].
Qed.

Lemma dedup_wallets_spec ws : NoDup (dedup_wallets ws) /\ forall w, w ∈ dedup_wallets ws <-> w ∈ ws.
Proof.
  unfold dedup_wallets. induction ws as [|c ws [Hn Hi]] using rev_ind; [by split; [constructor|]|].
  rewrite foldl_app. cbn [foldl]. set (m := foldl _ _ ws) in *. destruct (bool_decide_reflect (c ∈ m)) as [H|H].
  - split; [done|]. intros w. rewrite elem_of_app, list_elem_of_singleton, Hi. split; [by left|].
    intros [Hw| ->]; [done|]. by apply Hi.
  - split.
    + apply NoDup_app. split; [done|]. split; [|apply NoDup_singleton]. by intros x Hx ->%list_elem_of_singleton.
    + intros w. by rewrite !elem_of_app, Hi.
Qed.

Lemma dedup_wallets_wf ws : Forall Address_wf ws -> Forall Address_wf (dedup_wallets ws).
Proof. rewrite !Forall_forall. intros H w Hw. by apply H, dedup_wallets_spec. Qed.

Lemma candidates_dict_wf ws : Forall Address_wf ws -> dict_wf ADDRESS_KEY_BITS (candidates_dict_entries ws).
Proof.
  intros Hws. unfold candidates_dict_entries. split.
  - apply Forall_fmap, Forall_forall. intros w _. apply length_address_key.
  - rewrite <- list_fmap_compose. apply (address_keys_nodup id); rewrite list_fmap_id; [by apply dedup_wallets_wf|].
    apply dedup_wallets_spec.
Qed.

(** Reading the candidate map at a wallet's key. *)
Lemma candidates_lookup ws w :
  Forall Address_wf ws -> Address_wf w ->
  entry_lookup (entries_of (candidates_dict_entries ws)) (address_key_bits w)
  = if bool_decide (w ∈ ws) then Some ([true], []) else None.
Proof.
  intros Hws Hw. rewrite (bool_decide_ext _ _ (iff_sym (proj2 (dedup_wallets_spec ws) w))).
  apply dedup_wallets_wf in Hws. unfold candidates_dict_entries, entries_of.
  induction Hws as [|x l Hx Hl IH]; [done|]. rewrite !fmap_cons. cbn [key value entry_lookup fst snd].
  destruct (decide (x = w)) as [->|Hne].
  - by rewrite !bool_decide_true by (done || by left).
  - rewrite bool_decide_false, IH by (intros E; apply Hne; by apply address_key_inj).
    apply (f_equal (fun b : bool => if b then _ else _)). apply bool_decide_ext. rewrite elem_of_cons. naive_solver.
Qed.

(** ** The [EscrowSettle] body *)

Definition settle_header (q : Z) (rh : Hash32) (w : WalletAddress) (base wa fee : Amount) : list Field :=
  [FUint OP_ESCROW_SETTLE 32; FUint q 64; FU256 rh; FAddress w; FCoins base; FCoins wa; FCoins fee].

Lemma parser_ok_rest p b k : rest p = b :: k -> parser_ok p.
Proof.
  intros E. apply (f_equal length) in E. rewrite rest_length in E. cbn in E. unfold parser_ok. lia.
Qed.

(** The body as its parts: the header, the two dictionaries, nothing else. *)
Lemma settle_parts q rh w bs wa fee ps cs :
  Forall Field_wf (settle_header q rh w bs wa fee) -> Forall Payout_wf ps -> Forall Address_wf cs ->
  exists m p1 parts p2 cands p3,
    build_escrow_settle q rh w bs wa fee ps cs = Some m
    /\ load_all (settle_header q rh w bs wa fee) (parser (body_cell m)) = (Some (settle_header q rh w bs wa fee), p1)
    /\ read_dict p1 = (Some parts, p2) /\ read_dict p2 = (Some cands, p3)
    /\ remaining_bits p3 = 0%nat /\ remaining_refs p3 = 0%nat
    /\ represents ADDRESS_KEY_BITS parts (entries_of (participants_dict_entries ps))
    /\ represents ADDRESS_KEY_BITS cands (entries_of (candidates_dict_entries cs))
    /\ (forall c, store_dict c ADDRESS_KEY_BITS (candidates_dict_entries cs) = Some (store_maybe_ref c cands)).
Proof.
  intros Hh Hps Hcs. set (h := settle_header q rh w bs wa fee) in *. unfold build_escrow_settle, b_dict.
  autorewrite with message_cells. change (store_field _ (FCoins fee)) with (foldl store_field empty_builder h).
  destruct (store_all_spec h empty_builder empty_builder_ok) as (H1 & H2 & H3). cbn [refs empty_builder] in H3.
  rewrite empty_builder_bits in H2. cbn [app] in H2, H3. set (c := foldl store_field empty_builder h) in *.
  destruct (store_dict_spec c _ _ H1 (participants_dict_wf ps Hps)) as (c1 & r1 & -> & O1 & B1 & R1 & D1 & _);
    [unfold ADDRESS_KEY_BITS; lia|]. cbn [mbind option_bind cb].
  destruct (store_dict_spec c1 _ _ O1 (candidates_dict_wf cs Hcs)) as (c2 & r2 & -> & O2 & B2 & R2 & D2 & K2);
    [unfold ADDRESS_KEY_BITS; lia|]. cbn [mbind option_bind cb finish body_cell].
  rewrite B1, H2, <- app_assoc in B2. rewrite R1, H3, <- app_assoc in R2.
  destruct (load_built h c2 _ _ Hh B2 R2) as (p1 & E1 & G1 & G2 & G3).
  rewrite <- G2 in G3. destruct (read_dict_spec r1 p1 _ _ (parser_ok_rest _ _ _ G1) G1 G3) as (p2 & E2 & P2 & G4 & G5 & G6).
  rewrite <- (app_nil_r (root_refs r2)) in G6.
  destruct (read_dict_spec r2 p2 _ _ P2 G4 G6) as (p3 & E3 & P3 & G7 & G8 & G9).
  eexists _, p1, r1, p2, r2, p3. split; [reflexivity|]. cbn [body_cell]. do 3 (split; [done|]).
  split; [by unfold remaining_bits; rewrite <- rest_length, G7|]. split; [|done].
  apply (f_equal length) in G9. rewrite length_drop in G9. exact G9.
Qed.

(** A settlement order says what it is meant to say: for standard addresses and
    amounts the body builds without a panic, the contract's parser reads back the
    opcode, query id, result hash, winner, quoted price, winner payout and fee, and
    the two maps that follow hold, under the key of any wallet, the total of the
    payouts addressed to it (nothing when that is zero) and a set bit exactly when
    it is a candidate; no bit and no reference is left over. *)
Theorem escrow_settle_faithful (q : Z) (rh : Hash32) (w : WalletAddress) (bs wa fee : Amount)
    (ps : list Payout) (cs : list WalletAddress) :
  Forall Field_wf (settle_header q rh w bs wa fee) -> Forall Payout_wf ps -> Forall Address_wf cs ->
  exists m p1 parts p2 cands p3,
    build_escrow_settle q rh w bs wa fee ps cs = Some m
    /\ load_all (settle_header q rh w bs wa fee) (parser (body_cell m)) = (Some (settle_header q rh w bs wa fee), p1)
    /\ read_dict p1 = (Some parts, p2) /\ read_dict p2 = (Some cands, p3)
    /\ remaining_bits p3 = 0%nat /\ remaining_refs p3 = 0%nat
    /\ forall x, Address_wf x ->
         dict_get ADDRESS_KEY_BITS parts (address_key_bits x)
           = (if paid_to x ps =? 0 then None else Some (coin_bits (paid_to x ps), []))
         /\ dict_get ADDRESS_KEY_BITS cands (address_key_bits x)
           = (if bool_decide (x ∈ cs) then Some ([true], []) else None).
Proof.
  intros Hh Hps Hcs. destruct (settle_parts q rh w bs wa fee ps cs Hh Hps Hcs)
    as (m & p1 & r1 & p2 & r2 & p3 & E & E1 & E2 & E3 & E4 & E5 & [L1 _] & [L2 _] & _).
  exists m, p1, r1, p2, r2, p3. do 6 (split; [done|]). intros x Hx.
  by rewrite L1, L2, participants_lookup, candidates_lookup by (done || apply length_address_key).
Qed.

Definition settle_payees : list Payout :=
  [mkPayout (addr_example Byte.x02) 25; mkPayout (addr_example Byte.x03) 0; mkPayout (addr_example Byte.xf1) 25;
   mkPayout (addr_example Byte.x02) 4].
Definition settle_candidates : list WalletAddress :=
  [addr_example Byte.x01; addr_example Byte.x02; addr_example Byte.x01; addr_example Byte.xf1].

Lemma escrow_settle_faithful_witness :
  let h := settle_header 9 (replicate 32 Byte.xaa) (addr_example Byte.x01) 500 500 75 in
  exists m p1 parts p2 cands p3,
    build_escrow_settle 9 (replicate 32 Byte.xaa) (addr_example Byte.x01) 500 500 75 settle_payees settle_candidates = Some m
    /\ load_all h (parser (body_cell m)) = (Some h, p1)
    /\ read_dict p1 = (Some parts, p2) /\ read_dict p2 = (Some cands, p3)
    /\ remaining_bits p3 = 0%nat /\ remaining_refs p3 = 0%nat
    /\ forall x, Address_wf x ->
         dict_get ADDRESS_KEY_BITS parts (address_key_bits x)
           = (if paid_to x settle_payees =? 0 then None else Some (coin_bits (paid_to x settle_payees), []))
         /\ dict_get ADDRESS_KEY_BITS cands (address_key_bits x)
           = (if bool_decide (x ∈ settle_candidates) then Some ([true], []) else None).
Proof. apply escrow_settle_faithful; decide_closed. Defined.

(** ** Commitments to a candidate set *)

Lemma label_bits_length bits n : (n <= 1023)%nat -> (length (label_bits bits n) <= 13 + length bits)%nat.
Proof.
  intros Hn. assert (label_len_bits n <= 10)%nat as Hk.
  { unfold label_len_bits. destruct (_ =? 0)%nat; [lia|]. pose proof (Nat.log2_le_mono _ _ Hn) as H.
    change (Nat.log2 1023) with 9%nat in H. lia. }
  unfold label_bits. set (same := if all_same bits then _ else _).
  destruct (Z.leb_spec (2 * Z.of_nat (length bits) + 2) (2 + Z.of_nat (label_len_bits n) + Z.of_nat (length bits)));
    destruct (Z.leb_spec (2 * Z.of_nat (length bits) + 2) same);
    destruct (Z.leb_spec (2 + Z.of_nat (label_len_bits n) + Z.of_nat (length bits)) same); cbn [andb];
    repeat rewrite length_app; rewrite ?length_uint_bits, ?length_replicate; cbn [length]; lia.
Qed.

(** A value that fits next to the longest label. *)
Definition value_ok (v : Cell) : Prop :=
  Cell_ok v /\ (bit_len v <= 700)%nat /\ (length (refs v) <= 4)%nat /\ Forall Tree_ok (refs v).

Lemma build_node_tree fuel n es c :
  entries_wf n es -> Forall (fun e => value_ok e.2) es -> (n <= 300)%nat ->
  build_hashmap_node fuel es n = Some c -> Tree_ok c.
Proof.
  revert n es c. induction fuel as [|fuel IH]; intros n es c Hwf Hv Hn E; [done|]. cbn [build_hashmap_node] in E.
  destruct es as [|[k1 v1] [|e2 es]]; [done| |].
  - injection E as <-. apply Forall_singleton in Hv as (V1 & V2 & V3 & V4). cbn [snd] in *.
    destruct (leaf_shape k1 n v1) as [Hb Hr]. pose proof (proj1 Hwf) as Hl. apply Forall_cons in Hl as [Hl _]. cbn in Hl.
    destruct (store_label_appends empty_builder k1 n empty_builder_ok) as (H1 & _).
    constructor; [| |by rewrite Hr|by rewrite Hr].
    + unfold store_cell_inline. rewrite foldl_push_fmap. by apply appends_push.
    + rewrite <- length_cell_bits, Hb, length_app, length_cell_bits.
      pose proof (label_bits_length k1 n ltac:(lia)). lia.
  - set (es' := (k1, v1) :: e2 :: es) in *. pose proof (proj1 Hwf) as Hl.
    destruct (common_prefix_len_spec n es' Hl ltac:(done)) as (Hle & Ha & _).
    destruct (n <=? common_prefix_len es')%nat eqn:Hlt; [done|]. apply Nat.leb_gt in Hlt.
    set (l := common_prefix_len es') in *.
    assert (forall b, Forall (fun e : entry => value_ok e.2) (branch b l es')) as Hbv.
    { intros b. apply Forall_forall. intros e (f & Hf & _ & ->)%elem_of_branch. cbn. rewrite Forall_forall in Hv. by apply Hv. }
    destruct (build_hashmap_node fuel (branch false l es') _) as [cl|] eqn:El; [|done].
    destruct (build_hashmap_node fuel (branch true l es') _) as [cr|] eqn:Er; [|done].
    cbn [mbind option_bind] in E. injection E as <-.
    apply IH in El, Er; [|by apply branch_wf|done|lia|by apply branch_wf|done|lia].
    destruct (fork_shape (take l k1) n cl cr) as [Hb Hr].
    destruct (store_label_appends empty_builder (take l k1) n empty_builder_ok) as (H1 & _).
    constructor; [exact H1| |rewrite Hr; cbn; lia|rewrite Hr; by repeat apply Forall_cons_2].
    rewrite <- length_cell_bits, Hb. pose proof (label_bits_length (take l k1) n ltac:(lia)) as Hll.
    rewrite length_take in Hll. lia.
Qed.

Section commitments.
Context {C : Crypto} {CL : CryptoLaws C}.

Lemma candidate_value_ok : value_ok (store_uint empty_builder 1 1).
Proof using Type.
  destruct (store_bit_appends empty_builder true empty_builder_ok) as (H1 & H2 & H3).
  split; [exact H1|]. split; [|split; [cbn; lia|constructor]].
  change (store_uint empty_builder 1 1) with (store_uint empty_builder (Z.b2z true) 1).
  rewrite <- length_cell_bits, H2. cbn. lia.
Qed.

(** The cell whose hash is the commitment. *)
Lemma candidates_cell ws :
  Forall Address_wf ws ->
  exists c root, store_dict empty_builder ADDRESS_KEY_BITS (candidates_dict_entries ws) = Some c /\ Tree_ok c
    /\ refs c = root_refs root /\ represents ADDRESS_KEY_BITS root (entries_of (candidates_dict_entries ws)).
Proof using Type.
  intros Hws. pose proof (candidates_dict_wf ws Hws) as Hwf.
  destruct (store_dict_spec empty_builder _ _ empty_builder_ok Hwf) as (c & root & E & H1 & H2 & H3 & H4 & _);
    [unfold ADDRESS_KEY_BITS; lia|].
  exists c, root. split; [done|]. split; [|done]. rewrite empty_builder_bits in H2. cbn [app refs empty_builder] in H2, H3.
  constructor; [done|rewrite <- length_cell_bits, H2; cbn; lia|rewrite H3; destruct root; cbn; lia|].
  rewrite H3. destruct root as [r|]; [|constructor]. cbn [root_refs]. apply Forall_singleton.
  unfold store_dict in E. destruct (_ =? 0)%nat eqn:En.
  { injection E as <-. destruct (store_uint_appends empty_builder 0 1 empty_builder_ok) as (_ & _ & G). by rewrite G in H3. }
  destruct (build_hashmap_root _ _) as [r'|] eqn:Er; [|done]. cbn [mbind option_bind] in E. injection E as <-.
  assert (r' = r) as ->.
  { cbn [refs store_ref] in H3. destruct (store_uint_appends empty_builder 1 1 empty_builder_ok) as (_ & _ & G).
    rewrite G in H3. by injection H3. }
  rewrite build_root_node in Er by (done || (intros E0; by rewrite E0 in En)).
  apply (build_node_tree _ _ _ _ (dict_wf_entries _ _ Hwf)) in Er; [done| |unfold ADDRESS_KEY_BITS; lia].
  apply Forall_forall. intros e He. apply list_elem_of_fmap in He as (x & -> & Hx).
  apply list_elem_of_fmap in Hx as (y & -> & _). apply candidate_value_ok.
Qed.

(** The messages hashed to compute a commitment. *)
Definition commitment_queries (ws : list WalletAddress) : list bytes :=
  match store_dict empty_builder ADDRESS_KEY_BITS (candidates_dict_entries ws) with
  | Some c => cell_queries c
  | None => []
  end.

Lemma dict_of_same_set ws ws' :
  Forall Address_wf ws -> (forall w, w ∈ ws <-> w ∈ ws') ->
  store_dict empty_builder ADDRESS_KEY_BITS (candidates_dict_entries ws)
  = store_dict empty_builder ADDRESS_KEY_BITS (candidates_dict_entries ws').
Proof using Type.
  intros Hws Hs. pose proof (candidates_dict_wf ws Hws) as Hwf.
  assert (candidates_dict_entries ws ≡ₚ candidates_dict_entries ws') as Hp.
  { apply fmap_Permutation, NoDup_Permutation; [apply dedup_wallets_spec..|]. intros w.
    rewrite (proj2 (dedup_wallets_spec ws)), (proj2 (dedup_wallets_spec ws')). apply Hs. }
  unfold store_dict. rewrite (Permutation_length Hp). destruct (_ =? 0)%nat eqn:En; [done|].
  assert (candidates_dict_entries ws' <> []) as Hne' by (intros E; by rewrite E in En).
  assert (candidates_dict_entries ws <> []) as Hne by (intros E; rewrite E in Hp; by apply Permutation_nil_l in Hp).
  rewrite !build_root_node; [|destruct Hwf; split; by rewrite <- Hp|done..].
  by rewrite (build_node_perm _ _ _ (entries_of (candidates_dict_entries ws')) (dict_wf_entries _ _ Hwf)) by (by apply fmap_Permutation).
Qed.

Lemma commitment_inj ws ws' :
  Forall Address_wf ws -> Forall Address_wf ws' ->
  NoCollision sha256 (commitment_queries ws ++ commitment_queries ws') ->
  candidates_commitment ws = candidates_commitment ws' -> forall w, w ∈ ws <-> w ∈ ws'.
Proof using CL.
  intros H H'. destruct (candidates_cell ws H) as (c & r & E & T & R & L & _).
  destruct (candidates_cell ws' H') as (c' & r' & E' & T' & R' & L' & _).
  unfold candidates_commitment, commitment_queries. rewrite E, E'. intros Hn Hh.
  assert (c = c') as <-. { apply (repr_hash_inj c c' T T' Hn). by apply (inj Some) in Hh. }
  assert (r = r') as <-. { rewrite R in R'. clear -R'. destruct r, r'; cbn [root_refs] in R'; congruence. }
  assert (forall w, Address_wf w -> (w ∈ ws <-> w ∈ ws')) as Hw.
  { intros w Hw. pose proof (L (address_key_bits w) (length_address_key w)) as L1.
    rewrite L', !candidates_lookup in L1 by (done || apply length_address_key).
    by destruct (bool_decide_reflect (w ∈ ws)), (bool_decide_reflect (w ∈ ws')). }
  rewrite Forall_forall in H, H'. intros w. split; intros Hi; apply Hw; auto.
Qed.

(** The candidate commitment of an escrow stands for a set of wallets: it exists
    for any standard addresses, lists with the same members have the same
    commitment whatever their order and repetitions, and, unless sha256 collides on
    the cells hashed, lists with the same commitment have the same members. *)
Theorem candidates_commitment_is_set (ws ws' : list WalletAddress) :
  Forall Address_wf ws -> Forall Address_wf ws' ->
  is_Some (candidates_commitment ws)
  /\ ((forall w, w ∈ ws <-> w ∈ ws') -> candidates_commitment ws = candidates_commitment ws')
  /\ (NoCollision sha256 (commitment_queries ws ++ commitment_queries ws') ->
      candidates_commitment ws = candidates_commitment ws' -> forall w, w ∈ ws <-> w ∈ ws').
Proof using CL.
  intros H H'. split; [|split; [|by apply commitment_inj]].
  - destruct (candidates_cell ws H) as (c & r & E & _). unfold candidates_commitment. by rewrite E.
  - intros Hs. unfold candidates_commitment. by rewrite (dict_of_same_set ws ws').
Qed.
End commitments.

Lemma candidates_commitment_is_set_witness :
  is_Some (candidates_commitment (C := toy_crypto) settle_candidates)
  /\ ((forall w, w ∈ settle_candidates <-> w ∈ rev settle_candidates) ->
      candidates_commitment (C := toy_crypto) settle_candidates
      = candidates_commitment (C := toy_crypto) (rev settle_candidates))
  /\ (NoCollision (sha256 (Crypto := toy_crypto))
        (commitment_queries (C := toy_crypto) settle_candidates
         ++ commitment_queries (C := toy_crypto) (rev settle_candidates)) ->
      candidates_commitment (C := toy_crypto) settle_candidates
      = candidates_commitment (C := toy_crypto) (rev settle_candidates) ->
      forall w, w ∈ settle_candidates <-> w ∈ rev settle_candidates).
Proof. apply (candidates_commitment_is_set (C := toy_crypto) (CL := toy_laws)); decide_closed. Defined.
