(* ===== verification/Anchor.v ===== *)
(** * Disputes against anchored epochs (ton/contracts/anchor_types.tolk,
      ton/contracts/RecordAnchor.tolk, crates/settlement/src/ton.rs)

    The contract's Merkle helpers, which hash cells, and its walk along the proof
    chain of a dispute, with the two handlers that anchor a root and open a
    dispute; and their agreement with the hand-written hashes, the proof builder
    and the message builders of the bridge. *)

From S2P Require Import Prelude Bytes Crypto Merkle Settlement Cell Dict TonAbi EscrowAbi.
#[local] Open Scope duckton_scope.

Definition MAX_MERKLE_PROOF_DEPTH : nat := 32.

(** What a handler throws: the contract's codes, and the machine's own for a message or
    step that does not parse and for an integer that does not fit its field. *)
Inductive ErrCode :=
| NOT_ANCHOR_KEEPER | BOND_FLOOR_TOO_LOW | ZERO_ROOT | EPOCH_REGRESSION | BAD_PREV_ROOT
| INSUFFICIENT_ANCHOR_STAKE | DISPUTE_BOND_TOO_LOW | UNKNOWN_EPOCH | PROOF_TOO_DEEP | BAD_INCLUSION_PROOF
| CELL_UNDERFLOW | RANGE_CHECK.

Section contract.
Context {C : Crypto}.

Definition hashPair (left right : Hash32) : Hash32 := repr_hash (store_u256 (store_u256 empty_builder left) right).
Definition hashLeaf (x : Hash32) : Hash32 := repr_hash (store_u256 empty_builder x).

(** [cur.load()] of a [Cell<MerkleStep>]: the cell holds the step and nothing else. *)
Definition load_step (c : Cell) : option (bool * Hash32 * option Cell) :=
  let (dir, p) := load_bit (parser c) in
  let (sib, p) := load_bits p 256 in
  let (next, p) := read_dict p in
  if (remaining_bits p =? 0)%nat && (remaining_refs p =? 0)%nat then
    d ← dir; s ← sib; n ← next; Some (d, s, n)
  else None.

(** The loop of [computeRootFromProof]; [left] steps remain before [PROOF_TOO_DEEP]. *)
Fixpoint walk_proof (left : nat) (acc : Hash32) (cur : option Cell) : result Hash32 ErrCode :=
  match cur with
  | None => Ok acc
  | Some c =>
      match left with
      | O => Err PROOF_TOO_DEEP
      | S left' =>
          match load_step c with
          | None => Err CELL_UNDERFLOW
          | Some (dir, sibling, next) =>
              walk_proof left' (if dir : bool then hashPair sibling acc else hashPair acc sibling) next
          end
      end
  end.

Definition computeRootFromProof (lf : Hash32) (proof : option Cell) : result Hash32 ErrCode :=
  walk_proof MAX_MERKLE_PROOF_DEPTH (hashLeaf lf) proof.

(** ** The contract's hashes are the bridge's *)

Lemma get_bit_app l r i :
  get_bit (l ++ r) i = if (i <? 8 * length l)%nat then get_bit l i else get_bit r (i - 8 * length l).
Proof using Type.
  unfold get_bit. destruct (Nat.ltb_spec i (8 * length l)).
  - rewrite app_nth1; [done|]. apply Nat.Div0.div_lt_upper_bound; lia.
  - replace (i / 8)%nat with (length l + (i - 8 * length l) / 8)%nat.
    + rewrite app_nth2_plus. f_equal. rewrite <- (Nat.Div0.mod_add (i - 8 * length l) (length l) 8). f_equal. lia.
    + rewrite <- Nat.div_add_l by lia. f_equal. lia.
Qed.

Lemma cell_of_bits c d :
  Cell_ok c -> cell_bits c = get_bit d <$> seq 0 (8 * length d) -> bit_len c = (8 * length d)%nat /\ data c = d.
Proof using Type.
  intros [Hl Hz] Hb. assert (bit_len c = (8 * length d)%nat) as Hn.
  { rewrite <- length_cell_bits, Hb. by rewrite length_fmap, length_seq. }
  split; [done|]. apply get_bit_ext.
  { rewrite Hl, Hn. replace (8 * length d + 7)%nat with (length d * 8 + 7)%nat by lia.
    rewrite Nat.div_add_l by lia. cbn. lia. }
  intros i. destruct (Nat.lt_ge_cases i (8 * length d)) as [Hi|Hi].
  - pose proof (cell_bits_lookup c i ltac:(lia)) as E. rewrite Hb, list_lookup_fmap, lookup_seq_lt in E by done.
    by injection E.
  - rewrite Hz by lia. symmetry. by apply get_bit_beyond.
Qed.

(** A cell of whole bytes and no references hashes as its two descriptor bytes and the data. *)
Lemma plain_cell_hash c d :
  Cell_ok c -> refs c = [] -> cell_bits c = get_bit d <$> seq 0 (8 * length d) ->
  repr_hash c = sha256 ([Byte.x00; byte_of_Z (2 * Z.of_nat (length d))] ++ d).
Proof using Type.
  intros Hc Hr Hb. destruct (cell_of_bits c d Hc Hb) as [Hn Hd]. rewrite repr_hash_preimage. f_equal.
  unfold repr_preimage, descriptor, augmented_data. rewrite Hr, Hn, Hd.
  replace (8 * length d)%nat with (length d * 8)%nat by lia.
  rewrite Nat.Div0.mod_mul, Nat.div_mul by lia. cbn [Nat.eqb fmap list_fmap mjoin list_join]. by rewrite !app_nil_r.
Qed.

Lemma u256_bits (c : Cell) (h : Hash32) :
  Cell_ok c -> Cell_ok (store_u256 c h) /\ cell_bits (store_u256 c h) = cell_bits c ++ (get_bit h <$> seq 0 256)
  /\ refs (store_u256 c h) = refs c.
Proof using Type. intros Hc. apply (store_bits_appends c h 256 Hc). Qed.

Lemma hashLeaf_eq x : length x = 32%nat -> hashLeaf x = hash_leaf x.
Proof using Type.
  intros Hx. destruct (u256_bits empty_builder x empty_builder_ok) as (H1 & H2 & H3).
  rewrite empty_builder_bits in H2. unfold hashLeaf. rewrite (plain_cell_hash _ x H1 H3) by (rewrite H2, Hx; done).
  by rewrite Hx.
Qed.

Lemma hashPair_eq l r : length l = 32%nat -> length r = 32%nat -> hashPair l r = hash_node l r.
Proof using Type.
  intros Hl Hr. destruct (u256_bits empty_builder l empty_builder_ok) as (H1 & H2 & H3).
  destruct (u256_bits (store_u256 empty_builder l) r H1) as (G1 & G2 & G3).
  rewrite H2, empty_builder_bits in G2. rewrite H3 in G3. unfold hashPair.
  rewrite (plain_cell_hash _ (l ++ r) G1 G3).
  - rewrite length_app, Hl, Hr. by rewrite app_assoc.
  - rewrite G2. cbn [app]. rewrite length_app, Hl, Hr. change (8 * (32 + 32))%nat with (256 + 256)%nat.
    rewrite seq_app, fmap_app. f_equal.
    + apply list_fmap_ext. intros i j E. apply lookup_seq in E as [-> Hi].
      rewrite get_bit_app, Hl. by rewrite (proj2 (Nat.ltb_lt _ _)) by lia.
    + change (0 + 256)%nat with (256 + 0)%nat. rewrite <- fmap_add_seq, <- list_fmap_compose.
      apply list_fmap_ext. intros i j E. apply lookup_seq in E as [-> Hi]. cbn [compose].
      rewrite get_bit_app, Hl. rewrite (proj2 (Nat.ltb_ge _ _)) by lia. f_equal. lia.
Qed.

(** ** Walking the chain the bridge builds *)

Definition step_cell (s : bool * Hash32) (next : option Cell) : Cell :=
  store_maybe_ref (store_u256 (store_uint empty_builder (if s.1 : bool then 1 else 0) 1) s.2) next.

Lemma load_step_cell s next : length s.2 = 32%nat -> load_step (step_cell s next) = Some (s.1, s.2, next).
Proof using Type.
  destruct s as [d h]. cbn [fst snd]. intros Hh. unfold step_cell. cbn [fst snd].
  replace (if d then 1 else 0) with (Z.b2z d) by (by destruct d).
  destruct (store_bit_appends empty_builder d empty_builder_ok) as (H1 & H2 & H3).
  destruct (u256_bits _ h H1) as (G1 & G2 & G3). destruct (store_maybe_ref_spec _ next G1) as (_ & F2 & F3).
  rewrite G2, H2, empty_builder_bits in F2. rewrite G3, H3 in F3. cbn [app refs empty_builder] in F2, F3.
  set (c := store_maybe_ref _ next) in *. unfold load_step. set (p := parser c).
  assert (rest p = [d] ++ (get_bit h <$> seq 0 256) ++ [root_bit next]) as Hr
    by (unfold rest, p; cbn [parser p_bit p_cell]; by rewrite drop_0, F2).
  rewrite (load_bit_cons p d _ Hr). pose proof (rest_advance p [d] _ Hr) as Hr1. cbn [length] in Hr1.
  pose proof (parser_ok_rest p _ _ Hr) as Hp0. pose proof (advance_ok p [d] _ Hr Hp0) as Hp1. cbn [length] in Hp1.
  destruct (reads_rest (fun p => load_bits p 256) (get_bit h <$> seq 0 256) h (advance p 1) [root_bit next])
    as (p2 & -> & Hp2 & Hr2 & Hn2 & Hc2); [|done|done|].
  { apply reads_bits; [by rewrite Hh|]. intros i Hi. apply get_bit_beyond. rewrite Hh. lia. }
  destruct (read_dict_spec next p2 [] []) as (p3 & -> & Hp3 & Hr3 & Hc3 & Hd3); [done|done| |].
  { rewrite Hn2, Hc2. unfold advance, p. cbn [p_next_ref p_cell parser]. by rewrite drop_0, F3, app_nil_r. }
  unfold remaining_bits, remaining_refs. rewrite <- rest_length, Hr3. apply (f_equal length) in Hd3.
  rewrite length_drop in Hd3. cbn [length] in Hd3. rewrite Hd3. done.
Qed.

Lemma proof_cell_cons d h ss :
  build_merkle_proof_cell (mkProof [] ((d, h) :: ss))
  = Some (step_cell (d, h) (build_merkle_proof_cell (mkProof [] ss))).
Proof using Type. unfold build_merkle_proof_cell. cbn [siblings rev]. by rewrite foldl_app. Qed.

Lemma proof_cell_leaf lf lf' ss :
  build_merkle_proof_cell (mkProof lf ss) = build_merkle_proof_cell (mkProof lf' ss).
Proof using Type. done. Qed.

Definition siblings_ok (ss : list (bool * Hash32)) : Prop := Forall (fun s => length s.2 = 32%nat) ss.

Context {CL : CryptoLaws C}.

Lemma fold_step_length acc s : length (fold_step acc s) = 32%nat.
Proof using CL. unfold fold_step. destruct s.1; apply sha256_len. Qed.

Lemma walk_built left acc ss :
  siblings_ok ss -> length acc = 32%nat ->
  walk_proof left acc (build_merkle_proof_cell (mkProof [] ss))
  = if (length ss <=? left)%nat then Ok (foldl fold_step acc ss) else Err PROOF_TOO_DEEP.
Proof using CL.
  intros Hs. revert left acc. induction Hs as [|[d h] ss Hh Hs IH]; intros left acc Ha; [by destruct left|].
  rewrite proof_cell_cons. destruct left as [|left]; [done|]. cbn [walk_proof length Nat.leb].
  rewrite (load_step_cell (d, h)) by done. cbn [foldl fst snd].
  replace (if d then hashPair h acc else hashPair acc h) with (fold_step acc (d, h)).
  - apply IH, fold_step_length.
  - unfold fold_step. cbn [fst snd] in *. destruct d; by rewrite hashPair_eq.
Qed.

Lemma walk_root (proof : InclusionProof) :
  length (leaf proof) = 32%nat -> siblings_ok (siblings proof) ->
  computeRootFromProof (leaf proof) (build_merkle_proof_cell proof)
  = if (length (siblings proof) <=? MAX_MERKLE_PROOF_DEPTH)%nat then Ok (computed_root proof) else Err PROOF_TOO_DEEP.
Proof using CL.
  destruct proof as [lf ss]. cbn [leaf siblings]. intros Hl Hs. unfold computeRootFromProof, computed_root.
  cbn [leaf siblings]. rewrite (proof_cell_leaf lf [] ss), walk_built, hashLeaf_eq; [done|done|done|].
  rewrite hashLeaf_eq by done. apply sha256_len.
Qed.
End contract.

(** ** Proofs of an epoch fit the contract's limits *)

Section limits.
Context {C : Crypto} {CL : CryptoLaws C}.

Lemma collect_siblings_length lvls idx : (length (collect_siblings lvls idx) <= length lvls - 1)%nat.
Proof using Type.
  revert idx. induction lvls as [|lv lvls IH]; intros idx; [done|]. cbn [collect_siblings].
  destruct lvls as [|lv' lvls]; [done|]. rewrite length_app. specialize (IH (idx / 2)%nat). cbn [length] in *.
  destruct (Nat.even idx), (lv !! _); cbn [length]; lia.
Qed.

(** Each level halves, rounding up. *)
Lemma levels_length {A} (node : A -> A -> A) fuel k cur :
  Z.of_nat (length cur) <= 2 ^ Z.of_nat k -> (length (levels_from node fuel cur) <= S k)%nat.
Proof using Type.
  revert k cur. induction fuel as [|fuel IH]; intros k cur Hk; cbn [levels_from length]; [lia|].
  destruct (Nat.ltb_spec 1 (length cur)); [|cbn [length]; lia].
  destruct k as [|k]; [change (2 ^ Z.of_nat 0) with 1 in Hk; lia|]. cbn [length]. apply le_n_S, IH.
  rewrite pair_up_length, Nat2Z.inj_div. rewrite Nat2Z.inj_succ, Z.pow_succ_r in Hk by lia.
  apply Z.lt_succ_r, Z.div_lt_upper_bound; lia.
Qed.

Lemma pair_up_hashes cur :
  Forall (fun h : Hash32 => length h = 32%nat) cur -> Forall (fun h : Hash32 => length h = 32%nat) (pair_up hash_node cur).
Proof using CL.
  revert cur. fix IH 1. intros [|l [|r cur]] H; [done|done|]. cbn [pair_up].
  apply Forall_cons_2; [apply sha256_len|]. apply IH. by do 2 apply Forall_cons in H as [_ H].
Qed.

Lemma levels_hashes fuel cur :
  Forall (fun h : Hash32 => length h = 32%nat) cur ->
  Forall (Forall (fun h : Hash32 => length h = 32%nat)) (levels_from hash_node fuel cur).
Proof using CL.
  revert cur. induction fuel as [|fuel IH]; intros cur H; cbn [levels_from]; [by apply Forall_cons_2|].
  destruct (_ <? _)%nat; [|by apply Forall_cons_2]. apply Forall_cons_2; [done|]. by apply IH, pair_up_hashes.
Qed.

Lemma collect_siblings_ok lvls idx :
  Forall (Forall (fun h : Hash32 => length h = 32%nat)) lvls -> siblings_ok (collect_siblings lvls idx).
Proof using Type.
  intros H. revert idx. induction H as [|lv lvls Hlv Hl IH]; intros idx; [constructor|]. cbn [collect_siblings].
  destruct lvls as [|lv' lvls]; [constructor|]. apply Forall_app. split; [|apply IH].
  destruct (Nat.even idx), (lv !! _) eqn:E; try constructor; try done;
    cbn [snd]; by apply (Forall_lookup_1 _ _ _ _ Hlv E).
Qed.

Lemma build_proof_siblings values idx p :
  build_proof values idx = Some p ->
  siblings p = collect_siblings (levels_from hash_node (length values) (hash_leaf <$> values)) idx.
Proof using Type.
  unfold build_proof, levels. destruct (values !! idx); [|done]. destruct values; [done|]. by intros [= <-].
Qed.

Lemma epoch_proof values idx v :
  values !! idx = Some v -> Z.of_nat (length values) <= 2 ^ 32 ->
  exists p, build_proof values idx = Some p /\ leaf p = v /\ Some (computed_root p) = try_merkle_root values
    /\ siblings_ok (siblings p) /\ (length (siblings p) <= MAX_MERKLE_PROOF_DEPTH)%nat.
Proof using CL.
  intros Hv Hn. destruct (build_proof_verifies values idx v Hv) as (p & Ep & Hl & Hr).
  exists p. do 3 (split; [done|]). rewrite (build_proof_siblings values idx p Ep). split.
  - apply collect_siblings_ok, levels_hashes. apply Forall_fmap, Forall_forall. intros y _. apply sha256_len.
  - pose proof (levels_length hash_node (length values) 32 (hash_leaf <$> values)) as H. rewrite length_fmap in H. specialize (H Hn).
    pose proof (collect_siblings_length (levels_from hash_node (length values) (hash_leaf <$> values)) idx).
    unfold MAX_MERKLE_PROOF_DEPTH. lia.
Qed.
End limits.

(** ** Anchoring and disputing (RecordAnchor.tolk) *)

Record DisputeInfo := mkDispute {
  d_challenger : WalletAddress; d_epoch : Z; d_leaf : Hash32; d_bond : Amount; d_status : Z;
}.

Record AnchorStorage := mkAnchor {
  currentEpoch : Z; lastRoot : Hash32; nextDisputeId : Z;
  disputes : gmap Z DisputeInfo; roots : gmap Z Hash32;
  minStakeWeight : Amount; disputeBondMin : Amount; keeper : WalletAddress;
}.

Definition MIN_DISPUTE_BOND_FLOOR : Amount := 10000000.
Definition zero_hash : Hash32 := le_bytes 32 0.

(** [AnchorStorage.save]: serialising a field that does not fit its width throws. *)
Definition save (s : AnchorStorage) : result AnchorStorage ErrCode :=
  if (0 <=? currentEpoch s) && (currentEpoch s <=? umax 32) && (0 <=? nextDisputeId s) && (nextDisputeId s <=? umax 32)
  then Ok s else Err RANGE_CHECK.

Section handlers.
Context {C : Crypto}.

Definition on_submit_root (s : AnchorStorage) (sender : WalletAddress) (epoch : Z) (root prev : Hash32) (weight : Amount)
  : result AnchorStorage ErrCode :=
  if negb (bool_decide (sender = keeper s)) then Err NOT_ANCHOR_KEEPER
  else if disputeBondMin s <? MIN_DISPUTE_BOND_FLOOR then Err BOND_FLOOR_TOO_LOW
  else if bool_decide (root = zero_hash) then Err ZERO_ROOT
  else if negb (epoch =? currentEpoch s + 1) then Err EPOCH_REGRESSION
  else if negb (bool_decide (prev = lastRoot s)) then Err BAD_PREV_ROOT
  else if weight <? minStakeWeight s then Err INSUFFICIENT_ANCHOR_STAKE
  else save (mkAnchor epoch root (nextDisputeId s) (disputes s) (<[epoch := root]> (roots s))
             (minStakeWeight s) (disputeBondMin s) (keeper s)).

Definition on_open_dispute (s : AnchorStorage) (sender : WalletAddress) (value : Amount) (epoch : Z) (lf : Hash32)
    (proof : option Cell) : result AnchorStorage ErrCode :=
  if value <? disputeBondMin s then Err DISPUTE_BOND_TOO_LOW
  else match roots s !! epoch with
  | None => Err UNKNOWN_EPOCH
  | Some anchoredRoot =>
      recomputed <-? computeRootFromProof lf proof ;;
      if negb (bool_decide (recomputed = anchoredRoot)) then Err BAD_INCLUSION_PROOF
      else let id := nextDisputeId s in
           save (mkAnchor (currentEpoch s) (lastRoot s) (id + 1)
                   (<[id := mkDispute sender epoch lf value 0]> (disputes s)) (roots s)
                   (minStakeWeight s) (disputeBondMin s) (keeper s))
  end.

Definition dispute_header (q epoch : Z) (lf : Hash32) : list Field :=
  [FUint OP_ANCHOR_OPEN_DISPUTE 32; FUint q 64; FUint epoch 32; FU256 lf].

(** The contract parses the message, which must hold nothing else, and handles it. *)
Definition receive_dispute (s : AnchorStorage) (sender : WalletAddress) (value : Amount) (body : Cell)
  : result AnchorStorage ErrCode :=
  match load_all (dispute_header 0 0 zero_hash) (parser body) with
  | (Some [FUint op _; FUint _ _; FUint epoch _; FU256 lf], p) =>
      match read_dict p with
      | (Some proof, p) =>
          if (op =? OP_ANCHOR_OPEN_DISPUTE) && (remaining_bits p =? 0)%nat && (remaining_refs p =? 0)%nat
          then on_open_dispute s sender value epoch lf proof else Err CELL_UNDERFLOW
      | _ => Err CELL_UNDERFLOW
      end
  | _ => Err CELL_UNDERFLOW
  end.

Lemma receive_built_dispute s sender value q epoch proof :
  in_u 64 q -> in_u 32 epoch -> length (leaf proof) = 32%nat ->
  receive_dispute s sender value (body_cell (build_anchor_open_dispute q epoch (leaf proof) proof))
  = on_open_dispute s sender value epoch (leaf proof) (build_merkle_proof_cell proof).
Proof using Type.
  intros Hq He Hl. set (lf := leaf proof) in *. set (h := dispute_header q epoch lf).
  assert (Forall Field_wf h) as Hf.
  { repeat apply Forall_cons_2; [| | | |constructor]; cbn [Field_wf]; (split; [done|lia]) || done. }
  unfold build_anchor_open_dispute, receive_dispute, b_maybe_ref. cbn [finish body_cell cb].
  autorewrite with message_cells. change (store_field _ (FU256 lf)) with (foldl store_field empty_builder h).
  destruct (store_all_spec h empty_builder empty_builder_ok) as (H1 & H2 & H3). rewrite empty_builder_bits in H2.
  set (c := foldl store_field empty_builder h) in *. set (pr := build_merkle_proof_cell proof) in *.
  destruct (store_maybe_ref_spec c pr H1) as (_ & G2 & G3). rewrite H2 in G2. rewrite H3 in G3.
  destruct (load_built h _ _ _ Hf G2 G3) as (p1 & E1 & F1 & F2 & F3).
  rewrite (load_all_shape _ h) by (repeat (constructor; [exact eq_refl || exact I|]); constructor).
  rewrite E1. cbn iota. rewrite <- (app_nil_r (root_refs pr)), <- F2 in F3.
  destruct (read_dict_spec pr p1 [] [] (parser_ok_rest _ _ _ F1) F1 F3) as (p2 & -> & P2 & K1 & K2 & K3).
  apply (f_equal length) in K3. rewrite length_drop in K3. cbn [length] in K3.
  unfold remaining_bits, remaining_refs. rewrite <- rest_length, K1, K3. done.
Qed.
End handlers.

Section disputes.
Context {C : Crypto} {CL : CryptoLaws C}.

(** C33: a dispute can be opened against every record of an anchored epoch, and only
    against one.  Let the storage be one the contract could have loaded (epoch and
    dispute counter of 32 bits), the epoch anchored with up to 2^32 records and the bond
    sufficient.  The contract takes the message the bridge builds from its own proof of
    any record of the epoch and files it under the next id with the sender, epoch, record
    and bond, leaving everything else as it was - until the counter is at its last value,
    2^32 - 1, where the incremented counter no longer fits and the message fails.  A
    message built from any proof of more than 32 steps is refused as too deep; and if a
    message built from any proof with 32-byte hashes is accepted, the leaf is a record of
    that epoch, unless sha256 collides. *)
Theorem dispute_iff_anchored (s : AnchorStorage) (values : list Hash32) (t : tree) (root : Hash32) (q epoch value : Z)
    (sender : WalletAddress) :
  merkle_tree values = Some t -> try_merkle_root values = Some root -> roots s !! epoch = Some root ->
  Z.of_nat (length values) <= 2 ^ 32 -> disputeBondMin s <= value -> in_u 64 q -> in_u 32 epoch ->
  in_u 32 (currentEpoch s) -> in_u 32 (nextDisputeId s) ->
  (forall idx v, values !! idx = Some v -> length v = 32%nat ->
     exists p, build_proof values idx = Some p
       /\ receive_dispute s sender value (body_cell (build_anchor_open_dispute q epoch v p))
          = if nextDisputeId s =? umax 32 then Err RANGE_CHECK
            else Ok (mkAnchor (currentEpoch s) (lastRoot s) (nextDisputeId s + 1)
                       (<[nextDisputeId s := mkDispute sender epoch v value 0]> (disputes s)) (roots s)
                       (minStakeWeight s) (disputeBondMin s) (keeper s)))
  /\ (forall p, length (leaf p) = 32%nat -> siblings_ok (siblings p) -> (MAX_MERKLE_PROOF_DEPTH < length (siblings p))%nat ->
        receive_dispute s sender value (body_cell (build_anchor_open_dispute q epoch (leaf p) p)) = Err PROOF_TOO_DEEP)
  /\ (forall p s', length (leaf p) = 32%nat -> proof_ok p -> NoCollision sha256 (proof_queries p ++ tree_queries t) ->
        receive_dispute s sender value (body_cell (build_anchor_open_dispute q epoch (leaf p) p)) = Ok s' ->
        leaf p ∈ values).
Proof using CL.
  intros Ht Hroot Hr Hn Hb Hq He Hce Hid. split; [|split].
  - intros idx v Hv Hl. destruct (epoch_proof values idx v Hv Hn) as (p & Ep & El & Er & Hs & Hd).
    exists p. split; [done|]. subst v. rewrite receive_built_dispute by done. unfold on_open_dispute.
    rewrite (proj2 (Z.ltb_ge _ _) Hb), Hr, walk_root by done. rewrite (proj2 (Nat.leb_le _ _) Hd). cbn [res_bind].
    rewrite Hroot in Er. injection Er as ->. rewrite bool_decide_true by done. cbn [negb]. unfold save, in_u, umax in *. cbn [currentEpoch nextDisputeId].
    destruct (Z.leb_spec 0 (currentEpoch s)), (Z.leb_spec (currentEpoch s) (2 ^ 32 - 1)), (Z.leb_spec 0 (nextDisputeId s + 1)),
      (Z.leb_spec (nextDisputeId s + 1) (2 ^ 32 - 1)), (Z.eqb_spec (nextDisputeId s) (2 ^ 32 - 1)); cbn [andb]; done || lia.
  - intros p Hpl Hp Hd. rewrite receive_built_dispute by done. unfold on_open_dispute.
    rewrite (proj2 (Z.ltb_ge _ _) Hb), Hr, walk_root by done. by rewrite (proj2 (Nat.leb_gt _ _) Hd).
  - intros p s' Hpl Hp Hc. rewrite receive_built_dispute by done. unfold on_open_dispute.
    rewrite (proj2 (Z.ltb_ge _ _) Hb), Hr, walk_root by done.
    destruct (_ <=? _)%nat; [|done]. cbn [res_bind].
    destruct (bool_decide_reflect (computed_root p = root)) as [E|]; [|done]. intros _.
    assert (values <> []) as Hne by (by intros ->).
    destruct (merkle_tree_spec values Hne) as (t' & Ht' & Hlt & Hrt). rewrite Ht' in Ht. injection Ht as ->.
    rewrite Hrt in Hroot. injection Hroot as <-.
    apply (verified_leaf (tree_hash t) p values t); try done. by apply bool_decide_eq_true.
Qed.
End disputes.

Definition anchor_example : AnchorStorage :=
  mkAnchor 4 (merkle_root (C := toy_crypto) epoch_example) 7 ∅
    {[ 4 := merkle_root (C := toy_crypto) epoch_example ]} 1000 20000000 (addr_example Byte.x0c).

Lemma dispute_iff_anchored_witness :
  let s := anchor_example in let sender := addr_example Byte.x44 in
  exists v p, epoch_example !! 1%nat = Some v /\ build_proof (C := toy_crypto) epoch_example 1 = Some p
    /\ receive_dispute (C := toy_crypto) s sender 30000000 (body_cell (build_anchor_open_dispute 5 4 v p))
       = Ok (mkAnchor 4 (lastRoot s) 8 (<[7 := mkDispute sender 4 v 30000000 0]> (disputes s)) (roots s)
               1000 20000000 (addr_example Byte.x0c)).
Proof.
  destruct (dispute_iff_anchored (C := toy_crypto) (CL := toy_laws) anchor_example epoch_example tree_example
    (merkle_root (C := toy_crypto) epoch_example) 5 4 30000000 (addr_example Byte.x44)) as (H & _);
    [reflexivity|reflexivity|reflexivity|decide_closed..|].
  destruct (epoch_example !! 1%nat) as [v|] eqn:Ev; [|discriminate Ev].
  destruct (H 1%nat v Ev) as (p & Ep & Er); [vm_compute in Ev; injection Ev as <-; reflexivity|].
  exists v, p. split; [reflexivity|]. split; [exact Ep|]. exact Er.
Defined.
