(* ===== verification/TonRail.v ===== *)
(** * The TON rail (crates/settlement/src/ton.rs, the clients)

    The escrow rail, the stake registry, the record anchor and the parameter reader
    over an abstract transport.  The transport ([TonRpc]) is code outside the
    program: a record of operations on a network state of any type.  A computation
    threads the query-id counter and the network state, can fail with a
    [SettleError], and can panic ([None]: a dictionary with two equal keys). *)

From S2P Require Import Prelude Bytes F64 Crypto Text Proto Merkle Settlement Escrow Cell Dict Boc TonAbi EscrowAbi.

(** ** The transport *)

Record TonRpc (N : Type) := mkRpc {
  send_internal : N -> WalletAddress -> Amount -> MessageBody -> result bytes SettleError * N;
  run_get_int : N -> WalletAddress -> bytes -> result Z SettleError * N;
  run_get_address : N -> WalletAddress -> bytes -> result (option WalletAddress) SettleError * N;
  deploy : N -> WalletAddress -> Amount -> Cell -> MessageBody -> result bytes SettleError * N;
  run_get_anchor_state : N -> WalletAddress -> result (option (Z * Hash32)) SettleError * N;
  last_tx_lt : N -> WalletAddress -> result Z SettleError * N;
  await_confirmation : N -> WalletAddress -> Z -> Z -> result unit SettleError * N;
  now_secs_u32 : N -> Z;
}.
Arguments send_internal {N}. Arguments run_get_int {N}. Arguments run_get_address {N}. Arguments deploy {N}.
Arguments run_get_anchor_state {N}. Arguments last_tx_lt {N}. Arguments await_confirmation {N}. Arguments now_secs_u32 {N}.

Definition CONFIRM_TIMEOUT_SECS : Z := 90.

(** The trait's defaults and the transport that is always off. *)
Definition NullTonRpc (clock : Z) : TonRpc unit :=
  mkRpc unit
    (fun n _ _ _ => (Err (Backend (str "live TON RPC disabled (build with feature `ton-live` and configure an endpoint)")), n))
    (fun n _ _ => (Err (Backend (str "live TON RPC disabled")), n))
    (fun n _ _ => (Ok None, n))
    (fun n _ _ _ _ => (Err (Backend (str "deploy is not supported by this transport")), n))
    (fun n _ => (Ok None, n)) (fun n _ => (Ok 0, n)) (fun n _ _ _ => (Ok tt, n)) (fun _ => clock).

(** ** Computations *)

Record Client (N : Type) := mkClient { qid : Z; net : N }.
Arguments mkClient {N}. Arguments qid {N}. Arguments net {N}.

Definition io (N A : Type) : Type := Client N -> option (result A SettleError * Client N).
#[global] Instance io_ret N : MRet (io N) := fun A a s => Some (Ok a, s).
#[global] Instance io_bind N : MBind (io N) := fun A B k m s =>
  match m s with
  | None => None
  | Some (Err e, s') => Some (Err e, s')
  | Some (Ok a, s') => k a s'
  end.

Definition fail {N A} (e : SettleError) : io N A := fun s => Some (Err e, s).
Definition lift {N A} (r : result A SettleError) : io N A := fun s => Some (r, s).
(** A computation that does not return. *)
Definition or_panic {N A} (o : option A) : io N A :=
  fun s => match o with Some a => Some (Ok a, s) | None => None end.
Definition call {N A} (f : N -> result A SettleError * N) : io N A :=
  fun s => let (r, n) := f (net s) in Some (r, mkClient (qid s) n).
Definition clock {N} (R : TonRpc N) : io N Z := fun s => Some (Ok (now_secs_u32 R (net s)), s).

(** [QueryIdGen]: starts at 1; [fetch_add] wraps. *)
Definition first_qid : Z := 1.
Definition next_qid {N} : io N Z := fun s => Some (Ok (qid s), mkClient (wrap 64 (qid s + 1)) (net s)).

(** What a successful run went through. *)
Lemma bind_ok {N A B} (m : io N A) (k : A -> io N B) s b s' :
  (m ≫= k) s = Some (Ok b, s') <-> exists a s1, m s = Some (Ok a, s1) /\ k a s1 = Some (Ok b, s').
Proof.
  unfold mbind, io_bind. destruct (m s) as [[[a|e] s1]|].
  - split; [by eauto|]. intros (a' & s1' & [= <- <-] & H). done.
  - split; [done|]. by intros (? & ? & [=] & _).
  - split; [done|]. by intros (? & ? & [=] & _).
Qed.

Lemma call_ok {N A} (f : N -> result A SettleError * N) s a s' :
  call f s = Some (Ok a, s') <-> f (net s) = (Ok a, net s') /\ qid s' = qid s.
Proof.
  unfold call. destruct (f (net s)) as [r n]. destruct s' as [q' n']. cbn [qid net]. split.
  - by intros [= -> <- ->].
  - intros [[= -> ->] ->]. done.
Qed.

(** Every computation but a panicking conversion ends. *)
Definition total_io {N A} (m : io N A) : Prop := forall s, m s <> None.
Lemma bind_total {N A B} (m : io N A) (k : A -> io N B) : total_io m -> (forall a, total_io (k a)) -> total_io (m ≫= k).
Proof.
  intros Hm Hk s. unfold mbind, io_bind. specialize (Hm s). destruct (m s) as [[[a|e] s1]|]; [apply Hk|done|done].
Qed.
Lemma call_total {N A} (f : N -> result A SettleError * N) : total_io (call f).
Proof. intros s. unfold call. by destruct (f (net s)). Qed.
Lemma ret_total {N A} (a : A) : total_io (mret (M := io N) a).
Proof. done. Qed.
Lemma next_qid_total {N} : total_io (@next_qid N).
Proof. done. Qed.
Lemma or_panic_total {N A} (o : option A) : is_Some o -> total_io (@or_panic N A o).
Proof. by intros [a ->]. Qed.

Create HintDb rail.
#[export] Hint Resolve bind_total call_total ret_total next_qid_total or_panic_total : rail.

(** ** The escrow rail *)

Record TonSettlement := mkTonSettlement {
  ts_escrow_code : option Cell;
  ts_terms : Cell;
  ts_arbiter : WalletAddress;
  ts_requester : option WalletAddress;
  ts_treasury : option WalletAddress;
  ts_escrow_window_secs : Z;
  ts_deploy_gas_buffer : Amount;
  ts_settle_gas : Amount;
  ts_candidates : list WalletAddress;
  ts_platform_fee_bps : Z;
  ts_participation_commission_bps : Z;
}.

Definition BASECHAIN : Z := 0.

Definition ton_new : TonSettlement :=
  mkTonSettlement None empty_builder (mkWallet BASECHAIN (le_bytes 32 0)) None None 3600 0 0 [] 0 0.
Definition with_escrow_code (escrow_code terms : Cell) (arbiter : WalletAddress) : TonSettlement :=
  mkTonSettlement (Some escrow_code) terms arbiter None None 3600 0 0 [] 0 0.

Definition with_platform_fee_bps (t : TonSettlement) (v : Z) : TonSettlement :=
  mkTonSettlement (ts_escrow_code t) (ts_terms t) (ts_arbiter t) (ts_requester t) (ts_treasury t)
    (ts_escrow_window_secs t) (ts_deploy_gas_buffer t) (ts_settle_gas t) (ts_candidates t) v (ts_participation_commission_bps t).
Definition with_participation_commission_bps (t : TonSettlement) (v : Z) : TonSettlement :=
  mkTonSettlement (ts_escrow_code t) (ts_terms t) (ts_arbiter t) (ts_requester t) (ts_treasury t)
    (ts_escrow_window_secs t) (ts_deploy_gas_buffer t) (ts_settle_gas t) (ts_candidates t) (ts_platform_fee_bps t) v.
Definition with_requester (t : TonSettlement) (w : WalletAddress) : TonSettlement :=
  mkTonSettlement (ts_escrow_code t) (ts_terms t) (ts_arbiter t) (Some w) (ts_treasury t)
    (ts_escrow_window_secs t) (ts_deploy_gas_buffer t) (ts_settle_gas t) (ts_candidates t) (ts_platform_fee_bps t)
    (ts_participation_commission_bps t).
Definition with_treasury (t : TonSettlement) (w : WalletAddress) : TonSettlement :=
  mkTonSettlement (ts_escrow_code t) (ts_terms t) (ts_arbiter t) (ts_requester t) (Some w)
    (ts_escrow_window_secs t) (ts_deploy_gas_buffer t) (ts_settle_gas t) (ts_candidates t) (ts_platform_fee_bps t)
    (ts_participation_commission_bps t).
Definition with_escrow_window (t : TonSettlement) (secs : Z) : TonSettlement :=
  mkTonSettlement (ts_escrow_code t) (ts_terms t) (ts_arbiter t) (ts_requester t) (ts_treasury t)
    secs (ts_deploy_gas_buffer t) (ts_settle_gas t) (ts_candidates t) (ts_platform_fee_bps t)
    (ts_participation_commission_bps t).
Definition with_deploy_gas_buffer (t : TonSettlement) (v : Amount) : TonSettlement :=
  mkTonSettlement (ts_escrow_code t) (ts_terms t) (ts_arbiter t) (ts_requester t) (ts_treasury t)
    (ts_escrow_window_secs t) v (ts_settle_gas t) (ts_candidates t) (ts_platform_fee_bps t)
    (ts_participation_commission_bps t).
Definition with_settle_gas (t : TonSettlement) (v : Amount) : TonSettlement :=
  mkTonSettlement (ts_escrow_code t) (ts_terms t) (ts_arbiter t) (ts_requester t) (ts_treasury t)
    (ts_escrow_window_secs t) (ts_deploy_gas_buffer t) v (ts_candidates t) (ts_platform_fee_bps t)
    (ts_participation_commission_bps t).
Definition with_candidates (t : TonSettlement) (cs : list WalletAddress) : TonSettlement :=
  mkTonSettlement (ts_escrow_code t) (ts_terms t) (ts_arbiter t) (ts_requester t) (ts_treasury t)
    (ts_escrow_window_secs t) (ts_deploy_gas_buffer t) (ts_settle_gas t) cs (ts_platform_fee_bps t)
    (ts_participation_commission_bps t).

(** [build_escrow_data] panics only through its empty dictionary, which it never does. *)
Definition escrow_address {C : Crypto} (t : TonSettlement) (rq : WalletAddress) (max_bid : Amount) (deadline : Z)
  : option WalletAddress :=
  code ← ts_escrow_code t;
  Some (from_state_init BASECHAIN code (build_escrow_data (mkEscrowInit rq (ts_arbiter t) max_bid deadline) (ts_terms t))).

Definition no_code : SettleError := Backend (str "open_escrow requires escrow code wiring").
Definition no_requester : SettleError := Backend (str "open_escrow requires a requester wallet").
Definition no_recipient : SettleError := Backend (str "cannot open escrow: platform fee is non-zero but no fee recipient is known (no GlobalParams source wired AND no local treasury configured). Wire a params source or configure the treasury so the fee is not misdirected to the arbiter/coordinator wallet.").

(** The recipient of the platform fee: the chain's, which a local one must equal; else
    the local one; else, only when no fee is charged, the arbiter. *)
Definition choose_treasury (t : TonSettlement) (fee_recipient : option WalletAddress) (version fee_bps : Z)
  : result WalletAddress SettleError :=
  match fee_recipient with
  | Some chain =>
      match ts_treasury t with
      | Some local =>
          if negb (bool_decide (local = chain))
          then Err (TreasuryMismatch (to_raw_string local) (to_raw_string chain) version)
          else Ok chain
      | None => Ok chain
      end
  | None =>
      match ts_treasury t with
      | Some tr => Ok tr
      | None => if fee_bps =? 0 then Ok (ts_arbiter t) else Err no_recipient
      end
  end.

Section rail.
Context {C : Crypto} {N : Type} (R : TonRpc N).

(** The tail both openings share: fund, send, wait. *)
Definition deploy_confirmed (t : TonSettlement) (job : JobId) (max_bid : Amount) (code data : Cell) : io N EscrowHandle :=
  let address := from_state_init BASECHAIN code data in
  let state_init := state_init_cell code data in
  q ← next_qid;
  let body := build_escrow_topup q in
  let deploy_value := sat_add128 max_bid (ts_deploy_gas_buffer t) in
  before ← call (fun n => last_tx_lt R n address);
  _ ← call (fun n => deploy R n address deploy_value state_init body);
  _ ← call (fun n => await_confirmation R n address before CONFIRM_TIMEOUT_SECS);
  mret (mkHandle job address max_bid).

Definition ton_open_escrow (t : TonSettlement) (job : JobId) (max_bid : Amount) : io N EscrowHandle :=
  code ← lift (ok_or (ts_escrow_code t) no_code);
  rq ← lift (ok_or (ts_requester t) no_requester);
  now ← clock R;
  let deadline := sat_add 32 now (ts_escrow_window_secs t) in
  deploy_confirmed t job max_bid code
    (build_escrow_data (mkEscrowInit rq (ts_arbiter t) max_bid deadline) (ts_terms t)).

Definition ton_open_escrow_with_terms (t : TonSettlement) (job : JobId) (max_bid : Amount) (tm : EscrowTerms)
  : io N EscrowHandle :=
  code ← lift (ok_or (ts_escrow_code t) no_code);
  rq ← lift (ok_or (ts_requester t) no_requester);
  let fee_bps := default (ts_platform_fee_bps t) (terms_fee_bps tm) in
  let comm_bps := default (ts_participation_commission_bps t) (terms_comm_bps tm) in
  treasury ← lift (choose_treasury t (fee_recipient tm) (params_version tm) fee_bps);
  let cands := match candidates tm with [] => ts_candidates t | _ => candidates tm end in
  candidates_hash ← or_panic (candidates_commitment cands);
  let terms := build_escrow_terms treasury (expected_hash tm) candidates_hash (params_version tm) fee_bps comm_bps in
  now ← clock R;
  let deadline := sat_add 32 now (ts_escrow_window_secs t) in
  deploy_confirmed t job max_bid code
    (build_escrow_data (mkEscrowInit rq (ts_arbiter t) max_bid deadline) terms).

(** The candidate set a settlement presents. *)
Definition settle_candidate_set (t : TonSettlement) (o : SettlementOutcome) : list WalletAddress :=
  match ts_candidates t with
  | [] => foldl (fun c p => if bool_decide (to p ∈ c) then c else c ++ [to p]) [to (winner o)] (participants o)
  | cs => cs
  end.

Definition ton_settle (t : TonSettlement) (h : EscrowHandle) (o : SettlementOutcome) : io N unit :=
  if h_max_bid h <? total o then fail (PayoutExceedsEscrow (total o) (h_max_bid h))
  else
    q ← next_qid;
    body ← or_panic (build_escrow_settle q (result_hash o) (to (winner o)) (base o) (amount (winner o))
             (platform_fee o) (participants o) (settle_candidate_set t o));
    before ← call (fun n => last_tx_lt R n (h_address h));
    _ ← call (fun n => send_internal R n (h_address h) (ts_settle_gas t) body);
    call (fun n => await_confirmation R n (h_address h) before CONFIRM_TIMEOUT_SECS).

Definition ton_refund (t : TonSettlement) (h : EscrowHandle) : io N unit :=
  q ← next_qid;
  let body := build_escrow_refund q in
  before ← call (fun n => last_tx_lt R n (h_address h));
  _ ← call (fun n => send_internal R n (h_address h) (ts_settle_gas t) body);
  call (fun n => await_confirmation R n (h_address h) before CONFIRM_TIMEOUT_SECS).

(** The rail as the coordinator uses it.  A panic stops the task: no client is left. *)
Definition panicked : SettleError := Backend (str "panicked").
Definition run_io {A} (m : io N A) (s : option (Client N)) : result A SettleError * option (Client N) :=
  match s ≫= m with
  | Some (r, s') => (r, Some s')
  | None => (Err panicked, None)
  end.
Definition ton_rail (t : TonSettlement) : Settlement (option (Client N)) :=
  mkRail _ (fun s job b => run_io (ton_open_escrow t job b) s)
    (fun s job b tm => run_io (ton_open_escrow_with_terms t job b tm) s)
    (fun s h o => run_io (ton_settle t h o) s) (fun s h => run_io (ton_refund t h) s) true.
End rail.

(** What is asked of a transport: its errors are its own, not verdicts on the amounts of
    a settlement. *)
Class TonRpcLaws {N : Type} (R : TonRpc N) : Prop := {
  last_tx_error n a e : (last_tx_lt R n a).1 = Err e -> size_refusal e = false;
  send_error n a v b e : (send_internal R n a v b).1 = Err e -> size_refusal e = false;
  confirm_error n a lt t e : (await_confirmation R n a lt t).1 = Err e -> size_refusal e = false;
}.

#[export] Instance null_rpc_laws clock : TonRpcLaws (NullTonRpc clock).
Proof. split; cbn; try done. by intros ? ? ? ? ? [= <-]. Qed.

(** ** The stake registry *)

Record TonStakeRegistry := mkTonStake {
  sr_min_public : Amount; sr_stake_cap : Amount; sr_vault_code : Cell; sr_vault_config : Cell;
  sr_inits : gmap bytes VaultInit;
}.

Section stake.
Context {C : Crypto} {N : Type} (R : TonRpc N).
(** [SettleError]'s derived [Display]. *)
Context (to_string : SettleError -> bytes).

Definition vault_of (g : TonStakeRegistry) (node : NodeId) : option WalletAddress :=
  init ← sr_inits g !! node;
  Some (from_state_init BASECHAIN (sr_vault_code g) (build_vault_data init (sr_vault_config g))).

Definition ton_stake_of (g : TonStakeRegistry) (node : NodeId) (s : Client N) : Amount * Client N :=
  match vault_of g node with
  | None => (0, s)
  | Some vault =>
      let (r, n) := run_get_int R (net s) vault (str "get_vault_state") in
      (match r with Ok v => if 0 <=? v then v else 0 | Err _ => 0 end, mkClient (qid s) n)
  end.

Definition ton_is_eligible (g : TonStakeRegistry) (node : NodeId) (_ : DataClass) (s : Client N) : bool * Client N :=
  let (v, s) := ton_stake_of g node s in (sr_min_public g <=? v, s).

(** Both stake messages: build, note the last transaction, send, wait. *)
Definition vault_message (vault : WalletAddress) (body : Z -> MessageBody) : io N unit :=
  q ← next_qid;
  before ← call (fun n => last_tx_lt R n vault);
  _ ← call (fun n => send_internal R n vault 0 (body q));
  call (fun n => await_confirmation R n vault before CONFIRM_TIMEOUT_SECS).

Definition stake_result (m : io N unit) (s : Client N) : option (result unit SlashError * Client N) :=
  '(r, s') ← m s;
  Some (match r with Ok _ => Ok tt | Err e => Err (StakeBackend (to_string e)) end, s').

Definition ton_slash (g : TonStakeRegistry) (node : NodeId) (reason : SlashReason) (a : Amount) (s : Client N)
  : option (result unit SlashError * Client N) :=
  match vault_of g node with
  | None => Some (Err (UnknownNode node), s)
  | Some vault => stake_result (vault_message vault (fun q => build_stake_slash q a reason vault)) s
  end.

Definition ton_request_unbond (g : TonStakeRegistry) (node : NodeId) (a : Amount) (s : Client N)
  : option (result unit SlashError * Client N) :=
  match vault_of g node with
  | None => Some (Err (UnknownNode node), s)
  | Some vault => stake_result (vault_message vault (fun q => build_stake_unbond q a)) s
  end.
End stake.

(** ** The record anchor *)

(** The records of the epoch, and the last root submitted. *)
Record TonRecordAnchor := mkTonAnchor { ta_records : anchor_state; ta_prev : Hash32 }.

Section anchor.
Context {C : Crypto} {N : Type} (R : TonRpc N) (anchor : WalletAddress).

Definition ton_anchor_new : TonRecordAnchor := mkTonAnchor [] (le_bytes 32 0).
Definition ton_append (a : TonRecordAnchor) (r : JobRecord) : TonRecordAnchor :=
  mkTonAnchor (append (ta_records a) r) (ta_prev a).
Definition ton_epoch_root (a : TonRecordAnchor) : Hash32 := epoch_root (ta_records a).
Definition ton_prove_inclusion (a : TonRecordAnchor) (job : JobId) : option InclusionProof :=
  prove_inclusion (ta_records a) job.

Definition empty_epoch : SettleError := Backend (str "refusing to anchor an empty epoch (no records)").
Definition zero_root : SettleError := Backend (str "refusing to anchor a zero root").
Definition epoch_desync (epoch onchain : Z) : SettleError :=
  Backend (str "anchor epoch desync: submitting epoch " ++ show_uint epoch
    ++ str " but on-chain currentEpoch is " ++ show_uint onchain
    ++ str " (expected " ++ show_uint (sat_add 32 onchain 1) ++ str ")").

(** The root to chain onto: the chain's last one when it can be read. *)
Definition previous_root (a : TonRecordAnchor) (epoch : Z) : io N Hash32 :=
  live ← call (fun n => run_get_anchor_state R n anchor);
  match live with
  | Some (onchain_epoch, onchain_last) =>
      if negb (epoch =? sat_add 32 onchain_epoch 1) then fail (epoch_desync epoch onchain_epoch) else mret onchain_last
  | None => mret (ta_prev a)
  end.

Definition submit_io (a : TonRecordAnchor) (epoch : Z) (stake_weight : Amount) : io N (bytes * Hash32) :=
  root ← lift (ok_or (try_merkle_root ((ta_records a).*2)) empty_epoch);
  if bool_decide (root = le_bytes 32 0) then fail zero_root
  else
    prev ← previous_root a epoch;
    q ← next_qid;
    before ← call (fun n => last_tx_lt R n anchor);
    res ← call (fun n => send_internal R n anchor 0 (build_anchor_submit q epoch root prev stake_weight));
    _ ← call (fun n => await_confirmation R n anchor before CONFIRM_TIMEOUT_SECS);
    mret (res, root).

(** The tracked root moves only when the submission was confirmed. *)
Definition submit_root (a : TonRecordAnchor) (epoch : Z) (stake_weight : Amount) (s : Client N)
  : option (result bytes SettleError * TonRecordAnchor * Client N) :=
  '(r, s') ← submit_io a epoch stake_weight s;
  Some (match r with
        | Ok (res, root) => (Ok res, mkTonAnchor (ta_records a) root, s')
        | Err e => (Err e, a, s')
        end).
End anchor.

(** ** Reading the platform's parameters *)

Record OnchainPolicy := mkPolicy {
  pol_version : Z; pol_platform_fee_bps : Z; pol_fee_recipient : WalletAddress;
  pol_participation_commission_bps : Z; pol_slash_failed_commitment_bps : Z;
  pol_attempt_deadline_ms : Z; pol_progress_interval_ms : Z; pol_progress_stall_mult : Z;
}.

(** [v.clamp(0, uN::MAX)] *)
Definition clampu (w v : Z) : Z := Z.max 0 (Z.min v (umax w)).

(** The configuration fields the policy overlays. *)
Record PolicyConfig := mkPolicyConfig {
  pc_platform_fee_pct : f64; pc_participation_commission_frac : f64; pc_slash_failed_commitment_pct : f64;
  pc_attempt_deadline_ms : Z; pc_progress_interval_ms : Z; pc_progress_stall_multiplier : Z;
}.

Definition bps_frac (bps : Z) : f64 := fdiv (f64_of_Z bps) (f64_of_Z 10000).

Definition apply_to (p : OnchainPolicy) : PolicyConfig :=
  mkPolicyConfig (bps_frac (pol_platform_fee_bps p)) (bps_frac (pol_participation_commission_bps p))
    (bps_frac (pol_slash_failed_commitment_bps p)) (pol_attempt_deadline_ms p) (pol_progress_interval_ms p)
    (Z.max (pol_progress_stall_mult p) 1).

Section params.
Context {N : Type} (R : TonRpc N) (address : WalletAddress).

Definition params_version_read : io N Z :=
  v ← call (fun n => run_get_int R n address (str "get_params_version")); mret (wrap 32 (Z.max v 0)).
Definition code_version_read : io N Z :=
  v ← call (fun n => run_get_int R n address (str "get_code_version")); mret (wrap 32 (Z.max v 0)).

Definition recipient_unreadable : SettleError :=
  Backend (str "GlobalParams.get_fee_recipient unreadable on this transport").

Definition read_policy : io N OnchainPolicy :=
  let int m := call (fun n => run_get_int R n address (str m)) in
  fr ← call (fun n => run_get_address R n address (str "get_fee_recipient"));
  fee_recipient ← lift (ok_or fr recipient_unreadable);
  version ← int "get_params_version"%string;
  fee ← int "get_platform_fee_bps"%string;
  comm ← int "get_participation_commission_bps"%string;
  slash ← int "get_slash_failed_commitment_bps"%string;
  deadline ← int "get_attempt_deadline_ms"%string;
  interval ← int "get_progress_interval_ms"%string;
  mult ← int "get_progress_stall_mult"%string;
  mret (mkPolicy (clampu 32 version) (clampu 16 fee) fee_recipient (clampu 16 comm) (clampu 16 slash)
          (clampu 32 deadline) (clampu 32 interval) (clampu 8 mult)).

Definition sync_into : io N (OnchainPolicy * PolicyConfig) := p ← read_policy; mret (p, apply_to p).
End params.

(** ** Opening an escrow *)

Definition terms_fields (treasury : WalletAddress) (eh ch : Hash32) (version fee comm : Z) : list Field :=
  [FAddress treasury; FU256 eh; FU256 ch; FUint version 32; FUint fee 16; FUint comm 16].
Definition data_fields (i : EscrowInit) (terms : Cell) : list Field :=
  [FAddress (requester i); FAddress (arbiter i); FCoins (escrow_amount i); FUint (deadline i) 32; FUint 0 1;
   FRef terms; FUint 0 1].

Lemma escrow_terms_fields treasury eh ch version fee comm :
  build_escrow_terms treasury eh ch version fee comm
  = foldl store_field empty_builder (terms_fields treasury eh ch version fee comm).
Proof. unfold build_escrow_terms, terms_fields. cbn [foldl store_field]. reflexivity. Qed.

Lemma escrow_data_fields i terms : build_escrow_data i terms = foldl store_field empty_builder (data_fields i terms).
Proof. unfold build_escrow_data, store_empty_dict, data_fields. cbn [foldl store_field]. reflexivity. Qed.

Lemma state_init_refs code d : refs (state_init_cell code d) = [code; d].
Proof. reflexivity. Qed.

Section opening.
Context {C : Crypto} {CL : CryptoLaws C} {N : Type} (R : TonRpc N).

(** What an opening binds, given the choices made on the way. *)
Definition escrow_state (t : TonSettlement) (tm : EscrowTerms) (rq treasury : WalletAddress) (ch : Hash32)
    (max_bid dl : Z) : Cell :=
  build_escrow_data (mkEscrowInit rq (ts_arbiter t) max_bid dl)
    (build_escrow_terms treasury (expected_hash tm) ch (params_version tm)
       (default (ts_platform_fee_bps t) (terms_fee_bps tm))
       (default (ts_participation_commission_bps t) (terms_comm_bps tm))).

Lemma deploy_confirmed_ok t job b code d s h s' :
  deploy_confirmed R t job b code d s = Some (Ok h, s') ->
  let a := from_state_init BASECHAIN code d in
  h = mkHandle job a b /\ exists lt n1 tx n2,
    last_tx_lt R (net s) a = (Ok lt, n1)
    /\ deploy R n1 a (sat_add128 b (ts_deploy_gas_buffer t)) (state_init_cell code d) (build_escrow_topup (qid s)) = (Ok tx, n2)
    /\ await_confirmation R n2 a lt CONFIRM_TIMEOUT_SECS = (Ok tt, net s').
Proof using Type.
  unfold deploy_confirmed. intros (q & s1 & E & H)%bind_ok. injection E as <- <-.
  apply bind_ok in H as (lt & s2 & [E2 _]%call_ok & H). apply bind_ok in H as (tx & s3 & [E3 _]%call_ok & H).
  apply bind_ok in H as ([] & s4 & [E4 _]%call_ok & H). injection H as <- <-. cbn [net] in *. split; [done|].
  by exists lt, (net s2), tx, (net s3).
Qed.

Lemma open_with_terms_ok t job b tm s h s' :
  ton_open_escrow_with_terms R t job b tm s = Some (Ok h, s') ->
  exists code rq treasury ch,
    ts_escrow_code t = Some code /\ ts_requester t = Some rq
    /\ choose_treasury t (fee_recipient tm) (params_version tm) (default (ts_platform_fee_bps t) (terms_fee_bps tm)) = Ok treasury
    /\ candidates_commitment (match candidates tm with [] => ts_candidates t | _ => candidates tm end) = Some ch
    /\ deploy_confirmed R t job b code
         (escrow_state t tm rq treasury ch b (sat_add 32 (now_secs_u32 R (net s)) (ts_escrow_window_secs t))) s = Some (Ok h, s').
Proof using Type.
  unfold ton_open_escrow_with_terms. intros (code & s1 & E1 & H)%bind_ok. injection E1 as E1 <-.
  apply ok_or_ok in E1. apply bind_ok in H as (rq & s2 & E2 & H). injection E2 as E2 <-. apply ok_or_ok in E2.
  apply bind_ok in H as (tr & s3 & E3 & H). injection E3 as E3 <-.
  apply bind_ok in H as (ch & s4 & E4 & H). unfold or_panic in E4.
  destruct (candidates_commitment _) as [ch'|] eqn:Ec; [|done]. injection E4 as -> <-.
  apply bind_ok in H as (now & s5 & E5 & H). injection E5 as <- <-. exists code, rq, tr, ch. done.
Qed.

(** What a failed call of the transport reports. *)
Lemma call_err {A} (f : N -> result A SettleError * N) s e s' : call f s = Some (Err e, s') -> (f (net s)).1 = Err e.
Proof using Type. unfold call. destruct (f (net s)) as [r n]. by intros [= -> _]. Qed.

Lemma bind_err {A B} (m : io N A) (k : A -> io N B) s e s' :
  (m ≫= k) s = Some (Err e, s') -> m s = Some (Err e, s') \/ exists a s1, m s = Some (Ok a, s1) /\ k a s1 = Some (Err e, s').
Proof using Type. unfold mbind, io_bind. destruct (m s) as [[[a|e'] s1]|]; [by eauto|intros [= -> ->]; by left|done]. Qed.

(** The TON rail locks what it is asked to and never refuses a fitting split for its size. *)
#[export] Instance ton_rail_laws {RL : TonRpcLaws R} (t : TonSettlement) : RailLaws (ton_rail R t).
Proof using Type.
  split.
  - intros s job b tm h s'. cbn [open_escrow_with_terms ton_rail]. unfold run_io. destruct s as [c|]; cbn [mbind option_bind]; [|done].
    destruct (ton_open_escrow_with_terms R t job b tm c) as [[r c']|] eqn:E; [|done]. intros [= -> <-].
    apply open_with_terms_ok in E as (code & rq & tr & ch & _ & _ & _ & _ & H). by apply deploy_confirmed_ok in H as (-> & _).
  - intros s h o e Ht. cbn [settle ton_rail]. unfold run_io. destruct s as [c|]; cbn [mbind option_bind]; [|by intros [= <-]].
    destruct (ton_settle R t h o c) as [[r c']|] eqn:E; [|by intros [= <-]]. cbn [fst]. intros ->. unfold ton_settle in E.
    rewrite (proj2 (Z.ltb_ge _ _) Ht) in E. apply bind_err in E as [E|(q & c1 & _ & E)]; [done|].
    apply bind_err in E as [E|(body & c2 & _ & E)]; [unfold or_panic in E; by destruct (build_escrow_settle _ _ _ _ _ _ _ _)|].
    apply bind_err in E as [E|(lt & c3 & _ & E)]; [apply call_err in E; by apply last_tx_error in E|].
    apply bind_err in E as [E|(tx & c4 & _ & E)]; [apply call_err in E; by apply send_error in E|].
    apply call_err in E. by apply confirm_error in E.
Qed.

(** The rail hands out an escrow only after it is funded on chain: when opening
    with terms succeeds, the handle has the job and exactly the amount asked for,
    its address is that of the state (requester, arbiter, amount, deadline) and
    terms (recipient, expected hash, candidate commitment, version, rates), a
    deployment of that very state with at least the amount was accepted by the
    transport and a later transaction on the address was confirmed; a fee is never
    bound to the arbiter by default, and never to a local recipient that differs
    from the chain's. *)
Theorem escrow_open_confirmed (t : TonSettlement) (job : JobId) (b : Amount) (tm : EscrowTerms) (s s' : Client N) (h : EscrowHandle) :
  in_u 128 b -> 0 <= ts_deploy_gas_buffer t ->
  ton_open_escrow_with_terms R t job b tm s = Some (Ok h, s') ->
  exists code rq treasury ch dl lt n1 tx n2 value,
    let d := escrow_state t tm rq treasury ch b dl in
    h = mkHandle job (from_state_init BASECHAIN code d) b
    /\ ts_escrow_code t = Some code /\ ts_requester t = Some rq
    /\ candidates_commitment (match candidates tm with [] => ts_candidates t | _ => candidates tm end) = Some ch
    /\ b <= value
    /\ deploy R n1 (h_address h) value (state_init_cell code d) (build_escrow_topup (qid s)) = (Ok tx, n2)
    /\ await_confirmation R n2 (h_address h) lt CONFIRM_TIMEOUT_SECS = (Ok tt, net s')
    /\ (0 < default (ts_platform_fee_bps t) (terms_fee_bps tm) ->
        fee_recipient tm = Some treasury \/ (fee_recipient tm = None /\ ts_treasury t = Some treasury))
    /\ (forall local, ts_treasury t = Some local -> treasury = local).
Proof using Type.
  intros Hb Hg H. apply open_with_terms_ok in H as (code & rq & tr & ch & E1 & E2 & E3 & E4 & H).
  apply deploy_confirmed_ok in H as (-> & lt & n1 & tx & n2 & _ & H2 & H3).
  exists code, rq, tr, ch, (sat_add 32 (now_secs_u32 R (net s)) (ts_escrow_window_secs t)), lt, n1, tx, n2,
    (sat_add128 b (ts_deploy_gas_buffer t)).
  cbn zeta. cbn [h_address]. split; [done|]. split; [done|]. split; [done|]. split; [done|].
  split; [unfold sat_add, in_u, umax in *; lia|]. split; [exact H2|]. split; [exact H3|].
  unfold choose_treasury in E3. split.
  - intros Hf. destruct (fee_recipient tm) as [c|], (ts_treasury t) as [l|].
    + destruct (negb _); [done|]. injection E3 as ->. by left.
    + injection E3 as ->. by left.
    + injection E3 as ->. by right.
    + rewrite (proj2 (Z.eqb_neq _ _)) in E3 by lia. done.
  - intros l El. rewrite El in E3. destruct (fee_recipient tm) as [c|].
    + destruct (bool_decide_reflect (l = c)); cbn [negb] in E3; [|done]. congruence.
    + congruence.
Qed.

(** Arguments within the widths of the Rust types and of standard addresses. *)
Definition Escrow_wf (rq arb treasury : WalletAddress) (eh ch : Hash32) (amt dl version fee comm : Z) : Prop :=
  Forall Field_wf (terms_fields treasury eh ch version fee comm)
  /\ Forall Field_wf [FAddress rq; FAddress arb; FCoins amt; FUint dl 32].

Lemma data_fields_wf rq arb treasury eh ch amt dl version fee comm :
  Escrow_wf rq arb treasury eh ch amt dl version fee comm ->
  Forall Field_wf (data_fields (mkEscrowInit rq arb amt dl) (build_escrow_terms treasury eh ch version fee comm)).
Proof using Type.
  intros [_ H]. unfold data_fields. cbn [requester arbiter escrow_amount deadline].
  change (Forall Field_wf ([FAddress rq; FAddress arb; FCoins amt; FUint dl 32]
    ++ [FUint 0 1; FRef (build_escrow_terms treasury eh ch version fee comm); FUint 0 1])).
  apply Forall_app. split; [done|]. repeat apply Forall_cons_2; [split; [done|lia]|done|split; [done|lia]|constructor].
Qed.

Lemma coin_bits_length v : 0 <= v < 2 ^ 120 -> (length (coin_bits v) <= 124)%nat.
Proof using Type.
  intros Hv. unfold coin_bits. rewrite length_app, !length_uint_bits. destruct (coin_bytes_spec v Hv) as (H & _ & _). lia.
Qed.

Lemma escrow_state_tree rq arb treasury eh ch amt dl version fee comm :
  Escrow_wf rq arb treasury eh ch amt dl version fee comm ->
  Tree_ok (build_escrow_data (mkEscrowInit rq arb amt dl) (build_escrow_terms treasury eh ch version fee comm)).
Proof using Type.
  intros [_ H]. rewrite escrow_data_fields. apply Forall_cons in H as [_ H]. apply Forall_cons in H as [_ H].
  apply Forall_cons in H as [Ha _].
  assert (length (address_bits rq) = 267%nat /\ length (address_bits arb) = 267%nat) as [L1 L2]
    by (rewrite <- !address_key_bits_eq; split; apply length_address_key).
  pose proof (coin_bits_length amt Ha). apply built_tree_ok.
  - change (length (address_bits rq ++ address_bits arb ++ coin_bits amt ++ uint_bits dl 32 ++ uint_bits 0 1 ++ [] ++ uint_bits 0 1 ++ []) <= 1023)%nat.
    repeat rewrite length_app. rewrite L1, L2, !length_uint_bits. cbn [length]. lia.
  - change (length [build_escrow_terms treasury eh ch version fee comm] <= 4)%nat. cbn [length]. lia.
  - change (Forall Tree_ok [build_escrow_terms treasury eh ch version fee comm]). apply Forall_singleton.
    rewrite escrow_terms_fields. apply built_tree_ok.
    + change (length (address_bits treasury ++ (get_bit eh <$> seq 0 256) ++ (get_bit ch <$> seq 0 256)
        ++ uint_bits version 32 ++ uint_bits fee 16 ++ uint_bits comm 16 ++ []) <= 1023)%nat.
      repeat rewrite length_app. rewrite <- address_key_bits_eq, length_address_key, !length_fmap, !length_seq, !length_uint_bits.
      unfold ADDRESS_KEY_BITS. cbn [length]. lia.
    + cbn. lia.
    + constructor.
Qed.

(** An escrow address commits to everything that was agreed: two escrows with one
    address were opened with the same requester, arbiter, amount, deadline, fee
    recipient, expected result hash, candidate commitment, parameter version and
    rates, whatever the rails that opened them, unless sha256 collides on the cells
    hashed. *)
Theorem escrow_address_commits (code code' : Cell) (rq rq' arb arb' tr tr' : WalletAddress) (eh eh' ch ch' : Hash32)
    (amt amt' dl dl' v v' fee fee' comm comm' : Z) :
  let d := build_escrow_data (mkEscrowInit rq arb amt dl) (build_escrow_terms tr eh ch v fee comm) in
  let d' := build_escrow_data (mkEscrowInit rq' arb' amt' dl') (build_escrow_terms tr' eh' ch' v' fee' comm') in
  Tree_ok code -> Tree_ok code' ->
  Escrow_wf rq arb tr eh ch amt dl v fee comm -> Escrow_wf rq' arb' tr' eh' ch' amt' dl' v' fee' comm' ->
  NoCollision sha256 (cell_queries (state_init_cell code d) ++ cell_queries (state_init_cell code' d')) ->
  from_state_init BASECHAIN code d = from_state_init BASECHAIN code' d' ->
  (rq, arb, amt, dl) = (rq', arb', amt', dl') /\ (tr, eh, ch, v, fee, comm) = (tr', eh', ch', v', fee', comm').
Proof using CL.
  intros d d' Tc Tc' W W' Hn H.
  pose proof (escrow_state_tree _ _ _ _ _ _ _ _ _ _ W) as Td. pose proof (escrow_state_tree _ _ _ _ _ _ _ _ _ _ W') as Td'.
  fold d in Td. fold d' in Td'. apply (f_equal hash) in H. cbn [from_state_init hash] in H.
  apply (repr_hash_inj _ _ (state_init_tree_ok _ _ Tc Td) (state_init_tree_ok _ _ Tc' Td') Hn) in H.
  apply (f_equal refs) in H. rewrite !state_init_refs in H. apply cons_inj_pair in H as [_ H]. apply cons_inj_pair in H as [H _].
  unfold d, d' in H. rewrite !escrow_data_fields in H. apply fields_inj in H; [|by apply data_fields_wf..|].
  2: { repeat (constructor; [exact eq_refl || exact I|]). constructor. }
  unfold data_fields in H. cbn [requester arbiter escrow_amount deadline] in H. revert H. rewrite !escrow_terms_fields.
  intros H. apply cons_inj_pair in H as [H1 H]. apply cons_inj_pair in H as [H2 H]. apply cons_inj_pair in H as [H3 H].
  apply cons_inj_pair in H as [H4 H]. apply cons_inj_pair in H as [_ H]. apply cons_inj_pair in H as [H5 _].
  apply (f_equal field_refs) in H5. cbn [field_refs] in H5. apply cons_inj_pair in H5 as [H5 _].
  destruct W as [W _], W' as [W' _]. apply fields_inj in H5; [|done|done|].
  2: { repeat (constructor; [exact eq_refl || exact I|]). constructor. }
  unfold terms_fields in H5. split; congruence.
Qed.
End opening.

(** ** Settling and anchoring *)

Definition Outcome_wf (o : SettlementOutcome) : Prop :=
  Payout_wf (winner o) /\ Forall Payout_wf (participants o) /\ length (result_hash o) = 32%nat
  /\ in_u 120 (base o) /\ in_u 120 (amount (winner o)) /\ in_u 120 (platform_fee o).
#[global] Instance Outcome_wf_dec o : Decision (Outcome_wf o).
Proof. unfold Outcome_wf. apply _. Defined.

Section settling.
Context {C : Crypto} {N : Type} (R : TonRpc N).

Lemma settle_candidates_wf t o :
  Forall Address_wf (ts_candidates t) -> Outcome_wf o -> Forall Address_wf (settle_candidate_set t o).
Proof using Type.
  intros Ht ([Hw _] & Hp & _). unfold settle_candidate_set. destruct (ts_candidates t); [|done].
  apply Forall_forall. intros w [->%list_elem_of_singleton|(p & Hp' & <-)]%elem_of_collect; [done|].
  rewrite Forall_forall in Hp. by apply Hp.
Qed.

Lemma settle_body_builds t o q :
  Forall Address_wf (ts_candidates t) -> Outcome_wf o -> in_u 64 q ->
  is_Some (build_escrow_settle q (result_hash o) (to (winner o)) (base o) (amount (winner o)) (platform_fee o)
    (participants o) (settle_candidate_set t o)).
Proof using Type.
  intros Ht Ho Hq. pose proof (settle_candidates_wf t o Ht Ho) as Hc. destruct Ho as ([Hw _] & Hp & Hr & Hb & Ha & Hf).
  destruct (settle_parts q (result_hash o) (to (winner o)) (base o) (amount (winner o)) (platform_fee o)
    (participants o) (settle_candidate_set t o)) as (m & ? & ? & ? & ? & ? & E & _); [|done|done|by exists m].
  repeat apply Forall_cons_2; [| | | | | | |constructor]; cbn [Field_wf]; (split; [done|lia]) || done.
Qed.

(** Settlement on the rail, on every branch: an outcome above the locked amount is
    refused with that error and nothing is sent (query id and network untouched);
    otherwise, for standard addresses, the body builds, and success means that
    exactly the order for this outcome, with the next query id, was accepted by the
    transport for the escrow's address and a later transaction there confirmed;
    a failure of the transport or of the confirmation is reported as it is. *)
Theorem ton_settle_spec (t : TonSettlement) (h : EscrowHandle) (o : SettlementOutcome) (s : Client N) :
  Forall Address_wf (ts_candidates t) -> Outcome_wf o -> in_u 64 (qid s) ->
  if h_max_bid h <? total o then ton_settle R t h o s = Some (Err (PayoutExceedsEscrow (total o) (h_max_bid h)), s)
  else exists body, build_escrow_settle (qid s) (result_hash o) (to (winner o)) (base o) (amount (winner o))
         (platform_fee o) (participants o) (settle_candidate_set t o) = Some body
    /\ exists r s', ton_settle R t h o s = Some (r, s') /\ qid s' = wrap 64 (qid s + 1)
    /\ match last_tx_lt R (net s) (h_address h) with
       | (Err e, n1) => r = Err e /\ net s' = n1
       | (Ok lt, n1) =>
           match send_internal R n1 (h_address h) (ts_settle_gas t) body with
           | (Err e, n2) => r = Err e /\ net s' = n2
           | (Ok _, n2) => (r, net s') = await_confirmation R n2 (h_address h) lt CONFIRM_TIMEOUT_SECS
           end
       end.
Proof using Type.
  intros Ht Ho Hq. destruct (settle_body_builds t o (qid s) Ht Ho Hq) as [body Eb]. unfold ton_settle.
  destruct (h_max_bid h <? total o); [done|]. exists body. split; [done|].
  unfold mbind, io_bind, next_qid. cbn [qid net]. rewrite Eb. unfold or_panic, call. cbn [qid net].
  destruct (last_tx_lt R (net s) (h_address h)) as [[lt|e] n1]; [|by eexists _, _]. cbn [qid net].
  destruct (send_internal R n1 (h_address h) (ts_settle_gas t) body) as [[tx|e] n2]; [|by eexists _, _]. cbn [qid net].
  destruct (await_confirmation R n2 (h_address h) lt CONFIRM_TIMEOUT_SECS) as [r n3]. by eexists _, _.
Qed.
End settling.

Section anchoring.
Context {C : Crypto} {N : Type} (R : TonRpc N) (anchor : WalletAddress).

(** The anchor chains confirmed roots only: if a submission succeeds, its root is
    the non-zero Merkle root of the records, chained onto the contract's last root
    at the contract's epoch plus one when the contract can be read and onto the last
    tracked root otherwise, and the message was accepted and a later transaction
    confirmed; the tracked root is then this root.  If it fails, nothing tracked has
    changed.  It always returns, and the records are never altered. *)
Theorem submit_root_spec (a : TonRecordAnchor) (epoch : Z) (weight : Amount) (s : Client N) :
  exists r a' s', submit_root R anchor a epoch weight s = Some (r, a', s') /\ ta_records a' = ta_records a
  /\ match r with
     | Err _ => a' = a
     | Ok tx => exists root prev live n1 lt n2 n3 n4,
         try_merkle_root ((ta_records a).*2) = Some root /\ root <> le_bytes 32 0 /\ ta_prev a' = root
         /\ run_get_anchor_state R (net s) anchor = (Ok live, n1)
         /\ match live with Some (e, l) => epoch = sat_add 32 e 1 /\ prev = l | None => prev = ta_prev a end
         /\ last_tx_lt R n1 anchor = (Ok lt, n2)
         /\ send_internal R n2 anchor 0 (build_anchor_submit (qid s) epoch root prev weight) = (Ok tx, n3)
         /\ await_confirmation R n3 anchor lt CONFIRM_TIMEOUT_SECS = (Ok tt, n4) /\ net s' = n4
     end.
Proof using Type.
  unfold submit_root, submit_io, previous_root. unfold mbind, io_bind, lift, call, next_qid. cbn [qid net].
  destruct (try_merkle_root _) as [root|] eqn:Et; cbn [ok_or]; [|eexists _, _, _; split; [reflexivity|done]].
  destruct (bool_decide_reflect (root = le_bytes 32 0)); [eexists _, _, _; split; [reflexivity|done]|]. cbn [qid net].
  destruct (run_get_anchor_state R (net s) anchor) as [[live|e] n1] eqn:Er; [|eexists _, _, _; split; [reflexivity|done]].
  destruct live as [[e l]|].
  - destruct (Z.eqb_spec epoch (sat_add 32 e 1)) as [He|He]; cbn [negb]; [|eexists _, _, _; split; [reflexivity|done]]. cbn.
    destruct (last_tx_lt R n1 anchor) as [[lt|e1] n2] eqn:El; [|eexists _, _, _; split; [reflexivity|done]]. cbn [net qid].
    destruct (send_internal R n2 anchor 0 _) as [[tx|e2] n3] eqn:Es; [|eexists _, _, _; split; [reflexivity|done]]. cbn [net qid].
    destruct (await_confirmation R n3 anchor lt _) as [[[]|e3] n4] eqn:Ea; [|eexists _, _, _; split; [reflexivity|done]].
    eexists _, _, _. split; [reflexivity|]. split; [done|]. eexists root, l, _, n1, lt, n2, n3, n4. by repeat split.
  - cbn. destruct (last_tx_lt R n1 anchor) as [[lt|e1] n2] eqn:El; [|eexists _, _, _; split; [reflexivity|done]]. cbn [net qid].
    destruct (send_internal R n2 anchor 0 _) as [[tx|e2] n3] eqn:Es; [|eexists _, _, _; split; [reflexivity|done]]. cbn [net qid].
    destruct (await_confirmation R n3 anchor lt _) as [[[]|e3] n4] eqn:Ea; [|eexists _, _, _; split; [reflexivity|done]].
    eexists _, _, _. split; [reflexivity|]. split; [done|]. eexists root, (ta_prev a), _, n1, lt, n2, n3, n4. by repeat split.
Qed.
End anchoring.

(** ** A recording transport *)

Inductive sent := SentMessage (to : WalletAddress) (value : Amount) (body : Cell) | Deployed (to : WalletAddress) (value : Amount).

(** Accepts and confirms everything, and keeps what it was given. *)
Definition recording_rpc : TonRpc (list sent) :=
  mkRpc _ (fun n to v b => (Ok (str "tx"), n ++ [SentMessage to v (body_cell b)])) (fun n _ _ => (Ok 77, n))
    (fun n _ _ => (Ok (Some (addr_example Byte.x0f)), n)) (fun n to v _ _ => (Ok (str "tx"), n ++ [Deployed to v]))
    (fun n _ => (Ok None, n)) (fun n _ => (Ok (Z.of_nat (length n)), n)) (fun n _ _ _ => (Ok tt, n)) (fun _ => 1700000000).

Definition rail_example : TonSettlement :=
  with_deploy_gas_buffer (with_requester (with_escrow_code code_example empty_builder (addr_example Byte.x0a))
    (addr_example Byte.x0b)) 150000000.
Definition terms_example : EscrowTerms :=
  mkTerms (replicate 32 Byte.xaa) 3 settle_candidates (Some (addr_example Byte.x0f)) (Some 1500) (Some 500).
Definition client_example : Client (list sent) := mkClient first_qid [].

Definition opened_example : EscrowHandle * Client (list sent) :=
  match ton_open_escrow_with_terms (C := toy_crypto) recording_rpc rail_example (str "job-1") 1000 terms_example client_example with
  | Some (Ok h, s) => (h, s)
  | _ => (mkHandle [] (addr_example Byte.x00) 0, client_example)
  end.

Lemma escrow_open_confirmed_witness :
  let h := opened_example.1 in let s' := opened_example.2 in
  exists code rq treasury ch dl lt n1 tx n2 value,
    let d := escrow_state rail_example terms_example rq treasury ch 1000 dl in
    h = mkHandle (str "job-1") (from_state_init (C := toy_crypto) BASECHAIN code d) 1000
    /\ ts_escrow_code rail_example = Some code /\ ts_requester rail_example = Some rq
    /\ candidates_commitment (C := toy_crypto)
         (match candidates terms_example with [] => ts_candidates rail_example | _ => candidates terms_example end) = Some ch
    /\ 1000 <= value
    /\ deploy recording_rpc n1 (h_address h) value (state_init_cell code d) (build_escrow_topup (qid client_example)) = (Ok tx, n2)
    /\ await_confirmation recording_rpc n2 (h_address h) lt CONFIRM_TIMEOUT_SECS = (Ok tt, net s')
    /\ (0 < default (ts_platform_fee_bps rail_example) (terms_fee_bps terms_example) ->
        fee_recipient terms_example = Some treasury \/ (fee_recipient terms_example = None /\ ts_treasury rail_example = Some treasury))
    /\ (forall local, ts_treasury rail_example = Some local -> treasury = local).
Proof.
  apply (escrow_open_confirmed (C := toy_crypto) recording_rpc rail_example (str "job-1") 1000 terms_example client_example);
    [decide_closed|decide_closed|]. vm_compute. reflexivity.
Defined.

Lemma escrow_address_commits_witness :
  let rq := addr_example Byte.x0b in let arb := addr_example Byte.x0a in let tr := addr_example Byte.x0f in
  let eh := replicate 32 Byte.xaa in let ch := replicate 32 Byte.xbb in
  (rq, arb, 1000, 1700003600) = (rq, arb, 1000, 1700003600)
  /\ (tr, eh, ch, 3, 1500, 500) = (tr, eh, ch, 3, 1500, 500).
Proof.
  assert (Tree_ok code_example) as Hc.
  { apply built_tree_ok; [decide_closed..|]. constructor; [|done].
    apply (built_tree_ok [FUint 5 3]); [decide_closed..|by constructor]. }
  apply (escrow_address_commits (C := toy_crypto) (CL := toy_laws) code_example code_example (addr_example Byte.x0b) (addr_example Byte.x0b)
    (addr_example Byte.x0a) (addr_example Byte.x0a) (addr_example Byte.x0f) (addr_example Byte.x0f));
    [exact Hc|exact Hc|split; decide_closed|split; decide_closed|decide_closed|reflexivity].
Defined.

Definition outcome_example : SettlementOutcome :=
  mkOutcome (replicate 32 Byte.xaa) 500 (mkPayout (addr_example Byte.x01) 500) settle_payees 75.
Definition handle_example : EscrowHandle := mkHandle (str "job-1") (addr_example Byte.xee) 1000.

Lemma ton_settle_spec_witness :
  let o := outcome_example in let h := handle_example in let s := client_example in let t := rail_example in
  exists body, build_escrow_settle (qid s) (result_hash o) (to (winner o)) (base o) (amount (winner o))
         (platform_fee o) (participants o) (settle_candidate_set t o) = Some body
    /\ exists r s', ton_settle recording_rpc t h o s = Some (r, s') /\ qid s' = wrap 64 (qid s + 1)
    /\ match last_tx_lt recording_rpc (net s) (h_address h) with
       | (Err e, n1) => r = Err e /\ net s' = n1
       | (Ok lt, n1) =>
           match send_internal recording_rpc n1 (h_address h) (ts_settle_gas t) body with
           | (Err e, n2) => r = Err e /\ net s' = n2
           | (Ok _, n2) => (r, net s') = await_confirmation recording_rpc n2 (h_address h) lt CONFIRM_TIMEOUT_SECS
           end
       end.
Proof. apply (ton_settle_spec recording_rpc rail_example handle_example outcome_example client_example); decide_closed. Defined.
