(* ===== verification/JobEscrow.v ===== *)
(** * The job escrow contract (ton/contracts/JobEscrow.tolk, escrow_types.tolk) and
      its clients

    The contract's storage and handlers on parsed messages, and the end of the paid
    path: what the coordinator computes, the rail sends and the contract checks. *)

From S2P Require Import Prelude Bytes F64 Crypto Text Proto Merkle Settlement Escrow Cell Dict TonAbi EscrowAbi TonRail.

#[global] Instance WalletAddress_countable : Countable WalletAddress.
Proof.
  refine (inj_countable' (fun w => (workchain w, hash w)) (fun x => mkWallet x.1 x.2) _). by intros [].
Defined.

(** ** Storage *)

Record OnchainTerms := mkOnchainTerms {
  ot_treasury : WalletAddress; ot_expectedHash : Hash32; ot_candidatesHash : Hash32; ot_paramsVersion : Z;
  ot_platformFeeBps : Z; ot_participationCommissionBps : Z;
}.

Record EscrowStorage := mkStorage {
  st_requester : WalletAddress; st_arbiter : WalletAddress; st_escrowAmount : Amount; st_deadline : Z;
  st_settled : bool; st_terms : OnchainTerms; st_pending : gmap WalletAddress Amount;
}.

Definition at_end (p : CellParser) : bool := (remaining_bits p =? 0)%nat && (remaining_refs p =? 0)%nat.

Definition load_terms (c : Cell) : option OnchainTerms :=
  match load_all (terms_fields (mkWallet 0 []) [] [] 0 0 0) (parser c) with
  | (Some [FAddress tr; FU256 eh; FU256 ch; FUint v _; FUint fee _; FUint comm _], p) =>
      if at_end p then Some (mkOnchainTerms tr eh ch v fee comm) else None
  | _ => None
  end.

(** The storage of a fresh escrow: an empty pull ledger. *)
Definition load_initial (c : Cell) : option EscrowStorage :=
  match load_all (data_fields (mkEscrowInit (mkWallet 0 []) (mkWallet 0 []) 0 0) empty_builder) (parser c) with
  | (Some [FAddress rq; FAddress arb; FCoins amt; FUint dl _; FUint settled _; FRef t; FUint 0 _], p) =>
      terms ← load_terms t;
      if at_end p then Some (mkStorage rq arb amt dl (negb (settled =? 0)) terms ∅) else None
  | _ => None
  end.

(** ** Messages *)

Record SettleMsg := mkSettle {
  sm_queryId : Z; sm_resultHash : Hash32; sm_winner : WalletAddress; sm_base : Amount; sm_winnerAmount : Amount;
  sm_platformFee : Amount; sm_participants : option Cell; sm_candidates : option Cell;
}.

Definition parse_settle (c : Cell) : option SettleMsg :=
  match load_all (settle_header 0 [] (mkWallet 0 []) 0 0 0) (parser c) with
  | (Some [FUint op _; FUint q _; FU256 rh; FAddress w; FCoins bs; FCoins wa; FCoins fee], p) =>
      let (parts, p) := read_dict p in
      let (cands, p) := read_dict p in
      ps ← parts; cs ← cands;
      if (op =? OP_ESCROW_SETTLE) && at_end p then Some (mkSettle q rh w bs wa fee ps cs) else None
  | _ => None
  end.

(** A slice holding [l]. *)
Definition slice_of (l : list bool) : CellParser := parser (foldl push_bit empty_builder l).

(** ** Handlers *)

Inductive EscrowErr :=
| NOT_ARBITER | ALREADY_SETTLED | HASH_MISMATCH | SETTLE_POLICY_MISMATCH | NOT_OWNER_SIG | TOO_MANY_PARTICIPANTS
| COMMISSION_MISMATCH | PAYOUT_EXCEEDS_ESCROW | FEE_MISMATCH | TIMEOUT_NOT_REACHED | BAD_SLICE.

Definition MAX_SETTLE_PARTICIPANTS : nat := 32.

(** Fixed-value payouts in order; the rest of the balance goes to the requester. *)
Abbreviation sends := (list (WalletAddress * Amount)).

Section contract.
Context {C : Crypto}.

Definition candidatesCommitment (root : option Cell) : Hash32 := repr_hash (store_maybe_ref empty_builder root).

Definition is_candidate (root : option Cell) (k : list bool) : bool :=
  bool_decide (is_Some (dict_get ADDRESS_KEY_BITS root k)).

(** The first loop: bound the count, require membership and the exact commission, sum. *)
Fixpoint check_participants (es : list (list bool * (list bool * list Cell))) (count : nat) (cands : option Cell)
    (comm_bps expected acc : Z) : result Z EscrowErr :=
  match es with
  | [] => Ok acc
  | (k, (v, _)) :: es' =>
      if (MAX_SETTLE_PARTICIPANTS <? S count)%nat then Err TOO_MANY_PARTICIPANTS
      else if negb (is_candidate cands k) then Err SETTLE_POLICY_MISMATCH
      else match (load_coins (slice_of v)).1 with
           | None => Err BAD_SLICE
           | Some amt =>
               if (0 <? comm_bps) && negb (amt =? expected) then Err COMMISSION_MISMATCH
               else check_participants es' (S count) cands comm_bps expected (acc + amt)
           end
  end.

(** The second loop: the payouts. *)
Fixpoint pay_participants (es : list (list bool * (list bool * list Cell))) : option sends :=
  match es with
  | [] => Some []
  | (k, (v, _)) :: es' =>
      who ← (load_address (slice_of k)).1;
      amt ← (load_coins (slice_of v)).1;
      rest ← pay_participants es';
      Some (if 0 <? amt then (who, amt) :: rest else rest)
  end.

Definition on_settle (s : EscrowStorage) (sender : WalletAddress) (m : SettleMsg) : result (EscrowStorage * sends) EscrowErr :=
  let t := st_terms s in
  if negb (bool_decide (sender = st_arbiter s)) then Err NOT_ARBITER
  else if st_settled s then Err ALREADY_SETTLED
  else if negb (bool_decide (sm_resultHash m = ot_expectedHash t)) then Err HASH_MISMATCH
  else if negb (bool_decide (candidatesCommitment (sm_candidates m) = ot_candidatesHash t)) then Err SETTLE_POLICY_MISMATCH
  else if bool_decide (sm_winner m = st_arbiter s) then Err NOT_OWNER_SIG
  else if negb (is_candidate (sm_candidates m) (address_key_bits (sm_winner m))) then Err SETTLE_POLICY_MISMATCH
  else
    let expectedCommission := sm_base m * ot_participationCommissionBps t / BPS_DENOM in
    match dict_entries ADDRESS_KEY_BITS (sm_participants m) with
    | None => Err BAD_SLICE
    | Some es =>
        match check_participants es 0 (sm_candidates m) (ot_participationCommissionBps t) expectedCommission 0 with
        | Err e => Err e
        | Ok participantsTotal =>
            if sm_base m <? sm_winnerAmount m then Err PAYOUT_EXCEEDS_ESCROW
            else if st_escrowAmount s <? sm_winnerAmount m + sm_platformFee m + participantsTotal then Err PAYOUT_EXCEEDS_ESCROW
            else if negb (sm_platformFee m =? sm_base m * ot_platformFeeBps t / BPS_DENOM) then Err FEE_MISMATCH
            else
              match pay_participants es with
              | None => Err BAD_SLICE
              | Some ps =>
                  Ok (mkStorage (st_requester s) (st_arbiter s) (st_escrowAmount s) (st_deadline s) true t (st_pending s),
                      (if 0 <? sm_winnerAmount m then [(sm_winner m, sm_winnerAmount m)] else [])
                      ++ (if 0 <? sm_platformFee m then [(ot_treasury t, sm_platformFee m)] else []) ++ ps)
              end
        end
    end.

Definition on_refund (s : EscrowStorage) (now : Z) : result EscrowStorage EscrowErr :=
  if st_settled s then Err ALREADY_SETTLED
  else if now <? st_deadline s then Err TIMEOUT_NOT_REACHED
  else Ok (mkStorage (st_requester s) (st_arbiter s) (st_escrowAmount s) (st_deadline s) true (st_terms s) (st_pending s)).

Definition on_claim (s : EscrowStorage) (recipient : WalletAddress) : result (EscrowStorage * sends) EscrowErr :=
  match st_pending s !! recipient with
  | None => Err PAYOUT_EXCEEDS_ESCROW
  | Some a =>
      if negb (0 <? a) then Err PAYOUT_EXCEEDS_ESCROW
      else Ok (mkStorage (st_requester s) (st_arbiter s) (st_escrowAmount s) (st_deadline s) (st_settled s) (st_terms s)
                 (delete recipient (st_pending s)), [(recipient, a)])
  end.

(** [onBouncedMessage] of a payout: credit the value to the address it bounced from. *)
Definition on_bounced_payout (s : EscrowStorage) (from : WalletAddress) (value : Amount) : EscrowStorage :=
  mkStorage (st_requester s) (st_arbiter s) (st_escrowAmount s) (st_deadline s) (st_settled s) (st_terms s)
    (<[from := default 0 (st_pending s !! from) + value]> (st_pending s)).
End contract.

(** ** Reading what the rail writes *)

Section reading.
Context {C : Crypto}.

Lemma slice_rest l : parser_ok (slice_of l) /\ rest (slice_of l) = l ++ [].
Proof using Type.
  destruct (appends_push l empty_builder empty_builder_ok) as (_ & H & _). rewrite empty_builder_bits in H.
  unfold slice_of, parser_ok, rest. cbn [parser p_bit p_cell]. rewrite drop_0, H, app_nil_r. split; [lia|done].
Qed.

Lemma slice_coins v : in_u 120 v -> (load_coins (slice_of (coin_bits v))).1 = Some v.
Proof using Type.
  intros Hv. destruct (slice_rest (coin_bits v)) as [H1 H2]. by rewrite (reads_coins v Hv _ [] H1 H2).
Qed.

Lemma slice_address a : Address_wf a -> (load_address (slice_of (address_key_bits a))).1 = Some a.
Proof using Type.
  intros Ha. rewrite address_key_bits_eq. destruct (slice_rest (address_bits a)) as [H1 H2].
  by rewrite (reads_address a Ha _ [] H1 H2).
Qed.

(** An entry of the payout map as a reader sees it. *)
Definition leg (wa : WalletAddress * Amount) : list bool * (list bool * list Cell) :=
  (address_key_bits wa.1, (coin_bits wa.2, [])).

Lemma seen_participants ps : seen <$> entries_of (participants_dict_entries ps) = leg <$> merge_payouts ps.
Proof using Type.
  unfold participants_dict_entries, entries_of. rewrite <- !list_fmap_compose. apply list_fmap_ext.
  intros _ [w a] _. unfold seen, leg. cbn [compose key value fst snd].
  by destruct (store_coins_appends empty_builder a empty_builder_ok) as (_ & -> & ->).
Qed.

Lemma check_legs m count cands comm expected acc :
  Forall (fun wa : WalletAddress * Amount => in_u 120 wa.2) m ->
  Forall (fun wa => is_candidate cands (address_key_bits wa.1) = true) m ->
  (0 < comm -> Forall (fun wa : WalletAddress * Amount => wa.2 = expected) m) ->
  (count + length m <= MAX_SETTLE_PARTICIPANTS)%nat ->
  check_participants (leg <$> m) count cands comm expected acc = Ok (acc + sum_by snd m).
Proof using Type.
  intros Hr Hc. revert count acc. induction m as [|[w a] m IH]; intros count acc He Hn; [cbn; f_equal; lia|].
  apply Forall_cons in Hr as [Ha Hr], Hc as [Hw Hc]. rewrite fmap_cons. unfold leg at 1. cbn [check_participants fst snd length] in *.
  rewrite (proj2 (Nat.ltb_ge _ _)) by lia. rewrite Hw, slice_coins by done. cbn [negb].
  destruct (Z.ltb_spec 0 comm) as [Hp|Hp]; cbn [andb].
  - specialize (He Hp) as He'. apply Forall_cons in He' as [Ea _]. cbn in Ea. rewrite (proj2 (Z.eqb_eq _ _) Ea). cbn [negb].
    rewrite IH by (done || lia || (intros _; by apply Forall_cons in He as [_ ?])). cbn [sum_by foldr snd]. f_equal. unfold sum_by. lia.
  - rewrite IH by (done || lia || (intros; lia)). cbn [sum_by foldr snd]. f_equal. unfold sum_by. lia.
Qed.

Lemma pay_legs m :
  Forall (fun wa : WalletAddress * Amount => Address_wf wa.1 /\ in_u 120 wa.2 /\ 0 < wa.2) m ->
  pay_participants (leg <$> m) = Some m.
Proof using Type.
  induction 1 as [|[w a] m (Hw & Ha & Hp) Hm IH]; [done|]. rewrite fmap_cons. unfold leg at 1.
  cbn [pay_participants fst snd] in *. rewrite slice_address, slice_coins by done. cbn [mbind option_bind].
  rewrite IH. cbn [mbind option_bind]. by rewrite (proj2 (Z.ltb_lt _ _)).
Qed.

Lemma load_initial_built rq arb tr eh ch amt dl v fee comm :
  Escrow_wf rq arb tr eh ch amt dl v fee comm ->
  load_initial (build_escrow_data (mkEscrowInit rq arb amt dl) (build_escrow_terms tr eh ch v fee comm))
  = Some (mkStorage rq arb amt dl false (mkOnchainTerms tr eh ch v fee comm) ∅).
Proof using Type.
  intros W. pose proof (data_fields_wf _ _ _ _ _ _ _ _ _ _ W) as Wd. destruct W as [Wt _].
  unfold load_initial. rewrite escrow_data_fields.
  rewrite (load_all_shape _ (data_fields (mkEscrowInit rq arb amt dl) (build_escrow_terms tr eh ch v fee comm)))
    by (repeat (constructor; [exact eq_refl || exact I|]); constructor).
  destruct (load_fresh _ Wd) as (p & E & Hb & Hr). rewrite E. unfold data_fields. cbn [requester arbiter escrow_amount deadline].
  unfold load_terms. rewrite escrow_terms_fields.
  rewrite (load_all_shape _ (terms_fields tr eh ch v fee comm))
    by (repeat (constructor; [exact eq_refl || exact I|]); constructor).
  destruct (load_fresh _ Wt) as (p' & E' & Hb' & Hr'). rewrite E'. unfold terms_fields. unfold at_end.
  rewrite Hb, Hr, Hb', Hr'. reflexivity.
Qed.

End reading.

(** ** Acceptance *)

Lemma merge_payout_sum m w a : 0 <= a -> sum_by snd (merge_payout m w a) <= sum_by snd m + a.
Proof.
  intros Ha. induction m as [|[x b] m IH]; cbn [merge_payout]; [cbn; lia|].
  destruct (bool_decide (x = w)); cbn [sum_by foldr snd] in *; unfold sum_by, sat_add in *; lia.
Qed.

Lemma merge_payouts_sum ps : Forall Payout_wf ps -> sum_by snd (merge_payouts ps) <= sum_by amount ps.
Proof.
  unfold merge_payouts. induction ps as [|p ps IH] using rev_ind; [done|].
  intros [Hps [[_ [Hp _]] _]%Forall_cons]%Forall_app. specialize (IH Hps). rewrite foldl_app, sum_by_app. cbn [foldl].
  set (m := foldl _ _ ps) in *. cbn [sum_by foldr]. destruct (Z.eqb_spec (amount p) 0); [lia|].
  pose proof (merge_payout_sum m (to p) (amount p) Hp). lia.
Qed.

Section acceptance.
Context {C : Crypto}.

(** What an outcome has to satisfy for the contract with storage [s] to pay it. *)
Record payable (s : EscrowStorage) (o : SettlementOutcome) (cs : list WalletAddress) : Prop := {
  pb_open : st_settled s = false;
  pb_hash : result_hash o = ot_expectedHash (st_terms s);
  pb_committed : candidates_commitment cs = Some (ot_candidatesHash (st_terms s));
  pb_winner : to (winner o) ∈ cs /\ to (winner o) <> st_arbiter s;
  pb_members : forall p, p ∈ participants o -> to p ∈ cs;
  pb_count : (length (merge_payouts (participants o)) <= MAX_SETTLE_PARTICIPANTS)%nat;
  pb_legs : 0 < ot_participationCommissionBps (st_terms s) ->
    Forall (fun wa : WalletAddress * Amount => wa.2 = base o * ot_participationCommissionBps (st_terms s) / BPS_DENOM)
      (merge_payouts (participants o));
  pb_price : amount (winner o) <= base o;
  pb_fee : platform_fee o = base o * ot_platformFeeBps (st_terms s) / BPS_DENOM;
  pb_total : total o <= st_escrowAmount s < 2 ^ 120;
}.

Definition settled_storage (s : EscrowStorage) : EscrowStorage :=
  mkStorage (st_requester s) (st_arbiter s) (st_escrowAmount s) (st_deadline s) true (st_terms s) (st_pending s).

Definition main_sends (o : SettlementOutcome) (treasury : WalletAddress) : sends :=
  (if 0 <? amount (winner o) then [(to (winner o), amount (winner o))] else [])
  ++ (if 0 <? platform_fee o then [(treasury, platform_fee o)] else []).

Lemma merged_members (ps : list Payout) (cs : list WalletAddress) : (forall p, p ∈ ps -> to p ∈ cs) -> Forall (fun w => w ∈ cs) (merge_payouts ps).*1.
Proof using Type.
  unfold merge_payouts. induction ps as [|p ps IH] using rev_ind; intros Hcs; [constructor|].
  assert (Forall (fun w => w ∈ cs) (merge_payouts ps).*1) as Hm by (apply IH; intros q Hq; apply Hcs; set_solver).
  rewrite foldl_app. cbn [foldl]. unfold merge_payouts in Hm. set (m := foldl _ _ ps) in *.
  destruct (amount p =? 0); [done|]. rewrite merge_payout_keys. destruct (bool_decide _); [done|].
  apply Forall_app. split; [done|]. apply Forall_singleton, Hcs. set_solver.
Qed.

Lemma merged_in_range ps B :
  Forall Payout_wf ps -> sum_by amount ps <= B -> B < 2 ^ 120 ->
  Forall (fun wa : WalletAddress * Amount => Address_wf wa.1 /\ in_u 120 wa.2 /\ 0 < wa.2) (merge_payouts ps).
Proof using Type.
  intros Hps Hs HB. destruct (merge_payouts_spec ps Hps) as ([_ Hm] & _ & Hf). pose proof (merge_payouts_sum ps Hps) as Hle.
  apply Forall_forall. intros x Hx. rewrite Forall_forall in Hm. rewrite Forall_fmap, Forall_forall in Hf.
  pose proof (Hm x Hx). apply list_elem_of_lookup_1 in Hx as Hi. destruct Hi as [i Hi].
  assert (x.2 <= sum_by snd (merge_payouts ps)) by (refine (sum_by_ge snd _ i x _ Hi); intros a Ha; specialize (Hm a Ha); lia).
  split; [by apply Hf|]. unfold in_u. lia.
Qed.

(** The order as the contract parses it. *)
Lemma settle_message (o : SettlementOutcome) (cs : list WalletAddress) (q : Z) :
  Outcome_wf o -> Forall Address_wf cs -> in_u 64 q ->
  exists body parts cands ms,
    build_escrow_settle q (result_hash o) (to (winner o)) (base o) (amount (winner o)) (platform_fee o) (participants o) cs = Some body
    /\ parse_settle (body_cell body)
       = Some (mkSettle q (result_hash o) (to (winner o)) (base o) (amount (winner o)) (platform_fee o) parts cands)
    /\ candidates_commitment cs = Some (candidatesCommitment cands)
    /\ (forall w, Address_wf w -> is_candidate cands (address_key_bits w) = bool_decide (w ∈ cs))
    /\ dict_entries ADDRESS_KEY_BITS parts = Some (leg <$> ms) /\ ms ≡ₚ merge_payouts (participants o).
Proof using Type.
  intros (Ww & Wp & Wh & Wb & Wa & Wf) Wc Hq.
  set (h := settle_header q (result_hash o) (to (winner o)) (base o) (amount (winner o)) (platform_fee o)).
  assert (Forall Field_wf h) as Hh.
  { repeat apply Forall_cons_2; [| | | | | | |constructor]; cbn [Field_wf]; (split; [done|lia]) || done || apply Ww. }
  destruct (settle_parts q (result_hash o) (to (winner o)) (base o) (amount (winner o)) (platform_fee o) (participants o) cs Hh Wp Wc)
    as (body & p1 & parts & p2 & cands & p3 & Eb & E1 & E2 & E3 & E4 & E5 & (L1 & le & El & Hperm) & (L2 & _) & K).
  rewrite seen_participants in Hperm. apply Permutation_map_inv in Hperm as (ms & -> & Hms).
  exists body, parts, cands, ms. split; [done|]. split.
  { unfold parse_settle. rewrite (load_all_shape _ h) by (repeat (constructor; [exact eq_refl || exact I|]); constructor).
    fold h in E1. rewrite E1. unfold h, settle_header. rewrite E2, E3. cbn [mbind option_bind]. unfold at_end. rewrite E4, E5. reflexivity. }
  split; [unfold candidates_commitment; by rewrite (K empty_builder)|]. split; [|by split].
  intros w Hw. unfold is_candidate. rewrite L2, candidates_lookup by (done || apply length_address_key).
  by destruct (bool_decide_reflect (w ∈ cs)); [rewrite bool_decide_true|rewrite bool_decide_false by (by intros [])].
Qed.

Lemma settle_accepted (s : EscrowStorage) (o : SettlementOutcome) (cs : list WalletAddress) (q : Z) :
  payable s o cs -> Outcome_wf o -> Forall Address_wf cs -> in_u 64 q ->
  exists body m ps,
    build_escrow_settle q (result_hash o) (to (winner o)) (base o) (amount (winner o)) (platform_fee o) (participants o) cs = Some body
    /\ parse_settle (body_cell body) = Some m
    /\ on_settle s (st_arbiter s) m = Ok (settled_storage s, main_sends o (ot_treasury (st_terms s)) ++ ps)
    /\ ps ≡ₚ merge_payouts (participants o).
Proof using Type.
  intros [P1 P2 P3 [P4 P4'] P5 P6 P7 P8 P9 [P10 P11]] Wo Wc Hq.
  destruct (settle_message o cs q Wo Wc Hq) as (body & parts & cands & ms & Eb & Ep & K & Hmem & El & Hms).
  destruct Wo as (Ww & Wp & Wh & Wb & Wa & Wf). rewrite P3 in K. apply (inj Some) in K.
  eexists body, _, ms. split; [done|]. split; [exact Ep|]. split; [|done].
  assert (0 <= sum_by amount (participants o)) as Hnn.
  { apply sum_by_nonneg. intros x Hx. rewrite Forall_forall in Wp. by destruct (Wp x Hx) as [_ [? _]]. }
  assert (Forall (fun wa : WalletAddress * Amount => Address_wf wa.1 /\ in_u 120 wa.2 /\ 0 < wa.2) ms) as Hr.
  { rewrite Hms. apply (merged_in_range _ (st_escrowAmount s)); [done| |done]. unfold total in P10. unfold in_u in *. lia. }
  assert (sum_by snd ms <= sum_by amount (participants o)) as Hsum by (rewrite (sum_by_perm snd _ _ Hms); by apply merge_payouts_sum).
  unfold on_settle, settled_storage, main_sends. cbn [sm_resultHash sm_candidates sm_winner sm_base sm_participants
    sm_winnerAmount sm_platformFee].
  rewrite bool_decide_true, P1, bool_decide_true, bool_decide_true, bool_decide_false by done. cbn [negb].
  rewrite (Hmem _ (proj1 Ww)), bool_decide_true, El by done. cbn [negb].
  assert (check_participants (leg <$> ms) 0 cands (ot_participationCommissionBps (st_terms s))
    (base o * ot_participationCommissionBps (st_terms s) / BPS_DENOM) 0 = Ok (0 + sum_by snd ms)) as ->.
  { apply check_legs.
    - eapply Forall_impl; [exact Hr|]. by intros x (_ & ? & _).
    - pose proof (merged_members _ cs P5) as Hm. rewrite Forall_fmap, <- Hms in Hm. apply Forall_forall. intros x Hx.
      rewrite Forall_forall in Hr, Hm. rewrite Hmem by (by apply Hr). apply bool_decide_true. by apply Hm.
    - intros Hp. rewrite Hms. by apply P7.
    - rewrite (Permutation_length Hms). exact P6. }
  unfold total in P10. rewrite (proj2 (Z.ltb_ge _ _)), (proj2 (Z.ltb_ge _ _)) by lia.
  rewrite (proj2 (Z.eqb_eq _ _) P9). cbn [negb]. rewrite pay_legs by done. by rewrite <- app_assoc.
Qed.
End acceptance.

(** ** What the contract guarantees *)

Section guarantees.
Context {C : Crypto}.

(** The amount and the authorisation of an entry the first loop let through. *)
Lemma check_participants_ok es count cands comm expected acc r :
  check_participants es count cands comm expected acc = Ok r ->
  exists amts, length amts = length es /\ r = acc + sum_by id amts
    /\ Forall2 (fun e a => is_candidate cands e.1 = true /\ (load_coins (slice_of e.2.1)).1 = Some a
                          /\ (0 < comm -> a = expected)) es amts
    /\ (length es = 0 \/ count + length es <= MAX_SETTLE_PARTICIPANTS)%nat.
Proof using Type.
  revert count acc. induction es as [|[k [v rs]] es IH]; intros count acc; cbn [check_participants].
  { intros [= <-]. exists []. split; [done|]. cbn. split; [lia|]. split; [constructor|by left]. }
  destruct (Nat.ltb_spec MAX_SETTLE_PARTICIPANTS (S count)); [done|]. destruct (is_candidate cands k) eqn:Hk; [|done]. cbn [negb].
  destruct (load_coins (slice_of v)).1 as [amt|] eqn:Ha; [|done].
  destruct ((0 <? comm) && negb (amt =? expected)) eqn:Hc; [done|]. intros H1.
  apply IH in H1 as (amts & Hl & -> & Hf & Hcount). exists (amt :: amts). split; [cbn; by rewrite Hl|].
  split; [unfold sum_by, id; cbn [foldr]; lia|]. split.
  - constructor; [|done]. cbn [fst snd]. split; [done|]. split; [done|]. intros Hp.
    rewrite (proj2 (Z.ltb_lt _ _) Hp) in Hc. cbn [andb] in Hc. apply negb_false_iff in Hc. lia.
  - right. cbn [length]. destruct Hcount; lia.
Qed.

Lemma pay_participants_ok es amts ps :
  Forall2 (fun (e : list bool * (list bool * list Cell)) a => (load_coins (slice_of e.2.1)).1 = Some a) es amts ->
  pay_participants es = Some ps ->
  Forall (fun wa => 0 < wa.2 /\ exists e, e ∈ es /\ (load_address (slice_of e.1)).1 = Some wa.1) ps
  /\ (Forall (fun a => 0 <= a) amts -> sum_by snd ps = sum_by id amts).
Proof using Type.
  intros H. revert ps. induction H as [|[k [v rs]] a es amts Ha _ IH]; intros ps; cbn [pay_participants].
  { intros [= <-]. by split; [constructor|]. }
  cbn [fst snd] in Ha. rewrite Ha. destruct (load_address (slice_of k)).1 as [who|] eqn:Ew; [|done]. cbn [mbind option_bind].
  destruct (pay_participants es) as [rest|]; [|done]. cbn [mbind option_bind]. intros [= <-].
  destruct (IH rest eq_refl) as [I1 I2].
  assert (Forall (fun wa => 0 < wa.2 /\ exists e, e ∈ (k, (v, rs)) :: es /\ (load_address (slice_of e.1)).1 = Some wa.1) rest) as Hrest.
  { eapply Forall_impl; [exact I1|]. intros x (? & e & ? & ?). split; [done|]. exists e. split; [by right|done]. }
  destruct (Z.ltb_spec 0 a) as [Hp|Hp].
  - split; [apply Forall_cons_2; [|done]|].
    + cbn [snd fst]. split; [done|]. exists (k, (v, rs)). split; [by left|done].
    + intros [Hn Hns]%Forall_cons. cbn [sum_by foldr snd]. specialize (I2 Hns). unfold sum_by, id in *. lia.
  - split; [done|]. intros [Hn Hns]%Forall_cons. specialize (I2 Hns). cbn [sum_by foldr]. unfold sum_by, id in *. lia.
Qed.

Lemma on_settle_ok s sender m s' out :
  on_settle s sender m = Ok (s', out) ->
  sender = st_arbiter s /\ st_settled s = false /\ sm_resultHash m = ot_expectedHash (st_terms s)
  /\ candidatesCommitment (sm_candidates m) = ot_candidatesHash (st_terms s)
  /\ sm_winner m <> st_arbiter s /\ is_candidate (sm_candidates m) (address_key_bits (sm_winner m)) = true
  /\ sm_winnerAmount m <= sm_base m
  /\ sm_platformFee m = sm_base m * ot_platformFeeBps (st_terms s) / BPS_DENOM
  /\ s' = settled_storage s
  /\ exists es total ps, dict_entries ADDRESS_KEY_BITS (sm_participants m) = Some es
     /\ check_participants es 0 (sm_candidates m) (ot_participationCommissionBps (st_terms s))
          (sm_base m * ot_participationCommissionBps (st_terms s) / BPS_DENOM) 0 = Ok total
     /\ sm_winnerAmount m + sm_platformFee m + total <= st_escrowAmount s
     /\ pay_participants es = Some ps
     /\ out = (if 0 <? sm_winnerAmount m then [(sm_winner m, sm_winnerAmount m)] else [])
              ++ (if 0 <? sm_platformFee m then [(ot_treasury (st_terms s), sm_platformFee m)] else []) ++ ps.
Proof using Type.
  unfold on_settle. destruct (bool_decide_reflect (sender = st_arbiter s)); [|done]. cbn [negb].
  destruct (st_settled s); [done|]. destruct (bool_decide_reflect (sm_resultHash m = ot_expectedHash (st_terms s))); [|done]. cbn [negb].
  destruct (bool_decide_reflect (candidatesCommitment (sm_candidates m) = ot_candidatesHash (st_terms s))); [|done]. cbn [negb].
  destruct (bool_decide_reflect (sm_winner m = st_arbiter s)); [done|].
  destruct (is_candidate _ _) eqn:Hc; [|done]. cbn [negb]. destruct (dict_entries _ _) as [es|] eqn:Ed; [|done].
  destruct (check_participants _ _ _ _ _ _) as [tot|err] eqn:Ec; [|done].
  destruct (Z.ltb_spec (sm_base m) (sm_winnerAmount m)); [done|].
  destruct (Z.ltb_spec (st_escrowAmount s) (sm_winnerAmount m + sm_platformFee m + tot)); [done|].
  destruct (Z.eqb_spec (sm_platformFee m) (sm_base m * ot_platformFeeBps (st_terms s) / BPS_DENOM)); [|done]. cbn [negb].
  destruct (pay_participants es) as [ps|] eqn:Ep; [|done]. intros [= <- <-]. do 9 (split; [done|]). by exists es, tot, ps.
Qed.

Lemma load_uint_loop_nonneg n v p r p' : 0 <= v -> load_uint_loop n v p = (Some r, p') -> 0 <= r.
Proof using Type.
  revert v p. induction n as [|n IH]; intros v p Hv; cbn [load_uint_loop]; [by intros [= <- <-]|].
  destruct (load_bit p) as [[b|] p1]; [|done]. apply IH. apply Z.lor_nonneg. split; [|destruct b; done].
  apply Z.mod_pos_bound. done.
Qed.

Lemma load_coins_nonneg p v p' : load_coins p = (Some v, p') -> 0 <= v.
Proof using Type.
  unfold load_coins, load_uint. destruct (_ || _); [done|]. destruct (load_uint_loop 4 0 p) as [[len|] p1]; [|done].
  destruct (len =? 0); [by intros [= <- <-]|]. destruct (_ || _); [done|]. by apply load_uint_loop_nonneg.
Qed.

Lemma entry_lookup_key es k v : entry_lookup es k = Some v -> exists e, e ∈ es /\ e.1 = k.
Proof using Type.
  induction es as [|e es IH]; cbn [entry_lookup]; [done|]. destruct (bool_decide_reflect (e.1 = k)) as [E|].
  - intros _. exists e. split; [by left|done].
  - intros (x & Hx & E)%IH. exists x. split; [by right|done].
Qed.

Context {CL : CryptoLaws C}.

(** A presented map with the committed hash has the committed members, and no other key. *)
Lemma committed_member cs root k :
  Forall Address_wf cs -> Tree_ok (store_maybe_ref empty_builder root) ->
  NoCollision sha256 (cell_queries (store_maybe_ref empty_builder root) ++ commitment_queries cs) ->
  candidates_commitment cs = Some (candidatesCommitment root) -> length k = ADDRESS_KEY_BITS ->
  is_candidate root k = true -> exists c, c ∈ cs /\ k = address_key_bits c.
Proof using CL.
  intros Hcs Ht Hn Hc Hk Hi. destruct (candidates_cell cs Hcs) as (c & r & E & T & Rc & L & _).
  unfold candidates_commitment, commitment_queries in *. rewrite E in Hc, Hn. apply (inj Some) in Hc.
  unfold candidatesCommitment in Hc. symmetry in Hc. apply (repr_hash_inj _ _ Ht T Hn) in Hc.
  destruct (store_maybe_ref_spec empty_builder root empty_builder_ok) as (_ & _ & Hr).
  rewrite Hc, Rc in Hr. cbn [refs empty_builder app] in Hr.
  assert (r = root) as <- by (clear -Hr; destruct r, root; cbn [root_refs] in Hr; congruence).
  apply bool_decide_eq_true in Hi as [v Hv]. rewrite L in Hv by done.
  apply entry_lookup_key in Hv as (e & He & <-). apply list_elem_of_fmap in He as (x & -> & Hx).
  apply list_elem_of_fmap in Hx as (y & -> & Hy). exists y. split; [by apply dedup_wallets_spec|done].
Qed.

(** C28: the arbiter cannot take or redirect the escrow: whatever cells an accepted
    order carries, it came from the bound arbiter for an escrow not yet settled and
    carries the agreed result hash, the fixed payouts together stay within the locked
    amount, each goes to the bound fee recipient or to a wallet the requester
    committed to, the winner gets at most the base price the order quotes and is not
    the arbiter, and the fee is exactly the bound rate of that base price.  (Comments
    beside the code speak of the rate of what the winner is paid, which is less for a
    winner that is paid less, a free one for instance; the contract does not.)  The candidates
    the requester committed to and the winner are standard addresses, the order's
    amounts are not negative, the map it presents is made of well-formed cells, and
    sha256 does not collide on the candidate cells. *)
Theorem settle_only_as_agreed (s s' : EscrowStorage) (sender : WalletAddress) (m : SettleMsg) (out : sends) (cs : list WalletAddress) :
  candidates_commitment cs = Some (ot_candidatesHash (st_terms s)) -> Forall Address_wf cs -> Address_wf (sm_winner m) ->
  0 <= sm_winnerAmount m -> 0 <= sm_platformFee m ->
  Tree_ok (store_maybe_ref empty_builder (sm_candidates m)) ->
  NoCollision sha256 (cell_queries (store_maybe_ref empty_builder (sm_candidates m)) ++ commitment_queries cs) ->
  on_settle s sender m = Ok (s', out) ->
  sender = st_arbiter s /\ st_settled s = false /\ st_settled s' = true /\ sm_resultHash m = ot_expectedHash (st_terms s)
  /\ sum_by snd out <= st_escrowAmount s
  /\ Forall (fun x => x.1 = ot_treasury (st_terms s) \/ x.1 ∈ cs) out
  /\ sm_winner m ∈ cs /\ sm_winner m <> st_arbiter s /\ sm_winnerAmount m <= sm_base m
  /\ sm_platformFee m = sm_base m * ot_platformFeeBps (st_terms s) / BPS_DENOM.
Proof using CL.
  intros Hcm Hcs Hw Hwa Hfee Ht Hn H.
  apply on_settle_ok in H as (H1 & H2 & H3 & H4 & H5 & H6 & H7 & H8 & -> & es & tot & ps & E1 & E2 & E3 & E4 & ->).
  rewrite <- H4 in Hcm. pose proof (committed_member cs (sm_candidates m)) as Hmem.
  destruct (check_participants_ok _ _ _ _ _ _ _ E2) as (amts & Hl & -> & Hf & _).
  assert (Forall (fun a => 0 <= a) amts) as Hnn.
  { clear -Hf. induction Hf as [|e a es amts (_ & Ha & _) _ IH]; [constructor|]. apply Forall_cons_2; [|done].
    destruct (load_coins (slice_of e.2.1)) as [[v|] p'] eqn:E; [|done]. injection Ha as <-. by apply load_coins_nonneg in E. }
  destruct (pay_participants_ok es amts ps) as [Hp Hs]; [|done|].
  { eapply Forall2_impl; [exact Hf|]. by intros ? ? (_ & ? & _). }
  specialize (Hs Hnn). destruct (Hmem (address_key_bits (sm_winner m)) Hcs Ht Hn Hcm (length_address_key _) H6) as (c & Hc & Ek).
  apply address_key_inj in Ek; [|done|rewrite Forall_forall in Hcs; by apply Hcs]. subst c.
  do 4 (split; [done|]). split; [|split; [|done]].
  - rewrite !sum_by_app, Hs. destruct (Z.ltb_spec 0 (sm_winnerAmount m)), (Z.ltb_spec 0 (sm_platformFee m));
      cbn [sum_by foldr snd]; unfold sum_by in *; lia.
  - repeat apply Forall_app_2.
    + destruct (0 <? _); [|constructor]. apply Forall_singleton. by right.
    + destruct (0 <? _); [|constructor]. apply Forall_singleton. by left.
    + eapply Forall_impl; [exact Hp|]. intros [who a] (_ & e & He & Ea). cbn [fst] in *. right.
      apply dict_entries_keys in E1. rewrite Forall_forall in E1. specialize (E1 e He). apply list_elem_of_lookup_1 in He as [i Hi].
      destruct (Forall2_lookup_l _ _ _ _ _ Hf Hi) as (a' & _ & Hcand & _).
      destruct (Hmem e.1 Hcs Ht Hn Hcm E1 Hcand) as (c & Hc' & Ek). rewrite Ek, slice_address in Ea by (rewrite Forall_forall in Hcs; by apply Hcs).
      by injection Ea as <-.
Qed.
End guarantees.

(** ** From the coordinator to the contract *)

Lemma merge_distinct ps :
  NoDup (to <$> ps) -> Forall (fun p => amount p <> 0) ps -> merge_payouts ps = (fun p => (to p, amount p)) <$> ps.
Proof.
  unfold merge_payouts. induction ps as [|p ps IH] using rev_ind; intros Hn Ha; [done|].
  rewrite fmap_app in Hn. apply NoDup_app in Hn as (Hn & Hd & _). apply Forall_app in Ha as [Ha Hp].
  apply Forall_cons in Hp as [Hp _]. rewrite foldl_app. cbn [foldl]. rewrite IH by done.
  rewrite (proj2 (Z.eqb_neq _ _) Hp), fmap_app. cbn [fmap list_fmap].
  assert (to p ∉ (to <$> ps)) as Hni by (intros Hi; apply (Hd _ Hi); by left).
  clear -Hni. induction ps as [|x ps IH]; [done|]. rewrite !fmap_cons in *. cbn [merge_payout app].
  apply not_elem_of_cons in Hni as [Hx Hni]. rewrite bool_decide_false by done. by rewrite IH.
Qed.

Lemma merge_zero ps : Forall (fun p => amount p = 0) ps -> merge_payouts ps = [].
Proof.
  unfold merge_payouts. induction ps as [|p ps IH] using rev_ind; [done|]. intros [H [Hp _]%Forall_cons]%Forall_app.
  rewrite foldl_app. cbn [foldl]. by rewrite IH, Hp.
Qed.

(** The coordinator's own sum for one wallet. *)
Lemma paid_twice ps1 ps2 ps3 a b c :
  Forall Payout_wf (ps1 ++ a :: ps2 ++ b :: ps3) -> to a = c -> to b = c -> amount a + amount b <= umax 128 ->
  amount a + amount b <= paid_to c (ps1 ++ a :: ps2 ++ b :: ps3).
Proof.
  intros H Ea Eb Hle. unfold paid_to. apply Z.min_glb; [|done]. rewrite sum_by_app. cbn [sum_by foldr]. fold (sum_by (fun p => if bool_decide (to p = c) then amount p else 0) (ps2 ++ b :: ps3)).
  rewrite sum_by_app. cbn [sum_by foldr]. rewrite !bool_decide_true by done.
  assert (forall l, (forall x, x ∈ l -> x ∈ ps1 ++ a :: ps2 ++ b :: ps3) -> 0 <= sum_by (fun p => if bool_decide (to p = c) then amount p else 0) l) as Hnn.
  { intros l Hl. apply sum_by_nonneg. intros x Hx. rewrite Forall_forall in H. destruct (H x (Hl x Hx)) as [_ [? _]]. destruct (bool_decide _); lia. }
  pose proof (Hnn ps1 ltac:(set_solver)). pose proof (Hnn ps2 ltac:(set_solver)). pose proof (Hnn ps3 ltac:(set_solver)). unfold sum_by in *. lia.
Qed.
Section end_to_end.
Context {C : Crypto} {CL : CryptoLaws C}.
Context (t : TonSettlement) (w : Wiring) (cfg : PayConfig) (winner_id : NodeId) (others : list NodeId).

Lemma all_paid (rh : Hash32) (bs : Amount) :
  Forall (fun n => is_Some (payout_wallet_of w n)) others ->
  participants (job_outcome w cfg winner_id others rh bs)
  = (fun n => mkPayout (wallet_of w n) (sat_mul128 bs (to_bps (participation_commission_frac cfg)) / BPS_DENOM)) <$> others.
Proof using Type.
  intros H. unfold job_outcome. cbn [participants]. f_equal. induction H as [|n l Hn _ IH]; [done|].
  cbn [List.filter]. by rewrite bool_decide_true, IH.
Qed.

Lemma elem_of_candidates x : x ∈ candidate_wallets w winner_id others <-> x = wallet_of w winner_id \/ exists n, n ∈ others /\ wallet_of w n = x.
Proof using Type. unfold candidate_wallets. by rewrite elem_of_collect, list_elem_of_singleton. Qed.

Lemma same_candidates rh bs x :
  ts_candidates t = [] -> Forall (fun n => is_Some (payout_wallet_of w n)) others ->
  x ∈ settle_candidate_set t (job_outcome w cfg winner_id others rh bs) <-> x ∈ candidate_wallets w winner_id others.
Proof using Type.
  intros Ht Hp. rewrite elem_of_candidates. unfold settle_candidate_set. rewrite Ht, elem_of_collect, list_elem_of_singleton, all_paid by done.
  cbn [winner job_outcome to]. split; (intros [H|(y & Hy & E)]; [by left|right]).
  - apply list_elem_of_fmap in Hy as (n & -> & Hn). by exists n.
  - exists (mkPayout (wallet_of w y) (sat_mul128 bs (to_bps (participation_commission_frac cfg)) / BPS_DENOM)).
    split; [|done]. apply list_elem_of_fmap. by exists y.
Qed.

(** A paid job as the coordinator hands it to the rail: rates within [u16], every
    agreeing runner with a wallet of its own, the winner's wallet not the arbiter's,
    no more runners than the contract pays at once, standard addresses, amounts
    below 2^112, and a price and split within the locked amount. *)
Record deal_ready (rq treasury : WalletAddress) (rh : Hash32) (bs b dl version : Z) : Prop := {
  dr_plain : ts_candidates t = [];
  dr_rates : Cfg_wf cfg;
  dr_bound : Forall (fun n => is_Some (payout_wallet_of w n)) others;
  dr_distinct : NoDup (wallet_of w <$> others);
  dr_wallets : Forall Address_wf (wallet_of w winner_id :: rq :: ts_arbiter t :: treasury :: (wallet_of w <$> others));
  dr_count : (length others <= MAX_SETTLE_PARTICIPANTS)%nat;
  dr_arbiter : wallet_of w winner_id <> ts_arbiter t;
  dr_hash : length rh = 32%nat;
  dr_amounts : 0 <= bs <= b /\ in_u 112 b;
  dr_words : in_u 32 dl /\ in_u 32 version;
  dr_fits : total (job_outcome w cfg winner_id others rh bs) <= b;
}.

Lemma bps_exact bs b r : 0 <= bs <= b -> in_u 112 b -> in_u 16 r -> sat_mul128 bs r = bs * r.
Proof using Type. intros H1 H2 H3. apply sat_mul_exact. unfold in_u, umax in *. nia. Qed.

Lemma bps_range bs b r : 0 <= bs <= b -> in_u 112 b -> in_u 16 r -> in_u 120 (bs * r / BPS_DENOM).
Proof using Type.
  intros H1 H2 H3. unfold in_u, BPS_DENOM in *. split; [apply Z.div_pos; nia|].
  apply Z.div_lt_upper_bound; [lia|]. nia.
Qed.

Lemma deal_outcome_wf rq treasury rh bs b dl version :
  deal_ready rq treasury rh bs b dl version -> Outcome_wf (job_outcome w cfg winner_id others rh bs).
Proof using Type.
  intros [D1 [D2 D2'] D3 D4 D5 D6 D7 D8 [D9 D9'] D10 D11]. apply Forall_cons in D5 as [Dw D5].
  do 3 apply Forall_cons in D5 as [_ D5].
  assert (in_u 120 bs) by (unfold in_u in *; lia).
  pose proof (bps_range bs b _ D9 D9' D2) as Hf. pose proof (bps_range bs b _ D9 D9' D2') as Hc.
  unfold Outcome_wf. rewrite all_paid by done. unfold job_outcome. cbn [winner base result_hash platform_fee to amount].
  rewrite !(bps_exact bs b) by done. split.
  { split; [done|]. cbn [amount]. destruct (payout_wallet_of w winner_id); unfold in_u in *; lia. }
  split; [|split; [done|split; [done|split; [|done]]]].
  - apply Forall_fmap, Forall_forall. intros n Hn. rewrite Forall_fmap, Forall_forall in D5.
    split; [by apply D5|]. cbn [amount]. unfold in_u in *. lia.
  - destruct (payout_wallet_of w winner_id); unfold in_u in *; lia.
Qed.

(** The merged payouts of such a job. *)
Lemma deal_merged (ce : Amount) :
  NoDup (wallet_of w <$> others) ->
  merge_payouts ((fun n => mkPayout (wallet_of w n) ce) <$> others)
  = if ce =? 0 then [] else (fun n => (wallet_of w n, ce)) <$> others.
Proof using Type.
  intros Hn. destruct (Z.eqb_spec ce 0) as [->|Hc].
  - apply merge_zero, Forall_fmap, Forall_forall. done.
  - rewrite merge_distinct; rewrite <- ?list_fmap_compose; [done|done|].
    apply Forall_fmap, Forall_forall. done.
Qed.

Lemma deal_terms_wf rq treasury rh bs b dl version ch :
  deal_ready rq treasury rh bs b dl version -> length ch = 32%nat ->
  Escrow_wf rq (ts_arbiter t) treasury rh ch b dl version (to_bps (platform_fee_pct cfg)) (to_bps (participation_commission_frac cfg)).
Proof using Type.
  intros [D1 [D2 D2'] D3 D4 D5 D6 D7 D8 [D9 D9'] [D10 D10'] D11] Hch. apply Forall_cons in D5 as [_ D5].
  apply Forall_cons in D5 as [Wr D5]. apply Forall_cons in D5 as [Wa D5]. apply Forall_cons in D5 as [Wt _].
  assert (in_u 120 b) by (unfold in_u in *; lia).
  split; repeat apply Forall_cons_2; try apply Forall_nil_2; cbn [Field_wf]; try done; try (split; [done|lia]).
Qed.

Lemma deal_payable rq treasury rh bs b dl version ch :
  deal_ready rq treasury rh bs b dl version ->
  candidates_commitment (settle_candidate_set t (job_outcome w cfg winner_id others rh bs)) = Some ch ->
  payable (mkStorage rq (ts_arbiter t) b dl false
    (mkOnchainTerms treasury rh ch version (to_bps (platform_fee_pct cfg)) (to_bps (participation_commission_frac cfg))) ∅)
    (job_outcome w cfg winner_id others rh bs) (settle_candidate_set t (job_outcome w cfg winner_id others rh bs)).
Proof using Type.
  intros [D1 [D2 D2'] D3 D4 D5 D6 D7 D8 [D9 D9'] D10 D11] Hch.
  assert (in_u 120 b) as [_ Hb] by (unfold in_u in *; lia).
  split; cbn [st_settled st_terms st_arbiter st_escrowAmount ot_expectedHash ot_candidatesHash ot_participationCommissionBps ot_platformFeeBps].
  - done.
  - done.
  - done.
  - split; [|done]. rewrite same_candidates, elem_of_candidates by done. by left.
  - intros p Hp. rewrite same_candidates, elem_of_candidates by done. right. rewrite all_paid in Hp by done.
    apply list_elem_of_fmap in Hp as (n & -> & Hn). by exists n.
  - rewrite all_paid, deal_merged by done. destruct (_ =? 0); [cbn; lia|]. by rewrite length_fmap.
  - intros _. rewrite all_paid, deal_merged by done. rewrite (bps_exact bs b) by done. cbn [base job_outcome].
    destruct (_ =? 0); [constructor|]. apply Forall_fmap, Forall_forall. done.
  - unfold job_outcome. cbn [winner base amount]. destruct (payout_wallet_of w winner_id); lia.
  - unfold job_outcome. cbn [platform_fee base]. by rewrite (bps_exact bs b).
  - done.
Qed.

(** The two fixed payouts of such a job, spelled out. *)
Lemma deal_main_sends rq treasury rh bs b dl version :
  deal_ready rq treasury rh bs b dl version ->
  main_sends (job_outcome w cfg winner_id others rh bs) treasury
  = (if bool_decide (is_Some (payout_wallet_of w winner_id)) && (0 <? bs) then [(wallet_of w winner_id, bs)] else [])
    ++ (let fee := bs * to_bps (platform_fee_pct cfg) / BPS_DENOM in if 0 <? fee then [(treasury, fee)] else []).
Proof using Type.
  intros [_ [D2 _] _ _ _ _ _ _ [D9 D9'] _ _]. unfold main_sends, job_outcome. cbn [winner amount to platform_fee].
  rewrite (bps_exact bs b) by done. f_equal.
  destruct (payout_wallet_of w winner_id); [rewrite bool_decide_true by done|rewrite bool_decide_false by (by intros [? ?])]; done.
Qed.

(** C3: a paid job is paid, end to end.  Take a job whose rates fit sixteen bits, whose
    agreeing runners all have wallets, different from each other and at most
    thirty-two, whose winner's wallet is not the arbiter's, whose addresses are
    standard ones, whose result hash has 32 bytes, whose deadline and parameter version
    fit 32 bits, whose amounts are below 2^112 and whose price and split fit the locked
    amount, on a rail without a candidate list of its own.  Then the state the rail deploys is read by the contract as exactly
    this open escrow: the requester, the rail's arbiter, the locked amount, the
    deadline, not settled, the treasury, the result hash, the commitment to the
    candidates, the parameter version and the two rates of the configuration, and an
    empty ledger of pending payouts.  The order the rail sends parses, and the
    contract accepts it from the arbiter and pays exactly: the price to the winner
    (when it has a wallet), the fee rate of the price to the treasury, and the
    commission rate of the price to each agreeing runner, once; the escrow is then
    settled and otherwise unchanged. *)
Theorem paid_job_settles_on_chain (rq treasury : WalletAddress) (rh : Hash32) (bs b dl version q : Z) :
  deal_ready rq treasury rh bs b dl version -> in_u 64 q ->
  let o := job_outcome w cfg winner_id others rh bs in
  let fee_bps := to_bps (platform_fee_pct cfg) in
  let comm_bps := to_bps (participation_commission_frac cfg) in
  let tm := mkTerms rh version (candidate_wallets w winner_id others) (Some treasury) (Some (wrap 16 fee_bps)) (Some (wrap 16 comm_bps)) in
  let fee := bs * fee_bps / BPS_DENOM in
  let commission := bs * comm_bps / BPS_DENOM in
  exists ch body m ps,
    let escrow settled := mkStorage rq (ts_arbiter t) b dl settled (mkOnchainTerms treasury rh ch version fee_bps comm_bps) ∅ in
    candidates_commitment (candidates tm) = Some ch
    /\ load_initial (escrow_state t tm rq treasury ch b dl) = Some (escrow false)
    /\ build_escrow_settle q (result_hash o) (to (winner o)) (base o) (amount (winner o)) (platform_fee o) (participants o)
         (settle_candidate_set t o) = Some body
    /\ parse_settle (body_cell body) = Some m
    /\ on_settle (escrow false) (ts_arbiter t) m = Ok (escrow true,
         (if bool_decide (is_Some (payout_wallet_of w winner_id)) && (0 <? bs) then [(wallet_of w winner_id, bs)] else [])
         ++ (if 0 <? fee then [(treasury, fee)] else []) ++ ps)
    /\ ps ≡ₚ (if commission =? 0 then [] else (fun n => (wallet_of w n, commission)) <$> others).
Proof using CL.
  intros D Hq o fee_bps comm_bps tm fee commission. pose proof (deal_outcome_wf _ _ _ _ _ _ _ D) as Wo. fold o in Wo.
  assert (Forall Address_wf (settle_candidate_set t o)) as Wc
    by (apply settle_candidates_wf; [rewrite (dr_plain _ _ _ _ _ _ _ D); constructor|done]).
  assert (store_dict empty_builder ADDRESS_KEY_BITS (candidates_dict_entries (settle_candidate_set t o))
    = store_dict empty_builder ADDRESS_KEY_BITS (candidates_dict_entries (candidates tm))) as Hs.
  { apply dict_of_same_set; [done|]. intros x. apply same_candidates; apply D. }
  destruct (candidates_cell (settle_candidate_set t o) Wc) as (c & r & Ec & _).
  assert (candidates_commitment (settle_candidate_set t o) = Some (repr_hash c)) as Hc
    by (unfold candidates_commitment; by rewrite Ec).
  assert (candidates_commitment (candidates tm) = Some (repr_hash c)) as Hc'
    by (unfold candidates_commitment; by rewrite <- Hs, Ec).
  pose proof (deal_payable _ _ _ _ _ _ _ _ D Hc) as Hp. fold o fee_bps comm_bps in Hp.
  destruct (settle_accepted _ o _ q Hp Wo Wc Hq) as (body & m & ps & E1 & E2 & E3 & E4).
  exists (repr_hash c), body, m, ps. split; [done|]. split.
  { unfold escrow_state, tm. cbn [terms_fee_bps terms_comm_bps expected_hash params_version default].
    rewrite !wrap_small by apply D. apply load_initial_built, (deal_terms_wf _ _ _ _ _ _ _ _ D), repr_hash_length. }
  split; [done|]. split; [done|]. split.
  { pose proof (deal_main_sends _ _ _ _ _ _ _ D) as Em. fold o in Em. cbn [ot_treasury st_terms] in E3.
    rewrite Em, <- app_assoc in E3. exact E3. }
  rewrite E4. unfold o. rewrite all_paid by apply D.
  rewrite deal_merged by apply D. destruct D as [_ [_ D2'] _ _ _ _ _ _ [D9 D9'] _ _]. by rewrite (bps_exact bs b).
Qed.

(** A settlement that includes a free runner is refused: the coordinator commits the
    escrow to the address of every agreeing runner, with a wallet or not, but the
    order the rail derives presents only the winner and the wallets that are paid,
    so with an agreeing runner that has no wallet, and whose address is not one of
    those, the contract accepts the order from nobody, unless sha256 collides. *)
Theorem free_runner_settlement_refused (n : NodeId) (rh : Hash32) (bs q : Z) (s : EscrowStorage) :
  let o := job_outcome w cfg winner_id others rh bs in
  ts_candidates t = [] -> Outcome_wf o -> Forall Address_wf (wallet_of w <$> winner_id :: others) -> in_u 64 q ->
  candidates_commitment (candidate_wallets w winner_id others) = Some (ot_candidatesHash (st_terms s)) ->
  NoCollision sha256 (commitment_queries (settle_candidate_set t o) ++ commitment_queries (candidate_wallets w winner_id others)) ->
  n ∈ others -> wallet_of w n ∉ to <$> (winner o :: participants o) ->
  exists body m,
    build_escrow_settle q (result_hash o) (to (winner o)) (base o) (amount (winner o)) (platform_fee o) (participants o)
      (settle_candidate_set t o) = Some body
    /\ parse_settle (body_cell body) = Some m
    /\ forall sender s' out, on_settle s sender m <> Ok (s', out).
Proof using CL.
  intros o Ht Wo Wa Hq Hc Hn Hin Hni.
  assert (Forall Address_wf (settle_candidate_set t o)) as Wc by (apply settle_candidates_wf; [rewrite Ht; constructor|done]).
  destruct (settle_message o _ q Wo Wc Hq) as (body & parts & cands & ms & Eb & Ep & K & _).
  eexists body, _. split; [done|]. split; [exact Ep|]. intros sender s' out Hs.
  apply on_settle_ok in Hs as (_ & _ & _ & E & _). cbn [sm_candidates] in E. rewrite <- E, <- K in Hc.
  assert (Forall Address_wf (candidate_wallets w winner_id others)) as Wd.
  { rewrite fmap_cons in Wa. apply Forall_cons in Wa as [Ww Wa]. rewrite Forall_fmap, Forall_forall in Wa.
    apply Forall_forall. intros x [->|(y & Hy & <-)]%elem_of_candidates; [done|by apply Wa]. }
  assert (wallet_of w n ∈ settle_candidate_set t o) as Hi.
  { apply (commitment_inj _ _ Wc Wd Hn); [by symmetry|]. apply elem_of_candidates. right. by exists n. }
  unfold settle_candidate_set in Hi. rewrite Ht in Hi. apply Hni. apply elem_of_collect in Hi as [Hi|(p & Hp & E')].
  - apply list_elem_of_singleton in Hi as ->. by left.
  - rewrite <- E'. apply list_elem_of_fmap_2. by right.
Qed.

(** Runners that share a wallet block the settlement: their equal commissions are
    merged into one entry of the payout map, while the contract requires every entry
    to be exactly one commission; so when two agreeing runners are paid on one
    address and the commission is not zero, the contract accepts the order from
    nobody. *)
Theorem shared_wallet_settlement_refused (others1 others2 others3 : list NodeId) (n1 n2 : NodeId) (rh : Hash32) (bs b q : Z)
    (s : EscrowStorage) :
  others = others1 ++ n1 :: others2 ++ n2 :: others3 ->
  let o := job_outcome w cfg winner_id others rh bs in
  let comm_bps := to_bps (participation_commission_frac cfg) in
  ts_candidates t = [] -> Outcome_wf o -> in_u 64 q -> Cfg_wf cfg -> 0 <= bs <= b -> in_u 112 b ->
  Forall (fun n => is_Some (payout_wallet_of w n)) others -> wallet_of w n1 = wallet_of w n2 ->
  ot_participationCommissionBps (st_terms s) = comm_bps -> 0 < bs * comm_bps / BPS_DENOM ->
  sum_by amount (participants o) < 2 ^ 120 ->
  exists body m,
    build_escrow_settle q (result_hash o) (to (winner o)) (base o) (amount (winner o)) (platform_fee o) (participants o)
      (settle_candidate_set t o) = Some body
    /\ parse_settle (body_cell body) = Some m
    /\ forall sender s' out, on_settle s sender m <> Ok (s', out).
Proof using Type.
  intros Eo o comm_bps Ht Wo Hq [_ Hr] Hb Hb' Hp Ew Es Hc Hsum. set (ce := bs * comm_bps / BPS_DENOM) in *.
  assert (Forall Address_wf (settle_candidate_set t o)) as Wc by (apply settle_candidates_wf; [rewrite Ht; constructor|done]).
  destruct (settle_message o _ q Wo Wc Hq) as (body & parts & cands & ms & Eb & Ep & _ & _ & El & Hms).
  eexists body, _. split; [done|]. split; [exact Ep|]. intros sender s' out Hs.
  apply on_settle_ok in Hs as (_ & _ & _ & _ & _ & _ & _ & _ & _ & es & tot & ps & Ed & Ec & _).
  cbn [sm_participants sm_base sm_candidates] in *. rewrite El in Ed. injection Ed as <-. rewrite Es in Ec.
  destruct Wo as (_ & Wp & _). destruct (merge_payouts_spec _ Wp) as ([_ Hpos] & Hamt & _).
  assert (2 * ce <= amount_for (merge_payouts (participants o)) (wallet_of w n1)) as Htwo.
  { rewrite Hamt. revert Wp Hsum. unfold o. rewrite all_paid, Eo, fmap_app, fmap_cons, fmap_app, fmap_cons by done.
    rewrite (bps_exact bs b) by done. change (bs * to_bps (participation_commission_frac cfg) / BPS_DENOM) with ce.
    intros Wp Hsum.
    pose proof (paid_twice _ _ _ _ _ (wallet_of w n1) Wp eq_refl (eq_sym Ew)) as H. cbn [amount] in H.
    rewrite <- Z.add_diag. apply H. apply Forall_app in Wp as [_ [[_ [_ Hu]] _]%Forall_cons]. cbn [amount] in Hu.
    pose proof (bps_range bs b comm_bps Hb Hb' Hr) as [_ Hce]. fold ce in Hce. unfold umax. lia. }
  assert (exists a, (wallet_of w n1, a) ∈ ms /\ 2 * ce <= a) as (a & Ha & Hbig).
  { destruct (merge_payouts (participants o)) as [|x l] eqn:Em; [cbn in Htwo; lia|]. rewrite <- Em in *.
    assert (forall m, 2 * ce <= amount_for m (wallet_of w n1) -> exists a, (wallet_of w n1, a) ∈ m /\ 2 * ce <= a) as Hex.
    { clear -Hc. intros m. induction m as [|[x a] m IH]; cbn [amount_for]; [lia|].
      destruct (bool_decide_reflect (x = wallet_of w n1)) as [->|]; [intros H; exists a; split; [by left|done]|].
      intros H. destruct (IH H) as (a' & ? & ?). exists a'. split; [by right|done]. }
    destruct (Hex _ Htwo) as (a & Hi & ?). exists a. split; [by rewrite Hms|done]. }
  destruct (check_participants_ok _ _ _ _ _ _ _ Ec) as (amts & Hl & _ & Hf & _).
  apply list_elem_of_lookup_1 in Ha as [i Hi].
  assert ((leg <$> ms) !! i = Some (leg (wallet_of w n1, a))) as Hi' by (by rewrite list_lookup_fmap, Hi).
  destruct (Forall2_lookup_l _ _ _ _ _ Hf Hi') as (a' & _ & _ & Hload & Heq). unfold leg in Hload. cbn [fst snd] in Hload.
  assert (in_u 120 a) as Hra.
  { apply list_elem_of_lookup_2 in Hi. rewrite Hms in Hi.
    pose proof (merged_in_range _ _ Wp (Z.le_refl _) Hsum) as Hall. rewrite Forall_forall in Hall. apply (Hall _ Hi). }
  rewrite slice_coins in Hload by done. injection Hload as <-.
  assert (0 < comm_bps) as Hcp by (destruct Hr; unfold ce, BPS_DENOM in Hc; assert (comm_bps <> 0) by (intros E0; rewrite E0, Z.mul_0_r in Hc; done); lia).
  specialize (Heq Hcp). cbn [base o job_outcome] in Heq. unfold o in Heq. cbn [base job_outcome] in Heq. fold ce in Heq. lia.
Qed.
End end_to_end.

(** ** The life of an escrow *)

Inductive escrow_event :=
| Released (out : sends) | RefundedAll | Claimed (w : WalletAddress) (a : Amount) | Bounced (w : WalletAddress) (a : Amount).

Section life.
Context {C : Crypto}.

(** One message handled without a throw. *)
Inductive escrow_step : EscrowStorage -> escrow_event -> EscrowStorage -> Prop :=
| step_settle s sender m s' out : on_settle s sender m = Ok (s', out) -> escrow_step s (Released out) s'
| step_refund s now s' : on_refund s now = Ok s' -> escrow_step s RefundedAll s'
| step_claim s w a s' : on_claim s w = Ok (s', [(w, a)]) -> escrow_step s (Claimed w a) s'
| step_bounce s w v : 0 <= v -> escrow_step s (Bounced w v) (on_bounced_payout s w v).

Inductive escrow_run : EscrowStorage -> list escrow_event -> EscrowStorage -> Prop :=
| run_nil s : escrow_run s [] s
| run_snoc s tr s1 e s2 : escrow_run s tr s1 -> escrow_step s1 e s2 -> escrow_run s (tr ++ [e]) s2.

Definition is_release (e : escrow_event) : Z := match e with Released _ | RefundedAll => 1 | _ => 0 end.
Definition claimed_by (w : WalletAddress) (e : escrow_event) : Z :=
  match e with Claimed x a => if bool_decide (x = w) then a else 0 | _ => 0 end.
Definition bounced_to (w : WalletAddress) (e : escrow_event) : Z :=
  match e with Bounced x a => if bool_decide (x = w) then a else 0 | _ => 0 end.

Definition pending_of (s : EscrowStorage) (w : WalletAddress) : Amount := default 0 (st_pending s !! w).

(** Over any sequence of messages to a fresh escrow, the money is released or
    refunded at most once, and exactly when the escrow is marked settled; the terms,
    parties, amount and deadline never change; and for every wallet what has been
    claimed plus what is still pending is exactly what has bounced back from it. *)
Theorem escrow_life (s s' : EscrowStorage) (tr : list escrow_event) :
  st_settled s = false -> st_pending s = ∅ -> escrow_run s tr s' ->
  sum_by is_release tr = (if st_settled s' then 1 else 0)
  /\ (st_terms s', st_requester s', st_arbiter s', st_escrowAmount s', st_deadline s')
     = (st_terms s, st_requester s, st_arbiter s, st_escrowAmount s, st_deadline s)
  /\ forall w, sum_by (claimed_by w) tr + pending_of s' w = sum_by (bounced_to w) tr.
Proof using Type.
  intros H0 Hp Hr. revert H0 Hp. induction Hr as [s|s tr s1 e s2 _ IH Hs]; intros H0 Hp.
  { rewrite H0. split; [done|]. split; [done|]. intros w. unfold pending_of. by rewrite Hp, lookup_empty. }
  destruct (IH H0 Hp) as (I1 & I2 & I3). clear IH. rewrite sum_by_app, I1.
  destruct Hs as [s1 sender m s2 out Hs|s1 now s2 Hs|s1 x a s2 Hs|s1 x v Hv].
  - apply on_settle_ok in Hs as (_ & Hf & _ & _ & _ & _ & _ & _ & -> & _). rewrite Hf. split; [done|]. split; [done|].
    intros w. specialize (I3 w). rewrite !sum_by_app. cbn [sum_by foldr claimed_by bounced_to]. unfold pending_of in *. cbn [settled_storage st_pending] in *. lia.
  - unfold on_refund in Hs. destruct (st_settled s1); [done|]. destruct (now <? st_deadline s1); [done|]. injection Hs as <-.
    split; [done|]. split; [done|]. intros w. specialize (I3 w). rewrite !sum_by_app.
    cbn [sum_by foldr claimed_by bounced_to]. unfold pending_of in *. cbn [st_pending] in *. lia.
  - unfold on_claim in Hs. destruct (st_pending s1 !! x) as [a'|] eqn:Ex; [|done]. destruct (0 <? a'); [|done]. cbn [negb] in Hs.
    injection Hs as <- <-. cbn [st_settled st_terms st_requester st_arbiter st_escrowAmount st_deadline].
    split; [cbn; lia|]. split; [done|]. intros w. specialize (I3 w). rewrite !sum_by_app. unfold pending_of in *.
    cbn [sum_by foldr claimed_by bounced_to st_pending]. destruct (bool_decide_reflect (x = w)) as [->|Hne].
    + rewrite lookup_delete_eq. rewrite Ex in I3. cbn [default from_option id] in *. lia.
    + rewrite lookup_delete_ne by done. lia.
  - cbn [on_bounced_payout st_settled st_terms st_requester st_arbiter st_escrowAmount st_deadline].
    split; [cbn; lia|]. split; [done|]. intros w. specialize (I3 w). rewrite !sum_by_app. unfold pending_of in *.
    cbn [sum_by foldr claimed_by bounced_to st_pending on_bounced_payout]. destruct (bool_decide_reflect (x = w)) as [->|Hne].
    + rewrite lookup_insert_eq. cbn [default from_option id] in *. lia.
    + rewrite lookup_insert_ne by done. lia.
Qed.
End life.

(** ** Examples *)

#[global] Instance Cfg_wf_dec cfg : Decision (Cfg_wf cfg).
Proof. unfold Cfg_wf. apply _. Defined.

Definition wallet_no (k : Z) : WalletAddress := mkWallet 0 (le_bytes 32 k).
(** Nodes bound to a wallet, but for [free]. *)
Definition wiring_example : Wiring :=
  mkWiring 3 (Some (wallet_no 99))
    (Some (fun n => if bool_decide (n = str "free") then None else Some (wallet_no (be_val n))))
    (Some (fun n => wallet_no (be_val n))) true true.
Definition cfg_example : PayConfig := mkPayConfig true (lit 15 100) (lit 5 100) 100 None.
Definition bare_rail : TonSettlement := with_escrow_code code_example empty_builder (wallet_no 7).
Definition quorum_hash : Hash32 := replicate 32 Byte.xaa.

Lemma deal_example :
  deal_ready (C := toy_crypto) bare_rail wiring_example cfg_example (str "w1") [str "n1"; str "n2"]
    (wallet_no 8) (wallet_no 99) quorum_hash 800 1000 1700003600 3.
Proof. split; decide_closed. Qed.

Lemma paid_job_settles_on_chain_witness :
  let o := job_outcome (C := toy_crypto) wiring_example cfg_example (str "w1") [str "n1"; str "n2"] quorum_hash 800 in
  let tm := mkTerms quorum_hash 3 (candidate_wallets (C := toy_crypto) wiring_example (str "w1") [str "n1"; str "n2"])
              (Some (wallet_no 99)) (Some (wrap 16 (to_bps (platform_fee_pct cfg_example))))
              (Some (wrap 16 (to_bps (participation_commission_frac cfg_example)))) in
  exists ch body m ps,
    let escrow settled := mkStorage (wallet_no 8) (wallet_no 7) 1000 1700003600 settled (mkOnchainTerms (wallet_no 99) quorum_hash ch 3 1500 500) ∅ in
    candidates_commitment (C := toy_crypto) (candidates tm) = Some ch
    /\ load_initial (escrow_state bare_rail tm (wallet_no 8) (wallet_no 99) ch 1000 1700003600) = Some (escrow false)
    /\ build_escrow_settle 5 (result_hash o) (to (winner o)) (base o) (amount (winner o)) (platform_fee o) (participants o)
         (settle_candidate_set bare_rail o) = Some body
    /\ parse_settle (body_cell body) = Some m
    /\ on_settle (C := toy_crypto) (escrow false) (wallet_no 7) m
         = Ok (escrow true, [(wallet_of (C := toy_crypto) wiring_example (str "w1"), 800)] ++ [(wallet_no 99, 120)] ++ ps)
    /\ ps ≡ₚ [(wallet_of (C := toy_crypto) wiring_example (str "n1"), 40); (wallet_of (C := toy_crypto) wiring_example (str "n2"), 40)].
Proof.
  apply (paid_job_settles_on_chain (C := toy_crypto) (CL := toy_laws) bare_rail wiring_example cfg_example (str "w1")
    [str "n1"; str "n2"] (wallet_no 8) (wallet_no 99) quorum_hash 800 1000 1700003600 3 5); [exact deal_example|decide_closed].
Defined.

Definition root_of (es : list DictEntry) : option Cell :=
  c ← store_dict empty_builder ADDRESS_KEY_BITS es; head (refs c).
Definition cs_example : list WalletAddress := [wallet_no 1; wallet_no 2; wallet_no 3].
Definition storage_example : EscrowStorage :=
  mkStorage (wallet_no 8) (wallet_no 7) 1000 1700003600 false
    (mkOnchainTerms (wallet_no 99) quorum_hash (default [] (candidates_commitment (C := toy_crypto) cs_example)) 3 1500 500) ∅.
Definition order_example : SettleMsg :=
  mkSettle 5 quorum_hash (wallet_no 1) 800 800 120
    (root_of (participants_dict_entries [mkPayout (wallet_no 2) 40; mkPayout (wallet_no 3) 40]))
    (root_of (candidates_dict_entries cs_example)).
Definition sends_example : sends :=
  [(wallet_no 1, 800); (wallet_no 99, 120); (wallet_no 2, 40); (wallet_no 3, 40)].

Lemma order_settles :
  on_settle (C := toy_crypto) storage_example (wallet_no 7) order_example
  = Ok (settled_storage storage_example, sends_example).
Proof. vm_compute. reflexivity. Qed.

Lemma order_tree : Tree_ok (store_maybe_ref empty_builder (sm_candidates order_example)).
Proof.
  destruct (candidates_cell cs_example ltac:(decide_closed)) as (c & r & E & T & _).
  replace (store_maybe_ref empty_builder (sm_candidates order_example)) with c; [done|].
  apply (inj Some). rewrite <- E. vm_compute. reflexivity.
Qed.

Lemma settle_only_as_agreed_witness :
  let s := storage_example in let m := order_example in let out := sends_example in
  wallet_no 7 = st_arbiter s /\ st_settled s = false /\ st_settled (settled_storage s) = true
  /\ sm_resultHash m = ot_expectedHash (st_terms s) /\ sum_by snd out <= st_escrowAmount s
  /\ Forall (fun x => x.1 = ot_treasury (st_terms s) \/ x.1 ∈ cs_example) out
  /\ sm_winner m ∈ cs_example /\ sm_winner m <> st_arbiter s /\ sm_winnerAmount m <= sm_base m
  /\ sm_platformFee m = sm_base m * ot_platformFeeBps (st_terms s) / BPS_DENOM.
Proof.
  apply (settle_only_as_agreed (C := toy_crypto) (CL := toy_laws) storage_example (settled_storage storage_example) (wallet_no 7)
    order_example sends_example cs_example);
    [vm_compute; reflexivity|decide_closed|decide_closed|decide_closed|decide_closed|exact order_tree|decide_closed|exact order_settles].
Defined.

Lemma free_runner_settlement_refused_witness :
  let o := job_outcome (C := toy_crypto) wiring_example cfg_example (str "w1") [str "n1"; str "free"] quorum_hash 800 in
  let s := mkStorage (wallet_no 8) (wallet_no 7) 1000 1700003600 false
    (mkOnchainTerms (wallet_no 99) quorum_hash
      (default [] (candidates_commitment (C := toy_crypto) (candidate_wallets (C := toy_crypto) wiring_example (str "w1") [str "n1"; str "free"])))
      3 1500 500) ∅ in
  exists body m,
    build_escrow_settle 5 (result_hash o) (to (winner o)) (base o) (amount (winner o)) (platform_fee o) (participants o)
      (settle_candidate_set bare_rail o) = Some body
    /\ parse_settle (body_cell body) = Some m
    /\ forall sender s' out, on_settle (C := toy_crypto) s sender m <> Ok (s', out).
Proof.
  apply (free_runner_settlement_refused (C := toy_crypto) (CL := toy_laws) bare_rail wiring_example cfg_example (str "w1")
    [str "n1"; str "free"] (str "free") quorum_hash 800 5);
    [reflexivity|decide_closed|decide_closed|decide_closed|vm_compute; reflexivity|decide_closed|decide_closed|decide_closed].
Defined.

Lemma shared_wallet_settlement_refused_witness :
  let o := job_outcome (C := toy_crypto) wiring_example cfg_example (str "w1") [str "n1"; str "n1"] quorum_hash 800 in
  exists body m,
    build_escrow_settle 5 (result_hash o) (to (winner o)) (base o) (amount (winner o)) (platform_fee o) (participants o)
      (settle_candidate_set bare_rail o) = Some body
    /\ parse_settle (body_cell body) = Some m
    /\ forall sender s' out, on_settle (C := toy_crypto) storage_example sender m <> Ok (s', out).
Proof.
  apply (shared_wallet_settlement_refused (C := toy_crypto) bare_rail wiring_example cfg_example (str "w1")
    [str "n1"; str "n1"] [] [] [] (str "n1") (str "n1") quorum_hash 800 1000 5 storage_example);
    [reflexivity|reflexivity|decide_closed|decide_closed|decide_closed|decide_closed|decide_closed|decide_closed|reflexivity
    |vm_compute; reflexivity|vm_compute; reflexivity|vm_compute; reflexivity].
Defined.

Lemma escrow_life_witness :
  let s1 := on_bounced_payout (settled_storage storage_example) (wallet_no 2) 40 in
  sum_by is_release [Released sends_example; Bounced (wallet_no 2) 40] = 1
  /\ (st_terms s1, st_requester s1, st_arbiter s1, st_escrowAmount s1, st_deadline s1)
     = (st_terms storage_example, st_requester storage_example, st_arbiter storage_example,
        st_escrowAmount storage_example, st_deadline storage_example)
  /\ forall w, sum_by (claimed_by w) [Released sends_example; Bounced (wallet_no 2) 40] + pending_of s1 w
               = sum_by (bounced_to w) [Released sends_example; Bounced (wallet_no 2) 40].
Proof.
  apply (escrow_life (C := toy_crypto) storage_example (on_bounced_payout (settled_storage storage_example) (wallet_no 2) 40)
    [Released sends_example; Bounced (wallet_no 2) 40]); [reflexivity|reflexivity|].
  apply (run_snoc _ [Released sends_example] (settled_storage storage_example)); [|by constructor].
  apply (run_snoc _ [] storage_example); [constructor|]. apply (step_settle _ (wallet_no 7) order_example). exact order_settles.
Defined.
