(* ===== verification/Abuse.v ===== *)
(** * Abuse resistance (crates/trust/src/antiabuse.rs, crates/node/src/antiabuse.rs,
      crates/config/src/blocklist.rs)

    Fault attribution, requester weighting, the detection of queries without a
    stable result, the pre-flight cost gate, and the deny list with its persisted
    store. *)

From S2P Require Import Prelude Bytes F64 Crypto Text Proto Signing.

(** ** Fault attribution *)

Definition any_contained (ps : list bytes) (m : bytes) : bool := existsb (fun p => contains p m) ps.

Definition resource_markers : list bytes :=
  str <$> ["out of memory"; "could not allocate"; "memory limit"; "failed to allocate";
           "exceeds the memory limit"; "resource exhaust"; "too large"; "disk quota"; "no space left";
           "cap deadline exceeded"]%string.
Definition infeasible_markers : list bytes :=
  str <$> ["syntax error"; "parser error"; "binder error"; "catalog error"; "does not exist"; "no such";
           "not found"; "referenced table"; "referenced column"; "type mismatch"; "conversion error";
           "permission"; "no files found"]%string.

Definition classify_failure (err_msg : bytes) : Verdict :=
  let m := to_ascii_lowercase err_msg in
  if any_contained resource_markers m then ResourceExceeded
  else if any_contained infeasible_markers m then Infeasible
  else Inconclusive.

Definition is_job_consensus_failure (same_failure selected : Z) (fraction : f64) : bool :=
  if selected <? 2 then false
  else
    let need := as_uint 64 (fceil (fmul (fclamp fraction (f64_of_Z 0) (f64_of_Z 1)) (f64_of_Z selected))) in
    Z.max need 2 <=? same_failure.

(** ** Requester weight *)

Definition age_factor (observations saturate_at : Z) : f64 :=
  if saturate_at =? 0 then f64_of_Z 1 else fmin (fdiv (f64_of_Z observations) (f64_of_Z saturate_at)) (f64_of_Z 1).

Definition clamp01 (x : f64) : f64 := fclamp x (f64_of_Z 0) (f64_of_Z 1).

Definition requester_trust_weight (reputation : option f64) (observations age_saturation : Z) (floor : f64) : f64 :=
  let floor := clamp01 floor in
  let age := age_factor observations age_saturation in
  let rep := clamp01 (default (f64_of_Z 0) reputation) in
  let standing := clamp01 (fmul age rep) in
  clamp01 (fadd floor (fmul (fsub (f64_of_Z 1) floor) standing)).

(** ** Queries without a stable result *)

Definition FN_MARKERS : list bytes :=
  str <$> ["random("; "now("; "uuid("; "gen_random_uuid("; "nextval("; "txid("; "current_setting("; "version(";
           "random()"]%string.
Definition CURRENT_MARKERS : list bytes :=
  str <$> ["current_date"; "current_time"; "current_timestamp"; "current_localtime"; "current_localtimestamp";
           "localtime"; "localtimestamp"; "get_current_time"; "current_query"]%string.

Definition is_ident_byte (b : byte) : bool :=
  let v := byte_val b in
  ((48 <=? v) && (v <=? 57)) || ((65 <=? v) && (v <=? 90)) || ((97 <=? v) && (v <=? 122)) || (v =? 95).

(** [s.find(word)] *)
Fixpoint find (word s : bytes) : option nat :=
  if starts_with word s then Some 0%nat
  else match s with [] => None | _ :: s' => S <$> find word s' end.

(** The loop of [contains_word] from position [i]; each round moves past an occurrence. *)
Fixpoint contains_word_from (fuel : nat) (s word : bytes) (i : nat) : bool :=
  match fuel with
  | O => false
  | S fuel' =>
      match find word (drop i s) with
      | None => false
      | Some pos =>
          let start := (i + pos)%nat in
          let last := (start + length word)%nat in
          let before_ok := (start =? 0)%nat || negb (is_ident_byte (nth (start - 1) s Byte.x00)) in
          let after_ok := (length s <=? last)%nat || negb (is_ident_byte (nth last s Byte.x00)) in
          if before_ok && after_ok then true
          else if (length s <=? start + 1)%nat then false
          else contains_word_from fuel' s word (start + 1)
      end
  end.

Definition contains_word (s word : bytes) : bool := contains_word_from (S (length s)) s word 0.

Definition is_nondeterministic (sql : bytes) : bool :=
  let s := to_ascii_lowercase sql in
  if any_contained FN_MARKERS s then true
  else if any_contained CURRENT_MARKERS s then true
  else if contains_word s (str "limit") && negb (contains (str "order by") s) then true
  else false.

(** ** Cost gate *)

Record CostGateConfig := mkCostGate { max_cost_hint_rows : Z; max_working_set_factor : f64 }.

Definition cost_gate_reason (cfg : CostGateConfig) (cost_hint_rows estimated_peak_bytes : option Z)
    (per_job_memory_bytes : Z) : option bytes :=
  let rows_over :=
    match cost_hint_rows with
    | Some rows => (0 <? max_cost_hint_rows cfg) && (max_cost_hint_rows cfg <? rows)
    | None => false
    end in
  match cost_hint_rows, rows_over with
  | Some rows, true =>
      Some (str "over budget: estimated " ++ show_uint rows
        ++ str " rows exceeds the worker's max_cost_hint_rows (" ++ show_uint (max_cost_hint_rows cfg) ++ str ")")
  | _, _ =>
      match estimated_peak_bytes with
      | Some peak =>
          let factor := if flt (f64_of_Z 0) (max_working_set_factor cfg) then max_working_set_factor cfg else f64_of_Z 1 in
          let cap := as_uint 64 (fmul (f64_of_Z per_job_memory_bytes) factor) in
          if (0 <? cap) && (cap <? peak)
          then Some (str "over budget: estimated peak working set " ++ show_uint peak
                 ++ str " bytes exceeds budget " ++ show_uint cap ++ str " bytes")
          else None
      | None => None
      end
  end.

(** ** The deny list *)

Inductive BlockKind := KNodeId | KWallet.
Definition kind_as_str (k : BlockKind) : bytes := match k with KNodeId => str "node_id" | KWallet => str "wallet" end.
Definition kind_parse (s : bytes) : option BlockKind :=
  let t := to_ascii_lowercase (trim s) in
  if bool_decide (t ∈ (str <$> ["node_id"; "node"; "nodeid"; "peer"]%string)) then Some KNodeId
  else if bool_decide (t ∈ (str <$> ["wallet"; "address"; "addr"]%string)) then Some KWallet
  else None.

Record BlockEntry := mkEntryB { b_id : bytes; b_kind : BlockKind; b_reason : bytes; b_source : bytes; b_ts : Z }.

Inductive StoreError := BadParam (msg : bytes) | StoreIo (path msg : bytes).

(** The store: the entries of its file (an unreadable file is an empty list). *)
Abbreviation blocklist_file := (list BlockEntry).

Definition store_is_blocked (f : blocklist_file) (id : bytes) : bool := existsb (fun e => bool_decide (b_id e = id)) f.

Definition store_block (f : blocklist_file) (id : bytes) (kind : BlockKind) (reason source : bytes) (ts : Z)
  : result blocklist_file StoreError :=
  let id := trim id in
  match id with
  | [] => Err (BadParam (str "block: id must be non-empty"))
  | _ => Ok (List.filter (fun e => negb (bool_decide (b_id e = id))) f ++ [mkEntryB id kind reason source ts])
  end.

Definition store_unblock (f : blocklist_file) (id : bytes) : bool * blocklist_file :=
  let id := trim id in
  let kept := List.filter (fun e => negb (bool_decide (b_id e = id))) f in
  let removed := negb (length kept =? length f)%nat in
  (removed, if removed then kept else f).

(** The runtime list, with an optional store that writes succeed on. *)
Record Blocklist := mkBlocklist { bl_ids : gset bytes; bl_store : option blocklist_file }.

Definition blocklist_new : Blocklist := mkBlocklist ∅ None.
Definition with_store (f : blocklist_file) : Blocklist := mkBlocklist (list_to_set (b_id <$> f)) (Some f).
Definition is_blocked (b : Blocklist) (id : bytes) : bool := bool_decide (id ∈ bl_ids b).

Definition block (b : Blocklist) (id : bytes) (kind : BlockKind) (reason source : bytes) (now : Z) : Blocklist :=
  match trim id with
  | [] => b
  | _ =>
      if bool_decide (trim id ∈ bl_ids b) then b
      else mkBlocklist ({[trim id]} ∪ bl_ids b)
             (match bl_store b with
              | Some f => Some (match store_block f (trim id) kind reason source now with Ok f' => f' | Err _ => f end)
              | None => None
              end)
  end.

Definition unblock (b : Blocklist) (id : bytes) : bool * Blocklist :=
  if bool_decide (id ∈ bl_ids b)
  then (true, mkBlocklist (bl_ids b ∖ {[id]})
                (match bl_store b with Some f => Some (store_unblock f id).2 | None => None end))
  else (false, b).

Definition blocklist_len (b : Blocklist) : nat := size (bl_ids b).

Definition apply_signed_signal {C : Crypto} (b : Blocklist) (s : AbuseSignal) (honor : bool) (now : Z) : bool * Blocklist :=
  if negb honor || negb (verify_abuse_signal s) then (false, b)
  else
    let b := block b (ab_subject_id s) KNodeId
               (str "abuse signal: " ++ ab_reason s ++ str " (from " ++ ab_reporter_id s ++ str ")") (str "gossip") now in
    let b := match ab_subject_wallet s with
             | Some w => block b w KWallet (ab_reason s) (str "gossip") now
             | None => b
             end in
    (true, b).

(** ** Words *)

(** An occurrence at [k]: the word is read there. *)
Definition occurs_at (w s : bytes) (k : nat) : bool := starts_with w (drop k s).

Lemma find_spec w s :
  match find w s with
  | Some p => occurs_at w s p = true /\ forall k, (k < p)%nat -> occurs_at w s k = false
  | None => forall k, (k <= length s)%nat -> occurs_at w s k = false
  end.
Proof.
  unfold occurs_at. induction s as [|x s IH]; cbn [find]; destruct (starts_with w _) eqn:E.
  - split; [done|]. intros k Hk. lia.
  - intros k Hk. cbn in Hk. by replace k with 0%nat by lia.
  - split; [done|]. intros k Hk. lia.
  - destruct (find w s) as [p|]; cbn [fmap option_fmap option_map].
    + destruct IH as [H1 H2]. split; [done|]. intros [|k] Hk; [done|]. apply H2. lia.
    + intros [|k] Hk; [done|]. cbn in Hk. apply IH. lia.
Qed.

(** The word stands alone at [k]. *)
Definition word_at (w s : bytes) (k : nat) : bool :=
  occurs_at w s k
  && ((k =? 0)%nat || negb (is_ident_byte (nth (k - 1) s Byte.x00)))
  && ((length s <=? k + length w)%nat || negb (is_ident_byte (nth (k + length w) s Byte.x00))).

Lemma occurs_in_range w s k : w <> [] -> occurs_at w s k = true -> (k < length s)%nat.
Proof.
  intros Hw [r E]%starts_with_spec. apply (f_equal length) in E. rewrite length_drop, length_app in E.
  destruct w; [done|]. cbn in E. lia.
Qed.

Lemma contains_word_loop fuel s w i :
  w <> [] -> (length s < fuel + i)%nat -> (i <= length s)%nat ->
  contains_word_from fuel s w i = true <-> exists k, (i <= k)%nat /\ word_at w s k = true.
Proof.
  intros Hw. revert i. induction fuel as [|fuel IH]; intros i Hf Hi; [lia|]. cbn [contains_word_from].
  pose proof (find_spec w (drop i s)) as Hs. destruct (find w (drop i s)) as [pos|].
  - destruct Hs as [Hp Hmin]. unfold occurs_at in Hp, Hmin. rewrite drop_drop in Hp. set (st := (i + pos)%nat) in *.
    assert (occurs_at w s st = true) as Ho by done. pose proof (occurs_in_range w s st Hw Ho) as Hr.
    assert (forall k, (i <= k < st)%nat -> word_at w s k = false) as Hno.
    { intros k Hk. unfold word_at, occurs_at. specialize (Hmin (k - i)%nat ltac:(lia)). rewrite drop_drop in Hmin.
      replace (i + (k - i))%nat with k in Hmin by lia. by rewrite Hmin. }
    destruct (_ && _) eqn:E.
    + split; [|done]. intros _. exists st. split; [lia|]. unfold word_at. rewrite Ho. cbn [andb].
      apply andb_true_iff in E as [-> ->]. done.
    + assert (word_at w s st = false) as Hst by (unfold word_at; rewrite Ho; cbn [andb]; exact E).
      destruct (Nat.leb_spec (length s) (st + 1)).
      * split; [done|]. intros (k & Hk & Hwk). destruct (decide (k < st)%nat); [by rewrite Hno in Hwk by lia|].
        destruct (decide (k = st)) as [->|]; [by rewrite Hst in Hwk|]. unfold word_at in Hwk.
        apply andb_true_iff in Hwk as [[Hwk _]%andb_true_iff _]. apply occurs_in_range in Hwk; [lia|done].
      * rewrite IH by lia. split; intros (k & Hk & Hwk); exists k; (split; [|done]); [lia|].
        destruct (decide (k < st)%nat); [by rewrite Hno in Hwk by lia|].
        destruct (decide (k = st)) as [->|]; [by rewrite Hst in Hwk|lia].
  - split; [done|]. intros (k & Hk & Hwk). unfold word_at in Hwk. apply andb_true_iff in Hwk as [[Hwk _]%andb_true_iff _].
    pose proof (occurs_in_range w s k Hw Hwk) as Hr. specialize (Hs (k - i)%nat). rewrite length_drop in Hs.
    specialize (Hs ltac:(lia)). unfold occurs_at in *. rewrite drop_drop in Hs.
    replace (i + (k - i))%nat with k in Hs by lia. congruence.
Qed.

(** The token search is exact: it finds a word precisely when the word occurs
    somewhere in the text with no identifier character (letter, digit or underscore)
    directly before or after it; the scan that restarts after every false hit
    overlooks nothing and always ends. *)
Theorem contains_word_exact (s word : bytes) :
  word <> [] ->
  contains_word s word = true <->
  exists pre post, s = pre ++ word ++ post
    /\ (forall b, last pre = Some b -> is_ident_byte b = false)
    /\ (forall b, head post = Some b -> is_ident_byte b = false).
Proof.
  intros Hw. unfold contains_word. rewrite contains_word_loop by (done || lia). split.
  - intros (k & _ & H). unfold word_at in H. apply andb_true_iff in H as [[Ho Hb]%andb_true_iff Ha].
    pose proof (occurs_in_range word s k Hw Ho) as Hr. apply starts_with_spec in Ho as [post E].
    exists (take k s), post. rewrite <- E, take_drop. split; [done|]. split.
    + intros b Hl. rewrite last_lookup, length_take, Nat.min_l in Hl by lia. apply lookup_take_Some in Hl as [Hl Hk].
      apply orb_true_iff in Hb as [Hb|Hb]; [apply Nat.eqb_eq in Hb; lia|]. apply negb_true_iff in Hb.
      rewrite nth_lookup in Hb. replace (pred k) with (k - 1)%nat in Hl by lia. by rewrite Hl in Hb.
    + intros b Hh. assert (s !! (k + length word)%nat = Some b) as Hlk.
      { rewrite <- lookup_drop, E, lookup_app_r, Nat.sub_diag by lia. by rewrite head_lookup in Hh. }
      apply lookup_lt_Some in Hlk as Hlt. apply orb_true_iff in Ha as [Ha|Ha]; [apply Nat.leb_le in Ha; lia|].
      apply negb_true_iff in Ha. rewrite nth_lookup, Hlk in Ha. done.
  - intros (pre & post & -> & Hp & Hq). exists (length pre). split; [lia|]. unfold word_at, occurs_at.
    rewrite drop_app_length, (proj2 (starts_with_spec word (word ++ post))) by (by exists post). cbn [andb].
    apply andb_true_iff. split; apply orb_true_iff.
    + destruct pre as [|x pre] using rev_ind; [by left|right]. rewrite length_app, Nat.add_sub. cbn [length].
      rewrite <- app_assoc, nth_lookup, lookup_app_r, Nat.sub_diag by lia. cbn. apply negb_true_iff, Hp. by rewrite last_snoc.
    + destruct post as [|x post]; [left; rewrite app_nil_r; apply Nat.leb_le; rewrite length_app; lia|right].
      rewrite nth_lookup, lookup_app_r by lia. rewrite lookup_app_r by lia.
      replace (length pre + length word - length pre - length word)%nat with 0%nat by lia. cbn. by apply negb_true_iff, Hq.
Qed.

Lemma contains_word_exact_witness :
  contains_word (str "select a from t_limit limit 5") (str "limit") = true <->
  exists pre post, str "select a from t_limit limit 5" = pre ++ str "limit" ++ post
    /\ (forall b, last pre = Some b -> is_ident_byte b = false)
    /\ (forall b, head post = Some b -> is_ident_byte b = false).
Proof. apply contains_word_exact. discriminate. Defined.

(** ** The deny list and its store agree *)

Lemma strip_one_some ws s s' :
  strip_one ws s = Some s' -> exists w, w ∈ ws /\ s = w ++ s'.
Proof.
  induction ws as [|w ws IH]; cbn [strip_one]; [done|]. destruct (starts_with w s) eqn:E.
  - apply starts_with_spec in E as [r ->]. rewrite drop_app_length. intros [= <-]. exists w. split; [by left|done].
  - intros (v & Hv & ->)%IH. exists v. split; [by right|done].
Qed.

Lemma strip_one_prefix ws s r : strip_one ws (s ++ r) = None -> strip_one ws s = None.
Proof.
  induction ws as [|w ws IH]; cbn [strip_one]; [done|]. destruct (starts_with w (s ++ r)) eqn:E; [done|].
  intros H. destruct (starts_with w s) eqn:E'; [|by apply IH].
  apply starts_with_spec in E' as [t ->]. rewrite (proj2 (starts_with_spec w ((w ++ t) ++ r))) in E; [done|].
  exists (t ++ r). by rewrite app_assoc.
Qed.

(** Trimming stops only where no white space is left. *)
Lemma trim_with_done ws fuel s :
  Forall (fun w => w <> []) ws -> (length s <= fuel)%nat -> strip_one ws (trim_with ws fuel s) = None.
Proof.
  intros Hw. revert s. induction fuel as [|fuel IH]; intros s Hs.
  - destruct s; [|cbn in Hs; lia]. cbn [trim_with]. destruct (strip_one ws []) as [s'|] eqn:E; [|done].
    apply strip_one_some in E as (w & Hi & E). rewrite Forall_forall in Hw. destruct w; [by apply Hw in Hi|done].
  - cbn [trim_with]. destruct (strip_one ws s) as [s'|] eqn:E; [|done].
    apply IH. apply strip_one_some in E as (w & Hi & ->). rewrite Forall_forall in Hw. rewrite length_app in Hs.
    destruct w; [by apply Hw in Hi|]. cbn in Hs. lia.
Qed.

Lemma trim_with_suffix ws fuel s : exists p, s = p ++ trim_with ws fuel s.
Proof.
  revert s. induction fuel as [|fuel IH]; intros s; cbn [trim_with]; [by exists []|].
  destruct (strip_one ws s) as [s'|] eqn:E; [|by exists []].
  apply strip_one_some in E as (w & _ & ->). destruct (IH s') as [p Hp]. exists (w ++ p). by rewrite <- app_assoc, <- Hp.
Qed.

Lemma trim_with_fix ws fuel s : strip_one ws s = None -> trim_with ws fuel s = s.
Proof. intros H. destruct fuel; [done|]. cbn [trim_with]. by rewrite H. Qed.

Lemma trim_idem s : trim (trim s) = trim s.
Proof.
  unfold trim. set (t := trim_start s).
  assert (strip_one whitespace t = None) as Ht by (apply trim_with_done; [decide_closed|done]).
  assert (strip_one ((fun w : bytes => rev w) <$> whitespace) (rev (trim_end t)) = None) as He.
  { unfold trim_end. rewrite rev_involutive. apply trim_with_done; [decide_closed|by rewrite length_rev]. }
  assert (exists r, t = trim_end t ++ r) as [r Hr].
  { unfold trim_end. destruct (trim_with_suffix ((fun w : bytes => rev w) <$> whitespace) (length t) (rev t)) as [p Hp].
    exists (rev p). apply (f_equal (@rev byte)) in Hp. by rewrite rev_involutive, rev_app_distr in Hp. }
  assert (trim_start (trim_end t) = trim_end t) as ->.
  { apply trim_with_fix. rewrite Hr in Ht. by apply strip_one_prefix in Ht. }
  unfold trim_end at 1. rewrite trim_with_fix by done. apply rev_involutive.
Qed.

(** Every id is trimmed and not empty, and the two copies hold the same ids. *)
Definition coherent (b : Blocklist) : Prop :=
  set_Forall (fun id => trim id = id /\ id <> []) (bl_ids b)
  /\ forall f, bl_store b = Some f -> forall id, id ∈ bl_ids b <-> id ∈ b_id <$> f.

Lemma store_ids_filter f id x :
  x ∈ b_id <$> List.filter (fun e => negb (bool_decide (b_id e = id))) f <-> x ∈ b_id <$> f /\ x <> id.
Proof.
  rewrite !list_elem_of_fmap. split.
  - intros (e & -> & He). apply list_elem_of_In, filter_In in He as [He Hn]. apply list_elem_of_In in He.
    apply negb_true_iff, bool_decide_eq_false in Hn. split; [by exists e|done].
  - intros [(e & -> & He) Hn]. exists e. split; [done|]. apply list_elem_of_In, filter_In. split; [by apply list_elem_of_In|].
    by rewrite bool_decide_false.
Qed.

Lemma store_block_ids f id k r s ts f' x :
  store_block f id k r s ts = Ok f' -> x ∈ b_id <$> f' <-> x = trim id \/ x ∈ b_id <$> f.
Proof.
  unfold store_block. destruct (trim id) as [|c t] eqn:E; [done|]. rewrite <- E. intros [= <-].
  rewrite fmap_app, elem_of_app, store_ids_filter. cbn [fmap list_fmap b_id]. rewrite list_elem_of_singleton.
  destruct (decide (x = trim id)); naive_solver.
Qed.

Lemma store_unblock_ids f id x : x ∈ b_id <$> (store_unblock f id).2 <-> x ∈ b_id <$> f /\ x <> trim id.
Proof.
  unfold store_unblock. destruct (negb _) eqn:E; cbn [snd]; [apply store_ids_filter|].
  apply negb_false_iff, Nat.eqb_eq in E. split; [|by intros [? _]]. intros Hx. split; [done|]. intros ->.
  assert (List.filter (fun e => negb (bool_decide (b_id e = trim id))) f = f) as Hf.
  { clear Hx. induction f as [|e f IH]; [done|]. cbn [List.filter] in *. destruct (negb _).
    - f_equal. apply IH. by injection E.
    - pose proof (filter_length_le (fun e => negb (bool_decide (b_id e = trim id))) f). cbn [length] in E. lia. }
  rewrite <- Hf in Hx. by apply store_ids_filter in Hx as [_ ?].
Qed.

Lemma coherent_block b id k r s now : coherent b -> coherent (block b id k r s now).
Proof.
  intros [H1 H2]. unfold block. destruct (trim id) as [|c t] eqn:E; [done|]. rewrite <- E.
  destruct (bool_decide (trim id ∈ bl_ids b)) eqn:Eb; [done|]. split; cbn [bl_ids bl_store].
  - apply set_Forall_union; [|done]. apply set_Forall_singleton. split; [apply trim_idem|by rewrite E].
  - destruct (bl_store b) as [f|]; [|done]. intros f' [= <-] x.
    destruct (store_block f (trim id) k r s now) as [f'|e] eqn:Es.
    + rewrite (store_block_ids _ _ _ _ _ _ _ x Es), trim_idem, elem_of_union, elem_of_singleton, (H2 f eq_refl). done.
    + unfold store_block in Es. rewrite trim_idem, E in Es. done.
Qed.

Lemma coherent_unblock b id : coherent b -> coherent (unblock b id).2.
Proof.
  intros [H1 H2]. unfold unblock. destruct (bool_decide_reflect (id ∈ bl_ids b)) as [Hi|Hi]; [|by split].
  destruct (H1 id Hi) as [Ht _]. split; cbn [snd bl_ids bl_store].
  - intros x Hx. apply H1. set_solver.
  - destruct (bl_store b) as [f|]; [|done]. intros f' E x. apply (inj Some) in E as <-. rewrite store_unblock_ids, Ht, <- (H2 f eq_refl). set_solver.
Qed.

(** What can happen to the list at run time. *)
Inductive blocklist_op :=
| OpBlock (id : bytes) (k : BlockKind) (reason source : bytes) (now : Z)
| OpUnblock (id : bytes)
| OpSignal (s : AbuseSignal) (honor : bool) (now : Z).

Definition apply_op {C : Crypto} (b : Blocklist) (op : blocklist_op) : Blocklist :=
  match op with
  | OpBlock id k r s now => block b id k r s now
  | OpUnblock id => (unblock b id).2
  | OpSignal s h now => (apply_signed_signal b s h now).2
  end.

Lemma coherent_op {C : Crypto} b op : coherent b -> coherent (apply_op b op).
Proof.
  intros H. destruct op as [id k r s now|id|sg h now]; [by apply coherent_block|by apply coherent_unblock|].
  cbn [apply_op]. unfold apply_signed_signal. destruct (_ || _); [done|]. cbn [snd].
  destruct (ab_subject_wallet sg); repeat apply coherent_block; done.
Qed.

(** The deny list and its file agree: starting from a file of trimmed, non-empty
    ids and after any sequence of blocks, unblocks and gossiped signals, an id is
    refused at run time exactly when the file lists it, so a restart changes
    nothing; a signal that is not honoured or does not verify changes nothing. *)
Theorem blocklist_coherent {C : Crypto} (f : blocklist_file) (ops : list blocklist_op) :
  Forall (fun e => trim (b_id e) = b_id e /\ b_id e <> []) f ->
  let b := foldl apply_op (with_store f) ops in
  exists f', bl_store b = Some f' /\ (forall id, is_blocked b id = store_is_blocked f' id)
    /\ (forall id, is_blocked (with_store f') id = is_blocked b id)
    /\ (forall s honor now, honor = false \/ verify_abuse_signal s = false -> apply_op b (OpSignal s honor now) = b).
Proof.
  intros Hf b.
  assert (coherent b /\ is_Some (bl_store b)) as [[Hc1 Hc2] [f' Hs]].
  { unfold b. induction ops as [|op ops [IH IHs]] using rev_ind; [|rewrite foldl_app; split; [by apply coherent_op|]].
    - split; [|by eexists]. split; cbn [bl_ids bl_store with_store].
      + intros x Hx. apply elem_of_list_to_set, list_elem_of_fmap in Hx as (e & -> & He). rewrite Forall_forall in Hf. by apply Hf.
      + intros g E x. apply (inj Some) in E as <-. cbn [foldl with_store bl_ids]. by rewrite elem_of_list_to_set.
    - cbn [foldl]. set (b0 := foldl _ _ ops) in *. destruct IHs as [g Hg].
      assert (forall b id k r s now, is_Some (bl_store b) -> is_Some (bl_store (block b id k r s now))) as Hb.
      { intros b1 id k r s now [g1 E1]. unfold block. destruct (trim id); [by exists g1|].
        destruct (bool_decide _); [by exists g1|]. cbn [bl_store]. rewrite E1. by eexists. }
      destruct op as [id k r s now|id|sg h now]; cbn [apply_op]; [apply Hb; by exists g| |].
      + unfold unblock. destruct (bool_decide _); cbn [snd bl_store]; [rewrite Hg; by eexists|by exists g].
      + unfold apply_signed_signal. destruct (_ || _); [by exists g|]. cbn [snd].
        destruct (ab_subject_wallet sg); repeat apply Hb; by exists g. }
  specialize (Hc2 f' Hs). exists f'. split; [done|].
  assert (forall id, bool_decide (id ∈ bl_ids b) = bool_decide (id ∈ b_id <$> f')) as Hd by (intros id; by apply bool_decide_ext).
  split; [|split].
  - intros id. unfold is_blocked. rewrite Hd. unfold store_is_blocked. clear.
    induction f' as [|e f' IH]; [done|]. rewrite fmap_cons. cbn [existsb]. rewrite <- IH.
    destruct (bool_decide_reflect (b_id e = id)) as [<-|Hn]; cbn [orb]; [apply bool_decide_true; by left|].
    apply bool_decide_ext. rewrite elem_of_cons. naive_solver.
  - intros id. unfold is_blocked, with_store. cbn [bl_ids]. rewrite Hd. apply bool_decide_ext. by rewrite elem_of_list_to_set.
  - intros s honor now Hn. cbn [apply_op]. unfold apply_signed_signal. destruct Hn as [->| ->]; [done|]. by rewrite orb_true_r.
Qed.

Definition file_example : blocklist_file := [mkEntryB (str "b3:aa") KNodeId (str "manual") (str "manual") 5].

Lemma blocklist_coherent_witness :
  let b := foldl (apply_op (C := toy_crypto)) (with_store file_example)
             [OpBlock (str " b3:bb ") KNodeId [] (str "auto") 9; OpUnblock (str "b3:aa")] in
  exists f', bl_store b = Some f' /\ (forall id, is_blocked b id = store_is_blocked f' id)
    /\ (forall id, is_blocked (with_store f') id = is_blocked b id)
    /\ (forall s honor now, honor = false \/ verify_abuse_signal (C := toy_crypto) s = false ->
          apply_op (C := toy_crypto) b (OpSignal s honor now) = b).
Proof. apply (blocklist_coherent (C := toy_crypto)). decide_closed. Defined.
