(* ===== verification/Redispatch.v ===== *)
(** * Resilient re-dispatch (crates/node/src/retry.rs and
      [Coordinator::run_resilient] of crates/node/src/coordinator.rs)

    The retry primitives (bounded exponential backoff, the retry token bucket, the
    fault tally) and the requester's retry loop over an arbitrary dispatch attempt.
    The network, the clock, the timer and the random source are the fields of [Env];
    the loop is proved to stop whatever they answer. *)

From S2P Require Import Prelude Bytes F64 Crypto Text Proto Settlement Abuse.
From Stdlib Require SpecFloat.

(** ** Backoff *)

Record Backoff := mkBackoff {
  initial_ms : Z;
  max_ms : Z;
  jitter_frac : f64;
  attempt : Z;
}.

Definition backoff_new (initial max : Z) (jitter : f64) : Backoff :=
  mkBackoff initial (Z.max max initial) (fclamp jitter (f64_of_Z 0) (f64_of_Z 1)) 0.

(** [checked_shl] fails only for a shift of 64 or more, and drops the bits shifted out. *)
Definition checked_shl (x shift : Z) : option Z :=
  if shift <? 64 then Some (wrap 64 (Z.shiftl x shift)) else None.

Definition base_delay_ms (b : Backoff) : Z :=
  let shift := Z.min (attempt b) 63 in
  let scaled := default (max_ms b) (checked_shl (initial_ms b) shift) in
  Z.min scaled (max_ms b).

(** The delay in milliseconds; [gen_range] draws uniformly from [lo..=hi]. *)
Definition next_delay {W} (gen_range : Z -> Z -> W -> Z * W) (b : Backoff) (w : W) : Z * Backoff * W :=
  let base := base_delay_ms b in
  let b' := mkBackoff (initial_ms b) (max_ms b) (jitter_frac b) (sat_add 32 (attempt b) 1) in
  if base =? 0 then (0, b', w)
  else
    let lo := as_uint 64 (fround (fmul (f64_of_Z base) (fsub (f64_of_Z 1) (jitter_frac b)))) in
    let hi := base in
    if hi <=? lo then (hi, b', w)
    else let '(d, w') := gen_range lo hi w in (d, b', w').

Definition backoff_reset (b : Backoff) : Backoff := mkBackoff (initial_ms b) (max_ms b) (jitter_frac b) 0.

(** ** The retry budget *)

Record TokenBucket := mkBucket {
  tokens : f64;
  bucket_capacity : f64;
  refill_per_sec : f64;
}.

Definition bucket_new (cap refill : f64) : TokenBucket :=
  mkBucket (fmax cap (f64_of_Z 0)) (fmax cap (f64_of_Z 0)) (fmax refill (f64_of_Z 0)).

Definition is_unlimited (t : TokenBucket) : bool := SpecFloat.SFeqb (bucket_capacity t) (f64_of_Z 0).

(** [Duration::as_secs_f64] of a duration in nanoseconds. *)
Definition as_secs_f64 (ns : Z) : f64 :=
  fadd (f64_of_Z (ns / 1000000000)) (fdiv (f64_of_Z (ns mod 1000000000)) (f64_of_Z 1000000000)).

Definition refill (t : TokenBucket) (elapsed_ns : Z) : TokenBucket :=
  if is_unlimited t then t
  else mkBucket (fmin (fadd (tokens t) (fmul (refill_per_sec t) (as_secs_f64 elapsed_ns))) (bucket_capacity t))
         (bucket_capacity t) (refill_per_sec t).

Definition try_take (t : TokenBucket) : bool * TokenBucket :=
  if is_unlimited t then (true, t)
  else if fle (f64_of_Z 1) (tokens t)
  then (true, mkBucket (fsub (tokens t) (f64_of_Z 1)) (bucket_capacity t) (refill_per_sec t))
  else (false, t).

(** ** The fault tally *)

Record FaultTally := mkTally {
  selected : Z;
  resource_exceeded : Z;
  infeasible : Z;
  silent : Z;
  committed : Z;
}.

Definition tally_new (n : Z) : FaultTally := mkTally n 0 0 0 0.
Definition record_silent (t : FaultTally) : FaultTally :=
  mkTally (selected t) (resource_exceeded t) (infeasible t) (silent t + 1) (committed t).
Definition record_committed (t : FaultTally) : FaultTally :=
  mkTally (selected t) (resource_exceeded t) (infeasible t) (silent t) (committed t + 1).
Definition record_fault (t : FaultTally) (v : Verdict) : FaultTally :=
  match v with
  | ResourceExceeded => mkTally (selected t) (resource_exceeded t + 1) (infeasible t) (silent t) (committed t)
  | Infeasible => mkTally (selected t) (resource_exceeded t) (infeasible t + 1) (silent t) (committed t)
  | _ => record_silent t
  end.

Definition is_consensus_infeasible (t : FaultTally) (fraction : f64) : bool :=
  is_job_consensus_failure (infeasible t) (selected t) fraction.
Definition is_consensus_resource_exceeded (t : FaultTally) (fraction : f64) : bool :=
  is_job_consensus_failure (resource_exceeded t) (selected t) fraction.

Definition consensus_reason (t : FaultTally) (fraction : f64) : option bytes :=
  if is_job_consensus_failure (infeasible t) (selected t) fraction
  then Some (show_uint (infeasible t) ++ str "/" ++ show_uint (selected t)
         ++ str " selected providers reported the query infeasible (missing data / unsatisfiable) — job fault, not a provider fault")
  else None.

Definition resource_exceeded_reason (t : FaultTally) (fraction : f64) : option bytes :=
  if is_job_consensus_failure (resource_exceeded t) (selected t) fraction
  then Some (show_uint (resource_exceeded t) ++ str "/" ++ show_uint (selected t)
         ++ str " selected providers exceeded resources running this query — too big for them; re-routing to higher-capacity nodes")
  else None.

(** ** Streamed progress *)

Record Progress := mkProgress {
  p_job_id : JobId;
  p_worker_id : NodeId;
  p_stage : bytes;
  p_rows_processed : Z;
  p_pct : Z;
  p_seq : Z;
  p_ts_ms : Z;
}.

Abbreviation ProgressTracker := (gmap JobId Progress).

Definition progress_update (g : ProgressTracker) (p : Progress) : ProgressTracker :=
  match g !! p_job_id p with
  | Some prev => if p_seq p <? p_seq prev then g else <[p_job_id p := p]> g
  | None => <[p_job_id p := p]> g
  end.
Definition progress_latest (g : ProgressTracker) (job : JobId) : option Progress := g !! job.
Definition progress_clear (g : ProgressTracker) (job : JobId) : ProgressTracker := delete job g.

(** ** Outcomes *)

Record QueryOutcome := mkQueryOutcome {
  qo_job_id : JobId;
  qo_result : ResultSet;
  qo_agreed_hash : option bytes;
  qo_agreement : nat;
  qo_quorum : nat;
  qo_verified : bool;
  qo_winner : option NodeId;
  qo_participants : list NodeId;
  qo_receipts : list Receipt;
  qo_executed_locally : bool;
}.

Inductive CoordinatorError :=
| CConfig (detail : bytes)
| CNoCandidates
| CInsufficientWorkers (have quorum : nat)
| CQuorumFailed (agreement quorum : nat)
| CInfeasible (reason : bytes)
| CExceedsCapacity (reason : bytes)
| CExhausted (attempts : Z) (reason : bytes)
| CRetryBudgetExhausted (attempts : Z)
| CNoResult
| CSettlement (detail : bytes)
| CInsufficientEscrow (e : SettleError)            (* shown through its Display *)
| CLocalExecution (detail : bytes)
| CTransport (detail : bytes).

Inductive AttemptResult :=
| ADone (o : QueryOutcome)
| AInconclusive (tried : list NodeId)
| AInfeasible (reason : bytes)
| AResourceExceeded (oomed : list NodeId) (max_tried_capacity : Z) (reason : bytes)
| AQuorumDisagreement (agreement quorum : nat)
| AInputDrift (reason : bytes)
| ANoCandidates
| AInsufficientWorkers (have quorum : nat).

(** ** The loop *)

Record SchedulerConfig := mkScheduler {
  max_retries : Z;
  max_total_duration_ms : Z;
  backoff_initial_ms : Z;
  backoff_max_ms : Z;
  backoff_jitter_frac : f64;
  retry_budget_max_tokens : f64;
  retry_budget_refill_per_sec : f64;
}.

(** What the loop calls: one dispatch attempt (which streams progress into the
    tracker), the monotonic clock in nanoseconds, the random source and the timer. *)
Record Env (W : Type) := mkEnv {
  dispatch : gset NodeId -> Z -> ProgressTracker -> W -> result AttemptResult CoordinatorError * ProgressTracker * W;
  clock : W -> Z * W;
  gen_range : Z -> Z -> W -> Z * W;
  sleep : Z -> W -> W;
}.
Arguments dispatch {W}. Arguments clock {W}. Arguments gen_range {W}. Arguments sleep {W}.

Record LoopState := mkLoop {
  excluded : gset NodeId;
  backoff : Backoff;
  budget : TokenBucket;
  started : Z;
  last_refill : Z;
  retries : Z;
  last_reason : bytes;
  capacity_floor : Z;
  saw_resource_exceeded : bool;
}.

Section run_resilient.
Context {W : Type} (env : Env W) (cfg : SchedulerConfig) (job_id : JobId).

(** The stop conditions every retrying branch goes through: the retry cap, the
    wall-clock cap, the token bucket; then the backoff sleep.  [stop] is the error of
    the branch.  [inl] continues the loop. *)
Definition retry_or_stop (stop : bytes -> CoordinatorError) (s : LoopState) (w : W)
  : (LoopState + CoordinatorError) * W :=
  if negb (max_retries cfg =? 0) && (max_retries cfg <=? retries s) then (inr (stop (last_reason s)), w)
  else
    let '(over, w) :=
      if max_total_duration_ms cfg =? 0 then (false, w)
      else let '(t, w) := clock env w in (max_total_duration_ms cfg * 1000000 <=? sat_sub t (started s), w) in
    if over then (inr (stop (last_reason s ++ str "; max_total_duration reached")), w)
    else
      let '(now, w) := clock env w in
      let '(took, b) := try_take (refill (budget s) (sat_sub now (last_refill s))) in
      if negb took then (inr (CRetryBudgetExhausted (retries s + 1)), w)
      else
        let '(delay, bo, w) := next_delay (gen_range env) (backoff s) w in
        let w := if delay =? 0 then w else sleep env delay w in
        (inl (mkLoop (excluded s) bo b (started s) now (retries s + 1) (last_reason s)
                (capacity_floor s) (saw_resource_exceeded s)), w).

(** The [u32] counter would need 2^32 rounds to overflow. *)
Definition attempts (s : LoopState) : Z := retries s + 1.

Definition with_progress_made (s : LoopState) (ex : gset NodeId) (reason : bytes) (floor : Z) (saw : bool) : LoopState :=
  mkLoop ex (backoff s) (budget s) (started s) (last_refill s) (retries s) reason floor saw.

Definition no_progress_suffix : bytes :=
  str "; re-dispatch cannot make progress: the only reachable provider(s) keep declining/abandoning the job (e.g. " ++ [Byte.x22] ++ str "at capacity" ++ [Byte.x22]
  ++ str ") and no alternative candidate is available".

(** One round of the loop on the answer of the attempt. *)
Definition on_attempt (s : LoopState) (a : AttemptResult) (w : W)
  : (LoopState + result QueryOutcome CoordinatorError) * W :=
  let fail e := (inr (Err e), w) in
  let retry s stop :=
    let '(r, w) := retry_or_stop stop s w in
    (match r with inl s' => inl s' | inr e => inr (Err e) end, w) in
  match a with
  | ADone o => (inr (Ok o), w)
  | AInfeasible reason => fail (CInfeasible reason)
  | AQuorumDisagreement a q => fail (CQuorumFailed a q)
  | ANoCandidates =>
      if saw_resource_exceeded s then fail (CExceedsCapacity (last_reason s))
      else if retries s =? 0 then fail CNoCandidates
      else fail (CExhausted (attempts s) (last_reason s))
  | AInsufficientWorkers have quorum =>
      if saw_resource_exceeded s then fail (CExceedsCapacity (last_reason s))
      else if retries s =? 0 then fail (CInsufficientWorkers have quorum)
      else fail (CExhausted (attempts s) (last_reason s))
  | AInconclusive tried =>
      let reason := str "attempt " ++ show_uint (attempts s) ++ str " stalled/silent: "
        ++ show_uint (Z.of_nat (length tried)) ++ str " selected provider(s) did not deliver" in
      let ex := excluded s ∪ list_to_set tried in
      if bool_decide (size ex = size (excluded s))
      then fail (CExhausted (attempts s) (reason ++ no_progress_suffix))
      else retry (with_progress_made s ex reason (capacity_floor s) (saw_resource_exceeded s)) (CExhausted (attempts s))
  | AResourceExceeded oomed cap why =>
      let reason := str "attempt " ++ show_uint (attempts s) ++ str " resource-exceeded: " ++ why in
      let floor := Z.max (capacity_floor s) cap in
      let ex := excluded s ∪ list_to_set oomed in
      if bool_decide (size ex = size (excluded s)) && (floor =? capacity_floor s)
      then fail (CExceedsCapacity reason)
      else retry (with_progress_made s ex reason floor true) CExceedsCapacity
  | AInputDrift why =>
      let reason := str "attempt " ++ show_uint (attempts s) ++ str " input drift: " ++ why in
      retry (with_progress_made s (excluded s) reason (capacity_floor s) (saw_resource_exceeded s))
        (CExhausted (attempts s))
  end.

(** The [loop]: [None] when the fuel runs out.  Every exit clears the job's progress. *)
Fixpoint resilient_loop (fuel : nat) (s : LoopState) (g : ProgressTracker) (w : W)
  : option (result QueryOutcome CoordinatorError * ProgressTracker * W) :=
  match fuel with
  | O => None
  | S fuel' =>
      let '(a, g, w) := dispatch env (excluded s) (capacity_floor s) g w in
      match a with
      | Err e => Some (Err e, progress_clear g job_id, w)
      | Ok a =>
          match on_attempt s a w with
          | (inr r, w) => Some (r, progress_clear g job_id, w)
          | (inl s', w) => resilient_loop fuel' s' g w
          end
      end
  end.

Definition loop_init (t0 t1 : Z) : LoopState :=
  mkLoop ∅ (backoff_new (backoff_initial_ms cfg) (backoff_max_ms cfg) (backoff_jitter_frac cfg))
    (bucket_new (retry_budget_max_tokens cfg) (retry_budget_refill_per_sec cfg))
    t0 t1 0 (str "no attempt completed") 0 false.

Definition run_resilient (fuel : nat) (g : ProgressTracker) (w : W)
  : option (result QueryOutcome CoordinatorError * ProgressTracker * W) :=
  let '(t0, w) := clock env w in
  let '(t1, w) := clock env w in
  resilient_loop fuel (loop_init t0 t1) g w.
End run_resilient.

(** ** Backoff and budget *)

Lemma base_delay_bounds b :
  0 <= max_ms b -> 0 <= base_delay_ms b <= max_ms b.
Proof.
  intros H. unfold base_delay_ms, checked_shl, wrap. destruct (Z.ltb_spec (Z.min (attempt b) 63) 64); [|lia].
  cbn [default from_option id]. pose proof (Z.mod_pos_bound (Z.shiftl (initial_ms b) (Z.min (attempt b) 63)) (2 ^ 64) ltac:(lia)).
  unfold default, id. lia.
Qed.

(** The delays before the first [n] retries. *)
Fixpoint delays {W} (gen : Z -> Z -> W -> Z * W) (b : Backoff) (w : W) (n : nat) : list Z :=
  match n with
  | O => []
  | S n' => let '(d, b', w') := next_delay gen b w in d :: delays gen b' w' n'
  end.

Lemma next_delay_spec {W} (gen : Z -> Z -> W -> Z * W) b w d b' w' :
  (forall lo hi v, lo <= hi -> lo <= (gen lo hi v).1 <= hi) ->
  next_delay gen b w = (d, b', w') ->
  0 <= max_ms b ->
  0 <= d <= base_delay_ms b
  /\ b' = mkBackoff (initial_ms b) (max_ms b) (jitter_frac b) (sat_add 32 (attempt b) 1).
Proof.
  intros Hg H Hm. pose proof (base_delay_bounds b Hm) as Hb. unfold next_delay in H.
  set (lo := as_uint 64 _) in H. assert (0 <= lo) as Hlo by (apply as_uint_range; lia).
  destruct (Z.eqb_spec (base_delay_ms b) 0) as [E|E]; [injection H as <- <- <-; split; [lia|done]|].
  destruct (Z.leb_spec (base_delay_ms b) lo) as [Hl|Hl]; [injection H as <- <- <-; split; [lia|done]|].
  specialize (Hg lo (base_delay_ms b) w ltac:(lia)). destruct (gen lo _ w) as [x w1]. cbn [fst] in Hg.
  injection H as <- <- <-. split; [lia|done].
Qed.

Lemma base_delay_exact b :
  0 <= initial_ms b -> 0 <= attempt b <= 63 -> initial_ms b * 2 ^ attempt b < 2 ^ 64 ->
  base_delay_ms b = Z.min (initial_ms b * 2 ^ attempt b) (max_ms b).
Proof.
  intros H1 H2 H3. unfold base_delay_ms, checked_shl.
  replace (Z.min (attempt b) 63) with (attempt b) by lia.
  destruct (Z.ltb_spec (attempt b) 64); [|lia]. cbn [default from_option id]. unfold wrap.
  rewrite Z.shiftl_mul_pow2 by lia. rewrite Z.mod_small; [done|]. split; [|done].
  apply Z.mul_nonneg_nonneg; [done|]. by apply Z.pow_nonneg.
Qed.

Lemma delays_spec {W} (gen : Z -> Z -> W -> Z * W) b w n k d :
  (forall lo hi v, lo <= hi -> lo <= (gen lo hi v).1 <= hi) ->
  0 <= max_ms b -> 0 <= attempt b -> attempt b + Z.of_nat n <= umax 32 ->
  delays gen b w n !! k = Some d ->
  0 <= d <= base_delay_ms (mkBackoff (initial_ms b) (max_ms b) (jitter_frac b) (attempt b + Z.of_nat k)).
Proof.
  intros Hg. revert b w k. induction n as [|n IH]; intros b w k Hm Ha Hn Hk; [done|].
  cbn [delays] in Hk. destruct (next_delay gen b w) as [[d0 b'] w'] eqn:E.
  apply (next_delay_spec gen) in E as [Hd ->]; [|done|done]. rewrite sat_add_exact in Hk by lia. destruct k as [|k].
  - cbn in Hk. injection Hk as <-. rewrite Z.add_0_r. by destruct b.
  - apply IH in Hk; cbn [max_ms attempt initial_ms jitter_frac] in *; try lia.
    replace (attempt b + Z.of_nat (S k)) with (attempt b + 1 + Z.of_nat k) by lia. done.
Qed.

(** The pause before retry [k] is at most [initial * 2^k] and at most the
    configured maximum, as long as that product fits 64 bits, whatever the random
    source draws. *)
Theorem backoff_bounded {W} (gen : Z -> Z -> W -> Z * W) (initial max : Z) (jitter : f64) (w : W) (n k : nat) (d : Z) :
  (forall lo hi v, lo <= hi -> lo <= (gen lo hi v).1 <= hi) ->
  in_u 64 initial -> in_u 64 max -> Z.of_nat n <= 64 -> (k < n)%nat -> initial * 2 ^ Z.of_nat k < 2 ^ 64 ->
  delays gen (backoff_new initial max jitter) w n !! k = Some d ->
  0 <= d <= Z.min (initial * 2 ^ Z.of_nat k) (Z.max max initial).
Proof.
  intros Hg Hi Hx Hn Hk Hp H. unfold in_u in *. apply (delays_spec gen) in H; try done; cbn [backoff_new max_ms attempt] in *; try lia.
  - rewrite Z.add_0_l in H. rewrite base_delay_exact in H; cbn [initial_ms max_ms attempt backoff_new] in *; lia.
  - unfold umax. lia.
Qed.

(** ** What one round does *)

Lemma retry_inl {W} (env : Env W) cfg stop s w s' w' :
  (let '(r, w) := retry_or_stop env cfg stop s w in
   (match r with inl s' => inl s' | inr e => inr (@Err QueryOutcome _ e) end, w)) = (inl s', w') ->
  (max_retries cfg = 0 \/ retries s < max_retries cfg)
  /\ excluded s' = excluded s /\ capacity_floor s' = capacity_floor s
  /\ saw_resource_exceeded s' = saw_resource_exceeded s /\ retries s' = retries s + 1.
Proof.
  unfold retry_or_stop. destruct (negb _ && _) eqn:E; [done|].
  destruct (if max_total_duration_ms cfg =? 0 then _ else _) as [over w1]. destruct over; [done|].
  destruct (clock env w1) as [now w2]. destruct (try_take _) as [[] b]; cbn [negb]; [|done].
  destruct (next_delay _ _ _) as [[d bo] w3]. intros [= <- <-]. cbn.
  repeat split. apply andb_false_iff in E as [E|E]; bool_to_prop; lia.
Qed.

(** The providers an attempt blames, and the capacity it proved too small. *)
Definition blamed (a : AttemptResult) : list NodeId :=
  match a with AInconclusive l => l | AResourceExceeded l _ _ => l | _ => [] end.
Definition failed_capacity (a : AttemptResult) : Z :=
  match a with AResourceExceeded _ c _ => c | _ => 0 end.
Definition is_resource_exceeded (a : AttemptResult) : bool :=
  match a with AResourceExceeded _ _ _ => true | _ => false end.
Definition is_drift (a : AttemptResult) : bool := match a with AInputDrift _ => true | _ => false end.

Lemma on_attempt_inl {W} (env : Env W) cfg s a w s' w' :
  on_attempt env cfg s a w = (inl s', w') ->
  (max_retries cfg = 0 \/ retries s < max_retries cfg)
  /\ excluded s' = excluded s ∪ list_to_set (blamed a)
  /\ (0 <= capacity_floor s -> capacity_floor s' = Z.max (capacity_floor s) (failed_capacity a))
  /\ saw_resource_exceeded s' = saw_resource_exceeded s || is_resource_exceeded a
  /\ retries s' = retries s + 1
  /\ (is_drift a = false -> (size (excluded s) < size (excluded s'))%nat \/ capacity_floor s < capacity_floor s').
Proof.
  assert (forall l : list NodeId, (size (excluded s) <= size (excluded s ∪ list_to_set l))%nat) as Hm
    by (intros l; apply subseteq_size; set_solver).
  destruct a; cbn [on_attempt]; try (repeat destruct_if; done).
  - destruct (bool_decide_reflect (size (excluded s ∪ list_to_set tried) = size (excluded s))) as [|Hne]; [done|].
    intros (? & He & Hf & Hw & Hr)%retry_inl. specialize (Hm tried). rewrite He, Hf, Hw, Hr.
    cbn in *. rewrite orb_false_r. repeat split; try done; [lia|]. intros _. left. lia.
  - destruct (bool_decide _ && _) eqn:Eg; [done|].
    intros (? & He & Hf & Hw & Hr)%retry_inl. specialize (Hm oomed). rewrite He, Hf, Hw, Hr.
    cbn in *. rewrite orb_true_r. repeat split; try done. intros _.
    apply andb_false_iff in Eg as [Eg|Eg]; bool_to_prop; lia.
  - intros (? & He & Hf & Hw & Hr)%retry_inl. rewrite He, Hf, Hw, Hr.
    cbn in *. rewrite orb_false_r. repeat split; try done; [set_solver|lia].
Qed.

(** ** Termination *)

Section termination.
Context {W : Type} (env : Env W) (cfg : SchedulerConfig) (job : JobId).

Lemma loop_capped fuel s g w :
  0 < max_retries cfg < 2 ^ 32 -> 0 <= retries s ->
  (Z.to_nat (max_retries cfg - retries s) < fuel)%nat ->
  is_Some (resilient_loop env cfg job fuel s g w).
Proof.
  intros Hm. revert s g w. induction fuel as [|fuel IH]; intros s g w Hr Hf; [lia|]. cbn [resilient_loop].
  destruct (dispatch env _ _ g w) as [[[a|e] g1] w1]; [|by eexists].
  destruct (on_attempt env cfg s a w1) as [[s'|r] w2] eqn:E; [|by eexists].
  apply on_attempt_inl in E as (Hc & _ & _ & _ & Hs & _). 
  apply IH; lia.
Qed.

(** Every provider an attempt can blame is in [P], every capacity in [Cs]; no source drifts. *)
Definition attempt_within (P : gset NodeId) (Cs : gset Z) (a : AttemptResult) : Prop :=
  list_to_set (blamed a) ⊆ P /\ (is_resource_exceeded a = true -> failed_capacity a ∈ Cs) /\ is_drift a = false.

(** Providers still usable plus capacities above the floor. *)
Definition room (P : gset NodeId) (Cs : gset Z) (s : LoopState) : nat :=
  (size (P ∖ excluded s) + size (filter (fun c => (capacity_floor s < c)%Z) Cs))%nat.

Lemma room_decreases P Cs s a w s' w' :
  0 <= capacity_floor s -> excluded s ⊆ P ->
  attempt_within P Cs a -> on_attempt env cfg s a w = (inl s', w') ->
  0 <= capacity_floor s' /\ excluded s' ⊆ P /\ (room P Cs s' < room P Cs s)%nat.
Proof.
  intros H0 Hs (Hb & Hc & Hd) E. apply on_attempt_inl in E as (_ & He & Hf & _ & _ & Hp). specialize (Hf H0). specialize (Hp Hd).
  split; [lia|]. split; [set_solver|]. unfold room.
  assert (size (P ∖ excluded s') <= size (P ∖ excluded s))%nat as L1 by (apply subseteq_size; set_solver).
  assert (size (filter (fun c => (capacity_floor s' < c)%Z) Cs) <= size (filter (fun c => (capacity_floor s < c)%Z) Cs))%nat as L2.
  { apply subseteq_size. intros c. rewrite !elem_of_filter. intros [? ?]. split; [lia|done]. }
  destruct Hp as [Hp|Hp].
  - rewrite !size_difference in * by set_solver. pose proof (subseteq_size (excluded s') P ltac:(set_solver)). lia.
  - assert (size (filter (fun c => (capacity_floor s' < c)%Z) Cs) < size (filter (fun c => (capacity_floor s < c)%Z) Cs))%nat; [|lia].
    apply subset_size. split; [intros c; rewrite !elem_of_filter; intros [? ?]; split; [lia|done]|].
    destruct a; cbn in Hf, Hc; try lia. specialize (Hc eq_refl). intros Hsub. specialize (Hsub max_tried_capacity).
    rewrite !elem_of_filter in Hsub. destruct Hsub as [? _]; [split; [lia|done]|lia].
Qed.

Lemma loop_progress P Cs fuel s g w :
  (forall ex fl g w a g' w', dispatch env ex fl g w = (Ok a, g', w') -> attempt_within P Cs a) ->
  0 <= capacity_floor s -> excluded s ⊆ P -> (room P Cs s < fuel)%nat ->
  is_Some (resilient_loop env cfg job fuel s g w).
Proof.
  intros Hd. revert s g w. induction fuel as [|fuel IH]; intros s g w H0 Hs Hf; [lia|]. cbn [resilient_loop].
  destruct (dispatch env _ _ g w) as [[[a|e] g1] w1] eqn:Ed; [|by eexists].
  destruct (on_attempt env cfg s a w1) as [[s'|r] w2] eqn:E; [|by eexists].
  apply (room_decreases P Cs) in E as (? & ? & ?); [|done|done|by eapply Hd]. apply IH; [done|done|lia].
Qed.

Lemma loop_mono n m s g w r :
  (n <= m)%nat -> resilient_loop env cfg job n s g w = Some r -> resilient_loop env cfg job m s g w = Some r.
Proof.
  revert m s g w. induction n as [|n IH]; intros m s g w Hm; [done|]. destruct m as [|m]; [lia|]. cbn [resilient_loop].
  destruct (dispatch env _ _ g w) as [[[a|e] g1] w1]; [|done].
  destruct (on_attempt env cfg s a w1) as [[s'|r'] w2]; [|done]. apply IH. lia.
Qed.
End termination.

(** The retry loop always returns, whatever the network, the clock and the random
    source do: with a retry cap within [max_retries + 1] attempts; with unlimited
    retries (and sources that do not change under the providers) within one attempt
    per provider plus one per distinct capacity plus one, because a round that neither
    excludes a new provider nor raises the capacity floor ends the loop.  More fuel
    never changes the answer. *)
Theorem run_resilient_terminates {W : Type} (env : Env W) (cfg : SchedulerConfig) (job : JobId)
    (g : ProgressTracker) (w : W) :
  (0 < max_retries cfg < 2 ^ 32 ->
   exists r, forall fuel, (Z.to_nat (max_retries cfg) + 1 <= fuel)%nat -> run_resilient env cfg job fuel g w = Some r)
  /\ (forall (P : gset NodeId) (Cs : gset Z),
      (forall ex fl g w a g' w', dispatch env ex fl g w = (Ok a, g', w') -> attempt_within P Cs a) ->
      exists r, forall fuel, (size P + size Cs + 1 <= fuel)%nat -> run_resilient env cfg job fuel g w = Some r).
Proof.
  unfold run_resilient. destruct (clock env w) as [t0 w0]. destruct (clock env w0) as [t1 w1].
  split; [intros H|intros P Cs H].
  - destruct (loop_capped env cfg job (Z.to_nat (max_retries cfg) + 1) (loop_init cfg t0 t1) g w1) as [r Hr];
      [done|done|cbn [loop_init retries]; lia|].
    exists r. intros fuel Hf. by eapply loop_mono.
  - destruct (loop_progress env cfg job P Cs (size P + size Cs + 1) (loop_init cfg t0 t1) g w1) as [r Hr]; [done|done|done| |].
    + unfold room. cbn [loop_init excluded capacity_floor].
      assert (size (filter (fun c => (0 < c)%Z) Cs) <= size Cs)%nat by (apply subseteq_size; set_solver).
      assert (size (P ∖ ∅) <= size P)%nat by (apply subseteq_size; set_solver). lia.
    + exists r. intros fuel Hf. by eapply loop_mono.
Qed.

(** A network of two providers: the first attempt stalls on the first, the second one
    runs out of memory at the second, then nobody is left. *)
Definition node_a : NodeId := str "b3:aa".
Definition node_b : NodeId := str "b3:bb".
Definition two_nodes : Env Z := mkEnv Z
  (fun ex floor g w =>
     (Ok (if bool_decide (node_a ∈ ex) then if 0 <? floor then ANoCandidates else AResourceExceeded [node_b] 4096 (str "oom")
          else AInconclusive [node_a]), g, w + 1))
  (fun w => (w, w + 1000)) (fun lo _ w => (lo, w)) (fun d w => w + d * 1000000).
Definition unlimited_retries : SchedulerConfig :=
  mkScheduler 0 0 200 5000 (lit 1 2) (f64_of_Z 32) (f64_of_Z 4).

Example two_nodes_run :
  exists reason, (fun x => x.1.1) <$> run_resilient two_nodes unlimited_retries (str "job-1") 4 ∅ 0
    = Some (Err (CExceedsCapacity reason)).
Proof. eexists. vm_compute. reflexivity. Qed.

Lemma run_resilient_terminates_witness :
  exists r, forall fuel, (size ({[node_a; node_b]} : gset NodeId) + size ({[4096%Z]} : gset Z) + 1 <= fuel)%nat ->
    run_resilient two_nodes unlimited_retries (str "job-1") fuel ∅ 0 = Some r.
Proof.
  apply (run_resilient_terminates two_nodes unlimited_retries (str "job-1") ∅ 0).
  intros ex fl g w a g' w' H. cbn [dispatch two_nodes] in H.
  apply (f_equal (fun x => x.1.1)) in H. cbn [fst] in H. injection H as <-.
  destruct (bool_decide (node_a ∈ ex)); [destruct (0 <? fl)|];
    (split; [cbn [blamed]; set_solver|split; [|done]]); cbn; [done|set_solver|done].
Defined.

(** ** What an execution did

    The attempts of one call, as a relation; the loop computes exactly its runs. *)

Record Attempt := mkAttempt {
  at_excluded : gset NodeId;
  at_floor : Z;
  at_answer : result AttemptResult CoordinatorError;
}.

Section executions.
Context {W : Type} (env : Env W) (cfg : SchedulerConfig) (job : JobId).

Inductive exec : LoopState -> ProgressTracker -> W -> list Attempt ->
    result QueryOutcome CoordinatorError -> ProgressTracker -> W -> Prop :=
| exec_error s g w e g' w' :
    dispatch env (excluded s) (capacity_floor s) g w = (Err e, g', w') ->
    exec s g w [mkAttempt (excluded s) (capacity_floor s) (Err e)] (Err e) (progress_clear g' job) w'
| exec_stop s g w a g' w' r w'' :
    dispatch env (excluded s) (capacity_floor s) g w = (Ok a, g', w') ->
    on_attempt env cfg s a w' = (inr r, w'') ->
    exec s g w [mkAttempt (excluded s) (capacity_floor s) (Ok a)] r (progress_clear g' job) w''
| exec_again s g w a g1 w1 s' w2 log r g' w' :
    dispatch env (excluded s) (capacity_floor s) g w = (Ok a, g1, w1) ->
    on_attempt env cfg s a w1 = (inl s', w2) ->
    exec s' g1 w2 log r g' w' ->
    exec s g w (mkAttempt (excluded s) (capacity_floor s) (Ok a) :: log) r g' w'.

Lemma loop_exec fuel s g w r g' w' :
  resilient_loop env cfg job fuel s g w = Some (r, g', w') ->
  exists log, exec s g w log r g' w' /\ (length log <= fuel)%nat.
Proof.
  revert s g w. induction fuel as [|fuel IH]; intros s g w; [done|]. cbn [resilient_loop].
  destruct (dispatch env _ _ g w) as [[[a|e] g1] w1] eqn:Ed.
  2: { intros [= <- <- <-]. eexists. split; [by econstructor|cbn; lia]. }
  destruct (on_attempt env cfg s a w1) as [[s'|r'] w2] eqn:E.
  - intros (log & Hl & Hn)%IH. eexists. split; [by eapply exec_again|cbn; lia].
  - intros [= <- <- <-]. eexists. split; [by eapply exec_stop|cbn; lia].
Qed.

(** What the attempts so far left in the loop's state. *)
Definition remembers (pre : list Attempt) (s : LoopState) : Prop :=
  0 <= capacity_floor s
  /\ retries s = Z.of_nat (length pre)
  /\ (saw_resource_exceeded s = true -> exists t a, t ∈ pre /\ at_answer t = Ok a /\ is_resource_exceeded a = true)
  /\ forall t a, t ∈ pre -> at_answer t = Ok a ->
       at_excluded t ⊆ excluded s /\ list_to_set (blamed a) ⊆ excluded s
       /\ at_floor t <= capacity_floor s /\ failed_capacity a <= capacity_floor s.

(** Later attempts leave out the providers blamed earlier and only look above the
    capacities that failed. *)
Definition routes_around (log : list Attempt) : Prop :=
  forall i j t u a, (i < j)%nat -> log !! i = Some t -> log !! j = Some u -> at_answer t = Ok a ->
    at_excluded t ⊆ at_excluded u /\ list_to_set (blamed a) ⊆ at_excluded u
    /\ at_floor t <= at_floor u /\ failed_capacity a <= at_floor u.

(** The error (or answer) is the one the attempts call for. *)
Definition explains (log : list Attempt) (r : result QueryOutcome CoordinatorError) : Prop :=
  match r with
  | Ok o => at_answer <$> last log = Some (Ok (ADone o))
  | Err e =>
      at_answer <$> last log = Some (Err e)
      \/ match e with
         | CNoCandidates => at_answer <$> last log = Some (Ok ANoCandidates) /\ Z.of_nat (length log) = 1
         | CInsufficientWorkers h q =>
             at_answer <$> last log = Some (Ok (AInsufficientWorkers h q)) /\ Z.of_nat (length log) = 1
         | CQuorumFailed a q => at_answer <$> last log = Some (Ok (AQuorumDisagreement a q))
         | CInfeasible why => at_answer <$> last log = Some (Ok (AInfeasible why))
         | CExceedsCapacity _ => exists t a, t ∈ log /\ at_answer t = Ok a /\ is_resource_exceeded a = true
         | CExhausted n _ | CRetryBudgetExhausted n => n = Z.of_nat (length log)
         | _ => False
         end
  end.

Lemma remembers_step pre s a w s' w' :
  remembers pre s -> on_attempt env cfg s a w = (inl s', w') ->
  remembers (pre ++ [mkAttempt (excluded s) (capacity_floor s) (Ok a)]) s'.
Proof.
  intros (H0 & Hr & Hsaw & Hpre) E. apply on_attempt_inl in E as (_ & He & Hf & Hw & Hs & _). specialize (Hf H0).
  split; [lia|]. split; [|split].
  - rewrite Hs, Hr, length_app. cbn [length]. lia.
  - rewrite Hw. intros [Hw1|Hw1]%orb_true_iff.
    + destruct (Hsaw Hw1) as (t & a' & Ht & ?). exists t, a'. split; [|done]. apply elem_of_app. by left.
    + eexists _, a. split; [apply elem_of_app; right; by apply list_elem_of_singleton|done].
  - intros t a' [Ht| ->%list_elem_of_singleton]%elem_of_app Ha.
    + destruct (Hpre t a' Ht Ha) as (? & ? & ? & ?). split; [set_solver|split; [set_solver|lia]].
    + injection Ha as <-. cbn. split; [set_solver|split; [set_solver|lia]].
Qed.

Lemma routes_around_snoc pre s x :
  routes_around pre -> remembers pre s -> routes_around (pre ++ [mkAttempt (excluded s) (capacity_floor s) x]).
Proof.
  intros Hp (_ & _ & _ & Hr) i j t u a Hij Hi Hj Ha.
  destruct (decide (j < length pre)%nat) as [Hl|Hl].
  - rewrite lookup_app_l in Hi, Hj by lia. by apply (Hp i j t u a).
  - assert (j = length pre) as ->.
    { apply lookup_lt_Some in Hj. rewrite length_app in Hj. cbn [length] in Hj. lia. }
    rewrite list_lookup_middle in Hj by done. injection Hj as <-. rewrite lookup_app_l in Hi by lia.
    apply (Hr t a); [|done]. by eapply list_elem_of_lookup_2.
Qed.

Lemma retry_inr stop s w r w' :
  (let '(x, w) := retry_or_stop env cfg stop s w in
   (match x with inl s' => inl s' | inr e => inr (@Err QueryOutcome _ e) end, w)) = (inr r, w') ->
  (exists why, r = Err (stop why)) \/ r = Err (CRetryBudgetExhausted (retries s + 1)).
Proof.
  unfold retry_or_stop. destruct (negb _ && _); [intros [= <- <-]; eauto|].
  destruct (if max_total_duration_ms cfg =? 0 then _ else _) as [over w1]. destruct over; [intros [= <- <-]; eauto|].
  destruct (clock env w1) as [now w2]. destruct (try_take _) as [[] b]; cbn [negb]; [|intros [= <- <-]; eauto].
  destruct (next_delay _ _ _) as [[d bo] w3]. done.
Qed.

Lemma explains_stop pre s a w r w' :
  remembers pre s -> on_attempt env cfg s a w = (inr r, w') ->
  explains (pre ++ [mkAttempt (excluded s) (capacity_floor s) (Ok a)]) r.
Proof.
  intros (_ & Hr & Hsaw & _). set (t := mkAttempt _ _ _).
  assert (at_answer <$> last (pre ++ [t]) = Some (Ok a)) as Hl by (by rewrite last_snoc).
  assert (retries s + 1 = Z.of_nat (length (pre ++ [t]))) as Hn.
  { rewrite Hr, length_app. cbn [length]. lia. }
  assert (retries s = 0 -> Z.of_nat (length (pre ++ [t])) = 1) as Hone by (intros E; by rewrite <- Hn, E).
  assert (saw_resource_exceeded s = true -> exists t' a', t' ∈ pre ++ [t] /\ at_answer t' = Ok a' /\ is_resource_exceeded a' = true) as Hs.
  { intros (t' & a' & Ht & ?)%Hsaw. exists t', a'. split; [apply elem_of_app; by left|done]. }
  assert (is_resource_exceeded a = true -> exists t' a', t' ∈ pre ++ [t] /\ at_answer t' = Ok a' /\ is_resource_exceeded a' = true) as Ha.
  { intros E. exists t, a. split; [apply elem_of_app; right; by apply list_elem_of_singleton|done]. }
  unfold on_attempt, attempts. destruct a; cbn [explains].
  - by intros [= <- <-].
  - destruct (bool_decide _); [intros [= <- <-]; by right|].
    intros [[why ->]| ->]%retry_inr; by right.
  - intros [= <- <-]. by right.
  - destruct (_ && _); [intros [= <- <-]; right; by apply Ha|].
    intros [[why ->]| ->]%retry_inr; right; [by apply Ha|done].
  - intros [= <- <-]. by right.
  - intros [[why ->]| ->]%retry_inr; by right.
  - destruct (saw_resource_exceeded s); [intros [= <- <-]; right; by apply Hs|].
    destruct (Z.eqb_spec (retries s) 0); intros [= <- <-]; right; auto.
  - destruct (saw_resource_exceeded s); [intros [= <- <-]; right; by apply Hs|].
    destruct (Z.eqb_spec (retries s) 0); intros [= <- <-]; right; auto.
Qed.

Lemma exec_spec pre s g w log r g' w' :
  exec s g w log r g' w' -> remembers pre s -> routes_around pre ->
  routes_around (pre ++ log) /\ explains (pre ++ log) r /\ progress_latest g' job = None.
Proof.
  intros H. revert pre.
  induction H as [s g w e g' w' Hd|s g w a g' w' r w'' Hd Ho|s g w a g1 w1 s' w2 log r g' w' Hd Ho Hx IH];
    intros pre Hpre Hra.
  - split; [by apply routes_around_snoc|]. split; [left; by rewrite last_snoc|apply lookup_delete_eq].
  - split; [by apply routes_around_snoc|]. split; [by eapply explains_stop|apply lookup_delete_eq].
  - rewrite cons_middle, app_assoc. apply IH; [by eapply remembers_step|by apply routes_around_snoc].
Qed.
End executions.

(** C31: whatever the network does, the retry loop's answer is the one its attempts
    call for: a result only when the last attempt delivered it, "infeasible" and
    "quorum failed" only when the last attempt reported it, "exceeds capacity" only
    after a consensus of out-of-memory failures, "no candidates" only on the first
    attempt, and the attempt counts it reports are the real ones.  Every attempt leaves
    out all providers that failed or went silent before and asks for more memory than
    any that failed, and no streamed progress of the job is left behind. *)
Theorem run_resilient_sound {W : Type} (env : Env W) (cfg : SchedulerConfig) (job : JobId)
    (fuel : nat) (g g' : ProgressTracker) (w w' : W) (r : result QueryOutcome CoordinatorError) :
  run_resilient env cfg job fuel g w = Some (r, g', w') ->
  exists t0 t1 w1 log, exec env cfg job (loop_init cfg t0 t1) g w1 log r g' w'
    /\ routes_around log /\ explains log r /\ progress_latest g' job = None.
Proof.
  unfold run_resilient. destruct (clock env w) as [t0 w0]. destruct (clock env w0) as [t1 w1].
  intros (log & Hx & _)%loop_exec. exists t0, t1, w1, log. split; [done|].
  apply (exec_spec env cfg job [] _ _ _ _ _ _ _ Hx); [|by intros i j t u a _ Hi].
  split; [done|]. split; [done|]. split; [done|]. intros t a Ht. by apply not_elem_of_nil in Ht.
Qed.

Lemma run_resilient_sound_witness :
  match run_resilient two_nodes unlimited_retries (str "job-1") 4 ∅ 0 with
  | Some (r, g', w') =>
      exists t0 t1 w1 log, exec two_nodes unlimited_retries (str "job-1") (loop_init unlimited_retries t0 t1) ∅ w1 log r g' w'
        /\ routes_around log /\ explains log r /\ progress_latest g' (str "job-1") = None
  | None => False
  end.
Proof.
  destruct (run_resilient two_nodes unlimited_retries (str "job-1") 4 ∅ 0) as [[[r g'] w']|] eqn:E.
  - by apply (run_resilient_sound two_nodes unlimited_retries (str "job-1") 4 ∅ g' 0 w' r).
  - vm_compute in E. done.
Defined.

Lemma backoff_bounded_witness :
  0 <= 400 <= Z.min (200 * 2 ^ Z.of_nat 2) (Z.max 5000 200).
Proof.
  apply (backoff_bounded (fun lo _ (w : Z) => (lo, w)) 200 5000 (lit 1 2) 0 3 2 400);
    [intros lo hi v H; cbn; lia|done|done|lia|lia|done|vm_compute; reflexivity].
Defined.
