(* ===== verification/Reputation.v ===== *)
(** * Reputation (crates/trust/src/reputation.rs) and quality (crates/settlement/src/quality.rs)

    The bounded in-memory trust store: per-worker observation windows with replay
    deduplication, measured capability and performance aggregates, requester histories;
    and the scoring functions on top of it. *)

From S2P Require Import Prelude Bytes F64 Crypto Proto Abuse.

Definition receipt_fingerprint {C : Crypto} (r : Receipt) : Z :=
  le_val (take 8 (blake3 (str "duckdb-p2p-receipt-fp-v1" ++ r_job_id r ++ [Byte.x00] ++ r_requester_id r))).

Record Observation := mkObs {
  o_ts : Z;
  o_correct : bool;
  o_weight : f64;
  o_fp : Z;
}.

Record ProvenCapability := mkProven {
  pc_max_input_bytes : Z;
  pc_max_result_rows : Z;
  pc_max_result_bytes : Z;
  pc_successes : Z;
  pc_last_ts : Z;
}.
Definition proven_default : ProvenCapability := mkProven 0 0 0 0 0.

Record PerfAggregate := mkPerf {
  ewma_latency_ms : f64;
  ewma_bytes : f64;
  ewma_throughput_bps : f64;
  obs_count : Z;
  perf_last_ts : Z;
}.
Definition perf_default : PerfAggregate := mkPerf (f64_of_Z 0) (f64_of_Z 0) (f64_of_Z 0) 0 0.

Definition PERF_MIN_ALPHA : f64 := lit 1 10.

Section libm.
Context {L : Libm}.

Definition ewma_fold (prev sample dt_secs half_life_secs : f64) : f64 :=
  let decay :=
    if flt (f64_of_Z 0) half_life_secs
    then fpowf (lit 1 2) (fdiv (fmax dt_secs (f64_of_Z 0)) half_life_secs)
    else f64_of_Z 0 in
  let alpha := fmax (fsub (f64_of_Z 1) decay) PERF_MIN_ALPHA in
  fadd (fmul prev (fsub (f64_of_Z 1) alpha)) (fmul sample alpha).

Definition perf_fold (agg : PerfAggregate) (latency_ms nbytes ts : Z) (half_life : f64) : PerfAggregate :=
  let lat := f64_of_Z latency_ms in
  let by_ := f64_of_Z nbytes in
  let tput := fdiv by_ (fdiv (f64_of_Z (Z.max latency_ms 1)) (f64_of_Z 1000)) in
  let dt := f64_of_Z (sat_sub ts (perf_last_ts agg)) in
  let step prev sample := if obs_count agg =? 0 then sample else ewma_fold prev sample dt half_life in
  mkPerf (step (ewma_latency_ms agg) lat) (step (ewma_bytes agg) by_) (step (ewma_throughput_bps agg) tput)
    (sat_add 64 (obs_count agg) 1) (Z.max (perf_last_ts agg) ts).

Definition decay_weight (half_life_secs age_secs : f64) : f64 :=
  if fle half_life_secs (f64_of_Z 0) then f64_of_Z 1
  else fpowf (lit 1 2) (fdiv (fmax age_secs (f64_of_Z 0)) half_life_secs).

(** The recency-weighted success ratio of a history. *)
Definition weighted_ratio (half_life : f64) (obs : list Observation) (now : Z) : option f64 :=
  match obs with
  | [] => None
  | _ =>
      let '(num, den) :=
        foldl (fun '(num, den) o =>
                 let w := fmul (o_weight o) (decay_weight half_life (f64_of_Z (sat_sub now (o_ts o)))) in
                 (if o_correct o then fadd num w else num, fadd den w))
          (f64_of_Z 0, f64_of_Z 0) obs in
      if feq den (f64_of_Z 0) then None else Some (fdiv num den)
  end.
End libm.

(** ** The store *)

Record WorkerState := mkWorker {
  observations : list Observation;
  seen : gset Z;
  voucher_trust : f64;
  penalty : f64;
  capability : ProvenCapability;
  cap_seen : gset Z;
  cap_seen_order : list Z;
  perf : PerfAggregate;
  perf_seen : gset Z;
  perf_seen_order : list Z;
}.
Definition worker_new : WorkerState :=
  mkWorker [] ∅ (f64_of_Z 0) (f64_of_Z 0) proven_default ∅ [] perf_default ∅ [].

Record StoreConfig := mkStoreConfig {
  half_life_secs : f64;
  max_obs_per_worker : nat;
  max_workers : nat;
}.

Definition store_config (reputation_half_life_secs : Z) (receipt_cache_per_worker trust_store_capacity : nat) : StoreConfig :=
  mkStoreConfig (f64_of_Z reputation_half_life_secs) (Nat.max receipt_cache_per_worker 1) (Nat.max trust_store_capacity 1).

Record Inner := mkInner {
  workers : gmap NodeId WorkerState;
  order : list NodeId;
  requesters : gmap NodeId (list Observation);
  requester_order : list NodeId;
}.
Definition store_new : Inner := mkInner ∅ [] ∅ [].

(** [while order.len() >= max { pop_front; remove }] *)
Fixpoint evict_fifo {V} (max : nat) (ord : list NodeId) (m : gmap NodeId V) : list NodeId * gmap NodeId V :=
  match ord with
  | [] => ([], m)
  | e :: rest => if (max <=? length ord)%nat then evict_fifo max rest (delete e m) else (ord, m)
  end.

(** [while observations.len() > cap { pop_front; seen.remove }] *)
Fixpoint prune_obs (cap : nat) (obs : list Observation) (s : gset Z) : list Observation * gset Z :=
  match obs with
  | [] => ([], s)
  | o :: rest => if (cap <? length obs)%nat then prune_obs cap rest (s ∖ {[o_fp o]}) else (obs, s)
  end.

(** The same loop on a queue of fingerprints. *)
Fixpoint prune_fps (cap : nat) (q : list Z) (s : gset Z) : list Z * gset Z :=
  match q with
  | [] => ([], s)
  | x :: rest => if (cap <? length q)%nat then prune_fps cap rest (s ∖ {[x]}) else (q, s)
  end.

Section store.
Context {C : Crypto} {L : Libm} (cfg : StoreConfig).

Definition with_worker (st : Inner) (worker : NodeId) (f : WorkerState -> WorkerState) : Inner :=
  let '(ord, ws) :=
    match workers st !! worker with
    | Some _ => (order st, workers st)
    | None =>
        let '(ord, ws) := evict_fifo (max_workers cfg) (order st) (workers st) in
        (ord ++ [worker], <[worker := worker_new]> ws)
    end in
  mkInner (alter f worker ws) ord (requesters st) (requester_order st).

Definition record_obs (fp ts : Z) (correct : bool) (s : WorkerState) : WorkerState :=
  if bool_decide (fp ∈ seen s) then s
  else
    let '(obs, sn) := prune_obs (max_obs_per_worker cfg) (observations s ++ [mkObs ts correct (f64_of_Z 1) fp]) ({[fp]} ∪ seen s) in
    mkWorker obs sn (voucher_trust s) (penalty s) (capability s) (cap_seen s) (cap_seen_order s)
      (perf s) (perf_seen s) (perf_seen_order s).

Definition record (st : Inner) (r : Receipt) : Inner :=
  if negb (affects_reputation (r_verdict r)) then st
  else with_worker st (r_worker_id r) (record_obs (receipt_fingerprint r) (r_ts r) (is_correct (r_verdict r))).

Definition proven_fold (c : ProvenCapability) (r : Receipt) : ProvenCapability :=
  mkProven (Z.max (pc_max_input_bytes c) (r_observed_input_bytes r))
    (Z.max (pc_max_result_rows c) (r_observed_result_rows r))
    (Z.max (pc_max_result_bytes c) (r_observed_result_bytes r))
    (sat_add 32 (pc_successes c) 1) (Z.max (pc_last_ts c) (r_ts r)).

Definition capability_obs (r : Receipt) (s : WorkerState) : WorkerState :=
  let fp := receipt_fingerprint r in
  if bool_decide (fp ∈ cap_seen s) then s
  else
    let '(q, sn) := prune_fps (max_obs_per_worker cfg) (cap_seen_order s ++ [fp]) ({[fp]} ∪ cap_seen s) in
    mkWorker (observations s) (seen s) (voucher_trust s) (penalty s) (proven_fold (capability s) r) sn q
      (perf s) (perf_seen s) (perf_seen_order s).

Definition observe_capability (st : Inner) (r : Receipt) : Inner :=
  if negb (is_correct (r_verdict r)) then st else with_worker st (r_worker_id r) (capability_obs r).

Definition proven_capability (st : Inner) (worker : NodeId) : option ProvenCapability :=
  s ← workers st !! worker;
  if pc_successes (capability s) =? 0 then None else Some (capability s).

Definition perf_obs (r : Receipt) (s : WorkerState) : WorkerState :=
  let fp := receipt_fingerprint r in
  if bool_decide (fp ∈ perf_seen s) then s
  else
    let '(q, sn) := prune_fps (max_obs_per_worker cfg) (perf_seen_order s ++ [fp]) ({[fp]} ∪ perf_seen s) in
    mkWorker (observations s) (seen s) (voucher_trust s) (penalty s) (capability s) (cap_seen s) (cap_seen_order s)
      (perf_fold (perf s) (r_latency_ms r) (r_observed_input_bytes r) (r_ts r) (half_life_secs cfg)) sn q.

Definition observe_perf (st : Inner) (r : Receipt) : Inner :=
  if negb (is_correct (r_verdict r)) then st else with_worker st (r_worker_id r) (perf_obs r).

Definition perf_aggregate (st : Inner) (worker : NodeId) : option PerfAggregate :=
  s ← workers st !! worker;
  if obs_count (perf s) =? 0 then None else Some (perf s).

Definition reputation (st : Inner) (worker : NodeId) (now : Z) : option f64 :=
  s ← workers st !! worker; weighted_ratio (half_life_secs cfg) (observations s) now.

Definition observation_count (st : Inner) (worker : NodeId) : nat :=
  default 0%nat ((fun s => length (observations s)) <$> workers st !! worker).

Definition add_vouch (st : Inner) (worker : NodeId) (weight : f64) : Inner :=
  with_worker st worker (fun s =>
    mkWorker (observations s) (seen s) (fadd (voucher_trust s) weight) (penalty s) (capability s) (cap_seen s)
      (cap_seen_order s) (perf s) (perf_seen s) (perf_seen_order s)).
Definition voucher_trust_of (st : Inner) (worker : NodeId) : f64 :=
  default (f64_of_Z 0) (voucher_trust <$> workers st !! worker).

Definition penalize (st : Inner) (worker : NodeId) (amount : f64) : Inner :=
  with_worker st worker (fun s =>
    mkWorker (observations s) (seen s) (voucher_trust s) (fadd (penalty s) amount) (capability s) (cap_seen s)
      (cap_seen_order s) (perf s) (perf_seen s) (perf_seen_order s)).
Definition penalty_of (st : Inner) (worker : NodeId) : f64 :=
  default (f64_of_Z 0) (penalty <$> workers st !! worker).

Definition tracked_workers (st : Inner) : nat := size (workers st).

Definition record_requester (st : Inner) (requester : NodeId) (correct : bool) (ts : Z) : Inner :=
  let '(ord, rq) :=
    match requesters st !! requester with
    | Some _ => (requester_order st, requesters st)
    | None =>
        let '(ord, rq) := evict_fifo (max_workers cfg) (requester_order st) (requesters st) in
        (ord ++ [requester], <[requester := []]> rq)
    end in
  let push hist := (prune_obs (max_obs_per_worker cfg) (hist ++ [mkObs ts correct (f64_of_Z 1) 0]) ∅).1 in
  mkInner (workers st) (order st) (alter push requester rq) ord.

Definition requester_observation_count (st : Inner) (requester : NodeId) : nat :=
  default 0%nat (length <$> requesters st !! requester).
Definition requester_reputation (st : Inner) (requester : NodeId) (now : Z) : option f64 :=
  h ← requesters st !! requester; weighted_ratio (half_life_secs cfg) h now.
End store.

(** ** Scores *)

Definition attestation_gate (actual required : AttestationLevel) : bool := level_le required actual.

Record ReputationWeights := mkRepWeights {
  alpha_reputation : f64;
  beta_age : f64;
  gamma_voucher : f64;
  delta_stake : f64;
}.

Record TrustInputs := mkTrustInputs {
  ti_reputation : f64;
  ti_age_factor : f64;
  ti_voucher_trust : f64;
  ti_stake_factor : f64;
  ti_penalties : f64;
}.

Definition soft_trust_score (w : ReputationWeights) (i : TrustInputs) : f64 :=
  let raw :=
    fsub (fadd (fadd (fadd (fmul (alpha_reputation w) (ti_reputation i)) (fmul (beta_age w) (ti_age_factor i)))
                 (fmul (gamma_voucher w) (ti_voucher_trust i)))
            (fmul (delta_stake w) (ti_stake_factor i)))
      (ti_penalties i) in
  clamp01 raw.

Definition confidence_reputation (ratio : f64) (observations : Z) (prior_alpha prior_beta z : f64) : f64 :=
  let zero := f64_of_Z 0 in
  let n := f64_of_Z observations in
  let successes := fadd (fmul (clamp01 ratio) n) (fmax prior_alpha zero) in
  let trials := fadd (fadd n (fmax prior_alpha zero)) (fmax prior_beta zero) in
  if fle trials zero then zero
  else
    let p := fdiv successes trials in
    if fle z zero then clamp01 p
    else
      let z2 := fmul z z in
      let denom := fadd (f64_of_Z 1) (fdiv z2 trials) in
      let centre := fadd p (fdiv z2 (fmul (f64_of_Z 2) trials)) in
      let margin :=
        fmul z (fsqrt (fmax (fadd (fdiv (fmul p (fsub (f64_of_Z 1) p)) trials)
                              (fdiv z2 (fmul (fmul (f64_of_Z 4) trials) trials))) zero)) in
      clamp01 (fdiv (fsub centre margin) denom).

Definition exploration_bonus (observations : Z) (rate : f64) (saturation : Z) : f64 :=
  if fle rate (f64_of_Z 0) || (saturation =? 0) then f64_of_Z 0
  else
    let remaining := fsub (f64_of_Z 1) (fmin (fdiv (f64_of_Z observations) (f64_of_Z saturation)) (f64_of_Z 1)) in
    fmax (fmul rate remaining) (f64_of_Z 0).

(** [TrustStore::confident_reputation] and [capability_confidence]: the trait's defaults. *)
Definition confident_reputation {L : Libm} (cfg : StoreConfig) (st : Inner) (worker : NodeId) (now : Z)
    (prior_alpha prior_beta z : f64) : option f64 :=
  ratio ← reputation cfg st worker now;
  Some (confidence_reputation ratio (Z.of_nat (observation_count st worker)) prior_alpha prior_beta z).

Definition capability_confidence (st : Inner) (worker : NodeId) (prior_alpha prior_beta z : f64) : f64 :=
  match proven_capability st worker with
  | Some c => if 0 <? pc_successes c
              then confidence_reputation (f64_of_Z 1) (pc_successes c) prior_alpha prior_beta z
              else f64_of_Z 0
  | None => f64_of_Z 0
  end.

(** ** Quality *)

Record QualitySample := mkQualitySample {
  success_ratio : f64;
  qs_latency_ms : Z;
  bytes_verified : Z;
  completion : f64;
  penalties : list f64;
}.

Record QualityEconomics := mkQuality {
  w_success : f64;
  w_latency : f64;
  w_throughput : f64;
  w_completion : f64;
  latency_ref_ms : Z;
  bytes_ref : Z;
  throughput_ref_bytes_per_ms : Z;
}.

Definition ref_rate (q : QualityEconomics) : f64 :=
  if 0 <? throughput_ref_bytes_per_ms q then f64_of_Z (throughput_ref_bytes_per_ms q)
  else if 0 <? latency_ref_ms q then fdiv (f64_of_Z (bytes_ref q)) (f64_of_Z (latency_ref_ms q))
  else f64_of_Z (bytes_ref q).

Definition latency_score (latency nbytes : Z) (q : QualityEconomics) : f64 :=
  if latency_ref_ms q =? 0 then f64_of_Z 1
  else
    let size_factor :=
      if 0 <? bytes_ref q then fmax (fdiv (f64_of_Z nbytes) (f64_of_Z (bytes_ref q))) (f64_of_Z 1) else f64_of_Z 1 in
    let effective_ref := fmul (f64_of_Z (latency_ref_ms q)) size_factor in
    clamp01 (fsub (f64_of_Z 1) (fdiv (f64_of_Z latency) effective_ref)).

Definition throughput_score {L : Libm} (latency nbytes : Z) (q : QualityEconomics) : f64 :=
  let rate := fdiv (f64_of_Z nbytes) (f64_of_Z (Z.max latency 1)) in
  let refr := ref_rate q in
  if fle refr (f64_of_Z 0) then f64_of_Z 0
  else
    let denom := fln (fadd (f64_of_Z 1) refr) in
    if fle denom (f64_of_Z 0) then f64_of_Z 0
    else clamp01 (fdiv (fln (fadd (f64_of_Z 1) rate)) denom).

Definition quality_score {L : Libm} (s : QualitySample) (q : QualityEconomics) : f64 :=
  let sr := clamp01 (success_ratio s) in
  let l := latency_score (qs_latency_ms s) (bytes_verified s) q in
  let t := throughput_score (qs_latency_ms s) (bytes_verified s) q in
  let c := clamp01 (completion s) in
  let weight_sum := fadd (fadd (fadd (w_success q) (w_latency q)) (w_throughput q)) (w_completion q) in
  let base :=
    if flt (f64_of_Z 0) weight_sum
    then fdiv (fadd (fadd (fadd (fmul (w_success q) sr) (fmul (w_latency q) l)) (fmul (w_throughput q) t))
                 (fmul (w_completion q) c)) weight_sum
    else f64_of_Z 0 in
  clamp01 (foldl (fun acc p => fmul acc (fmax (fsub (f64_of_Z 1) (clamp01 p)) (f64_of_Z 0))) base (penalties s)).

Definition stake_factor {L : Libm} (stake min_stake stake_cap : Z) : f64 :=
  if stake =? 0 then f64_of_Z 0
  else
    let base := if min_stake =? 0 then 1000000000 else min_stake in
    let cap := Z.max stake_cap base in
    let num := fln (fadd (f64_of_Z 1) (fdiv (f64_of_Z stake) (f64_of_Z base))) in
    let den := fln (fadd (f64_of_Z 1) (fdiv (f64_of_Z cap) (f64_of_Z base))) in
    if fle den (f64_of_Z 0) then f64_of_Z 0 else clamp01 (fdiv num den).

(** ** The windows *)

Lemma prune_fps_spec cap q s :
  prune_fps cap q s = (drop (length q - cap) q, s ∖ list_to_set (take (length q - cap) q)).
Proof.
  revert s. induction q as [|x q IH]; intros s; cbn [prune_fps]; [f_equal; set_solver|].
  destruct (Nat.ltb_spec cap (length (x :: q))) as [H|H]; cbn [length] in H |- *.
  - rewrite IH. replace (S (length q) - cap)%nat with (S (length q - cap)) by lia. cbn [drop take list_to_set]. f_equal.
    set_solver.
  - replace (S (length q) - cap)%nat with 0%nat by lia. cbn [drop take list_to_set]. f_equal. set_solver.
Qed.

Lemma prune_obs_spec cap obs s :
  prune_obs cap obs s
  = (drop (length obs - cap) obs, s ∖ list_to_set (take (length obs - cap) (o_fp <$> obs))).
Proof.
  revert s. induction obs as [|x q IH]; intros s; cbn [prune_obs]; [f_equal; set_solver|].
  destruct (Nat.ltb_spec cap (length (x :: q))) as [H|H]; cbn [length] in H |- *.
  - rewrite IH. replace (S (length q) - cap)%nat with (S (length q - cap)) by lia. cbn [drop take fmap list_fmap list_to_set]. f_equal.
    set_solver.
  - replace (S (length q) - cap)%nat with 0%nat by lia. cbn [drop take list_to_set]. f_equal. set_solver.
Qed.

(** A window: a queue without repetitions, its set, and its bound. *)
Definition window (cap : nat) (q : list Z) (s : gset Z) : Prop :=
  NoDup q /\ s = list_to_set q /\ (length q <= cap)%nat.

Lemma window_push cap q s x :
  (0 < cap)%nat -> window cap q s -> x ∉ s ->
  window cap (drop (length (q ++ [x]) - cap) (q ++ [x]))
    (({[x]} ∪ s) ∖ list_to_set (take (length (q ++ [x]) - cap) (q ++ [x])))
  /\ x ∈ drop (length (q ++ [x]) - cap) (q ++ [x]).
Proof.
  intros Hc (Hn & -> & Hl) Hx. rewrite elem_of_list_to_set in Hx.
  assert (NoDup (q ++ [x])) as Hn'.
  { apply NoDup_app. split; [done|]. split; [|apply NoDup_singleton]. intros y Hy ->%list_elem_of_singleton. done. }
  assert (length (q ++ [x]) = S (length q)) as Hlen by (rewrite length_app; cbn [length]; lia).
  set (n := (length (q ++ [x]) - cap)%nat). split; [split; [|split]|].
  - rewrite <- (take_drop n (q ++ [x])) in Hn'. by apply NoDup_app in Hn' as (_ & _ & ?).
  - rewrite <- (take_drop n (q ++ [x])) in Hn'. apply NoDup_app in Hn' as (_ & Hd & _).
    apply set_eq. intros y. rewrite elem_of_difference, elem_of_union, elem_of_singleton, !elem_of_list_to_set.
    assert (y = x \/ y ∈ q <-> y ∈ take n (q ++ [x]) \/ y ∈ drop n (q ++ [x])) as ->.
    { rewrite <- elem_of_app, take_drop, elem_of_app, list_elem_of_singleton. tauto. }
    split; [tauto|]. intros H. split; [by right|]. intros H'. by apply (Hd y).
  - rewrite length_drop. lia.
  - rewrite drop_app_le by lia. apply elem_of_app. right. by apply list_elem_of_singleton.
Qed.

Lemma evict_fifo_spec {V} (max : nat) (ord : list NodeId) (m : gmap NodeId V) :
  (0 < max)%nat -> NoDup ord -> dom m = list_to_set ord -> (length ord <= max)%nat ->
  let '(ord', m') := evict_fifo max ord m in
  NoDup ord' /\ dom m' = list_to_set ord' /\ (length ord' < max)%nat /\ m' ⊆ m
  /\ (if (length ord <? max)%nat then (ord', m') = (ord, m) else exists e, ord = e :: ord' /\ m' = delete e m).
Proof.
  intros Hm Hn Hd Hl. destruct ord as [|e ord]; cbn [evict_fifo].
  { destruct (Nat.ltb_spec (length (@nil NodeId)) max); cbn [length] in *; [|lia]. repeat split; done. }
  destruct (Nat.leb_spec max (length (e :: ord))) as [H|H].
  - apply NoDup_cons in Hn as [He Hn]. cbn [length] in *.
    assert (evict_fifo max ord (delete e m) = (ord, delete e m)) as ->.
    { destruct ord as [|e' ord]; [done|]. cbn [evict_fifo]. destruct (Nat.leb_spec max (length (e' :: ord))); [cbn [length] in *; lia|done]. }
    split; [done|]. split; [rewrite dom_delete_L, Hd; cbn [list_to_set]; set_solver|]. split; [lia|].
    split; [apply delete_subseteq|]. destruct (Nat.ltb_spec (S (length ord)) max); [lia|by exists e].
  - split; [done|]. split; [done|]. split; [done|]. split; [done|]. apply Nat.ltb_lt in H. by rewrite H.
Qed.

(** ** The invariant of the store *)

Section invariant.
Context {C : Crypto} {L : Libm} (cfg : StoreConfig).

Definition worker_ok (s : WorkerState) : Prop :=
  window (max_obs_per_worker cfg) (o_fp <$> observations s) (seen s)
  /\ window (max_obs_per_worker cfg) (cap_seen_order s) (cap_seen s)
  /\ window (max_obs_per_worker cfg) (perf_seen_order s) (perf_seen s)
  /\ Forall (fun o => o_weight o = f64_of_Z 1) (observations s).

Definition fifo_ok {V} (P : V -> Prop) (ord : list NodeId) (m : gmap NodeId V) : Prop :=
  NoDup ord /\ dom m = list_to_set ord /\ (length ord <= max_workers cfg)%nat /\ map_Forall (fun _ => P) m.

Definition store_ok (st : Inner) : Prop :=
  fifo_ok worker_ok (order st) (workers st)
  /\ fifo_ok (fun h => (length h <= max_obs_per_worker cfg)%nat) (requester_order st) (requesters st).

Lemma worker_new_ok : worker_ok worker_new.
Proof using Type. repeat split; try apply NoDup_nil_2; cbn; try lia; done. Qed.

Lemma store_new_ok : store_ok store_new.
Proof using Type. repeat split; try apply NoDup_nil_2; try done; cbn; lia. Qed.

Hypothesis Hobs : (0 < max_obs_per_worker cfg)%nat.
Hypothesis Hmax : (0 < max_workers cfg)%nat.

(** Make room for a key, then update its entry. *)
Lemma fifo_update {V} (P : V -> Prop) (k : NodeId) (v0 : V) (f : V -> V) ord m :
  P v0 -> (forall v, P v -> P (f v)) -> fifo_ok P ord m ->
  let '(ord', m') :=
    match m !! k with
    | Some _ => (ord, m)
    | None => let '(o, w) := evict_fifo (max_workers cfg) ord m in (o ++ [k], <[k := v0]> w)
    end in
  fifo_ok P ord' (alter f k m').
Proof using Hobs Hmax.
  intros H0 Hf (Hn & Hd & Hl & Hp).
  assert (forall (m : gmap NodeId V), map_Forall (fun _ => P) m -> map_Forall (fun _ => P) (alter f k m)) as Ha.
  { intros m0 Hm0 i v Hv. apply lookup_alter_Some in Hv as [(-> & v' & Hv' & ->)|(_ & Hv)]; [apply Hf|]; by eapply Hm0. }
  destruct (m !! k) as [v|] eqn:E.
  - split; [done|]. split; [by rewrite dom_alter_L|]. split; [done|by apply Ha].
  - pose proof (evict_fifo_spec (max_workers cfg) ord m Hmax Hn Hd Hl) as H. destruct (evict_fifo _ ord m) as [o w].
    destruct H as (Hn' & Hd' & Hl' & Hs & _).
    assert (k ∉ o) as Hk.
    { intros Hk. apply not_elem_of_dom in E. apply subseteq_dom in Hs. set_solver. }
    split; [|split; [|split]].
    + apply NoDup_app. split; [done|]. split; [|apply NoDup_singleton]. by intros x Hx ->%list_elem_of_singleton.
    + rewrite dom_alter_L, dom_insert_L, list_to_set_app_L, Hd'. set_solver.
    + rewrite length_app. cbn [length]. lia.
    + apply Ha, map_Forall_insert_2; [done|]. intros i v Hv. apply (Hp i). by eapply lookup_weaken.
Qed.

Lemma with_worker_ok st w f :
  (forall s, worker_ok s -> worker_ok (f s)) -> store_ok st -> store_ok (with_worker cfg st w f).
Proof using Hobs Hmax.
  intros Hf [H1 H2]. unfold with_worker. pose proof (fifo_update worker_ok w worker_new f _ _ worker_new_ok Hf H1) as H.
  destruct (match workers st !! w with Some _ => _ | None => _ end) as [o m]. by split.
Qed.

Lemma record_obs_ok fp ts c s : worker_ok s -> worker_ok (record_obs cfg fp ts c s).
Proof using Hobs Hmax.
  intros (H1 & H2 & H3 & H4). unfold record_obs. destruct (bool_decide_reflect (fp ∈ seen s)) as [|Hn]; [done|].
  rewrite prune_obs_spec. split; [|split; [done|split; [done|]]]; cbn [observations seen].
  - destruct (window_push _ _ _ _ Hobs H1 Hn) as [Hw _].
    rewrite fmap_drop, fmap_app. by rewrite !length_app, length_fmap in *.
  - apply Forall_drop, Forall_app. split; [done|]. by apply Forall_singleton.
Qed.

Lemma capability_obs_ok r s : worker_ok s -> worker_ok (capability_obs cfg r s).
Proof using Hobs Hmax.
  intros (H1 & H2 & H3 & H4). unfold capability_obs. destruct (bool_decide_reflect (receipt_fingerprint r ∈ cap_seen s)) as [|Hn]; [done|].
  rewrite prune_fps_spec. split; [done|split; [|done]]. by apply window_push.
Qed.

Lemma perf_obs_ok r s : worker_ok s -> worker_ok (perf_obs cfg r s).
Proof using Hobs Hmax.
  intros (H1 & H2 & H3 & H4). unfold perf_obs. destruct (bool_decide_reflect (receipt_fingerprint r ∈ perf_seen s)) as [|Hn]; [done|].
  rewrite prune_fps_spec. split; [done|split; [done|split; [by apply window_push|done]]].
Qed.

(** Everything that can happen to the store. *)
Inductive store_op :=
| OpRecord (r : Receipt)
| OpCapability (r : Receipt)
| OpPerf (r : Receipt)
| OpVouch (w : NodeId) (weight : f64)
| OpPenalize (w : NodeId) (amount : f64)
| OpRequester (q : NodeId) (correct : bool) (ts : Z).

Definition store_apply (st : Inner) (op : store_op) : Inner :=
  match op with
  | OpRecord r => record cfg st r
  | OpCapability r => observe_capability cfg st r
  | OpPerf r => observe_perf cfg st r
  | OpVouch w x => add_vouch cfg st w x
  | OpPenalize w x => penalize cfg st w x
  | OpRequester q c ts => record_requester cfg st q c ts
  end.

Lemma store_apply_ok st op : store_ok st -> store_ok (store_apply st op).
Proof using Hobs Hmax.
  intros H. destruct op; cbn [store_apply].
  - unfold record. destruct (negb _); [done|]. apply with_worker_ok; [|done]. intros s. apply record_obs_ok.
  - unfold observe_capability. destruct (negb _); [done|]. apply with_worker_ok; [|done]. intros s. apply capability_obs_ok.
  - unfold observe_perf. destruct (negb _); [done|]. apply with_worker_ok; [|done]. intros s. apply perf_obs_ok.
  - by apply with_worker_ok.
  - by apply with_worker_ok.
  - destruct H as [H1 H2]. unfold record_requester.
    pose proof (fifo_update (fun h : list Observation => (length h <= max_obs_per_worker cfg)%nat) q []
      (fun h => (prune_obs (max_obs_per_worker cfg) (h ++ [mkObs ts correct (f64_of_Z 1) 0]) ∅).1)
      (requester_order st) (requesters st) (Nat.le_0_l _)) as H.
    destruct (match requesters st !! q with Some _ => _ | None => _ end) as [o m]. split; [done|]. cbn [requester_order requesters].
    apply H; [|done]. intros h Hh. rewrite prune_obs_spec. cbn [fst]. rewrite length_drop. lia.
Qed.

Lemma store_reachable_ok ops : store_ok (foldl store_apply store_new ops).
Proof using Hobs Hmax.
  induction ops as [|op ops IH] using rev_ind; [apply store_new_ok|]. rewrite foldl_app. by apply store_apply_ok.
Qed.

(** ** Replays *)

Lemma with_worker_twice st w f g :
  (forall s, worker_ok s -> g (f s) = f s) -> store_ok st ->
  with_worker cfg (with_worker cfg st w f) w g = with_worker cfg st w f.
Proof using Hobs Hmax.
  intros H [(Hn & Hd & Hl & Hp) _]. unfold with_worker at 2 3. destruct (workers st !! w) as [s|] eqn:E.
  - unfold with_worker. cbn [workers order requesters requester_order]. rewrite lookup_alter_eq, E. cbn [fmap option_fmap option_map].
    f_equal. apply alter_id. intros x Hx. rewrite lookup_alter_eq, E in Hx. injection Hx as <-. apply H. by eapply Hp.
  - destruct (evict_fifo _ _ _) as [o m]. unfold with_worker. cbn [workers order requesters requester_order].
    rewrite lookup_alter_eq, lookup_insert_eq. cbn [fmap option_fmap option_map].
    f_equal. apply alter_id. intros x Hx. rewrite lookup_alter_eq, lookup_insert_eq in Hx. injection Hx as <-.
    apply H, worker_new_ok.
Qed.

Lemma record_obs_again fp ts ts' c c' s :
  worker_ok s -> record_obs cfg fp ts' c' (record_obs cfg fp ts c s) = record_obs cfg fp ts c s.
Proof using Hobs Hmax.
  intros H. pose proof (record_obs_ok fp ts c s H) as ((_ & Hs & _) & _).
  unfold record_obs at 1. rewrite bool_decide_true; [done|]. rewrite Hs, elem_of_list_to_set.
  destruct H as (H1 & _). unfold record_obs. destruct (bool_decide_reflect (fp ∈ seen s)) as [Hi|Hn].
  - destruct H1 as (_ & E & _). rewrite E in Hi. by apply elem_of_list_to_set in Hi.
  - destruct (window_push _ _ _ _ Hobs H1 Hn) as [_ Hin]. rewrite prune_obs_spec. cbn [observations].
    rewrite fmap_drop, fmap_app. by rewrite !length_app, length_fmap in *.
Qed.

Lemma capability_obs_again r s :
  worker_ok s -> capability_obs cfg r (capability_obs cfg r s) = capability_obs cfg r s.
Proof using Hobs Hmax.
  intros H. pose proof (capability_obs_ok r s H) as (_ & (_ & Hs & _) & _).
  unfold capability_obs at 1. rewrite bool_decide_true; [done|]. rewrite Hs, elem_of_list_to_set.
  destruct H as (_ & H1 & _). unfold capability_obs. destruct (bool_decide_reflect (receipt_fingerprint r ∈ cap_seen s)) as [Hi|Hn].
  - destruct H1 as (_ & E & _). rewrite E in Hi. by apply elem_of_list_to_set in Hi.
  - destruct (window_push _ _ _ _ Hobs H1 Hn) as [_ Hin]. by rewrite prune_fps_spec.
Qed.
End invariant.

(** The trust store stays within its bounds: after any sequence of receipts,
    measurements, vouches, penalties and requester outcomes it tracks at most the
    configured number of workers and requesters and observations per worker, its
    eviction queue lists exactly the tracked workers, and the replay filter holds
    exactly the receipts in the window, each counted once.  Presenting a receipt again
    while it is in the window changes nothing, even with another verdict or time, and a
    verdict that blames the job or nobody never touches a provider. *)
Theorem trust_store_bounded {C : Crypto} {L : Libm} (half_life : Z) (cache capacity : nat) (ops : list store_op) :
  let cfg := store_config half_life cache capacity in
  let st := foldl (store_apply cfg) store_new ops in
  store_ok cfg st
  /\ (tracked_workers st <= Nat.max capacity 1)%nat
  /\ (forall w, (observation_count st w <= Nat.max cache 1)%nat)
  /\ (forall r r', r_worker_id r' = r_worker_id r -> receipt_fingerprint r' = receipt_fingerprint r ->
        affects_reputation (r_verdict r) = true -> record cfg (record cfg st r) r' = record cfg st r)
  /\ (forall r, affects_reputation (r_verdict r) = false -> record cfg st r = st)
  /\ (forall r, observe_capability cfg (observe_capability cfg st r) r = observe_capability cfg st r).
Proof.
  intros cfg st. assert (0 < max_obs_per_worker cfg)%nat as Hobs by (cbn; lia). assert (0 < max_workers cfg)%nat as Hmax by (cbn; lia).
  pose proof (store_reachable_ok cfg Hobs Hmax ops) as Hok. split; [done|]. split; [|split; [|split; [|split]]].
  - destruct Hok as [(Hn & Hd & Hl & _) _]. unfold tracked_workers. rewrite <- (size_dom (D := gset NodeId)). unfold st in *. rewrite Hd, size_list_to_set by done. done.
  - intros w. unfold observation_count. destruct (workers st !! w) as [s|] eqn:E; cbn; [|lia].
    destruct Hok as [(_ & _ & _ & Hp) _]. destruct (Hp w s E) as ((_ & _ & Hlen) & _). by rewrite length_fmap in Hlen.
  - intros r r' Hw Hf Ha. unfold record. rewrite Ha, Hw, Hf. cbn [negb]. destruct (negb (affects_reputation (r_verdict r'))); [done|].
    apply with_worker_twice; [done|done| |done]. intros s. by apply record_obs_again.
  - intros r Ha. unfold record. by rewrite Ha.
  - intros r. unfold observe_capability. destruct (negb _); [done|].
    apply with_worker_twice; [done|done| |done]. intros s. by apply capability_obs_again.
Qed.

(** The window also bounds the replay filter: once enough other receipts came in, an old
    one counts again. *)
Definition receipt_of (w job : bytes) : Receipt :=
  mkReceipt job w (str "b3:req") [] [] Correct 1 100 10 20 30 [] [] [].

Example replay_after_window :
  let C := toy_crypto in
  let cfg := store_config 604800 2 8 in
  let w := str "b3:w" in
  let rs := receipt_of w <$> [str "j1"; str "j2"; str "j3"; str "j1"; str "j2"; str "j3"] in
  pc_successes <$> proven_capability (foldl (observe_capability (C := C) cfg) store_new rs) w = Some 6.
Proof. vm_compute. reflexivity. Qed.

(** A mathematical library for the examples: no decay, and the identity logarithm. *)
#[export] Instance toy_libm : Libm := {| fpowf _ _ := f64_of_Z 1; fln x := x; fexp x := x; flog10 x := x |}.
