(* ===== verification/TrustDb.v ===== *)
(** * The persistent trust store (crates/trust/src/persistent.rs)

    [RedbTrustStore] keeps the reputation trail in an embedded database.  The database
    and the JSON codec are third-party code: their documented behaviour is the
    interface [Redb]/[RedbLaws].  JSON has no spelling for a number that is not finite:
    serde_json writes null, which is refused when the record is read, and the code then
    goes on with an empty record.  The store is proved to answer exactly like the
    in-memory store of [Reputation] after the same calls, as long as the numbers it
    writes are ones that JSON can hold; [infinite_penalty_loses_history] shows what
    happens otherwise. *)

From S2P Require Import Prelude Bytes F64 Crypto Proto Reputation.

Record PersistWorker := mkPersist {
  obs : list Observation;
  pseen : list Z;
  pvoucher_trust : f64;
  ppenalty : f64;
  seq : Z;
  pcapability : ProvenCapability;
  pcap_seen : list Z;
  pperf : PerfAggregate;
  pperf_seen : list Z;
}.
Definition persist_default : PersistWorker :=
  mkPersist [] [] (f64_of_Z 0) (f64_of_Z 0) 0 proven_default [] perf_default [].

(** The tables of one database, inside a transaction: [worker_state], [worker_order]
    (iterated in key order) and [meta]. *)
Class Redb := {
  DB : Type;
  db_empty : DB;
  w_get : DB -> bytes -> option PersistWorker;
  w_insert : DB -> bytes -> PersistWorker -> DB;
  w_remove : DB -> bytes -> DB;
  w_len : DB -> nat;
  o_insert : DB -> Z -> bytes -> DB;
  o_remove : DB -> Z -> DB;
  o_first : DB -> option (Z * bytes);
  next_seq : DB -> option Z;
  set_next_seq : DB -> Z -> DB;
  (** [serde_json::from_slice] on the bytes [to_vec] gave: [None] when it refuses them. *)
  reads_back : PersistWorker -> option PersistWorker;
}.

(** A number that JSON holds: not NaN, not infinite, and away from the top of the range,
    where the parser's own rounding could overflow. *)
Definition storable (x : f64) : bool := fle (fneg (f64_of_Z (2 ^ 1000))) x && fle x (f64_of_Z (2 ^ 1000)).
Definition storable_record (s : PersistWorker) : bool :=
  forallb (fun o => storable (o_weight o)) (obs s) && storable (pvoucher_trust s) && storable (ppenalty s)
  && storable (ewma_latency_ms (pperf s)) && storable (ewma_bytes (pperf s)) && storable (ewma_throughput_bps (pperf s)).

(** What the tables hold, and that the operations are those of ordered maps. *)
Class RedbLaws (R : Redb) := {
  w_view : DB -> gmap bytes PersistWorker;
  o_view : DB -> gmap Z bytes;
  view_empty : w_view db_empty = ∅ /\ o_view db_empty = ∅ /\ next_seq db_empty = None;
  w_get_view d k : w_get d k = w_view d !! k;
  w_len_view d : w_len d = size (w_view d);
  w_insert_view d k v :
    w_view (w_insert d k v) = <[k := v]> (w_view d) /\ o_view (w_insert d k v) = o_view d
    /\ next_seq (w_insert d k v) = next_seq d;
  w_remove_view d k :
    w_view (w_remove d k) = delete k (w_view d) /\ o_view (w_remove d k) = o_view d
    /\ next_seq (w_remove d k) = next_seq d;
  o_insert_view d s k :
    w_view (o_insert d s k) = w_view d /\ o_view (o_insert d s k) = <[s := k]> (o_view d)
    /\ next_seq (o_insert d s k) = next_seq d;
  o_remove_view d s :
    w_view (o_remove d s) = w_view d /\ o_view (o_remove d s) = delete s (o_view d)
    /\ next_seq (o_remove d s) = next_seq d;
  o_first_view d :
    match o_first d with
    | Some (s, k) => o_view d !! s = Some k /\ forall s', is_Some (o_view d !! s') -> s <= s'
    | None => o_view d = ∅
    end;
  set_next_view d n :
    w_view (set_next_seq d n) = w_view d /\ o_view (set_next_seq d n) = o_view d
    /\ next_seq (set_next_seq d n) = Some n;
  (** In a record of storable numbers integers, booleans and the weight 1.0 survive JSON;
      the other numbers may be rounded in the last digit. *)
  reads_back_exact s :
    storable_record s = true -> Forall (fun o => o_weight o = f64_of_Z 1) (obs s) ->
    exists s', reads_back s = Some s' /\ obs s' = obs s /\ pseen s' = pseen s /\ seq s' = seq s
      /\ pcapability s' = pcapability s /\ pcap_seen s' = pcap_seen s /\ pperf_seen s' = pperf_seen s;
}.

Section redb.
Context {C : Crypto} {L : Libm} {R : Redb} (cfg : StoreConfig).

(** [from_slice(..).unwrap_or_default()] of what was stored for [s]. *)
Definition persist (s : PersistWorker) : PersistWorker := default persist_default (reads_back s).

(** [while state.obs.len() > max { remove(0); seen.retain(|x| x != fp) }] *)
Fixpoint pprune (cap : nat) (os : list Observation) (sn : list Z) : list Observation * list Z :=
  match os with
  | [] => ([], sn)
  | o :: rest =>
      if (cap <? length os)%nat then pprune cap rest (List.filter (fun x => negb (x =? o_fp o)) sn) else (os, sn)
  end.

(** Evict the oldest workers while over capacity: at most one round per tracked worker. *)
Fixpoint evict_over (fuel : nat) (max : nat) (d : DB) : DB :=
  match fuel with
  | O => d
  | S fuel' =>
      if (max <? w_len d)%nat
      then match o_first d with
           | Some (s, victim) => evict_over fuel' max (w_remove (o_remove d s) victim)
           | None => d
           end
      else d
  end.

(** The record of a worker inside the transaction; a new worker gets the next sequence
    number and a place at the end of the order table. *)
Definition load_or_new (d : DB) (worker : NodeId) : PersistWorker * DB :=
  match w_get d worker with
  | Some s => (s, d)
  | None =>
      let next := default 0 (next_seq d) in
      (mkPersist [] [] (f64_of_Z 0) (f64_of_Z 0) next proven_default [] perf_default [],
       o_insert (set_next_seq d (wrap 64 (next + 1))) next worker)
  end.

Definition pruned (p : PersistWorker) : PersistWorker :=
  let '(os, sn) := pprune (max_obs_per_worker cfg) (obs p) (pseen p) in
  mkPersist os sn (pvoucher_trust p) (ppenalty p) (seq p) (pcapability p) (pcap_seen p) (pperf p) (pperf_seen p).

(** The write transaction; [commits] is false when a database call fails, and then the
    transaction leaves no trace. *)
Definition mutate (commits : bool) (d : DB) (worker : NodeId) (f : PersistWorker -> PersistWorker) : DB :=
  if negb commits then d
  else
    let '(state, d) := load_or_new d worker in
    let state := pruned (f state) in
    let d := w_insert d worker (persist state) in
    evict_over (S (w_len d)) (max_workers cfg) d.

(** The closures of the write methods. *)
Definition on_record (r : Receipt) (s : PersistWorker) : PersistWorker :=
  let fp := receipt_fingerprint r in
  if existsb (Z.eqb fp) (pseen s) then s
  else mkPersist (obs s ++ [mkObs (r_ts r) (is_correct (r_verdict r)) (f64_of_Z 1) fp]) (pseen s ++ [fp])
         (pvoucher_trust s) (ppenalty s) (seq s) (pcapability s) (pcap_seen s) (pperf s) (pperf_seen s).

(** [while v.len() > limit { v.remove(0) }] *)
Definition keep_last (limit : nat) (l : list Z) : list Z := drop (length l - limit) l.

Definition on_capability (r : Receipt) (s : PersistWorker) : PersistWorker :=
  let fp := receipt_fingerprint r in
  if existsb (Z.eqb fp) (pcap_seen s) then s
  else mkPersist (obs s) (pseen s) (pvoucher_trust s) (ppenalty s) (seq s) (proven_fold (pcapability s) r)
         (keep_last (max_obs_per_worker cfg) (pcap_seen s ++ [fp])) (pperf s) (pperf_seen s).
Definition on_perf (r : Receipt) (s : PersistWorker) : PersistWorker :=
  let fp := receipt_fingerprint r in
  if existsb (Z.eqb fp) (pperf_seen s) then s
  else mkPersist (obs s) (pseen s) (pvoucher_trust s) (ppenalty s) (seq s) (pcapability s) (pcap_seen s)
         (perf_fold (pperf s) (r_latency_ms r) (r_observed_input_bytes r) (r_ts r) (half_life_secs cfg))
         (keep_last (max_obs_per_worker cfg) (pperf_seen s ++ [fp])).
Definition on_vouch (weight : f64) (s : PersistWorker) : PersistWorker :=
  mkPersist (obs s) (pseen s) (fadd (pvoucher_trust s) weight) (ppenalty s) (seq s) (pcapability s) (pcap_seen s)
    (pperf s) (pperf_seen s).
Definition on_penalize (amount : f64) (s : PersistWorker) : PersistWorker :=
  mkPersist (obs s) (pseen s) (pvoucher_trust s) (fadd (ppenalty s) amount) (seq s) (pcapability s) (pcap_seen s)
    (pperf s) (pperf_seen s).

Definition db_record (commits : bool) (d : DB) (r : Receipt) : DB :=
  if negb (affects_reputation (r_verdict r)) then d else mutate commits d (r_worker_id r) (on_record r).
Definition db_observe_capability (commits : bool) (d : DB) (r : Receipt) : DB :=
  if negb (is_correct (r_verdict r)) then d else mutate commits d (r_worker_id r) (on_capability r).
Definition db_observe_perf (commits : bool) (d : DB) (r : Receipt) : DB :=
  if negb (is_correct (r_verdict r)) then d else mutate commits d (r_worker_id r) (on_perf r).
Definition db_add_vouch (commits : bool) (d : DB) (w : NodeId) (weight : f64) : DB := mutate commits d w (on_vouch weight).
Definition db_penalize (commits : bool) (d : DB) (w : NodeId) (amount : f64) : DB := mutate commits d w (on_penalize amount).

Definition db_proven_capability (d : DB) (w : NodeId) : option ProvenCapability :=
  s ← w_get d w; if pc_successes (pcapability s) =? 0 then None else Some (pcapability s).
Definition db_perf_aggregate (d : DB) (w : NodeId) : option PerfAggregate :=
  s ← w_get d w; if obs_count (pperf s) =? 0 then None else Some (pperf s).
Definition db_reputation (d : DB) (w : NodeId) (now : Z) : option f64 :=
  s ← w_get d w; weighted_ratio (half_life_secs cfg) (obs s) now.
Definition db_observation_count (d : DB) (w : NodeId) : nat :=
  default 0%nat ((fun s => length (obs s)) <$> w_get d w).
Definition db_voucher_trust (d : DB) (w : NodeId) : f64 := default (f64_of_Z 0) (pvoucher_trust <$> w_get d w).
Definition db_penalty (d : DB) (w : NodeId) : f64 := default (f64_of_Z 0) (ppenalty <$> w_get d w).
Definition db_tracked_workers (d : DB) : nat := w_len d.

(** The trait's default methods, which this store does not override: it keeps no
    requester history. *)
Definition db_record_requester (d : DB) (_ : NodeId) (_ : bool) (_ : Z) : DB := d.
Definition db_requester_observation_count (_ : DB) (_ : NodeId) : nat := 0.
Definition db_requester_reputation (_ : DB) (_ : NodeId) (_ : Z) : option f64 := None.

Definition db_apply (d : DB) (op : store_op) : DB :=
  match op with
  | OpRecord r => db_record true d r
  | OpCapability r => db_observe_capability true d r
  | OpPerf r => db_observe_perf true d r
  | OpVouch w x => db_add_vouch true d w x
  | OpPenalize w x => db_penalize true d w x
  | OpRequester q c ts => db_record_requester d q c ts
  end.

(** The record a call writes, before it goes through JSON. *)
Definition written (d : DB) (op : store_op) : option PersistWorker :=
  let upd w f := Some (pruned (f (load_or_new d w).1)) in
  match op with
  | OpRecord r => if affects_reputation (r_verdict r) then upd (r_worker_id r) (on_record r) else None
  | OpCapability r => if is_correct (r_verdict r) then upd (r_worker_id r) (on_capability r) else None
  | OpPerf r => if is_correct (r_verdict r) then upd (r_worker_id r) (on_perf r) else None
  | OpVouch w x => upd w (on_vouch x)
  | OpPenalize w x => upd w (on_penalize x)
  | OpRequester _ _ _ => None
  end.

(** Every number that the calls write, one after the other, is storable. *)
Fixpoint storable_run (d : DB) (ops : list store_op) : bool :=
  match ops with
  | [] => true
  | op :: ops => from_option storable_record true (written d op) && storable_run (db_apply d op) ops
  end.
End redb.

(** ** The simulation *)

(** Two records of one worker hold the same history and measured capability. *)
Definition same_worker (s : WorkerState) (p : PersistWorker) : Prop :=
  obs p = observations s /\ pseen p = o_fp <$> observations s /\ pcapability p = capability s
  /\ pcap_seen p = cap_seen_order s /\ pperf_seen p = perf_seen_order s.

(** The order table lists the eviction queue under increasing sequence numbers. *)
Definition order_table (nx : option Z) (v : gmap Z bytes) (ord : list NodeId) : Prop :=
  0 <= default 0 nx
  /\ exists seqs, length seqs = length ord /\ StronglySorted Z.lt seqs
     /\ Forall (fun n => n < default 0 nx) seqs /\ v = list_to_map (zip seqs ord).

(** The database holds the in-memory store: the same workers with the same records, and
    the same eviction queue. *)
Definition same_store {R : Redb} {RL : RedbLaws R} (st : Inner) (d : DB) : Prop :=
  (forall k, option_Forall2 same_worker (workers st !! k) (w_view d !! k))
  /\ order_table (next_seq d) (o_view d) (order st).

Lemma pprune_spec cap os :
  NoDup (o_fp <$> os) ->
  pprune cap os (o_fp <$> os) = (drop (length os - cap) os, o_fp <$> drop (length os - cap) os).
Proof.
  induction os as [|o os IH]; [done|]. rewrite fmap_cons. intros Hn. cbn [pprune]. destruct (Nat.ltb_spec cap (length (o :: os))) as [H|H].
  - apply NoDup_cons in Hn as [Ho Hn]. cbn [length] in *. replace (S (length os) - cap)%nat with (S (length os - cap)) by lia.
    cbn [drop List.filter]. rewrite Z.eqb_refl. cbn [negb].
    assert (List.filter (fun x => negb (x =? o_fp o)) (o_fp <$> os) = o_fp <$> os) as Hf; [|by rewrite Hf, IH].
    clear -Ho. revert Ho. generalize (o_fp <$> os). intros l Ho. induction l as [|x l IH]; [done|]. cbn [List.filter].
    apply not_elem_of_cons in Ho as [Hne Hl]. destruct (Z.eqb_spec x (o_fp o)); [done|]. cbn [negb]. by rewrite IH.
  - cbn [length] in *. by replace (S (length os) - cap)%nat with 0%nat by lia.
Qed.

Lemma existsb_eqb x (l : list Z) : existsb (Z.eqb x) l = bool_decide (x ∈ l).
Proof.
  symmetry. destruct (existsb (Z.eqb x) l) eqn:E.
  - apply bool_decide_eq_true. apply existsb_exists in E as (y & Hy & ->%Z.eqb_eq). by apply list_elem_of_In.
  - apply bool_decide_eq_false. intros H%list_elem_of_In. assert (existsb (Z.eqb x) l = true); [|congruence].
    apply existsb_exists. exists x. split; [done|apply Z.eqb_refl].
Qed.

Section simulation.
Context {C : Crypto} {L : Libm} {R : Redb} {RL : RedbLaws R} (cfg : StoreConfig).

Lemma evict_over_le fuel d : (w_len d <= max_workers cfg)%nat -> evict_over fuel (max_workers cfg) d = d.
Proof. intros H. destruct fuel; [done|]. cbn [evict_over]. destruct (Nat.ltb_spec (max_workers cfg) (w_len d)); [lia|done]. Qed.

(** The first entry of the order table is the head of the eviction queue. *)
Lemma order_pop d e ord :
  order_table (next_seq d) (o_view d) (e :: ord) ->
  exists n, o_first d = Some (n, e) /\ order_table (next_seq d) (delete n (o_view d)) ord.
Proof.
  intros (H0 & seqs & Hl & Hs & Hb & Hv). destruct seqs as [|n seqs]; [done|]. cbn [length] in Hl. exists n.
  apply StronglySorted_inv in Hs as [Hs Hn]. apply Forall_cons in Hb as [_ Hb]. rewrite Forall_forall in Hn.
  cbn [zip_with] in Hv. rewrite list_to_map_cons in Hv. split.
  - pose proof (o_first_view d) as Hf. rewrite Hv in Hf. destruct (o_first d) as [[s k]|].
    + destruct Hf as [Hk Hm]. specialize (Hm n). rewrite lookup_insert_eq in Hm. specialize (Hm ltac:(by eexists)).
      destruct (decide (s = n)) as [->|Hne]; [rewrite lookup_insert_eq in Hk; by injection Hk as <-|].
      rewrite lookup_insert_ne in Hk by done. apply elem_of_list_to_map_2, elem_of_zip_l in Hk. specialize (Hn s Hk). lia.
    + exfalso. by apply insert_non_empty in Hf.
  - split; [done|]. exists seqs. split; [lia|]. split; [done|]. split; [done|].
    rewrite Hv. apply delete_insert_id, not_elem_of_list_to_map. intros Hin.
    apply list_elem_of_fmap in Hin as ([x y] & -> & Hin). apply elem_of_zip_l in Hin. specialize (Hn _ Hin). cbn in Hn. lia.
Qed.

Lemma same_dom (m : gmap NodeId WorkerState) (v : gmap bytes PersistWorker) :
  (forall k, option_Forall2 same_worker (m !! k) (v !! k)) -> dom v = dom m.
Proof.
  intros H. apply set_eq. intros k. rewrite !elem_of_dom. specialize (H k). by inversion H.
Qed.

Lemma persist_same s p :
  worker_ok cfg s -> same_worker s p -> storable_record p = true -> same_worker s (persist p).
Proof using RL.
  intros (_ & _ & _ & Hw) (H1 & H2 & H3 & H4 & H5) Hst.
  destruct (reads_back_exact p Hst) as (p' & E & E1 & E2 & _ & E3 & E4 & E5); [by rewrite H1|].
  unfold persist. rewrite E. cbn [from_option id]. split; [|split; [|split; [|split]]]; congruence.
Qed.

(** What an update of the two stores must agree on. *)
Definition agree (f : WorkerState -> WorkerState) (f' : PersistWorker -> PersistWorker) : Prop :=
  forall s p, worker_ok cfg s -> same_worker s p -> worker_ok cfg (f s) /\ same_worker (f s) (pruned cfg (f' p)).

Lemma mutate_known st d w f f' s :
  (0 < max_workers cfg)%nat -> store_ok cfg st -> same_store st d -> agree f f' -> workers st !! w = Some s ->
  storable_record (pruned cfg (f' (load_or_new d w).1)) = true ->
  same_store (with_worker cfg st w f) (mutate cfg true d w f') /\ next_seq (mutate cfg true d w f') = next_seq d.
Proof.
  intros Hm [(Hn & Hd & Hl & Hp) _] (Hw & Hq) Ha E Hst. pose proof (Hw w) as Hs. rewrite E in Hs.
  inversion Hs as [s' p Hsp Es Ep|]; subst s'. destruct (Ha s p (Hp w s E) Hsp) as [Hok Hsame].
  assert (load_or_new d w = (p, d)) as El by (unfold load_or_new; by rewrite w_get_view, <- Ep). rewrite El in Hst. cbn [fst] in Hst.
  assert (dom (w_view d) = dom (workers st)) as Hdom by by apply same_dom.
  set (d' := w_insert d w (persist (pruned cfg (f' p)))).
  assert (mutate cfg true d w f' = d') as ->.
  { unfold mutate. cbn [negb]. rewrite El. cbv beta iota zeta. fold d'. apply evict_over_le. unfold d'.
    rewrite w_len_view. destruct (w_insert_view d w (persist (pruned cfg (f' p)))) as (-> & _).
    rewrite <- (size_dom (D := gset bytes)), dom_insert_L, Hdom, Hd.
    assert (w ∈ dom (workers st)) as Hin by (apply elem_of_dom; by eexists). rewrite Hd in Hin.
    replace ({[w]} ∪ list_to_set (order st)) with (list_to_set (C := gset bytes) (order st)) by set_solver.
    by rewrite size_list_to_set. }
  destruct (w_insert_view d w (persist (pruned cfg (f' p)))) as (Hv & Hv2 & Hv3). split; [|done].
  unfold with_worker. rewrite E. split; cbn [workers order].
  - intros k. unfold d'. rewrite Hv. destruct (decide (k = w)) as [->|Hk].
    + rewrite lookup_alter_eq, lookup_insert_eq, E. constructor. by apply persist_same.
    + rewrite lookup_alter_ne, lookup_insert_ne by done. apply Hw.
  - unfold d'. by rewrite Hv2, Hv3.
Qed.

(** A new worker goes to the end of the queue under the next sequence number. *)
Lemma order_push nx v ord w :
  order_table nx v ord ->
  order_table (Some (default 0 nx + 1)) (<[default 0 nx := w]> v) (ord ++ [w]).
Proof.
  intros (H0 & seqs & Hl & Hs & Hb & ->). set (next := default 0 nx) in *. split; [cbn; lia|]. exists (seqs ++ [next]).
  rewrite !length_app. split; [cbn; lia|]. split; [|split].
  - clear Hl. induction seqs as [|n seqs IH]; [repeat constructor|]. apply StronglySorted_inv in Hs as [Hs Hn].
    apply Forall_cons in Hb as [Hb1 Hb2]. cbn [app]. constructor; [by apply IH|].
    apply Forall_app. split; [done|]. by apply Forall_singleton.
  - apply Forall_app. split; [eapply Forall_impl; [exact Hb|]; cbn; lia|]. apply Forall_singleton. cbn. lia.
  - rewrite zip_with_app by done. rewrite list_to_map_app. cbn [zip_with]. rewrite list_to_map_cons, list_to_map_nil, insert_empty.
    apply insert_union_singleton_r, not_elem_of_list_to_map. intros Hin.
    apply list_elem_of_fmap in Hin as ([x y] & -> & Hin). apply elem_of_zip_l in Hin. rewrite Forall_forall in Hb.
    specialize (Hb _ Hin). cbn in Hb. lia.
Qed.

(** The database after the record of a new worker [w] is written, before any eviction. *)
Lemma insert_new d w (p : PersistWorker) :
  let next := default 0 (next_seq d) in
  let d' := w_insert (o_insert (set_next_seq d (wrap 64 (next + 1))) next w) w p in
  w_view d' = <[w := p]> (w_view d) /\ o_view d' = <[next := w]> (o_view d) /\ next_seq d' = Some (wrap 64 (next + 1)).
Proof.
  intros next d'. unfold d'. destruct (w_insert_view (o_insert (set_next_seq d (wrap 64 (next + 1))) next w) w p) as (-> & -> & ->).
  destruct (o_insert_view (set_next_seq d (wrap 64 (next + 1))) next w) as (-> & -> & ->).
  by destruct (set_next_view d (wrap 64 (next + 1))) as (-> & -> & ->).
Qed.

(** One eviction is enough when the store is one worker over its bound. *)
Lemma evict_one d n e :
  o_first d = Some (n, e) -> w_len d = S (max_workers cfg) -> e ∈ dom (w_view d) ->
  let d' := w_remove (o_remove d n) e in
  evict_over (S (w_len d)) (max_workers cfg) d = d'
  /\ w_view d' = delete e (w_view d) /\ o_view d' = delete n (o_view d) /\ next_seq d' = next_seq d.
Proof.
  intros Hf Hl He d'. destruct (w_remove_view (o_remove d n) e) as (X1 & X2 & X3). destruct (o_remove_view d n) as (Y1 & Y2 & Y3).
  fold d' in X1, X2, X3. rewrite Y1 in X1. rewrite Y2 in X2. rewrite Y3 in X3. split; [|done].
  cbn [evict_over]. destruct (Nat.ltb_spec (max_workers cfg) (w_len d)); [|lia]. rewrite Hf. apply evict_over_le.
  rewrite w_len_view, X1, map_size_delete_Some by (by apply elem_of_dom). rewrite <- w_len_view. lia.
Qed.

Lemma mutate_new st d w f f' :
  (0 < max_workers cfg)%nat -> store_ok cfg st -> same_store st d -> agree f f' -> workers st !! w = None ->
  storable_record (pruned cfg (f' (load_or_new d w).1)) = true ->
  default 0 (next_seq d) + 1 < 2 ^ 64 ->
  same_store (with_worker cfg st w f) (mutate cfg true d w f')
  /\ next_seq (mutate cfg true d w f') = Some (default 0 (next_seq d) + 1).
Proof.
  intros Hm [(Hn & Hd & Hl & Hp) _] (Hw & Hq) Ha E Hst Hnext. pose proof Hq as [Hq0 _]. set (next := default 0 (next_seq d)) in *.
  pose proof (Hw w) as Hs. rewrite E in Hs. inversion Hs as [|Hnone Ep].
  set (p0 := mkPersist [] [] (f64_of_Z 0) (f64_of_Z 0) next proven_default [] perf_default []).
  destruct (Ha worker_new p0 (worker_new_ok cfg)) as [Hok Hsame]; [done|].
  assert (load_or_new d w = (p0, o_insert (set_next_seq d (wrap 64 (next + 1))) next w)) as El
    by (unfold load_or_new; by rewrite w_get_view, <- Ep). rewrite El in Hst. cbn [fst] in Hst.
  destruct (insert_new d w (persist (pruned cfg (f' p0)))) as (V1 & V2 & V3). fold next in V1, V2, V3. set (d' := w_insert _ w _) in *.
  assert (wrap 64 (next + 1) = next + 1) as Hwrap by (apply Z.mod_small; lia). rewrite Hwrap in V3.
  apply (order_push _ _ _ w) in Hq. fold next in Hq. rewrite <- V2, <- V3 in Hq.
  assert (mutate cfg true d w f' = evict_over (S (w_len d')) (max_workers cfg) d') as ->.
  { unfold mutate. cbn [negb]. by rewrite El. }
  assert (dom (w_view d) = list_to_set (order st)) as Hdom by (rewrite <- Hd; by apply same_dom).
  assert (w_len d' = S (length (order st))) as Hlen.
  { rewrite w_len_view, V1, map_size_insert_None, <- (size_dom (D := gset bytes)), Hdom by done. by rewrite size_list_to_set. }
  assert (forall k, k <> w -> option_Forall2 same_worker (workers st !! k) (w_view d' !! k)) as Hother.
  { intros k Hk. rewrite V1, lookup_insert_ne by done. apply Hw. }
  unfold with_worker. rewrite E. pose proof (evict_fifo_spec (max_workers cfg) (order st) (workers st) Hm Hn Hd Hl) as He.
  destruct (evict_fifo _ _ _) as [o m]. destruct He as (_ & _ & Ho & _ & He).
  destruct (Nat.ltb_spec (length (order st)) (max_workers cfg)) as [Hfit|Hfull].
  - injection He as -> ->. rewrite evict_over_le by lia. split; [|done]. split; [|done]. intros k. cbn [workers]. destruct (decide (k = w)) as [->|Hk].
    + rewrite lookup_alter_eq, V1, !lookup_insert_eq. constructor. by apply persist_same.
    + rewrite lookup_alter_ne, lookup_insert_ne by done. by apply Hother.
  - destruct He as (e & He & ->). assert (e <> w) as Hew.
    { intros ->. apply not_elem_of_dom in E. rewrite Hd, He in E. set_solver. }
    rewrite He in Hq, Hlen. cbn [app length] in Hq, Hlen. rewrite He in Hl, Hfull. cbn [length] in Hl, Hfull.
    destruct (order_pop _ _ _ Hq) as (n & Hfirst & Hq').
    destruct (evict_one d' n e Hfirst) as (X0 & X1 & X2 & X3); [lia|rewrite V1, dom_insert_L, Hdom, He; set_solver|].
    rewrite X0. split; [|by rewrite X3]. split; [|by rewrite X2, X3]. intros k. cbn [workers]. rewrite X1. destruct (decide (k = w)) as [->|Hk].
    + rewrite lookup_alter_eq, lookup_delete_ne, V1, !lookup_insert_eq by done. constructor. by apply persist_same.
    + rewrite lookup_alter_ne, lookup_insert_ne by done. destruct (decide (k = e)) as [->|Hke].
      * rewrite !lookup_delete_eq. constructor.
      * rewrite !lookup_delete_ne by done. by apply Hother.
Qed.

(** An update that leaves the observation window alone needs no pruning. *)
Lemma pruned_id s p : worker_ok cfg s -> same_worker s p -> pruned cfg p = p.
Proof using Type.
  intros ((Hn & _ & Hl) & _) (H1 & H2 & _). unfold pruned. rewrite H2, H1, pprune_spec by done.
  rewrite length_fmap in Hl. replace (length (observations s) - max_obs_per_worker cfg)%nat with 0%nat by lia.
  rewrite drop_0, <- H2, <- H1. by destruct p.
Qed.

Lemma agree_floats f f' :
  (forall s, observations (f s) = observations s /\ seen (f s) = seen s /\ capability (f s) = capability s
     /\ cap_seen (f s) = cap_seen s /\ cap_seen_order (f s) = cap_seen_order s
     /\ perf_seen (f s) = perf_seen s /\ perf_seen_order (f s) = perf_seen_order s) ->
  (forall p, obs (f' p) = obs p /\ pseen (f' p) = pseen p /\ pcapability (f' p) = pcapability p
     /\ pcap_seen (f' p) = pcap_seen p /\ pperf_seen (f' p) = pperf_seen p) ->
  agree f f'.
Proof using Type.
  intros Hf Hf' s p Hok Hs. destruct (Hf s) as (E1 & E2 & E3 & E4 & E5 & E6 & E7). destruct (Hf' p) as (F1 & F2 & F3 & F4 & F5).
  assert (worker_ok cfg (f s)) as Hok' by (unfold worker_ok; by rewrite E1, E2, E4, E5, E6, E7). split; [done|].
  destruct Hs as (H1 & H2 & H3 & H4 & H5).
  assert (same_worker (f s) (f' p)) by (repeat split; congruence). by erewrite pruned_id.
Qed.

Hypothesis Hobs : (0 < max_obs_per_worker cfg)%nat.
Hypothesis Hmax : (0 < max_workers cfg)%nat.

Lemma agree_record r :
  agree (record_obs cfg (receipt_fingerprint r) (r_ts r) (is_correct (r_verdict r))) (on_record r).
Proof using Hobs Hmax.
  intros s p Hok Hs. split; [by apply record_obs_ok|]. unfold on_record. set (fp := receipt_fingerprint r) in *.
  set (ts := r_ts r). set (c := is_correct _). pose proof Hs as (H1 & H2 & H3 & H4 & H5).
  pose proof Hok as ((Hn & Hseen & Hl) & _). rewrite existsb_eqb, H2. unfold record_obs.
  rewrite (bool_decide_ext (fp ∈ seen s) (fp ∈ o_fp <$> observations s)) by (rewrite Hseen; apply elem_of_list_to_set).
  destruct (bool_decide_reflect (fp ∈ o_fp <$> observations s)) as [Hin|Hnot]; [by rewrite (pruned_id s)|].
  rewrite prune_obs_spec. unfold pruned. cbn [obs pseen]. rewrite H1.
  replace ((o_fp <$> observations s) ++ [fp]) with (o_fp <$> (observations s ++ [mkObs ts c (f64_of_Z 1) fp])) by (by rewrite fmap_app).
  rewrite pprune_spec; [by split|]. rewrite fmap_app. apply NoDup_app. split; [done|]. split; [|apply NoDup_singleton].
  by intros x Hx ->%list_elem_of_singleton.
Qed.

Lemma agree_capability r : agree (capability_obs cfg r) (on_capability cfg r).
Proof using Hobs Hmax.
  intros s p Hok Hs. pose proof (capability_obs_ok cfg Hobs Hmax r s Hok) as Hok'. split; [done|].
  pose proof Hs as (H1 & H2 & H3 & H4 & H5). pose proof Hok as (_ & (_ & Hseen & _) & _). unfold capability_obs, on_capability in *. rewrite existsb_eqb, H4.
  rewrite (bool_decide_ext (_ ∈ cap_seen s) (receipt_fingerprint r ∈ cap_seen_order s)) in * by (rewrite Hseen; apply elem_of_list_to_set).
  destruct (bool_decide_reflect (receipt_fingerprint r ∈ cap_seen_order s)) as [Hin|Hnot]; [by rewrite (pruned_id s)|].
  rewrite prune_fps_spec in *.
  match goal with |- same_worker ?x (pruned _ ?y) => assert (same_worker x y) as Hsw by (repeat split; cbn; congruence) end.
  by erewrite pruned_id.
Qed.

Lemma agree_perf r : agree (perf_obs cfg r) (on_perf cfg r).
Proof using Hobs Hmax.
  intros s p Hok Hs. pose proof (perf_obs_ok cfg Hobs Hmax r s Hok) as Hok'. split; [done|].
  pose proof Hs as (H1 & H2 & H3 & H4 & H5). pose proof Hok as (_ & _ & (_ & Hseen & _) & _). unfold perf_obs, on_perf in *. rewrite existsb_eqb, H5.
  rewrite (bool_decide_ext (_ ∈ perf_seen s) (receipt_fingerprint r ∈ perf_seen_order s)) in * by (rewrite Hseen; apply elem_of_list_to_set).
  destruct (bool_decide_reflect (receipt_fingerprint r ∈ perf_seen_order s)) as [Hin|Hnot]; [by rewrite (pruned_id s)|].
  rewrite prune_fps_spec in *.
  match goal with |- same_worker ?x (pruned _ ?y) => assert (same_worker x y) as Hsw by (repeat split; cbn; congruence) end.
  by erewrite pruned_id.
Qed.

Lemma db_apply_sim st d op (n : Z) :
  store_ok cfg st -> same_store st d -> default 0 (next_seq d) <= n -> n + 1 < 2 ^ 64 ->
  from_option storable_record true (written cfg d op) = true ->
  same_store (store_apply cfg st op) (db_apply cfg d op) /\ default 0 (next_seq (db_apply cfg d op)) <= n + 1.
Proof using Hobs Hmax.
  intros Hok Hs Hn1 Hn2 Hst.
  assert (forall w f f', agree f f' -> storable_record (pruned cfg (f' (load_or_new d w).1)) = true ->
            same_store (with_worker cfg st w f) (mutate cfg true d w f')
            /\ default 0 (next_seq (mutate cfg true d w f')) <= n + 1) as Hmut.
  { intros w f f' Ha Hw. destruct (workers st !! w) as [s|] eqn:E.
    - destruct (mutate_known st d w f f' s) as [? ->]; [done..|]. split; [done|lia].
    - destruct (mutate_new st d w f f') as [? ->]; [done..|lia|]. split; [done|]. cbn. lia. }
  destruct op; cbn [store_apply db_apply written] in *.
  - unfold record, db_record. destruct (affects_reputation _); cbn [negb]; [|split; [done|lia]]. by apply Hmut; [apply agree_record|].
  - unfold observe_capability, db_observe_capability. destruct (is_correct _); cbn [negb]; [|split; [done|lia]].
    by apply Hmut; [apply agree_capability|].
  - unfold observe_perf, db_observe_perf. destruct (is_correct _); cbn [negb]; [|split; [done|lia]].
    by apply Hmut; [apply agree_perf|].
  - apply Hmut; [|done]. apply agree_floats; intros; done.
  - apply Hmut; [|done]. apply agree_floats; intros; done.
  - unfold record_requester, db_record_requester. destruct (match requesters st !! q with Some _ => _ | None => _ end).
    split; [done|lia].
Qed.

Lemma storable_run_app d ops op :
  storable_run cfg d (ops ++ [op]) = true ->
  storable_run cfg d ops = true /\ from_option storable_record true (written cfg (foldl (db_apply cfg) d ops) op) = true.
Proof using Type.
  revert d. induction ops as [|o ops IH]; intros d; cbn [app storable_run foldl]; intros [H1 H2]%andb_true_iff; [done|].
  apply IH in H2 as [H2 H3]. by rewrite H1, H2.
Qed.

Lemma reachable_same ops :
  Z.of_nat (length ops) < 2 ^ 64 - 1 -> storable_run cfg db_empty ops = true ->
  same_store (foldl (store_apply cfg) store_new ops) (foldl (db_apply cfg) db_empty ops)
  /\ default 0 (next_seq (foldl (db_apply cfg) db_empty ops)) <= Z.of_nat (length ops).
Proof using Hobs Hmax.
  induction ops as [|op ops IH] using rev_ind; intros Hl Hst.
  - destruct view_empty as (E1 & E2 & E3). cbn [foldl]. unfold same_store. rewrite E1, E2, E3. split; [|done]. split; [intros k; constructor|].
    split; [done|]. exists []. repeat split; constructor.
  - rewrite length_app in *. cbn [length] in *. apply storable_run_app in Hst as [Hst Hop]. destruct IH as [IH1 IH2]; [lia|done|]. rewrite !foldl_app.
    destruct (db_apply_sim _ _ op (Z.of_nat (length ops)) (store_reachable_ok cfg Hobs Hmax ops) IH1 IH2) as [H1 H2]; [lia|done|].
    split; [done|]. cbn [foldl]. lia.
Qed.
End simulation.

(** C9: the persistent trust store refines the in-memory one: after the same receipts,
    measurements, vouches and penalties (each transaction committing, fewer than 2^64 of
    them) it gives the same reputation, observation counts, proven capability and number
    of tracked workers for every worker, so evictions and replay filtering happen at the
    same points and a restart forgets nothing.  This holds for the runs in which every
    number written is one JSON can hold, within 2^1000 of zero and so neither infinite
    nor NaN: serde_json writes other numbers as null, and the record that holds one is
    replaced by an empty one when it is next read. *)
Theorem redb_refines_memory {C : Crypto} {L : Libm} {R : Redb} {RL : RedbLaws R}
    (half_life : Z) (cache capacity : nat) (ops : list store_op) :
  let cfg := store_config half_life cache capacity in
  let st := foldl (store_apply cfg) store_new ops in
  let d := foldl (db_apply cfg) db_empty ops in
  Z.of_nat (length ops) < 2 ^ 64 - 1 -> storable_run cfg db_empty ops = true ->
  (forall w now, db_reputation cfg d w now = reputation cfg st w now)
  /\ (forall w, db_observation_count d w = observation_count st w)
  /\ (forall w, db_proven_capability d w = proven_capability st w)
  /\ db_tracked_workers d = tracked_workers st.
Proof.
  intros cfg st d Hl Hst. destruct (reachable_same cfg) with (ops := ops) as [[Hw _] _]; [cbn; lia|cbn; lia|done|done|].
  fold st d in Hw. split; [|split; [|split]].
  - intros w now. unfold db_reputation, reputation. rewrite w_get_view. destruct (Hw w) as [s p (H1 & _)|]; [|done]. cbn. by rewrite H1.
  - intros w. unfold db_observation_count, observation_count. rewrite w_get_view. destruct (Hw w) as [s p (H1 & _)|]; [|done].
    cbn. by rewrite H1.
  - intros w. unfold db_proven_capability, proven_capability. rewrite w_get_view. destruct (Hw w) as [s p (_ & _ & H3 & _)|]; [|done].
    cbn. by rewrite H3.
  - unfold db_tracked_workers, tracked_workers. rewrite w_len_view, <- !(size_dom (D := gset bytes)). f_equal. by apply same_dom.
Qed.

(** A database of plain maps, whose codec refuses a record with a number JSON cannot
    hold, satisfies the laws. *)
Record map_db := mkMapDb { md_w : gmap bytes PersistWorker; md_o : gmap Z bytes; md_next : option Z }.

Definition min_entry (m : gmap Z bytes) : option (Z * bytes) :=
  foldr (fun e acc => match acc with Some b => Some (if e.1 <=? b.1 then e else b) | None => Some e end) None (map_to_list m).

#[export] Instance map_redb : Redb := {|
  DB := map_db;
  db_empty := mkMapDb ∅ ∅ None;
  w_get d k := md_w d !! k;
  w_insert d k v := mkMapDb (<[k := v]> (md_w d)) (md_o d) (md_next d);
  w_remove d k := mkMapDb (delete k (md_w d)) (md_o d) (md_next d);
  w_len d := size (md_w d);
  o_insert d s k := mkMapDb (md_w d) (<[s := k]> (md_o d)) (md_next d);
  o_remove d s := mkMapDb (md_w d) (delete s (md_o d)) (md_next d);
  o_first d := min_entry (md_o d);
  next_seq := md_next;
  set_next_seq d n := mkMapDb (md_w d) (md_o d) (Some n);
  reads_back s := if storable_record s then Some s else None;
|}.

Lemma min_entry_spec (l : list (Z * bytes)) :
  match foldr (fun e acc => match acc with Some b => Some (if e.1 <=? b.1 then e else b) | None => Some e end) None l with
  | Some b => b ∈ l /\ forall e, e ∈ l -> b.1 <= e.1
  | None => l = []
  end.
Proof.
  induction l as [|e l IH]; [done|]. cbn [foldr]. destruct (foldr _ None l) as [b|].
  - destruct IH as [Hb Hm]. destruct (Z.leb_spec e.1 b.1) as [H|H].
    + split; [by left|]. intros x [->|Hx]%elem_of_cons; [lia|]. specialize (Hm x Hx). lia.
    + split; [by right|]. intros x [->|Hx]%elem_of_cons; [lia|]. by apply Hm.
  - subst l. split; [by left|]. intros x ->%list_elem_of_singleton. lia.
Qed.

#[export] Instance map_redb_laws : RedbLaws map_redb.
Proof.
  refine {| w_view := md_w; o_view := md_o |}; try done; [|by intros s H _; exists s; cbn; rewrite H].
  intros d. cbn [o_first map_redb]. unfold min_entry. pose proof (min_entry_spec (map_to_list (md_o d))) as H.
  destruct (foldr _ None _) as [[s k]|].
  - destruct H as [H1 H2]. split; [by apply elem_of_map_to_list|]. intros s' [k' Hk]. apply (H2 (s', k')). by apply elem_of_map_to_list.
  - by apply map_to_list_empty_iff.
Qed.

Definition ops_example : list store_op :=
  [OpRecord (receipt_of (str "b3:w") (str "j1")); OpCapability (receipt_of (str "b3:w") (str "j1"));
   OpRecord (receipt_of (str "b3:v") (str "j2")); OpRecord (receipt_of (str "b3:w") (str "j1"));
   OpPenalize (str "b3:x") (f64_of_Z 1); OpRecord (receipt_of (str "b3:w") (str "j3"))].

Lemma redb_refines_memory_witness :
  let C := toy_crypto in
  let cfg := store_config 604800 2 2 in
  let d := foldl (db_apply (C := C) cfg) db_empty ops_example in
  db_observation_count d (str "b3:w") = observation_count (foldl (store_apply (C := C) cfg) store_new ops_example) (str "b3:w")
  /\ db_observation_count d (str "b3:v") = 0%nat /\ db_tracked_workers d = 2%nat.
Proof.
  intros C cfg d. split; [|vm_compute; split; reflexivity].
  apply (redb_refines_memory (C := C) 604800 2 2 ops_example); [done|vm_compute; reflexivity].
Defined.

(** An infinite penalty costs the worker its whole history in the database, and its
    penalty with it; the in-memory store keeps both. *)
Example infinite_penalty_loses_history :
  let C := toy_crypto in
  let cfg := store_config 604800 2 2 in
  let ops := [OpRecord (receipt_of (str "b3:w") (str "j1")); OpPenalize (str "b3:w") (fdiv (f64_of_Z 1) (f64_of_Z 0))] in
  let d := foldl (db_apply (C := C) cfg) db_empty ops in
  let st := foldl (store_apply (C := C) cfg) store_new ops in
  storable_run (C := C) cfg db_empty ops = false
  /\ db_observation_count d (str "b3:w") = 0%nat /\ observation_count st (str "b3:w") = 1%nat
  /\ db_penalty d (str "b3:w") = f64_of_Z 0.
Proof. vm_compute. repeat split. Qed.
