(* ===== verification/Liveness.v ===== *)
(** * Liveness (crates/trust/src/failure_detector.rs and crates/node/src/liveness.rs)

    The phi-accrual failure detector, SWIM confirmation of a suspected peer, the view
    the coordinator consults when it picks candidates, and the discovery wrapper that
    filters through it.  Probes are network calls: their answers are parameters. *)

From S2P Require Import Prelude Bytes F64 Crypto Proto Membership.
From Stdlib Require SpecFloat.

(** ** The phi-accrual detector *)

Record PhiAccrualConfig := mkPhiConfig {
  phi_enabled : bool;
  convict_threshold : f64;
  window_size : nat;
  min_std_ms : f64;
  acceptable_pause_ms : f64;
  first_interval_ms : f64;
}.

(** [f64::MIN_POSITIVE] *)
Definition MIN_POSITIVE : f64 := SpecFloat.S754_finite false 4503599627370496 (-1074).

Record PhiDetector := mkPhi {
  intervals : list f64;
  last_arrival_ms : option Z;
  p_window_size : nat;
  p_min_std_ms : f64;
  p_acceptable_pause_ms : f64;
  p_first_interval_ms : f64;
  p_convict_threshold : f64;
  sum : f64;
  sum_sq : f64;
}.

Definition phi_new (cfg : PhiAccrualConfig) : PhiDetector :=
  mkPhi [] None (Nat.max (window_size cfg) 1) (fmax (min_std_ms cfg) MIN_POSITIVE)
    (fmax (acceptable_pause_ms cfg) (f64_of_Z 0)) (fmax (first_interval_ms cfg) MIN_POSITIVE)
    (fmax (convict_threshold cfg) MIN_POSITIVE) (f64_of_Z 0) (f64_of_Z 0).

(** [while intervals.len() > window_size { pop_front; sum -= old; sum_sq -= old * old }] *)
Fixpoint shrink_window (n : nat) (l : list f64) (s sq : f64) : list f64 * f64 * f64 :=
  match l with
  | [] => ([], s, sq)
  | old :: rest =>
      if (n <? length l)%nat then shrink_window n rest (fsub s old) (fsub sq (fmul old old)) else (l, s, sq)
  end.

Definition push_interval (p : PhiDetector) (i : f64) : PhiDetector :=
  let '(l, s, sq) :=
    shrink_window (p_window_size p) (intervals p ++ [i]) (fadd (sum p) i) (fadd (sum_sq p) (fmul i i)) in
  mkPhi l (last_arrival_ms p) (p_window_size p) (p_min_std_ms p) (p_acceptable_pause_ms p) (p_first_interval_ms p)
    (p_convict_threshold p) s sq.

Definition phi_heartbeat (p : PhiDetector) (now_ms : Z) : PhiDetector :=
  let p :=
    match last_arrival_ms p with
    | Some prev => if prev <=? now_ms then push_interval p (f64_of_Z (now_ms - prev)) else p
    | None => p
    end in
  mkPhi (intervals p) (Some now_ms) (p_window_size p) (p_min_std_ms p) (p_acceptable_pause_ms p) (p_first_interval_ms p)
    (p_convict_threshold p) (sum p) (sum_sq p).

Definition sample_count (p : PhiDetector) : nat := length (intervals p).
Definition has_heartbeat (p : PhiDetector) : bool := bool_decide (is_Some (last_arrival_ms p)).

Definition mean (p : PhiDetector) : f64 :=
  match intervals p with
  | [] => p_first_interval_ms p
  | l => fdiv (sum p) (f64_of_Z (Z.of_nat (length l)))
  end.

Definition std_dev (p : PhiDetector) : f64 :=
  if (length (intervals p) <? 2)%nat then p_min_std_ms p
  else
    let n := f64_of_Z (Z.of_nat (length (intervals p))) in
    let mean := fdiv (sum p) n in
    let var := fmax (fsub (fdiv (sum_sq p) n) (fmul mean mean)) (f64_of_Z 0) in
    fmax (fsqrt var) (p_min_std_ms p).

Section phi.
Context {L : Libm}.

Definition normal_cdf (x mean std : f64) : f64 :=
  let z := fdiv (fsub x mean) (fmax std MIN_POSITIVE) in
  fdiv (f64_of_Z 1) (fadd (f64_of_Z 1) (fexp (fmul (fneg (lit 1702 1000)) z))).

Definition phi (p : PhiDetector) (now_ms : Z) : f64 :=
  match last_arrival_ms p with
  | None => f64_of_Z 0
  | Some last =>
      let elapsed := f64_of_Z (sat_sub now_ms last) in
      let mean := fadd (mean p) (p_acceptable_pause_ms p) in
      let std := std_dev p in
      let p_later := fsub (f64_of_Z 1) (normal_cdf elapsed mean std) in
      let q := fclamp p_later (lit 1 1000000000000) (f64_of_Z 1) in
      fneg (flog10 q)
  end.

Definition is_available (p : PhiDetector) (now_ms : Z) : bool := flt (phi p now_ms) (p_convict_threshold p).
End phi.

(** ** SWIM confirmation *)

Record SwimConfig := mkSwim {
  swim_enabled : bool;
  indirect_probe_count : nat;
}.

Inductive SwimVerdict := SwimAlive | SwimDead.
#[global] Instance SwimVerdict_eq_dec : EqDecision SwimVerdict.
Proof. solve_decision. Defined.

(** [probe] and [probe_via relay] are true when the answer came in time and was
    "alive"; [shuffle] is the random order of the relays. *)
Definition swim_confirm (shuffle : list NodeId -> list NodeId) (probe : NodeId -> bool)
    (probe_via : NodeId -> NodeId -> bool) (target : NodeId) (relays : list NodeId) (cfg : SwimConfig) : SwimVerdict :=
  if probe target then SwimAlive
  else if negb (swim_enabled cfg) || (indirect_probe_count cfg =? 0)%nat then SwimDead
  else
    let pool := take (indirect_probe_count cfg) (shuffle (List.filter (fun r => negb (bool_decide (r = target))) relays)) in
    match pool with
    | [] => SwimDead
    | _ => if existsb (fun relay => probe_via relay target) pool then SwimAlive else SwimDead
    end.

(** ** The view *)

Record LivenessConfig := mkLiveness { lv_phi : PhiAccrualConfig; lv_swim : SwimConfig }.

Inductive Forced := ForcedNone | ForcedAlive | ForcedDead.
Record PeerLiveness := mkPeer { pl_phi : PhiDetector; forced : Forced }.
Record LivenessView := mkView { lv_cfg : LivenessConfig; peers : gmap NodeId PeerLiveness }.

Definition view_new (cfg : LivenessConfig) : LivenessView := mkView cfg ∅.
Definition peer_new (v : LivenessView) : PeerLiveness := mkPeer (phi_new (lv_phi (lv_cfg v))) ForcedNone.

Definition heartbeat (v : LivenessView) (node : NodeId) (now_ms : Z) : LivenessView :=
  let e := default (peer_new v) (peers v !! node) in
  mkView (lv_cfg v) (<[node := mkPeer (phi_heartbeat (pl_phi e) now_ms) ForcedNone]> (peers v)).

Definition apply_swim (v : LivenessView) (node : NodeId) (verdict : SwimVerdict) : LivenessView :=
  let e := default (peer_new v) (peers v !! node) in
  mkView (lv_cfg v)
    (<[node := mkPeer (pl_phi e) (match verdict with SwimAlive => ForcedAlive | SwimDead => ForcedDead end)]> (peers v)).

Section view.
Context {L : Libm}.

Definition view_phi (v : LivenessView) (node : NodeId) (now_ms : Z) : f64 :=
  if negb (phi_enabled (lv_phi (lv_cfg v))) then f64_of_Z 0
  else default (f64_of_Z 0) ((fun p => phi (pl_phi p) now_ms) <$> peers v !! node).

Definition is_suspect (v : LivenessView) (node : NodeId) (now_ms : Z) : bool :=
  if negb (phi_enabled (lv_phi (lv_cfg v))) then false
  else match peers v !! node with
       | Some p => has_heartbeat (pl_phi p) && negb (is_available (pl_phi p) now_ms)
       | None => false
       end.

Definition is_excluded (v : LivenessView) (node : NodeId) (now_ms : Z) : bool :=
  match peers v !! node with
  | Some p =>
      match forced p with
      | ForcedDead => true
      | ForcedAlive => false
      | ForcedNone => has_heartbeat (pl_phi p) && negb (is_available (pl_phi p) now_ms)
      end
  | None => false
  end.

(** [swim] is the verdict of [swim_confirm] for this node. *)
Definition confirm_with_swim (v : LivenessView) (node : NodeId) (swim : SwimVerdict) (now_ms : Z) : bool * LivenessView :=
  if negb (swim_enabled (lv_swim (lv_cfg v))) || negb (is_suspect v node now_ms)
  then (negb (is_excluded v node now_ms), v)
  else (bool_decide (swim = SwimAlive), apply_swim v node swim).

(** [LivenessFilteredDiscovery::find_candidates] over the answer of the inner discovery. *)
Definition liveness_find_candidates {A : Type} (inner : Z -> CandidateFilter -> list (@Candidate A)) (v : LivenessView)
    (want : Z) (f : CandidateFilter) (now_ms : Z) : list (@Candidate A) :=
  let raw := inner (Z.max (sat_mul 64 want 2) want) f in
  take (Z.to_nat want)
    (List.filter (fun c => match c_node_id c with Some id => negb (is_excluded v id now_ms) | None => true end) raw).
End view.

(** ** What the view says about a history *)

Inductive liveness_event := EvHeartbeat (t : Z) | EvSwim (verdict : SwimVerdict).

Definition live_apply (v : LivenessView) (e : NodeId * liveness_event) : LivenessView :=
  match e.2 with EvHeartbeat t => heartbeat v e.1 t | EvSwim w => apply_swim v e.1 w end.

(** One peer's events, in order, and the detector its heartbeats feed. *)
Definition of_node (node : NodeId) (evs : list (NodeId * liveness_event)) : list liveness_event :=
  (List.filter (fun e => bool_decide (e.1 = node)) evs).*2.
Definition detector (cfg : PhiAccrualConfig) (evs : list liveness_event) : PhiDetector :=
  foldl (fun p e => match e with EvHeartbeat t => phi_heartbeat p t | EvSwim _ => p end) (phi_new cfg) evs.
Definition forced_by (evs : list liveness_event) : Forced :=
  match last evs with
  | Some (EvSwim SwimAlive) => ForcedAlive
  | Some (EvSwim SwimDead) => ForcedDead
  | _ => ForcedNone
  end.

Lemma of_node_snoc node evs e :
  of_node node (evs ++ [e]) = of_node node evs ++ (if bool_decide (e.1 = node) then [e.2] else []).
Proof. unfold of_node. rewrite List.filter_app, fmap_app. cbn [List.filter]. by destruct (bool_decide _). Qed.

Lemma live_apply_cfg v e : lv_cfg (live_apply v e) = lv_cfg v.
Proof. unfold live_apply. by destruct e as [n []]. Qed.

Lemma live_fold_cfg cfg evs : lv_cfg (foldl live_apply (view_new cfg) evs) = cfg.
Proof.
  induction evs as [|e evs IH] using rev_ind; [done|]. rewrite foldl_app. cbn [foldl]. by rewrite live_apply_cfg.
Qed.

(** The view keeps, per peer, exactly the state its own events determine. *)
Lemma view_spec cfg evs node :
  peers (foldl live_apply (view_new cfg) evs) !! node =
  match of_node node evs with
  | [] => None
  | l => Some (mkPeer (detector (lv_phi cfg) l) (forced_by l))
  end.
Proof.
  induction evs as [|[n e] evs IH] using rev_ind; [done|]. rewrite foldl_app, of_node_snoc. cbn [foldl fst snd].
  set (v := foldl live_apply (view_new cfg) evs) in *.
  assert (pl_phi (default (peer_new v) (peers v !! node)) = detector (lv_phi cfg) (of_node node evs)) as Hd.
  { rewrite IH. destruct (of_node node evs); [|done]. cbn. unfold v. by rewrite live_fold_cfg. }
  assert (forall l x, (match l ++ [x] with [] => None | k => Some (mkPeer (detector (lv_phi cfg) k) (forced_by k)) end)
            = Some (mkPeer (detector (lv_phi cfg) (l ++ [x])) (forced_by (l ++ [x])))) as Hne by (intros [|? ?]; done).
  destruct (bool_decide_reflect (n = node)) as [->|Hn].
  - rewrite Hne. unfold detector, forced_by. rewrite foldl_app, last_snoc. fold (detector (lv_phi cfg) (of_node node evs)).
    unfold live_apply. cbn [fst snd foldl]. destruct e as [t|w]; cbn [heartbeat apply_swim peers]; rewrite lookup_insert_eq, Hd; [done|].
    by destruct w.
  - rewrite app_nil_r. transitivity (peers v !! node); [|exact IH]. unfold live_apply. cbn [fst snd]. destruct e; cbn [heartbeat apply_swim peers]; by rewrite lookup_insert_ne.
Qed.

Lemma has_heartbeat_mono cfg evs t :
  has_heartbeat (foldl (fun p e => match e with EvHeartbeat t => phi_heartbeat p t | EvSwim _ => p end) (phi_new cfg) (evs ++ [EvHeartbeat t])) = true.
Proof. rewrite foldl_app. done. Qed.

(** What the coordinator may still select after any history of heartbeats and SWIM
    verdicts: a peer never heard of is never excluded; after a SWIM verdict the verdict
    decides; after a heartbeat the phi detector fed with exactly that peer's heartbeats
    decides, so a fresh heartbeat always overrides an earlier death sentence, and no
    peer's events affect another's.  The filtered discovery returns the first [want]
    non-excluded candidates of the inner one, in order, and never an excluded one. *)
Theorem liveness_exclusion {L : Libm} {A : Type} (cfg : LivenessConfig) (evs : list (NodeId * liveness_event)) (now : Z) :
  let v := foldl live_apply (view_new cfg) evs in
  (forall node, is_excluded v node now =
     match last (of_node node evs) with
     | None => false
     | Some (EvSwim w) => bool_decide (w = SwimDead)
     | Some (EvHeartbeat _) => negb (is_available (detector (lv_phi cfg) (of_node node evs)) now)
     end)
  /\ (forall (inner : Z -> CandidateFilter -> list (@Candidate A)) want f c,
        c ∈ liveness_find_candidates inner v want f now ->
        c ∈ inner (Z.max (sat_mul 64 want 2) want) f /\ forall id, c_node_id c = Some id -> is_excluded v id now = false)
  /\ (forall (inner : Z -> CandidateFilter -> list (@Candidate A)) want f,
        liveness_find_candidates inner v want f now `prefix_of`
          List.filter (fun c => match c_node_id c with Some id => negb (is_excluded v id now) | None => true end)
            (inner (Z.max (sat_mul 64 want 2) want) f)
        /\ Z.of_nat (length (liveness_find_candidates inner v want f now)) <= Z.max want 0).
Proof.
  intros v. split; [|split].
  - intros node. unfold is_excluded, v. rewrite view_spec. destruct (of_node node evs) as [|e0 l] eqn:E; [done|].
    rewrite <- E in *. assert (exists l0 x, of_node node evs = l0 ++ [x]) as (l0 & x & Hx).
    { destruct (exists_last (l := of_node node evs)) as (l0 & x & Hx); [by rewrite E|by exists l0, x]. }
    unfold forced_by. rewrite Hx, last_snoc. cbn [forced pl_phi]. destruct x as [t|[]]; try done.
    unfold detector. by rewrite has_heartbeat_mono.
  - intros inner want f c Hc. unfold liveness_find_candidates in Hc.
    apply elem_of_take in Hc as (i & Hi & _). apply list_elem_of_lookup_2, list_elem_of_In, filter_In in Hi as [Hin Hf].
    split; [by apply list_elem_of_In|]. intros id Hid. rewrite Hid in Hf. by apply negb_true_iff in Hf.
  - intros inner want f. unfold liveness_find_candidates. split; [apply prefix_take|]. rewrite length_take. lia.
Qed.

(** Turning the detector off silences [phi] and [is_suspect] but not the exclusion the
    coordinator asks for. *)
Definition with_phi_enabled (b : bool) (v : LivenessView) : LivenessView :=
  let p := lv_phi (lv_cfg v) in
  mkView (mkLiveness (mkPhiConfig b (convict_threshold p) (window_size p) (min_std_ms p) (acceptable_pause_ms p)
                        (first_interval_ms p)) (lv_swim (lv_cfg v))) (peers v).

Lemma phi_switch_ignored {L : Libm} v node now :
  is_excluded (with_phi_enabled false v) node now = is_excluded v node now
  /\ is_suspect (with_phi_enabled false v) node now = false.
Proof. done. Qed.

(** SWIM keeps a peer exactly when it answers directly or one of the asked relays reaches it. *)
Lemma swim_alive_iff shuffle probe probe_via target relays cfg :
  swim_confirm shuffle probe probe_via target relays cfg = SwimAlive <->
  probe target = true
  \/ swim_enabled cfg = true /\ exists r,
       r ∈ take (indirect_probe_count cfg) (shuffle (List.filter (fun r => negb (bool_decide (r = target))) relays))
       /\ probe_via r target = true.
Proof.
  unfold swim_confirm. destruct (probe target); [tauto|]. destruct (swim_enabled cfg); cbn [negb orb]; [|naive_solver].
  destruct (Nat.eqb_spec (indirect_probe_count cfg) 0) as [->|_].
  { rewrite take_0. split; [done|]. intros [|(_ & r & Hr & _)]; [done|]. by apply not_elem_of_nil in Hr. }
  set (pool := take _ _). transitivity (existsb (fun relay => probe_via relay target) pool = true).
  - destruct pool; [done|]. by destruct (existsb _ _).
  - rewrite existsb_exists. setoid_rewrite <- list_elem_of_In. naive_solver.
Qed.
