(* ===== verification/Attest.v ===== *)
(** * Attestation (crates/trust/src/attestation.rs and
      [Coordinator::verified_attestation_level])

    Evidence an attestation authority signs, its verification against an allow-list, and
    the level the coordinator believes a bid has.  The JSON codec of the evidence is
    third-party: [EvidenceJson] states that it reads back what it wrote. *)

From S2P Require Import Prelude Bytes Crypto Text Proto.

Definition ATTEST_DOMAIN : bytes := str "duckdb-p2p-attestation-v2".

Inductive AttestError :=
| LevelTooLow (got required : AttestationLevel)
| MeasurementNotAllowed | NonceMismatch | BoundKeyMismatch | UntrustedAuthority | BadEvidence.

Record MockEvidence := mkEvidence {
  measurement : bytes;
  nonce_hex : bytes;
  bound_pub_hex : bytes;
  authority_pub_hex : bytes;
  sig_hex : bytes;
}.

Class EvidenceJson := {
  json_evidence : MockEvidence -> bytes;
  parse_evidence : bytes -> option MockEvidence;
}.
Class EvidenceJsonLaws (J : EvidenceJson) : Prop :=
  parse_json e : parse_evidence (json_evidence e) = Some e.

Definition evidence_signing_bytes (level : AttestationLevel) (measurement nonce bound_pub : bytes) : bytes :=
  ATTEST_DOMAIN ++ le_bytes 1 (level_code level) ++ field measurement ++ field nonce ++ bound_pub.

Definition decode32 (s : bytes) : option bytes := hex_array 32 s.

Record AllowlistVerifier := mkVerifier {
  trusted_authority : bytes;
  allowed_measurements : gset bytes;
  required_level : AttestationLevel;
}.

Section attestation.
Context {C : Crypto} {J : EvidenceJson}.

(** [MockAttestor::produce] *)
Definition produce (authority : seckey) (m : bytes) (level : AttestationLevel) (nonce bound_pub : bytes) : Attestation :=
  let sig := ed_sign authority (evidence_signing_bytes level m nonce bound_pub) in
  mkAttestation level
    (json_evidence (mkEvidence m (hex_encode nonce) (hex_encode bound_pub) (hex_encode (ed_public authority)) (hex_encode sig)))
    (Some m).

Definition verify_attestation (v : AllowlistVerifier) (att : Attestation) (nonce bound_pub : bytes) : result unit AttestError :=
  if negb (level_le (required_level v) (att_level att)) then Err (LevelTooLow (att_level att) (required_level v))
  else
    (ev <-? ok_or (parse_evidence (att_evidence att)) BadEvidence ;;
     guard bool_decide (measurement ev ∈ allowed_measurements v) else MeasurementNotAllowed ;;
     guard bool_decide (nonce_hex ev = hex_encode nonce) else NonceMismatch ;;
     guard bool_decide (bound_pub_hex ev = hex_encode bound_pub) else BoundKeyMismatch ;;
     authority_pub <-? ok_or (decode32 (authority_pub_hex ev)) BadEvidence ;;
     guard bool_decide (authority_pub = trusted_authority v) else UntrustedAuthority ;;
     guard vk_from_bytes authority_pub else BadEvidence ;;
     sig_bytes <-? ok_or (hex_decode (sig_hex ev)) BadEvidence ;;
     guard (length sig_bytes =? 64)%nat else BadEvidence ;;
     guard verify_strict authority_pub (evidence_signing_bytes (att_level att) (measurement ev) nonce bound_pub) sig_bytes
       else BadEvidence ;;
     Ok tt)%D.

Definition attestation_bound_pub (att : Attestation) : option bytes :=
  ev ← parse_evidence (att_evidence att); decode32 (bound_pub_hex ev).

(** [Coordinator::verified_attestation_level] *)
Definition verified_attestation_level (verifier : option AllowlistVerifier) (att : Attestation) (nonce : bytes) : AttestationLevel :=
  if level_le (att_level att) L0 then att_level att
  else match verifier with
       | Some v =>
           let bound := default (le_bytes 32 0) (attestation_bound_pub att) in
           match verify_attestation v att nonce bound with Ok _ => att_level att | Err _ => L0 end
       | None => L0
       end.

Lemma evidence_bytes_inj l m n b l' m' n' b' :
  fits m -> fits n -> fits m' -> fits n' ->
  evidence_signing_bytes l m n b = evidence_signing_bytes l' m' n' b' -> l = l' /\ m = m' /\ n = n' /\ b = b'.
Proof using Type.
  intros Hm Hn Hm' Hn' H. unfold evidence_signing_bytes in H. apply app_inv_head in H.
  peel_le 1%nat H by (destruct l, l'; cbn; lia). peel_field H by done. peel_field H by done.
  split; [by destruct l, l'|done].
Qed.

Lemma verify_attestation_ok v att nonce bound :
  verify_attestation v att nonce bound = Ok tt ->
  level_le (required_level v) (att_level att) = true
  /\ exists ev sig, parse_evidence (att_evidence att) = Some ev /\ measurement ev ∈ allowed_measurements v
     /\ nonce_hex ev = hex_encode nonce
     /\ verify_strict (trusted_authority v) (evidence_signing_bytes (att_level att) (measurement ev) nonce bound) sig = true.
Proof using Type.
  unfold verify_attestation. destruct (level_le _ _); cbn [negb]; [|done]. intros H. split; [done|].
  apply res_bind_ok in H as (ev & Hev%ok_or_ok & H).
  destruct (bool_decide_reflect (measurement ev ∈ allowed_measurements v)) as [Hm|]; [|done].
  destruct (bool_decide_reflect (nonce_hex ev = hex_encode nonce)) as [Hn|]; [|done].
  destruct (bool_decide _); [|done]. apply res_bind_ok in H as (pk & _ & H).
  destruct (bool_decide_reflect (pk = trusted_authority v)) as [Hpk|]; [|done]. destruct (vk_from_bytes _); [|done].
  apply res_bind_ok in H as (sig & _ & H). destruct (length sig =? 64)%nat; [|done].
  destruct (verify_strict _ _ _) eqn:E; [|done]. exists ev, sig. by rewrite <- Hpk.
Qed.
End attestation.

(** Evidence the attestor produces verifies for the same nonce and bound key. *)
Lemma produced_verifies {C : Crypto} {CL : CryptoLaws C} {J : EvidenceJson} {JL : EvidenceJsonLaws J} k m level nonce bound allowed required :
  m ∈ allowed -> level_le required level = true ->
  verify_attestation (mkVerifier (ed_public k) allowed required) (produce k m level nonce bound) nonce bound = Ok tt.
Proof.
  intros Hm Hl. unfold verify_attestation, produce. cbn [att_level att_evidence required_level]. rewrite Hl, parse_json.
  cbn [negb ok_or res_bind measurement nonce_hex bound_pub_hex authority_pub_hex sig_hex allowed_measurements trusted_authority].
  unfold decode32. rewrite !bool_decide_true by done. rewrite hex_public. cbn [ok_or res_bind]. rewrite bool_decide_true, vk_public by done.
  rewrite hex_decode_encode. cbn [ok_or res_bind]. rewrite ed_sign_len. cbn [Nat.eqb]. by rewrite verify_sign.
Qed.

(** A bid is believed to run at a level above L0 exactly when its claim is backed: a
    verifier is configured, the claimed level meets its floor, and the trusted authority
    signed this very level together with an allow-listed measurement and the nonce of
    this offer; in every other case the bid counts as L0.  One signature covers a single
    level, measurement, nonce and bound key, so evidence for L1 never serves for L2 and
    an old nonce never serves again.  Evidence the attestor produces for the offer's
    nonce is accepted. *)
Theorem attestation_level_verified {C : Crypto} {CL : CryptoLaws C} {J : EvidenceJson} {JL : EvidenceJsonLaws J} :
  (forall vf att nonce, verified_attestation_level vf att nonce <> L0 ->
     verified_attestation_level vf att nonce = att_level att
     /\ exists v ev bound sig, vf = Some v /\ parse_evidence (att_evidence att) = Some ev
        /\ level_le (required_level v) (att_level att) = true /\ measurement ev ∈ allowed_measurements v
        /\ verify_strict (trusted_authority v)
             (evidence_signing_bytes (att_level att) (measurement ev) nonce bound) sig = true)
  /\ (forall l m n b l' m' n' b', fits m -> fits n -> fits m' -> fits n' ->
        evidence_signing_bytes l m n b = evidence_signing_bytes l' m' n' b' -> l = l' /\ m = m' /\ n = n' /\ b = b')
  /\ (forall k m level nonce bound allowed required, length bound = 32%nat -> m ∈ allowed -> level_le required level = true ->
        verified_attestation_level (Some (mkVerifier (ed_public k) allowed required)) (produce k m level nonce bound) nonce = level).
Proof.
  split; [|split; [apply evidence_bytes_inj|]].
  - intros vf att nonce H. unfold verified_attestation_level in *.
    destruct (level_le (att_level att) L0) eqn:El; [by destruct (att_level att)|].
    destruct vf as [v|]; [|done]. destruct (verify_attestation v att nonce _) as [[]|e] eqn:Ev; [|done]. split; [done|].
    apply verify_attestation_ok in Ev as (Hr & ev & sig & Hp & Hm & _ & Hs). exists v, ev, (default (le_bytes 32 0) (attestation_bound_pub att)), sig. done.
  - intros k m level nonce bound allowed required Hb Hm Hl. unfold verified_attestation_level.
    destruct (level_le (att_level (produce k m level nonce bound)) L0); [done|].
    unfold attestation_bound_pub, produce. cbn [att_evidence]. rewrite parse_json. cbn [mbind option_bind bound_pub_hex].
    unfold decode32. rewrite (hex_array_encode 32 bound Hb). cbn [default from_option id]. fold (produce k m level nonce bound).
    by rewrite produced_verifies.
Qed.

(** A small self-delimiting text format instantiates the codec. *)
Fixpoint put_text (s : bytes) : bytes :=
  match s with [] => [Byte.x00] | b :: s' => Byte.x01 :: b :: put_text s' end.
Fixpoint get_text (s : bytes) : option (bytes * bytes) :=
  match s with
  | Byte.x00 :: rest => Some ([], rest)
  | Byte.x01 :: b :: rest => '(t, r) ← get_text rest; Some (b :: t, r)
  | _ => None
  end.

Lemma get_put s rest : get_text (put_text s ++ rest) = Some (s, rest).
Proof. induction s as [|b s IH]; [done|]. cbn [put_text app get_text]. by rewrite IH. Qed.

#[export] Instance toy_json : EvidenceJson := {|
  json_evidence e := put_text (measurement e) ++ put_text (nonce_hex e) ++ put_text (bound_pub_hex e)
    ++ put_text (authority_pub_hex e) ++ put_text (sig_hex e);
  parse_evidence s :=
    '(a, s) ← get_text s; '(b, s) ← get_text s; '(c, s) ← get_text s; '(d, s) ← get_text s; '(e, s) ← get_text s;
    match s with [] => Some (mkEvidence a b c d e) | _ => None end;
|}.
#[export] Instance toy_json_laws : EvidenceJsonLaws toy_json.
Proof.
  intros [a b c d e]. cbn [json_evidence parse_evidence toy_json measurement nonce_hex bound_pub_hex authority_pub_hex sig_hex].
  rewrite !get_put. cbn [mbind option_bind]. rewrite !get_put. cbn [mbind option_bind]. rewrite !get_put. cbn [mbind option_bind].
  rewrite !get_put. cbn [mbind option_bind]. by rewrite <- (app_nil_r (put_text e)), get_put.
Qed.

Lemma attestation_level_verified_witness :
  let C := toy_crypto in
  let nonce := le_bytes 8 77 in
  verified_attestation_level (C := C) (Some (mkVerifier (ed_public (Crypto := C) (5 : Z)) {[str "img-1"]} L1))
    (produce (C := C) (5 : Z) (str "img-1") L2 nonce (le_bytes 32 9)) nonce = L2.
Proof.
  intros C nonce. apply (attestation_level_verified (C := C) (J := toy_json)); [done| |done]. set_solver.
Defined.
