(* ===== verification/Dispatch.v ===== *)
(** * One dispatch attempt ([Coordinator::dispatch_attempt], crates/node/src/coordinator.rs)

    From the candidates discovery returns to the outcome of the attempt: the candidate
    gates, the bids and their hard floors, ranking, the escrow preflight, the quorum
    decision with fault attribution, verdicts, receipts, penalties and fines.  What the
    network answers is the record [Net]; what the attempt changes outside itself is the
    list of [Effect]s it returns, in order. *)

From S2P Require Import Prelude Bytes F64 Crypto Text Proto Input Canonical Signing Token Membership.
From S2P Require Import Settlement Escrow Abuse Redispatch Reputation Liveness Attest.

(** ** Capacity gates *)

Definition PROVEN_GATE_MIN_SUCCESSES : Z := 4.

Definition proven_capacity_admits (profile : option CapabilityProfile) (scanned_bytes : Z) : bool :=
  if scanned_bytes =? 0 then true
  else match profile with
       | Some p =>
           if PROVEN_GATE_MIN_SUCCESSES <=? p_successes p
           then scanned_bytes <=? sat_add 64 (p_max_input_bytes p) (p_max_temp_dir_bytes p)
           else true
       | None => true
       end.

Definition advertised_capacity_admits (free_mem_bytes : Z) (profile : option CapabilityProfile)
    (peak_bytes spill_tolerance : Z) : bool :=
  if (peak_bytes =? 0) || (free_mem_bytes =? 0) then true
  else
    let capacity := sat_add 64 free_mem_bytes spill_tolerance in
    let capacity :=
      match profile with
      | Some p => Z.max capacity (sat_add 64 (p_max_peak_memory_bytes p) (p_max_temp_dir_bytes p))
      | None => capacity
      end in
    peak_bytes <=? capacity.

(** ** Bids *)

Inductive BidDecision := BidAccept | BidReject (reason : bytes).

Record Bid := mkBid {
  b_job_id : JobId;
  b_worker_id : NodeId;
  b_decision : BidDecision;
  b_eta_ms : Z;
  b_price : Z;
  b_attestation : Attestation;
  b_recent_receipts : list Receipt;
  b_free_mem_bytes : Z;
  b_free_threads : Z;
  b_region_proof : option bytes;
  b_rate_per_second : Z;
  b_rate_per_gb : Z;
  b_estimated_seconds : Z;
  b_cap_seconds : Z;
}.

(** The price fields [MeteredTerms::from_bid] and [bid_price_signal] read. *)
Definition pricing (b : Bid) : BidPrice :=
  mkBidPrice (b_price b) (b_rate_per_second b) (b_rate_per_gb b) (b_cap_seconds b).

(** ** Configuration and wiring *)

Inductive VerifyMode := Fast | Quorum.

Record RankingEconomics := mkRanking {
  rk_w_quality : f64;
  rk_w_price : f64;
  rk_w_stake : f64;
  rk_w_latency : f64;
  rk_w_throughput : f64;
  stake_reliability_floor : f64;
  capability_weight : f64;
  exploration_rate : f64;
  exploration_saturation : Z;
  newcomer_trust_ceiling : f64;
  newcomer_obs_threshold : Z;
}.

Record GridConfig := mkGrid {
  g_is_private : bool;
  g_require_staked_hosts : bool;
  g_min_stake : Z;                         (* sybil.min_stake, whole TON *)
  g_antiabuse_enabled : bool;
  g_auto_block_enabled : bool;
  g_auto_block_trust_floor : f64;
  g_fault_attribution : bool;              (* fault_attribution.enabled *)
  g_job_consensus_fraction : f64;
  g_nondeterminism : bool;                 (* nondeterminism.enabled *)
  g_requester_trust : bool;                (* requester_trust.enabled *)
  g_age_saturation : Z;
  g_negative_floor_weight : f64;
  g_region_attested : bool;                (* membership.region_trust == Attested *)
  g_region_issuers : list (bytes * bytes);
  g_spill_tolerance_bytes : Z;
  g_replicas : nat;
  g_quorum : nat;
  g_verify_mode : VerifyMode;
  g_min_trust : f64;
  g_bootstrap_trust : f64;
  g_weights : ReputationWeights;
  g_prior_alpha : f64;
  g_prior_beta : f64;
  g_confidence_z : f64;
  g_ranking : RankingEconomics;
  g_quality : QualityEconomics;
  g_pay : PayConfig;
  g_metering_tolerance : f64;
  g_slash_failed_commitment_pct : f64;
  g_incorrect_penalty : f64;               (* base_config.trust.incorrect_penalty *)
}.

Definition fault_attribution_active (g : GridConfig) : bool := g_antiabuse_enabled g && g_fault_attribution g.
Definition nondeterminism_active (g : GridConfig) : bool := g_antiabuse_enabled g && g_nondeterminism g.
Definition requester_trust_active (g : GridConfig) : bool := g_antiabuse_enabled g && g_requester_trust g.

(** What the coordinator is wired with. *)
Record Coordinator {C : Crypto} := mkCoordinator {
  co_identity : Signer;
  co_store_config : StoreConfig;
  co_trust_store : Inner;
  co_blocklist : option Blocklist;
  co_liveness : option LivenessView;
  co_proven_capacity : NodeId -> option CapabilityProfile;
  co_stake_of : option (NodeId -> Amount);          (* stake_registry *)
  co_stake_factor : NodeId -> f64;
  co_bindings : option (list (NodeId * bytes));     (* binding_store: node -> wallet *)
  co_attestation_verifier : option AllowlistVerifier;
  co_canary : option (QueryHash -> option bytes);
  co_parse_token : bytes -> option CapabilityToken; (* serde_json::from_str of a region proof *)
}.
Arguments Coordinator C : clear implicits.

Record RequestScope := mkScope {
  sc_network : option bytes;
  sc_groups : list bytes;
  sc_regions : list bytes;
  sc_group_proof : option bytes;
  sc_nodes : list NodeId;
}.

Record InFlight := mkInFlight {
  i_worker : NodeId;
  i_hash : bytes;
  i_latency_ms : Z;
  i_input_fingerprint : bytes;
}.

(** ** Collecting one worker's answer *)

(** The frames a worker may send after the dispatch, and how its stream can end. *)
Inductive Frame :=
| FProgress (p : Progress)
| FCommit (result_hash : bytes) (latency_ms : Z) (input_fingerprint : bytes)
| FAck (ok : bool) (detail : bytes)
| FOther.

Inductive Collected :=
| Committed (f : InFlight)
| Failed (node : NodeId) (detail : bytes)
| Silent (node : NodeId).

(** [frames] is what arrives before the stall timer, the attempt deadline or a stream
    error ends the read loop. *)
Fixpoint collect_one (worker : NodeId) (frames : list Frame) (g : ProgressTracker) : Collected * ProgressTracker :=
  match frames with
  | [] => (Silent worker, g)
  | FProgress p :: rest => collect_one worker rest (progress_update g p)
  | FCommit h l fp :: _ => (Committed (mkInFlight worker h l fp), g)
  | FAck false detail :: _ => (Failed worker detail, g)
  | FAck true _ :: _ | FOther :: _ => (Silent worker, g)
  end.

Inductive Resolution :=
| NoResolver
| Resolved (snap : option InputSnapshot)
| NotPinnable (reason : bytes)
| Unavailable (reason : bytes).

(** What the network and the clock answer during one attempt. *)
Record Net (Addr : Type) := mkNet {
  n_resolve : Resolution;
  n_candidates : CandidateFilter -> list (@Candidate Addr);
  n_offer : @Candidate Addr -> option (NodeId * Bid);   (* authenticated peer id and its bid, if both came in time *)
  n_frames : nat -> NodeId -> list Frame;               (* the frames of the i-th selected worker *)
  n_transfer : NodeId -> option ResultSet;              (* the winner's result, if it arrived *)
  n_result_bytes : ResultSet -> Z;                      (* length of its serialised form *)
  n_nonce : Z;
  n_now_ts : Z;
  n_now_ms : Z;
}.
Arguments n_resolve {Addr}. Arguments n_candidates {Addr}. Arguments n_offer {Addr}. Arguments n_frames {Addr}.
Arguments n_transfer {Addr}. Arguments n_result_bytes {Addr}. Arguments n_nonce {Addr}. Arguments n_now_ts {Addr}.
Arguments n_now_ms {Addr}.

(** What an attempt does to the rest of the node. *)
Inductive Effect :=
| EBlock (node : NodeId)                     (* blocklist.block: auto-block *)
| EReceipt (r : Receipt)                     (* trust_store.record + observe_capability + observe_perf *)
| EFailureReceipt (r : Receipt)              (* trust_store.record *)
| EPenalize (node : NodeId) (amount : f64)   (* trust_store.penalize *)
| ERequester (verified : bool)               (* trust_store.record_requester *)
| ESettle (winner : NodeId) (others : list NodeId) (agreed fingerprint : bytes) (metered : option MeteredSettle)
| EFine (node : NodeId) (amount : Amount).   (* stake_registry.slash *)

(** ** Helpers *)

(** [iter.min_by_key]: the first of the smallest. *)
Fixpoint min_by_key {A} (key : A -> Z) (l : list A) : option A :=
  match l with
  | [] => None
  | x :: l' => match min_by_key key l' with
               | Some y => Some (if key y <? key x then y else x)
               | None => Some x
               end
  end.

(** [v.swap_remove(i)]: the element and what is left. *)
Definition swap_remove {A} (i : nat) (l : list A) : option (A * list A) :=
  x ← l !! i;
  y ← last l;
  let short := take (length l - 1) l in
  Some (x, if (i =? length l - 1)%nat then short else <[i := y]> short).

Definition clean_prefixes : list bytes :=
  str <$> ["exec error: "; "execution failed: "; "query rejected by lockdown policy: "; "query: "; "prepare: "; "fetch: "]%string.

Fixpoint clean_loop (fuel : nat) (s : bytes) : bytes :=
  match fuel with
  | O => s
  | S fuel' =>
      match List.find (fun p => starts_with p s) clean_prefixes with
      | Some p => clean_loop fuel' (trim_start (drop (length p) s))
      | None => s
      end
  end.
Definition clean_engine_detail (detail : bytes) : bytes := let s := trim detail in clean_loop (S (length s)) s.

Definition consensus_failure_detail (failed : list (NodeId * Verdict * bytes)) : option bytes :=
  let pick := match List.find (fun x => bool_decide (x.1.2 = Infeasible)) failed with
              | Some x => Some x
              | None => head failed
              end in
  x ← pick;
  let cleaned := clean_engine_detail x.2 in
  match cleaned with [] => None | _ => Some cleaned end.

Definition mul_frac (amount : Amount) (frac : f64) : Amount :=
  if fle frac (f64_of_Z 0) then 0 else as_uint 128 (ffloor (fmul (f64_of_Z amount) frac)).

(** ** Scores *)

Definition normalize_price (price pmin pmax : Z) : f64 :=
  if pmax <=? pmin then f64_of_Z 1
  else fsub (f64_of_Z 1) (fdiv (f64_of_Z (sat_sub price pmin)) (f64_of_Z (pmax - pmin))).

Definition stake_reliability_factor (reliability floor : f64) : f64 :=
  let floor := clamp01 floor in
  let r := clamp01 reliability in
  if fle (f64_of_Z 1) floor then (if fle (f64_of_Z 1) r then f64_of_Z 1 else f64_of_Z 0)
  else clamp01 (fdiv (fsub r floor) (fsub (f64_of_Z 1) floor)).

Definition blend_selection_score (trust lat thr stake reliability price_score : f64) (r : RankingEconomics) : f64 :=
  let gated_stake := fmul stake (stake_reliability_factor reliability (stake_reliability_floor r)) in
  let wsum := fadd (fadd (fadd (fadd (rk_w_quality r) (rk_w_latency r)) (rk_w_throughput r)) (rk_w_stake r)) (rk_w_price r) in
  if fle wsum (f64_of_Z 0) then trust
  else clamp01 (fdiv (fadd (fadd (fadd (fadd (fmul (rk_w_quality r) trust) (fmul (rk_w_latency r) lat))
                                   (fmul (rk_w_throughput r) thr)) (fmul (rk_w_stake r) gated_stake))
                       (fmul (rk_w_price r) price_score)) wsum).

Section attempt.
Context {C : Crypto} {J : EvidenceJson} {L : Libm} {Addr : Type}.
Context (co : Coordinator C) (cfg : GridConfig) (net : Net Addr).

Definition wallet_siblings (worker : NodeId) : list NodeId :=
  match co_bindings co with
  | None => []
  | Some all =>
      match List.find (fun e => bool_decide (e.1 = worker)) all with
      | None => []
      | Some e => (List.filter (fun x => bool_decide (x.2 = e.2)) all).*1
      end
  end.

Definition confident (id : NodeId) : option f64 :=
  confident_reputation (co_store_config co) (co_trust_store co) id (n_now_ts net)
    (g_prior_alpha cfg) (g_prior_beta cfg) (g_confidence_z cfg).

Definition wallet_reputation (worker : NodeId) : f64 * Z :=
  let obs id := Z.of_nat (observation_count (co_trust_store co) id) in
  let siblings := wallet_siblings worker in
  if (length siblings <=? 1)%nat
  then (default (g_bootstrap_trust cfg) (confident worker), obs worker)
  else
    let '(weighted, total) :=
      foldl (fun '(weighted, total) sib =>
               if obs sib =? 0 then (weighted, total)
               else match confident sib with
                    | Some r => (fadd weighted (fmul r (f64_of_Z (obs sib))), total + obs sib)
                    | None => (weighted, total)
                    end) (f64_of_Z 0, 0) siblings in
    if total =? 0 then (g_bootstrap_trust cfg, 0) else (fdiv weighted (f64_of_Z total), total).

Definition stake_factor_for (worker : NodeId) (paid : bool) : f64 :=
  if paid && economics_enabled (g_pay cfg)
  then match co_stake_of co with Some _ => co_stake_factor co worker | None => f64_of_Z 0 end
  else f64_of_Z 0.

Definition effective_trust (worker : NodeId) (paid : bool) : f64 :=
  let '(reputation, obs) := wallet_reputation worker in
  let inputs := mkTrustInputs reputation (age_factor obs 20)
    (fmin (voucher_trust_of (co_trust_store co) worker) (f64_of_Z 1)) (stake_factor_for worker paid)
    (penalty_of (co_trust_store co) worker) in
  let r := g_ranking cfg in
  let bonus := exploration_bonus obs (exploration_rate r) (exploration_saturation r) in
  let cap_term :=
    if flt (f64_of_Z 0) (capability_weight r)
    then fmul (capability_weight r)
           (capability_confidence (co_trust_store co) worker (g_prior_alpha cfg) (g_prior_beta cfg) (g_confidence_z cfg))
    else f64_of_Z 0 in
  let score := clamp01 (fadd (fadd (soft_trust_score (g_weights cfg) inputs) bonus) cap_term) in
  if flt (newcomer_trust_ceiling r) (f64_of_Z 1) && (obs <? newcomer_obs_threshold r)
  then fmin score (newcomer_trust_ceiling r) else score.

Definition perf_sample (worker : NodeId) : option QualitySample :=
  p ← perf_aggregate (co_trust_store co) worker;
  let ratio := default (f64_of_Z 1) (reputation (co_store_config co) (co_trust_store co) worker (n_now_ts net)) in
  let as_u64 x := as_uint 64 (fmax (fround x) (f64_of_Z 0)) in
  Some (mkQualitySample ratio (as_u64 (ewma_latency_ms p)) (as_u64 (ewma_bytes p)) (f64_of_Z 1) []).

Definition selection_score (worker : NodeId) (trust price_score : f64) (paid : bool) : f64 :=
  let q := g_quality cfg in
  let '(lat, thr) :=
    match perf_sample worker with
    | Some s => (latency_score (qs_latency_ms s) (bytes_verified s) q, throughput_score (qs_latency_ms s) (bytes_verified s) q)
    | None => (lit 1 2, lit 1 2)
    end in
  let stake := stake_factor_for worker paid in
  let reliability := if flt (f64_of_Z 0) stake then (wallet_reputation worker).1 else f64_of_Z 0 in
  blend_selection_score trust lat thr stake reliability price_score (g_ranking cfg).

(** ** Candidate gates *)

Definition candidate_filter (min_level : AttestationLevel) (data_class : DataClass) (sc : RequestScope) : CandidateFilter :=
  mkFilter data_class min_level (sc_network sc) (sc_groups sc) (sc_regions sc) (g_is_private cfg) (sc_nodes sc).

(** The closure of [candidates.retain]. *)
Definition retain_candidate (f : CandidateFilter) (excluded : gset NodeId) (estimated_input_bytes : option Z)
    (c : @Candidate Addr) : bool :=
  if negb (admits_labels f c) then false
  else
    let gates_on := g_require_staked_hosts cfg || (0 <? g_min_stake cfg) in
    if gates_on && negb (is_verified (c_id_provenance c)) then false
    else match c_node_id c with
         | Some id =>
             let blocked := g_antiabuse_enabled cfg
               && match co_blocklist co with Some bl => is_blocked bl id | None => false end in
             if blocked then false
             else if bool_decide (id ∈ excluded) then false
             else
               let scanned := default 0 estimated_input_bytes in
               if (0 <? scanned) && negb (proven_capacity_admits (co_proven_capacity co id) scanned) then false
               else if match co_liveness co with Some v => is_excluded v id (n_now_ms net) | None => false end then false
               else if g_require_staked_hosts cfg
                       && negb (match co_stake_of co with Some stake => 0 <? stake id | None => false end) then false
               else if (0 <? g_min_stake cfg)
                       && (match co_stake_of co with Some stake => stake id | None => 0 end <? g_min_stake cfg * 1000000000)
               then false
               else true
         | None => negb (g_require_staked_hosts cfg) && (g_min_stake cfg =? 0)
         end.

(** ** Bids and their floors *)

Definition accepted_bids (cands : list (@Candidate Addr)) : list (NodeId * Bid) :=
  omap (fun c => match n_offer net c with
                 | Some (w, b) => match b_decision b with BidAccept => Some (w, b) | BidReject _ => None end
                 | None => None
                 end) cands.

(** [region_proof_ok] *)
Definition region_proof_ok (worker : NodeId) (b : Bid) (regions : list bytes) : bool :=
  match b_region_proof b with
  | None => false
  | Some proof =>
      match co_parse_token co proof with
      | None => false
      | Some token =>
          existsb (fun region =>
            match List.find (fun e => bool_decide (e.1 = region)) (g_region_issuers cfg) with
            | None => false
            | Some e =>
                match hex_array 32 e.2 with
                | None => false
                | Some issuer =>
                    match verify_region_attestation token issuer region (n_now_ts net) with
                    | Ok holder => bool_decide (from_pubkey holder = worker)
                    | Err _ => false
                    end
                end
            end) regions
      end
  end.

Definition bid_floor (min_level : AttestationLevel) (sc : RequestScope) (estimated_peak_bytes : option Z)
    (capacity_floor : Z) (x : NodeId * Bid) : bool :=
  let '(worker, b) := x in
  attestation_gate (verified_attestation_level (co_attestation_verifier co) (b_attestation b) (le64 (n_nonce net))) min_level
  && (negb (g_region_attested cfg) || match sc_regions sc with [] => true | _ => false end
      || region_proof_ok worker b (sc_regions sc))
  && (let peak := default 0 estimated_peak_bytes in
      (peak =? 0) || advertised_capacity_admits (b_free_mem_bytes b) (co_proven_capacity co worker) peak (g_spill_tolerance_bytes cfg))
  && ((capacity_floor =? 0) || (b_free_mem_bytes b =? 0) || (capacity_floor <? b_free_mem_bytes b)).

Definition auto_block : bool :=
  g_antiabuse_enabled cfg && g_auto_block_enabled cfg && flt (f64_of_Z 0) (g_auto_block_trust_floor cfg).

(** The trust floor, with its auto-block side effect. *)
Definition trust_floor (paid : bool) (x : NodeId * Bid) : option (NodeId * Bid * f64) * list Effect :=
  let '(worker, b) := x in
  let trust := effective_trust worker paid in
  let blocks := if auto_block && flt trust (g_auto_block_trust_floor cfg)
                then match co_blocklist co with Some _ => [EBlock worker] | None => [] end else [] in
  (if flt trust (g_min_trust cfg) then None else Some (worker, b, trust), blocks).

Definition eligible_bids (min_level : AttestationLevel) (sc : RequestScope) (peak : option Z) (floor : Z) (paid : bool)
    (accepted : list (NodeId * Bid)) : list (NodeId * Bid * f64) * list Effect :=
  let floored := trust_floor paid <$> List.filter (bid_floor min_level sc peak floor) accepted in
  (omap fst floored, mjoin (snd <$> floored)).

(** ** Ranking *)

Definition cap_hint (id : NodeId) : Z :=
  if flt (f64_of_Z 0) (capability_weight (g_ranking cfg))
  then default 0 (p_max_input_bytes <$> co_proven_capacity co id) else 0.

(** The comparator of [scored.sort_by], as "not greater": score down, ETA up, proven size down. *)
Definition rank_leb (a b : NodeId * f64 * Z) : bool :=
  match SpecFloat.SFcompare b.1.2 a.1.2 with
  | Some Lt => true
  | Some Gt => false
  | _ => if a.2 =? b.2 then cap_hint b.1.1 <=? cap_hint a.1.1 else a.2 <? b.2
  end.

Definition price_range (es : list (NodeId * Bid * f64)) : Z * Z :=
  foldl (fun '(lo, hi) e => let p := bid_price_signal (pricing e.1.2) in (Z.min lo p, Z.max hi p)) (umax 64, 0) es.

Definition scored_bids (paid : bool) (es : list (NodeId * Bid * f64)) : list (NodeId * f64 * Z) :=
  let '(pmin, pmax) := price_range es in
  take (g_replicas cfg)
    (isort rank_leb
       ((fun e => let '(worker, b, trust) := e in
                  (worker, selection_score worker trust (normalize_price (bid_price_signal (pricing b)) pmin pmax) paid, b_eta_ms b))
        <$> es)).

(** [HashMap::from_iter]: the last bid of a worker wins. *)
Definition bid_by_node (es : list (NodeId * Bid * f64)) : gmap NodeId Bid :=
  foldl (fun m e => <[e.1.1 := e.1.2]> m) ∅ es.

Definition escrow_preflight (paid : bool) (estimated_input_bytes : option Z) (bids : gmap NodeId Bid)
    (scored : list (NodeId * f64 * Z)) : result unit CoordinatorError :=
  let pay := g_pay cfg in
  if negb (paid && economics_enabled pay && (0 <? cfg_max_bid pay)) then Ok tt
  else
    let nbytes := default 0 estimated_input_bytes in
    let caps := omap (fun s => b ← bids !! s.1.1; t ← from_bid (pricing b); Some (cap_base t nbytes)) scored in
    let worst := foldl Z.max 0 caps in
    if worst <=? 0 then Ok tt
    else
      match ensure_escrow_covers (sat_mul 128 (cfg_max_bid pay) 1000000000) worst (length scored - 1)
              (wrap 16 (to_bps (platform_fee_pct pay))) (wrap 16 (to_bps (participation_commission_frac pay))) with
      | Ok _ => Ok tt
      | Err e => Err (CInsufficientEscrow e)
      end.

(** ** Receipts *)

Record ObservedSize := mkObserved { os_input_bytes : Z; os_result_rows : Z; os_result_bytes : Z }.
Definition unobserved : ObservedSize := mkObserved 0 0 0.

Section job.
Context (sql : bytes) (job_id : JobId) (query_hash : QueryHash) (paid : bool) (estimated_input_bytes : option Z).
(** The fingerprint of the pinned snapshot, and whether the inputs could not be pinned. *)
Context (pin : option bytes) (not_pinnable : bool).

Definition make_receipt (worker : NodeId) (hash : bytes) (v : Verdict) (latency_ms : Z) (o : ObservedSize) (fp : bytes) : Receipt :=
  sign_receipt (mkDraft job_id worker query_hash hash v latency_ms (n_now_ts net)
                  (os_input_bytes o) (os_result_rows o) (os_result_bytes o) fp) (co_identity co).

Definition emit_failure_receipts (inflight : list InFlight) : list Effect :=
  let v := if fault_attribution_active cfg then Inconclusive else Malformed in
  (fun f => EFailureReceipt (make_receipt (i_worker f) (i_hash f) v (i_latency_ms f) unobserved (i_input_fingerprint f))) <$> inflight.

(** ** The decision *)

Record Answers := mkAnswers {
  inflight : list InFlight;
  failed : list (NodeId * Verdict * bytes);
  silent_nodes : list NodeId;
}.

Definition sort_answers (cs : list Collected) : Answers :=
  mkAnswers
    (omap (fun c => match c with Committed f => Some f | _ => None end) cs)
    (omap (fun c => match c with Failed n d => Some (n, classify_failure d, d) | _ => None end) cs)
    (omap (fun c => match c with Silent n => Some n | _ => None end) cs).

Definition canary_expected : option bytes := f ← co_canary co; f query_hash.

Definition non_verifiable : bool :=
  not_pinnable || (nondeterminism_active cfg && negb (bool_decide (is_Some canary_expected)) && is_nondeterministic sql).

Definition tally_answers (n_selected : nat) (a : Answers) : FaultTally :=
  let t := tally_new (Z.of_nat n_selected) in
  let t := foldl (fun t _ => record_committed t) t (inflight a) in
  let t := foldl (fun t x => record_fault t x.1.2) t (failed a) in
  foldl (fun t _ => record_silent t) t (silent_nodes a).

Definition failed_or_silent (a : Answers) : list NodeId := ((fun x => x.1.1) <$> failed a) ++ silent_nodes a.
Definition oomed (a : Answers) : list NodeId :=
  (fun x => x.1.1) <$> List.filter (fun x => bool_decide (x.1.2 = ResourceExceeded)) (failed a).
Definition max_tried_capacity (bids : gmap NodeId Bid) (a : Answers) : Z :=
  foldl Z.max 0 ((fun n => default 0 (b_free_mem_bytes <$> bids !! n)) <$> oomed a).

Definition fastest_hash (fs : list InFlight) : option bytes := i_hash <$> min_by_key i_latency_ms fs.

Definition with_detail (reason : bytes) (a : Answers) : bytes :=
  match consensus_failure_detail (failed a) with Some d => reason ++ str ": " ++ d | None => reason end.

Definition commit_keys (a : Answers) : list CommitKey :=
  (fun f => mkCommitKey (i_input_fingerprint f) (i_hash f)) <$> inflight a.

(** [inl] ends the attempt; [inr] is the agreed hash and whether it is verified. *)
Definition decide_attempt (n_selected : nat) (bids : gmap NodeId Bid) (a : Answers)
  : (AttemptResult * list Effect) + (bytes * bool) :=
  let fp_outcome := evaluate_quorum_on_commits (commit_keys a) pin (g_quorum cfg) in
  if negb (bool_decide (is_Some canary_expected)) && (0 <? drifted fp_outcome)%nat
  then inl (AInputDrift (show_uint (Z.of_nat (drifted fp_outcome)) ++ str " of " ++ show_uint (Z.of_nat (length (inflight a)))
         ++ str " committed provider(s) read a different input snapshot than pinned (source data changed between executions)"),
       emit_failure_receipts (inflight a))
  else
    let outcome := pinned fp_outcome in
    let t := tally_answers n_selected a in
    let frac := g_job_consensus_fraction cfg in
    let inconclusive := inl (AInconclusive (failed_or_silent a), []) in
    match canary_expected with
    | Some expected => inr (expected, true)
    | None =>
        if non_verifiable
        then match fastest_hash (inflight a) with Some h => inr (h, false) | None => inconclusive end
        else match g_verify_mode cfg with
             | Quorum =>
                 if split outcome
                 then inl (AQuorumDisagreement (agreement outcome) (quorum outcome), emit_failure_receipts (inflight a))
                 else match agreed_hash outcome with
                      | Some h => inr (h, true)
                      | None =>
                          if fault_attribution_active cfg && is_consensus_infeasible t frac
                          then inl (AInfeasible (with_detail (default (str "consensus-infeasible query") (consensus_reason t frac)) a),
                                 emit_failure_receipts (inflight a))
                          else if fault_attribution_active cfg && is_consensus_resource_exceeded t frac
                          then inl (AResourceExceeded (oomed a) (max_tried_capacity bids a)
                                      (with_detail (default (str "consensus resource-exceeded query") (resource_exceeded_reason t frac)) a),
                                 emit_failure_receipts (inflight a))
                          else if (g_quorum cfg <=? length (inflight a))%nat
                          then inl (AQuorumDisagreement (agreement outcome) (quorum outcome), emit_failure_receipts (inflight a))
                          else inconclusive
                      end
             | Fast =>
                 match fastest_hash (inflight a) with
                 | Some h => inr (h, reached outcome)
                 | None => inconclusive
                 end
             end
    end.

(** The fastest worker with the agreed hash, by position. *)
Definition winner_index (agreed : bytes) (fs : list InFlight) : option nat :=
  fst <$> min_by_key (fun x : nat * InFlight => i_latency_ms x.2)
            (List.filter (fun x => bool_decide (i_hash x.2 = agreed)) (imap (fun i f => (i, f)) fs)).

(** ** Accounting *)

Definition negative_weight : f64 :=
  if requester_trust_active cfg
  then requester_trust_weight (requester_reputation (co_store_config co) (co_trust_store co) (node_id (co_identity co)) (n_now_ts net))
         (Z.of_nat (requester_observation_count (co_trust_store co) (node_id (co_identity co))))
         (g_age_saturation cfg) (g_negative_floor_weight cfg)
  else f64_of_Z 1.

Definition penalty_effects (node : NodeId) : list Effect :=
  let p := fmax (fmul (g_incorrect_penalty cfg) negative_weight) (f64_of_Z 0) in
  if flt (f64_of_Z 0) p then [EPenalize node p] else [].

Definition commit_verdict (agreed : bytes) (is_winner has_result : bool) (f : InFlight) : Verdict :=
  if non_verifiable then Inconclusive
  else if is_winner && negb has_result then Inconclusive
  else if bool_decide (i_hash f = agreed) then Correct
  else match pin with
       | None => Incorrect
       | Some p => if bool_decide (i_input_fingerprint f = p) then Incorrect else Inconclusive
       end.

(** One provider's part: its receipt, its penalty, and whether it broke its commitment. *)
Record Account := mkAccount { ac_receipt : Receipt; ac_penalty : list Effect; ac_failer : list NodeId }.

Definition account_commit (agreed : bytes) (verified : bool) (is_winner has_result : bool) (o : ObservedSize) (f : InFlight) : Account :=
  let v := commit_verdict agreed is_winner has_result f in
  mkAccount (make_receipt (i_worker f) (i_hash f) v (i_latency_ms f) (if is_winner then o else unobserved) (i_input_fingerprint f))
    (if is_provider_fault v then penalty_effects (i_worker f) else [])
    (if verified && bool_decide (v = Incorrect) then [i_worker f] else []).

Definition account_silent (n : NodeId) : Account :=
  mkAccount (make_receipt n [] Timeout 0 unobserved (default [] pin)) (penalty_effects n) [n].

Definition account_failed (x : NodeId * Verdict * bytes) : Account :=
  let '(n, v, _) := x in
  mkAccount (make_receipt n [] v 0 unobserved (default [] pin))
    (if is_provider_fault v then penalty_effects n else []) (if is_provider_fault v then [n] else []).

Definition fine_failed_commitment (n : NodeId) : list Effect :=
  match co_stake_of co with
  | None => []
  | Some stake_of =>
      if stake_of n =? 0 then []
      else let amount := mul_frac (stake_of n) (g_slash_failed_commitment_pct cfg) in
           if amount =? 0 then [] else [EFine n amount]
  end.

(** From the agreed hash to the end of the attempt. *)
Definition conclude (bids : gmap NodeId Bid) (a : Answers) (agreed : bytes) (verified : bool) (outcome : QuorumOutcome)
  : AttemptResult * list Effect :=
  match winner_index agreed (inflight a) ≫= (fun i => swap_remove i (inflight a)) with
  | None => (AInconclusive (failed_or_silent a), emit_failure_receipts (inflight a))
  | Some (winner, losers) =>
      let result := n_transfer net (i_worker winner) in
      let has_result := bool_decide (is_Some result) in
      let latencies := i_latency_ms winner ::
        (if non_verifiable then [] else i_latency_ms <$> List.filter (fun f => bool_decide (i_hash f = agreed)) losers) in
      let o := mkObserved (default 0 estimated_input_bytes)
                 (default 0 ((fun r => Z.of_nat (length (Proto.rows r))) <$> result)) (default 0 (n_result_bytes net <$> result)) in
      let agreeing := if non_verifiable then [] else i_worker <$> List.filter (fun f => bool_decide (i_hash f = agreed)) losers in
      let accounts :=
        account_commit agreed verified true has_result o winner
        :: (account_commit agreed verified false has_result o <$> losers)
        ++ (if verified then (account_silent <$> silent_nodes a) ++ (account_failed <$> failed a) else []) in
      let effs := mjoin (ac_penalty <$> accounts) ++ ((fun x => EReceipt (ac_receipt x)) <$> accounts) in
      let failers := mjoin (ac_failer <$> accounts) in
      match result with
      | None => (AInconclusive (failed_or_silent a), effs)
      | Some r =>
          let metered :=
            b ← bids !! i_worker winner;
            t ← from_bid (pricing b);
            Some (mkMeteredSettle t (metered_billed_seconds (i_latency_ms winner) latencies (g_metering_tolerance cfg))
                    (default 0 estimated_input_bytes)) in
          let fines := if verified && paid && economics_enabled (g_pay cfg) then mjoin (fine_failed_commitment <$> failers) else [] in
          (ADone (mkQueryOutcome job_id r (Some agreed) (agreement outcome) (quorum outcome) verified (Some (i_worker winner))
                    (i_worker <$> inflight a) (ac_receipt <$> accounts) false),
           effs ++ [ERequester verified; ESettle (i_worker winner) agreeing agreed (default [] pin) metered] ++ fines)
      end
  end.
End job.

(** ** The attempt *)

Definition collect_all (sel : list NodeId) (g : ProgressTracker) : list Collected * ProgressTracker :=
  foldl (fun '(cs, g) '(i, w) => let '(c, g) := collect_one w (n_frames net i w) g in (cs ++ [c], g))
    ([], g) (imap (fun i w => (i, w)) sel).

Definition dispatch_attempt (sql : bytes) (job_id : JobId) (query_hash : QueryHash) (paid : bool) (min_level : AttestationLevel)
    (data_class : DataClass) (sc : RequestScope) (estimated_input_bytes estimated_peak_bytes : option Z)
    (excluded : gset NodeId) (capacity_floor : Z) (g : ProgressTracker)
  : result AttemptResult CoordinatorError * list Effect * ProgressTracker :=
  match n_resolve net with
  | Unavailable why => (Ok (AInfeasible (str "input source unavailable: " ++ why)), [], g)
  | res =>
      let pin := match res with Resolved (Some s) => Some (fingerprint s) | _ => None end in
      let not_pinnable := match res with NotPinnable _ => true | _ => false end in
      let f := candidate_filter min_level data_class sc in
      let candidates := List.filter (retain_candidate f excluded estimated_input_bytes) (n_candidates net f) in
      match candidates with
      | [] => (Ok ANoCandidates, [], g)
      | _ =>
          let '(es, blocks) := eligible_bids min_level sc estimated_peak_bytes capacity_floor paid (accepted_bids candidates) in
          let bids := bid_by_node es in
          let scored := scored_bids paid es in
          if (length scored <? g_quorum cfg)%nat
          then (Ok (AInsufficientWorkers (length scored) (g_quorum cfg)), blocks, g)
          else match escrow_preflight paid estimated_input_bytes bids scored with
               | Err e => (Err e, blocks, g)
               | Ok _ =>
                   let sel := (fun s => s.1.1) <$> scored in
                   let '(cs, g) := collect_all sel g in
                   let a := sort_answers cs in
                   match decide_attempt sql job_id query_hash pin not_pinnable (length sel) bids a with
                   | inl (r, effs) => (Ok r, blocks ++ effs, g)
                   | inr (agreed, verified) =>
                       let outcome := pinned (evaluate_quorum_on_commits (commit_keys a) pin (g_quorum cfg)) in
                       let '(r, effs) := conclude sql job_id query_hash paid estimated_input_bytes pin not_pinnable bids a agreed verified outcome in
                       (Ok r, blocks ++ effs, g)
                   end
               end
      end
  end.
End attempt.

(** ** Facts about the helpers *)

Lemma min_by_key_spec {A} (key : A -> Z) l x :
  min_by_key key l = Some x -> x ∈ l /\ forall y, y ∈ l -> key x <= key y.
Proof.
  revert x. induction l as [|a l IH]; intros x; [done|]. cbn [min_by_key].
  destruct (min_by_key key l) as [y|] eqn:E.
  - destruct (IH y eq_refl) as [Hy Hm]. destruct (Z.ltb_spec (key y) (key a)); intros [= <-].
    + split; [by right|]. intros z [->|Hz]%elem_of_cons; [lia|auto].
    + split; [by left|]. intros z [->|Hz]%elem_of_cons; [lia|]. specialize (Hm z Hz). lia.
  - intros [= <-]. split; [by left|]. destruct l; [|cbn [min_by_key] in E; by destruct (min_by_key key l)].
    intros z ->%list_elem_of_singleton. lia.
Qed.

Lemma min_by_key_some {A} (key : A -> Z) l : l <> [] -> is_Some (min_by_key key l).
Proof. destruct l; [done|]. cbn [min_by_key]. destruct (min_by_key key l); by eexists. Qed.

Lemma elem_of_enumerate {A} (l : list A) i x : (i, x) ∈ imap (fun i f => (i, f)) l <-> l !! i = Some x.
Proof.
  rewrite elem_of_lookup_imap. split.
  - intros (j & y & [= -> ->] & H). done.
  - intros H. by exists i, x.
Qed.

Lemma winner_index_spec agreed fs i :
  winner_index agreed fs = Some i ->
  exists w, fs !! i = Some w /\ i_hash w = agreed /\ forall f, f ∈ fs -> i_hash f = agreed -> i_latency_ms w <= i_latency_ms f.
Proof.
  unfold winner_index. intros H. apply fmap_Some in H as ([j w] & H & ->). apply min_by_key_spec in H as [Hin Hmin].
  apply list_elem_of_In, filter_In in Hin as [Hin Hw]. apply list_elem_of_In, elem_of_enumerate in Hin.
  apply bool_decide_eq_true in Hw. exists w. split; [done|]. split; [done|]. intros f Hf Hh.
  apply list_elem_of_lookup in Hf as [k Hk]. apply (Hmin (k, f)). apply list_elem_of_In, filter_In.
  split; [apply list_elem_of_In; by apply elem_of_enumerate|by apply bool_decide_eq_true].
Qed.

Lemma winner_index_some agreed fs f : f ∈ fs -> i_hash f = agreed -> is_Some (winner_index agreed fs).
Proof.
  intros Hf Hh. unfold winner_index. apply fmap_is_Some, min_by_key_some. intros E.
  apply list_elem_of_lookup in Hf as [k Hk].
  assert ((k, f) ∈ List.filter (fun x : nat * InFlight => bool_decide (i_hash x.2 = agreed)) (imap (fun i f => (i, f)) fs)) as Hin.
  { apply list_elem_of_In, filter_In. split; [apply list_elem_of_In; by apply elem_of_enumerate|by apply bool_decide_eq_true]. }
  rewrite E in Hin. by apply not_elem_of_nil in Hin.
Qed.

Lemma swap_remove_spec {A} (l : list A) i x :
  l !! i = Some x -> exists rest, swap_remove i l = Some (x, rest) /\ x :: rest ≡ₚ l.
Proof.
  intros Hi. unfold swap_remove. rewrite Hi. cbn [mbind option_bind].
  destruct l as [|a0 l0] using rev_ind; [done|]. clear IHl0. rewrite last_snoc. cbn [mbind option_bind]. eexists. split; [reflexivity|].
  rewrite length_app. cbn [length]. replace (length l0 + 1 - 1)%nat with (length l0) by lia.
  rewrite take_app_length. destruct (Nat.eqb_spec i (length l0)) as [->|Hne].
  - rewrite list_lookup_middle in Hi by done. injection Hi as <-. apply Permutation_cons_append.
  - pose proof (lookup_lt_Some _ _ _ Hi) as Hl. rewrite length_app in Hl. cbn [length] in Hl.
    rewrite lookup_app_l in Hi by lia. rewrite <- Permutation_cons_append.
    rewrite <- (take_drop_middle l0 i x Hi) at 2. rewrite insert_take_drop by lia.
    rewrite <- !Permutation_middle. constructor.
Qed.

(** Declining with a reason is never a provider fault. *)
Lemma classify_no_fault d : is_provider_fault (classify_failure d) = false.
Proof. unfold classify_failure. destruct (any_contained _ _); [done|]. by destruct (any_contained _ _). Qed.

Lemma elem_of_omap_committed cs f :
  f ∈ inflight (sort_answers cs) <-> Committed f ∈ cs.
Proof.
  cbn [sort_answers inflight]. rewrite list_elem_of_omap. split; [|by intros; exists (Committed f)].
  intros ([] & Hc & E); try done. by injection E as ->.
Qed.

Lemma elem_of_failed cs x : x ∈ failed (sort_answers cs) -> is_provider_fault x.1.2 = false /\ Failed x.1.1 x.2 ∈ cs.
Proof.
  cbn [sort_answers failed]. rewrite list_elem_of_omap. intros ([] & Hc & E); try done. injection E as <-.
  split; [apply classify_no_fault|done].
Qed.

Lemma elem_of_silent cs n : n ∈ silent_nodes (sort_answers cs) <-> Silent n ∈ cs.
Proof.
  cbn [sort_answers silent_nodes]. rewrite list_elem_of_omap. split; [|by intros; exists (Silent n)].
  intros ([] & Hc & E); try done. by injection E as ->.
Qed.

Definition collected_worker (c : Collected) : NodeId :=
  match c with Committed f => i_worker f | Failed n _ => n | Silent n => n end.

Lemma collect_one_worker w frames g : collected_worker (collect_one w frames g).1 = w.
Proof. revert g. induction frames as [|[p|h l fp|[] d|] frames IH]; intros g; cbn; auto. Qed.

Section facts.
Context {C : Crypto} {J : EvidenceJson} {L : Libm} {Addr : Type}.
Context (co : Coordinator C) (cfg : GridConfig) (net : Net Addr).

Lemma collect_all_workers sel g : collected_worker <$> (collect_all net sel g).1 = sel.
Proof.
  unfold collect_all.
  assert (forall (l : list (nat * NodeId)) cs g,
    collected_worker <$> (foldl (fun '(cs, g) '(i, w) => let '(c, g) := collect_one w (n_frames net i w) g in (cs ++ [c], g)) (cs, g) l).1
    = (collected_worker <$> cs) ++ l.*2) as H.
  { intros l. induction l as [|[i w] l IH]; intros cs g0; cbn [foldl fmap list_fmap]; [by rewrite app_nil_r|].
    pose proof (collect_one_worker w (n_frames net i w) g0) as Hw. destruct (collect_one _ _ g0) as [c g1].
    rewrite IH, fmap_app. cbn [fmap list_fmap fst] in *. by rewrite Hw, <- app_assoc. }
  rewrite H. cbn [fmap list_fmap app]. apply list_eq. intros i. rewrite list_lookup_fmap, list_lookup_imap. by destruct (sel !! i).
Qed.

Lemma elem_of_bid_by_node (es : list (NodeId * Bid * f64)) n b :
  bid_by_node es !! n = Some b -> exists t, (n, b, t) ∈ es.
Proof.
  unfold bid_by_node. induction es as [|[[n' b'] t] es IH] using rev_ind; [done|]. rewrite foldl_app. cbn [foldl fst snd].
  destruct (decide (n' = n)) as [->|Hne].
  - rewrite lookup_insert_eq. intros [= ->]. exists t. apply elem_of_app. right. by apply list_elem_of_singleton.
  - rewrite lookup_insert_ne by done. intros [t' Ht]%IH. exists t'. apply elem_of_app. by left.
Qed.

Lemma scored_from paid es w :
  w ∈ (fun s => s.1.1) <$> scored_bids co cfg net paid es -> exists b t, (w, b, t) ∈ es.
Proof.
  unfold scored_bids. destruct (price_range es) as [pmin pmax]. intros H.
  apply list_elem_of_fmap in H as ([[w' s] e] & -> & H). apply elem_of_take in H as (i & H & _).
  apply list_elem_of_lookup_2, elem_of_isort, list_elem_of_fmap in H as ([[w'' b] t] & [= -> -> ->] & H). cbn. by exists b, t.
Qed.

(** An eligible bid was accepted by its worker and clears every floor. *)
Lemma eligible_from min_level sc peak floor paid accepted w b t :
  (w, b, t) ∈ (eligible_bids co cfg net min_level sc peak floor paid accepted).1 ->
  (w, b) ∈ accepted /\ bid_floor co cfg net min_level sc peak floor (w, b) = true
  /\ t = effective_trust co cfg net w paid /\ flt t (g_min_trust cfg) = false.
Proof.
  unfold eligible_bids. cbn [fst]. rewrite list_elem_of_omap. intros (x & Hx & Hs).
  apply list_elem_of_fmap in Hx as ([w' b'] & -> & Hx). apply list_elem_of_In, filter_In in Hx as [Hin Hf].
  unfold trust_floor in Hs. cbn [fst] in Hs. destruct (flt _ _) eqn:E; [done|]. injection Hs as -> -> <-.
  split; [by apply list_elem_of_In|done].
Qed.

Lemma accepted_from cands w b :
  (w, b) ∈ accepted_bids net cands -> exists c, c ∈ cands /\ n_offer net c = Some (w, b) /\ b_decision b = BidAccept.
Proof.
  unfold accepted_bids. rewrite list_elem_of_omap. intros (c & Hc & H). exists c.
  destruct (n_offer net c) as [[w' b']|]; [|done]. destruct (b_decision b') eqn:E; [|done]. by injection H as -> ->.
Qed.
End facts.

(** ** Inversion of an attempt *)

(** One query as the coordinator dispatches it. *)
Record Query := mkQuery {
  q_sql : bytes;
  q_job : JobId;
  q_hash : QueryHash;
  q_paid : bool;
  q_min_level : AttestationLevel;
  q_data_class : DataClass;
  q_scope : RequestScope;
  q_input_bytes : option Z;
  q_peak_bytes : option Z;
}.

Definition attempt_query {C : Crypto} {J : EvidenceJson} {L : Libm} {Addr} (co : Coordinator C) (cfg : GridConfig) (net : Net Addr)
    (q : Query) (ex : gset NodeId) (floor : Z) (g : ProgressTracker) :=
  dispatch_attempt co cfg net (q_sql q) (q_job q) (q_hash q) (q_paid q) (q_min_level q) (q_data_class q) (q_scope q)
    (q_input_bytes q) (q_peak_bytes q) ex floor g.

Section inversion.
Context {C : Crypto} {J : EvidenceJson} {L : Libm} {Addr : Type}.
Context (co : Coordinator C) (cfg : GridConfig) (net : Net Addr) (q : Query) (ex : gset NodeId) (floor : Z).

Definition pin_of : option bytes := match n_resolve net with Resolved (Some s) => Some (fingerprint s) | _ => None end.
Definition unpinnable : bool := match n_resolve net with NotPinnable _ => true | _ => false end.
Definition the_filter : CandidateFilter := candidate_filter cfg (q_min_level q) (q_data_class q) (q_scope q).
Definition retained : list (@Candidate Addr) :=
  List.filter (retain_candidate co cfg net the_filter ex (q_input_bytes q)) (n_candidates net the_filter).
Definition eligible_now : list (NodeId * Bid * f64) :=
  (eligible_bids co cfg net (q_min_level q) (q_scope q) (q_peak_bytes q) floor (q_paid q) (accepted_bids net retained)).1.
(** The workers the job goes to, and what came back. *)
Definition selected_now : list NodeId := (fun s => s.1.1) <$> scored_bids co cfg net (q_paid q) eligible_now.
Definition answers_now (g : ProgressTracker) : Answers := sort_answers (collect_all net selected_now g).1.

Definition decision_now (g : ProgressTracker) :=
  decide_attempt co cfg net (q_sql q) (q_job q) (q_hash q) pin_of unpinnable (length selected_now)
    (bid_by_node eligible_now) (answers_now g).

Lemma attempt_inv g r effs g' :
  attempt_query co cfg net q ex floor g = (Ok r, effs, g') ->
  (exists why, r = AInfeasible why /\ effs = []) \/ (r = ANoCandidates /\ effs = [])
  \/ (exists have need, r = AInsufficientWorkers have need
        /\ effs = (eligible_bids co cfg net (q_min_level q) (q_scope q) (q_peak_bytes q) floor (q_paid q) (accepted_bids net retained)).2)
  \/ exists effs',
       effs = (eligible_bids co cfg net (q_min_level q) (q_scope q) (q_peak_bytes q) floor (q_paid q) (accepted_bids net retained)).2 ++ effs'
       /\ (decision_now g = inl (r, effs')
           \/ exists agreed verified, decision_now g = inr (agreed, verified)
              /\ conclude co cfg net (q_sql q) (q_job q) (q_hash q) (q_paid q) (q_input_bytes q) pin_of unpinnable
                   (bid_by_node eligible_now) (answers_now g) agreed verified
                   (pinned (evaluate_quorum_on_commits (commit_keys (answers_now g)) pin_of (g_quorum cfg)))
                 = (r, effs')).
Proof.
  unfold attempt_query, dispatch_attempt, decision_now, answers_now, pin_of, unpinnable. intros H.
  destruct (n_resolve net) as [|snap|why|why] eqn:Er; [..|injection H as <- <- <-; left; by eexists].
  all: fold the_filter in H; fold retained in H.
  all: destruct retained as [|c0 cs0] eqn:Ec; [injection H as <- <- <-; right; left; done|]; rewrite <- Ec in *.
  all: pose proof (eq_refl eligible_now) as Ee; unfold eligible_now at 1 in Ee.
  all: destruct (eligible_bids _ _ _ _ _ _ _ _ _) as [es blocks]; cbn [fst snd] in *; subst es.
  all: destruct (Nat.ltb _ _); [injection H as <- <- <-; right; right; left; by eexists _, _|].
  all: destruct (escrow_preflight _ _ _ _ _); [|done]. all: fold selected_now in H.
  all: destruct (collect_all net selected_now g) as [cs g1]; cbn [fst] in *.
  all: right; right; right.
  all: destruct (decide_attempt _ _ _ _ _ _ _ _ _ _ _) as [[r' e']|[agreed verified]].
  all: try (injection H as <- <- <-; exists e'; split; [done|by left]).
  all: destruct (conclude _ _ _ _ _ _ _ _ _ _ _ _ _ _) as [r' e'] eqn:Eq; injection H as <- <- <-; exists e'; split; [done|right].
  all: exists agreed, verified; split; [done|exact Eq].
Qed.

(** An attempt fails only before anything was dispatched. *)
Lemma attempt_err g e effs g' :
  attempt_query co cfg net q ex floor g = (Err e, effs, g') ->
  effs = (eligible_bids co cfg net (q_min_level q) (q_scope q) (q_peak_bytes q) floor (q_paid q) (accepted_bids net retained)).2.
Proof.
  unfold attempt_query, dispatch_attempt. intros H. destruct (n_resolve net) as [|snap|why|why] eqn:Er; [..|done].
  all: fold the_filter in H; fold retained in H.
  all: destruct retained as [|c0 cs0] eqn:Ec; [done|]; rewrite <- Ec in *.
  all: destruct (eligible_bids _ _ _ _ _ _ _ _ _) as [es blocks]; cbn [fst snd] in *.
  all: destruct (Nat.ltb _ _); [done|].
  all: destruct (escrow_preflight _ _ _ _ _); [|by injection H as _ <- _].
  all: destruct (collect_all net _ g) as [cs g1].
  all: destruct (decide_attempt _ _ _ _ _ _ _ _ _ _ _) as [[r' e']|[agreed verified]]; [done|].
  all: by destruct (conclude _ _ _ _ _ _ _ _ _ _ _ _ _ _).
Qed.
End inversion.

Section conclusions.
Context {C : Crypto} {J : EvidenceJson} {L : Libm} {Addr : Type}.
Context (co : Coordinator C) (cfg : GridConfig) (net : Net Addr) (q : Query) (ex : gset NodeId) (floor : Z).

Lemma no_drift (a : Answers) pin n :
  drifted (evaluate_quorum_on_commits (commit_keys a) pin n) = 0%nat ->
  pinned (evaluate_quorum_on_commits (commit_keys a) pin n) = evaluate_quorum (i_hash <$> inflight a) n
  /\ forall f p, f ∈ inflight a -> pin = Some p -> i_input_fingerprint f = [] \/ i_input_fingerprint f = p.
Proof.
  unfold evaluate_quorum_on_commits. rewrite sort_commits_spec. cbn [drifted pinned]. intros H%length_zero_iff_nil.
  assert (forall c, c ∈ commit_keys a -> is_drifted pin c = false) as Hall.
  { intros c Hc. destruct (is_drifted pin c) eqn:E; [|done].
    assert (c ∈ List.filter (is_drifted pin) (commit_keys a)) as Hin by (apply list_elem_of_In, filter_In; by rewrite <- list_elem_of_In).
    rewrite H in Hin. by apply not_elem_of_nil in Hin. }
  split.
  - f_equal. unfold commit_keys in *. clear H. induction (inflight a) as [|f fs IH]; [done|]. rewrite fmap_cons in *. cbn [List.filter].
    rewrite (Hall (mkCommitKey (i_input_fingerprint f) (i_hash f))) by (by left). cbn [negb]. rewrite !fmap_cons. cbn [ck_result_hash]. f_equal.
    apply IH. intros c Hc. apply Hall. by right.
  - intros f p Hf ->. specialize (Hall (mkCommitKey (i_input_fingerprint f) (i_hash f)) ltac:(apply list_elem_of_fmap; by exists f)).
    cbn [is_drifted ck_input_fingerprint] in Hall. apply andb_false_iff in Hall as [Hall|Hall]; apply bool_decide_eq_false in Hall;
      [left|right]; by apply dec_stable.
Qed.

(** In quorum mode only the hash that alone reached the quorum, on one snapshot, is verified. *)
Lemma decide_quorum_verified g h :
  g_verify_mode cfg = Quorum -> canary_expected co (q_hash q) = None ->
  decision_now co cfg net q ex floor g = inr (h, true) ->
  let commits := inflight (answers_now co cfg net q ex floor g) in
  non_verifiable co cfg (q_sql q) (q_hash q) (unpinnable net) = false
  /\ (forall f p, f ∈ commits -> pin_of net = Some p -> i_input_fingerprint f = [] \/ i_input_fingerprint f = p)
  /\ reaches (i_hash <$> commits) (g_quorum cfg) h
  /\ (forall h', reaches (i_hash <$> commits) (g_quorum cfg) h' -> h' = h).
Proof.
  intros Hm Hc H commits. unfold decision_now, decide_attempt in H. rewrite Hc, Hm in H.
  rewrite bool_decide_false in H by (by intros [? ?]). cbn [negb andb] in H.
  destruct (Nat.ltb_spec 0 (drifted (evaluate_quorum_on_commits (commit_keys (answers_now co cfg net q ex floor g)) (pin_of net) (g_quorum cfg)))) as [|Hd]; [done|].
  destruct (no_drift (answers_now co cfg net q ex floor g) (pin_of net) (g_quorum cfg)) as [Hp Hf]; [lia|]. rewrite Hp in H. fold commits in H, Hf.
  destruct (non_verifiable _ _ _ _ _); [by destruct (fastest_hash _)|]. split; [done|]. split; [done|].
  destruct (evaluate_quorum_cases (i_hash <$> commits) (g_quorum cfg))
    as [(h1 & h2 & _ & _ & _ & Es & Ea)|[(h' & Hr & Hu & Es & Ea & _)|(Hn & Es & Ea)]]; rewrite Es in H; [done| |]; rewrite Ea in H.
  - injection H as <-. done.
  - repeat (destruct (_ && _); [done|]). by destruct (_ <=? _)%nat.
Qed.

Lemma conclude_done (bids : gmap NodeId Bid) (a : Answers) pin np agreed verified outcome o effs :
  conclude co cfg net (q_sql q) (q_job q) (q_hash q) (q_paid q) (q_input_bytes q) pin np bids a agreed verified outcome = (ADone o, effs) ->
  exists w losers r, w :: losers ≡ₚ inflight a /\ i_hash w = agreed
    /\ (forall f, f ∈ inflight a -> i_hash f = agreed -> i_latency_ms w <= i_latency_ms f)
    /\ n_transfer net (i_worker w) = Some r
    /\ qo_result o = r /\ qo_agreed_hash o = Some agreed /\ qo_verified o = verified
    /\ qo_winner o = Some (i_worker w) /\ qo_participants o = i_worker <$> inflight a.
Proof.
  unfold conclude. destruct (winner_index agreed (inflight a)) as [i|] eqn:Ei; [|done].
  destruct (winner_index_spec _ _ _ Ei) as (w & Hw & Hh & Hl). destruct (swap_remove_spec _ _ _ Hw) as (rest & Hs & Hp).
  cbn [mbind option_bind]. rewrite Hs. destruct (n_transfer net (i_worker w)) as [r|] eqn:Er; [|done]. intros [= <- _].
  exists w, rest, r. done.
Qed.
End conclusions.

(** A query answered on the grid in quorum mode is verified for real: when an attempt
    returns a verified result, the result hash was committed by at least [quorum] of the
    selected workers, no other hash was, every one of those commits is on the pinned input
    snapshot (or declares none), and the result returned is the one transferred by the
    fastest worker that committed this hash. *)
Lemma attempt_quorum {C : Crypto} {J : EvidenceJson} {L : Libm} {Addr : Type}
    (co : Coordinator C) (cfg : GridConfig) (net : Net Addr) (q : Query) (ex : gset NodeId) (floor : Z)
    (g g' : ProgressTracker) (o : QueryOutcome) (effs : list Effect) :
  attempt_query co cfg net q ex floor g = (Ok (ADone o), effs, g') ->
  g_verify_mode cfg = Quorum -> canary_expected co (q_hash q) = None -> qo_verified o = true ->
  let commits := inflight (answers_now co cfg net q ex floor g) in
  exists h w, qo_agreed_hash o = Some h /\ qo_winner o = Some (i_worker w)
    /\ reaches (i_hash <$> commits) (g_quorum cfg) h
    /\ (forall h', reaches (i_hash <$> commits) (g_quorum cfg) h' -> h' = h)
    /\ (forall f p, f ∈ commits -> pin_of net = Some p -> i_input_fingerprint f = [] \/ i_input_fingerprint f = p)
    /\ w ∈ commits /\ i_hash w = h /\ (forall f, f ∈ commits -> i_hash f = h -> i_latency_ms w <= i_latency_ms f)
    /\ n_transfer net (i_worker w) = Some (qo_result o)
    /\ (forall n, n ∈ qo_participants o -> n ∈ selected_now co cfg net q ex floor).
Proof.
  intros H Hm Hc Hv commits. apply attempt_inv in H as [(? & ? & _)|[(? & _)|[(? & ? & ? & _)|(effs' & _ & [Hd|(h & verified & Hd & Hk)])]]]; try done.
  - exfalso. unfold decision_now, decide_attempt in Hd. repeat (destruct_if || case_match); congruence.
  - apply conclude_done in Hk as (w & losers & r & Hp & Hh & Hl & Ht & Hr & Ha & Hvv & Hw & Hps).
    assert (verified = true) as -> by congruence. apply decide_quorum_verified in Hd as (_ & Hf & Hq & Hu); [|done..].
    exists h, w. split; [done|]. split; [done|]. split; [done|]. split; [done|]. split; [done|].
    assert (w ∈ commits) as Hin by (unfold commits; rewrite <- Hp; by left).
    split; [done|]. split; [done|]. split; [done|]. split; [congruence|]. intros n. rewrite Hps. intros Hn.
    apply list_elem_of_fmap in Hn as (f & -> & Hfin). apply elem_of_omap_committed in Hfin.
    rewrite <- (collect_all_workers net (selected_now co cfg net q ex floor) g). apply list_elem_of_fmap. by exists (Committed f).
Qed.

(** ** Who is blamed *)

(** The provider an effect holds at fault: a penalty, a fine, or a receipt with a
    provider-fault verdict. *)
Definition blames (e : Effect) : option NodeId :=
  match e with
  | EPenalize n _ | EFine n _ => Some n
  | EReceipt r | EFailureReceipt r => if is_provider_fault (r_verdict r) then Some (r_worker_id r) else None
  | _ => None
  end.

Section blame.
Context {C : Crypto} {J : EvidenceJson} {L : Libm} {Addr : Type}.
Context (co : Coordinator C) (cfg : GridConfig) (net : Net Addr) (q : Query).
Context (pin : option bytes) (np : bool) (agreed : bytes) (verified : bool) (a : Answers).

(** The provider went silent on a verified job, or committed another hash for provably
    the same inputs. *)
Definition at_fault (n : NodeId) : Prop :=
  (verified = true /\ n ∈ silent_nodes a)
  \/ exists f, f ∈ inflight a /\ i_worker f = n /\ i_hash f <> agreed
       /\ non_verifiable co cfg (q_sql q) (q_hash q) np = false
       /\ forall p, pin = Some p -> i_input_fingerprint f = p.

Definition account_ok (x : Account) : Prop :=
  (forall e n, e ∈ ac_penalty x -> blames e = Some n -> at_fault n)
  /\ (forall n, blames (EReceipt (ac_receipt x)) = Some n -> at_fault n)
  /\ (forall n, n ∈ ac_failer x -> at_fault n).

Lemma elem_of_penalty n e : e ∈ penalty_effects co cfg net n -> blames e = Some n.
Proof using Type.
  unfold penalty_effects. destruct (flt _ _); [|by intros ?%not_elem_of_nil]. by intros ->%list_elem_of_singleton.
Qed.

Lemma commit_account_ok iw hr o f :
  f ∈ inflight a -> account_ok (account_commit co cfg net (q_sql q) (q_job q) (q_hash q) pin np agreed verified iw hr o f).
Proof using Type.
  intros Hf. unfold account_commit. set (v := commit_verdict _ _ _ _ _ _ _ _ _ f).
  assert (is_provider_fault v = true -> at_fault (i_worker f)) as Hv.
  { unfold v, commit_verdict. destruct (non_verifiable _ _ _ _ _) eqn:En; [done|]. destruct (iw && _); [done|].
    destruct (bool_decide_reflect (i_hash f = agreed)); [done|]. intros Hp. right. exists f.
    repeat split; try done. intros p ->. destruct (bool_decide_reflect (i_input_fingerprint f = p)); done. }
  split; [|split]; cbn [ac_penalty ac_receipt ac_failer].
  - intros e n He Hb. destruct (is_provider_fault v); [|by apply not_elem_of_nil in He].
    apply elem_of_penalty in He. rewrite He in Hb. injection Hb as <-. by apply Hv.
  - intros n. cbn [blames make_receipt sign_receipt r_verdict r_worker_id d_verdict d_worker_id].
    destruct (is_provider_fault v); [|done]. intros [= <-]. by apply Hv.
  - intros n Hn. destruct (verified && _) eqn:E; [|by apply not_elem_of_nil in Hn]. apply list_elem_of_singleton in Hn as ->.
    apply Hv. apply andb_true_iff in E as [_ E]. apply bool_decide_eq_true in E. by rewrite E.
Qed.

Lemma silent_account_ok n : verified = true -> n ∈ silent_nodes a -> account_ok (account_silent co cfg net (q_job q) (q_hash q) pin n).
Proof using Type.
  intros Hv Hn. assert (at_fault n) as Hf by (by left). split; [|split]; cbn [account_silent ac_penalty ac_receipt ac_failer].
  - intros e m He Hb. apply elem_of_penalty in He. rewrite He in Hb. by injection Hb as <-.
  - intros m. cbn. by intros [= <-].
  - by intros m ->%list_elem_of_singleton.
Qed.

Lemma failed_account_ok x : is_provider_fault x.1.2 = false -> account_ok (account_failed co cfg net (q_job q) (q_hash q) pin x).
Proof using Type.
  destruct x as [[n v] d]. cbn [fst snd]. intros Hv. unfold account_failed. rewrite Hv. split; [|split]; cbn [ac_penalty ac_receipt ac_failer].
  - by intros e m ?%not_elem_of_nil.
  - intros m. cbn. by rewrite Hv.
  - by intros m ?%not_elem_of_nil.
Qed.

Lemma failure_receipts_neutral fs e n :
  fault_attribution_active cfg = true ->
  e ∈ emit_failure_receipts co cfg net (q_job q) (q_hash q) fs -> blames e = Some n -> False.
Proof using Type.
  intros Hf He. unfold emit_failure_receipts in He. rewrite Hf in He. apply list_elem_of_fmap in He as (f & -> & _). done.
Qed.

Lemma elem_of_mjoin_fmap {A B} (f : A -> list B) l b : b ∈ mjoin (f <$> l) -> exists x, x ∈ l /\ b ∈ f x.
Proof using Type.
  intros H. apply list_elem_of_join in H as (k & Hb & Hk). apply list_elem_of_fmap in Hk as (x & -> & Hx). by exists x.
Qed.

Lemma conclude_blame (bids : gmap NodeId Bid) outcome r effs e n :
  fault_attribution_active cfg = true ->
  (forall x, x ∈ failed a -> is_provider_fault x.1.2 = false) ->
  conclude co cfg net (q_sql q) (q_job q) (q_hash q) (q_paid q) (q_input_bytes q) pin np bids a agreed verified outcome = (r, effs) ->
  e ∈ effs -> blames e = Some n -> at_fault n.
Proof using Type.
  intros Hfa Hfail. unfold conclude.
  destruct (winner_index agreed (inflight a)) as [i|] eqn:Ei; cbn [mbind option_bind].
  2: { intros [= <- <-] He Hb. exfalso. by eapply failure_receipts_neutral. }
  destruct (winner_index_spec _ _ _ Ei) as (w & Hw & _). destruct (swap_remove_spec _ _ _ Hw) as (losers & Hs & Hp). rewrite Hs.
  set (accounts := account_commit _ _ _ _ _ _ _ _ _ _ _ _ _ w :: _).
  assert (forall x, x ∈ accounts -> account_ok x) as Hok.
  { assert (forall f, f ∈ w :: losers -> f ∈ inflight a) as Hin by (intros f; by rewrite Hp).
    intros x [->|[Hx|Hx]%elem_of_app]%elem_of_cons.
    - apply commit_account_ok, Hin. by left.
    - apply list_elem_of_fmap in Hx as (f & -> & Hf). apply commit_account_ok, Hin. by right.
    - destruct verified eqn:Ev; [|by apply not_elem_of_nil in Hx]. apply elem_of_app in Hx as [Hx|Hx]; apply list_elem_of_fmap in Hx as (y & -> & Hy).
      + by apply silent_account_ok.
      + by apply failed_account_ok, Hfail. }
  assert (forall e, e ∈ mjoin (ac_penalty <$> accounts) ++ ((fun x => EReceipt (ac_receipt x)) <$> accounts) -> blames e = Some n -> at_fault n) as Heffs.
  { intros e' [He|He]%elem_of_app Hb.
    - apply elem_of_mjoin_fmap in He as (x & Hx & He). destruct (Hok x Hx) as (H1 & _). by apply (H1 e').
    - apply list_elem_of_fmap in He as (x & -> & Hx). destruct (Hok x Hx) as (_ & H1 & _). by apply H1. }
  destruct (n_transfer net (i_worker w)) as [rs|]; intros E He Hb; apply pair_equal_spec in E as [_ <-]; [|by apply (Heffs e)].
  apply elem_of_app in He as [He|[He|He]%elem_of_app]; [by apply (Heffs e)| |].
  - apply elem_of_cons in He as [->|He]; [done|]. by apply list_elem_of_singleton in He as ->.
  - destruct (verified && _ && _); [|by apply not_elem_of_nil in He].
    apply elem_of_mjoin_fmap in He as (m & Hm & He). apply elem_of_mjoin_fmap in Hm as (x & Hx & Hm).
    unfold fine_failed_commitment in He. destruct (co_stake_of co) as [st|]; [|by apply not_elem_of_nil in He].
    destruct (st m =? 0); [by apply not_elem_of_nil in He|]. destruct (_ =? 0); [by apply not_elem_of_nil in He|].
    apply list_elem_of_singleton in He as ->. injection Hb as <-. destruct (Hok x Hx) as (_ & _ & H1). by apply H1.
Qed.
End blame.

Lemma blocks_blame {C : Crypto} {J : EvidenceJson} {L : Libm} {Addr} (co : Coordinator C) cfg (net : Net Addr) ml sc peak fl paid acc e :
  e ∈ (eligible_bids co cfg net ml sc peak fl paid acc).2 -> blames e = None.
Proof.
  unfold eligible_bids. cbn [snd]. intros He. apply elem_of_mjoin_fmap in He as (x & Hx & He).
  apply list_elem_of_fmap in Hx as ([w b] & -> & _). unfold trust_floor in He. cbn [snd] in He.
  destruct (_ && _); [|by apply not_elem_of_nil in He]. destruct (co_blocklist co); [|by apply not_elem_of_nil in He].
  by apply list_elem_of_singleton in He as ->.
Qed.

(** With fault attribution on, an attempt in quorum mode never blames the innocent: a
    provider gets a penalty, a fine or a fault receipt only if a quorum of the selected
    workers verified a single result and this provider either took the job and went
    silent, or committed a different hash while declaring the very input snapshot the
    quorum read.  Declining with a reason, running out of memory, reading a changed
    source or taking part in a failed quorum is never held against anybody. *)
Lemma attempt_blame {C : Crypto} {J : EvidenceJson} {L : Libm} {Addr : Type}
    (co : Coordinator C) (cfg : GridConfig) (net : Net Addr) (q : Query) (ex : gset NodeId) (floor : Z)
    (g g' : ProgressTracker) (r : AttemptResult) (effs : list Effect) (e : Effect) (n : NodeId) :
  attempt_query co cfg net q ex floor g = (Ok r, effs, g') ->
  fault_attribution_active cfg = true -> g_verify_mode cfg = Quorum -> canary_expected co (q_hash q) = None ->
  e ∈ effs -> blames e = Some n ->
  let a := answers_now co cfg net q ex floor g in
  exists h, reaches (i_hash <$> inflight a) (g_quorum cfg) h
    /\ (forall h', reaches (i_hash <$> inflight a) (g_quorum cfg) h' -> h' = h)
    /\ (n ∈ silent_nodes a
        \/ exists f, f ∈ inflight a /\ i_worker f = n /\ i_hash f <> h /\ (forall p, pin_of net = Some p -> i_input_fingerprint f = p)).
Proof.
  intros H Hfa Hm Hc He Hb a.
  apply attempt_inv in H as [(? & _ & ->)|[(_ & ->)|[(? & ? & _ & ->)|(effs' & -> & Hd)]]]; try (by apply not_elem_of_nil in He).
  { by rewrite (blocks_blame _ _ _ _ _ _ _ _ _ _ He) in Hb. }
  apply elem_of_app in He as [He|He]; [by rewrite (blocks_blame _ _ _ _ _ _ _ _ _ _ He) in Hb|].
  destruct Hd as [Hd|(h & verified & Hd & Hk)].
  - exfalso. assert (effs' = [] \/ effs' = emit_failure_receipts co cfg net (q_job q) (q_hash q) (inflight a)) as [->| ->].
    { unfold decision_now, decide_attempt in Hd. fold a in Hd. repeat (destruct_if || case_match); try done;
        injection Hd as _ <-; auto. }
    + by apply not_elem_of_nil in He.
    + by eapply failure_receipts_neutral.
  - assert (at_fault co cfg q (pin_of net) (unpinnable net) h verified a n) as Hbl.
    { eapply conclude_blame; [done| |exact Hk|exact He|exact Hb]. intros x Hx. by apply elem_of_failed in Hx as [? _]. }
    destruct verified.
    + apply decide_quorum_verified in Hd as (_ & _ & Hq & Hu); [|done..]. exists h. split; [done|]. split; [done|].
      destruct Hbl as [[_ Hs]|(f & Hf & Hn & Hne & _ & Hpin)]; [by left|right]. by exists f.
    + exfalso. destruct Hbl as [[? _]|(f & Hf & Hn & Hne & Hnv & _)]; [done|].
      unfold decision_now, decide_attempt in Hd. rewrite Hc, Hm, Hnv in Hd. repeat (destruct_if || case_match); done.
Qed.

(** ** A small grid to run the definitions on *)

Definition ranking_example : RankingEconomics :=
  let z := f64_of_Z 0 in mkRanking (f64_of_Z 1) z z z z z z z 0 (f64_of_Z 1) 0.
Definition quality_example : QualityEconomics :=
  let z := f64_of_Z 0 in mkQuality (f64_of_Z 1) z z z 0 0 0.
Definition grid_example (mode : VerifyMode) : GridConfig :=
  let z := f64_of_Z 0 in
  mkGrid false false 0 true false z true (lit 2 3) false false 10 z false [] 0 3 2 mode (lit 1 10) (lit 1 2)
    (mkRepWeights (f64_of_Z 1) z z z) (f64_of_Z 1) (f64_of_Z 1) z ranking_example quality_example cfg_example
    (f64_of_Z 2) (lit 1 10) (lit 1 4).

Definition coordinator_example (bl : option Blocklist) : Coordinator toy_crypto :=
  mkCoordinator toy_crypto (@identity_signer toy_crypto (7 : Z)) (store_config 604800 16 16) store_new bl None
    (fun _ => None) (Some (fun _ => 5000000000)) (fun _ => f64_of_Z 0) None None None (fun _ => None).

Definition node_id_of (i : Z) : NodeId := str "b3:" ++ show_uint i.
Definition bid_example (w : NodeId) : Bid :=
  mkBid (str "job-1") w BidAccept 10 0 stub_l0 [] 1024 4 None 0 0 0 0.
Definition pinned_candidate (i : Z) : @Candidate Z := new_candidate (Some (node_id_of i)) i.
Definition scope_example : RequestScope := mkScope None [] [] None [].
Definition query_example : Query :=
  mkQuery (str "SELECT count(*) FROM t") (str "job-1") (str "q1") true L0 Public scope_example None None.

(** Three pinned workers; the frames each sends are given. *)
Definition net_example (frames : NodeId -> list Frame) : Net Z :=
  mkNet Z NoResolver (fun _ => pinned_candidate <$> [1; 2; 3])
    (fun c => match c_node_id c with Some id => Some (id, bid_example id) | None => None end)
    (fun _ => frames) (fun _ => Some rs1) (fun _ => 100) 99 1000 1000000.

Definition commits_as (h : bytes) (latency : Z) : list Frame := [FCommit h latency []].
(** The third worker commits a different result, faster than the others. *)
Definition frames_liar (w : NodeId) : list Frame :=
  if bool_decide (w = node_id_of 3) then commits_as (str "wrong") 5 else commits_as (str "right") 20.

Definition attempt_example (mode : VerifyMode) : result AttemptResult CoordinatorError * list Effect * ProgressTracker :=
  attempt_query (C := toy_crypto) (coordinator_example None) (grid_example mode) (net_example frames_liar) query_example ∅ 0 ∅.

Example quorum_mode_example :
  match attempt_example Quorum with
  | (Ok (ADone o), effs, _) =>
      qo_agreed_hash o = Some (str "right") /\ qo_verified o = true
      /\ omap blames effs = [node_id_of 3; node_id_of 3; node_id_of 3]
  | _ => False
  end.
Proof. vm_compute. repeat split; reflexivity. Qed.

Example fast_mode_example :
  match attempt_example Fast with
  | (Ok (ADone o), effs, _) =>
      qo_agreed_hash o = Some (str "wrong") /\ qo_verified o = true
      /\ omap blames effs = [node_id_of 1; node_id_of 2; node_id_of 1; node_id_of 2; node_id_of 1; node_id_of 2]
  | _ => False
  end.
Proof. vm_compute. repeat split; reflexivity. Qed.

Lemma quorum_example_ends : exists o effs g,
  attempt_example Quorum = (Ok (ADone o), effs, g) /\ qo_verified o = true /\ node_id_of 3 ∈ omap blames effs.
Proof.
  pose proof quorum_mode_example as H. revert H. generalize (attempt_example Quorum).
  intros [[[[o|l|w|l c w|m n|w| |m n]|e] effs] g] H; try contradiction.
  destruct H as (_ & Hv & Hb). exists o, effs, g. rewrite Hb. split_and!; [done..|by left].
Qed.
