(* ===== verification/GridQuery.v ===== *)
(** * A query on the grid, end to end (crates/node/src/coordinator.rs)

    The retry loop of [run_resilient] run over real attempts: every attempt is
    [dispatch_attempt] against what the network does at that moment, and its effects
    are applied to the coordinator before the next one, so later attempts see the
    receipts, penalties and blocks of the earlier ones. *)

From S2P Require Import Prelude Bytes F64 Crypto Text Proto Input Canonical Signing Token Membership.
From S2P Require Import Settlement Escrow Abuse Redispatch Reputation Liveness Attest Dispatch.

(** ** The coordinator after an attempt *)

Section effects.
Context {C : Crypto} {L : Libm}.

Definition with_trust (co : Coordinator C) (st : Inner) : Coordinator C :=
  mkCoordinator C (co_identity co) (co_store_config co) st (co_blocklist co) (co_liveness co) (co_proven_capacity co)
    (co_stake_of co) (co_stake_factor co) (co_bindings co) (co_attestation_verifier co) (co_canary co) (co_parse_token co).
Definition with_blocks (co : Coordinator C) (bl : option Blocklist) : Coordinator C :=
  mkCoordinator C (co_identity co) (co_store_config co) (co_trust_store co) bl (co_liveness co) (co_proven_capacity co)
    (co_stake_of co) (co_stake_factor co) (co_bindings co) (co_attestation_verifier co) (co_canary co) (co_parse_token co).

(** What an effect does to the coordinator's own state.  Settlement and slashing go to
    the chain. *)
Definition apply_effect (now : Z) (co : Coordinator C) (e : Effect) : Coordinator C :=
  let st := co_trust_store co in
  let sc := co_store_config co in
  match e with
  | EBlock n =>
      with_blocks co ((fun bl => block bl n KNodeId (str "auto-block: trust below floor") (str "auto") now) <$> co_blocklist co)
  | EReceipt r => with_trust co (observe_perf sc (observe_capability sc (record sc st r) r) r)
  | EFailureReceipt r => with_trust co (record sc st r)
  | EPenalize n a => with_trust co (penalize sc st n a)
  | ERequester verified => with_trust co (record_requester sc st (node_id (co_identity co)) verified now)
  | ESettle _ _ _ _ _ | EFine _ _ => co
  end.
End effects.

(** ** The query *)

(** The coordinator, everything the attempts did so far, and the rest of the world. *)
Record GridState (C : Crypto) (World : Type) := mkGridState {
  gs_co : Coordinator C;
  gs_log : list Effect;
  gs_world : World;
}.
Arguments mkGridState {C World}. Arguments gs_co {C World}. Arguments gs_log {C World}. Arguments gs_world {C World}.

Section query.
Context {C : Crypto} {J : EvidenceJson} {L : Libm} {Addr World : Type}.
(** What the network does from now until the end of the attempt; the clock, the random
    source and the timer. *)
Context (net_of : World -> Net Addr * World) (now_of : World -> Z * World).
Context (draw : Z -> Z -> World -> Z * World) (wait : Z -> World -> World).
Context (cfg : GridConfig) (sched : SchedulerConfig) (q : Query).

Abbreviation GS := (GridState C World).

Definition on_world {A} (f : World -> A * World) (s : GS) : A * GS :=
  let '(a, w) := f (gs_world s) in (a, mkGridState (gs_co s) (gs_log s) w).

Definition grid_dispatch (ex : gset NodeId) (floor : Z) (g : ProgressTracker) (s : GS)
  : result AttemptResult CoordinatorError * ProgressTracker * GS :=
  let '(net, w) := net_of (gs_world s) in
  let '(r, effs, g') := attempt_query (gs_co s) cfg net q ex floor g in
  (r, g', mkGridState (foldl (apply_effect (n_now_ts net)) (gs_co s) effs) (gs_log s ++ effs) w).

Definition grid_env : Env GS :=
  mkEnv GS grid_dispatch (on_world now_of) (fun lo hi => on_world (draw lo hi))
    (fun d s => mkGridState (gs_co s) (gs_log s) (wait d (gs_world s))).

Definition grid_query (fuel : nat) (g : ProgressTracker) (s : GS) :=
  run_resilient grid_env sched (q_job q) fuel g s.
End query.

(** ** Invariants of the loop *)

Section loop_invariant.
Context {W : Type} (env : Env W) (cfg : SchedulerConfig) (job : JobId) (I : W -> Prop).

(** Only attempts matter: the clock, the random source and the timer keep [I]. *)
Record passive : Prop := {
  passive_clock w : I w -> I (clock env w).2;
  passive_draw lo hi w : I w -> I (gen_range env lo hi w).2;
  passive_sleep d w : I w -> I (sleep env d w);
}.

Context (HP : passive) (HD : forall ex fl g w r g' w', I w -> dispatch env ex fl g w = (r, g', w') -> I w').

Lemma next_delay_inv b w : I w -> I (next_delay (gen_range env) b w).2.
Proof using HP.
  intros Hw. unfold next_delay. destruct (_ =? 0); [done|]. destruct (_ <=? _); [done|].
  match goal with |- context [gen_range env ?lo ?hi w] => pose proof (passive_draw HP lo hi w Hw) end.
  by destruct (gen_range env _ _ w).
Qed.

Lemma retry_inv stop s w : I w -> I (retry_or_stop env cfg stop s w).2.
Proof using HP.
  intros Hw. unfold retry_or_stop. destruct (_ && _); [done|].
  assert (I (if max_total_duration_ms cfg =? 0 then (false, w)
             else let '(t, w) := clock env w in (max_total_duration_ms cfg * 1000000 <=? sat_sub t (started s), w)).2) as H1.
  { destruct (_ =? 0); [done|]. pose proof (passive_clock HP w Hw). by destruct (clock env w). }
  destruct (if max_total_duration_ms cfg =? 0 then _ else _) as [[] w1]; [done|]. cbn [snd] in H1.
  pose proof (passive_clock HP w1 H1) as H2. destruct (clock env w1) as [now w2]. cbn [snd] in H2.
  destruct (try_take _) as [[] b]; cbn [negb]; [|done].
  pose proof (next_delay_inv (backoff s) w2 H2) as H3. destruct (next_delay _ _ w2) as [[d bo] w3]. cbn [snd] in *.
  destruct (_ =? 0); [done|]. by apply HP.
Qed.

Lemma on_attempt_inv s a w : I w -> I (on_attempt env cfg s a w).2.
Proof using HP.
  intros Hw. assert (forall stop s', I (let '(r, w) := retry_or_stop env cfg stop s' w in
    (match r with inl s' => inl s' | inr e => inr (@Err QueryOutcome _ e) end, w)).2) as Hr.
  { intros stop s'. pose proof (retry_inv stop s' w Hw). by destruct (retry_or_stop env cfg stop s' w). }
  destruct a; cbn [on_attempt]; repeat destruct_if; first [done|apply Hr].
Qed.

(** The state at the end of a run, and the attempt an answer comes from. *)
Lemma loop_inv fuel s g w r g' w' :
  I w -> resilient_loop env cfg job fuel s g w = Some (r, g', w') ->
  I w' /\ forall o, r = Ok o -> exists ex fl g0 w0 g1 w1, I w0 /\ dispatch env ex fl g0 w0 = (Ok (ADone o), g1, w1).
Proof using HP HD.
  revert s g w. induction fuel as [|fuel IH]; intros s g w Hw; [done|]. cbn [resilient_loop].
  destruct (dispatch env _ _ g w) as [[[a|e] g1] w1] eqn:Ed; pose proof (HD _ _ _ _ _ _ _ Hw Ed) as H1.
  2: { by intros [= <- <- <-]. }
  pose proof (on_attempt_inv s a w1 H1) as H2. destruct (on_attempt env cfg s a w1) as [[s'|r'] w2] eqn:Eo; cbn [snd] in H2.
  - intros H. by eapply IH.
  - intros [= <- <- <-]. split; [done|]. intros o ->. exists (excluded s), (capacity_floor s), g, w, g1, w1. split; [done|].
    rewrite Ed. destruct a; cbn [on_attempt] in Eo; try (by injection Eo as <- _);
      repeat destruct_if; try done; by destruct (retry_or_stop _ _ _ _ _) as [[] ?].
Qed.

Lemma run_inv fuel g w r g' w' :
  I w -> run_resilient env cfg job fuel g w = Some (r, g', w') ->
  I w' /\ forall o, r = Ok o -> exists ex fl g0 w0 g1 w1, I w0 /\ dispatch env ex fl g0 w0 = (Ok (ADone o), g1, w1).
Proof using HP HD.
  intros Hw. unfold run_resilient. pose proof (passive_clock HP w Hw) as H0. destruct (clock env w) as [t0 w0].
  pose proof (passive_clock HP w0 H0) as H1. destruct (clock env w0) as [t1 w1]. by apply loop_inv.
Qed.
End loop_invariant.

(** ** What a query guarantees *)

Section guarantees.
Context {C : Crypto} {J : EvidenceJson} {L : Libm} {Addr World : Type}.
Context (net_of : World -> Net Addr * World) (now_of : World -> Z * World).
Context (draw : Z -> Z -> World -> Z * World) (wait : Z -> World -> World).
Context (cfg : GridConfig) (sched : SchedulerConfig) (q : Query).

Abbreviation env := (grid_env (C := C) net_of now_of draw wait cfg q).

(** The network behaves like this at some point. *)
Definition occurs (net : Net Addr) : Prop := exists w, (net_of w).1 = net.

Lemma grid_passive (I : Coordinator C -> list Effect -> Prop) : passive env (fun s => I (gs_co s) (gs_log s)).
Proof.
  split; intros; cbn [grid_env clock gen_range sleep on_world gs_co gs_log]; unfold on_world; [|by destruct (draw _ _ _)|done].
  by destruct (now_of (gs_world w)).
Qed.

(** A property of the coordinator and the effects so far that attempts keep. *)
Lemma query_inv (I : Coordinator C -> list Effect -> Prop) fuel g s r g' s' :
  (forall co log net ex fl g r effs g', I co log -> occurs net -> attempt_query co cfg net q ex fl g = (r, effs, g') ->
     I (foldl (apply_effect (n_now_ts net)) co effs) (log ++ effs)) ->
  I (gs_co s) (gs_log s) -> grid_query net_of now_of draw wait cfg sched q fuel g s = Some (r, g', s') ->
  I (gs_co s') (gs_log s')
  /\ forall o, r = Ok o -> exists co log net ex fl g0 effs g1,
       I co log /\ occurs net /\ attempt_query co cfg net q ex fl g0 = (Ok (ADone o), effs, g1).
Proof.
  intros HD Hs H. apply (run_inv env sched (q_job q) (fun s => I (gs_co s) (gs_log s))) in H as [H Ho]; [|apply grid_passive| |done].
  - split; [done|]. intros o E. destruct (Ho o E) as (ex & fl & g0 & w0 & g1 & w1 & Hw & Hd).
    cbn [grid_env dispatch] in Hd. unfold grid_dispatch in Hd. destruct (net_of (gs_world w0)) as [net w2] eqn:En.
    destruct (attempt_query (gs_co w0) cfg net q ex fl g0) as [[r0 effs] g2] eqn:Ea. injection Hd as -> _ _.
    exists (gs_co w0), (gs_log w0), net, ex, fl, g0, effs, g2. split; [done|]. split; [|done].
    exists (gs_world w0). by rewrite En.
  - intros ex fl g0 w0 r0 g1 w1 Hw Hd. cbn [grid_env dispatch] in Hd. unfold grid_dispatch in Hd.
    destruct (net_of (gs_world w0)) as [net w2] eqn:En.
    destruct (attempt_query (gs_co w0) cfg net q ex fl g0) as [[r1 effs] g2] eqn:Ea. injection Hd as _ _ <-.
    cbn [gs_co gs_log]. eapply HD; [done| |done]. exists (gs_world w0). by rewrite En.
Qed.

Lemma effects_canary now effs (co : Coordinator C) : co_canary (foldl (apply_effect now) co effs) = co_canary co.
Proof. revert co. induction effs as [|e effs IH]; intros co; [done|]. cbn [foldl]. rewrite IH. by destruct e. Qed.

(** The canary book a query starts with is the one every attempt sees. *)
Lemma query_canary fuel g s r g' s' :
  grid_query net_of now_of draw wait cfg sched q fuel g s = Some (r, g', s') ->
  forall o, r = Ok o -> exists co net ex fl g0 effs g1,
    co_canary co = co_canary (gs_co s) /\ occurs net /\ attempt_query co cfg net q ex fl g0 = (Ok (ADone o), effs, g1).
Proof.
  intros H o E. apply (query_inv (fun co _ => co_canary co = co_canary (gs_co s))) in H as [_ H]; [| |done].
  - destruct (H o E) as (co & log & net & ex & fl & g0 & effs & g1 & Hc & Hn & Ha). by exists co, net, ex, fl, g0, effs, g1.
  - intros. by rewrite effects_canary.
Qed.

(** A query answered by the grid in quorum mode is verified for real, whatever retries,
    failures and blocks came before: when [run_resilient] returns a verified result there
    is an attempt in which at least [quorum] of the selected workers committed its hash,
    no other hash reached the quorum, every commit is on the pinned input snapshot (or
    declares none), and the rows returned are those transferred by the fastest worker
    that committed this hash. *)
Theorem grid_result_verified (fuel : nat) (g g' : ProgressTracker) (s s' : GridState C World) (o : QueryOutcome) :
  grid_query net_of now_of draw wait cfg sched q fuel g s = Some (Ok o, g', s') ->
  g_verify_mode cfg = Quorum -> canary_expected (gs_co s) (q_hash q) = None -> qo_verified o = true ->
  exists co net ex floor g0, occurs net /\
  let commits := inflight (answers_now co cfg net q ex floor g0) in
  exists h w, qo_agreed_hash o = Some h /\ qo_winner o = Some (i_worker w)
    /\ reaches (i_hash <$> commits) (g_quorum cfg) h
    /\ (forall h', reaches (i_hash <$> commits) (g_quorum cfg) h' -> h' = h)
    /\ (forall f p, f ∈ commits -> pin_of net = Some p -> i_input_fingerprint f = [] \/ i_input_fingerprint f = p)
    /\ w ∈ commits /\ i_hash w = h /\ (forall f, f ∈ commits -> i_hash f = h -> i_latency_ms w <= i_latency_ms f)
    /\ n_transfer net (i_worker w) = Some (qo_result o)
    /\ (forall n, n ∈ qo_participants o -> n ∈ selected_now co cfg net q ex floor).
Proof using Type.
  intros H Hm Hc Hv. destruct (query_canary _ _ _ _ _ _ H o eq_refl) as (co & net & ex & fl & g0 & effs & g1 & Ec & Hn & Ha).
  exists co, net, ex, fl, g0. split; [done|]. eapply attempt_quorum; [exact Ha|done| |done].
  unfold canary_expected in *. by rewrite Ec.
Qed.

(** *** Blame *)

(** Every blame of a whole query goes back to an attempt in which the provider was at fault. *)
Lemma query_blame fuel g s r g' s' e n :
  grid_query net_of now_of draw wait cfg sched q fuel g s = Some (r, g', s') ->
  fault_attribution_active cfg = true -> g_verify_mode cfg = Quorum -> canary_expected (gs_co s) (q_hash q) = None ->
  gs_log s = [] -> e ∈ gs_log s' -> blames e = Some n ->
  exists co net ex fl g0, occurs net /\
  let a := answers_now co cfg net q ex fl g0 in
  exists h, reaches (i_hash <$> inflight a) (g_quorum cfg) h
    /\ (forall h', reaches (i_hash <$> inflight a) (g_quorum cfg) h' -> h' = h)
    /\ (n ∈ silent_nodes a
        \/ exists f, f ∈ inflight a /\ i_worker f = n /\ i_hash f <> h /\ (forall p, pin_of net = Some p -> i_input_fingerprint f = p)).
Proof using Type.
  intros H Hfa Hm Hc Hl He Hb. set (concl := exists co net ex fl g0, _).
  apply (query_inv (fun co log => co_canary co = co_canary (gs_co s) /\ (e ∈ log -> concl))) in H as [[_ H] _]; [by apply H| |].
  - intros co log net ex fl g0 r0 effs g1 [Hco Hlog] Hn Ha. split; [by rewrite effects_canary|].
    intros [Hin|Hin]%elem_of_app; [auto|]. exists co, net, ex, fl, g0. split; [done|].
    assert (canary_expected co (q_hash q) = None) as Hc' by (unfold canary_expected in *; by rewrite Hco).
    destruct r0 as [r0|err].
    + by eapply attempt_blame.
    + exfalso. apply attempt_err in Ha as ->. by rewrite (blocks_blame _ _ _ _ _ _ _ _ _ _ Hin) in Hb.
  - split; [done|]. rewrite Hl. by intros ?%not_elem_of_nil.
Qed.
End guarantees.

(** *** Penalties *)

Section penalties.
Context {C : Crypto} {L : Libm}.

Lemma evict_fifo_lookup {V} (max : nat) (ord : list NodeId) (m : gmap NodeId V) (n : NodeId) (v : V) :
  (evict_fifo max ord m).2 !! n = Some v -> m !! n = Some v.
Proof.
  revert m. induction ord as [|e rest IH]; intros m; [done|]. cbn [evict_fifo]. destruct (_ <=? _)%nat; [|done].
  intros [_ H]%IH%lookup_delete_Some. done.
Qed.

(** A worker's penalty moves only by its own updates, or is forgotten by eviction. *)
Lemma with_worker_penalty sc st w f n :
  (w = n -> forall x, penalty (f x) = penalty x) ->
  penalty_of (with_worker sc st w f) n = penalty_of st n \/ penalty_of (with_worker sc st w f) n = f64_of_Z 0.
Proof.
  intros Hf. unfold penalty_of, with_worker.
  destruct (workers st !! w) as [x|] eqn:Ew; cbn [workers].
  - left. destruct (decide (w = n)) as [->|Hne]; [rewrite lookup_alter_eq, Ew|by rewrite lookup_alter_ne].
    cbn. by rewrite Hf.
  - destruct (evict_fifo _ _ _) as [ord ws] eqn:Ev. cbn [workers]. destruct (decide (w = n)) as [->|Hne].
    + right. rewrite lookup_alter_eq, lookup_insert_eq. cbn. by rewrite Hf.
    + rewrite lookup_alter_ne, lookup_insert_ne by done. destruct (ws !! n) as [v|] eqn:En; [|by right].
      left. assert ((evict_fifo (max_workers sc) (order st) (workers st)).2 !! n = Some v) as H by (by rewrite Ev).
      by rewrite (evict_fifo_lookup _ _ _ _ _ H).
Qed.

Lemma same_or_zero (a b c z : f64) : a = b \/ a = z -> b = c \/ b = z -> a = c \/ a = z.
Proof. intuition congruence. Qed.

Lemma record_obs_penalty sc fp ts ok x : penalty (record_obs sc fp ts ok x) = penalty x.
Proof. unfold record_obs. destruct_if; [done|]. by destruct (prune_obs _ _ _). Qed.

Lemma record_penalty sc st r n : penalty_of (record sc st r) n = penalty_of st n \/ penalty_of (record sc st r) n = f64_of_Z 0.
Proof. unfold record. destruct (negb _); [by left|]. apply with_worker_penalty. intros _ x. apply record_obs_penalty. Qed.

Lemma capability_penalty sc st r n :
  penalty_of (observe_capability sc st r) n = penalty_of st n \/ penalty_of (observe_capability sc st r) n = f64_of_Z 0.
Proof.
  unfold observe_capability. destruct (negb _); [by left|]. apply with_worker_penalty. intros _ x. unfold capability_obs.
  destruct_if; [done|]. by destruct (prune_fps _ _ _).
Qed.

Lemma perf_penalty sc st r n :
  penalty_of (observe_perf sc st r) n = penalty_of st n \/ penalty_of (observe_perf sc st r) n = f64_of_Z 0.
Proof.
  unfold observe_perf. destruct (negb _); [by left|]. apply with_worker_penalty. intros _ x. unfold perf_obs.
  destruct_if; [done|]. by destruct (prune_fps _ _ _).
Qed.

Lemma effect_penalty now (co : Coordinator C) e n :
  blames e <> Some n ->
  penalty_of (co_trust_store (apply_effect now co e)) n = penalty_of (co_trust_store co) n
  \/ penalty_of (co_trust_store (apply_effect now co e)) n = f64_of_Z 0.
Proof.
  intros Hb. destruct e as [m|r|r|m a|v| |]; cbn [apply_effect with_trust with_blocks co_trust_store]; [by left| |apply record_penalty| | |by left..].
  - eapply same_or_zero; [apply perf_penalty|]. eapply same_or_zero; [apply capability_penalty|apply record_penalty].
  - apply with_worker_penalty. intros ->. done.
  - left. unfold penalty_of, record_requester. by destruct (match _ !! _ with Some _ => _ | None => _ end).
Qed.

Lemma effects_penalty now effs (co : Coordinator C) n :
  (forall e, e ∈ effs -> blames e <> Some n) ->
  penalty_of (co_trust_store (foldl (apply_effect now) co effs)) n = penalty_of (co_trust_store co) n
  \/ penalty_of (co_trust_store (foldl (apply_effect now) co effs)) n = f64_of_Z 0.
Proof.
  revert co. induction effs as [|e effs IH]; intros co Hb; [by left|]. cbn [foldl].
  eapply same_or_zero; [apply IH; intros e' He'; apply Hb; by right|]. apply effect_penalty, Hb. by left.
Qed.
End penalties.

Section honest.
Context {C : Crypto} {J : EvidenceJson} {L : Libm} {Addr World : Type}.
Context (net_of : World -> Net Addr * World) (now_of : World -> Z * World).
Context (draw : Z -> Z -> World -> Z * World) (wait : Z -> World -> World).
Context (cfg : GridConfig) (sched : SchedulerConfig) (q : Query) (truth : bytes) (n : NodeId).

(** The provider answers every dispatch with the true hash or with a refusal. *)
Definition honest : Prop :=
  forall net i g, occurs net_of net ->
    match (collect_one n (n_frames net i n) g).1 with Committed f => i_hash f = truth | Failed _ _ => True | Silent _ => False end.

(** No other hash ever reaches the quorum. *)
Definition honest_quorum : Prop :=
  forall (co : Coordinator C) net ex fl g h, occurs net_of net ->
    reaches (i_hash <$> inflight (answers_now co cfg net q ex fl g)) (g_quorum cfg) h -> h = truth.

Lemma collect_all_elem (net : Net Addr) sel g c :
  c ∈ (collect_all net sel g).1 -> exists i w g0, c = (collect_one w (n_frames net i w) g0).1.
Proof.
  unfold collect_all.
  assert (forall (l : list (nat * NodeId)) cs g,
    c ∈ (foldl (fun '(cs, g) '(i, w) => let '(c, g) := collect_one w (n_frames net i w) g in (cs ++ [c], g)) (cs, g) l).1 ->
    c ∈ cs \/ exists i w g0, c = (collect_one w (n_frames net i w) g0).1) as H.
  { intros l. induction l as [|[i w] l IH]; intros cs g0; cbn [foldl fst]; [by left|].
    destruct (collect_one w (n_frames net i w) g0) as [c1 g1] eqn:Ec. intros [[?| ->%list_elem_of_singleton]%elem_of_app|?]%IH; [by left| |by right].
    right. exists i, w, g0. by rewrite Ec. }
  intros [H1|H1]%H; [by apply not_elem_of_nil in H1|done].
Qed.

Lemma honest_not_silent net sel g : honest -> occurs net_of net -> n ∉ silent_nodes (sort_answers (collect_all net sel g).1).
Proof.
  intros Hh Hn [i (w & g0 & H)]%elem_of_silent%collect_all_elem. pose proof (collect_one_worker w (n_frames net i w) g0) as Hw.
  rewrite <- H in Hw. cbn in Hw. subst w. specialize (Hh net i g0 Hn). by rewrite <- H in Hh.
Qed.

Lemma honest_commits net sel g f :
  honest -> occurs net_of net -> f ∈ inflight (sort_answers (collect_all net sel g).1) -> i_worker f = n -> i_hash f = truth.
Proof.
  intros Hh Hn [i (w & g0 & H)]%elem_of_omap_committed%collect_all_elem E. pose proof (collect_one_worker w (n_frames net i w) g0) as Hw.
  rewrite <- H in Hw. cbn in Hw. rewrite E in Hw. subst w. specialize (Hh net i g0 Hn). by rewrite <- H in Hh.
Qed.

(** C2: honesty pays: in a whole query that runs in quorum mode with fault attribution
    active and is not one of the coordinator's canaries, a provider that answers every
    dispatch with the true result hash or with an explicit refusal is never blamed (no
    penalty, no fine, no fault receipt in the log of the query, which starts empty), as
    long as no false hash reaches the quorum; its accumulated penalty stays what it was
    (or is forgotten when the bounded store evicts the provider).  Fast mode has no such
    guarantee: there the first answer decides, and [fast_mode_blames_quorum] shows honest
    providers blamed. *)
Theorem honest_provider_never_blamed (fuel : nat) (g g' : ProgressTracker) (s s' : GridState C World)
    (r : result QueryOutcome CoordinatorError) :
  grid_query net_of now_of draw wait cfg sched q fuel g s = Some (r, g', s') ->
  fault_attribution_active cfg = true -> g_verify_mode cfg = Quorum -> canary_expected (gs_co s) (q_hash q) = None ->
  gs_log s = [] -> honest -> honest_quorum ->
  (forall e, e ∈ gs_log s' -> blames e <> Some n)
  /\ (penalty_of (co_trust_store (gs_co s')) n = penalty_of (co_trust_store (gs_co s)) n
      \/ penalty_of (co_trust_store (gs_co s')) n = f64_of_Z 0).
Proof using Type.
  intros H Hfa Hm Hc Hl Hh Hq.
  assert (forall e, e ∈ gs_log s' -> blames e <> Some n) as Hno.
  { intros e He Hb. destruct (query_blame _ _ _ _ _ _ _ _ _ _ _ _ _ _ _ H Hfa Hm Hc Hl He Hb)
      as (co & net & ex & fl & g0 & Hn & h & Hr & _ & [Hs|(f & Hf & Hw & Hne & _)]).
    - by eapply honest_not_silent.
    - destruct Hne. rewrite (Hq _ _ _ _ _ _ Hn Hr). by eapply honest_commits. }
  split; [done|]. revert Hno.
  apply (query_inv _ _ _ _ _ _ _ (fun co log => (forall e, e ∈ log -> blames e <> Some n) ->
    penalty_of (co_trust_store co) n = penalty_of (co_trust_store (gs_co s)) n \/ penalty_of (co_trust_store co) n = f64_of_Z 0))
    in H as [H _]; [done| |by left].
  intros co log net ex fl g0 r0 effs g1 Hi Hn Ha Hno. eapply same_or_zero.
  - apply effects_penalty. intros e He. apply Hno, elem_of_app. by right.
  - apply Hi. intros e He. apply Hno, elem_of_app. by left.
Qed.
End honest.

(** ** Termination *)

Section terminates.
Context {C : Crypto} {J : EvidenceJson} {L : Libm} {Addr : Type}.
Context (co : Coordinator C) (cfg : GridConfig) (net : Net Addr) (q : Query) (ex : gset NodeId) (floor : Z).
Context (P : gset NodeId) (Cs : gset Z).
(** Who answers an offer, and with how much free memory. *)
Context (Hoffer : forall c w b, n_offer net c = Some (w, b) -> w ∈ P /\ b_free_mem_bytes b ∈ Cs) (Hzero : 0 ∈ Cs).

Lemma selected_known w : w ∈ selected_now co cfg net q ex floor -> w ∈ P.
Proof using Hoffer.
  intros (b & t & H)%scored_from. apply eligible_from in H as (H & _). apply accepted_from in H as (c & _ & H & _).
  by apply Hoffer in H as [].
Qed.

Lemma answers_known g c : c ∈ (collect_all net (selected_now co cfg net q ex floor) g).1 -> collected_worker c ∈ P.
Proof using Hoffer.
  intros H. apply selected_known. rewrite <- (collect_all_workers net _ g). apply list_elem_of_fmap. by exists c.
Qed.

Lemma failed_known g n : n ∈ failed_or_silent (answers_now co cfg net q ex floor g) -> n ∈ P.
Proof using Hoffer.
  unfold failed_or_silent, answers_now. intros [H|H]%elem_of_app.
  - apply list_elem_of_fmap in H as (x & -> & [_ H]%elem_of_failed). by apply answers_known in H.
  - apply elem_of_silent in H. by apply answers_known in H.
Qed.

Lemma oomed_known g n : n ∈ oomed (answers_now co cfg net q ex floor g) -> n ∈ P.
Proof using Hoffer.
  intros H. apply (failed_known g). unfold failed_or_silent, oomed in *. apply elem_of_app. left.
  apply list_elem_of_fmap in H as (x & -> & H). apply list_elem_of_fmap. exists x. split; [done|].
  apply list_elem_of_In, filter_In in H as [H _]. by apply list_elem_of_In.
Qed.

Lemma foldl_max_elem l x : foldl Z.max x l = x \/ foldl Z.max x l ∈ l.
Proof using Type.
  revert x. induction l as [|y l IH]; intros x; cbn [foldl]; [by left|].
  destruct (IH (Z.max x y)) as [->|H]; [|right; by right]. destruct (Z.max_spec x y) as [[_ ->]|[_ ->]]; [right; by left|by left].
Qed.

Lemma capacity_known g : max_tried_capacity (bid_by_node (eligible_now co cfg net q ex floor)) (answers_now co cfg net q ex floor g) ∈ Cs.
Proof using Hoffer Hzero.
  unfold max_tried_capacity. match goal with |- foldl Z.max 0 ?l ∈ _ => destruct (foldl_max_elem l 0) as [->|H]; [done|] end.
  apply list_elem_of_fmap in H as (n & -> & _). destruct (bid_by_node _ !! n) as [b|] eqn:E; [|done].
  apply elem_of_bid_by_node in E as [t E]. apply eligible_from in E as (E & _). apply accepted_from in E as (c & _ & E & _).
  by apply Hoffer in E as [].
Qed.

Lemma unpinned_no_drift a n : drifted (evaluate_quorum_on_commits (commit_keys a) None n) = 0%nat.
Proof using Type.
  unfold evaluate_quorum_on_commits. rewrite sort_commits_spec. cbn [drifted].
  induction (commit_keys a) as [|c l IH]; [done|]. cbn [List.filter is_drifted]. done.
Qed.

Lemma attempt_blames_within g r effs g' :
  pin_of net = None -> attempt_query co cfg net q ex floor g = (Ok r, effs, g') -> attempt_within P Cs r.
Proof using Hoffer Hzero.
  intros Hpin H.
  assert (attempt_within P Cs (AInconclusive (failed_or_silent (answers_now co cfg net q ex floor g)))) as Hinc.
  { split; [|done]. cbn [blamed]. intros n. rewrite elem_of_list_to_set. apply failed_known. }
  assert (forall x, blamed x = [] -> is_resource_exceeded x = false -> is_drift x = false -> attempt_within P Cs x) as Hnone.
  { intros x E1 E2 E3. unfold attempt_within. rewrite E1, E2, E3. split; [set_solver|done]. }
  apply attempt_inv in H as [(? & -> & _)|[(-> & _)|[(? & ? & -> & _)|(effs' & _ & [Hd|(h & v & Hd & Hk)])]]]; [by apply Hnone..| |].
  - unfold decision_now, decide_attempt in Hd. rewrite Hpin, unpinned_no_drift in Hd. rewrite andb_false_r in Hd.
    repeat (destruct_if || case_match); try done; injection Hd as <- _; try done; try (by apply Hnone).
    split; [cbn [blamed]; intros n; rewrite elem_of_list_to_set; apply oomed_known|]. split; [intros _; apply capacity_known|done].
  - unfold conclude in Hk. destruct (winner_index _ _ ≫= _) as [[w losers]|]; [|by injection Hk as <- _].
    destruct (n_transfer net (i_worker w)); apply (f_equal fst) in Hk; cbn [fst] in Hk; subst r; [by apply Hnone|done].
Qed.
End terminates.

Section returns.
Context {C : Crypto} {J : EvidenceJson} {L : Libm} {Addr World : Type}.
Context (net_of : World -> Net Addr * World) (now_of : World -> Z * World).
Context (draw : Z -> Z -> World -> Z * World) (wait : Z -> World -> World).
Context (cfg : GridConfig) (sched : SchedulerConfig) (q : Query).

(** C8: a query always comes to an end: with the retries unlimited and inputs that are not
    pinned, it returns after at most one attempt per provider that ever answers an offer,
    plus one per advertised amount of free memory, plus one, whatever the providers, the
    clock and the random source do and whatever receipts, penalties and blocks pile up
    between the attempts. *)
Theorem grid_query_returns (P : gset NodeId) (Cs : gset Z) (g : ProgressTracker) (s : GridState C World) :
  (forall net, occurs net_of net -> pin_of net = None) ->
  (forall net c w b, occurs net_of net -> n_offer net c = Some (w, b) -> w ∈ P /\ b_free_mem_bytes b ∈ Cs) ->
  0 ∈ Cs ->
  exists r, forall fuel, (size P + size Cs + 1 <= fuel)%nat ->
    grid_query net_of now_of draw wait cfg sched q fuel g s = Some r.
Proof using Type.
  intros Hpin Hoffer Hzero. unfold grid_query, run_resilient.
  destruct (clock _ s) as [t0 w0]. destruct (clock _ w0) as [t1 w1].
  destruct (loop_progress (grid_env net_of now_of draw wait cfg q) sched (q_job q) P Cs (size P + size Cs + 1)
              (loop_init sched t0 t1) g w1) as [r Hr]; [|done|done| |].
  - intros ex fl g0 w a g' w' Hd. cbn [grid_env dispatch] in Hd. unfold grid_dispatch in Hd.
    destruct (net_of (gs_world w)) as [net w2] eqn:En. assert (occurs net_of net) as Hocc by (exists (gs_world w); by rewrite En).
    destruct (attempt_query (gs_co w) cfg net q ex fl g0) as [[r0 effs] g2] eqn:Ea. injection Hd as -> _ _.
    eapply attempt_blames_within; [|done|by apply Hpin|done]. intros c wk b. by apply Hoffer.
  - unfold room. cbn [loop_init excluded capacity_floor].
    assert (size (filter (fun c => (0 < c)%Z) Cs) <= size Cs)%nat by (apply subseteq_size; set_solver).
    assert (size (P ∖ ∅) <= size P)%nat by (apply subseteq_size; set_solver). lia.
  - exists r. intros fuel Hf. by eapply loop_mono.
Qed.
End returns.

(** ** The rows are not checked against the hash *)

Definition with_transfer {Addr} (net : Net Addr) (rs : ResultSet) : Net Addr :=
  mkNet Addr (n_resolve net) (n_candidates net) (n_offer net) (n_frames net) (fun _ => Some rs) (n_result_bytes net)
    (n_nonce net) (n_now_ts net) (n_now_ms net).

Section unchecked.
Context {C : Crypto} {J : EvidenceJson} {L : Libm} {Addr : Type}.
Context (co : Coordinator C) (cfg : GridConfig) (net : Net Addr) (q : Query) (ex : gset NodeId) (floor : Z).

Lemma conclude_any_rows rs pin np bids a agreed verified outcome o effs :
  conclude co cfg net (q_sql q) (q_job q) (q_hash q) (q_paid q) (q_input_bytes q) pin np bids a agreed verified outcome = (ADone o, effs) ->
  exists o' effs',
    conclude co cfg (with_transfer net rs) (q_sql q) (q_job q) (q_hash q) (q_paid q) (q_input_bytes q) pin np bids a agreed verified outcome = (ADone o', effs')
    /\ qo_result o' = rs /\ qo_agreed_hash o' = qo_agreed_hash o /\ qo_verified o' = qo_verified o /\ qo_winner o' = qo_winner o
    /\ (forall n others h fp m, ESettle n others h fp m ∈ effs -> ESettle n others h fp m ∈ effs').
Proof using Type.
  unfold conclude. destruct (winner_index agreed (inflight a) ≫= _) as [[w losers]|]; [|done].
  destruct (n_transfer net (i_worker w)) as [r|]; [|done]. cbn [with_transfer n_transfer].
  intros E. apply pair_equal_spec in E as [Eo <-]. apply (f_equal (fun x => match x with ADone o => o | _ => o end)) in Eo. subst o.
  eexists _, _. split; [reflexivity|]. do 4 (split; [reflexivity|]).
  intros n others h fp m Hin. apply elem_of_app in Hin as [Hin|[Hin|Hin]%elem_of_app].
  - exfalso. apply elem_of_app in Hin as [Hin|Hin].
    + apply elem_of_mjoin_fmap in Hin as (x & Hx & Hin). revert Hx Hin.
      assert (forall x, (exists iw o f, x = account_commit co cfg net (q_sql q) (q_job q) (q_hash q) pin np agreed verified iw true o f)
                \/ (exists k, x = account_silent co cfg net (q_job q) (q_hash q) pin k)
                \/ (exists y, x = account_failed co cfg net (q_job q) (q_hash q) pin y) ->
              ESettle n others h fp m ∈ ac_penalty x -> False) as Hacc.
      { clear. intros x Hx Hin. assert (exists k, ESettle n others h fp m ∈ penalty_effects co cfg net k) as [k Hk].
        { destruct Hx as [(iw & o & f & ->)|[[k ->]|[[[k v] d] ->]]]; cbn [account_commit account_silent account_failed ac_penalty] in Hin;
            [destruct (is_provider_fault _); [by eexists|by apply not_elem_of_nil in Hin]|by eexists|].
          destruct (is_provider_fault v); [by eexists|by apply not_elem_of_nil in Hin]. }
        by apply elem_of_penalty in Hk. }
      intros Hx Hin. apply (Hacc x); [|done]. apply elem_of_cons in Hx as [->|Hx]; [left; by eexists _, _, _|].
      apply elem_of_app in Hx as [Hx|Hx]; [left; apply list_elem_of_fmap in Hx as (f & -> & _); by eexists _, _, _|].
      destruct verified; [|by apply not_elem_of_nil in Hx].
      apply elem_of_app in Hx as [Hx|Hx]; apply list_elem_of_fmap in Hx as (y & -> & _); right; [left|right]; by eexists.
    + apply list_elem_of_fmap in Hin as (x & E & _). done.
  - apply elem_of_app. right. apply elem_of_app. by left.
  - exfalso. destruct (verified && _ && _); [|by apply not_elem_of_nil in Hin].
    apply elem_of_mjoin_fmap in Hin as (m' & _ & Hin). unfold fine_failed_commitment in Hin.
    destruct (co_stake_of co) as [st|]; [|by apply not_elem_of_nil in Hin].
    destruct (st m' =? 0); [by apply not_elem_of_nil in Hin|]. destruct (_ =? 0); [by apply not_elem_of_nil in Hin|].
    by apply list_elem_of_singleton in Hin.
Qed.

Lemma decide_not_done pin np k bids a o effs :
  decide_attempt co cfg net (q_sql q) (q_job q) (q_hash q) pin np k bids a = inl (ADone o, effs) -> False.
Proof using Type. unfold decide_attempt. intros H. repeat (destruct_if || case_match); congruence. Qed.

(** A verified result is bound to its hash only by the word of the worker that sends it:
    replacing the rows the winner transfers by any other rows changes neither the agreed
    hash, nor the [verified] flag, nor the winner, nor the payment order. *)
Theorem delivered_rows_unchecked (g g' : ProgressTracker) (o : QueryOutcome) (effs : list Effect) (rs : ResultSet) :
  attempt_query co cfg net q ex floor g = (Ok (ADone o), effs, g') ->
  exists o' effs',
    attempt_query co cfg (with_transfer net rs) q ex floor g = (Ok (ADone o'), effs', g')
    /\ qo_result o' = rs /\ qo_agreed_hash o' = qo_agreed_hash o /\ qo_verified o' = qo_verified o /\ qo_winner o' = qo_winner o
    /\ (forall n others h fp m, ESettle n others h fp m ∈ effs -> ESettle n others h fp m ∈ effs').
Proof using Type.
  unfold attempt_query, dispatch_attempt. cbn [with_transfer n_resolve n_candidates].
  change (retain_candidate co cfg (with_transfer net rs)) with (retain_candidate co cfg net).
  change (accepted_bids (with_transfer net rs)) with (accepted_bids net).
  change (eligible_bids co cfg (with_transfer net rs)) with (eligible_bids co cfg net).
  change (scored_bids co cfg (with_transfer net rs)) with (scored_bids co cfg net).
  change (collect_all (with_transfer net rs)) with (collect_all net).
  change (decide_attempt co cfg (with_transfer net rs)) with (decide_attempt co cfg net).
  intros H. destruct (n_resolve net) as [|snap|why|why]; [..|done].
  all: destruct (List.filter _ _) as [|c0 cs0]; [done|].
  all: destruct (eligible_bids _ _ _ _ _ _ _ _ _) as [es blocks].
  all: destruct (Nat.ltb _ _); [done|]. all: destruct (escrow_preflight _ _ _ _ _); [|done].
  all: destruct (collect_all net _ g) as [cs g1].
  all: destruct (decide_attempt _ _ _ _ _ _ _ _ _ _ _) as [[r' e']|[agreed verified]] eqn:Ed.
  1,3,5: exfalso; apply (f_equal (fun x => x.1.1)) in H; cbn [fst] in H; injection H as ->; by apply decide_not_done in Ed.
  all: destruct (conclude _ _ _ _ _ _ _ _ _ _ _ _ _ _) as [r' e'] eqn:Ek; injection H as -> <- <-.
  all: destruct (conclude_any_rows rs _ _ _ _ _ _ _ _ _ Ek) as (o' & effs' & -> & Ho & Ha & Hv & Hw & Hs).
  all: exists o', (blocks ++ effs'); do 5 (split; [done|]).
  all: intros n others h fp m [Hin|Hin]%elem_of_app; apply elem_of_app; [by left|right; by apply Hs].
Qed.
End unchecked.

(** ** Fast mode *)

Section fast.
Context {C : Crypto} {J : EvidenceJson} {L : Libm} {Addr : Type}.
Context (co : Coordinator C) (cfg : GridConfig) (net : Net Addr) (q : Query) (ex : gset NodeId) (floor : Z).

(** Each committed worker gets a receipt with the verdict on its hash. *)
Lemma conclude_receipts pin np bids a agreed verified outcome o effs f :
  conclude co cfg net (q_sql q) (q_job q) (q_hash q) (q_paid q) (q_input_bytes q) pin np bids a agreed verified outcome = (ADone o, effs) ->
  f ∈ inflight a -> i_hash f <> agreed ->
  exists r, EReceipt r ∈ effs /\ r_worker_id r = i_worker f
    /\ r_verdict r = commit_verdict co cfg (q_sql q) (q_hash q) pin np agreed false true f.
Proof using Type.
  unfold conclude. destruct (winner_index agreed (inflight a)) as [i|] eqn:Ei; [|done].
  destruct (winner_index_spec _ _ _ Ei) as (w & Hw & Hh & _). destruct (swap_remove_spec _ _ _ Hw) as (losers & Hs & Hp).
  cbn [mbind option_bind]. rewrite Hs. destruct (n_transfer net (i_worker w)) as [r|] eqn:Er; [|done].
  intros E Hf Hne. apply pair_equal_spec in E as [_ <-]. rewrite <- Hp in Hf. apply elem_of_cons in Hf as [->|Hf]; [done|].
  eexists. split; [|split]; cycle 1.
  - instantiate (1 := ac_receipt (account_commit co cfg net (q_sql q) (q_job q) (q_hash q) pin np agreed verified false true _ f)). done.
  - done.
  - apply elem_of_app. left. apply elem_of_app. right. apply list_elem_of_fmap. eexists. split; [reflexivity|].
    apply elem_of_cons. right. apply elem_of_app. left. apply list_elem_of_fmap. by exists f.
Qed.

(** Some effect holds the provider at fault. *)
Definition faulted (effs : list Effect) (n : NodeId) : Prop := exists e, e ∈ effs /\ blames e = Some n.

(** Fast mode takes the fastest answer as verified as soon as any hash reaches the
    quorum, even a different one: then the fastest worker's hash is returned as the
    verified result and every worker of the quorum gets a fault receipt. *)
Theorem fast_mode_blames_quorum (g g' : ProgressTracker) (o : QueryOutcome) (effs : list Effect) (h hq : bytes) :
  attempt_query co cfg net q ex floor g = (Ok (ADone o), effs, g') ->
  g_verify_mode cfg = Fast -> canary_expected co (q_hash q) = None -> pin_of net = None ->
  non_verifiable co cfg (q_sql q) (q_hash q) (unpinnable net) = false ->
  let commits := inflight (answers_now co cfg net q ex floor g) in
  reaches (i_hash <$> commits) (g_quorum cfg) hq ->
  (forall h', reaches (i_hash <$> commits) (g_quorum cfg) h' -> h' = hq) ->
  fastest_hash commits = Some h -> h <> hq ->
  qo_verified o = true /\ qo_agreed_hash o = Some h
  /\ (forall f, f ∈ commits -> i_hash f = hq -> faulted effs (i_worker f)).
Proof using Type.
  intros H Hm Hc Hpin Hnv commits Hr Hu Hfast Hne.
  apply attempt_inv in H as [(? & ? & _)|[(? & _)|[(? & ? & ? & _)|(effs' & -> & [Hd|(h' & v & Hd & Hk)])]]]; try done.
  { by apply decide_not_done in Hd. }
  unfold decision_now, decide_attempt in Hd. rewrite Hc, Hm, Hnv, Hpin, unpinned_no_drift, andb_false_r in Hd.
  destruct (no_drift (answers_now co cfg net q ex floor g) None (g_quorum cfg) (unpinned_no_drift _ _)) as [Hp _].
  rewrite Hp in Hd. fold commits in Hd. rewrite Hfast in Hd. injection Hd as <- <-.
  assert (reached (evaluate_quorum (i_hash <$> commits) (g_quorum cfg)) = true) as Hrd.
  { unfold reached. destruct (evaluate_quorum_cases (i_hash <$> commits) (g_quorum cfg))
      as [(h1 & h2 & Hn & H1 & H2 & _)|[(h' & _ & _ & _ & -> & _)|(Hn & _)]]; [|done|by destruct (Hn hq)].
    destruct Hn. by rewrite (Hu h1), (Hu h2). }
  rewrite Hrd in Hk. pose proof Hk as Hk'. apply conclude_done in Hk' as (w & losers & r & _ & _ & _ & _ & _ & Ha & Hv & _).
  split; [done|]. split; [done|]. intros f Hf Eh.
  destruct (conclude_receipts _ _ _ _ _ _ _ _ _ f Hk Hf ltac:(congruence)) as (rc & Hin & Hw & Hvd).
  exists (EReceipt rc). split; [apply elem_of_app; by right|]. cbn [blames]. rewrite Hvd, Hw. unfold commit_verdict.
  rewrite Hnv. cbn [andb negb]. rewrite bool_decide_false by congruence. rewrite Hpin. done.
Qed.
End fast.

(** ** Examples *)

(** Five workers: the first two never answer. *)
Definition five_ids : list NodeId := node_id_of <$> [1; 2; 3; 4; 5].
Definition five_nodes (frames : NodeId -> list Frame) : Net Z :=
  mkNet Z NoResolver (fun _ => pinned_candidate <$> [1; 2; 3; 4; 5])
    (fun c => id ← c_node_id c; if bool_decide (id ∈ five_ids) then Some (id, bid_example id) else None)
    (fun _ => frames) (fun _ => Some rs1) (fun _ => 100) 99 1000 1000000.
Definition frames_flaky (w : NodeId) : list Frame :=
  if bool_decide (w ∈ node_id_of <$> [1; 2]) then [] else commits_as (str "right") 20.

(** A network that does not change, and a clock of milliseconds. *)
Definition steady (net : Net Z) (w : Z) : Net Z * Z := (net, w + 1).
Definition tick (w : Z) : Z * Z := (w * 1000000, w + 1).
Definition low_draw (lo hi w : Z) : Z * Z := (lo, w).
Definition sleep_ms (d w : Z) : Z := w + d.

Definition query_on (frames : NodeId -> list Frame) (fuel : nat) :=
  grid_query (C := toy_crypto) (steady (five_nodes frames)) tick low_draw sleep_ms (grid_example Quorum) unlimited_retries query_example fuel ∅
    (mkGridState (coordinator_example None) [] 0).

(** The first attempt stalls on the silent pair; the second is verified. *)
Example flaky_example :
  match query_on frames_flaky 2 with
  | Some (Ok o, _, s) =>
      qo_agreed_hash o = Some (str "right") /\ qo_verified o = true
      /\ qo_participants o = node_id_of <$> [3; 4; 5] /\ omap blames (gs_log s) = []
  | _ => False
  end.
Proof. vm_compute. repeat split; reflexivity. Qed.

Lemma flaky_ends : exists o g s, query_on frames_flaky 2 = Some (Ok o, g, s) /\ qo_verified o = true.
Proof.
  pose proof flaky_example as H. revert H. generalize (query_on frames_flaky 2).
  intros [[[[o|e] g] s]|] H; try contradiction. exists o, g, s. split; [done|apply H].
Qed.

Lemma grid_result_verified_witness : exists o g s,
  query_on frames_flaky 2 = Some (Ok o, g, s) /\ qo_verified o = true /\
  exists co net ex floor g0, occurs (steady (five_nodes frames_flaky)) net
    /\ exists h, qo_agreed_hash o = Some h
       /\ reaches (i_hash <$> inflight (answers_now (C := toy_crypto) co (grid_example Quorum) net query_example ex floor g0)) 2 h.
Proof.
  destruct flaky_ends as (o & g & s & E & Hv). exists o, g, s. refine (conj E (conj Hv _)).
  unfold query_on in E. destruct (grid_result_verified (C := toy_crypto) (steady (five_nodes frames_flaky)) tick low_draw sleep_ms (grid_example Quorum) unlimited_retries query_example 2 ∅ g
    (mkGridState (coordinator_example None) [] 0) s o E eq_refl eq_refl Hv) as (co & net & ex & fl & g0 & Hn & h & w & Ha & _ & Hr & _).
  exists co, net, ex, fl, g0. refine (conj Hn _). exists h. exact (conj Ha Hr).
Defined.

Lemma flaky_commits (net : Net Z) i w g :
  occurs (steady (five_nodes frames_flaky)) net ->
  match (collect_one w (n_frames net i w) g).1 with Committed f => i_hash f = str "right" | Failed _ _ => True | Silent _ => w ∈ node_id_of <$> [1; 2] end.
Proof.
  intros [x <-]. cbn [fst steady five_nodes n_frames]. unfold frames_flaky. destruct (bool_decide_reflect (w ∈ node_id_of <$> [1; 2])) as [Hw|Hw]; cbn [collect_one commits_as fst]; [exact Hw|reflexivity].
Qed.

Lemma honest_provider_never_blamed_witness : exists o g s,
  query_on frames_flaky 2 = Some (Ok o, g, s) /\ forall e, e ∈ gs_log s -> blames e <> Some (node_id_of 4).
Proof.
  destruct flaky_ends as (o & g & s & E & Hv). exists o, g, s. refine (conj E _).
  unfold query_on in E. refine (proj1 (honest_provider_never_blamed (C := toy_crypto) (steady (five_nodes frames_flaky)) tick low_draw sleep_ms (grid_example Quorum) unlimited_retries query_example (str "right") (node_id_of 4) 2 ∅ g
    (mkGridState (coordinator_example None) [] 0) s (Ok o) E eq_refl eq_refl eq_refl eq_refl _ _)).
  - intros net i g0 Hn. pose proof (flaky_commits net i (node_id_of 4) g0 Hn) as H.
    destruct (collect_one _ _ g0) as [[f|? ?|?] ?]; cbn [fst] in *; [done|done|].
    revert H. assert (node_id_of 4 ∉ node_id_of <$> [1; 2]) as Hno by decide_closed. exact Hno.
  - intros co net ex fl g0 h Hn [Hin _]. apply list_elem_of_fmap in Hin as (f & -> & Hf).
    apply elem_of_omap_committed, collect_all_elem in Hf as (i & w & g1 & Ec).
    pose proof (flaky_commits net i w g1 Hn) as H. by rewrite <- Ec in H.
Defined.

Lemma grid_query_returns_witness : exists r, forall fuel,
  (size (list_to_set five_ids : gset NodeId) + size ({[0%Z; 1024%Z]} : gset Z) + 1 <= fuel)%nat ->
  query_on frames_flaky fuel = Some r.
Proof.
  unfold query_on.
  apply (grid_query_returns (C := toy_crypto) (steady (five_nodes frames_flaky)) tick low_draw sleep_ms (grid_example Quorum)
           unlimited_retries query_example (list_to_set five_ids) {[0%Z; 1024%Z]} ∅
           (mkGridState (coordinator_example None) [] 0)).
  - by intros net [x <-].
  - intros net c w b [x <-]. cbn [steady fst five_nodes n_offer]. destruct (c_node_id c) as [id|]; [|done]. cbn [mbind option_bind].
    destruct (bool_decide_reflect (id ∈ five_ids)) as [Hin|]; [|done]. intros E. apply (inj Some), pair_equal_spec in E as [<- <-].
    split; [by apply elem_of_list_to_set|]. cbn [bid_example b_free_mem_bytes]. set_solver.
  - set_solver.
Defined.

(** The winner of the quorum commits the right hash and sends other rows. *)
Lemma delivered_rows_unchecked_witness : exists o' effs' g',
  attempt_query (C := toy_crypto) (coordinator_example None) (grid_example Quorum) (with_transfer (net_example frames_liar) rs2)
    query_example ∅ 0 ∅ = (Ok (ADone o'), effs', g')
  /\ qo_result o' = rs2 /\ qo_verified o' = true.
Proof.
  destruct quorum_example_ends as (o & effs & g & E & Hv & _). unfold attempt_example in E.
  destruct (delivered_rows_unchecked (C := toy_crypto) (coordinator_example None) (grid_example Quorum) (net_example frames_liar)
              query_example ∅ 0 ∅ g o effs rs2 E) as (o' & effs' & E' & Hr & _ & Hv' & _).
  exists o', effs', g. rewrite Hv in Hv'. exact (conj E' (conj Hr Hv')).
Defined.

Lemma fast_example_ends : exists o effs g, attempt_example Fast = (Ok (ADone o), effs, g).
Proof.
  pose proof fast_mode_example as H. revert H. generalize (attempt_example Fast).
  intros [[[[o|l|w|l c w|m n|w| |m n]|e] effs] g] H; try contradiction. by exists o, effs, g.
Qed.

Lemma fast_mode_blames_quorum_witness : exists o effs g,
  attempt_example Fast = (Ok (ADone o), effs, g) /\ qo_verified o = true /\ qo_agreed_hash o = Some (str "wrong")
  /\ faulted effs (node_id_of 1).
Proof.
  destruct fast_example_ends as (o & effs & g & E). exists o, effs, g. refine (conj E _). unfold attempt_example in E.
  set (commits := inflight (answers_now (C := toy_crypto) (coordinator_example None) (grid_example Fast) (net_example frames_liar)
                              query_example ∅ 0 ∅)).
  assert (commits = [mkInFlight (node_id_of 1) (str "right") 20 []; mkInFlight (node_id_of 2) (str "right") 20 [];
                     mkInFlight (node_id_of 3) (str "wrong") 5 []]) as Ec by (vm_compute; reflexivity).
  destruct (fast_mode_blames_quorum (C := toy_crypto) (coordinator_example None) (grid_example Fast) (net_example frames_liar)
              query_example ∅ 0 ∅ g o effs (str "wrong") (str "right") E eq_refl eq_refl eq_refl) as (Hv & Ha & Hb).
  - vm_compute. reflexivity.
  - fold commits. rewrite Ec. decide_closed.
  - fold commits. rewrite Ec. intros h' [Hin Hq]. cbn [fmap list_fmap i_hash] in *.
    apply elem_of_cons in Hin as [->|Hin]; [done|]. apply elem_of_cons in Hin as [->|Hin]; [done|].
    apply list_elem_of_singleton in Hin as ->. exfalso. revert Hq. vm_compute. lia.
  - fold commits. rewrite Ec. vm_compute. reflexivity.
  - decide_closed.
  - refine (conj Hv (conj Ha _)). apply (Hb (mkInFlight (node_id_of 1) (str "right") 20 [])); [|done]. fold commits. rewrite Ec. by left.
Defined.

(** One host, reached through two addresses that pin no identity, fills both replica
    slots and is its own quorum, although the deny list names it. *)
Definition twice : Net Z :=
  mkNet Z NoResolver (fun _ => [new_candidate None 1; new_candidate None 2])
    (fun _ => Some (node_id_of 9, bid_example (node_id_of 9)))
    (fun _ _ => commits_as (str "mine") 5) (fun _ => Some rs1) (fun _ => 100) 99 1000 1000000.
Example one_host_is_a_quorum :
  let deny := block blocklist_new (node_id_of 9) KNodeId (str "flagged") (str "operator") 0 in
  match attempt_query (C := toy_crypto) (coordinator_example (Some deny)) (grid_example Quorum) twice query_example ∅ 0 ∅ with
  | (Ok (ADone o), _, _) =>
      is_blocked deny (node_id_of 9) = true /\ qo_verified o = true /\ qo_participants o = [node_id_of 9; node_id_of 9]
  | _ => False
  end.
Proof. vm_compute. repeat split; reflexivity. Qed.
