(* ===== verification/ConfigData.v ===== *)
(** * The configuration records (crates/config: lib.rs, economics.rs, antiabuse.rs)

    Every struct and enum of the configuration with its [Default], field by field, in
    the source's order.  Enum constructors and fields carry a prefix for their type
    (the Rust types reuse names such as [enabled] and [Public]).  Integers are [Z]
    (their widths are those of the struct; [Config] says where they matter), strings
    are their bytes, a [BTreeMap] is its list of entries in key order.

    Functional record update: [r <| field := v |>] is Rust's [r.field = v]. *)

From S2P Require Import Prelude Bytes F64 Text Proto.

(** ** Record update *)

(** [eta r] is [r] rebuilt from its fields, in constructor form. *)
Class Eta (R : Type) := eta : R -> R.
(** [update f r] applies [f] to the field [p] of [r]; the instance is computed from
    the constructor form. *)
Class Field {R A : Type} (p : R -> A) := update : (A -> A) -> R -> R.
Arguments update {R A} p {_} f r.

Ltac derive_field p :=
  let f := fresh "f" in let r := fresh "r" in
  intros f r;
  let t := eval hnf in (eta r) in
  match t with
  | context ctx [p r] => let t' := context ctx [f (p r)] in exact t'
  end.
#[global] Hint Extern 1 (Field ?p) => unfold Field; derive_field p : typeclass_instances.

Notation "r '<|' p ':=' v '|>'" := (update p (fun _ => v) r)
  (at level 1, left associativity, p at level 0, v at level 200) : duckton_scope.
#[local] Open Scope duckton_scope.

(** ** Structs and defaults *)

Record ProtocolConfig := mkProtocolConfig {
  pc_version : bytes;
  pc_min_supported_version : bytes;
  pc_require_matching_engine_version : bool;
}.
#[export] Instance ProtocolConfig_eta : Eta ProtocolConfig := fun r =>
  mkProtocolConfig (pc_version r) (pc_min_supported_version r) (pc_require_matching_engine_version r).
Definition default_ProtocolConfig : ProtocolConfig :=
  mkProtocolConfig (version_to_string PROTOCOL_VERSION) (version_to_string MIN_SUPPORTED_VERSION) false.

Record NetworkConfig := mkNetworkConfig {
  net_bind_addr : bytes;
  net_advertised_addr : option bytes;
  net_idle_timeout_ms : Z;
  net_connect_timeout_ms : Z;
  net_keepalive_ms : Z;
  net_max_concurrent_bidi_streams : Z;
  net_stream_receive_window : Z;
  net_receive_window : Z;
  net_result_chunk_bytes : Z;
}.
#[export] Instance NetworkConfig_eta : Eta NetworkConfig := fun r =>
  mkNetworkConfig (net_bind_addr r) (net_advertised_addr r) (net_idle_timeout_ms r) (net_connect_timeout_ms r)
    (net_keepalive_ms r) (net_max_concurrent_bidi_streams r) (net_stream_receive_window r) (net_receive_window r)
    (net_result_chunk_bytes r) .
Definition default_NetworkConfig : NetworkConfig :=
  mkNetworkConfig (str "127.0.0.1:0") None 30000 10000 10000 256 (8 * 1024 * 1024) (64 * 1024 * 1024) (256 * 1024).

Inductive CongestionAlgo := Bbr | Cubic | NewReno.
#[global] Instance CongestionAlgo_eq_dec : EqDecision CongestionAlgo.
Proof. solve_decision. Defined.

Record BdpConfig := mkBdpConfig {
  bdp_enabled : bool;
  bdp_bandwidth_mbps : Z;
  bdp_rtt_ms : Z;
}.
#[export] Instance BdpConfig_eta : Eta BdpConfig := fun r =>
  mkBdpConfig (bdp_enabled r) (bdp_bandwidth_mbps r) (bdp_rtt_ms r).
Definition default_BdpConfig : BdpConfig :=
  mkBdpConfig false 1000 50.

Record QuicTuningConfig := mkQuicTuningConfig {
  quic_gso : bool;
  quic_gro : bool;
  quic_congestion : CongestionAlgo;
  quic_pacing : bool;
  quic_stream_receive_window_bytes : option Z;
  quic_connection_receive_window_bytes : option Z;
  quic_send_window_bytes : Z;
  quic_max_concurrent_uni_streams : Z;
  quic_enable_0rtt : bool;
  quic_session_ticket_lifetime_secs : Z;
  quic_bdp : BdpConfig;
}.
#[export] Instance QuicTuningConfig_eta : Eta QuicTuningConfig := fun r =>
  mkQuicTuningConfig (quic_gso r) (quic_gro r) (quic_congestion r) (quic_pacing r)
    (quic_stream_receive_window_bytes r) (quic_connection_receive_window_bytes r) (quic_send_window_bytes r)
    (quic_max_concurrent_uni_streams r) (quic_enable_0rtt r) (quic_session_ticket_lifetime_secs r) (quic_bdp r) .
Definition default_QuicTuningConfig : QuicTuningConfig :=
  mkQuicTuningConfig true true Cubic true None None (64 * 1024 * 1024) 256 false (12 * 3600) default_BdpConfig.

Record ResultTransferConfig := mkResultTransferConfig {
  rt_parallelism : Z;
  rt_chunk_bytes : option Z;
  rt_parallel_min_bytes : Z;
  rt_max_result_bytes : Z;
  rt_max_result_parts : Z;
}.
#[export] Instance ResultTransferConfig_eta : Eta ResultTransferConfig := fun r =>
  mkResultTransferConfig (rt_parallelism r) (rt_chunk_bytes r) (rt_parallel_min_bytes r) (rt_max_result_bytes r)
    (rt_max_result_parts r) .
Definition default_ResultTransferConfig : ResultTransferConfig :=
  mkResultTransferConfig 1 None (1024 * 1024) (2 * 1024 * 1024 * 1024) 1024.

Inductive CompressionAlgo := AlgoNone | AlgoLz4 | AlgoZstd.
#[global] Instance CompressionAlgo_eq_dec : EqDecision CompressionAlgo.
Proof. solve_decision. Defined.

Record CompressionConfig := mkCompressionConfig {
  cmp_algorithm : CompressionAlgo;
  cmp_level : Z;
  cmp_min_size_bytes : Z;
}.
#[export] Instance CompressionConfig_eta : Eta CompressionConfig := fun r =>
  mkCompressionConfig (cmp_algorithm r) (cmp_level r) (cmp_min_size_bytes r).
Definition default_CompressionConfig : CompressionConfig :=
  mkCompressionConfig AlgoNone 3 (64 * 1024).

Record TransportConfig := mkTransportConfig {
  tr_quic : QuicTuningConfig;
  tr_result : ResultTransferConfig;
  tr_compression : CompressionConfig;
}.
#[export] Instance TransportConfig_eta : Eta TransportConfig := fun r =>
  mkTransportConfig (tr_quic r) (tr_result r) (tr_compression r).
Definition default_TransportConfig : TransportConfig :=
  mkTransportConfig default_QuicTuningConfig default_ResultTransferConfig default_CompressionConfig.

Inductive PinningMode := Tofu | Allowlist.
#[global] Instance PinningMode_eq_dec : EqDecision PinningMode.
Proof. solve_decision. Defined.

Record IdentityConfig := mkIdentityConfig {
  idc_key_path : option bytes;
  idc_pinning_mode : PinningMode;
  idc_allowlist : list bytes;
}.
#[export] Instance IdentityConfig_eta : Eta IdentityConfig := fun r =>
  mkIdentityConfig (idc_key_path r) (idc_pinning_mode r) (idc_allowlist r).
Definition default_IdentityConfig : IdentityConfig :=
  mkIdentityConfig None Tofu [].

Inductive SecurityMode := ModePublic | ModePrivate.
#[global] Instance SecurityMode_eq_dec : EqDecision SecurityMode.
Proof. solve_decision. Defined.
Definition default_SecurityMode : SecurityMode := ModePublic.

Record SecurityConfig := mkSecurityConfig {
  sec_mode : SecurityMode;
}.
#[export] Instance SecurityConfig_eta : Eta SecurityConfig := fun r =>
  mkSecurityConfig (sec_mode r).
Definition default_SecurityConfig : SecurityConfig :=
  mkSecurityConfig default_SecurityMode.

Inductive DiscoveryMode := DiscoverStatic | DiscoverKademlia.
#[global] Instance DiscoveryMode_eq_dec : EqDecision DiscoveryMode.
Proof. solve_decision. Defined.

Record KademliaConfig := mkKademliaConfig {
  kad_replication_factor : Z;
  kad_query_parallelism : Z;
  kad_record_ttl_secs : Z;
}.
#[export] Instance KademliaConfig_eta : Eta KademliaConfig := fun r =>
  mkKademliaConfig (kad_replication_factor r) (kad_query_parallelism r) (kad_record_ttl_secs r).
Definition default_KademliaConfig : KademliaConfig :=
  mkKademliaConfig 20 3 3600.

Record GossipConfig := mkGossipConfig {
  gos_topic : bytes;
  gos_heartbeat_ms : Z;
  gos_fanout : Z;
  gos_capability_ttl_secs : Z;
}.
#[export] Instance GossipConfig_eta : Eta GossipConfig := fun r =>
  mkGossipConfig (gos_topic r) (gos_heartbeat_ms r) (gos_fanout r) (gos_capability_ttl_secs r).
Definition default_GossipConfig : GossipConfig :=
  mkGossipConfig (str "duckdb-p2p/caps/1") 5000 6 30.

Record RelayLimitsConfig := mkRelayLimitsConfig {
  rl_max_reservations : Z;
  rl_max_reservations_per_peer : Z;
  rl_reservation_duration_secs : Z;
  rl_max_circuits : Z;
  rl_max_circuits_per_peer : Z;
  rl_max_circuit_duration_secs : Z;
  rl_max_circuit_bytes : Z;
}.
#[export] Instance RelayLimitsConfig_eta : Eta RelayLimitsConfig := fun r =>
  mkRelayLimitsConfig (rl_max_reservations r) (rl_max_reservations_per_peer r) (rl_reservation_duration_secs r)
    (rl_max_circuits r) (rl_max_circuits_per_peer r) (rl_max_circuit_duration_secs r) (rl_max_circuit_bytes r) .
Definition default_RelayLimitsConfig : RelayLimitsConfig :=
  mkRelayLimitsConfig 128 4 (60 * 60) 16 4 (2 * 60) (2 ^ 17).

Record NatConfig := mkNatConfig {
  nat_autonat : bool;
  nat_dcutr : bool;
  nat_relay_client : bool;
  nat_act_as_relay : bool;
  nat_mdns : bool;
  nat_mdns_query_interval_secs : Z;
  nat_external_addresses : list bytes;
  nat_relays : list bytes;
  nat_max_relays : Z;
  nat_relay_limits : RelayLimitsConfig;
}.
#[export] Instance NatConfig_eta : Eta NatConfig := fun r =>
  mkNatConfig (nat_autonat r) (nat_dcutr r) (nat_relay_client r) (nat_act_as_relay r) (nat_mdns r)
    (nat_mdns_query_interval_secs r) (nat_external_addresses r) (nat_relays r) (nat_max_relays r)
    (nat_relay_limits r) .
Definition default_NatConfig : NatConfig :=
  mkNatConfig true true true false true 300 [] [] 3 default_RelayLimitsConfig.

Record DiscoveryConfig := mkDiscoveryConfig {
  disc_mode : DiscoveryMode;
  disc_bootstrap : list bytes;
  disc_listen_addrs : list bytes;
  disc_candidate_sample_size : Z;
  disc_kademlia : KademliaConfig;
  disc_gossip : GossipConfig;
  disc_nat : NatConfig;
  disc_key_path : option bytes;
}.
#[export] Instance DiscoveryConfig_eta : Eta DiscoveryConfig := fun r =>
  mkDiscoveryConfig (disc_mode r) (disc_bootstrap r) (disc_listen_addrs r) (disc_candidate_sample_size r)
    (disc_kademlia r) (disc_gossip r) (disc_nat r) (disc_key_path r) .
Definition default_DiscoveryConfig : DiscoveryConfig :=
  mkDiscoveryConfig DiscoverStatic [] [] 16 default_KademliaConfig default_GossipConfig default_NatConfig None.

Inductive VerifyModeCfg := VerifyFast | VerifyQuorum.
#[global] Instance VerifyModeCfg_eq_dec : EqDecision VerifyModeCfg.
Proof. solve_decision. Defined.

Record SchedulerConfig := mkSchedulerConfig {
  sch_replicas : Z;
  sch_quorum : Z;
  sch_verify_mode : VerifyModeCfg;
  sch_offer_timeout_ms : Z;
  sch_dispatch_timeout_ms : Z;
  sch_attempt_deadline_ms : Z;
  sch_max_retries : Z;
  sch_max_total_duration_ms : Z;
  sch_backoff_initial_ms : Z;
  sch_backoff_max_ms : Z;
  sch_backoff_jitter_frac : f64;
  sch_retry_budget_max_tokens : f64;
  sch_retry_budget_refill_per_sec : f64;
  sch_progress_interval_ms : Z;
  sch_progress_stall_multiplier : Z;
  sch_max_inflight_jobs : Z;
  sch_require_staked_hosts : bool;
}.
#[export] Instance SchedulerConfig_eta : Eta SchedulerConfig := fun r =>
  mkSchedulerConfig (sch_replicas r) (sch_quorum r) (sch_verify_mode r) (sch_offer_timeout_ms r)
    (sch_dispatch_timeout_ms r) (sch_attempt_deadline_ms r) (sch_max_retries r) (sch_max_total_duration_ms r)
    (sch_backoff_initial_ms r) (sch_backoff_max_ms r) (sch_backoff_jitter_frac r) (sch_retry_budget_max_tokens r)
    (sch_retry_budget_refill_per_sec r) (sch_progress_interval_ms r) (sch_progress_stall_multiplier r)
    (sch_max_inflight_jobs r) (sch_require_staked_hosts r) .
Definition default_SchedulerConfig : SchedulerConfig :=
  mkSchedulerConfig 3 2 VerifyQuorum 2000 30000 60000 0 0 200 5000 (lit 5 10) (f64_of_Z 32) (f64_of_Z 4) 2000 5 64
    false.

Record WorkerConfig := mkWorkerConfig {
  wrk_job_timeout_ms : Z;
  wrk_progress_interval_ms : Z;
  wrk_self_measure_capability : bool;
  wrk_enabled : bool;
}.
#[export] Instance WorkerConfig_eta : Eta WorkerConfig := fun r =>
  mkWorkerConfig (wrk_job_timeout_ms r) (wrk_progress_interval_ms r) (wrk_self_measure_capability r) (wrk_enabled r).
Definition default_WorkerConfig : WorkerConfig :=
  mkWorkerConfig 60000 2000 false true.

Inductive GroupEnforcement := EnforceSoft | EnforceToken.
#[global] Instance GroupEnforcement_eq_dec : EqDecision GroupEnforcement.
Proof. solve_decision. Defined.
Definition default_GroupEnforcement : GroupEnforcement := EnforceSoft.

Inductive RegionTrust := RegionDeclared | RegionAttested.
#[global] Instance RegionTrust_eq_dec : EqDecision RegionTrust.
Proof. solve_decision. Defined.
Definition default_RegionTrust : RegionTrust := RegionDeclared.

Record MembershipConfig := mkMembershipConfig {
  mem_networks : list bytes;
  mem_groups : list bytes;
  mem_region : option bytes;
  mem_group_enforcement : GroupEnforcement;
  mem_region_trust : RegionTrust;
  mem_group_issuers : list (bytes * bytes);
  mem_region_issuers : list (bytes * bytes);
  mem_group_token : option bytes;
  mem_region_token : option bytes;
}.
#[export] Instance MembershipConfig_eta : Eta MembershipConfig := fun r =>
  mkMembershipConfig (mem_networks r) (mem_groups r) (mem_region r) (mem_group_enforcement r) (mem_region_trust r)
    (mem_group_issuers r) (mem_region_issuers r) (mem_group_token r) (mem_region_token r) .
Definition default_MembershipConfig : MembershipConfig :=
  mkMembershipConfig [(str "default")] [] None EnforceSoft RegionDeclared [] [] None None.

Record PhiAccrualConfig := mkPhiAccrualConfig {
  phi_enabled : bool;
  phi_convict_threshold : f64;
  phi_window_size : Z;
  phi_min_std_ms : f64;
  phi_acceptable_pause_ms : f64;
  phi_first_interval_ms : f64;
}.
#[export] Instance PhiAccrualConfig_eta : Eta PhiAccrualConfig := fun r =>
  mkPhiAccrualConfig (phi_enabled r) (phi_convict_threshold r) (phi_window_size r) (phi_min_std_ms r)
    (phi_acceptable_pause_ms r) (phi_first_interval_ms r) .
Definition default_PhiAccrualConfig : PhiAccrualConfig :=
  mkPhiAccrualConfig true (f64_of_Z 8) 100 (f64_of_Z 50) (f64_of_Z 0) (f64_of_Z 5000).

Record SwimConfig := mkSwimConfig {
  swim_enabled : bool;
  swim_indirect_probe_count : Z;
  swim_probe_timeout_ms : Z;
  swim_indirect_probe_timeout_ms : Z;
}.
#[export] Instance SwimConfig_eta : Eta SwimConfig := fun r =>
  mkSwimConfig (swim_enabled r) (swim_indirect_probe_count r) (swim_probe_timeout_ms r)
    (swim_indirect_probe_timeout_ms r) .
Definition default_SwimConfig : SwimConfig :=
  mkSwimConfig true 3 1000 2000.

Record LivenessConfig := mkLivenessConfig {
  lv_phi : PhiAccrualConfig;
  lv_swim : SwimConfig;
}.
#[export] Instance LivenessConfig_eta : Eta LivenessConfig := fun r =>
  mkLivenessConfig (lv_phi r) (lv_swim r).
Definition default_LivenessConfig : LivenessConfig :=
  mkLivenessConfig default_PhiAccrualConfig default_SwimConfig.

Inductive DataClassCfg := ClassPublic | ClassInternal | ClassSensitive.
#[global] Instance DataClassCfg_eq_dec : EqDecision DataClassCfg.
Proof. solve_decision. Defined.

Record BudgetConfig := mkBudgetConfig {
  bud_memory_bytes : Z;
  bud_threads : Z;
  bud_max_jobs : Z;
  bud_per_job_memory_bytes : Z;
  bud_per_job_threads : Z;
  bud_max_spill_bytes : Z;
  bud_local_reserved_fraction : f64;
  bud_data_classes : list DataClassCfg;
}.
#[export] Instance BudgetConfig_eta : Eta BudgetConfig := fun r =>
  mkBudgetConfig (bud_memory_bytes r) (bud_threads r) (bud_max_jobs r) (bud_per_job_memory_bytes r)
    (bud_per_job_threads r) (bud_max_spill_bytes r) (bud_local_reserved_fraction r) (bud_data_classes r) .
Definition default_BudgetConfig : BudgetConfig :=
  mkBudgetConfig (4 * 1024 * 1024 * 1024) 2 3 (1024 * 1024 * 1024) 1 0 (lit 1 10) [ClassPublic].

Record ReputationWeights := mkReputationWeights {
  rw_alpha_reputation : f64;
  rw_beta_age : f64;
  rw_gamma_voucher : f64;
  rw_delta_stake : f64;
}.
#[export] Instance ReputationWeights_eta : Eta ReputationWeights := fun r =>
  mkReputationWeights (rw_alpha_reputation r) (rw_beta_age r) (rw_gamma_voucher r) (rw_delta_stake r).
Definition default_ReputationWeights : ReputationWeights :=
  mkReputationWeights (lit 7 10) (lit 1 10) (lit 1 10) (lit 1 10).

Record TrustConfig := mkTrustConfig {
  tru_min_trust : f64;
  tru_min_attestation : bytes;
  tru_reputation_half_life_secs : Z;
  tru_weights : ReputationWeights;
  tru_canary_rate : f64;
  tru_incorrect_penalty : f64;
  tru_bootstrap_trust : f64;
  tru_store_path : option bytes;
}.
#[export] Instance TrustConfig_eta : Eta TrustConfig := fun r =>
  mkTrustConfig (tru_min_trust r) (tru_min_attestation r) (tru_reputation_half_life_secs r) (tru_weights r)
    (tru_canary_rate r) (tru_incorrect_penalty r) (tru_bootstrap_trust r) (tru_store_path r) .
Definition default_TrustConfig : TrustConfig :=
  mkTrustConfig (lit 7 10) (str "L0") (7 * 24 * 3600) default_ReputationWeights (lit 5 100) (lit 5 10) (lit 1 10)
    None.

Record SybilConfig := mkSybilConfig {
  syb_pow_difficulty_bits : Z;
  syb_min_stake : Z;
  syb_vouch_weight : f64;
}.
#[export] Instance SybilConfig_eta : Eta SybilConfig := fun r =>
  mkSybilConfig (syb_pow_difficulty_bits r) (syb_min_stake r) (syb_vouch_weight r).
Definition default_SybilConfig : SybilConfig :=
  mkSybilConfig 16 0 (lit 5 100).

Inductive CredentialMode := Presigned | ScopedSecret | Sealed.
#[global] Instance CredentialMode_eq_dec : EqDecision CredentialMode.
Proof. solve_decision. Defined.
Definition default_CredentialMode : CredentialMode := Presigned.

Record StorageConfig := mkStorageConfig {
  sto_provider : bytes;
  sto_credential_mode : CredentialMode;
  sto_endpoint : option bytes;
  sto_region : option bytes;
  sto_url_style : option bytes;
  sto_use_ssl : option bool;
  sto_credential_ttl_secs : Z;
  sto_key_ttl_secs : Z;
  sto_enable_remote_access : bool;
  sto_temp_file_encryption : bool;
  sto_require_extensions : bool;
  sto_preload_extensions : list bytes;
  sto_enabled_formats : list bytes;
  sto_enabled_providers : list bytes;
  sto_allowed_local_paths : list bytes;
  sto_provider_options : list (bytes * (list (bytes * bytes)));
  sto_format_options : list (bytes * (list (bytes * bytes)));
}.
#[export] Instance StorageConfig_eta : Eta StorageConfig := fun r =>
  mkStorageConfig (sto_provider r) (sto_credential_mode r) (sto_endpoint r) (sto_region r) (sto_url_style r)
    (sto_use_ssl r) (sto_credential_ttl_secs r) (sto_key_ttl_secs r) (sto_enable_remote_access r)
    (sto_temp_file_encryption r) (sto_require_extensions r) (sto_preload_extensions r) (sto_enabled_formats r)
    (sto_enabled_providers r) (sto_allowed_local_paths r) (sto_provider_options r) (sto_format_options r) .
Definition default_StorageConfig : StorageConfig :=
  mkStorageConfig (str "local-fake") default_CredentialMode None None None None 900 900 false true true []
    [(str "csv"); (str "json"); (str "parquet")] [(str "local-fake")] [] [] [] .

Inductive PreferMode := PreferLocal | PreferRemote | PreferAuto.
#[global] Instance PreferMode_eq_dec : EqDecision PreferMode.
Proof. solve_decision. Defined.

Record PlannerConfig := mkPlannerConfig {
  pl_enabled : bool;
  pl_local_execution_enabled : bool;
  pl_prefer : PreferMode;
  pl_ram_fraction : f64;
  pl_max_concurrent_local_jobs : Z;
  pl_size_threshold_bytes : Z;
  pl_spill_tolerance_bytes : Z;
  pl_max_local_latency_ms : Z;
}.
#[export] Instance PlannerConfig_eta : Eta PlannerConfig := fun r =>
  mkPlannerConfig (pl_enabled r) (pl_local_execution_enabled r) (pl_prefer r) (pl_ram_fraction r)
    (pl_max_concurrent_local_jobs r) (pl_size_threshold_bytes r) (pl_spill_tolerance_bytes r)
    (pl_max_local_latency_ms r) .
Definition default_PlannerConfig : PlannerConfig :=
  mkPlannerConfig true true PreferAuto (lit 6 10) 4 (256 * 1024 * 1024) (512 * 1024 * 1024) 10000.

Inductive SettlementRail := RailNoop | RailChannel | RailOnchain | RailMock.
#[global] Instance SettlementRail_eq_dec : EqDecision SettlementRail.
Proof. solve_decision. Defined.

Inductive TonNetwork := Testnet | Mainnet.
#[global] Instance TonNetwork_eq_dec : EqDecision TonNetwork.
Proof. solve_decision. Defined.
Definition default_TonNetwork : TonNetwork := Testnet.

Inductive PaymentPref := PrefFree | PrefPaid | PrefAuto.
#[global] Instance PaymentPref_eq_dec : EqDecision PaymentPref.
Proof. solve_decision. Defined.

Record StakeEconomics := mkStakeEconomics {
  stk_min_stake : Z;
  stk_min_stake_internal : Z;
  stk_min_stake_sensitive : Z;
  stk_stake_cap : Z;
  stk_unbonding_secs : Z;
  stk_receipt_jetton : bool;
  stk_receipt_transfer_locked : bool;
}.
#[export] Instance StakeEconomics_eta : Eta StakeEconomics := fun r =>
  mkStakeEconomics (stk_min_stake r) (stk_min_stake_internal r) (stk_min_stake_sensitive r) (stk_stake_cap r)
    (stk_unbonding_secs r) (stk_receipt_jetton r) (stk_receipt_transfer_locked r) .
Definition default_StakeEconomics : StakeEconomics :=
  mkStakeEconomics 0 100 1000 100000 604800 true true.

Record RankingEconomics := mkRankingEconomics {
  rk_w_quality : f64;
  rk_w_stake : f64;
  rk_w_price : f64;
  rk_w_latency : f64;
  rk_w_throughput : f64;
  rk_exploration_rate : f64;
  rk_exploration_saturation : Z;
  rk_capability_weight : f64;
  rk_newcomer_trust_ceiling : f64;
  rk_newcomer_obs_threshold : Z;
  rk_stake_reliability_floor : f64;
}.
#[export] Instance RankingEconomics_eta : Eta RankingEconomics := fun r =>
  mkRankingEconomics (rk_w_quality r) (rk_w_stake r) (rk_w_price r) (rk_w_latency r) (rk_w_throughput r)
    (rk_exploration_rate r) (rk_exploration_saturation r) (rk_capability_weight r) (rk_newcomer_trust_ceiling r)
    (rk_newcomer_obs_threshold r) (rk_stake_reliability_floor r) .
Definition default_RankingEconomics : RankingEconomics :=
  mkRankingEconomics (lit 6 10) (lit 3 10) (lit 25 100) (lit 15 100) (lit 15 100) (f64_of_Z 0) 20 (lit 1 10)
    (f64_of_Z 1) 20 (lit 5 10) .

Record QualityEconomics := mkQualityEconomics {
  qe_w_success : f64;
  qe_w_latency : f64;
  qe_w_throughput : f64;
  qe_w_completion : f64;
  qe_latency_ref_ms : Z;
  qe_bytes_ref : Z;
  qe_throughput_ref_bytes_per_ms : Z;
}.
#[export] Instance QualityEconomics_eta : Eta QualityEconomics := fun r =>
  mkQualityEconomics (qe_w_success r) (qe_w_latency r) (qe_w_throughput r) (qe_w_completion r)
    (qe_latency_ref_ms r) (qe_bytes_ref r) (qe_throughput_ref_bytes_per_ms r) .
Definition default_QualityEconomics : QualityEconomics :=
  mkQualityEconomics (lit 5 10) (lit 2 10) (lit 2 10) (lit 1 10) 5000 1073741824 0.

Record ReputationEconomics := mkReputationEconomics {
  re_prior_alpha : f64;
  re_prior_beta : f64;
  re_confidence_z : f64;
}.
#[export] Instance ReputationEconomics_eta : Eta ReputationEconomics := fun r =>
  mkReputationEconomics (re_prior_alpha r) (re_prior_beta r) (re_confidence_z r).
Definition default_ReputationEconomics : ReputationEconomics :=
  mkReputationEconomics (f64_of_Z 1) (f64_of_Z 2) (lit 196 100).

Record SelectionEconomics := mkSelectionEconomics {
  sel_n_public : Z;
  sel_n_default : Z;
  sel_n_max : Z;
  sel_requester_overridable : bool;
  sel_checksum_min : Z;
  sel_checksum_allow_degraded : bool;
}.
#[export] Instance SelectionEconomics_eta : Eta SelectionEconomics := fun r =>
  mkSelectionEconomics (sel_n_public r) (sel_n_default r) (sel_n_max r) (sel_requester_overridable r)
    (sel_checksum_min r) (sel_checksum_allow_degraded r) .
Definition default_SelectionEconomics : SelectionEconomics :=
  mkSelectionEconomics 3 5 10 true 3 true.

Record FeesEconomics := mkFeesEconomics {
  fee_platform_fee_pct : f64;
  fee_verification_surcharge_pct : f64;
  fee_participation_commission_frac : f64;
  fee_bonus_aggressiveness : f64;
  fee_lambda_quality : f64;
  fee_lambda_speed : f64;
}.
#[export] Instance FeesEconomics_eta : Eta FeesEconomics := fun r =>
  mkFeesEconomics (fee_platform_fee_pct r) (fee_verification_surcharge_pct r) (fee_participation_commission_frac r)
    (fee_bonus_aggressiveness r) (fee_lambda_quality r) (fee_lambda_speed r) .
Definition default_FeesEconomics : FeesEconomics :=
  mkFeesEconomics (lit 15 100) (lit 5 100) (lit 5 100) (lit 5 10) (lit 5 10) (lit 5 10).

Record SlashingEconomics := mkSlashingEconomics {
  sl_slash_wrong_result_pct : f64;
  sl_slash_cheat_pct : f64;
  sl_slash_downtime_pct : f64;
  sl_slash_equivocation_pct : f64;
  sl_slash_failed_commitment_pct : f64;
  sl_challenge_window_secs : Z;
  sl_slash_to_challenger : f64;
  sl_slash_to_redundancy : f64;
  sl_slash_to_burn : f64;
  sl_slash_to_treasury : f64;
}.
#[export] Instance SlashingEconomics_eta : Eta SlashingEconomics := fun r =>
  mkSlashingEconomics (sl_slash_wrong_result_pct r) (sl_slash_cheat_pct r) (sl_slash_downtime_pct r)
    (sl_slash_equivocation_pct r) (sl_slash_failed_commitment_pct r) (sl_challenge_window_secs r)
    (sl_slash_to_challenger r) (sl_slash_to_redundancy r) (sl_slash_to_burn r) (sl_slash_to_treasury r) .
Definition default_SlashingEconomics : SlashingEconomics :=
  mkSlashingEconomics (lit 15 100) (f64_of_Z 1) (lit 2 100) (lit 5 10) (lit 1 10) 86400 (lit 4 10) (lit 3 10)
    (lit 2 10) (lit 1 10) .

Record RecordsEconomics := mkRecordsEconomics {
  rec_epoch_secs : Z;
  rec_anchor_quorum_pct : f64;
}.
#[export] Instance RecordsEconomics_eta : Eta RecordsEconomics := fun r =>
  mkRecordsEconomics (rec_epoch_secs r) (rec_anchor_quorum_pct r).
Definition default_RecordsEconomics : RecordsEconomics :=
  mkRecordsEconomics 60 (lit 66 100).

Inductive PricingModel := Metered | Fixed.
#[global] Instance PricingModel_eq_dec : EqDecision PricingModel.
Proof. solve_decision. Defined.
Definition default_PricingModel : PricingModel := Metered.

Record PricingEconomics := mkPricingEconomics {
  pr_model : PricingModel;
  pr_unit_price : Z;
  pr_max_bid : Z;
  pr_rate_per_second : Z;
  pr_rate_per_gb : Z;
  pr_cap_multiplier : Z;
  pr_metering_tolerance : f64;
}.
#[export] Instance PricingEconomics_eta : Eta PricingEconomics := fun r =>
  mkPricingEconomics (pr_model r) (pr_unit_price r) (pr_max_bid r) (pr_rate_per_second r) (pr_rate_per_gb r)
    (pr_cap_multiplier r) (pr_metering_tolerance r) .
Definition default_PricingEconomics : PricingEconomics :=
  mkPricingEconomics default_PricingModel 0 0 0 0 5 (lit 15 10).

Record ContractsConfig := mkContractsConfig {
  con_stake_vault : option bytes;
  con_job_escrow : option bytes;
  con_record_anchor : option bytes;
  con_global_params : option bytes;
}.
#[export] Instance ContractsConfig_eta : Eta ContractsConfig := fun r =>
  mkContractsConfig (con_stake_vault r) (con_job_escrow r) (con_record_anchor r) (con_global_params r).
Definition default_ContractsConfig : ContractsConfig :=
  mkContractsConfig None None None None.

Record WalletConfig := mkWalletConfig {
  wal_address : option bytes;
  wal_mnemonic_file : option bytes;
}.
#[export] Instance WalletConfig_eta : Eta WalletConfig := fun r =>
  mkWalletConfig (wal_address r) (wal_mnemonic_file r).
Definition default_WalletConfig : WalletConfig :=
  mkWalletConfig None None.

Record NetworkSettings := mkNetworkSettings {
  ns_rpc : option bytes;
  ns_explorer : option bytes;
  ns_api_key_file : option bytes;
  ns_contracts : ContractsConfig;
  ns_wallet : WalletConfig;
}.
#[export] Instance NetworkSettings_eta : Eta NetworkSettings := fun r =>
  mkNetworkSettings (ns_rpc r) (ns_explorer r) (ns_api_key_file r) (ns_contracts r) (ns_wallet r).
Definition default_NetworkSettings : NetworkSettings :=
  mkNetworkSettings None None None default_ContractsConfig default_WalletConfig.

Record EconomicsConfig := mkEconomicsConfig {
  ec_enabled : bool;
  ec_settlement : SettlementRail;
  ec_custody : bytes;
  ec_accounting_unit : bytes;
  ec_chain : bytes;
  ec_network : TonNetwork;
  ec_mainnet_confirmed : bool;
  ec_default_payment : PaymentPref;
  ec_fee_recipient : option bytes;
  ec_stake : StakeEconomics;
  ec_ranking : RankingEconomics;
  ec_quality : QualityEconomics;
  ec_reputation : ReputationEconomics;
  ec_selection : SelectionEconomics;
  ec_fees : FeesEconomics;
  ec_slashing : SlashingEconomics;
  ec_records : RecordsEconomics;
  ec_pricing : PricingEconomics;
  ec_testnet : NetworkSettings;
  ec_mainnet : NetworkSettings;
}.
#[export] Instance EconomicsConfig_eta : Eta EconomicsConfig := fun r =>
  mkEconomicsConfig (ec_enabled r) (ec_settlement r) (ec_custody r) (ec_accounting_unit r) (ec_chain r)
    (ec_network r) (ec_mainnet_confirmed r) (ec_default_payment r) (ec_fee_recipient r) (ec_stake r) (ec_ranking r)
    (ec_quality r) (ec_reputation r) (ec_selection r) (ec_fees r) (ec_slashing r) (ec_records r) (ec_pricing r)
    (ec_testnet r) (ec_mainnet r) .
Definition default_EconomicsConfig : EconomicsConfig :=
  mkEconomicsConfig false RailNoop (str "noncustodial") (str "ton") (str "ton") default_TonNetwork false PrefAuto
    None default_StakeEconomics default_RankingEconomics default_QualityEconomics default_ReputationEconomics
    default_SelectionEconomics default_FeesEconomics default_SlashingEconomics default_RecordsEconomics
    default_PricingEconomics default_NetworkSettings default_NetworkSettings.

Record FaultAttributionConfig := mkFaultAttributionConfig {
  fa_enabled : bool;
  fa_job_consensus_fraction : f64;
}.
#[export] Instance FaultAttributionConfig_eta : Eta FaultAttributionConfig := fun r =>
  mkFaultAttributionConfig (fa_enabled r) (fa_job_consensus_fraction r).
Definition default_FaultAttributionConfig : FaultAttributionConfig :=
  mkFaultAttributionConfig true (lit 67 100).

Record RequesterTrustConfig := mkRequesterTrustConfig {
  rqt_enabled : bool;
  rqt_negative_floor_weight : f64;
  rqt_positive_floor_weight : f64;
  rqt_age_saturation : Z;
}.
#[export] Instance RequesterTrustConfig_eta : Eta RequesterTrustConfig := fun r =>
  mkRequesterTrustConfig (rqt_enabled r) (rqt_negative_floor_weight r) (rqt_positive_floor_weight r)
    (rqt_age_saturation r) .
Definition default_RequesterTrustConfig : RequesterTrustConfig :=
  mkRequesterTrustConfig false (f64_of_Z 0) (lit 5 10) 50.

Record CostGateConfig := mkCostGateConfig {
  cg_enabled : bool;
  cg_max_cost_hint_rows : Z;
  cg_max_working_set_factor : f64;
}.
#[export] Instance CostGateConfig_eta : Eta CostGateConfig := fun r =>
  mkCostGateConfig (cg_enabled r) (cg_max_cost_hint_rows r) (cg_max_working_set_factor r).
Definition default_CostGateConfig : CostGateConfig :=
  mkCostGateConfig false 0 (f64_of_Z 1).

Record NondeterminismConfig := mkNondeterminismConfig {
  nd_enabled : bool;
}.
#[export] Instance NondeterminismConfig_eta : Eta NondeterminismConfig := fun r =>
  mkNondeterminismConfig (nd_enabled r).
Definition default_NondeterminismConfig : NondeterminismConfig :=
  mkNondeterminismConfig true.

Record FreeRateLimitConfig := mkFreeRateLimitConfig {
  frl_enabled : bool;
  frl_max_free_per_window : Z;
  frl_window_secs : Z;
  frl_max_tracked_requesters : Z;
  frl_require_pow_bits : Z;
  frl_prioritize_paid : bool;
}.
#[export] Instance FreeRateLimitConfig_eta : Eta FreeRateLimitConfig := fun r =>
  mkFreeRateLimitConfig (frl_enabled r) (frl_max_free_per_window r) (frl_window_secs r)
    (frl_max_tracked_requesters r) (frl_require_pow_bits r) (frl_prioritize_paid r) .
Definition default_FreeRateLimitConfig : FreeRateLimitConfig :=
  mkFreeRateLimitConfig false 30 60 10000 0 true.

Record BlocklistPolicyConfig := mkBlocklistPolicyConfig {
  blp_auto_block_enabled : bool;
  blp_auto_block_trust_floor : f64;
  blp_honor_gossip_signals : bool;
  blp_honor_global_params : bool;
}.
#[export] Instance BlocklistPolicyConfig_eta : Eta BlocklistPolicyConfig := fun r =>
  mkBlocklistPolicyConfig (blp_auto_block_enabled r) (blp_auto_block_trust_floor r) (blp_honor_gossip_signals r)
    (blp_honor_global_params r) .
Definition default_BlocklistPolicyConfig : BlocklistPolicyConfig :=
  mkBlocklistPolicyConfig false (f64_of_Z 0) false false.

Record GossipHardeningConfig := mkGossipHardeningConfig {
  gh_peer_scoring : bool;
  gh_diverse_bootstrap : bool;
}.
#[export] Instance GossipHardeningConfig_eta : Eta GossipHardeningConfig := fun r =>
  mkGossipHardeningConfig (gh_peer_scoring r) (gh_diverse_bootstrap r).
Definition default_GossipHardeningConfig : GossipHardeningConfig :=
  mkGossipHardeningConfig false true.

Record AntiAbuseConfig := mkAntiAbuseConfig {
  ab_enabled : bool;
  ab_fault_attribution : FaultAttributionConfig;
  ab_requester_trust : RequesterTrustConfig;
  ab_cost_gate : CostGateConfig;
  ab_nondeterminism : NondeterminismConfig;
  ab_free_rate_limit : FreeRateLimitConfig;
  ab_blocklist : BlocklistPolicyConfig;
  ab_gossip : GossipHardeningConfig;
}.
#[export] Instance AntiAbuseConfig_eta : Eta AntiAbuseConfig := fun r =>
  mkAntiAbuseConfig (ab_enabled r) (ab_fault_attribution r) (ab_requester_trust r) (ab_cost_gate r)
    (ab_nondeterminism r) (ab_free_rate_limit r) (ab_blocklist r) (ab_gossip r) .
Definition default_AntiAbuseConfig : AntiAbuseConfig :=
  mkAntiAbuseConfig true default_FaultAttributionConfig default_RequesterTrustConfig default_CostGateConfig
    default_NondeterminismConfig default_FreeRateLimitConfig default_BlocklistPolicyConfig
    default_GossipHardeningConfig.

Record LimitsConfig := mkLimitsConfig {
  lim_receipt_cache_per_worker : Z;
  lim_trust_store_capacity : Z;
  lim_peer_cache_capacity : Z;
  lim_worker_pool_size : Z;
  lim_connection_pool_size : Z;
}.
#[export] Instance LimitsConfig_eta : Eta LimitsConfig := fun r =>
  mkLimitsConfig (lim_receipt_cache_per_worker r) (lim_trust_store_capacity r) (lim_peer_cache_capacity r)
    (lim_worker_pool_size r) (lim_connection_pool_size r) .
Definition default_LimitsConfig : LimitsConfig :=
  mkLimitsConfig 256 100000 50000 8 1024.

Inductive SandboxBackend := BackendAuto | BackendNone | BackendRlimit | BackendCgroupsSeccomp |
    BackendMacosSeatbelt | BackendWindowsJobObject | BackendAndroid | BackendIos.
#[global] Instance SandboxBackend_eq_dec : EqDecision SandboxBackend.
Proof. solve_decision. Defined.

Inductive SandboxLimitsMode := LimitsInheritBudget | LimitsExplicit.
#[global] Instance SandboxLimitsMode_eq_dec : EqDecision SandboxLimitsMode.
Proof. solve_decision. Defined.

Record SandboxLimitsConfig := mkSandboxLimitsConfig {
  sbl_mode : SandboxLimitsMode;
  sbl_memory_bytes : Z;
  sbl_cpu_seconds : Z;
  sbl_max_file_size_bytes : Z;
  sbl_max_open_files : Z;
  sbl_max_processes : Z;
}.
#[export] Instance SandboxLimitsConfig_eta : Eta SandboxLimitsConfig := fun r =>
  mkSandboxLimitsConfig (sbl_mode r) (sbl_memory_bytes r) (sbl_cpu_seconds r) (sbl_max_file_size_bytes r)
    (sbl_max_open_files r) (sbl_max_processes r) .
Definition default_SandboxLimitsConfig : SandboxLimitsConfig :=
  mkSandboxLimitsConfig LimitsInheritBudget 0 0 0 0 0.

Inductive SandboxEgressMode := EgressInheritStorage | EgressExplicit.
#[global] Instance SandboxEgressMode_eq_dec : EqDecision SandboxEgressMode.
Proof. solve_decision. Defined.

Inductive SandboxTempDirPolicy := TempEphemeral | TempInherit | TempCustom.
#[global] Instance SandboxTempDirPolicy_eq_dec : EqDecision SandboxTempDirPolicy.
Proof. solve_decision. Defined.

Record SandboxConfig := mkSandboxConfig {
  sb_enabled : bool;
  sb_backend : SandboxBackend;
  sb_limits : SandboxLimitsConfig;
  sb_egress_mode : SandboxEgressMode;
  sb_egress_allowlist : list bytes;
  sb_temp_dir_policy : SandboxTempDirPolicy;
  sb_temp_dir : option bytes;
  sb_process_per_job : bool;
}.
#[export] Instance SandboxConfig_eta : Eta SandboxConfig := fun r =>
  mkSandboxConfig (sb_enabled r) (sb_backend r) (sb_limits r) (sb_egress_mode r) (sb_egress_allowlist r)
    (sb_temp_dir_policy r) (sb_temp_dir r) (sb_process_per_job r) .
Definition default_SandboxConfig : SandboxConfig :=
  mkSandboxConfig false BackendAuto default_SandboxLimitsConfig EgressInheritStorage [] TempEphemeral None false.

Record MetadataConfig := mkMetadataConfig {
  md_refresh_interval_secs : Z;
}.
#[export] Instance MetadataConfig_eta : Eta MetadataConfig := fun r =>
  mkMetadataConfig (md_refresh_interval_secs r).
Definition default_MetadataConfig : MetadataConfig :=
  mkMetadataConfig 3600.

Record GridConfig := mkGridConfig {
  gc_protocol : ProtocolConfig;
  gc_network : NetworkConfig;
  gc_transport : TransportConfig;
  gc_identity : IdentityConfig;
  gc_security : SecurityConfig;
  gc_discovery : DiscoveryConfig;
  gc_scheduler : SchedulerConfig;
  gc_worker : WorkerConfig;
  gc_membership : MembershipConfig;
  gc_liveness : LivenessConfig;
  gc_budget : BudgetConfig;
  gc_trust : TrustConfig;
  gc_sybil : SybilConfig;
  gc_storage : StorageConfig;
  gc_planner : PlannerConfig;
  gc_economics : EconomicsConfig;
  gc_antiabuse : AntiAbuseConfig;
  gc_limits : LimitsConfig;
  gc_sandbox : SandboxConfig;
  gc_metadata : MetadataConfig;
}.
#[export] Instance GridConfig_eta : Eta GridConfig := fun r =>
  mkGridConfig (gc_protocol r) (gc_network r) (gc_transport r) (gc_identity r) (gc_security r) (gc_discovery r)
    (gc_scheduler r) (gc_worker r) (gc_membership r) (gc_liveness r) (gc_budget r) (gc_trust r) (gc_sybil r)
    (gc_storage r) (gc_planner r) (gc_economics r) (gc_antiabuse r) (gc_limits r) (gc_sandbox r) (gc_metadata r) .
Definition default_GridConfig : GridConfig :=
  mkGridConfig default_ProtocolConfig default_NetworkConfig default_TransportConfig default_IdentityConfig
    default_SecurityConfig default_DiscoveryConfig default_SchedulerConfig default_WorkerConfig
    default_MembershipConfig default_LivenessConfig default_BudgetConfig default_TrustConfig default_SybilConfig
    default_StorageConfig default_PlannerConfig default_EconomicsConfig default_AntiAbuseConfig
    default_LimitsConfig default_SandboxConfig default_MetadataConfig.
