(* ===== verification/ResultStream.v ===== *)
(** * Result transfer (crates/node/src/result_stream.rs, compression.rs)

    The winner serialises its result, compresses it when it is large enough, announces it
    in a manifest and sends it as ordered chunks on the control stream or as parts on
    parallel streams; the requester reassembles it from whatever arrives.  Every message
    travels in a frame whose length [write_msg] and [read_msg] (crates/transport,
    endpoint.rs) bound by 4 MiB; a chunk is a JSON array of numbers inside its frame.  The
    LZ4 and Zstandard libraries and the JSON of a result set and of a message are
    parameters with the documented behaviour they rely on.  The build keeps overflow
    checks on, so an overflowing sum panics: that is [None]. *)

From S2P Require Import Prelude Bytes Proto Canonical ConfigData.

(** ** Messages *)

Inductive WireFrame :=
| WManifest (m : ResultManifest)
| WChunk (job : JobId) (seq : Z) (last : bool) (payload : bytes)
| WPart (job : JobId) (index offset len : Z)
| WOther.

(** A message as it travels: the length its frame announces (schema tag and JSON). *)
Record Framed := mkFramed { f_len : Z; f_msg : WireFrame }.
Definition MAX_FRAME_BYTES : Z := 4 * 1024 * 1024.

(** ** What the libraries promise *)

Class Codecs := {
  to_bytes : ResultSet -> bytes;                    (* p2p_proto::to_bytes *)
  from_bytes : bytes -> option ResultSet;
  wire_len : WireFrame -> nat;                      (* the length of p2p_proto::to_bytes of a message *)
  lz4_compress : bytes -> bytes;                    (* lz4_flex::compress, without the size prefix *)
  lz4_decompress : bytes -> nat -> option bytes;    (* lz4_flex::decompress with the output size *)
  zstd_encode : Z -> bytes -> option bytes;
  zstd_read : bytes -> nat -> option bytes;         (* the decoder's first [limit] bytes *)
}.

Class CodecLaws (K : Codecs) : Prop := {
  lz4_roundtrip d : lz4_decompress (lz4_compress d) (length d) = Some d;
  lz4_bound c n d : lz4_decompress c n = Some d -> (length d <= n)%nat;
  zstd_roundtrip level d c limit : zstd_encode level d = Some c -> zstd_read c limit = Some (take limit d);
  (** JSON: a character takes at most six bytes (an escape), a byte of a payload at most
      four (three digits and a comma), and field names and numbers the rest. *)
  chunk_len job seq last p :
    in_u 32 seq -> (wire_len (WChunk job seq last p) <= 128 + 6 * length job + 4 * length p)%nat;
  part_header_len job index offset len :
    in_u 32 index -> in_u 64 offset -> in_u 64 len -> (wire_len (WPart job index offset len) <= 256 + 6 * length job)%nat;
  manifest_len m :
    in_u 64 (m_uncompressed_len m) -> in_u 64 (m_total_len m) -> in_u 32 (m_parts m) ->
    (wire_len (WManifest m) <= 256 + 6 * length (m_job_id m))%nat;
}.

(** ** Compression *)

Definition algo_to_wire (a : CompressionAlgo) : Compression :=
  match a with AlgoNone => CNone | AlgoLz4 => Lz4 | AlgoZstd => Zstd end.

Section transfer.
Context {K : Codecs}.

(** [lz4_flex::compress_prepend_size] writes the size as a [u32]. *)
Definition maybe_compress (codec : Compression) (level : Z) (min_size_bytes : nat) (data : bytes) : Compression * bytes :=
  if (match codec with CNone => true | _ => false end) || (length data <? min_size_bytes)%nat then (CNone, data)
  else match codec with
       | CNone => (CNone, data)
       | Lz4 => (Lz4, le_bytes 4 (wrap 32 (Z.of_nat (length data))) ++ lz4_compress data)
       | Zstd => match zstd_encode level data with Some out => (Zstd, out) | None => (CNone, data) end
       end.

Inductive DecompressError := Truncated | PrependedTooLarge (size : Z) | Lz4Error | ZstdError | ZstdTooLarge.

Definition decompress (codec : Compression) (uncompressed_len : nat) (data : bytes) : result bytes DecompressError :=
  match codec with
  | CNone => Ok data
  | Lz4 =>
      if (length data <? 4)%nat then Err Truncated
      else let prepended := Z.to_nat (le_val (take 4 data)) in
           if (uncompressed_len <? prepended)%nat then Err (PrependedTooLarge (Z.of_nat prepended))
           else ok_or (lz4_decompress (drop 4 data) prepended) Lz4Error
  | Zstd =>
      match zstd_read data (uncompressed_len + 1) with
      | None => Err ZstdError
      | Some out => if (uncompressed_len <? length out)%nat then Err ZstdTooLarge else Ok out
      end
  end.

(** ** Frames and streams *)

(** A unidirectional stream: the first frame, the bytes that follow until it ends, and
    whether it ends in a reset. *)
Record UniStream := mkUni { u_header : option Framed; u_data : bytes; u_reset : bool }.

Inductive SendError := SendTooLarge (len : Z).

(** [write_msg]: the frame of a message. *)
Definition write_msg (m : WireFrame) : result Framed SendError :=
  let body_len := Z.of_nat (wire_len m) + 2 in
  if MAX_FRAME_BYTES <? body_len then Err (SendTooLarge body_len) else Ok (mkFramed body_len m).

Inductive RecvError :=
| Closed
| FrameTooLarge (len : Z)
| FrameTooShort
| ExpectedManifest
| ManifestRejected (e : manifest_error)
| OutOfOrder (expected got : Z)
| InlineOverrun
| ExpectedChunk
| ExpectedPart
| PartRead
| PartLength (index : Z)
| PartOverrun
| Decompress (e : DecompressError)
| BadResult.

(** [read_msg] on a frame that has arrived. *)
Definition read_msg (f : Framed) : result WireFrame RecvError :=
  if MAX_FRAME_BYTES <? f_len f then Err (FrameTooLarge (f_len f))
  else if f_len f <? 2 then Err FrameTooShort
  else Ok (f_msg f).

(** ** Sending *)

Record SendOpts := mkSendOpts {
  chunk_bytes : nat;
  parallelism : nat;
  parallel_min_bytes : nat;
  o_compression : Compression;
  compression_level : Z;
  compression_min_bytes : nat;
}.

Definition decide_parts (total_len : nat) (opts : SendOpts) : Z :=
  if (parallelism opts <=? 1)%nat || (total_len <? parallel_min_bytes opts)%nat then 1
  else wrap 32 (Z.of_nat (Nat.max (Nat.min (parallelism opts) (Nat.max total_len 1)) 1)).

(** The loop of [send_inline] from the bytes that are left; the counter overflows at 2^32. *)
Fixpoint inline_loop (fuel : nat) (job : JobId) (rest : bytes) (seq : Z) (chunk : nat) : option (result (list Framed) SendError) :=
  match fuel with
  | O => None
  | S fuel' =>
      let last := (length rest <=? chunk)%nat in
      match write_msg (WChunk job seq last (take chunk rest)) with
      | Err e => Some (Err e)
      | Ok f =>
          if umax 32 <=? seq then None
          else if last then Some (Ok [f])
          else fs ← inline_loop fuel' job (drop chunk rest) (seq + 1) chunk;
               Some (fs <-? fs ;; Ok (f :: fs))
      end
  end.

Definition send_inline (job : JobId) (payload : bytes) (chunk : nat) : option (result (list Framed) SendError) :=
  inline_loop (S (length payload)) job payload 0 (Nat.max chunk 1).

(** The remainder goes one byte each to the first parts. *)
Definition part_len (total parts index : nat) : nat := total / parts + (if (index <? total mod parts)%nat then 1 else 0).

Fixpoint part_loop (job : JobId) (payload : bytes) (parts : nat) (n index offset : nat) : result (list UniStream) SendError :=
  match n with
  | O => Ok []
  | S n' =>
      let len := part_len (length payload) parts index in
      f <-? write_msg (WPart job (Z.of_nat index) (Z.of_nat offset) (Z.of_nat len)) ;;
      ss <-? part_loop job payload parts n' (S index) (offset + len) ;;
      Ok (mkUni (Some f) (take len (drop offset payload)) false :: ss)
  end.

Definition send_parallel (job : JobId) (payload : bytes) (parts : Z) : result (list UniStream) SendError :=
  part_loop job payload (Z.to_nat parts) (Z.to_nat parts) 0 0.

(** The control frames and the unidirectional streams of a transfer that was sent. *)
Definition send_result (job : JobId) (rs : ResultSet) (opts : SendOpts) : option (result (list Framed * list UniStream) SendError) :=
  let raw := to_bytes rs in
  let '(codec, payload) := maybe_compress (o_compression opts) (compression_level opts) (compression_min_bytes opts) raw in
  let parts := decide_parts (length payload) opts in
  match write_msg (WManifest (mkManifest job codec (Z.of_nat (length raw)) (Z.of_nat (length payload)) parts)) with
  | Err e => Some (Err e)
  | Ok manifest =>
      if parts =? 1
      then fs ← send_inline job payload (chunk_bytes opts); Some (fs <-? fs ;; Ok (manifest :: fs, []))
      else Some (ss <-? send_parallel job payload parts ;; Ok ([manifest], ss))
  end.

(** ** Receiving *)

Fixpoint recv_inline (frames : list Framed) (total_len : nat) (buf : bytes) (expected_seq : Z)
  : option (result bytes RecvError) :=
  match frames with
  | [] => Some (Err Closed)
  | f :: rest =>
      match read_msg f with
      | Err e => Some (Err e)
      | Ok (WChunk _ seq last payload) =>
          if negb (seq =? expected_seq) then Some (Err (OutOfOrder expected_seq seq))
          else if (total_len <? length buf + length payload)%nat then Some (Err InlineOverrun)
          else if umax 32 <=? expected_seq then None
          else if last then Some (Ok (buf ++ payload))
          else recv_inline rest total_len (buf ++ payload) (expected_seq + 1)
      | Ok _ => Some (Err ExpectedChunk)
      end
  end.

(** Header, then [read_to_end] limited to the announced length. *)
Definition read_part (s : UniStream) : result (Z * bytes) RecvError :=
  match u_header s with
  | None => Err Closed
  | Some f =>
      h <-? read_msg f ;;
      match h with
      | WPart _ index offset len =>
          if u_reset s || (len <? Z.of_nat (length (u_data s))) then Err PartRead
          else if negb (Z.of_nat (length (u_data s)) =? len) then Err (PartLength index)
          else Ok (offset, u_data s)
      | _ => Err ExpectedPart
      end
  end.

Fixpoint read_parts (ss : list UniStream) : result (list (Z * bytes)) RecvError :=
  match ss with
  | [] => Ok []
  | s :: ss' => p <-? read_part s ;; ps <-? read_parts ss' ;; Ok (p :: ps)
  end.

Definition write_at (buf : bytes) (off : nat) (raw : bytes) : bytes :=
  take off buf ++ raw ++ drop (off + length raw) buf.

Fixpoint place_parts (buf : bytes) (ps : list (Z * bytes)) : option (result bytes RecvError) :=
  match ps with
  | [] => Some (Ok buf)
  | (offset, raw) :: ps' =>
      if umax 64 <? offset + Z.of_nat (length raw) then None
      else if Z.of_nat (length buf) <? offset + Z.of_nat (length raw) then Some (Err PartOverrun)
      else place_parts (write_at buf (Z.to_nat offset) raw) ps'
  end.

(** [streams] in the order they are accepted; [accept_uni] fails when there are too few. *)
Definition recv_parallel (m : ResultManifest) (streams : list UniStream) : option (result bytes RecvError) :=
  let parts := Z.to_nat (m_parts m) in
  if (length streams <? parts)%nat then Some (Err Closed)
  else match read_parts (take parts streams) with
       | Err e => Some (Err e)
       | Ok ps => place_parts (replicate (Z.to_nat (m_total_len m)) Byte.x00) ps
       end.

Definition recv_result (control : list Framed) (streams : list UniStream) (max_bytes max_parts : Z)
  : option (result ResultSet RecvError) :=
  match control with
  | [] => Some (Err Closed)
  | f :: rest =>
      match read_msg f with
      | Err e => Some (Err e)
      | Ok (WManifest m) =>
          match validate_manifest m max_bytes max_parts with
          | Err e => Some (Err (ManifestRejected e))
          | Ok _ =>
              r ← (if m_parts m <=? 1 then recv_inline rest (Z.to_nat (m_total_len m)) [] 0 else recv_parallel m streams);
              Some (payload <-? r ;;
                    data <-? (match decompress (m_compression m) (Z.to_nat (m_uncompressed_len m)) payload with
                              | Ok d => Ok d | Err e => Err (Decompress e) end) ;;
                    ok_or (from_bytes data) BadResult)
          end
      | Ok _ => Some (Err ExpectedManifest)
      end
  end.
End transfer.

(** ** Inline chunks *)

Section inline.
Context {K : Codecs}.

Lemma write_msg_ok m f : write_msg m = Ok f -> read_msg f = Ok m.
Proof.
  unfold write_msg, read_msg. destruct (Z.ltb_spec MAX_FRAME_BYTES (Z.of_nat (wire_len m) + 2)) as [|H]; [done|]. intros [= <-].
  cbn [f_len f_msg]. destruct (Z.ltb_spec MAX_FRAME_BYTES (Z.of_nat (wire_len m) + 2)); [lia|].
  destruct (Z.ltb_spec (Z.of_nat (wire_len m) + 2) 2); [lia|done].
Qed.

Lemma write_msg_fits m n : (wire_len m <= n)%nat -> Z.of_nat n + 2 <= MAX_FRAME_BYTES -> exists f, write_msg m = Ok f.
Proof. intros H Hn. unfold write_msg. destruct (Z.ltb_spec MAX_FRAME_BYTES (Z.of_nat (wire_len m) + 2)); [lia|by eexists]. Qed.

Lemma inline_loop_recv fuel job rest seq chunk fs buf total :
  (0 < chunk)%nat -> inline_loop fuel job rest seq chunk = Some (Ok fs) -> (length buf + length rest <= total)%nat ->
  recv_inline fs total buf seq = Some (Ok (buf ++ rest)).
Proof.
  intros Hc. revert rest seq fs buf. induction fuel as [|fuel IH]; intros rest seq fs buf H Hl; [done|]. cbn [inline_loop] in H.
  destruct (write_msg _) as [f|] eqn:Ew; [|done]. apply write_msg_ok in Ew.
  destruct (Z.leb_spec (umax 32) seq) as [|Hs]; [done|].
  destruct (Nat.leb_spec (length rest) chunk) as [Hle|Hgt].
  - injection H as <-. cbn [recv_inline]. rewrite Ew, Z.eqb_refl. cbn [negb]. rewrite firstn_all2 by lia.
    destruct (Nat.ltb_spec total (length buf + length rest)); [lia|]. destruct (Z.leb_spec (umax 32) seq); [lia|done].
  - destruct (inline_loop fuel job (drop chunk rest) (seq + 1) chunk) as [[fs'|]|] eqn:E; try done. injection H as <-.
    cbn [recv_inline]. rewrite Ew, Z.eqb_refl. cbn [negb]. rewrite length_take.
    destruct (Nat.ltb_spec total (length buf + Nat.min chunk (length rest))); [lia|]. destruct (Z.leb_spec (umax 32) seq); [lia|].
    rewrite (IH _ _ _ (buf ++ take chunk rest) E); [by rewrite <- app_assoc, take_drop|].
    rewrite length_app, length_take, length_drop. lia.
Qed.

(** The fuel of the sender is enough and its frames fit: only the counter can stop it. *)
Lemma inline_loop_total {KL : CodecLaws K} fuel job rest seq chunk :
  (0 < chunk)%nat -> (length rest < fuel)%nat -> 0 <= seq < umax 32 ->
  Z.of_nat (length rest) <= (umax 32 - seq) * Z.of_nat chunk ->
  Z.of_nat (128 + 6 * length job + 4 * chunk) + 2 <= MAX_FRAME_BYTES ->
  exists fs, inline_loop fuel job rest seq chunk = Some (Ok fs).
Proof.
  intros Hc Hf Hs Hb Hm. revert rest seq Hf Hs Hb. induction fuel as [|fuel IH]; intros rest seq Hf Hs Hb; [lia|]. cbn [inline_loop].
  destruct (write_msg_fits (WChunk job seq (length rest <=? chunk)%nat (take chunk rest)) (128 + 6 * length job + 4 * chunk))
    as [f ->]; [|done|].
  { etransitivity; [apply chunk_len; unfold in_u, umax in *; lia|]. rewrite length_take. lia. }
  destruct (Z.leb_spec (umax 32) seq); [lia|]. destruct (Nat.leb_spec (length rest) chunk); [by eexists|].
  destruct (IH (drop chunk rest) (seq + 1)) as [fs ->]; rewrite ?length_drop; try lia.
  - split; [lia|]. destruct (decide (seq + 1 < umax 32)); [done|]. assert (umax 32 - seq = 1) as E by lia. rewrite E in Hb. lia.
  - by eexists.
Qed.
End inline.

(** ** Parallel parts *)

(** A part that carries the bytes of [payload] at its offset. *)
Definition faithful (payload : bytes) (p : Z * bytes) : Prop :=
  0 <= p.1 /\ (Z.to_nat p.1 + length p.2 <= length payload)%nat /\ p.2 = take (length p.2) (drop (Z.to_nat p.1) payload).

Definition covers (j : nat) (p : Z * bytes) : Prop := (Z.to_nat p.1 <= j < Z.to_nat p.1 + length p.2)%nat.

Lemma write_at_length buf off raw : (off + length raw <= length buf)%nat -> length (write_at buf off raw) = length buf.
Proof. intros H. unfold write_at. rewrite !length_app, length_take, length_drop. lia. Qed.

Lemma write_at_lookup buf off raw j :
  (off + length raw <= length buf)%nat ->
  write_at buf off raw !! j = if decide (off <= j < off + length raw)%nat then raw !! (j - off)%nat else buf !! j.
Proof.
  intros H. unfold write_at. assert (length (take off buf) = off) as Ht by (rewrite length_take; lia).
  destruct (decide (off <= j < off + length raw)%nat) as [Hj|Hj].
  - rewrite lookup_app_r by lia. rewrite lookup_app_l by lia. by rewrite Ht.
  - destruct (decide (j < off)%nat); [rewrite lookup_app_l by lia; by rewrite lookup_take_lt|].
    rewrite !lookup_app_r by lia. rewrite lookup_drop, Ht. f_equal. lia.
Qed.

Lemma place_parts_spec payload ps buf :
  Z.of_nat (length payload) <= umax 64 -> length buf = length payload -> Forall (faithful payload) ps ->
  exists buf', place_parts buf ps = Some (Ok buf') /\ length buf' = length payload
    /\ forall j, buf' !! j = payload !! j \/ (buf' !! j = buf !! j /\ Forall (fun p => ~ covers j p) ps).
Proof.
  intros Hmax. revert buf. induction ps as [|[off raw] ps IH]; intros buf Hl Hf.
  { exists buf. split; [done|]. split; [done|]. intros j. right. split; [done|constructor]. }
  apply Forall_cons in Hf as [(H0 & Hle & Hraw) Hf]. cbn [fst snd] in *. cbn [place_parts].
  destruct (Z.ltb_spec (umax 64) (off + Z.of_nat (length raw))); [lia|].
  destruct (Z.ltb_spec (Z.of_nat (length buf)) (off + Z.of_nat (length raw))); [lia|].
  destruct (IH (write_at buf (Z.to_nat off) raw)) as (buf' & E & Hl' & Hj); [rewrite write_at_length; lia|done|].
  exists buf'. split; [done|]. split; [done|]. intros j. destruct (Hj j) as [?|[Hb Hn]]; [by left|].
  rewrite write_at_lookup in Hb by lia. destruct (decide (Z.to_nat off <= j < Z.to_nat off + length raw)%nat) as [Hin|Hout].
  - left. rewrite Hb, Hraw, lookup_take_lt by lia. rewrite lookup_drop. f_equal. lia.
  - right. split; [done|]. constructor; done.
Qed.

(** Any faithful parts that cover the payload rebuild it, in any order of arrival. *)
Lemma place_parts_rebuild payload ps :
  Z.of_nat (length payload) <= umax 64 -> Forall (faithful payload) ps ->
  (forall j, (j < length payload)%nat -> Exists (covers j) ps) ->
  place_parts (replicate (length payload) Byte.x00) ps = Some (Ok payload).
Proof.
  intros Hmax Hf Hc. destruct (place_parts_spec payload ps (replicate (length payload) Byte.x00)) as (buf & -> & Hl & Hj);
    [done|by rewrite length_replicate|done|]. do 2 f_equal. apply list_eq. intros j.
  destruct (Hj j) as [?|[_ Hn]]; [done|]. destruct (decide (j < length payload)%nat) as [Hlt|Hge].
  - exfalso. apply Hc, Exists_exists in Hlt as (p & Hp & Hcp). rewrite Forall_forall in Hn. by apply (Hn p).
  - rewrite !lookup_ge_None_2 by lia. done.
Qed.

(** The bytes of the parts from [index] on. *)
Fixpoint span (total parts n index : nat) : nat :=
  match n with O => 0 | S n' => part_len total parts index + span total parts n' (S index) end.

Lemma span_from total parts n index :
  span total parts n index = (n * (total / parts) + (Nat.min (index + n) (total mod parts) - Nat.min index (total mod parts)))%nat.
Proof.
  revert index. induction n as [|n IH]; intros index; cbn [span].
  { rewrite Nat.add_0_r. lia. }
  rewrite IH. unfold part_len. destruct (Nat.ltb_spec index (total mod parts)); lia.
Qed.

Lemma span_all total parts : (0 < parts)%nat -> span total parts parts 0 = total.
Proof.
  intros Hp. rewrite span_from. pose proof (Nat.mod_upper_bound total parts ltac:(lia)).
  pose proof (Nat.div_mod_eq total parts). lia.
Qed.

Lemma part_loop_parts {K : Codecs} {KL : CodecLaws K} job payload parts n index offset :
  (offset + span (length payload) parts n index <= length payload)%nat ->
  Z.of_nat (length payload) < 2 ^ 64 -> Z.of_nat (index + n) < 2 ^ 32 -> Z.of_nat (256 + 6 * length job) + 2 <= MAX_FRAME_BYTES ->
  exists ss ps, part_loop job payload parts n index offset = Ok ss
    /\ Forall2 (fun s p => read_part s = Ok p) ss ps
    /\ Forall (faithful payload) ps /\ length ps = n
    /\ forall j, (offset <= j < offset + span (length payload) parts n index)%nat -> Exists (covers j) ps.
Proof.
  intros Hs Hpay Hidx Hm. revert index offset Hs Hidx. induction n as [|n IH]; intros index offset Hs Hidx.
  { exists [], []. split; [done|]. split; [constructor|]. split; [constructor|]. split; [done|]. cbn [span]. lia. }
  cbn [span part_loop] in *. set (len := part_len (length payload) parts index) in *.
  destruct (IH (S index) (offset + len)%nat) as (ss & ps & -> & H2 & Hf & Hn & Hc); [lia|lia|].
  destruct (write_msg_fits (WPart job (Z.of_nat index) (Z.of_nat offset) (Z.of_nat len)) (256 + 6 * length job)) as [f Ef]; [|done|].
  { apply part_header_len; unfold in_u; lia. }
  rewrite Ef. cbn [res_bind]. apply write_msg_ok in Ef.
  assert (length (take len (drop offset payload)) = len) as Hlen by (rewrite length_take, length_drop; lia).
  eexists _, ((Z.of_nat offset, take len (drop offset payload)) :: ps). split; [done|]. split; [|split; [|split]].
  - constructor; [|done]. unfold read_part. cbn [u_header u_data u_reset orb]. rewrite Ef. cbn [res_bind]. rewrite Hlen, Z.eqb_refl, Z.ltb_irrefl. done.
  - constructor; [|done]. unfold faithful. cbn [fst snd]. rewrite Hlen, Nat2Z.id. split; [lia|]. split; [lia|done].
  - cbn [length]. lia.
  - intros j Hj. destruct (decide (j < offset + len)%nat).
    + apply Exists_cons_hd. unfold covers. cbn [fst snd]. rewrite Hlen, Nat2Z.id. lia.
    + apply Exists_cons_tl, Hc. lia.
Qed.

Lemma read_parts_all ss ps : Forall2 (fun s p => read_part s = Ok p) ss ps -> read_parts ss = Ok ps.
Proof. induction 1 as [|s p ss ps E _ IH]; [done|]. cbn [read_parts]. rewrite E. cbn. by rewrite IH. Qed.

Lemma Forall2_perm_l {A B} (R : A -> B -> Prop) l l' k :
  l ≡ₚ l' -> Forall2 R l k -> exists k', k ≡ₚ k' /\ Forall2 R l' k'.
Proof.
  intros Hp. revert k. induction Hp as [|x l l' _ IH|x y l|l l' l'' _ IH1 _ IH2]; intros k H.
  - by exists k.
  - inversion H as [|? b ? k0 Hx Hk]; subst. destruct (IH _ Hk) as (k' & Hp' & H'). exists (b :: k'). split; [by constructor|by constructor].
  - inversion H as [|? b ? k0 Hx Hk]; subst. inversion Hk as [|? c ? k1 Hy Hk1]; subst. exists (c :: b :: k1).
    split; [constructor|]. by repeat constructor.
  - destruct (IH1 _ H) as (k1 & P1 & H1). destruct (IH2 _ H1) as (k2 & P2 & H2). exists k2. split; [by etrans|done].
Qed.

(** ** The transfer *)

Section roundtrip.
Context {K : Codecs} {KL : CodecLaws K}.

Lemma decompress_compress codec level min raw :
  Z.of_nat (length raw) < 2 ^ 32 ->
  let '(applied, payload) := maybe_compress codec level min raw in decompress applied (length raw) payload = Ok raw.
Proof using KL.
  intros Hlen. unfold maybe_compress. destruct (_ || _); [done|]. destruct codec; [done| |].
  - cbn [decompress]. rewrite length_app, length_le_bytes.
    destruct (Nat.ltb_spec (4 + length (lz4_compress raw)) 4); [lia|].
    rewrite take_app_length', drop_app_length' by (by rewrite length_le_bytes).
    unfold wrap. rewrite Z.mod_small by lia. rewrite le_val_bytes by (split; [lia|done]). rewrite Nat2Z.id.
    rewrite Nat.ltb_irrefl, lz4_roundtrip. done.
  - destruct (zstd_encode level raw) as [c|] eqn:E; [|done]. cbn [decompress]. rewrite (zstd_roundtrip _ _ _ _ E).
    rewrite firstn_all2 by lia. by rewrite Nat.ltb_irrefl.
Qed.

(** The payload a transfer carries, compressed or not. *)
Definition wire_payload (rs : ResultSet) (opts : SendOpts) : bytes :=
  (maybe_compress (o_compression opts) (compression_level opts) (compression_min_bytes opts) (to_bytes rs)).2.

(** The serialisation reads back, the receiver's ceilings admit the transfer, the chunk
    counter does not overflow, and a chunk fits its frame. *)
Record admitted (job : JobId) (rs : ResultSet) (opts : SendOpts) (max_bytes max_parts : Z) : Prop := {
  ad_serial : from_bytes (to_bytes rs) = Some rs;
  ad_raw : Z.of_nat (length (to_bytes rs)) <= Z.min max_bytes MAX_RESULT_BYTES;
  ad_lz4 : Z.of_nat (length (to_bytes rs)) < 2 ^ 32;
  ad_payload : Z.of_nat (length (wire_payload rs opts)) <= Z.min max_bytes MAX_RESULT_BYTES;
  ad_parts : Z.of_nat (parallelism opts) <= Z.min max_parts MAX_RESULT_PARTS;
  ad_one : 1 <= max_parts;
  ad_counter : Z.of_nat (length (wire_payload rs opts)) <= umax 32 * Z.of_nat (Nat.max (chunk_bytes opts) 1);
  ad_frame : 6 * Z.of_nat (length job) + 4 * Z.of_nat (Nat.max (chunk_bytes opts) 1) + 258 <= MAX_FRAME_BYTES;
}.

Lemma decide_parts_range n opts :
  Z.of_nat (parallelism opts) < 2 ^ 32 -> 1 <= decide_parts n opts <= Z.max 1 (Z.of_nat (parallelism opts)).
Proof using Type.
  intros H. unfold decide_parts. destruct (Nat.leb_spec (parallelism opts) 1); cbn [orb]; [lia|]. destruct (_ <? _)%nat; [lia|].
  unfold wrap. rewrite Z.mod_small; lia.
Qed.

(** The bulk of a transfer arrives, on the control stream or on the parallel ones. *)
Lemma bulk_arrives job rs opts max_bytes max_parts codec payload :
  admitted job rs opts max_bytes max_parts ->
  maybe_compress (o_compression opts) (compression_level opts) (compression_min_bytes opts) (to_bytes rs) = (codec, payload) ->
  let m := mkManifest job codec (Z.of_nat (length (to_bytes rs))) (Z.of_nat (length payload)) (decide_parts (length payload) opts) in
  exists f rest ss, write_msg (WManifest m) = Ok f /\ send_result job rs opts = Some (Ok (f :: rest, ss))
    /\ forall arrived, arrived ≡ₚ ss ->
         (if m_parts m <=? 1 then recv_inline rest (length payload) [] 0 else recv_parallel m arrived) = Some (Ok payload).
Proof using KL.
  intros [Hser Hraw Hlz Hpay Hpar Hone Hcnt Hfr] Em m. unfold wire_payload in Hpay, Hcnt. rewrite Em in Hpay, Hcnt. cbn [snd] in Hpay, Hcnt.
  assert (MAX_RESULT_PARTS = 4096) as Ep by done. assert (MAX_RESULT_BYTES < 2 ^ 64) as Eb by done.
  pose proof (decide_parts_range (length payload) opts ltac:(lia)) as Hdp.
  destruct (write_msg_fits (WManifest m) (256 + 6 * length job)) as [f Ef]; [apply manifest_len; unfold in_u; cbn; lia|lia|].
  unfold send_result. rewrite Em. fold m. rewrite Ef. cbn [m_parts m]. set (parts := decide_parts (length payload) opts) in *.
  destruct (Z.eqb_spec parts 1) as [E|E].
  - destruct (inline_loop_total (S (length payload)) job payload 0 (Nat.max (chunk_bytes opts) 1)) as [fs Es];
      [lia|lia|unfold umax; lia|lia|lia|].
    exists f, fs, []. split; [done|]. unfold send_inline. rewrite Es. split; [done|]. intros arrived _. rewrite E.
    eapply inline_loop_recv in Es; [exact Es|lia|cbn [length]; lia].
  - destruct (part_loop_parts job payload (Z.to_nat parts) (Z.to_nat parts) 0 0) as (ss & ps & Ess & H2 & Hf & Hn & Hc);
      [rewrite span_all by lia; done|lia|lia|lia|].
    exists f, [], ss. split; [done|]. unfold send_parallel. rewrite Ess. split; [done|]. intros arrived Hp.
    destruct (Z.leb_spec parts 1); [lia|]. rewrite span_all in Hc by lia. symmetry in Hp.
    destruct (Forall2_perm_l _ _ _ _ Hp H2) as (ps' & Hp' & H2').
    unfold recv_parallel, m. cbn [m_parts m_total_len]. fold parts. rewrite Nat2Z.id.
    pose proof (Forall2_length _ _ _ H2') as Hl. rewrite <- (Permutation_length Hp'), Hn in Hl.
    destruct (Nat.ltb_spec (length arrived) (Z.to_nat parts)); [lia|]. rewrite firstn_all2 by lia.
    rewrite (read_parts_all _ _ H2'). apply place_parts_rebuild; [unfold umax; lia|by rewrite <- Hp'|].
    intros j Hj. rewrite <- Hp'. apply Hc. lia.
Qed.

Lemma transfer_delivers job rs opts max_bytes max_parts :
  admitted job rs opts max_bytes max_parts ->
  exists control streams, send_result job rs opts = Some (Ok (control, streams))
    /\ forall arrived, arrived ≡ₚ streams -> recv_result control arrived max_bytes max_parts = Some (Ok rs).
Proof using KL.
  intros Had. pose proof Had as [Hser Hraw Hlz Hpay Hpar Hone _ _]. unfold wire_payload in Hpay.
  pose proof (decompress_compress (o_compression opts) (compression_level opts) (compression_min_bytes opts) (to_bytes rs) Hlz) as Hd.
  destruct (maybe_compress _ _ _ (to_bytes rs)) as [codec payload] eqn:Em. cbn [snd] in Hpay.
  destruct (bulk_arrives _ _ _ _ _ _ _ Had Em) as (f & rest & ss & Ef & Es & Hr). exists (f :: rest), ss. split; [done|].
  intros arrived Hp. specialize (Hr arrived Hp). apply write_msg_ok in Ef. cbn [recv_result]. rewrite Ef.
  assert (MAX_RESULT_PARTS = 4096) as Ep by done.
  pose proof (decide_parts_range (length payload) opts ltac:(lia)) as Hdp.
  set (m := mkManifest job codec (Z.of_nat (length (to_bytes rs))) (Z.of_nat (length payload)) (decide_parts (length payload) opts)) in *.
  assert (validate_manifest m max_bytes max_parts = Ok tt) as ->.
  { unfold validate_manifest, m. cbn [m_parts m_total_len m_uncompressed_len].
    destruct (Z.eqb_spec (decide_parts (length payload) opts) 0); [lia|].
    destruct (Z.ltb_spec (Z.min max_parts MAX_RESULT_PARTS) (decide_parts (length payload) opts)); [lia|].
    destruct (Z.ltb_spec (Z.min max_bytes MAX_RESULT_BYTES) (Z.of_nat (length payload))); [lia|].
    destruct (Z.ltb_spec (Z.min max_bytes MAX_RESULT_BYTES) (Z.of_nat (length (to_bytes rs)))); [lia|done]. }
  change (m_total_len m) with (Z.of_nat (length payload)). change (m_uncompressed_len m) with (Z.of_nat (length (to_bytes rs))).
  change (m_compression m) with codec. rewrite !Nat2Z.id, Hr.
  cbn [mbind option_bind res_bind]. rewrite Hd. cbn [res_bind]. by rewrite Hser.
Qed.

(** C16: a result survives its transfer.  Let the result read back from its own JSON (one
    with an infinite or undefined number in it does not), be shorter than 4 GiB and
    within the requester's ceilings on bytes and parallel streams, and let a chunk fit a
    frame of 4 MiB, in which it takes up to four bytes for each of its own (chunks of
    one MiB can already be too large), and the chunk counter 32 bits.  Then, whatever the
    codec and the number of parallel streams, the worker sends it without an error, and
    the requester reassembles exactly that result, in whatever order the streams
    arrive. *)
Theorem result_transfer_roundtrip (job : JobId) (rs : ResultSet) (opts : SendOpts) (max_bytes max_parts : Z) :
  from_bytes (to_bytes rs) = Some rs ->
  Z.of_nat (length (to_bytes rs)) <= Z.min max_bytes MAX_RESULT_BYTES -> Z.of_nat (length (to_bytes rs)) < 2 ^ 32 ->
  Z.of_nat (length (wire_payload rs opts)) <= Z.min max_bytes MAX_RESULT_BYTES ->
  Z.of_nat (parallelism opts) <= Z.min max_parts MAX_RESULT_PARTS -> 1 <= max_parts ->
  Z.of_nat (length (wire_payload rs opts)) <= umax 32 * Z.of_nat (Nat.max (chunk_bytes opts) 1) ->
  6 * Z.of_nat (length job) + 4 * Z.of_nat (Nat.max (chunk_bytes opts) 1) + 258 <= MAX_FRAME_BYTES ->
  exists control streams, send_result job rs opts = Some (Ok (control, streams))
    /\ forall arrived, arrived ≡ₚ streams -> recv_result control arrived max_bytes max_parts = Some (Ok rs).
Proof using KL. intros. by apply transfer_delivers. Qed.

(** A chunk whose frame would be longer is refused by the sender, and a longer frame by
    the receiver: nothing of the result arrives. *)
Lemma oversized_chunk_refused job payload chunk :
  (0 < chunk)%nat -> MAX_FRAME_BYTES < Z.of_nat (wire_len (WChunk job 0 (length payload <=? chunk)%nat (take chunk payload))) + 2 ->
  exists n, send_inline job payload chunk = Some (Err (SendTooLarge n)).
Proof using Type.
  intros Hc H. unfold send_inline. cbn [inline_loop]. rewrite Nat.max_l by lia. unfold write_msg.
  rewrite (proj2 (Z.ltb_lt _ _) H). by eexists.
Qed.

(** ** Bounds *)

Lemma recv_inline_bound frames total buf seq d :
  (length buf <= total)%nat -> recv_inline frames total buf seq = Some (Ok d) -> (length d <= total)%nat.
Proof using Type.
  revert buf seq. induction frames as [|f frames IH]; intros buf seq0 Hl; cbn [recv_inline]; [done|].
  destruct (read_msg f) as [[m|job n isl payload|job n off len|]|]; try done.
  destruct (negb _); [done|]. destruct (Nat.ltb_spec total (length buf + length payload)); [done|]. destruct (_ <=? _); [done|].
  destruct isl; [intros [= <-]; rewrite length_app; lia|]. apply IH. rewrite length_app. lia.
Qed.

Lemma place_parts_length buf ps d :
  Forall (fun p : Z * bytes => 0 <= p.1) ps -> place_parts buf ps = Some (Ok d) -> length d = length buf.
Proof using Type.
  intros Hp. revert buf. induction Hp as [|[off raw] ps H0 _ IH]; intros buf; cbn [place_parts]; [by intros [= <-]|].
  cbn [fst] in H0. destruct (_ <? _); [done|]. destruct (Z.ltb_spec (Z.of_nat (length buf)) (off + Z.of_nat (length raw))); [done|].
  intros H'%IH. rewrite H'. apply write_at_length. lia.
Qed.

(** What the peer sends decodes to [u64] offsets. *)
Definition stream_wf (s : UniStream) : Prop :=
  match f_msg <$> u_header s with Some (WPart _ _ offset len) => in_u 64 offset /\ in_u 64 len | _ => True end.

Lemma read_parts_wf ss ps :
  Forall stream_wf ss -> read_parts ss = Ok ps -> Forall (fun p : Z * bytes => 0 <= p.1) ps.
Proof using Type.
  intros H. revert ps. induction H as [|s ss Hs _ IH]; intros ps; cbn [read_parts]; [intros [= <-]; constructor|].
  destruct (read_part s) as [p|] eqn:E; [|done]. cbn [res_bind]. destruct (read_parts ss) as [ps'|]; [|done]. cbn [res_bind].
  intros [= <-]. constructor; [|by apply IH]. unfold read_part in E. unfold stream_wf in Hs.
  destruct (u_header s) as [f|]; [|done]. unfold read_msg in E. destruct (_ <? _); [done|]. destruct (_ <? _); [done|].
  cbn [res_bind fmap option_fmap option_map] in *. destruct (f_msg f); try done. destruct (_ || _); [done|]. destruct (negb _); [done|].
  injection E as <-. cbn [fst]. unfold in_u in Hs. lia.
Qed.

Lemma decompress_bound codec n payload d :
  decompress codec n payload = Ok d -> (length d <= Nat.max n (length payload))%nat.
Proof using KL.
  destruct codec; cbn [decompress]; [intros [= <-]; lia| |].
  - destruct (_ <? 4)%nat; [done|]. destruct (Nat.ltb_spec n (Z.to_nat (le_val (take 4 payload)))); [done|].
    destruct (lz4_decompress _ _) as [d'|] eqn:E; [|done]. intros [= <-]. apply lz4_bound in E. lia.
  - destruct (zstd_read _ _) as [out|]; [|done]. destruct (Nat.ltb_spec n (length out)); [done|]. intros [= <-]. lia.
Qed.

(** Manifest fields are unsigned. *)
Definition frame_wf (f : Framed) : Prop :=
  match f_msg f with WManifest m => 0 <= m_parts m /\ 0 <= m_total_len m /\ 0 <= m_uncompressed_len m | _ => True end.

Lemma validate_ok m max_bytes max_parts :
  0 <= m_parts m -> validate_manifest m max_bytes max_parts = Ok tt ->
  1 <= m_parts m <= Z.min max_parts MAX_RESULT_PARTS
  /\ m_total_len m <= Z.min max_bytes MAX_RESULT_BYTES /\ m_uncompressed_len m <= Z.min max_bytes MAX_RESULT_BYTES.
Proof using Type.
  intros H0. unfold validate_manifest. destruct (Z.eqb_spec (m_parts m) 0); [done|].
  destruct (Z.ltb_spec (Z.min max_parts MAX_RESULT_PARTS) (m_parts m)); [done|].
  destruct (Z.ltb_spec (Z.min max_bytes MAX_RESULT_BYTES) (m_total_len m)); [done|].
  destruct (Z.ltb_spec (Z.min max_bytes MAX_RESULT_BYTES) (m_uncompressed_len m)); [done|]. lia.
Qed.

(** Whatever a malicious worker announces and sends, an accepted result comes from a
    manifest within the requester's ceilings, was reassembled in at most the announced
    number of bytes and decoded from at most as many as the ceiling allows. *)
Theorem received_result_bounded (control : list Framed) (streams : list UniStream) (max_bytes max_parts : Z) (rs : ResultSet) :
  Forall frame_wf control -> Forall stream_wf streams -> recv_result control streams max_bytes max_parts = Some (Ok rs) ->
  exists n m rest payload data, control = mkFramed n (WManifest m) :: rest
    /\ 1 <= m_parts m <= Z.min max_parts MAX_RESULT_PARTS
    /\ Z.of_nat (length payload) <= m_total_len m <= Z.min max_bytes MAX_RESULT_BYTES
    /\ Z.of_nat (length data) <= Z.min max_bytes MAX_RESULT_BYTES
    /\ decompress (m_compression m) (Z.to_nat (m_uncompressed_len m)) payload = Ok data /\ from_bytes data = Some rs.
Proof using KL.
  intros Hf Hs H. destruct control as [|[n g] rest]; cbn [recv_result] in H; [done|].
  apply Forall_cons in Hf as [Hf _]. unfold read_msg in H. cbn [f_len f_msg] in H. destruct (_ <? _) in H; [done|].
  destruct (_ <? _) in H; [done|]. destruct g as [m| | |]; try done. destruct Hf as (P1 & P2 & P3). destruct (validate_manifest m max_bytes max_parts) as [[]|] eqn:Ev; [|done].
  apply validate_ok in Ev as (V1 & V2 & V3); [|done].
  destruct (if m_parts m <=? 1 then _ else _) as [[payload|]|] eqn:Er; try done. cbn [mbind option_bind res_bind] in H.
  destruct (decompress _ _ payload) as [data|] eqn:Ed; [|done]. cbn [res_bind] in H.
  destruct (from_bytes data) as [rs'|] eqn:Eb; [|done]. injection H as ->.
  assert (length payload <= Z.to_nat (m_total_len m))%nat as Hp.
  { destruct (m_parts m <=? 1); [by apply recv_inline_bound in Er; [|cbn; lia]|]. unfold recv_parallel in Er.
    destruct (_ <? _)%nat; [done|]. destruct (read_parts _) as [ps|] eqn:Ep; [|done].
    apply read_parts_wf in Ep; [|by apply Forall_take]. apply place_parts_length in Er; [|done]. rewrite length_replicate in Er. lia. }
  pose proof (decompress_bound _ _ _ _ Ed). exists n, m, rest, payload, data. split; [done|]. split; [done|]. split; [lia|]. split; [lia|done].
Qed.
End roundtrip.

(** ** Examples *)

(** Codecs that do nothing, and a serialisation of one result. *)
#[export] Instance plain_codecs : Codecs := {|
  to_bytes := fun rs => (if bool_decide (rows rs = []) then [] else str "rows");
  from_bytes := fun b => Some (if bool_decide (b = []) then mkResultSet [] [] else rs1);
  wire_len := fun f => match f with
                       | WChunk job _ _ p => (100 + length job + 4 * length p)%nat
                       | WPart job _ _ _ => (150 + length job)%nat
                       | WManifest m => (150 + length (m_job_id m))%nat
                       | WOther => 10%nat
                       end;
  lz4_compress := id; lz4_decompress := fun c n => Some (take n c);
  zstd_encode := fun _ d => Some d; zstd_read := fun c n => Some (take n c) |}.

#[export] Instance plain_codec_laws : CodecLaws plain_codecs.
Proof.
  split; cbn.
  - intros d. by rewrite firstn_all.
  - intros c n d [= <-]. rewrite length_take. lia.
  - by intros level d c limit [= <-].
  - intros. lia.
  - intros. lia.
  - intros. lia.
Qed.

Definition three_streams : SendOpts := mkSendOpts 2 3 2 CNone 3 0.

Example parts_of_a_result :
  match send_result (str "job-1") rs1 three_streams with
  | Some (Ok (control, [a; b; c])) =>
      u_data a = str "ro" /\ u_data b = str "w" /\ u_data c = str "s"
      /\ recv_result control [c; a; b] 1000 16 = Some (Ok rs1)
  | _ => False
  end.
Proof. vm_compute. repeat split; reflexivity. Qed.

(** A part whose offset and length do not fit 64 bits together takes the requester down. *)
Example offset_overflow_panics :
  let m := mkManifest (str "job-1") CNone 4 4 2 in
  let part i off := mkUni (Some (mkFramed 100 (WPart (str "job-1") i off 1))) (str "x") false in
  recv_result [mkFramed 100 (WManifest m)] [part 0 (2 ^ 64 - 1); part 1 0] 1000 16 = None.
Proof. vm_compute. reflexivity. Qed.

(** Parts need not cover the payload: what is missing reads as zero bytes. *)
Example missing_bytes_accepted :
  let m := mkManifest (str "job-1") CNone 4 4 2 in
  let part i := mkUni (Some (mkFramed 100 (WPart (str "job-1") i 0 1))) (str "x") false in
  recv_parallel m [part 0; part 1] = Some (Ok (str "x" ++ replicate 3 Byte.x00)).
Proof. vm_compute. reflexivity. Qed.

(** A frame announced with more than 4 MiB is not read. *)
Example long_frame_refused :
  recv_result [mkFramed (MAX_FRAME_BYTES + 1) WOther] [] 1000 16 = Some (Err (FrameTooLarge (MAX_FRAME_BYTES + 1))).
Proof. reflexivity. Qed.

Definition sent : list Framed * list UniStream :=
  match send_result (str "job-1") rs1 three_streams with Some (Ok x) => x | _ => ([], []) end.

Lemma result_transfer_roundtrip_witness :
  exists control streams, send_result (str "job-1") rs1 three_streams = Some (Ok (control, streams))
    /\ recv_result control (rev streams) 1000 16 = Some (Ok rs1).
Proof.
  destruct (result_transfer_roundtrip (str "job-1") rs1 three_streams 1000 16) as (control & streams & Es & Hr);
    [vm_compute; congruence..|].
  exists control, streams. split; [exact Es|]. apply Hr. symmetry. apply Permutation_rev.
Defined.

Lemma received_result_bounded_witness : exists n m rest payload data, sent.1 = mkFramed n (WManifest m) :: rest
    /\ 1 <= m_parts m <= Z.min 16 MAX_RESULT_PARTS
    /\ Z.of_nat (length payload) <= m_total_len m <= Z.min 1000 MAX_RESULT_BYTES
    /\ Z.of_nat (length data) <= Z.min 1000 MAX_RESULT_BYTES
    /\ decompress (m_compression m) (Z.to_nat (m_uncompressed_len m)) payload = Ok data /\ from_bytes data = Some rs1.
Proof.
  apply (received_result_bounded sent.1 sent.2 1000 16 rs1).
  - vm_compute. repeat constructor; congruence.
  - assert (sent.2 = ltac:(let x := eval vm_compute in sent.2 in exact x)) as -> by (vm_compute; reflexivity).
    repeat apply Forall_cons_2; [..|constructor]; cbn [stream_wf u_header f_msg fmap option_fmap option_map]; unfold in_u; lia.
  - vm_compute. reflexivity.
Defined.
