(* ===== verification/Config.v ===== *)
(** * Configuration: validation and the values derived from it
      (crates/config: lib.rs, economics.rs, antiabuse.rs)

    [validate] is [GridConfig::validate], check by check in the source's order, one
    definition per commented section of the function; [economics_validate] and
    [antiabuse_validate] are the two it calls last.  An error message is represented
    by the name of the setting it names ([Invalid]); the rest of its text is not
    modelled.  The theorems say what every configuration that passes is: the defaults
    pass, a passing configuration is a [well_formed] one, and the QUIC windows and
    timeouts derived from it are the ones the transport can use. *)

From S2P Require Import Prelude Bytes F64 Text Proto Escrow ConfigData.
From Stdlib Require SpecFloat.
From Stdlib Require Import ZifyBool.
#[local] Open Scope duckton_scope.

(** ** Errors *)

Inductive ConfigError :=
| ConfigIo (path : bytes)
| ConfigToml
| ConfigEnv (key : bytes)
| ConfigInvalid (setting : bytes).
#[global] Instance ConfigError_eq_dec : EqDecision ConfigError.
Proof. solve_decision. Defined.

(** [if !b { return inv(..) }]; a message names its setting. *)
Definition require (b : bool) (setting : bytes) : result unit ConfigError :=
  if b then Ok tt else Err (ConfigInvalid setting).

(** [(0.0..=1.0).contains(&x)] *)
Definition in_unit (x : f64) : bool := fle (f64_of_Z 0) x && fle x (f64_of_Z 1).
Definition pct (setting : bytes) (x : f64) : result unit ConfigError := require (in_unit x) setting.

(** [!(x < y)], which holds for a NaN. *)
Definition not_below (x y : f64) : bool := negb (flt x y).

Definition blank (s : bytes) : bool := match trim s with [] => true | _ => false end.

(** Run the checks in order, stop at the first error. *)
Fixpoint all_checks (cs : list (result unit ConfigError)) : result unit ConfigError :=
  match cs with
  | [] => Ok tt
  | c :: cs => _ <-? c ;; all_checks cs
  end.

(** ** Derived values *)

(** [BdpConfig::target_bytes] *)
Definition target_bytes (b : BdpConfig) : Z :=
  let bytes_per_sec := sat_mul 64 (bdp_bandwidth_mbps b) 1000000 / 8 in
  sat_mul 64 bytes_per_sec (bdp_rtt_ms b) / 1000.

(** [QuicTuningConfig::effective_windows]: stream, connection, send. *)
Definition effective_windows (q : QuicTuningConfig) (net : NetworkConfig) : Z * Z * Z :=
  if bdp_enabled (quic_bdp q)
  then let target := target_bytes (quic_bdp q) in
       (target, Z.max (sat_mul 64 target 2) target, sat_mul 64 target 2)
  else (default (net_stream_receive_window net) (quic_stream_receive_window_bytes q),
        default (net_receive_window net) (quic_connection_receive_window_bytes q),
        quic_send_window_bytes q).

(** [SchedulerConfig::stall_timeout_ms] *)
Definition stall_timeout_ms (s : SchedulerConfig) : Z :=
  sat_mul 64 (sch_progress_interval_ms s) (sch_progress_stall_multiplier s).

(** [DataClassCfg::selection_floor] *)
Definition selection_floor (c : DataClassCfg) : option (bytes * f64) :=
  match c with
  | ClassPublic => None
  | ClassInternal => Some (str "L1", lit 85 100)
  | ClassSensitive => Some (str "L2", lit 80 100)
  end.

(** [SandboxConfig::host_serving_secure] *)
Definition host_serving_secure : SandboxConfig :=
  default_SandboxConfig <| sb_enabled := true |> <| sb_process_per_job := true |>.

(** [GridConfig::is_private] *)
Definition is_private (c : GridConfig) : bool := bool_decide (sec_mode (gc_security c) = ModePrivate).

(** [PricingEconomics] *)
Definition NANOTON_PER_TON : Z := 1000000000.
Definition effective_rate_per_second (p : PricingEconomics) : Z :=
  if 0 <? pr_rate_per_second p then pr_rate_per_second p
  else sat_mul 128 (pr_unit_price p) NANOTON_PER_TON.
Definition metered_active (p : PricingEconomics) : bool :=
  bool_decide (pr_model p = Metered) && (0 <? effective_rate_per_second p).

(** [TonNetwork] *)
Definition network_as_str (n : TonNetwork) : bytes :=
  match n with Testnet => str "testnet" | Mainnet => str "mainnet" end.
Definition default_rpc (n : TonNetwork) : bytes :=
  match n with
  | Testnet => str "https://testnet.toncenter.com/api/v2/"
  | Mainnet => str "https://toncenter.com/api/v2/"
  end.
Definition default_explorer (n : TonNetwork) : bytes :=
  match n with Testnet => str "testnet.tonviewer.com" | Mainnet => str "tonviewer.com" end.

(** [EconomicsConfig] *)
Definition resolve_payment (e : EconomicsConfig) (class : DataClassCfg) : PaymentMode :=
  if negb (ec_enabled e) then Free
  else match ec_default_payment e with
       | PrefFree => Free
       | PrefPaid => Paid
       | PrefAuto => match class with ClassPublic => Free | ClassInternal | ClassSensitive => Paid end
       end.
Definition active_settings (e : EconomicsConfig) : NetworkSettings :=
  match ec_network e with Testnet => ec_testnet e | Mainnet => ec_mainnet e end.
Definition resolved_rpc (e : EconomicsConfig) : bytes :=
  default (default_rpc (ec_network e)) (ns_rpc (active_settings e)).
Definition resolved_explorer (e : EconomicsConfig) : bytes :=
  default (default_explorer (ec_network e)) (ns_explorer (active_settings e)).
Definition mainnet_blocked (e : EconomicsConfig) : bool :=
  bool_decide (ec_network e = Mainnet) && negb (ec_mainnet_confirmed e).
(** The error is a fixed text. *)
Definition guard_mainnet (e : EconomicsConfig) : result unit unit :=
  if mainnet_blocked e then Err tt else Ok tt.

(** ** Validation *)

Definition when (b : bool) (r : result unit ConfigError) : result unit ConfigError := if b then r else Ok tt.

Definition validate_protocol (p : ProtocolConfig) : result unit ConfigError :=
  match version_from_str (pc_version p) with
  | Err _ => Err (ConfigInvalid (str "protocol.version"))
  | Ok version =>
      match version_from_str (pc_min_supported_version p) with
      | Err _ => Err (ConfigInvalid (str "protocol.min_supported_version"))
      | Ok min => require (version_le min version) (str "protocol.min_supported_version")
      end
  end.

Definition validate_scheduler (c : GridConfig) : result unit ConfigError :=
  let sch := gc_scheduler c in
  all_checks
    [require (negb (sch_replicas sch =? 0)) (str "scheduler.replicas");
     require (negb (sch_quorum sch =? 0)) (str "scheduler.quorum");
     require (sch_quorum sch <=? sch_replicas sch) (str "scheduler.quorum");
     require (sch_replicas sch <=? disc_candidate_sample_size (gc_discovery c)) (str "discovery.candidate_sample_size");
     pct (str "scheduler.backoff_jitter_frac") (sch_backoff_jitter_frac sch);
     require (sch_backoff_initial_ms sch <=? sch_backoff_max_ms sch) (str "scheduler.backoff_max_ms");
     require (not_below (sch_retry_budget_max_tokens sch) (f64_of_Z 0)) (str "scheduler.retry_budget_max_tokens");
     require (not_below (sch_retry_budget_refill_per_sec sch) (f64_of_Z 0)) (str "scheduler.retry_budget_refill_per_sec")].

Definition validate_liveness (c : GridConfig) : result unit ConfigError :=
  let phi := lv_phi (gc_liveness c) in
  let gossip := disc_gossip (gc_discovery c) in
  all_checks
    [require (negb (fle (phi_convict_threshold phi) (f64_of_Z 0))) (str "liveness.phi.convict_threshold");
     require (negb (phi_window_size phi =? 0)) (str "liveness.phi.window_size");
     require (negb (fle (phi_min_std_ms phi) (f64_of_Z 0))) (str "liveness.phi.min_std_ms");
     require (negb (fle (phi_first_interval_ms phi) (f64_of_Z 0))) (str "liveness.phi.first_interval_ms");
     require (negb (blank (gos_topic gossip))) (str "discovery.gossip.topic");
     require (negb (gos_fanout gossip =? 0)) (str "discovery.gossip.fanout")].

Definition validate_nat (nat : NatConfig) : result unit ConfigError :=
  let rl := nat_relay_limits nat in
  all_checks
    [require (negb (nat_dcutr nat && negb (nat_relay_client nat))) (str "discovery.nat.dcutr");
     require (negb (nat_relay_client nat && (nat_max_relays nat =? 0))) (str "discovery.nat.max_relays");
     require (negb (existsb blank (nat_external_addresses nat))) (str "discovery.nat.external_addresses");
     require (negb (existsb blank (nat_relays nat))) (str "discovery.nat.relays");
     when (nat_act_as_relay nat)
       (all_checks
          [require (negb (rl_max_reservations rl =? 0)) (str "discovery.nat.relay_limits.max_reservations");
           require (negb (rl_max_circuits rl =? 0)) (str "discovery.nat.relay_limits.max_circuits")])].

(** [matches!(s, "L0" | "L1" | "L2")] *)
Definition is_level_name (s : bytes) : bool := existsb (fun l => bool_decide (s = l)) [str "L0"; str "L1"; str "L2"].

Definition validate_trust (t : TrustConfig) : result unit ConfigError :=
  all_checks
    [pct (str "trust.min_trust") (tru_min_trust t);
     pct (str "trust.canary_rate") (tru_canary_rate t);
     pct (str "trust.incorrect_penalty") (tru_incorrect_penalty t);
     pct (str "trust.bootstrap_trust") (tru_bootstrap_trust t);
     require (is_level_name (tru_min_attestation t)) (str "trust.min_attestation")].

Definition validate_budget (c : GridConfig) : result unit ConfigError :=
  let b := gc_budget c in
  let n := gc_network c in
  all_checks
    [require (negb (bud_threads b =? 0)) (str "budget.threads");
     require (negb (bud_max_jobs b =? 0)) (str "budget.max_jobs");
     require (fle (f64_of_Z 0) (bud_local_reserved_fraction b) && flt (bud_local_reserved_fraction b) (f64_of_Z 1))
       (str "budget.local_reserved_fraction");
     require (negb (net_keepalive_ms n =? 0)) (str "network.keepalive_ms");
     require (negb (net_idle_timeout_ms n =? 0)) (str "network.idle_timeout_ms");
     require (net_keepalive_ms n <? net_idle_timeout_ms n) (str "network.keepalive_ms");
     require (negb (net_connect_timeout_ms n =? 0)) (str "network.connect_timeout_ms");
     require (negb (lim_worker_pool_size (gc_limits c) =? 0)) (str "limits.worker_pool_size")].

(** A node id: [b3:] and 64 lowercase hexadecimal digits. *)
Definition is_lower_hex (b : byte) : bool :=
  let v := byte_val b in ((48 <=? v) && (v <=? 57)) || ((97 <=? v) && (v <=? 102)).
Definition is_node_id (entry : bytes) : bool :=
  starts_with (str "b3:") entry && (length (drop 3 entry) =? 64)%nat && forallb is_lower_hex (drop 3 entry).

Definition validate_identity (i : IdentityConfig) : result unit ConfigError :=
  when (bool_decide (idc_pinning_mode i = Allowlist))
    (all_checks
       [require (match idc_allowlist i with [] => false | _ => true end) (str "identity.allowlist");
        require (forallb is_node_id (idc_allowlist i)) (str "identity.allowlist")]).

Definition validate_private (c : GridConfig) : result unit ConfigError :=
  let m := gc_membership c in
  when (is_private c)
    (all_checks
       [require (bool_decide (idc_pinning_mode (gc_identity c) = Allowlist)) (str "identity.pinning_mode");
        require (bool_decide (mem_group_enforcement m = EnforceToken)) (str "membership.group_enforcement");
        require (negb (match mem_networks m with [] => true | _ => false end
                       || existsb (fun n => bool_decide (n = str "default")) (mem_networks m)))
          (str "membership.networks")]).

Definition valid_url_style (s : bytes) : bool :=
  let l := to_ascii_lowercase (trim s) in bool_decide (l = str "path") || bool_decide (l = str "vhost").
(** [BTreeMap::get] *)
Definition map_get {A : Type} (k : bytes) (m : list (bytes * A)) : option A :=
  snd <$> List.find (fun e => bool_decide (e.1 = k)) m.

Definition validate_storage (s : StorageConfig) : result unit ConfigError :=
  let style_ok o := match o with Some u => valid_url_style u | None => true end in
  all_checks
    ([require (match sto_enabled_formats s with [] => false | _ => true end) (str "storage.enabled_formats");
      require (match sto_enabled_providers s with [] => false | _ => true end) (str "storage.enabled_providers");
      require (negb (existsb blank (sto_enabled_providers s))) (str "storage.enabled_providers");
      require (style_ok (sto_url_style s)) (str "storage.url_style")]
     ++ ((fun e : bytes * list (bytes * bytes) =>
            require (style_ok (map_get (str "url_style") e.2)) (str "storage.provider_options." ++ e.1 ++ str ".url_style"))
           <$> sto_provider_options s)).

Definition validate_planner (p : PlannerConfig) : result unit ConfigError :=
  all_checks
    [require (flt (f64_of_Z 0) (pl_ram_fraction p) && fle (pl_ram_fraction p) (f64_of_Z 1)) (str "planner.ram_fraction");
     require (negb (pl_enabled p && (pl_max_concurrent_local_jobs p =? 0))) (str "planner.max_concurrent_local_jobs")].

Definition VARINT_MAX : Z := 2 ^ 62 - 1.
Definition check_window (setting : bytes) (x : Z) : result unit ConfigError :=
  all_checks [require (negb (x =? 0)) setting; require (x <=? VARINT_MAX) setting].

Definition validate_quic (q : QuicTuningConfig) : result unit ConfigError :=
  let opt_window setting o := match o with Some w => check_window setting w | None => Ok tt end in
  all_checks
    [opt_window (str "transport.quic.stream_receive_window_bytes") (quic_stream_receive_window_bytes q);
     opt_window (str "transport.quic.connection_receive_window_bytes") (quic_connection_receive_window_bytes q);
     check_window (str "transport.quic.send_window_bytes") (quic_send_window_bytes q);
     require (negb (quic_max_concurrent_uni_streams q =? 0)) (str "transport.quic.max_concurrent_uni_streams");
     require (negb (quic_enable_0rtt q && (quic_session_ticket_lifetime_secs q =? 0)))
       (str "transport.quic.session_ticket_lifetime_secs");
     when (bdp_enabled (quic_bdp q))
       (all_checks
          [require (negb (bdp_bandwidth_mbps (quic_bdp q) =? 0)) (str "transport.quic.bdp.bandwidth_mbps");
           require (negb (bdp_rtt_ms (quic_bdp q) =? 0)) (str "transport.quic.bdp.rtt_ms");
           check_window (str "transport.quic.bdp target") (target_bytes (quic_bdp q))])].

Definition validate_transfer (t : TransportConfig) : result unit ConfigError :=
  let r := tr_result t in
  let c := tr_compression t in
  all_checks
    [require (negb (rt_parallelism r =? 0)) (str "transport.result.parallelism");
     require (rt_parallelism r <=? quic_max_concurrent_uni_streams (tr_quic t)) (str "transport.result.parallelism");
     require (match rt_chunk_bytes r with Some n => negb (n =? 0) | None => true end) (str "transport.result.chunk_bytes");
     require (negb (rt_max_result_bytes r =? 0)) (str "transport.result.max_result_bytes");
     require (negb (rt_max_result_parts r =? 0)) (str "transport.result.max_result_parts");
     require (negb (bool_decide (cmp_algorithm c = AlgoZstd) && negb ((1 <=? cmp_level c) && (cmp_level c <=? 22))))
       (str "transport.compression.level")].

Definition validate_sandbox (sb : SandboxConfig) : result unit ConfigError :=
  all_checks
    [require (negb (bool_decide (sb_temp_dir_policy sb = TempCustom)
                    && match trim <$> sb_temp_dir sb with Some (_ :: _) => false | _ => true end)) (str "sandbox.temp_dir");
     require (negb (bool_decide (sb_egress_mode sb = EgressExplicit) && existsb blank (sb_egress_allowlist sb)))
       (str "sandbox.egress_allowlist")].

Definition fabs (x : f64) : f64 := SpecFloat.SFabs x.
(** [(x - 1.0).abs() > 1e-9] is false for a NaN. *)
Definition sums_to_one (x : f64) : bool := negb (flt (lit 1 1000000000) (fabs (fsub x (f64_of_Z 1)))).
Definition nonneg_all (xs : list f64) : bool := forallb (fun x => not_below x (f64_of_Z 0)) xs.

Definition validate_slashing (e : EconomicsConfig) : result unit ConfigError :=
  let st := ec_stake e in
  let s := ec_slashing e in
  let sum := fadd (fadd (fadd (sl_slash_to_challenger s) (sl_slash_to_redundancy s)) (sl_slash_to_burn s))
                  (sl_slash_to_treasury s) in
  all_checks
    [require (bool_decide (ec_custody e = str "noncustodial")) (str "economics.custody");
     require (bool_decide (ec_accounting_unit e = str "ton")) (str "economics.accounting_unit");
     require (sl_challenge_window_secs s <=? stk_unbonding_secs st) (str "economics.stake.unbonding_secs");
     require ((stk_min_stake_internal st <=? stk_min_stake_sensitive st) && (stk_min_stake st <=? stk_min_stake_internal st))
       (str "economics.stake");
     require (stk_min_stake st <=? stk_stake_cap st) (str "economics.stake.stake_cap");
     require (sums_to_one sum) (str "economics.slashing");
     pct (str "economics.slashing.slash_wrong_result_pct") (sl_slash_wrong_result_pct s);
     pct (str "economics.slashing.slash_cheat_pct") (sl_slash_cheat_pct s);
     pct (str "economics.slashing.slash_downtime_pct") (sl_slash_downtime_pct s);
     pct (str "economics.slashing.slash_equivocation_pct") (sl_slash_equivocation_pct s);
     pct (str "economics.slashing.slash_failed_commitment_pct") (sl_slash_failed_commitment_pct s);
     pct (str "economics.slashing.slash_to_challenger") (sl_slash_to_challenger s);
     pct (str "economics.slashing.slash_to_redundancy") (sl_slash_to_redundancy s);
     pct (str "economics.slashing.slash_to_burn") (sl_slash_to_burn s);
     pct (str "economics.slashing.slash_to_treasury") (sl_slash_to_treasury s)].

Definition validate_fees (f : FeesEconomics) : result unit ConfigError :=
  all_checks
    [pct (str "economics.fees.platform_fee_pct") (fee_platform_fee_pct f);
     pct (str "economics.fees.verification_surcharge_pct") (fee_verification_surcharge_pct f);
     require (fle (f64_of_Z 0) (fee_participation_commission_frac f) && fle (fee_participation_commission_frac f) (lit 1 10))
       (str "economics.fees.participation_commission_frac");
     pct (str "economics.fees.bonus_aggressiveness") (fee_bonus_aggressiveness f);
     require (sums_to_one (fadd (fee_lambda_quality f) (fee_lambda_speed f))) (str "economics.fees")].

Definition validate_ranking (e : EconomicsConfig) : result unit ConfigError :=
  let r := ec_ranking e in
  let q := ec_quality e in
  let rep := ec_reputation e in
  all_checks
    [require (nonneg_all [rk_w_quality r; rk_w_stake r; rk_w_price r; rk_w_latency r; rk_w_throughput r])
       (str "economics.ranking");
     require (not_below (rk_capability_weight r) (f64_of_Z 0)) (str "economics.ranking.capability_weight");
     pct (str "economics.ranking.exploration_rate") (rk_exploration_rate r);
     pct (str "economics.ranking.newcomer_trust_ceiling") (rk_newcomer_trust_ceiling r);
     pct (str "economics.ranking.stake_reliability_floor") (rk_stake_reliability_floor r);
     require (nonneg_all [qe_w_success q; qe_w_latency q; qe_w_throughput q; qe_w_completion q]) (str "economics.quality");
     require (nonneg_all [re_prior_alpha rep; re_prior_beta rep; re_confidence_z rep]) (str "economics.reputation")].

Definition validate_payment (e : EconomicsConfig) : result unit ConfigError :=
  let sel := ec_selection e in
  let pr := ec_pricing e in
  let rec_ := ec_records e in
  all_checks
    [require (1 <=? sel_checksum_min sel) (str "economics.selection.checksum_min");
     require ((sel_n_default sel <=? sel_n_max sel) && (sel_n_public sel <=? sel_n_default sel)
              && (sel_checksum_min sel <=? sel_n_public sel)) (str "economics.selection");
     require (1 <=? pr_cap_multiplier pr) (str "economics.pricing.cap_multiplier");
     require (not_below (pr_metering_tolerance pr) (f64_of_Z 1)) (str "economics.pricing.metering_tolerance");
     pct (str "economics.records.anchor_quorum_pct") (rec_anchor_quorum_pct rec_);
     require (negb (rec_epoch_secs rec_ =? 0)) (str "economics.records.epoch_secs");
     when (ec_enabled e && (bool_decide (ec_settlement e = RailChannel) || bool_decide (ec_settlement e = RailOnchain)))
       (require (match ec_fee_recipient e with Some a => negb (blank a) | None => false end)
          (str "economics.fee_recipient"))].

(** [EconomicsConfig::validate] *)
Definition economics_validate (e : EconomicsConfig) : result unit ConfigError :=
  all_checks [validate_slashing e; validate_fees (ec_fees e); validate_ranking e; validate_payment e].

(** [AntiAbuseConfig::validate]; the result of its fourth check is dropped by the
    source ([.ok()]). *)
Definition antiabuse_validate (a : AntiAbuseConfig) : result unit ConfigError :=
  let rq := ab_requester_trust a in
  let fr := ab_free_rate_limit a in
  all_checks
    [pct (str "antiabuse.fault_attribution.job_consensus_fraction") (fa_job_consensus_fraction (ab_fault_attribution a));
     pct (str "antiabuse.requester_trust.negative_floor_weight") (rqt_negative_floor_weight rq);
     pct (str "antiabuse.requester_trust.positive_floor_weight") (rqt_positive_floor_weight rq);
     require (not_below (rqt_positive_floor_weight rq) (rqt_negative_floor_weight rq))
       (str "antiabuse.requester_trust.positive_floor_weight");
     require (not_below (cg_max_working_set_factor (ab_cost_gate a)) (f64_of_Z 0))
       (str "antiabuse.cost_gate.max_working_set_factor");
     pct (str "antiabuse.blocklist.auto_block_trust_floor") (blp_auto_block_trust_floor (ab_blocklist a));
     when (frl_enabled fr)
       (all_checks
          [require (negb (frl_window_secs fr =? 0)) (str "antiabuse.free_rate_limit.window_secs");
           require (negb (frl_max_free_per_window fr =? 0)) (str "antiabuse.free_rate_limit.max_free_per_window");
           require (negb (frl_max_tracked_requesters fr =? 0)) (str "antiabuse.free_rate_limit.max_tracked_requesters")])].

(** The layer is active when it is enabled as a whole and on its own. *)
Definition requester_trust_active (a : AntiAbuseConfig) : bool := ab_enabled a && rqt_enabled (ab_requester_trust a).
Definition fault_attribution_active (a : AntiAbuseConfig) : bool := ab_enabled a && fa_enabled (ab_fault_attribution a).
Definition nondeterminism_active (a : AntiAbuseConfig) : bool := ab_enabled a && nd_enabled (ab_nondeterminism a).
Definition cost_gate_active (a : AntiAbuseConfig) : bool := ab_enabled a && cg_enabled (ab_cost_gate a).
Definition free_rate_limit_active (a : AntiAbuseConfig) : bool := ab_enabled a && frl_enabled (ab_free_rate_limit a).

(** [GridConfig::validate] *)
Definition validate (c : GridConfig) : result unit ConfigError :=
  all_checks
    [validate_protocol (gc_protocol c);
     validate_scheduler c;
     validate_liveness c;
     validate_nat (disc_nat (gc_discovery c));
     validate_trust (gc_trust c);
     validate_budget c;
     validate_identity (gc_identity c);
     validate_private c;
     validate_storage (gc_storage c);
     validate_planner (gc_planner c);
     validate_quic (tr_quic (gc_transport c));
     validate_transfer (gc_transport c);
     validate_sandbox (gc_sandbox c);
     economics_validate (gc_economics c);
     antiabuse_validate (gc_antiabuse c)].

(** ** What a configuration that passes is *)

Lemma all_checks_ok cs : all_checks cs = Ok tt <-> Forall (fun r => r = Ok tt) cs.
Proof.
  induction cs as [|[[]|e] cs IH]; simpl; rewrite ?Forall_cons; naive_solver.
Qed.
Lemma require_ok b s : require b s = Ok tt <-> b = true.
Proof. unfold require. destruct b; naive_solver. Qed.
Lemma when_ok b r : when b r = Ok tt <-> (b = true -> r = Ok tt).
Proof. unfold when. destruct b; naive_solver. Qed.
Lemma pct_ok s x : pct s x = Ok tt <-> in01 x.
Proof. unfold pct, in_unit, in01. rewrite require_ok, andb_true_iff. done. Qed.

(** Turn a successful [validate_*] into the conjunction of its conditions. *)
Ltac checks_in H :=
  rewrite ?all_checks_ok, ?Forall_app, ?Forall_cons, ?Forall_nil, ?pct_ok, ?when_ok, ?require_ok in H.

(** The machine widths of the fields the derived values depend on. *)
Record widths (c : GridConfig) : Prop := {
  wd_bandwidth : in_u 32 (bdp_bandwidth_mbps (quic_bdp (tr_quic (gc_transport c))));
  wd_rtt : in_u 32 (bdp_rtt_ms (quic_bdp (tr_quic (gc_transport c))));
  wd_streams : in_u 32 (quic_max_concurrent_uni_streams (tr_quic (gc_transport c)));
  wd_stream_window : forall w, quic_stream_receive_window_bytes (tr_quic (gc_transport c)) = Some w -> in_u 64 w;
  wd_connection_window : forall w, quic_connection_receive_window_bytes (tr_quic (gc_transport c)) = Some w -> in_u 64 w;
  wd_send_window : in_u 64 (quic_send_window_bytes (tr_quic (gc_transport c)));
  wd_replicas : in_u 64 (sch_replicas (gc_scheduler c));
  wd_quorum : in_u 64 (sch_quorum (gc_scheduler c));
  wd_keepalive : in_u 64 (net_keepalive_ms (gc_network c));
  wd_connect : in_u 64 (net_connect_timeout_ms (gc_network c));
  wd_window : in_u 64 (phi_window_size (lv_phi (gc_liveness c)));
  wd_result : in_u 64 (rt_max_result_bytes (tr_result (gc_transport c)));
  wd_parts : in_u 32 (rt_max_result_parts (tr_result (gc_transport c)));
  wd_parallelism : in_u 64 (rt_parallelism (tr_result (gc_transport c)));
}.

(** A window QUIC can carry. *)
Definition quic_window (w : Z) : Prop := 1 <= w <= VARINT_MAX.

(** [level_of s] is [parse_level] of the coordinator: what the string means. *)
Definition parse_level (s : bytes) : AttestationLevel :=
  if bool_decide (s = str "L2") then L2 else if bool_decide (s = str "L1") then L1 else L0.
Definition level_name (l : AttestationLevel) : bytes :=
  match l with L0 => str "L0" | L1 => str "L1" | L2 => str "L2" end.

(** The fractions of the economy: slashing, fees, ranking and anchoring. *)
Definition economic_fractions (e : EconomicsConfig) : list f64 :=
  let s := ec_slashing e in
  let f := ec_fees e in
  let r := ec_ranking e in
  [sl_slash_wrong_result_pct s; sl_slash_cheat_pct s; sl_slash_downtime_pct s; sl_slash_equivocation_pct s;
   sl_slash_failed_commitment_pct s; sl_slash_to_challenger s; sl_slash_to_redundancy s; sl_slash_to_burn s;
   sl_slash_to_treasury s; fee_platform_fee_pct f; fee_verification_surcharge_pct f; fee_bonus_aggressiveness f;
   rk_exploration_rate r; rk_newcomer_trust_ceiling r; rk_stake_reliability_floor r; rec_anchor_quorum_pct (ec_records e)].

(** Not more than a billionth away from one. *)
Definition near_one (x : f64) : Prop := flt (lit 1 1000000000) (fabs (fsub x (f64_of_Z 1))) = false.

Record well_formed (c : GridConfig) : Prop := {
  (* a quorum can be reached by the replicas, and the replicas found among the candidates *)
  wf_quorum : 1 <= sch_quorum (gc_scheduler c) <= sch_replicas (gc_scheduler c);
  wf_candidates : sch_replicas (gc_scheduler c) <= disc_candidate_sample_size (gc_discovery c);
  (* every validated fraction is a number in [0, 1] *)
  wf_fractions : Forall in01
    ([sch_backoff_jitter_frac (gc_scheduler c); tru_min_trust (gc_trust c); tru_canary_rate (gc_trust c);
      tru_incorrect_penalty (gc_trust c); tru_bootstrap_trust (gc_trust c)]
     ++ economic_fractions (gc_economics c)
     ++ [fa_job_consensus_fraction (ab_fault_attribution (gc_antiabuse c));
         rqt_negative_floor_weight (ab_requester_trust (gc_antiabuse c));
         rqt_positive_floor_weight (ab_requester_trust (gc_antiabuse c));
         blp_auto_block_trust_floor (ab_blocklist (gc_antiabuse c))]);
  (* a runner's commission is at most a tenth of the price *)
  wf_commission : fle (f64_of_Z 0) (fee_participation_commission_frac (ec_fees (gc_economics c))) = true
    /\ fle (fee_participation_commission_frac (ec_fees (gc_economics c))) (lit 1 10) = true;
  (* what is slashed is shared out completely *)
  wf_slash_split : let s := ec_slashing (gc_economics c) in
    near_one (fadd (fadd (fadd (sl_slash_to_challenger s) (sl_slash_to_redundancy s)) (sl_slash_to_burn s)) (sl_slash_to_treasury s));
  (* the attestation floor means what it says *)
  wf_level : level_name (parse_level (tru_min_attestation (gc_trust c))) = tru_min_attestation (gc_trust c);
  (* connections are kept alive before they are dropped, and dials end *)
  wf_timeouts : 0 < net_keepalive_ms (gc_network c) < net_idle_timeout_ms (gc_network c)
                /\ 0 < net_connect_timeout_ms (gc_network c);
  (* with BDP sizing, every window is one QUIC can carry; without, the configured ones are *)
  wf_windows : let '(stream, conn, send) := effective_windows (tr_quic (gc_transport c)) (gc_network c) in
    quic_window send
    /\ (quic_window stream \/ stream = net_stream_receive_window (gc_network c))
    /\ (quic_window conn \/ conn = net_receive_window (gc_network c))
    /\ (bdp_enabled (quic_bdp (tr_quic (gc_transport c))) = true -> quic_window stream /\ quic_window conn);
  (* a result can be sent with the streams there are, and received *)
  wf_transfer : 1 <= rt_parallelism (tr_result (gc_transport c)) <= quic_max_concurrent_uni_streams (tr_quic (gc_transport c))
                /\ 1 <= rt_max_result_bytes (tr_result (gc_transport c))
                /\ 1 <= rt_max_result_parts (tr_result (gc_transport c));
  (* a private node pins its peers to listed node ids, asks for tokens and names its network *)
  wf_private : is_private c = true ->
    idc_pinning_mode (gc_identity c) = Allowlist
    /\ idc_allowlist (gc_identity c) <> [] /\ Forall (fun e => is_node_id e = true) (idc_allowlist (gc_identity c))
    /\ mem_group_enforcement (gc_membership c) = EnforceToken
    /\ mem_networks (gc_membership c) <> [] /\ str "default" ∉ mem_networks (gc_membership c);
  (* a stake cannot leave before it can be challenged, and the floors grow with the class *)
  wf_stake : let st := ec_stake (gc_economics c) in
    sl_challenge_window_secs (ec_slashing (gc_economics c)) <= stk_unbonding_secs st
    /\ stk_min_stake st <= stk_min_stake_internal st <= stk_min_stake_sensitive st;
  (* on-chain settlement has somewhere to send its fee *)
  wf_fee : ec_enabled (gc_economics c) = true -> ec_settlement (gc_economics c) = RailOnchain ->
    exists a, ec_fee_recipient (gc_economics c) = Some a /\ blank a = false;
}.

Lemma target_bytes_bound b :
  in_u 32 (bdp_bandwidth_mbps b) -> in_u 32 (bdp_rtt_ms b) -> 0 <= target_bytes b <= umax 64 / 1000.
Proof.
  intros [Hb _] [Hr _]. unfold target_bytes.
  assert (0 <= sat_mul 64 (bdp_bandwidth_mbps b) 1000000) by (apply sat_mul_nonneg; lia).
  assert (0 <= sat_mul 64 (bdp_bandwidth_mbps b) 1000000 / 8) by (apply Z.div_pos; lia).
  split; [apply Z.div_pos; [apply sat_mul_nonneg; lia|lia]|].
  apply Z.div_le_mono; [lia|]. unfold sat_mul. lia.
Qed.

Lemma check_window_ok s w : in_u 64 w -> check_window s w = Ok tt <-> quic_window w.
Proof.
  intros [Hw _]. unfold check_window, quic_window. rewrite all_checks_ok, !Forall_cons, Forall_nil, !require_ok.
  rewrite negb_true_iff, Z.eqb_neq, Z.leb_le. lia.
Qed.

Lemma windows_ok q n :
  in_u 32 (bdp_bandwidth_mbps (quic_bdp q)) -> in_u 32 (bdp_rtt_ms (quic_bdp q)) ->
  (forall w, quic_stream_receive_window_bytes q = Some w -> in_u 64 w) ->
  (forall w, quic_connection_receive_window_bytes q = Some w -> in_u 64 w) ->
  in_u 64 (quic_send_window_bytes q) ->
  validate_quic q = Ok tt ->
  let '(stream, conn, send) := effective_windows q n in
  quic_window send
  /\ (quic_window stream \/ stream = net_stream_receive_window n)
  /\ (quic_window conn \/ conn = net_receive_window n)
  /\ (bdp_enabled (quic_bdp q) = true -> quic_window stream /\ quic_window conn).
Proof.
  intros Hb Hr Hs Hc Hw H. unfold validate_quic in H. checks_in H.
  destruct H as (Hs' & Hc' & Hsend & _ & _ & Hbdp & _). unfold effective_windows.
  destruct (bdp_enabled (quic_bdp q)).
  - specialize (Hbdp eq_refl). checks_in Hbdp. destruct Hbdp as (_ & _ & Ht & _).
    pose proof (target_bytes_bound _ Hb Hr) as Hbound.
    assert (Hmax : umax 64 / 1000 <= 2 ^ 60) by (vm_compute; discriminate).
    assert (H60 : 2 ^ 60 * 2 <= VARINT_MAX) by (vm_compute; discriminate).
    assert (Hu : VARINT_MAX <= umax 64) by (vm_compute; discriminate).
    rewrite check_window_ok in Ht by (unfold in_u, umax, VARINT_MAX in *; lia).
    unfold quic_window in *. rewrite sat_mul_exact by lia. repeat split; intros; try left; lia.
  - rewrite check_window_ok in Hsend by done. split; [done|].
    split; [|split; [|discriminate]].
    + destruct (quic_stream_receive_window_bytes q) as [w|]; [left|by right].
      eapply check_window_ok; eauto.
    + destruct (quic_connection_receive_window_bytes q) as [w|]; [left|by right].
      eapply check_window_ok; eauto.
Qed.

Lemma level_name_exact s : is_level_name s = true -> level_name (parse_level s) = s.
Proof.
  unfold is_level_name. cbn [existsb]. rewrite !orb_true_iff, !bool_decide_eq_true.
  intros [->|[->|[->|?]]]; [vm_compute; reflexivity..|done].
Qed.

Lemma private_ok c :
  validate_identity (gc_identity c) = Ok tt -> validate_private c = Ok tt -> is_private c = true ->
  idc_pinning_mode (gc_identity c) = Allowlist
  /\ idc_allowlist (gc_identity c) <> [] /\ Forall (fun e => is_node_id e = true) (idc_allowlist (gc_identity c))
  /\ mem_group_enforcement (gc_membership c) = EnforceToken
  /\ mem_networks (gc_membership c) <> [] /\ str "default" ∉ mem_networks (gc_membership c).
Proof.
  unfold validate_identity, validate_private. rewrite !when_ok. intros Hi Hp Hpriv. specialize (Hp Hpriv). checks_in Hp.
  rewrite !bool_decide_eq_true in Hp. destruct Hp as (Hpin & Htok & Hnet & _). split; [done|].
  rewrite bool_decide_eq_true in Hi. specialize (Hi Hpin). checks_in Hi. destruct Hi as (Hne & Hall & _).
  apply negb_true_iff, orb_false_iff in Hnet as [Hn Hdef].
  rewrite forallb_forall in Hall.
  split_and!; [by destruct (idc_allowlist _)|apply Forall_forall; intros x Hx%list_elem_of_In; auto|done
              |by destruct (mem_networks _)|].
  intros Hin%list_elem_of_In. assert (existsb (fun n => bool_decide (n = str "default")) (mem_networks (gc_membership c)) = true);
    [|congruence].
  apply existsb_exists. exists (str "default"). split; [done|]. by apply bool_decide_eq_true.
Qed.

Lemma scheduler_ok c :
  widths c -> validate_scheduler c = Ok tt ->
  1 <= sch_quorum (gc_scheduler c) <= sch_replicas (gc_scheduler c)
  /\ sch_replicas (gc_scheduler c) <= disc_candidate_sample_size (gc_discovery c)
  /\ in01 (sch_backoff_jitter_frac (gc_scheduler c)).
Proof.
  intros [] H. unfold validate_scheduler in H. checks_in H. unfold in_u in *. destruct_and!. split_and!; [lia..|done].
Qed.

Lemma budget_ok c :
  widths c -> validate_budget c = Ok tt ->
  0 < net_keepalive_ms (gc_network c) < net_idle_timeout_ms (gc_network c) /\ 0 < net_connect_timeout_ms (gc_network c).
Proof. intros [] H. unfold validate_budget in H. checks_in H. unfold in_u in *. destruct_and!. lia. Qed.

Lemma transfer_ok c :
  widths c -> validate_transfer (gc_transport c) = Ok tt ->
  1 <= rt_parallelism (tr_result (gc_transport c)) <= quic_max_concurrent_uni_streams (tr_quic (gc_transport c))
  /\ 1 <= rt_max_result_bytes (tr_result (gc_transport c)) /\ 1 <= rt_max_result_parts (tr_result (gc_transport c)).
Proof. intros [] H. unfold validate_transfer in H. checks_in H. unfold in_u in *. destruct_and!. lia. Qed.

Lemma stake_ok e :
  validate_slashing e = Ok tt ->
  sl_challenge_window_secs (ec_slashing e) <= stk_unbonding_secs (ec_stake e)
  /\ stk_min_stake (ec_stake e) <= stk_min_stake_internal (ec_stake e) <= stk_min_stake_sensitive (ec_stake e)
  /\ near_one (fadd (fadd (fadd (sl_slash_to_challenger (ec_slashing e)) (sl_slash_to_redundancy (ec_slashing e)))
       (sl_slash_to_burn (ec_slashing e))) (sl_slash_to_treasury (ec_slashing e))).
Proof. intros H. unfold validate_slashing in H. checks_in H. destruct_and!. split_and!; [lia..|]. by apply negb_true_iff. Qed.

Lemma economic_fractions_ok e :
  economics_validate e = Ok tt -> Forall in01 (economic_fractions e)
  /\ fle (f64_of_Z 0) (fee_participation_commission_frac (ec_fees e)) = true
  /\ fle (fee_participation_commission_frac (ec_fees e)) (lit 1 10) = true.
Proof.
  unfold economics_validate. intros H. checks_in H. destruct H as (Hs & Hf & Hr & Hp & _).
  unfold validate_slashing in Hs. checks_in Hs. unfold validate_fees in Hf. checks_in Hf. unfold validate_ranking in Hr. checks_in Hr.
  unfold validate_payment in Hp. checks_in Hp. rewrite andb_true_iff in Hf. destruct_and!.
  split; [|done]. unfold economic_fractions. repeat apply Forall_cons_2; [assumption..|constructor].
Qed.

Lemma fee_recipient_ok e :
  validate_payment e = Ok tt -> ec_enabled e = true -> ec_settlement e = RailOnchain ->
  exists a, ec_fee_recipient e = Some a /\ blank a = false.
Proof.
  intros H He Hr. unfold validate_payment in H. checks_in H. destruct H as (_ & _ & _ & _ & _ & _ & Hf & _).
  rewrite He, Hr in Hf. specialize (Hf eq_refl).
  destruct (ec_fee_recipient e) as [a|]; [|done]. exists a. split; [done|]. by apply negb_true_iff.
Qed.

(** C14: a configuration that [GridConfig::validate] accepts (its fields within their
    Rust widths) is a usable one: a quorum of at least one can be reached by the
    replicas, which fit in the candidate sample; each of the twenty-five fractions the
    validation speaks of - the back-off jitter, the four of trust, every slashing rate
    and share, the platform fee, the verification surcharge, the bonus aggressiveness,
    the exploration rate, the newcomer ceiling, the stake reliability floor, the anchor
    quorum, the consensus fraction, the two floor weights of requester trust and the
    auto-block floor - is a number in [0, 1], a runner's commission one in [0, 0.1], and
    the four slash shares add up to one within a billionth; the attestation floor parses
    back to the very level it names; keep-alives beat the idle timeout; every
    flow-control window sized by the bandwidth-delay product, doubled for the
    connection, still fits a QUIC integer; a private grid pins its peers to listed,
    well-formed node ids, demands group tokens and never joins the default network;
    stake unbonds no sooner than it can be challenged; and on-chain settlement has a fee
    recipient.  Nothing is said of numbers that are not validated as fractions, the
    weights of the trust score among them. *)
Theorem validated_config_well_formed c : widths c -> validate c = Ok tt -> well_formed c.
Proof.
  intros Hw H. unfold validate in H. checks_in H.
  destruct H as (_ & Hsch & _ & _ & Htrust & Hbud & Hid & Hpriv & _ & _ & Hquic & Htr & _ & Heco & Hab & _).
  unfold validate_trust in Htrust. checks_in Htrust. unfold antiabuse_validate in Hab. checks_in Hab.
  destruct (economic_fractions_ok _ Heco) as [Hfr Hcom]. unfold economics_validate in Heco. checks_in Heco.
  destruct Heco as (Hsl & _ & _ & Hpay & _). apply scheduler_ok in Hsch; [|done]. apply stake_ok in Hsl. destruct_and!.
  constructor; [lia|done| |by split|done|by apply level_name_exact|by apply budget_ok|by destruct Hw; apply windows_ok
    |by apply transfer_ok|by apply private_ok|by split|by apply fee_recipient_ok].
  rewrite !Forall_app. split; [|split; [exact Hfr|]]; rewrite !Forall_cons, Forall_nil; done.
Qed.

(** A private grid that settles on chain, with BDP windows. *)
Definition member_id : bytes := str "b3:" ++ repeat (byte_of_Z 97) 64.
Definition private_grid : GridConfig :=
  default_GridConfig
    <| gc_security := mkSecurityConfig ModePrivate |>
    <| gc_identity := mkIdentityConfig None Allowlist [member_id] |>
    <| gc_membership := default_MembershipConfig <| mem_networks := [str "acme"] |> <| mem_group_enforcement := EnforceToken |> |>
    <| gc_transport := default_TransportConfig
         <| tr_quic := default_QuicTuningConfig <| quic_bdp := mkBdpConfig true (umax 32) (umax 32) |> |> |>
    <| gc_economics := default_EconomicsConfig <| ec_enabled := true |> <| ec_settlement := RailOnchain |>
         <| ec_fee_recipient := Some (str "EQfee") |> |>.

Lemma validated_config_well_formed_witness :
  validate private_grid = Ok tt /\ is_private private_grid = true /\ well_formed private_grid.
Proof.
  assert (H : validate private_grid = Ok tt) by (vm_compute; reflexivity).
  split; [exact H|]. split; [vm_compute; reflexivity|].
  apply (validated_config_well_formed private_grid); [|exact H].
  constructor; first [intros w; discriminate | decide_closed].
Defined.

Example defaults_are_valid : validate default_GridConfig = Ok tt.
Proof. vm_compute. reflexivity. Qed.

(** Comparisons written as [x < 0.0] and [x < 1.0] let a NaN through. *)
Example nan_weights_accepted :
  validate (default_GridConfig
    <| gc_economics := default_EconomicsConfig
         <| ec_ranking := default_RankingEconomics <| rk_w_quality := SpecFloat.S754_nan |> |>
         <| ec_pricing := default_PricingEconomics <| pr_metering_tolerance := SpecFloat.S754_nan |> |>
         <| ec_fees := default_FeesEconomics <| fee_lambda_quality := SpecFloat.S754_nan |> |> |>
    <| gc_liveness := default_LivenessConfig
         <| lv_phi := default_PhiAccrualConfig <| phi_convict_threshold := SpecFloat.S754_nan |> |> |>) = Ok tt.
Proof. vm_compute. reflexivity. Qed.

(** The windows of [network] are not checked: zero, or more than QUIC can carry. *)
Example network_windows_unchecked :
  let c := default_GridConfig
    <| gc_network := default_NetworkConfig <| net_stream_receive_window := 0 |> <| net_receive_window := umax 64 |> |> in
  validate c = Ok tt /\ effective_windows (tr_quic (gc_transport c)) (gc_network c) = (0, umax 64, 67108864).
Proof. vm_compute. done. Qed.
