(* ===== verification/Transport.v ===== *)
(** * The transport: framing, version negotiation, pinned connections
      (crates/transport: endpoint.rs, version.rs, verifier.rs)

    A control message travels as a frame: a 4-byte big-endian length, a 2-byte schema
    tag and its JSON payload.  The JSON encoding (serde) and the certificate parser
    (x509-parser) are parameters; a stream is the bytes that arrive on it before it
    ends.  A connection is established in three steps, which [connect] and
    [accept_one] compose: the TLS handshake, whose verifier calls [check] on the peer's
    certificate; the identity and pin check; the version handshake, in which each side
    evaluates the other's [Hello].  Timeouts and the close reason only choose between
    errors and are not modelled.  Error messages are not modelled. *)

From S2P Require Import Prelude Bytes Crypto Proto ConfigData Config.
#[local] Open Scope duckton_scope.

Inductive TransportError :=
| TConnection
| TPinning (expected actual : NodeId)
| TIncompatibleVersion
| TSchemaMismatch (got expected : Z)
| TStream
| TProto
| TFrameTooLarge (len max : Z).
#[global] Instance TransportError_eq_dec : EqDecision TransportError.
Proof. solve_decision. Defined.

Record VersionReject := mkVersionReject { vr_our_version : Version; vr_min_supported : Version }.

(** The envelope; the variants that follow the handshake are [WMsg]. *)
Inductive Wire (Msg : Type) :=
| WHello (h : Hello)
| WVersionReject (r : VersionReject)
| WMsg (m : Msg).
Arguments WHello {Msg}. Arguments WVersionReject {Msg}. Arguments WMsg {Msg}.

(** serde_json's encoding of the envelope. *)
Class WireJson (Msg : Type) := {
  to_bytes : Wire Msg -> option bytes;
  from_bytes : bytes -> option (Wire Msg);
}.
Class WireJsonLaws (Msg : Type) `{WireJson Msg} : Prop :=
  wire_json_roundtrip m bs : to_bytes m = Some bs -> from_bytes bs = Some m.

(** ** Framing *)

Definition MAX_FRAME_BYTES : Z := 4 * 1024 * 1024.

Section framing.
Context {Msg : Type} {J : WireJson Msg}.

(** The bytes a message puts on its stream. *)
Definition write_msg (msg : Wire Msg) : result bytes TransportError :=
  payload <-? ok_or (to_bytes msg) TProto ;;
  let body_len := Z.of_nat (length payload) + 2 in
  guard (body_len <=? MAX_FRAME_BYTES) else TFrameTooLarge body_len MAX_FRAME_BYTES ;;
  Ok (be_bytes 4 (wrap 32 body_len) ++ be_bytes 2 SCHEMA_VERSION ++ payload).

(** [read_exact] *)
Definition read_exact (n : nat) (stream : bytes) : result (bytes * bytes) TransportError :=
  if (n <=? length stream)%nat then Ok (take n stream, drop n stream) else Err TStream.

(** The message and what is left of the stream. *)
Definition read_msg (stream : bytes) : result (Wire Msg * bytes) TransportError :=
  r <-? read_exact 4 stream ;;
  let '(len_buf, stream) := r in
  let len := be_val len_buf in
  guard (len <=? MAX_FRAME_BYTES) else TFrameTooLarge len MAX_FRAME_BYTES ;;
  guard (2 <=? len) else TStream ;;
  r <-? read_exact (Z.to_nat len) stream ;;
  let '(body, rest) := r in
  let schema := be_val (take 2 body) in
  guard (schema =? SCHEMA_VERSION) else TSchemaMismatch schema SCHEMA_VERSION ;;
  m <-? ok_or (from_bytes (drop 2 body)) TProto ;;
  Ok (m, rest).
End framing.

(** ** Version negotiation *)

Record VersionInfo := mkVersionInfo {
  vi_version : Version;
  vi_min_supported : Version;
  vi_engine_version : bytes;
  vi_extension_version : bytes;
  vi_require_matching_engine : bool;
}.

Record Negotiated := mkNegotiated {
  ng_version : Version;
  ng_peer_engine_version : bytes;
  ng_peer_extension_version : bytes;
}.

(** [VersionInfo::from_config]; [pkg_version] is the crate's version at compile time. *)
Definition from_config (pkg_version : bytes) (cfg : ProtocolConfig) (engine_version : bytes) : result VersionInfo TransportError :=
  match version_from_str (pc_version cfg), version_from_str (pc_min_supported_version cfg) with
  | Ok v, Ok m => Ok (mkVersionInfo v m engine_version pkg_version (pc_require_matching_engine_version cfg))
  | _, _ => Err TIncompatibleVersion
  end.

Definition hello (v : VersionInfo) (id : NodeId) : Hello :=
  mkHello SCHEMA_VERSION (vi_version v) (vi_min_supported v) id (vi_engine_version v) (vi_extension_version v).

Definition negotiate (v : VersionInfo) (peer : Hello) : result Negotiated TransportError :=
  guard (h_schema_version peer =? SCHEMA_VERSION) else TIncompatibleVersion ;;
  guard same_major (vi_version v) (h_protocol_version peer) else TIncompatibleVersion ;;
  guard negb (version_lt (h_protocol_version peer) (vi_min_supported v)) else TIncompatibleVersion ;;
  guard negb (version_lt (vi_version v) (h_min_supported peer)) else TIncompatibleVersion ;;
  guard negb (vi_require_matching_engine v && negb (bool_decide (vi_engine_version v = []))
              && negb (bool_decide (h_engine_version peer = vi_engine_version v))) else TIncompatibleVersion ;;
  Ok (mkNegotiated (version_min (vi_version v) (h_protocol_version peer)) (h_engine_version peer) (h_extension_version peer)).

Section handshake.
Context {Msg : Type} {J : WireJson Msg}.

(** What each side does on the hello stream: [handshake_client] sends its frame and
    evaluates the reply, [handshake_server] evaluates the frame it receives and
    returns its result with the bytes it answers. *)
Definition client_hello (info : VersionInfo) (id : NodeId) : result bytes TransportError :=
  write_msg (Msg := Msg) (WHello (hello info id)).

Definition handshake_client (info : VersionInfo) (id : NodeId) (reply : bytes) : result Negotiated TransportError :=
  _ <-? client_hello info id ;;
  r <-? read_msg (Msg := Msg) reply ;;
  match r.1 with
  | WHello peer => negotiate info peer
  | WVersionReject _ => Err TIncompatibleVersion
  | WMsg _ => Err TConnection
  end.

Definition handshake_server (info : VersionInfo) (id : NodeId) (received : bytes) : result Negotiated TransportError * bytes :=
  match read_msg (Msg := Msg) received with
  | Err e => (Err e, [])
  | Ok (WHello peer, _) =>
      match negotiate info peer with
      | Ok neg =>
          match write_msg (Msg := Msg) (WHello (hello info id)) with
          | Ok bs => (Ok neg, bs)
          | Err e => (Err e, [])
          end
      | Err e =>
          (Err e, match write_msg (Msg := Msg) (WVersionReject (mkVersionReject (vi_version info) (vi_min_supported info))) with
                  | Ok bs => bs
                  | Err _ => []
                  end)
      end
  | Ok _ => (Err TConnection, [])
  end.

(** The two sides over streams that deliver what is written. *)
Definition handshake (client : VersionInfo) (cid : NodeId) (server : VersionInfo) (sid : NodeId)
    : result Negotiated TransportError * result Negotiated TransportError :=
  let sent := match client_hello client cid with Ok bs => bs | Err _ => [] end in
  let '(server_result, reply) := handshake_server server sid sent in
  (handshake_client client cid reply, server_result).
End handshake.

(** ** Identity and pinning *)

(** What x509-parser reads from a certificate: the algorithm identifier of its public
    key and the key. *)
Class CertParser := {
  parse_spki : bytes -> option (bytes * bytes);
  OID_SIG_ED25519 : bytes;
}.

Record PinPolicy := mkPinPolicy { pp_mode : PinningMode; pp_allowlist : list bytes }.
Definition pin_policy (i : IdentityConfig) : PinPolicy := mkPinPolicy (idc_pinning_mode i) (idc_allowlist i).

Record Conn := mkConn { conn_peer : NodeId; conn_negotiated : Negotiated }.

Section connect.
Context {C : Crypto} {X : CertParser} {Msg : Type} {J : WireJson Msg}.

Definition node_id_from_cert (cert : bytes) : option NodeId :=
  match parse_spki cert with
  | Some (oid, key) =>
      if bool_decide (oid = OID_SIG_ED25519) && (length key =? 32)%nat then Some (from_pubkey key) else None
  | None => None
  end.

(** [PinPolicy::check] *)
Definition check (p : PinPolicy) (cert : bytes) : bool :=
  match node_id_from_cert cert with
  | None => false
  | Some id => match pp_mode p with
               | Tofu => true
               | Allowlist => existsb (fun e => bool_decide (e = id)) (pp_allowlist p)
               end
  end.

(** The TLS handshake with a peer that presents [chain]: it fails when the verifier
    refuses the end-entity certificate ([verify_server_cert], [verify_client_cert]). *)
Definition tls (p : PinPolicy) (chain : list bytes) : result (list bytes) TransportError :=
  match chain with
  | cert :: _ => if check p cert then Ok chain else Err TConnection
  | [] => Err TConnection
  end.

Definition peer_node_id (chain : list bytes) : result NodeId TransportError :=
  match chain with
  | cert :: _ => ok_or (node_id_from_cert cert) TConnection
  | [] => Err TConnection
  end.

(** [QuicTransport::connect]: the client role; [reply] is what the peer answers. *)
Definition connect (p : PinPolicy) (info : VersionInfo) (my_id : NodeId) (chain : list bytes) (expected : option NodeId)
    (reply : bytes) : result Conn TransportError :=
  chain <-? tls p chain ;;
  peer <-? peer_node_id chain ;;
  guard match expected with Some e => bool_decide (peer = e) | None => true end
    else TPinning (default [] expected) peer ;;
  neg <-? handshake_client (Msg := Msg) info my_id reply ;;
  Ok (mkConn peer neg).

(** [accept_one]: the server role. *)
Definition accept_one (p : PinPolicy) (info : VersionInfo) (my_id : NodeId) (chain : list bytes) (received : bytes)
    : result Conn TransportError :=
  chain <-? tls p chain ;;
  peer <-? peer_node_id chain ;;
  neg <-? (handshake_server (Msg := Msg) info my_id received).1 ;;
  Ok (mkConn peer neg).
End connect.

(** ** Frames *)

Section frame_facts.
Context {Msg : Type} {J : WireJson Msg} {JL : WireJsonLaws Msg}.

Definition write_msgs (ms : list (Wire Msg)) : result bytes TransportError :=
  foldr (fun m acc => bs <-? write_msg m ;; rest <-? acc ;; Ok (bs ++ rest)) (Ok []) ms.

Fixpoint read_msgs (n : nat) (stream : bytes) : result (list (Wire Msg) * bytes) TransportError :=
  match n with
  | O => Ok ([], stream)
  | S n => r <-? read_msg stream ;; rs <-? read_msgs n r.2 ;; Ok (r.1 :: rs.1, rs.2)
  end.

Lemma read_exact_app n a b : length a = n -> read_exact n (a ++ b) = Ok (a, b).
Proof.
  intros <-. unfold read_exact. rewrite length_app, (proj2 (Nat.leb_le _ _)) by lia.
  by rewrite take_app_length, drop_app_length.
Qed.

Lemma write_msg_inv m bs :
  write_msg m = Ok bs ->
  exists payload, to_bytes m = Some payload /\ 2 <= Z.of_nat (length payload) + 2 <= MAX_FRAME_BYTES
    /\ bs = be_bytes 4 (Z.of_nat (length payload) + 2) ++ be_bytes 2 SCHEMA_VERSION ++ payload.
Proof.
  unfold write_msg. rewrite res_bind_ok. intros (p & Hp%ok_or_ok & H).
  destruct (Z.leb_spec (Z.of_nat (length p) + 2) MAX_FRAME_BYTES) as [Hle|]; [|done].
  exists p. split_and!; [done|lia|done|]. injection H as <-. unfold wrap. rewrite Z.mod_small; [done|].
  assert (MAX_FRAME_BYTES < 2 ^ 32) by (vm_compute; reflexivity). lia.
Qed.

Lemma read_write_msg m bs rest : write_msg m = Ok bs -> read_msg (bs ++ rest) = Ok (m, rest).
Proof using JL.
  intros (p & Hp & Hlen & ->)%write_msg_inv. unfold read_msg.
  rewrite <- app_assoc, read_exact_app by apply length_be_bytes. cbn [res_bind].
  assert (MAX_FRAME_BYTES < 256 ^ Z.of_nat 4) by (vm_compute; reflexivity).
  rewrite be_val_bytes by lia. rewrite (proj2 (Z.leb_le _ _)), (proj2 (Z.leb_le 2 _)) by lia.
  rewrite read_exact_app by (rewrite length_app, length_be_bytes; lia). cbn [res_bind].
  rewrite take_app_length', drop_app_length' by (symmetry; apply length_be_bytes).
  rewrite be_val_bytes by (vm_compute; split; congruence). rewrite Z.eqb_refl.
  by rewrite (wire_json_roundtrip _ _ Hp).
Qed.

(** A sequence of control messages written to a stream is read back as it was
    written, whatever follows on the stream, and each of its frames stays within the
    frame limit. *)
Theorem frames_roundtrip ms bs rest :
  write_msgs ms = Ok bs ->
  read_msgs (length ms) (bs ++ rest) = Ok (ms, rest)
  /\ Z.of_nat (length bs) <= Z.of_nat (length ms) * (4 + MAX_FRAME_BYTES).
Proof using JL.
  revert bs. induction ms as [|m ms IH]; intros bs; cbn [write_msgs foldr read_msgs length].
  { intros [= <-]. split; [done|]. cbn [length]. lia. }
  rewrite res_bind_ok. intros (b & Hb & H). rewrite res_bind_ok in H. destruct H as (r & Hr & [= <-]).
  destruct (IH r Hr) as [IHr IHl]. split.
  - rewrite <- app_assoc, (read_write_msg _ _ _ Hb). cbn [res_bind snd fst]. by rewrite IHr.
  - apply write_msg_inv in Hb as (p & _ & Hp & ->). rewrite !length_app, !length_be_bytes. lia.
Qed.
End frame_facts.

(** ** The handshake *)

Lemma version_le_trans a b c : version_le a b = true -> version_le b c = true -> version_le a c = true.
Proof. rewrite !version_le_spec. lia. Qed.
Lemma version_min_glb a b c : version_le c a = true -> version_le c b = true -> version_le c (version_min a b) = true.
Proof. unfold version_min. by destruct (version_le a b). Qed.

(** Local [a] insists on the engine of [b], which is another. *)
Definition engine_refused (a b : VersionInfo) : bool :=
  vi_require_matching_engine a && negb (bool_decide (vi_engine_version a = []))
  && negb (bool_decide (vi_engine_version b = vi_engine_version a)).

(** Same major version, each side at least the other's minimum. *)
Definition compatible (a b : VersionInfo) : bool :=
  same_major (vi_version a) (vi_version b)
  && version_le (vi_min_supported a) (vi_version b) && version_le (vi_min_supported b) (vi_version a).

Definition agreed (a b : VersionInfo) : Negotiated :=
  mkNegotiated (version_min (vi_version a) (vi_version b)) (vi_engine_version b) (vi_extension_version b).

Lemma negotiate_hello a b id :
  negotiate a (hello b id) = if compatible a b && negb (engine_refused a b) then Ok (agreed a b) else Err TIncompatibleVersion.
Proof.
  unfold negotiate, hello, compatible, engine_refused, agreed, version_le.
  cbn [h_schema_version h_protocol_version h_min_supported h_engine_version h_extension_version].
  rewrite Z.eqb_refl.
  destruct (same_major _ _), (version_lt (vi_version b) _), (version_lt (vi_version a) _); done.
Qed.

Lemma compatible_sym a b : compatible a b = compatible b a.
Proof.
  unfold compatible, same_major. rewrite Z.eqb_sym, <- !andb_assoc. f_equal. apply andb_comm.
Qed.

Lemma version_min_one a b : version_min a b = a \/ version_min a b = b.
Proof. unfold version_min. destruct (version_le _ _); [by left|by right]. Qed.

Section handshake_facts.
Context {Msg : Type} {J : WireJson Msg} {JL : WireJsonLaws Msg}.

Lemma handshake_result client cid server sid :
  is_ok (client_hello (Msg := Msg) client cid) = true -> is_ok (client_hello (Msg := Msg) server sid) = true ->
  let '(rc, rs) := handshake (Msg := Msg) client cid server sid in
  (rs = if compatible client server && negb (engine_refused server client) then Ok (agreed server client)
        else Err TIncompatibleVersion)
  /\ match rc with
     | Ok n => n = agreed client server
               /\ compatible client server = true /\ engine_refused server client = false /\ engine_refused client server = false
     | Err _ => compatible client server = false \/ engine_refused server client = true \/ engine_refused client server = true
     end.
Proof using JL.
  unfold handshake, handshake_server, handshake_client. unfold client_hello.
  destruct (write_msg (WHello (hello client cid))) as [cb|] eqn:Ec; [|done]. intros _.
  destruct (write_msg (WHello (hello server sid))) as [sb|] eqn:Es; [|done]. intros _.
  pose proof (read_write_msg _ _ [] Ec) as Rc. pose proof (read_write_msg _ _ [] Es) as Rs.
  rewrite app_nil_r in Rc, Rs. rewrite Rc, negotiate_hello, (compatible_sym server client).
  destruct (compatible client server) eqn:Hc, (engine_refused server client) eqn:He; cbn [andb negb res_bind];
    try (split; [done|]).
  2: { rewrite Rs. cbn [res_bind fst]. rewrite negotiate_hello, Hc. cbn [andb].
       destruct (engine_refused client server); cbn [negb]; auto. }
  all: destruct (write_msg (WVersionReject _)) as [rb|] eqn:Er;
    [pose proof (read_write_msg _ _ [] Er) as Rr; rewrite app_nil_r in Rr; rewrite Rr|]; cbn; auto.
Qed.

Lemma from_config_ok pkg c engine :
  validate c = Ok tt ->
  exists v, from_config pkg (gc_protocol c) engine = Ok v /\ version_le (vi_min_supported v) (vi_version v) = true
    /\ vi_engine_version v = engine /\ vi_require_matching_engine v = pc_require_matching_engine_version (gc_protocol c).
Proof.
  unfold validate. rewrite all_checks_ok, Forall_cons. intros [H _]. unfold validate_protocol in H. unfold from_config.
  destruct (version_from_str (pc_version _)) as [v|]; [|done].
  destruct (version_from_str (pc_min_supported_version _)) as [m|]; [|done].
  apply require_ok in H. by eexists.
Qed.

(** C18: two nodes with validated configurations whose hello frames fit (every hello
    the code builds is far below the limit) end the version handshake in agreement: a
    client that accepts has a server that accepted the same version, which is the lower
    of the two versions (one of them and at most either) and at least the minimum of
    both, and knows the other's engine; when the versions are incompatible both sides
    refuse; and the server is left alone with an accepted connection only when the
    client insists on an engine the server does not run. *)
Theorem handshake_agreement pkg cc sc ec es cid sid :
  validate cc = Ok tt -> validate sc = Ok tt ->
  exists client server,
    from_config pkg (gc_protocol cc) ec = Ok client /\ from_config pkg (gc_protocol sc) es = Ok server
    /\ (is_ok (client_hello (Msg := Msg) client cid) = true -> is_ok (client_hello (Msg := Msg) server sid) = true ->
        let '(rc, rs) := handshake (Msg := Msg) client cid server sid in
        (forall n, rc = Ok n -> exists m, rs = Ok m /\ ng_version n = ng_version m
             /\ (ng_version n = vi_version client \/ ng_version n = vi_version server)
             /\ version_le (ng_version n) (vi_version client) = true /\ version_le (ng_version n) (vi_version server) = true
             /\ version_le (vi_min_supported client) (ng_version n) = true
             /\ version_le (vi_min_supported server) (ng_version n) = true
             /\ ng_peer_engine_version n = es /\ ng_peer_engine_version m = ec)
        /\ (compatible client server = false -> is_ok rc = false /\ is_ok rs = false)
        /\ (is_ok rs = true -> is_ok rc = false ->
             pc_require_matching_engine_version (gc_protocol cc) = true /\ ec <> [] /\ es <> ec)
        /\ (compatible client server = true ->
             pc_require_matching_engine_version (gc_protocol cc) = false ->
             pc_require_matching_engine_version (gc_protocol sc) = false -> is_ok rc = true)).
Proof using JL.
  intros (client & Hc & Hmc & Hec & Hqc)%(from_config_ok pkg _ ec) (server & Hs & Hms & Hes & Hqs)%(from_config_ok pkg _ es).
  exists client, server. split; [done|]. split; [done|]. intros Wc Ws. pose proof (handshake_result _ _ _ _ Wc Ws) as H.
  destruct (handshake client cid server sid) as [rc rs]. destruct H as [-> H].
  assert (Hcomp : compatible client server = true -> version_le (vi_min_supported client) (vi_version server) = true
            /\ version_le (vi_min_supported server) (vi_version client) = true).
  { unfold compatible. intros Hx. apply andb_true_iff in Hx as [Hx H2]. by apply andb_true_iff in Hx as [_ H1]. }
  split_and!.
  - intros n ->. destruct H as (-> & Hcm & He1 & He2). rewrite Hcm, He1. exists (agreed server client).
    destruct (Hcomp Hcm). pose proof (version_min_le (vi_version client) (vi_version server)) as [L1 L2].
    split_and!; [done|apply version_min_comm|apply version_min_one|done|done|by apply version_min_glb|by apply version_min_glb|done|done].
  - intros Hcm. rewrite Hcm. split; [|done]. destruct rc; [|done]. by destruct H as (_ & H & _); rewrite Hcm in H.
  - destruct rc; [done|]. destruct (compatible client server), (engine_refused server client); cbn; try done.
    intros _ _. destruct H as [|[|H]]; [done..|]. unfold engine_refused in H. rewrite Hqc, Hec, Hes in H.
    rewrite !andb_true_iff, !negb_true_iff, !bool_decide_eq_false in H. by destruct H as [[? ?] ?].
  - intros Hcm H1 H2. destruct rc; [done|]. unfold engine_refused in H. rewrite Hqc, Hqs, H1, H2, Hcm in H.
    cbn in H. by destruct H as [|[|]].
Qed.
End handshake_facts.

(** ** Pinned connections *)

Section pin_facts.
Context {C : Crypto} {X : CertParser} {Msg : Type} {J : WireJson Msg}.

(** [id] is the identity of the key in the end-entity certificate of [chain]. *)
Definition cert_identity (chain : list bytes) (id : NodeId) : Prop :=
  exists cert rest key, chain = cert :: rest /\ parse_spki cert = Some (OID_SIG_ED25519, key) /\ length key = 32%nat
    /\ id = from_pubkey key.

Lemma tls_peer p chain chain' peer :
  tls p chain = Ok chain' -> peer_node_id chain' = Ok peer ->
  cert_identity chain peer /\ (pp_mode p = Allowlist -> peer ∈ pp_allowlist p).
Proof.
  unfold tls, peer_node_id. destruct chain as [|cert rest]; [done|].
  destruct (check p cert) eqn:Hc; [|done]. intros [= <-]. rewrite ok_or_ok. intros Hid. unfold check in Hc. rewrite Hid in Hc.
  split.
  - unfold node_id_from_cert in Hid. destruct (parse_spki cert) as [[oid key]|] eqn:Ek; [|done].
    destruct (bool_decide_reflect (oid = OID_SIG_ED25519)) as [->|]; [|done]. cbn [andb] in Hid.
    destruct (length key =? 32)%nat eqn:El; [|done]. apply Nat.eqb_eq in El. injection Hid as <-. by exists cert, rest, key.
  - intros Hm. rewrite Hm in Hc. apply existsb_exists in Hc as (e & He & ->%bool_decide_eq_true). by apply list_elem_of_In.
Qed.

(** C19: a private grid is closed: with a validated private configuration, every
    connection the node establishes, dialled or accepted, is with a peer on its
    allowlist, whose node id is the hash of the Ed25519 key in the certificate it
    presented (whatever its Hello claims), and with the very peer it meant to dial. *)
Theorem private_grid_closed c info my_id :
  validate c = Ok tt -> is_private c = true ->
  (forall chain expected reply conn,
     connect (Msg := Msg) (pin_policy (gc_identity c)) info my_id chain expected reply = Ok conn ->
     conn_peer conn ∈ idc_allowlist (gc_identity c) /\ is_node_id (conn_peer conn) = true
     /\ cert_identity chain (conn_peer conn) /\ (forall e, expected = Some e -> conn_peer conn = e))
  /\ (forall chain received conn,
       accept_one (Msg := Msg) (pin_policy (gc_identity c)) info my_id chain received = Ok conn ->
       conn_peer conn ∈ idc_allowlist (gc_identity c) /\ is_node_id (conn_peer conn) = true
       /\ cert_identity chain (conn_peer conn)).
Proof.
  intros Hv Hp. unfold validate in Hv. checks_in Hv. destruct Hv as (_ & _ & _ & _ & _ & _ & Hid & Hpr & _).
  destruct (private_ok c Hid Hpr Hp) as (Hmode & _ & Hall & _). rewrite Forall_forall in Hall. split.
  - intros chain expected reply conn. unfold connect. rewrite res_bind_ok. intros (ch & Ht & H).
    rewrite res_bind_ok in H. destruct H as (peer & Hpeer & H). destruct (tls_peer _ _ _ _ Ht Hpeer) as [Hci Hal].
    destruct expected as [e|]; [destruct (bool_decide_reflect (peer = e)) as [->|]; [|done]|];
      rewrite res_bind_ok in H; destruct H as (neg & _ & [= <-]); cbn [conn_peer];
      split_and!; [by apply Hal|by apply Hall, Hal|done|congruence|by apply Hal|by apply Hall, Hal|done|done].
  - intros chain received conn. unfold accept_one. rewrite res_bind_ok. intros (ch & Ht & H).
    rewrite res_bind_ok in H. destruct H as (peer & Hpeer & H). destruct (tls_peer _ _ _ _ Ht Hpeer) as [Hci Hal].
    rewrite res_bind_ok in H. destruct H as (neg & _ & [= <-]). cbn [conn_peer].
    split_and!; [by apply Hal|by apply Hall, Hal|done].
Qed.
End pin_facts.

(** ** Examples

    A codec for a table of messages: a message is encoded as its index. *)

#[global] Instance Hello_eq_dec : EqDecision Hello.
Proof. solve_decision. Defined.
#[global] Instance VersionReject_eq_dec : EqDecision VersionReject.
Proof. solve_decision. Defined.
#[global] Instance Wire_eq_dec {Msg} `{EqDecision Msg} : EqDecision (Wire Msg).
Proof. solve_decision. Defined.

Definition table_json (tbl : list (Wire unit)) : WireJson unit := {|
  to_bytes m := (fun e => be_bytes 2 (Z.of_nat e.1)) <$> list_find (m =.) (take 1000 tbl);
  from_bytes bs := tbl !! Z.to_nat (be_val bs);
|}.
Lemma table_json_laws tbl : @WireJsonLaws unit (table_json tbl).
Proof.
  intros m bs. cbn [to_bytes from_bytes table_json]. intros ([i m'] & Hf & ->)%fmap_Some_1.
  apply list_find_Some in Hf as (Hi & <- & _). apply lookup_take_Some in Hi as [Hi Hlt]. cbn [fst].
  rewrite be_val_bytes by (change (256 ^ Z.of_nat 2) with 65536; lia). by rewrite Nat2Z.id.
Qed.

Definition peer_a : NodeId := str "b3:a".
Definition peer_b : NodeId := str "b3:b".
(** Nodes at 1.0.0 and 1.2.0, the latter supporting 1.0.0. *)
Definition newer : GridConfig :=
  default_GridConfig <| gc_protocol := mkProtocolConfig (str "1.2.0") (str "1.0.0") true |>.
Definition info_old : VersionInfo := mkVersionInfo (mkVersion 1 0 0) (mkVersion 1 0 0) (str "duckdb 1") (str "0.1") false.
Definition info_new : VersionInfo := mkVersionInfo (mkVersion 1 2 0) (mkVersion 1 0 0) (str "duckdb 1") (str "0.1") true.
Definition table : list (Wire unit) := [WHello (hello info_old peer_a); WHello (hello info_new peer_b); WMsg tt].

Lemma frames_roundtrip_witness :
  exists bs, @write_msgs unit (table_json table) table = Ok bs
    /\ @read_msgs unit (table_json table) 3 (bs ++ str "next") = Ok (table, str "next").
Proof.
  eexists. split; [vm_compute; reflexivity|].
  apply (@frames_roundtrip unit (table_json table) (table_json_laws table) table).
  vm_compute. reflexivity.
Defined.

Lemma handshake_agreement_witness :
  exists client server,
    from_config (str "0.1") (gc_protocol default_GridConfig) (str "duckdb 1") = Ok client
    /\ from_config (str "0.1") (gc_protocol newer) (str "duckdb 1") = Ok server
    /\ client = info_old /\ server = info_new
    /\ is_ok (@client_hello unit (table_json table) client peer_a) = true
    /\ is_ok (@client_hello unit (table_json table) server peer_b) = true
    /\ @handshake unit (table_json table) client peer_a server peer_b = (Ok (agreed client server), Ok (agreed server client)).
Proof.
  destruct (@handshake_agreement unit (table_json table) (table_json_laws table) (str "0.1") default_GridConfig newer
              (str "duckdb 1") (str "duckdb 1") peer_a peer_b) as (client & server & Hc & Hs & _);
    [vm_compute; reflexivity..|].
  exists client, server. split; [exact Hc|]. split; [exact Hs|].
  assert (Ec : client = info_old) by (vm_compute in Hc; injection Hc as <-; reflexivity).
  assert (Es : server = info_new) by (vm_compute in Hs; injection Hs as <-; reflexivity).
  subst. vm_compute. repeat split; reflexivity.
Defined.

(** A certificate that is its key. *)
Definition key_cert : CertParser := {| parse_spki c := Some ([], c); OID_SIG_ED25519 := [] |}.
Definition member_key : bytes := repeat (byte_of_Z 7) 32.
Definition closed_grid : GridConfig :=
  private_grid <| gc_identity := mkIdentityConfig None Allowlist [@from_pubkey toy_crypto member_key] |>.

Lemma private_grid_closed_witness :
  validate closed_grid = Ok tt /\ is_private closed_grid = true
  /\ exists conn, @connect toy_crypto key_cert unit (table_json table) (pin_policy (gc_identity closed_grid)) info_old peer_a
       [member_key] None (be_bytes 4 4 ++ be_bytes 2 1 ++ be_bytes 2 1) = Ok conn
     /\ conn_peer conn ∈ idc_allowlist (gc_identity closed_grid) /\ is_node_id (conn_peer conn) = true.
Proof.
  assert (Hv : validate closed_grid = Ok tt) by (vm_compute; reflexivity).
  assert (Hp : is_private closed_grid = true) by (vm_compute; reflexivity).
  split; [exact Hv|]. split; [exact Hp|].
  destruct (@private_grid_closed toy_crypto key_cert unit (table_json table) closed_grid info_old peer_a Hv Hp) as [Hc _].
  eexists. split; [vm_compute; reflexivity|].
  destruct (Hc [member_key] None (be_bytes 4 4 ++ be_bytes 2 1 ++ be_bytes 2 1) _ ltac:(vm_compute; reflexivity)) as (H1 & H2 & _).
  split; [exact H1|exact H2].
Defined.
