(* ===== verification/Overrides.v ===== *)
(** * Per-call overrides (crates/config/overrides.rs) and the configuration the
      coordinator dispatches with (node/coordinator.rs)

    [query_apply] is [QueryOverrides::apply], assignment by assignment, ending in
    [validate]; [share_apply] and [join_apply] are the other two.  [dispatch_config]
    and [redispatch_config] read off a configuration what [Dispatch] and [Redispatch]
    take, and [dispatch_query] is the part of [dispatch_to_grid] that turns a call into
    the query they run. *)

From S2P Require Import Prelude Bytes F64 Text Crypto Proto Escrow Reputation Attest TonRail.
From S2P Require Import Membership Redispatch Dispatch ConfigData Config.
From Stdlib Require SpecFloat.
#[local] Open Scope duckton_scope.

(** ** Queries *)

Record QueryOverrides := mkQueryOverrides {
  ov_replicas : option Z;
  ov_quorum : option Z;
  ov_min_trust : option f64;
  ov_min_attestation : option bytes;
  ov_verify : option VerifyModeCfg;
  ov_dispatch_timeout_ms : option Z;
  ov_attempt_deadline_ms : option Z;
  ov_max_retries : option Z;
  ov_max_total_duration_ms : option Z;
  ov_result_parallelism : option Z;
  ov_compression : option CompressionAlgo;
  ov_prefer : option PreferMode;
  ov_payment : option PaymentPref;
  ov_data_class : option DataClassCfg;
  ov_require_staked_hosts : option bool;
  ov_network : option bytes;
  ov_groups : list bytes;
  ov_regions : list bytes;
  ov_nodes : list bytes;
}.
#[export] Instance QueryOverrides_eta : Eta QueryOverrides := fun r =>
  mkQueryOverrides (ov_replicas r) (ov_quorum r) (ov_min_trust r) (ov_min_attestation r) (ov_verify r)
    (ov_dispatch_timeout_ms r) (ov_attempt_deadline_ms r) (ov_max_retries r) (ov_max_total_duration_ms r)
    (ov_result_parallelism r) (ov_compression r) (ov_prefer r) (ov_payment r) (ov_data_class r)
    (ov_require_staked_hosts r) (ov_network r) (ov_groups r) (ov_regions r) (ov_nodes r).
Definition no_overrides : QueryOverrides :=
  mkQueryOverrides None None None None None None None None None None None None None None None None [] [] [].

(** [attestation_rank] *)
Definition attestation_rank (level : bytes) : Z :=
  let l := to_ascii_uppercase (trim level) in
  if bool_decide (l = str "L2") then 2 else if bool_decide (l = str "L1") then 1 else 0.

(** [if let Some(v) = o { cfg.field = v }] *)
Definition set_if {A R : Type} (o : option A) (put : A -> R -> R) (r : R) : R :=
  match o with Some a => put a r | None => r end.

Definition on_scheduler (f : SchedulerConfig -> SchedulerConfig) (c : GridConfig) : GridConfig :=
  c <| gc_scheduler := f (gc_scheduler c) |>.
Definition on_trust (f : TrustConfig -> TrustConfig) (c : GridConfig) : GridConfig := c <| gc_trust := f (gc_trust c) |>.
Definition on_transport (f : TransportConfig -> TransportConfig) (c : GridConfig) : GridConfig :=
  c <| gc_transport := f (gc_transport c) |>.

Definition set_parallelism (p : Z) (t : TransportConfig) : TransportConfig :=
  let t := t <| tr_result := (tr_result t) <| rt_parallelism := p |> |> in
  if quic_max_concurrent_uni_streams (tr_quic t) <? wrap 32 p
  then t <| tr_quic := (tr_quic t) <| quic_max_concurrent_uni_streams := wrap 32 p |> |>
  else t.

(** The class floors only ever raise. *)
Definition raise_attestation (floor : bytes) (t : TrustConfig) : TrustConfig :=
  if attestation_rank (tru_min_attestation t) <? attestation_rank floor then t <| tru_min_attestation := floor |> else t.
Definition raise_trust (floor : f64) (t : TrustConfig) : TrustConfig :=
  if flt (tru_min_trust t) floor then t <| tru_min_trust := floor |> else t.
Definition class_floor (dc : DataClassCfg) (t : TrustConfig) : TrustConfig :=
  match selection_floor dc with
  | Some (att, trust) => raise_trust trust (raise_attestation att t)
  | None => t
  end.

Definition query_assign (o : QueryOverrides) (c : GridConfig) : GridConfig :=
  let c := set_if (ov_replicas o) (fun r => on_scheduler (fun s => s <| sch_replicas := r |>)) c in
  let c := set_if (ov_quorum o) (fun q => on_scheduler (fun s => s <| sch_quorum := q |>)) c in
  let c := set_if (ov_min_trust o) (fun t => on_trust (fun x => x <| tru_min_trust := t |>)) c in
  let c := set_if (ov_min_attestation o) (fun a => on_trust (fun x => x <| tru_min_attestation := a |>)) c in
  let c := set_if (ov_verify o) (fun v => on_scheduler (fun s => s <| sch_verify_mode := v |>)) c in
  let c := set_if (ov_dispatch_timeout_ms o) (fun d => on_scheduler (fun s => s <| sch_dispatch_timeout_ms := d |>)) c in
  let c := set_if (ov_attempt_deadline_ms o) (fun d => on_scheduler (fun s => s <| sch_attempt_deadline_ms := d |>)) c in
  let c := set_if (ov_max_retries o) (fun r => on_scheduler (fun s => s <| sch_max_retries := r |>)) c in
  let c := set_if (ov_max_total_duration_ms o) (fun d => on_scheduler (fun s => s <| sch_max_total_duration_ms := d |>)) c in
  let c := set_if (ov_result_parallelism o) (fun p => on_transport (set_parallelism p)) c in
  let c := set_if (ov_compression o)
             (fun a => on_transport (fun t => t <| tr_compression := (tr_compression t) <| cmp_algorithm := a |> |>)) c in
  let c := set_if (ov_prefer o) (fun p c => c <| gc_planner := (gc_planner c) <| pl_prefer := p |> |>) c in
  let c := set_if (ov_payment o) (fun p c => c <| gc_economics := (gc_economics c) <| ec_default_payment := p |> |>) c in
  set_if (ov_require_staked_hosts o) (fun b => on_scheduler (fun s => s <| sch_require_staked_hosts := b |>)) c.

(** The floors of the data class and of the regions, and the wider candidate sample. *)
Definition query_floors (o : QueryOverrides) (c : GridConfig) : GridConfig :=
  let c := set_if (ov_data_class o) (fun dc => on_trust (class_floor dc)) c in
  let c := if negb (bool_decide (ov_regions o = [])) && bool_decide (mem_region_trust (gc_membership c) = RegionAttested)
           then on_trust (raise_attestation (str "L1")) c else c in
  if disc_candidate_sample_size (gc_discovery c) <? sch_replicas (gc_scheduler c)
  then c <| gc_discovery := (gc_discovery c) <| disc_candidate_sample_size := sch_replicas (gc_scheduler c) |> |>
  else c.

(** [QueryOverrides::apply] *)
Definition query_apply (o : QueryOverrides) (base : GridConfig) : result GridConfig ConfigError :=
  let c := query_floors o (query_assign o base) in
  _ <-? validate c ;; Ok c.

(** ** Sharing and joining *)

Record ShareOverrides := mkShareOverrides {
  so_memory_bytes : option Z;
  so_threads : option Z;
  so_max_jobs : option Z;
  so_data_classes : option (list DataClassCfg);
  so_enabled : option bool;
  so_networks : option (list bytes);
  so_groups : option (list bytes);
  so_region : option bytes;
}.

Definition share_apply (o : ShareOverrides) (base : GridConfig) : result GridConfig ConfigError :=
  let budget f c := c <| gc_budget := f (gc_budget c) |> in
  let membership f c := c <| gc_membership := f (gc_membership c) |> in
  let c := set_if (so_memory_bytes o) (fun m => budget (fun b => b <| bud_memory_bytes := m |>)) base in
  let c := set_if (so_threads o) (fun t => budget (fun b => b <| bud_threads := t |>)) c in
  let c := set_if (so_max_jobs o) (fun j => budget (fun b => b <| bud_max_jobs := j |>)) c in
  let c := set_if (so_data_classes o) (fun d => budget (fun b => b <| bud_data_classes := d |>)) c in
  let c := set_if (so_enabled o) (fun e c => c <| gc_worker := (gc_worker c) <| wrk_enabled := e |> |>) c in
  let c := set_if (so_networks o) (fun n => membership (fun m => m <| mem_networks := n |>)) c in
  let c := set_if (so_groups o) (fun g => membership (fun m => m <| mem_groups := g |>)) c in
  let c := set_if (so_region o)
             (fun r => membership (fun m => m <| mem_region := if blank r then None else Some r |>)) c in
  _ <-? validate c ;; Ok c.

(** [JoinOverrides] has one field, [bootstrap]. *)
Definition join_apply (bootstrap : option (list bytes)) (base : GridConfig) : result GridConfig ConfigError :=
  let c := set_if bootstrap (fun b c => c <| gc_discovery := (gc_discovery c) <| disc_bootstrap := b |> |>) base in
  _ <-? validate c ;; Ok c.

(** ** What the coordinator takes from a configuration *)

Definition data_class_to_cfg (c : DataClass) : DataClassCfg :=
  match c with Public => ClassPublic | Internal => ClassInternal | Sensitive => ClassSensitive end.
Definition data_class_from_cfg (c : DataClassCfg) : DataClass :=
  match c with ClassPublic => Public | ClassInternal => Internal | ClassSensitive => Sensitive end.

Definition ranking_of (r : ConfigData.RankingEconomics) : Dispatch.RankingEconomics :=
  mkRanking (ConfigData.rk_w_quality r) (ConfigData.rk_w_price r) (ConfigData.rk_w_stake r) (ConfigData.rk_w_latency r)
    (ConfigData.rk_w_throughput r) (rk_stake_reliability_floor r) (rk_capability_weight r) (rk_exploration_rate r)
    (rk_exploration_saturation r) (rk_newcomer_trust_ceiling r) (rk_newcomer_obs_threshold r).
Definition quality_of (q : ConfigData.QualityEconomics) : Reputation.QualityEconomics :=
  mkQuality (qe_w_success q) (qe_w_latency q) (qe_w_throughput q) (qe_w_completion q) (qe_latency_ref_ms q)
    (qe_bytes_ref q) (qe_throughput_ref_bytes_per_ms q).
Definition weights_of (w : ConfigData.ReputationWeights) : Reputation.ReputationWeights :=
  mkRepWeights (rw_alpha_reputation w) (rw_beta_age w) (rw_gamma_voucher w) (rw_delta_stake w).
Definition pay_of (e : EconomicsConfig) : PayConfig :=
  mkPayConfig (ec_enabled e) (fee_platform_fee_pct (ec_fees e)) (fee_participation_commission_frac (ec_fees e))
    (pr_max_bid (ec_pricing e)) (ec_fee_recipient e).

(** The settings one dispatch attempt reads, from the call's configuration and, for
    the penalty of a wrong result, from the base one. *)
Definition dispatch_config (base c : ConfigData.GridConfig) : Dispatch.GridConfig :=
  let e := gc_economics c in
  let a := gc_antiabuse c in
  let t := gc_trust c in
  let s := gc_scheduler c in
  mkGrid (is_private c) (sch_require_staked_hosts s) (syb_min_stake (gc_sybil c))
    (ab_enabled a) (blp_auto_block_enabled (ab_blocklist a)) (blp_auto_block_trust_floor (ab_blocklist a))
    (fa_enabled (ab_fault_attribution a)) (fa_job_consensus_fraction (ab_fault_attribution a))
    (nd_enabled (ab_nondeterminism a)) (rqt_enabled (ab_requester_trust a)) (rqt_age_saturation (ab_requester_trust a))
    (rqt_negative_floor_weight (ab_requester_trust a))
    (bool_decide (mem_region_trust (gc_membership c) = RegionAttested)) (mem_region_issuers (gc_membership c))
    (pl_spill_tolerance_bytes (gc_planner c))
    (Z.to_nat (sch_replicas s)) (Z.to_nat (sch_quorum s))
    (match sch_verify_mode s with VerifyFast => Fast | VerifyQuorum => Quorum end)
    (tru_min_trust t) (tru_bootstrap_trust t) (weights_of (tru_weights t))
    (re_prior_alpha (ec_reputation e)) (re_prior_beta (ec_reputation e)) (re_confidence_z (ec_reputation e))
    (ranking_of (ec_ranking e)) (quality_of (ec_quality e)) (pay_of e) (pr_metering_tolerance (ec_pricing e))
    (sl_slash_failed_commitment_pct (ec_slashing e)) (tru_incorrect_penalty (gc_trust base)).

Definition redispatch_config (c : ConfigData.GridConfig) : Redispatch.SchedulerConfig :=
  let s := gc_scheduler c in
  mkScheduler (sch_max_retries s) (sch_max_total_duration_ms s) (sch_backoff_initial_ms s) (sch_backoff_max_ms s)
    (sch_backoff_jitter_frac s) (sch_retry_budget_max_tokens s) (sch_retry_budget_refill_per_sec s).

(** [OnchainPolicy::apply_to] on the whole configuration. *)
Definition overlay_policy (p : OnchainPolicy) (c : ConfigData.GridConfig) : ConfigData.GridConfig :=
  let v := apply_to p in
  let e := gc_economics c in
  c <| gc_economics := e
         <| ec_fees := (ec_fees e) <| fee_platform_fee_pct := pc_platform_fee_pct v |>
                         <| fee_participation_commission_frac := pc_participation_commission_frac v |> |>
         <| ec_slashing := (ec_slashing e) <| sl_slash_failed_commitment_pct := pc_slash_failed_commitment_pct v |> |> |>
    <| gc_scheduler := (gc_scheduler c)
         <| sch_attempt_deadline_ms := pc_attempt_deadline_ms v |>
         <| sch_progress_interval_ms := pc_progress_interval_ms v |>
         <| sch_progress_stall_multiplier := pc_progress_stall_multiplier v |> |>.

(** [dispatch_to_grid] up to the re-dispatch loop: the settings and the query it runs
    with.  [job] is the fresh job id, [policy] the synced on-chain parameters. *)
Definition dispatch_to_grid {C : Crypto} (engine_version : bytes) (policy : option OnchainPolicy)
    (base c : ConfigData.GridConfig) (o : QueryOverrides) (sql : bytes) (job : JobId) (input_bytes peak_bytes : option Z)
    : Dispatch.GridConfig * Redispatch.SchedulerConfig * Query :=
  let data_class := data_class_from_cfg (default ClassPublic (ov_data_class o)) in
  let paid := negb (is_free (resolve_payment (gc_economics c) (data_class_to_cfg data_class))) in
  let c := match policy with
           | Some p => if paid && ec_enabled (gc_economics c) then overlay_policy p c else c
           | None => c
           end in
  let min_level := parse_level (tru_min_attestation (gc_trust c)) in
  let groups := match ov_groups o with [] => mem_groups (gc_membership c) | gs => gs end in
  let scope := mkScope (ov_network o) groups (ov_regions o) (mem_group_token (gc_membership c)) (ov_nodes o) in
  (dispatch_config base c, redispatch_config c,
   mkQuery sql job (compute sql engine_version) paid min_level data_class scope input_bytes peak_bytes).

(** ** Every override is validated *)

Lemma query_apply_ok o base c :
  query_apply o base = Ok c <-> c = query_floors o (query_assign o base) /\ validate c = Ok tt.
Proof. unfold query_apply. rewrite res_bind_ok. split; [intros ([] & H & [= <-])|intros [-> H]]; eauto. Qed.

(** ** The floors of a data class *)

Lemma attestation_rank_level s : is_level_name s = true -> attestation_rank s = level_code (parse_level s).
Proof.
  unfold is_level_name. cbn [existsb]. rewrite !orb_true_iff, !bool_decide_eq_true.
  intros [->|[->|[->|?]]]; [vm_compute; reflexivity..|done].
Qed.

Lemma raise_attestation_floor f t :
  attestation_rank f <= attestation_rank (tru_min_attestation (raise_attestation f t))
  /\ attestation_rank (tru_min_attestation t) <= attestation_rank (tru_min_attestation (raise_attestation f t)).
Proof.
  unfold raise_attestation. destruct (Z.ltb_spec (attestation_rank (tru_min_attestation t)) (attestation_rank f)); cbn; lia.
Qed.
Lemma raise_attestation_trust f t : tru_min_trust (raise_attestation f t) = tru_min_trust t.
Proof. unfold raise_attestation. by destruct (_ <? _). Qed.
Lemma raise_trust_attestation f t : tru_min_attestation (raise_trust f t) = tru_min_attestation t.
Proof. unfold raise_trust. by destruct (flt _ _). Qed.
Lemma raise_trust_floor f t : flt (tru_min_trust (raise_trust f t)) f = false.
Proof.
  unfold raise_trust. destruct (flt (tru_min_trust t) f) eqn:E; [|done]. cbn. unfold flt, SpecFloat.SFltb.
  destruct f as [[]|[]| |[] m e]; try done; cbn; rewrite Z.compare_refl, Pos.compare_cont_refl; done.
Qed.

(** What [query_floors] leaves of the trust section. *)
Definition floored (o : QueryOverrides) (c : ConfigData.GridConfig) : TrustConfig :=
  let t := set_if (ov_data_class o) class_floor (gc_trust c) in
  if negb (bool_decide (ov_regions o = [])) && bool_decide (mem_region_trust (gc_membership c) = RegionAttested)
  then raise_attestation (str "L1") t else t.

Lemma query_floors_trust o c : gc_trust (query_floors o c) = floored o c.
Proof.
  unfold query_floors, floored. destruct (ov_data_class o) as [dc|]; cbn [set_if].
  all: unfold on_trust; cbn; destruct (negb _ && _); cbn; by destruct (_ <? _).
Qed.

Lemma class_floor_spec o c dc att floor :
  ov_data_class o = Some dc -> selection_floor dc = Some (att, floor) ->
  attestation_rank att <= attestation_rank (tru_min_attestation (floored o c))
  /\ flt (tru_min_trust (floored o c)) floor = false.
Proof.
  intros Hdc Hf. unfold floored. rewrite Hdc. cbn [set_if]. unfold class_floor. rewrite Hf.
  set (t := raise_attestation att (gc_trust c)).
  assert (Ha : attestation_rank att <= attestation_rank (tru_min_attestation (raise_trust floor t))).
  { rewrite raise_trust_attestation. apply raise_attestation_floor. }
  destruct (negb _ && _); [|split; [done|apply raise_trust_floor]]. split.
  - etrans; [exact Ha|]. apply raise_attestation_floor.
  - rewrite raise_attestation_trust. apply raise_trust_floor.
Qed.

(** Numbers in [0, 1] are comparable. *)
Lemma in01_total x y : in01 x -> in01 y -> flt x y = false -> fle y x = true.
Proof.
  unfold in01, flt, fle, SpecFloat.SFltb, SpecFloat.SFleb. intros [Hx _] [Hy _].
  change (f64_of_Z 0) with (SpecFloat.S754_zero false) in *.
  destruct x as [[]|[]| |[] mx ex], y as [[]|[]| |[] my ey]; cbn in *; try done.
  rewrite (Z.compare_antisym ex ey). destruct (Z.compare ex ey); cbn; try done.
  change (Pos.compare_cont Eq) with Pos.compare. rewrite (Pos.compare_antisym mx my). by destruct (Pos.compare mx my).
Qed.

Lemma validated_trust c :
  validate c = Ok tt -> in01 (tru_min_trust (gc_trust c)) /\ is_level_name (tru_min_attestation (gc_trust c)) = true.
Proof.
  intros H. unfold validate in H. checks_in H. destruct H as (_ & _ & _ & _ & Ht & _).
  unfold validate_trust in Ht. checks_in Ht. destruct_and!. done.
Qed.

Lemma floor_in01 dc att floor : selection_floor dc = Some (att, floor) -> in01 floor /\ is_level_name att = true.
Proof. destruct dc; intros [= <- <-]; vm_compute; done. Qed.

(** The query the grid runs carries the trust section and the class of the call. *)
Lemma dispatched {C : Crypto} engine policy base c o sql job input peak cfg sched q :
  dispatch_to_grid engine policy base c o sql job input peak = (cfg, sched, q) ->
  g_min_trust cfg = tru_min_trust (gc_trust c) /\ q_min_level q = parse_level (tru_min_attestation (gc_trust c))
  /\ q_data_class q = data_class_from_cfg (default ClassPublic (ov_data_class o)).
Proof.
  unfold dispatch_to_grid. intros H. apply pair_equal_spec in H as [H <-]. apply pair_equal_spec in H as [<- <-].
  destruct policy as [p|]; [|done]. by destruct (negb _ && _).
Qed.

Section floors.
Context {C : Crypto} {J : EvidenceJson} {L : Libm} {Addr : Type}.

(** C26: the floors of a data class are enforced end to end: when a call declares its
    data Internal or Sensitive, whatever else it overrides, whatever the base
    configuration and the on-chain policy say, every worker any attempt selects has
    presented, with the bid the selection rests on, an attestation that verified at the
    class's level or above (L1, L2), and its effective trust is not below the class's
    floor (0.85, 0.80). *)
Theorem data_class_floor_enforced o base c dc att floor engine policy sql job input peak cfg sched q :
  query_apply o base = Ok c -> ov_data_class o = Some dc -> selection_floor dc = Some (att, floor) ->
  dispatch_to_grid engine policy base c o sql job input peak = (cfg, sched, q) ->
  q_data_class q = data_class_from_cfg dc
  /\ forall (co : Coordinator C) (net : Net Addr) ex fl w,
       w ∈ selected_now co cfg net q ex fl ->
       flt (effective_trust co cfg net w (q_paid q)) floor = false
       /\ exists b, (w, b) ∈ accepted_bids net (retained co cfg net q ex)
            /\ level_le (parse_level att)
                 (verified_attestation_level (co_attestation_verifier co) (b_attestation b) (le64 (n_nonce net))) = true.
Proof.
  intros [-> Hv]%query_apply_ok Hdc Hf Hd. apply dispatched in Hd as (Hmt & Hml & Hcl). rewrite Hdc in Hcl.
  split; [done|]. intros co net ex fl w Hw. apply scored_from in Hw as (b & t & Hw).
  apply eligible_from in Hw as (Hacc & Hb & -> & Ht).
  destruct (validated_trust _ Hv) as [Hin Hlev]. destruct (floor_in01 _ _ _ Hf) as [Hfin Hatt].
  rewrite query_floors_trust in *. set (t := floored o (query_assign o base)) in *.
  destruct (class_floor_spec o (query_assign o base) dc att floor Hdc Hf) as [Hr Htr]. fold t in Hr, Htr. split.
  - destruct (flt (effective_trust co cfg net w (q_paid q)) floor) eqn:E; [|done].
    assert (flt (effective_trust co cfg net w (q_paid q)) (g_min_trust cfg) = true); [|congruence].
    rewrite Hmt. eapply flt_le_trans; [exact E|]. by apply in01_total.
  - exists b. split; [done|]. unfold bid_floor in Hb. apply andb_true_iff in Hb as [Hb _]. apply andb_true_iff in Hb as [Hb _].
    apply andb_true_iff in Hb as [Hb _]. unfold attestation_gate in Hb. rewrite Hml in Hb.
    rewrite !attestation_rank_level in Hr by done. unfold level_le in *. apply Z.leb_le in Hb. apply Z.leb_le. lia.
Qed.
End floors.

(** A caller that asks for the least of everything, for sensitive data. *)
Definition careless : QueryOverrides :=
  no_overrides <| ov_min_trust := Some (f64_of_Z 0) |> <| ov_min_attestation := Some (str "L0") |>
    <| ov_data_class := Some ClassSensitive |> <| ov_replicas := Some 40 |>.

Lemma data_class_floor_enforced_witness :
  exists c, query_apply careless default_GridConfig = Ok c
    /\ tru_min_attestation (gc_trust c) = str "L2" /\ tru_min_trust (gc_trust c) = lit 80 100
    /\ disc_candidate_sample_size (gc_discovery c) = 40
    /\ let '(cfg, _, q) := @dispatch_to_grid toy_crypto (str "1.0") None default_GridConfig c careless (str "SELECT 1") (str "job") None None in
       q_data_class q = Sensitive
       /\ forall (L : Libm) (co : Coordinator toy_crypto) (net : Net Z) (w : NodeId),
            w ∈ @selected_now toy_crypto toy_json L Z co cfg net q ∅ 0 ->
            exists b, (w, b) ∈ accepted_bids net (retained co cfg net q ∅)
              /\ level_le L2 (verified_attestation_level (C := toy_crypto) (J := toy_json) (co_attestation_verifier co) (b_attestation b) (le64 (n_nonce net))) = true.
Proof.
  assert (Hq : query_apply careless default_GridConfig = Ok (query_floors careless (query_assign careless default_GridConfig)))
    by (vm_compute; reflexivity).
  eexists. split; [exact Hq|]. split; [vm_compute; reflexivity|]. split; [vm_compute; reflexivity|]. split; [vm_compute; reflexivity|].
  destruct (dispatch_to_grid _ _ _ _ _ _ _ _ _) as [[cfg sched] q] eqn:E.
  split.
  - by apply dispatched in E as (_ & _ & ->).
  - intros L co net w Hw.
    exact (proj2 (proj2 (@data_class_floor_enforced toy_crypto toy_json L Z careless default_GridConfig _ ClassSensitive (str "L2") (lit 80 100)
             (str "1.0") None (str "SELECT 1") (str "job") None None cfg sched q Hq eq_refl eq_refl E) co net ∅ 0 w Hw)).
Defined.

Lemma fadd_nan_r x : fadd x SpecFloat.S754_nan = SpecFloat.S754_nan.
Proof. by destruct x as [[]|[]| |[]]. Qed.
Lemma fadd_nan_l x : fadd SpecFloat.S754_nan x = SpecFloat.S754_nan.
Proof. by destruct x as [[]|[]| |[]]. Qed.

(** A trust weight that is not a number lets every host through the trust floor: the
    weights are not validated, and a NaN is never below the floor. *)
Lemma nan_weight_disables_trust_floor w i floor :
  beta_age w = SpecFloat.S754_nan -> flt (soft_trust_score w i) floor = false.
Proof.
  intros H. unfold soft_trust_score. rewrite H. change (fmul SpecFloat.S754_nan (ti_age_factor i)) with SpecFloat.S754_nan.
  rewrite fadd_nan_r, !fadd_nan_l. by destruct (ti_penalties i).
Qed.
Example nan_weight_accepted :
  validate (default_GridConfig <| gc_trust := default_TrustConfig
    <| tru_weights := default_ReputationWeights <| rw_beta_age := SpecFloat.S754_nan |> |> |>) = Ok tt.
Proof. vm_compute. reflexivity. Qed.
