(* ===== verification/Estimator.v ===== *)
(** * The working-set estimator (node/estimator.rs)

    How much of its input a query scans and how much memory it needs, from metadata
    alone.  Row groups and files whose statistics exclude a pushed-down predicate are
    pruned; the theorems show that pruning never loses a row the query could return,
    and what the estimate of peak memory is made of.  Reading the files is I/O; the
    JSON of a Delta log is a parameter, its replay is modelled.  An addition of
    [u64]s that overflows panics (the release profile checks overflows): [None]. *)

From S2P Require Import Prelude Bytes F64 Text.
From Stdlib Require Import SpecFloat.
#[local] Open Scope duckton_scope.

(** ** Projections and predicates *)

Inductive Projection := ProjAll | ProjColumns (cs : list bytes).

Definition includes (p : Projection) (col : bytes) : bool :=
  match p with ProjAll => true | ProjColumns cs => existsb (fun c => bool_decide (c = col)) cs end.

Definition projected_count (p : Projection) (total_columns : Z) : Z :=
  match p with ProjAll => Z.max total_columns 1 | ProjColumns cs => Z.max (Z.of_nat (length cs)) 1 end.

Inductive Cmp := CmpEq | CmpNe | CmpLt | CmpLe | CmpGt | CmpGe.

Record Predicate := mkPredicate { pd_column : bytes; pd_op : Cmp; pd_value : f64 }.

Definition overlaps (p : Predicate) (min max : option f64) : bool :=
  match min, max with
  | Some min, Some max =>
      match pd_op p with
      | CmpEq => fle min (pd_value p) && fle (pd_value p) max
      | CmpNe => true
      | CmpLt => flt min (pd_value p)
      | CmpLe => fle min (pd_value p)
      | CmpGt => flt (pd_value p) max
      | CmpGe => fle (pd_value p) max
      end
  | _, _ => true
  end.

Record EstimateParams := mkEstimateParams {
  columnar_decompression_ratio : f64;
  eq_selectivity : f64;
  range_selectivity : f64;
  ne_selectivity : f64;
  text_row_width_fallback : Z;
  scan_buffer_cap_bytes : Z;
  group_entry_overhead_bytes : Z;
  throughput_bytes_per_ms : Z;
}.
Definition default_params : EstimateParams :=
  mkEstimateParams (f64_of_Z 4) (lit 10 100) (lit 30 100) (lit 90 100) 128 (16 * 1024 * 1024) 32 500000.

Definition selectivity (p : Predicate) (ep : EstimateParams) : f64 :=
  match pd_op p with
  | CmpEq => eq_selectivity ep
  | CmpNe => ne_selectivity ep
  | _ => range_selectivity ep
  end.

Definition combined_selectivity (ps : list Predicate) (ep : EstimateParams) : f64 :=
  fclamp (foldl (fun s p => fmul s (selectivity p ep)) (f64_of_Z 1) ps) (lit 1 1000000) (f64_of_Z 1).

(** ** Metadata *)

Record ColumnChunkMeta := mkChunk {
  cc_name : bytes;
  cc_total_uncompressed_size : Z;
  cc_num_values : Z;
  cc_min : option f64;
  cc_max : option f64;
}.
Record RowGroupMeta := mkRowGroup { rg_num_rows : Z; rg_columns : list ColumnChunkMeta }.
Abbreviation ParquetMetadata := (list RowGroupMeta).

(** [RowGroupMeta::column] *)
Definition rg_column (rg : RowGroupMeta) (name : bytes) : option ColumnChunkMeta :=
  List.find (fun c => bool_decide (cc_name c = name)) (rg_columns rg).

Record DataFileMeta := mkDataFile {
  df_size_bytes : Z;
  df_record_count : Z;
  df_bounds : list (bytes * (option f64 * option f64));
}.
Record TableFilesMetadata := mkTableFiles { tf_all_columns : list bytes; tf_files : list DataFileMeta }.

Record TextMetadata := mkTextMeta {
  tm_object_bytes : Z;
  tm_sample_bytes : Z;
  tm_sample_rows : Z;
  tm_total_columns : Z;
}.

(** ** Stage 1: the scan *)

Record ScanEstimate := mkScan {
  sc_scanned_uncompressed_bytes : Z;
  sc_total_rows : Z;
  sc_estimated_output_rows : Z;
  sc_avg_row_width_bytes : Z;
  sc_units_total : nat;
  sc_units_scanned : nat;
  sc_projected_columns : Z;
}.

(** [ScanEstimate::finalize] *)
Definition finalize (scanned_bytes total_rows : Z) (sel : f64) (projected : Z) (units_total units_scanned : nat) : ScanEstimate :=
  mkScan scanned_bytes total_rows (as_uint 64 (fround (fmul (f64_of_Z total_rows) sel)))
    (if 0 <? total_rows then scanned_bytes / total_rows else 0) units_total units_scanned projected.

Definition rg_pruned (preds : list Predicate) (rg : RowGroupMeta) : bool :=
  existsb (fun p => match rg_column rg (pd_column p) with
                    | Some c => negb (overlaps p (cc_min c) (cc_max c))
                    | None => false
                    end) preds.

(** The loop of [estimate_parquet]: bytes, rows, units, widest projection. *)
Definition scan_columns (proj : Projection) (acc : option Z) (cs : list ColumnChunkMeta) : option Z :=
  foldl (fun acc c => if includes proj (cc_name c)
                      then b ← acc; checked_add 64 b (cc_total_uncompressed_size c) else acc) acc cs.
Definition scan_group (proj : Projection) (preds : list Predicate) (acc : option (Z * Z * nat * Z)) (rg : RowGroupMeta)
    : option (Z * Z * nat * Z) :=
  if rg_pruned preds rg then acc
  else '(bytes, rows, units, cols) ← acc;
       rows' ← checked_add 64 rows (rg_num_rows rg);
       bytes' ← scan_columns proj (Some bytes) (rg_columns rg);
       Some (bytes', rows', S units,
             Z.max cols (Z.of_nat (length (List.filter (fun c => includes proj (cc_name c)) (rg_columns rg))))).

Definition estimate_parquet (meta : ParquetMetadata) (proj : Projection) (preds : list Predicate) (ep : EstimateParams)
    : option ScanEstimate :=
  '(bytes, rows, units, cols) ← foldl (scan_group proj preds) (Some (0, 0, 0%nat, 0)) meta;
  Some (finalize bytes rows (combined_selectivity preds ep) cols (length meta) units).

(** [BTreeMap::get] *)
Definition bounds_of (f : DataFileMeta) (col : bytes) : option (option f64 * option f64) :=
  snd <$> List.find (fun e => bool_decide (e.1 = col)) (df_bounds f).

Definition file_pruned (preds : list Predicate) (f : DataFileMeta) : bool :=
  existsb (fun p => match bounds_of f (pd_column p) with
                    | Some (min, max) => negb (overlaps p min max)
                    | None => false
                    end) preds.

Definition projection_ratio (projected total_columns : Z) : f64 :=
  fmin (fdiv (f64_of_Z projected) (f64_of_Z total_columns)) (f64_of_Z 1).

Definition estimate_table_files (meta : TableFilesMetadata) (proj : Projection) (preds : list Predicate) (ep : EstimateParams)
    : option ScanEstimate :=
  let total_columns := Z.max (Z.of_nat (length (tf_all_columns meta))) 1 in
  let projected := projected_count proj total_columns in
  let ratio := projection_ratio projected total_columns in
  '(bytes, rows, units) ←
    foldl (fun acc f =>
             if file_pruned preds f then acc
             else '(bytes, rows, units) ← acc;
                  rows' ← checked_add 64 rows (df_record_count f);
                  let uncompressed := fmul (f64_of_Z (df_size_bytes f)) (columnar_decompression_ratio ep) in
                  bytes' ← checked_add 64 bytes (as_uint 64 (fround (fmul uncompressed ratio)));
                  Some (bytes', rows', S units))
      (Some (0, 0, 0%nat)) (tf_files meta);
  Some (finalize bytes rows (combined_selectivity preds ep) projected (length (tf_files meta)) units).

(** The row count is a [u128] quotient cast to [u64]. *)
Definition estimate_text (meta : TextMetadata) (proj : Projection) (preds : list Predicate) (ep : EstimateParams) : ScanEstimate :=
  let total_rows :=
    if (0 <? tm_sample_rows meta) && (0 <? tm_sample_bytes meta)
    then wrap 64 (tm_object_bytes meta * tm_sample_rows meta / tm_sample_bytes meta)
    else if 0 <? text_row_width_fallback ep then tm_object_bytes meta / text_row_width_fallback ep else 0 in
  let total_columns := Z.max (tm_total_columns meta) 1 in
  let projected := projected_count proj total_columns in
  let ratio := projection_ratio projected total_columns in
  finalize (as_uint 64 (fround (fmul (f64_of_Z (tm_object_bytes meta)) ratio))) total_rows (combined_selectivity preds ep)
    projected 1 1.

(** ** Stage 2: the working set *)

Record QueryShape := mkShape {
  qs_group_by : bool;
  qs_distinct_groups : Z;
  qs_group_payload_bytes : Z;
  qs_hash_join : bool;
  qs_join_build_rows : Z;
  qs_join_build_row_width : Z;
  qs_sort_or_window : bool;
  qs_sort_rows : Z;
  qs_sort_row_width : Z;
}.
Definition streaming : QueryShape := mkShape false 0 0 false 0 0 false 0 0.
Definition group_by_shape (distinct_groups : Z) : QueryShape := mkShape true distinct_groups 0 false 0 0 false 0 0.

Record WorkingSetEstimate := mkWorkingSet {
  ws_scanned_uncompressed_bytes : Z;
  ws_estimated_rows : Z;
  ws_scan_buffer_bytes : Z;
  ws_group_by_bytes : Z;
  ws_join_build_bytes : Z;
  ws_sort_bytes : Z;
  ws_peak_working_set_bytes : Z;
  ws_estimated_runtime_ms : Z;
}.

Definition estimate_working_set (scan : ScanEstimate) (shape : QueryShape) (ep : EstimateParams) : WorkingSetEstimate :=
  let width w := if 0 <? w then w else Z.max (sc_avg_row_width_bytes scan) 1 in
  let scan_buffer := Z.min (sc_scanned_uncompressed_bytes scan) (scan_buffer_cap_bytes ep) in
  let group_by := if qs_group_by shape
                  then sat_mul 64 (qs_distinct_groups shape) (sat_add 64 (width (qs_group_payload_bytes shape)) (group_entry_overhead_bytes ep))
                  else 0 in
  let join_build := if qs_hash_join shape then sat_mul 64 (qs_join_build_rows shape) (width (qs_join_build_row_width shape)) else 0 in
  let sort := if qs_sort_or_window shape then sat_mul 64 (qs_sort_rows shape) (width (qs_sort_row_width shape)) else 0 in
  mkWorkingSet (sc_scanned_uncompressed_bytes scan) (sc_estimated_output_rows scan) scan_buffer group_by join_build sort
    (sat_add 64 (sat_add 64 (sat_add 64 scan_buffer group_by) join_build) sort)
    (if 0 <? throughput_bytes_per_ms ep then sc_scanned_uncompressed_bytes scan / throughput_bytes_per_ms ep else 0).

(** ** The Delta log *)

(** What one line of a commit does; [metaData] only sets the columns. *)
Inductive DeltaAction :=
| DMeta (columns : list bytes)
| DRemove (path : bytes)
| DAdd (path : bytes) (file : DataFileMeta).

(** The replay of [delta_metadata]: [BTreeMap::insert] replaces the entry of a path; the
    order of the files does not matter to the estimate. *)
Definition add_file (m : list (bytes * DataFileMeta)) (p : bytes) (f : DataFileMeta) : list (bytes * DataFileMeta) :=
  (p, f) :: List.filter (fun e => negb (bool_decide (e.1 = p))) m.
Record DeltaState := mkDelta { ds_columns : list bytes; ds_removed : list bytes; ds_added : list (bytes * DataFileMeta) }.
Definition delta_step (s : DeltaState) (a : DeltaAction) : DeltaState :=
  match a with
  | DMeta cs => mkDelta cs (ds_removed s) (ds_added s)
  | DRemove p => mkDelta (ds_columns s) (p :: ds_removed s) (ds_added s)
  | DAdd p f => mkDelta (ds_columns s) (ds_removed s) (add_file (ds_added s) p f)
  end.
(** The live files, with their paths. *)
Definition delta_live (log : list DeltaAction) : list (bytes * DataFileMeta) :=
  let s := foldl delta_step (mkDelta [] [] []) log in
  List.filter (fun e => negb (existsb (fun r => bool_decide (r = e.1)) (ds_removed s))) (ds_added s).

(** ** Does a query read data? *)

Definition MARKERS : list bytes :=
  let tab := [Byte.x09] in let nl := [Byte.x0a] in let cr := [Byte.x0d] in
  [str " from "; tab ++ str "from "; nl ++ str "from "; str "(from "; str ")from "; cr ++ str "from "; nl ++ str "from" ++ tab;
   str " join "; nl ++ str "join "; tab ++ str "join "; str "(join "; str "read_"; str "scan_"; str "parquet_"; str "_scan(";
   str "glob("; str "query_table("; str "copy "; str "attach "; str "delta_"; str "iceberg_"; str ".parquet"; str ".csv";
   str ".json"; str ".ndjson"; str "://"].
Definition has_data_source (sql : bytes) : bool :=
  let lower := to_ascii_lowercase sql in existsb (fun m => contains m lower) MARKERS.

(** ** Pruning keeps every row a query can return *)

(** A row of numeric columns, and what it means that it satisfies a predicate. *)
Abbreviation row := (bytes -> f64).
Definition satisfies (p : Predicate) (v : f64) : bool :=
  match pd_op p with
  | CmpEq => feq v (pd_value p)
  | CmpNe => negb (feq v (pd_value p))
  | CmpLt => flt v (pd_value p)
  | CmpLe => fle v (pd_value p)
  | CmpGt => flt (pd_value p) v
  | CmpGe => fle (pd_value p) v
  end.

(** Statistics that are what they claim for a value. *)
Definition within (v : f64) (min max : option f64) : Prop :=
  forall lo hi, min = Some lo -> max = Some hi -> fle lo v = true /\ fle v hi = true.

Lemma satisfied_overlaps p v min max : within v min max -> satisfies p v = true -> overlaps p min max = true.
Proof.
  unfold overlaps. destruct min as [lo|]; [|done]. destruct max as [hi|]; [|done]. intros H.
  destruct (H lo hi eq_refl eq_refl) as [Hl Hh]. unfold satisfies. destruct (pd_op p); intros Hs; [|done|..].
  - apply andb_true_iff. split; [by eapply fle_eq_trans|by eapply feq_le_trans].
  - by eapply fle_lt_trans.
  - by eapply fle_trans.
  - by eapply flt_le_trans.
  - by eapply fle_trans.
Qed.

(** A row group holds a match: some row within its statistics satisfies every predicate. *)
Definition rg_match (preds : list Predicate) (rg : RowGroupMeta) : Prop :=
  exists r : row, (forall c, c ∈ rg_columns rg -> within (r (cc_name c)) (cc_min c) (cc_max c))
    /\ forall p, p ∈ preds -> satisfies p (r (pd_column p)) = true.
Definition file_match (preds : list Predicate) (f : DataFileMeta) : Prop :=
  exists r : row, (forall c min max, (c, (min, max)) ∈ df_bounds f -> within (r c) min max)
    /\ forall p, p ∈ preds -> satisfies p (r (pd_column p)) = true.

Lemma not_existsb {A} (f : A -> bool) l : (forall x, x ∈ l -> f x = false) -> existsb f l = false.
Proof.
  intros H. destruct (existsb f l) eqn:E; [|done]. apply existsb_exists in E as (x & Hx & Hf).
  rewrite H in Hf; [done|]. by apply list_elem_of_In.
Qed.

Lemma rg_match_kept preds rg : rg_match preds rg -> rg_pruned preds rg = false.
Proof.
  intros (r & Hin & Hsat). apply not_existsb. intros p Hp. unfold rg_column.
  destruct (List.find _ _) as [c|] eqn:E; [|done]. apply find_some in E as [Hc He%bool_decide_eq_true].
  apply negb_false_iff. apply (satisfied_overlaps p (r (pd_column p))); [|by apply Hsat]. rewrite <- He.
  apply Hin. by apply list_elem_of_In.
Qed.

Lemma file_match_kept preds f : file_match preds f -> file_pruned preds f = false.
Proof.
  intros (r & Hin & Hsat). apply not_existsb. intros p Hp. unfold bounds_of.
  destruct (List.find _ _) as [[c [lo hi]]|] eqn:E; [|done]. apply find_some in E as [Hc He%bool_decide_eq_true].
  cbn [fmap option_fmap option_map snd]. apply negb_false_iff.
  apply (satisfied_overlaps p (r (pd_column p))); [|by apply Hsat].
  cbn [fst] in He. subst c. eapply Hin. by apply list_elem_of_In.
Qed.

(** ** What the estimate of a Parquet scan is *)

Definition projected_size (proj : Projection) (rg : RowGroupMeta) : Z :=
  sum_by cc_total_uncompressed_size (List.filter (fun c => includes proj (cc_name c)) (rg_columns rg)).
Definition survivors (preds : list Predicate) (meta : ParquetMetadata) : ParquetMetadata :=
  List.filter (fun rg => negb (rg_pruned preds rg)) meta.

Lemma checked_add_some w a b c : checked_add w a b = Some c -> c = a + b.
Proof. unfold checked_add. by case_decide; intros [= <-]. Qed.

Lemma sum_by_cons {A} (f : A -> Z) x l : sum_by f (x :: l) = f x + sum_by f l.
Proof. done. Qed.

Lemma scan_columns_none proj cs : scan_columns proj None cs = None.
Proof. unfold scan_columns. induction cs as [|c cs IH]; [done|]. cbn [foldl]. by destruct (includes _ _). Qed.

Lemma scan_columns_sum proj cs b b' :
  scan_columns proj (Some b) cs = Some b' ->
  b' = b + sum_by cc_total_uncompressed_size (List.filter (fun c => includes proj (cc_name c)) cs).
Proof.
  revert b. induction cs as [|c cs IH]; intros b.
  { cbn. intros [= <-]. lia. }
  unfold scan_columns. cbn [foldl List.filter]. destruct (includes proj (cc_name c)); [|apply IH].
  cbn [mbind option_bind]. destruct (checked_add 64 b _) as [b1|] eqn:E.
  - apply checked_add_some in E as ->. intros H%IH. rewrite sum_by_cons. lia.
  - fold (scan_columns proj None cs). by rewrite scan_columns_none.
Qed.

Lemma scan_group_sum proj preds meta a b rows units cols :
  foldl (scan_group proj preds) (Some a) meta = Some (b, rows, units, cols) ->
  let '(b0, rows0, units0, _) := a in
  b = b0 + sum_by (projected_size proj) (survivors preds meta)
  /\ rows = rows0 + sum_by rg_num_rows (survivors preds meta)
  /\ units = (units0 + length (survivors preds meta))%nat.
Proof.
  revert a. induction meta as [|rg meta IH]; intros [[[b0 r0] u0] c0]; cbn [foldl].
  { intros [= <- <- <- <-]. cbn. lia. }
  unfold scan_group at 2. unfold survivors. cbn [List.filter]. destruct (rg_pruned preds rg) eqn:Ep; cbn [negb]; [apply IH|].
  cbn [mbind option_bind]. intros H.
  assert (Hn : forall l, foldl (scan_group proj preds) None l = None).
  { clear. induction l as [|x l IH]; [done|]. cbn [foldl]. unfold scan_group at 2. by destruct (rg_pruned preds x). }
  destruct (checked_add 64 r0 (rg_num_rows rg)) as [r1|] eqn:Er; [|by rewrite Hn in H]. cbn [mbind option_bind] in H.
  destruct (scan_columns proj (Some b0) (rg_columns rg)) as [b1|] eqn:Eb; [|by rewrite Hn in H]. cbn [mbind option_bind] in H.
  apply IH in H as (-> & -> & ->). apply checked_add_some in Er as ->. apply scan_columns_sum in Eb as ->.
  fold (projected_size proj rg). fold (survivors preds meta). rewrite !sum_by_cons. cbn [length]. lia.
Qed.

Lemma sum_by_filter_le {A} (f : A -> Z) (p q : A -> bool) l :
  (forall x, x ∈ l -> p x = true -> q x = true) -> (forall x, x ∈ l -> 0 <= f x) ->
  sum_by f (List.filter p l) <= sum_by f (List.filter q l).
Proof.
  induction l as [|x l IH]; intros Hpq Hf; [done|]. cbn [List.filter].
  assert (IH' : sum_by f (List.filter p l) <= sum_by f (List.filter q l))
    by (apply IH; intros; [apply Hpq|apply Hf]; try done; by right).
  pose proof (Hf x ltac:(by left)). destruct (p x) eqn:E.
  - rewrite (Hpq x ltac:(by left) E). rewrite !sum_by_cons. lia.
  - destruct (q x); [rewrite sum_by_cons; lia|done].
Qed.

(** ** What the estimate of a Delta or Iceberg scan is *)

(** The bytes a data file is counted with: its size, scaled by the decompression ratio
    and the share of the columns that are read. *)
Definition file_share (meta : TableFilesMetadata) (proj : Projection) (ep : EstimateParams) (f : DataFileMeta) : Z :=
  let n := Z.max (Z.of_nat (length (tf_all_columns meta))) 1 in
  as_uint 64 (fround (fmul (fmul (f64_of_Z (df_size_bytes f)) (columnar_decompression_ratio ep)) (projection_ratio (projected_count proj n) n))).
Definition live_files (preds : list Predicate) (meta : TableFilesMetadata) : list DataFileMeta :=
  List.filter (fun f => negb (file_pruned preds f)) (tf_files meta).

Lemma table_files_sum meta proj preds ep e :
  estimate_table_files meta proj preds ep = Some e ->
  sc_total_rows e = sum_by df_record_count (live_files preds meta)
  /\ sc_scanned_uncompressed_bytes e = sum_by (file_share meta proj ep) (live_files preds meta)
  /\ sc_units_scanned e = length (live_files preds meta) /\ sc_units_total e = length (tf_files meta).
Proof.
  unfold estimate_table_files, live_files. fold (file_share meta proj ep). set (step := fun acc f => if file_pruned preds f then acc else _).
  assert (forall fs b r u b' r' u', foldl step (Some (b, r, u)) fs = Some (b', r', u') ->
    r' = r + sum_by df_record_count (List.filter (fun f => negb (file_pruned preds f)) fs)
    /\ b' = b + sum_by (file_share meta proj ep) (List.filter (fun f => negb (file_pruned preds f)) fs)
    /\ u' = (u + length (List.filter (fun f => negb (file_pruned preds f)) fs))%nat) as Hsum.
  { assert (forall fs, foldl step None fs = None) as Hnone
      by (induction fs as [|f fs IH]; [done|]; cbn [foldl]; unfold step at 2; by destruct (file_pruned preds f)).
    induction fs as [|f fs IH]; intros b r u b' r' u'; cbn [foldl List.filter].
    { intros [= <- <- <-]. cbn. lia. }
    unfold step at 2. destruct (file_pruned preds f); cbn [negb]; [apply IH|]. cbn [mbind option_bind].
    destruct (checked_add 64 r _) as [r1|] eqn:Er; [|cbn [mbind option_bind]; by rewrite Hnone]. cbn [mbind option_bind].
    destruct (checked_add 64 b _) as [b1|] eqn:Eb; [|cbn [mbind option_bind]; by rewrite Hnone]. cbn [mbind option_bind].
    apply checked_add_some in Er, Eb. intros (-> & -> & ->)%IH. cbn [length]. rewrite !sum_by_cons. subst r1 b1.
    fold (file_share meta proj ep f). split_and!; lia. }
  destruct (foldl step _ (tf_files meta)) as [[[b r] u]|] eqn:E; [|done]. cbn [mbind option_bind]. intros [= <-].
  apply Hsum in E as (-> & -> & ->). unfold finalize. cbn [sc_total_rows sc_scanned_uncompressed_bytes sc_units_scanned sc_units_total]. done.
Qed.

(** C27: pushing predicates down never loses data.  For a Parquet file: whenever the
    statistics of the row groups bound the values they claim to bound, an estimate
    counts every row group in which some row satisfies the query's predicates - all of
    its rows, and the uncompressed size of all its projected columns - and it counts
    nothing but the row groups that survive pruning, exactly.  For a Delta or Iceberg
    table: whenever the bounds of the data files are what they claim, an estimate counts
    every file with a matching row - its records, and its size scaled by the
    decompression ratio and the share of the columns read - and nothing but the files
    that survive pruning, exactly. *)
Theorem estimate_covers_matches proj preds ep :
  (forall meta e (holds : RowGroupMeta -> bool),
     (forall rg, rg ∈ meta -> 0 <= rg_num_rows rg /\ forall c, c ∈ rg_columns rg -> 0 <= cc_total_uncompressed_size c) ->
     (forall rg, rg ∈ meta -> holds rg = true -> rg_match preds rg) ->
     estimate_parquet meta proj preds ep = Some e ->
     sum_by rg_num_rows (List.filter holds meta) <= sc_total_rows e
     /\ sum_by (projected_size proj) (List.filter holds meta) <= sc_scanned_uncompressed_bytes e
     /\ sc_total_rows e = sum_by rg_num_rows (survivors preds meta)
     /\ sc_scanned_uncompressed_bytes e = sum_by (projected_size proj) (survivors preds meta)
     /\ sc_units_scanned e = length (survivors preds meta))
  /\ (forall meta e (holds : DataFileMeta -> bool),
     (forall f, f ∈ tf_files meta -> 0 <= df_record_count f) ->
     (forall f, f ∈ tf_files meta -> holds f = true -> file_match preds f) ->
     estimate_table_files meta proj preds ep = Some e ->
     sum_by df_record_count (List.filter holds (tf_files meta)) <= sc_total_rows e
     /\ sum_by (file_share meta proj ep) (List.filter holds (tf_files meta)) <= sc_scanned_uncompressed_bytes e
     /\ sc_total_rows e = sum_by df_record_count (live_files preds meta)
     /\ sc_scanned_uncompressed_bytes e = sum_by (file_share meta proj ep) (live_files preds meta)
     /\ sc_units_scanned e = length (live_files preds meta)).
Proof.
  split.
  - intros meta e holds Hpos Hmatch H. unfold estimate_parquet in H.
    destruct (foldl _ _ meta) as [[[[b rows] units] cols]|] eqn:E; [|done]. cbn [mbind option_bind] in H. injection H as <-.
    apply scan_group_sum in E as (-> & -> & ->). unfold finalize.
    cbn [sc_total_rows sc_scanned_uncompressed_bytes sc_units_scanned].
    assert (Hkeep : forall rg, rg ∈ meta -> holds rg = true -> negb (rg_pruned preds rg) = true).
    { intros rg Hrg Hh. apply negb_true_iff, rg_match_kept. by apply Hmatch. }
    pose proof (sum_by_filter_le rg_num_rows holds _ meta Hkeep (fun rg Hrg => proj1 (Hpos rg Hrg))).
    pose proof (sum_by_filter_le (projected_size proj) holds _ meta Hkeep) as Hb. fold (survivors preds meta) in *.
    split_and!; try lia. transitivity (sum_by (projected_size proj) (survivors preds meta)); [apply Hb|lia].
    intros rg Hrg. destruct (Hpos rg Hrg) as [_ Hc]. unfold projected_size.
    apply sum_by_nonneg. intros c Hin. apply Hc. apply list_elem_of_In in Hin.
    apply filter_In in Hin as [Hin _]. by apply list_elem_of_In.
  - intros meta e holds Hpos Hmatch (Hr & Hb & Hu & _)%table_files_sum. rewrite Hr, Hb, Hu.
    assert (Hkeep : forall f, f ∈ tf_files meta -> holds f = true -> negb (file_pruned preds f) = true).
    { intros f Hf Hh. apply negb_true_iff, file_match_kept. by apply Hmatch. }
    split_and!; [by apply sum_by_filter_le| |done|done|done]. apply sum_by_filter_le; [done|].
    intros f _. unfold file_share. apply as_uint_range. lia.
Qed.

(** ** The working set *)

(** The peak is the sum of what the plan holds, capped at the largest [u64]. *)
Lemma peak_is_sum scan shape ep :
  let w := estimate_working_set scan shape ep in
  0 <= ws_scan_buffer_bytes w -> 0 <= ws_group_by_bytes w -> 0 <= ws_join_build_bytes w -> 0 <= ws_sort_bytes w ->
  ws_peak_working_set_bytes w
  = Z.min (ws_scan_buffer_bytes w + ws_group_by_bytes w + ws_join_build_bytes w + ws_sort_bytes w) (umax 64).
Proof. cbn. unfold sat_add. lia. Qed.

(** ** Examples *)

Definition groups_example : ParquetMetadata :=
  [mkRowGroup 1000 [mkChunk (str "a") 8000 1000 (Some (f64_of_Z 0)) (Some (f64_of_Z 999)); mkChunk (str "b") 40000 1000 None None];
   mkRowGroup 1000 [mkChunk (str "a") 8000 1000 (Some (f64_of_Z 1000)) (Some (f64_of_Z 1999)); mkChunk (str "b") 40000 1000 None None]].
Definition above_1500 : list Predicate := [mkPredicate (str "a") CmpGt (f64_of_Z 1500)].
(** The second group holds a row with [a = 1600]. *)
Definition second_group (rg : RowGroupMeta) : bool :=
  existsb (fun c => match cc_min c with Some lo => feq lo (f64_of_Z 1000) | None => false end) (rg_columns rg).

Lemma estimate_covers_matches_witness :
  exists e, estimate_parquet groups_example (ProjColumns [str "a"]) above_1500 default_params = Some e
    /\ sc_units_scanned e = 1%nat /\ sc_scanned_uncompressed_bytes e = 8000
    /\ sum_by rg_num_rows (List.filter second_group groups_example) <= sc_total_rows e.
Proof.
  eexists. split; [vm_compute; reflexivity|]. split; [vm_compute; reflexivity|]. split; [vm_compute; reflexivity|].
  apply (proj1 (estimate_covers_matches (ProjColumns [str "a"]) above_1500 default_params) groups_example _ second_group).
  - intros rg Hrg. unfold groups_example in Hrg. rewrite !elem_of_cons in Hrg.
    destruct Hrg as [->|[->|Hn]]; [..|by apply not_elem_of_nil in Hn];
      (split; [cbn; lia|]; intros c Hc; cbn [rg_columns] in Hc; rewrite !elem_of_cons in Hc;
       destruct Hc as [->|[->|Hn]]; [cbn; lia..|by apply not_elem_of_nil in Hn]).
  - intros rg Hrg Hh. unfold groups_example in Hrg. rewrite !elem_of_cons in Hrg.
    destruct Hrg as [->|[->|Hn]]; [vm_compute in Hh; discriminate| |by apply not_elem_of_nil in Hn].
    exists (fun _ => f64_of_Z 1600). split.
    + intros c Hc. cbn [rg_columns] in Hc. rewrite !elem_of_cons in Hc.
      destruct Hc as [->|[->|Hn]]; [| |by apply not_elem_of_nil in Hn]; intros lo hi; cbn [cc_min cc_max]; [|discriminate].
      intros [= <-] [= <-]. vm_compute. done.
    + intros p Hp. unfold above_1500 in Hp. apply list_elem_of_singleton in Hp as ->. vm_compute. reflexivity.
  - vm_compute. reflexivity.
Defined.

(** Three chunks that claim 2^63 - 1 bytes each overflow the sum. *)
Example huge_sizes_panic :
  estimate_parquet [mkRowGroup 1 (repeat (mkChunk (str "a") (2 ^ 63 - 1) 1 None None) 3)] ProjAll [] default_params = None.
Proof. vm_compute. reflexivity. Qed.

(** A file that is removed and added again is live in a Delta table; the replay drops it. *)
Example readded_file_dropped :
  let f := mkDataFile 10 1 [] in delta_live [DAdd (str "p") f; DRemove (str "p"); DAdd (str "p") f] = [].
Proof. vm_compute. reflexivity. Qed.

(** A query whose FROM ends its line is taken for one that reads no data. *)
Example from_at_end_of_line :
  has_data_source (str "SELECT *" ++ [Byte.x0a] ++ str "FROM" ++ [Byte.x0a] ++ str "  trips") = false
  /\ has_data_source (str "SELECT * FROM trips") = true.
Proof. vm_compute. done. Qed.
