(* ===== verification/RunQuery.v ===== *)
(** * Running a query: the planner and the coordinator's entry points
      (node/planner.rs; node/coordinator.rs: [run_query], [run_query_planned],
      [try_local_execution], [dispatch_to_grid])

    A call is checked ([query_apply]), planned, and run either on this machine's own
    engine, within a reservation of [Governor], or on the grid ([GridQuery]).  The
    engine is a parameter.  The local executor's counters are the cells of [Governor];
    a reservation is [reserve] running alone, and it is dropped before the result is
    looked at. *)

From S2P Require Import Prelude Bytes F64 Text Crypto Proto Canonical Escrow Governor Abuse Attest TonRail.
From S2P Require Import Reputation Redispatch Dispatch GridQuery ConfigData Config Overrides Estimator.
#[local] Open Scope duckton_scope.

(** ** The planner *)

Inductive Route := RouteLocal | RouteRemote.
#[global] Instance Route_eq_dec : EqDecision Route.
Proof. solve_decision. Defined.

Inductive PlanReason :=
| ForcedLocal | ForcedRemote | LocalDisabled | FitsLocal | TooLarge
| OverSizeThreshold | OverLatencyBudget | LocallySaturated | NoEstimate.

Record PlanDecision := mkDecision { pd_route : Route; pd_reason : PlanReason }.
Definition is_local (d : PlanDecision) : bool := bool_decide (pd_route d = RouteLocal).

Record PlanRequest := mkPlanRequest {
  pq_prefer : PreferMode;
  pq_estimate : option WorkingSetEstimate;
  pq_headroom_bytes : Z;
  pq_local_slot_available : bool;
}.

(** [DefaultPlanner::decide] *)
Definition plan_decide (cfg : PlannerConfig) (req : PlanRequest) : PlanDecision :=
  let local r := mkDecision RouteLocal r in
  let remote r := mkDecision RouteRemote r in
  if negb (pl_enabled cfg) then remote ForcedRemote
  else if negb (pl_local_execution_enabled cfg) then remote LocalDisabled
  else match pq_prefer req with
       | PreferLocal => local ForcedLocal
       | PreferRemote => remote ForcedRemote
       | PreferAuto =>
           if negb (pq_local_slot_available req) then remote LocallySaturated
           else match pq_estimate req with
                | None => remote NoEstimate
                | Some est =>
                    if pl_size_threshold_bytes cfg <? ws_scanned_uncompressed_bytes est then remote OverSizeThreshold
                    else if (0 <? pl_max_local_latency_ms cfg) && (pl_max_local_latency_ms cfg <? ws_estimated_runtime_ms est)
                         then remote OverLatencyBudget
                    else if sat_add 64 (pl_spill_tolerance_bytes cfg) (pq_headroom_bytes req) <? ws_peak_working_set_bytes est
                         then remote TooLarge
                    else local FitsLocal
                end
       end.

(** [LocalOrRemotePlanner::failover_to_remote] *)
Definition failover_to_remote (p : PreferMode) : bool := negb (bool_decide (p = PreferLocal)).

(** [is_resource_exhaustion], on the error's text. *)
Definition is_resource_exhaustion (err : bytes) : bool :=
  let msg := to_ascii_lowercase err in
  contains (str "out of memory") msg || contains (str "could not allocate") msg || contains (str "memory limit") msg
  || contains (str "failed to allocate") msg || contains (str "exceeds the memory limit") msg.

(** [LocalExecutor::build]: the share of the machine's memory own queries may use. *)
Definition local_budget (budget_memory_bytes : Z) (cfg : PlannerConfig) : Z :=
  as_uint 64 (fmul (f64_of_Z budget_memory_bytes) (pl_ram_fraction cfg)).

Record ExecLease := mkExecLease { el_memory_bytes : Z; el_threads : Z; el_max_spill_bytes : Z }.

(** [self.local] and [self.planner]: the executor's limits, whether it shares the
    process-wide governor, its planner's settings and its engine. *)
Record LocalExecutor := mkLocalExecutor {
  le_pools : Pools;
  le_governed : bool;
  le_planner : PlannerConfig;
  le_engine : bytes -> ExecLease -> result ResultSet bytes;
}.

Definition headroom_bytes (l : LocalExecutor) (s : counters) : Z := sat_sub (local_budget_bytes (le_pools l)) (s LocMem).
Definition slot_available (l : LocalExecutor) (s : counters) : bool := 0 <? local_max_jobs (le_pools l) - s LocSlot.

(** [try_local_execution]: [Ok None] sends the query to the grid.  [self_id] is this
    node, [job] the fresh job id. *)
Definition try_local_execution (local : option LocalExecutor) (self_id : NodeId) (job : JobId) (sql : bytes) (cfg : ConfigData.GridConfig)
    (estimate : option WorkingSetEstimate) (s : counters) : result (option QueryOutcome) CoordinatorError * counters :=
  match local with
  | None => (Ok None, s)
  | Some l =>
      let prefer := pl_prefer (gc_planner cfg) in
      let req := mkPlanRequest prefer estimate (headroom_bytes l s) (slot_available l s) in
      if negb (is_local (plan_decide (le_planner l) req)) then (Ok None, s)
      else
        let reserve_bytes := default 0 (ws_peak_working_set_bytes <$> estimate) in
        let '(granted, s1) := run (le_pools l) s (reserve (le_pools l) (le_governed l) reserve_bytes) in
        if negb granted then (Ok None, s1)
        else
          let lease := mkExecLease
            (Z.max (sat_add 64 (local_budget_bytes (le_pools l)) (pl_spill_tolerance_bytes (gc_planner cfg))) (64 * 1024 * 1024))
            (Z.max (bud_per_job_threads (gc_budget cfg)) 1) (bud_max_spill_bytes (gc_budget cfg)) in
          let exec := le_engine l sql lease in
          let s2 := undo_all s1 (drop_reservation (le_pools l) (le_governed l) reserve_bytes) in
          match exec with
          | Ok rs => (Ok (Some (mkQueryOutcome job rs None 1 0 true (Some self_id) [self_id] [] true)), s2)
          | Err e => if is_resource_exhaustion e && failover_to_remote prefer then (Ok None, s2)
                     else (Err (CLocalExecution e), s2)
          end
  end.

(** ** The entry points *)

Section run.
Context {C : Crypto} {J : EvidenceJson} {L : Libm} {Addr World : Type}.
Context (net_of : World -> Net Addr * World) (now_of : World -> Z * World).
Context (draw : Z -> Z -> World -> Z * World) (wait : Z -> World -> World).
(** The coordinator's wiring: its configuration, engine version, synced policy, local
    executor and identity. *)
Context (base : ConfigData.GridConfig) (engine_version : bytes) (policy : option OnchainPolicy).
Context (local : option LocalExecutor) (self_id : NodeId).

Definition run_planned (local_estimate : option WorkingSetEstimate) (input peak : option Z) (sql : bytes) (o : QueryOverrides)
    (job : JobId) (fuel : nat) (g : ProgressTracker) (s : counters) (gs : GridState C World)
    : option (result QueryOutcome CoordinatorError * counters * ProgressTracker * GridState C World) :=
  match query_apply o base with
  | Err _ => Some (Err (CConfig []), s, g, gs)
  | Ok cfg =>
      match try_local_execution local self_id job sql cfg local_estimate s with
      | (Err e, s1) => Some (Err e, s1, g, gs)
      | (Ok (Some out), s1) => Some (Ok out, s1, g, gs)
      | (Ok None, s1) =>
          let '(d, sched, q) := dispatch_to_grid engine_version policy base cfg o sql job input peak in
          '(r, g', gs') ← grid_query net_of now_of draw wait d sched q fuel g gs;
          Some (r, s1, g', gs')
      end
  end.

(** [run_query] *)
Definition run_query := run_planned None None None.

(** [run_query_planned]: a query that reads data gets no local estimate. *)
Definition run_query_planned (estimate : option WorkingSetEstimate) (sql : bytes) :=
  run_planned (if has_data_source sql then None else estimate)
    (ws_scanned_uncompressed_bytes <$> estimate) (ws_peak_working_set_bytes <$> estimate) sql.
End run.

(** ** A local reservation is always given back *)

Section reservation.
Context (P : Pools).

Lemma run_cap s p :
  (forall c, 0 <= s c <= cap P c) -> Forall (fun i => 0 <= amount i) p -> (run P s p).1 = true ->
  forall c, 0 <= (run P s p).2 c <= cap P c.
Proof.
  revert s. induction p as [|i p IH]; intros s Hs Hp; [done|]. apply Forall_cons in Hp as [Hi Hp]. cbn [run].
  destruct (Governor.room P s i) eqn:Hr; [|done]. apply IH; [|done]. intros c. rewrite set_cell_total. apply Governor.room_cap in Hr.
  pose proof (Hs c). destruct (decide (target i = c)); subst; lia.
Qed.

Lemma reserve_amounts governed b :
  Pools_wf P -> 0 <= b -> Forall (fun i => 0 <= amount i) (reserve P governed b)
    /\ nonneg (drop_reservation P governed b).
Proof.
  intros (_ & Hj & Hm) Hb. unfold reserve, drop_reservation, nonneg.
  destruct governed; cbn; rewrite !Forall_cons, ?Forall_nil; cbn; lia.
Qed.

(** Granted and dropped, or refused: every counter is back where it was. *)
Lemma reservation_returned governed b s :
  Pools_wf P -> in_u 64 b -> (forall c, 0 <= s c <= cap P c) ->
  let '(granted, s1) := run P s (reserve P governed b) in
  (forall c, (if granted then undo_all s1 (drop_reservation P governed b) else s1) c = s c)
  /\ (granted = true -> s LocMem + Z.max b (min_reservation_bytes P) <= local_budget_bytes P /\ s LocSlot + 1 <= local_max_jobs P).
Proof.
  intros HP Hb Hs. pose proof (program_wf P (CallLocal governed b) HP Hb) as Hw. cbn [program Governor.release] in Hw.
  assert (Hz : forall c, Governor.total c [] <= s c) by (intros c; pose proof (Hs c); cbn; lia).
  pose proof (run_spec P [] _ _ s HP Hw (Forall_nil_2 _) Hs Hz) as Hr.
  destruct (reserve_amounts governed b HP ltac:(unfold in_u in Hb; lia)) as [Ha Hn].
  pose proof (run_cap s _ Hs Ha) as Hc. pose proof (run_granted P s _ (program_targets P (CallLocal governed b))) as Hg.
  cbn [program] in Hg. destruct (run P s (reserve P governed b)) as [[] s1]; cbn [fst snd] in *.
  - split.
    + intros c. rewrite (undo_all_spec P); [rewrite Hr; cbn; lia|done|done|by apply Hc|].
      intros d. rewrite Hr. pose proof (Hs d). cbn. lia.
    + intros _. symmetry in Hg. unfold reserve in Hg. cbn [app forallb Governor.room cap] in Hg.
      apply andb_true_iff in Hg as [H1 Hg]. apply andb_true_iff in Hg as [H2 _]. apply Z.leb_le in H1, H2. lia.
  - split; [|done]. intros c. rewrite Hr. cbn. lia.
Qed.
End reservation.

(** ** What running locally means *)

Lemma decide_local cfg req :
  is_local (plan_decide cfg req) = true ->
  pl_enabled cfg = true /\ pl_local_execution_enabled cfg = true
  /\ (pq_prefer req = PreferLocal
      \/ pq_prefer req = PreferAuto /\ pq_local_slot_available req = true
         /\ exists e, pq_estimate req = Some e
              /\ ws_scanned_uncompressed_bytes e <= pl_size_threshold_bytes cfg
              /\ (0 < pl_max_local_latency_ms cfg -> ws_estimated_runtime_ms e <= pl_max_local_latency_ms cfg)
              /\ ws_peak_working_set_bytes e <= sat_add 64 (pl_spill_tolerance_bytes cfg) (pq_headroom_bytes req)).
Proof.
  unfold plan_decide. destruct (pl_enabled cfg); [|done]. destruct (pl_local_execution_enabled cfg); [|done]. cbn [negb].
  destruct (pq_prefer req); [by auto|done|]. destruct (pq_local_slot_available req); [|done]. cbn [negb].
  destruct (pq_estimate req) as [e|]; [|done].
  destruct (Z.ltb_spec (pl_size_threshold_bytes cfg) (ws_scanned_uncompressed_bytes e)); [done|].
  destruct ((0 <? _) && _) eqn:El; [done|].
  destruct (Z.ltb_spec (sat_add 64 (pl_spill_tolerance_bytes cfg) (pq_headroom_bytes req)) (ws_peak_working_set_bytes e)); [done|].
  intros _. split_and!; [done..|]. right. split_and!; [done..|]. exists e. split_and!; [done|lia| |lia].
  intros Hl. apply andb_false_iff in El as [El|El]; apply Z.ltb_ge in El; lia.
Qed.

(** What [try_local_execution] does to the counters and what an outcome of it is. *)
Lemma local_execution local self_id job sql cfg est s r s' :
  (forall l, local = Some l -> Pools_wf (le_pools l) /\ forall c, 0 <= s c <= cap (le_pools l) c) ->
  (forall e, est = Some e -> in_u 64 (ws_peak_working_set_bytes e)) ->
  try_local_execution local self_id job sql cfg est s = (r, s') ->
  (forall c, s' c = s c)
  /\ forall out, r = Ok (Some out) ->
       qo_executed_locally out = true /\ qo_winner out = Some self_id
       /\ exists l lease, local = Some l /\ le_engine l sql lease = Ok (qo_result out)
            /\ pl_enabled (le_planner l) = true /\ pl_local_execution_enabled (le_planner l) = true
            /\ s LocSlot + 1 <= local_max_jobs (le_pools l)
            /\ (pl_prefer (gc_planner cfg) = PreferLocal
                \/ exists e, est = Some e /\ s LocMem + ws_peak_working_set_bytes e <= local_budget_bytes (le_pools l)
                     /\ ws_scanned_uncompressed_bytes e <= pl_size_threshold_bytes (le_planner l)).
Proof.
  intros Hl He H. unfold try_local_execution in H. destruct local as [l|]; [|by injection H as <- <-].
  destruct (Hl l eq_refl) as [HP Hs]. destruct (is_local _) eqn:Ed; cbn [negb] in H; [|by injection H as <- <-].
  set (b := default 0 (ws_peak_working_set_bytes <$> est)) in H.
  assert (Hb : in_u 64 b) by (subst b; destruct est; cbn; [by apply He|unfold in_u; lia]).
  pose proof (reservation_returned (le_pools l) (le_governed l) b s HP Hb Hs) as Hr.
  destruct (run _ s _) as [granted s1]. destruct Hr as [Hr Hroom].
  destruct granted; cbn [negb] in H; [|by injection H as <- <-].
  specialize (Hroom eq_refl). destruct (le_engine l sql _) as [rs|e] eqn:Ee.
  - injection H as <- <-. split; [exact Hr|]. intros out [= <-]. split; [done|]. split; [done|].
    apply decide_local in Ed as (H1 & H2 & Hp). cbn [pq_prefer pq_estimate pq_local_slot_available] in Hp.
    exists l. eexists. split_and!; [done|exact Ee|done|done|lia|].
    destruct Hp as [Hp|(_ & _ & e & Hest & Hsz & _)]; [by left|right]. exists e. split_and!; [done| |done].
    subst b. rewrite Hest in Hroom. cbn in Hroom. lia.
  - destruct (_ && _); injection H as <- <-; (split; [exact Hr|done]).
Qed.

(** The quorum and the mode of the call are those of the attempts. *)
Lemma dispatched_quorum {C : Crypto} engine policy base c o sql job input peak d sched q :
  dispatch_to_grid engine policy base c o sql job input peak = (d, sched, q) ->
  g_quorum d = Z.to_nat (sch_quorum (gc_scheduler c))
  /\ g_verify_mode d = match sch_verify_mode (gc_scheduler c) with VerifyFast => Fast | VerifyQuorum => Quorum end
  /\ q_hash q = compute sql engine.
Proof.
  unfold dispatch_to_grid. intros H. apply pair_equal_spec in H as [H <-]. apply pair_equal_spec in H as [<- <-].
  destruct policy as [p|]; [|done]. by destruct (negb _ && _).
Qed.

Lemma quorum_positive c : validate c = Ok tt -> sch_quorum (gc_scheduler c) <> 0.
Proof.
  intros H. unfold validate in H. checks_in H. destruct H as (_ & Hs & _). unfold validate_scheduler in Hs. checks_in Hs.
  destruct Hs as (_ & Hq & _). by apply negb_true_iff, Z.eqb_neq in Hq.
Qed.

Section guarantees.
Context {C : Crypto} {J : EvidenceJson} {L : Libm} {Addr World : Type}.
Context (net_of : World -> Net Addr * World) (now_of : World -> Z * World).
Context (draw : Z -> Z -> World -> Z * World) (wait : Z -> World -> World).
Context (base : ConfigData.GridConfig) (engine_version : bytes) (policy : option OnchainPolicy).
Context (local : option LocalExecutor) (self_id : NodeId).

(** C1: what a caller gets is either computed by its own machine or verified by a
    quorum.  Let a planned query run to any result at all, success or error: every local
    slot and byte that was reserved on the way has been given back.  If the result is an
    outcome, the merged configuration of the call asks for quorum verification, the
    query is not one of the coordinator's canaries (queries whose answer is known in
    advance, which are not decided by a vote) and the outcome is marked verified, then
    either this node's own engine produced the rows - the planner and local execution
    were enabled, and the caller pinned the query to this machine or the query reads no
    data and its estimated peak fitted the free part of the local budget - or, in some
    attempt on the grid, at least the configured quorum (one or more) of the selected
    workers committed the returned hash, no other hash reached it, and the rows are
    those the winner transferred.  The pools are well formed with counters within their
    capacities at the start, and the estimate and the quorum are u64 values. *)
Theorem run_query_sound est sql o job fuel g s gs res s' g' gs' :
  (forall l, local = Some l -> Pools_wf (le_pools l) /\ forall c, 0 <= s c <= cap (le_pools l) c) ->
  (forall e, est = Some e -> in_u 64 (ws_peak_working_set_bytes e)) ->
  run_query_planned net_of now_of draw wait base engine_version policy local self_id est sql o job fuel g s gs
    = Some (res, s', g', gs') ->
  (forall x, s' x = s x)
  /\ forall out, res = Ok out -> exists c, query_apply o base = Ok c
    /\ (in_u 64 (sch_quorum (gc_scheduler c)) -> sch_verify_mode (gc_scheduler c) = VerifyQuorum ->
        canary_expected (gs_co gs) (compute sql engine_version) = None -> qo_verified out = true ->
        (qo_executed_locally out = true /\ gs' = gs
         /\ exists l lease, local = Some l /\ le_engine l sql lease = Ok (qo_result out)
              /\ pl_enabled (le_planner l) = true /\ pl_local_execution_enabled (le_planner l) = true
              /\ (pl_prefer (gc_planner c) = PreferLocal
                  \/ has_data_source sql = false
                     /\ exists e, est = Some e /\ s LocMem + ws_peak_working_set_bytes e <= local_budget_bytes (le_pools l)))
        \/ exists d sched q co net ex floor g0,
              dispatch_to_grid engine_version policy base c o sql job
                (ws_scanned_uncompressed_bytes <$> est) (ws_peak_working_set_bytes <$> est) = (d, sched, q)
              /\ occurs net_of net
              /\ let commits := inflight (answers_now co d net q ex floor g0) in
                 exists h w, qo_agreed_hash out = Some h /\ qo_winner out = Some (i_worker w)
                   /\ reaches (i_hash <$> commits) (Z.to_nat (sch_quorum (gc_scheduler c))) h
                   /\ (1 <= Z.to_nat (sch_quorum (gc_scheduler c)))%nat
                   /\ (forall h', reaches (i_hash <$> commits) (Z.to_nat (sch_quorum (gc_scheduler c))) h' -> h' = h)
                   /\ w ∈ commits /\ i_hash w = h /\ n_transfer net (i_worker w) = Some (qo_result out)).
Proof using Type.
  intros Hl He H. unfold run_query_planned, run_planned in H.
  destruct (query_apply o base) as [c|] eqn:Ec; [|by injection H as <- <- <- <-].
  destruct (try_local_execution _ _ _ _ _ _ _) as [r s1] eqn:Et.
  assert (He' : forall e, (if has_data_source sql then None else est) = Some e -> in_u 64 (ws_peak_working_set_bytes e))
    by (intros e; destruct (has_data_source sql); [done|apply He]).
  destruct (local_execution _ _ _ _ _ _ _ _ _ Hl He' Et) as [Hs Hloc].
  destruct r as [[lo|]|err]; [| |by injection H as <- <- <- <-].
  - injection H as <- <- <- <-. split; [done|]. intros out [= <-]. exists c. split; [done|]. intros _ _ _ _. left.
    destruct (Hloc lo eq_refl) as (Hx & _ & l & lease & Hll & Hen & H1 & H2 & _ & Hp).
    split; [done|]. split; [done|]. exists l, lease. split_and!; [done..|].
    destruct Hp as [Hp|(e & Hest & Hfit & _)]; [by left|right]. destruct (has_data_source sql); [done|].
    split; [done|]. by exists e.
  - destruct (dispatch_to_grid _ _ _ _ _ _ _ _ _) as [[d sched] q] eqn:Ed.
    destruct (grid_query _ _ _ _ _ _ _ _ _ _) as [[[r' g1] gs1]|] eqn:Eg; [|done]. cbn [mbind option_bind] in H.
    injection H as <- <- <- <-. split; [done|]. intros out ->. exists c. split; [done|]. intros Hq Hm Hc Hv. right.
    destruct (dispatched_quorum _ _ _ _ _ _ _ _ _ _ _ _ Ed) as (Eq & Em & Eh).
    rewrite <- Eh in Hc. rewrite Hm in Em. rewrite <- Eq.
    destruct (grid_result_verified _ _ _ _ _ _ _ _ _ _ _ _ _ Eg Em Hc Hv)
      as (co & net & ex & floor & g0 & Hn & h & w & Ha & Hw & Hr & Hu & _ & Hin & Hh & _ & Ht & _).
    exists d, sched, q, co, net, ex, floor, g0. split; [done|]. split; [done|]. exists h, w.
    split_and!; [done|done|done| |done|done|done|done]. rewrite Eq.
    apply query_apply_ok in Ec as [_ Hval]. pose proof (quorum_positive c Hval). unfold in_u in Hq. lia.
Qed.
End guarantees.

(** ** Examples *)

(** A call that takes any host, on the grid of five workers of which two are silent. *)
Definition trusting : QueryOverrides := no_overrides <| ov_min_trust := Some (f64_of_Z 0) |>.
Definition call_on (local : option LocalExecutor) (est : option WorkingSetEstimate) (o : QueryOverrides) (sql : bytes) :=
  run_query_planned (C := toy_crypto) (J := toy_json) (steady (five_nodes frames_flaky)) tick low_draw sleep_ms default_GridConfig
    (str "1.0") None local (node_id_of 9) est sql o (str "job") 5 ∅ (fun _ => 0) (mkGridState (coordinator_example None) [] 0).

Example grid_call_example :
  match call_on None None trusting (str "SELECT * FROM t") with
  | Some (Ok o, _, _, _) => qo_agreed_hash o = Some (str "right") /\ qo_verified o = true /\ qo_executed_locally o = false
  | _ => False
  end.
Proof. vm_compute. repeat split; reflexivity. Qed.

Lemma grid_call_ends :
  exists o s g gs, call_on None None trusting (str "SELECT * FROM t") = Some (Ok o, s, g, gs) /\ qo_verified o = true
    /\ qo_executed_locally o = false.
Proof.
  pose proof grid_call_example as H. revert H. generalize (call_on None None trusting (str "SELECT * FROM t")).
  intros [[[[[o|e] s] g] gs]|] H; try contradiction. exists o, s, g, gs. by destruct H as (_ & ? & ?).
Qed.

Lemma run_query_sound_witness :
  exists o s g gs, call_on None None trusting (str "SELECT * FROM t") = Some (Ok o, s, g, gs) /\ qo_verified o = true
    /\ exists h, qo_agreed_hash o = Some h.
Proof.
  destruct grid_call_ends as (o & s & g & gs & E & Hv & Hl). exists o, s, g, gs. split; [exact E|]. split; [exact Hv|].
  unfold call_on in E.
  destruct (run_query_sound (C := toy_crypto) (J := toy_json) (steady (five_nodes frames_flaky)) tick low_draw sleep_ms default_GridConfig
    (str "1.0") None None (node_id_of 9) None (str "SELECT * FROM t") trusting (str "job") 5 ∅ (fun _ => 0)
    (mkGridState (coordinator_example None) [] 0) (Ok o) s g gs ltac:(done) ltac:(done) E) as (_ & Hok).
  destruct (Hok o eq_refl) as (c & Hc & H).
  assert (Ec : c = query_floors trusting (query_assign trusting default_GridConfig)) by (by apply query_apply_ok in Hc as [-> _]).
  destruct H as [(Hx & _)|(d & sched & q & co & net & ex & fl & g0 & _ & _ & h & w & Hh & _)].
  - rewrite Ec. vm_compute. split; congruence.
  - rewrite Ec. reflexivity.
  - reflexivity.
  - exact Hv.
  - congruence.
  - exists h. exact Hh.
Defined.

Definition echo_engine (sql : bytes) (lease : ExecLease) : result ResultSet bytes := Ok (mkResultSet [sql] []).
Definition own_machine : LocalExecutor := mkLocalExecutor pools_example true default_PlannerConfig echo_engine.
Definition small_estimate (peak : Z) : WorkingSetEstimate := mkWorkingSet 100 10 100 0 0 0 peak 1.

(** Small, reads nothing: runs here. *)
Example local_call_example :
  match call_on (Some own_machine) (Some (small_estimate 500)) trusting (str "SELECT 1 + 1") with
  | Some (Ok o, s, _, gs) => qo_executed_locally o = true /\ qo_winner o = Some (node_id_of 9) /\ gs_log gs = [] /\ s LocMem = 0
  | _ => False
  end.
Proof. vm_compute. repeat split; reflexivity. Qed.

(** The spill tolerance (512 MiB by default) never lets a query run here: the planner
    accepts a peak above the free local budget, the reservation refuses it, and the
    query goes to the grid. *)
Example spill_tolerance_unused :
  is_local (plan_decide default_PlannerConfig
    (mkPlanRequest PreferAuto (Some (small_estimate 601)) (headroom_bytes own_machine (fun _ => 0)) true)) = true
  /\ (try_local_execution (Some own_machine) (node_id_of 9) (str "job") (str "SELECT 1") default_GridConfig
        (Some (small_estimate 601)) (fun _ => 0)).1 = Ok None.
Proof. vm_compute. done. Qed.

(** A query pinned to this machine is sent to the grid when no local slot is free. *)
Example pinned_local_goes_to_grid :
  let busy c := match c with LocSlot => 2 | _ => 0 end in
  match query_apply (no_overrides <| ov_prefer := Some PreferLocal |>) default_GridConfig with
  | Ok c => (try_local_execution (Some own_machine) (node_id_of 9) (str "job") (str "SELECT 1") c None busy).1 = Ok None
  | Err _ => False
  end.
Proof. vm_compute. done. Qed.
