(* ===== verification/Worker.v ===== *)
(** * The worker: bids, dispatch authorizations and job execution
      (node/worker.rs, node/admission.rs, the messages of proto/messages.rs)

    A host answers an [Offer] with a [Bid] after its gates, remembers for five minutes
    which authenticated peer it accepted a job from, and executes a [Dispatch] only
    against such an authorization and within a lease of [Governor].  Streams are served
    concurrently, so the handler of a dispatch is two steps, from the authorization to
    the lease and from the execution to the release, with any other steps in between.

    The clock of the ledger ([Instant]) is in nanoseconds; it is read before the lock is
    taken, so nothing is assumed about the order of its readings.  The engine, the input
    reader, the attestor and the JSON parser of tokens are parameters.  The OS sandbox
    does not influence the protocol and is left out; the spill directory is [Spill]. *)

From S2P Require Import Prelude Bytes F64 Text Crypto Proto Input Canonical Signing Capability Token Governor Books Escrow Abuse.
From S2P Require Import Dispatch ConfigData ResultStream Config Overrides Estimator RunQuery.
#[local] Open Scope duckton_scope.

(** ** Messages *)

Record Offer := mkOffer {
  of_job_id : JobId;
  of_requester_id : NodeId;
  of_query_hash : QueryHash;
  of_cost_hint_rows : option Z;
  of_cost_hint_bytes : option Z;
  of_data_class : DataClass;
  of_nonce : Z;
  of_network : option bytes;
  of_groups : list bytes;
  of_regions : list bytes;
  of_group_proof : option bytes;
  of_input_fingerprint_hint : option bytes;
}.

Record ScopedCredential := mkCredential {
  cr_provider : bytes; cr_token : bytes; cr_prefix : bytes; cr_expires_at : Z;
}.
Record SignedInput := mkSignedInput { si_uri : bytes; si_url : bytes }.
Record SealedKey := mkSealedKey { sk_recipient : bytes; sk_ciphertext_hex : bytes }.

Record Dispatch := mkDispatch {
  dp_job_id : JobId;
  dp_sql : bytes;
  dp_query_hash : QueryHash;
  dp_credential : option ScopedCredential;
  dp_memory_limit_bytes : Z;
  dp_threads : Z;
  dp_max_spill_bytes : Z;
  dp_verify_mode : VerifyMode;
  dp_sealed_key : option SealedKey;
  dp_result_parallelism : option Z;
  dp_compression : option Compression;
  dp_input_snapshot : option InputSnapshot;
  dp_signed_inputs : list SignedInput;
  dp_cap_deadline_ms : option Z;
}.

Record Progress := mkProgress {
  pg_job_id : JobId; pg_worker_id : NodeId; pg_stage : bytes;
  pg_rows_processed : Z; pg_pct : Z; pg_seq : Z; pg_ts_ms : Z;
}.

Record ResultCommit := mkCommit {
  cm_job_id : JobId; cm_worker_id : NodeId; cm_result_hash : bytes;
  cm_row_count : Z; cm_latency_ms : Z; cm_input_fingerprint : bytes;
}.

Record Ack := mkAck { ack_job_id : JobId; ack_ok : bool; ack_detail : bytes }.

(** What the handler of a dispatch writes; [None] in a transfer is a panic. *)
Inductive OutFrame :=
| FAck (a : Ack)
| FProgress (p : Progress)
| FCommit (c : ResultCommit)
| FTransfer (t : option (result (list Framed * list UniStream) SendError)).

(** ** Parameters of a worker *)

Record WorkerParams := mkWorkerParams {
  wp_per_job_memory_bytes : Z;
  wp_per_job_threads : Z;
  wp_spill_tolerance_bytes : Z;
  wp_max_spill_bytes : Z;
  wp_result_chunk_bytes : Z;
  wp_result_parallelism : Z;
  wp_parallel_min_bytes : Z;
  wp_compression : Compression;
  wp_compression_level : Z;
  wp_compression_min_bytes : Z;
  wp_max_uni_streams : Z;
  wp_job_timeout : Z;                     (* milliseconds; 0: none *)
  wp_progress_interval : Z;               (* milliseconds; 0: none *)
  wp_enabled : bool;
  wp_networks : list bytes;
  wp_groups : list bytes;
  wp_region : option bytes;
  wp_group_enforcement : GroupEnforcement;
  wp_group_issuers : list (bytes * bytes);
  wp_region_token : option bytes;
  wp_pricing : PricingEconomics;
  wp_private : bool;
  wp_roster : list bytes;
}.

(** [WorkerParams::from_config] *)
Definition from_config (c : ConfigData.GridConfig) : WorkerParams :=
  mkWorkerParams
    (bud_per_job_memory_bytes (gc_budget c)) (bud_per_job_threads (gc_budget c))
    (pl_spill_tolerance_bytes (gc_planner c)) (bud_max_spill_bytes (gc_budget c))
    (default (net_result_chunk_bytes (gc_network c)) (rt_chunk_bytes (tr_result (gc_transport c))))
    (rt_parallelism (tr_result (gc_transport c))) (rt_parallel_min_bytes (tr_result (gc_transport c)))
    (algo_to_wire (cmp_algorithm (tr_compression (gc_transport c))))
    (cmp_level (tr_compression (gc_transport c))) (cmp_min_size_bytes (tr_compression (gc_transport c)))
    (quic_max_concurrent_uni_streams (tr_quic (gc_transport c)))
    (wrk_job_timeout_ms (gc_worker c)) (wrk_progress_interval_ms (gc_worker c)) (wrk_enabled (gc_worker c))
    (mem_networks (gc_membership c)) (mem_groups (gc_membership c)) (mem_region (gc_membership c))
    (mem_group_enforcement (gc_membership c)) (mem_group_issuers (gc_membership c)) (mem_region_token (gc_membership c))
    (ec_pricing (gc_economics c)) (is_private c) (idc_allowlist (gc_identity c)).

(** [WorkerParams::send_opts] *)
Definition send_opts (p : WorkerParams) (d : Dispatch) : SendOpts :=
  let wanted := default (wp_result_parallelism p) (dp_result_parallelism d) in
  let parallelism := Z.min (Z.max wanted 1) (Z.max (wp_max_uni_streams p) 1) in
  mkSendOpts (Z.to_nat (wp_result_chunk_bytes p)) (Z.to_nat parallelism) (Z.to_nat (wp_parallel_min_bytes p))
    (default (wp_compression p) (dp_compression d)) (wp_compression_level p) (Z.to_nat (wp_compression_min_bytes p)).

(** A cap of 0 is no cap; otherwise the tighter one holds. *)
Definition effective_spill_cap (dispatch_cap host_cap : Z) : Z :=
  if dispatch_cap =? 0 then host_cap
  else if host_cap =? 0 then dispatch_cap
  else Z.min dispatch_cap host_cap.

(** ** Admission control *)

Record FreeResources := mkFree { fr_memory_bytes : Z; fr_threads : Z; fr_free_jobs : Z }.

(** [AdmissionController::free] *)
Definition free (P : Pools) (s : counters) : FreeResources :=
  mkFree (sat_sub (adm_memory_bytes P) (s AdmMem)) (sat_sub (adm_threads P) (s AdmThr))
    (wrap 32 (adm_max_jobs P - s AdmSlot)).

Definition serves_data_class (classes : list DataClassCfg) (dc : DataClass) : bool :=
  bool_decide (data_class_to_cfg dc ∈ classes).

(** ** The worker *)

(** [blocklist] and [rate_limiter] are shared with the rest of the node: the record
    says whether they are wired, their contents are in the state. *)
Record AntiAbuseRuntime := mkAntiAbuse {
  aa_cfg : AntiAbuseConfig;
  aa_economics : EconomicsConfig;
  aa_blocklist : bool;
  aa_rate_limiter : option RateLimiter;
}.

Inductive InputObservation := Unpinned | Pinned (fp : bytes) | Unavailable (reason : bytes).

Record JobContext := mkJobContext {
  cx_credential : option ScopedCredential;
  cx_parquet_keys : list (bytes * bytes);
  cx_input_snapshot : option InputSnapshot;
  cx_signed_inputs : list SignedInput;
  cx_spill_dir : option bytes;
}.

Record Worker := mkWorker {
  wk_id : NodeId;
  wk_signer : Signer;
  wk_engine : bytes -> ExecLease -> JobContext -> result ResultSet bytes;
  wk_pools : Pools;
  wk_governed : bool;
  wk_data_classes : list DataClassCfg;
  wk_attestation : Attestation;
  wk_params : WorkerParams;
  wk_antiabuse : option AntiAbuseRuntime;
  wk_capability : bool;
  wk_attestor : option (bytes -> bytes -> Attestation);
  wk_attest_bound_pub : bytes;
  wk_input_reader : option InputSnapshot -> InputObservation;
  wk_serving_block : option bytes;
  wk_parse_token : bytes -> option CapabilityToken;   (* serde_json::from_str *)
}.

(** [EchoInputReader::observe] *)
Definition echo_input_reader (snapshot : option InputSnapshot) : InputObservation :=
  match snapshot with Some s => Pinned (fingerprint s) | None => Unpinned end.

Record DispatchAuth := mkAuth { au_requester : NodeId; au_expires_at : Z }.

(** What the clones of a worker share. *)
Record WState := mkWState {
  ws_counters : counters;
  ws_blocklist : Blocklist;
  ws_limiter : Book (list Z);
  ws_authorized : gmap bytes DispatchAuth;
  ws_capability : option CapabilityProfile;
}.

(** The clock readings of one bid: the token check, the rate limiter, the ledger. *)
Record Moment := mkMoment { mo_group_ts : Z; mo_limit_ts : Z; mo_instant : Z }.

Definition DISPATCH_AUTH_TTL : Z := 300 * 1000000000.
Definition COLD_START_THROUGHPUT_BPS : Z := 16 * 1024 * 1024.
Definition AVG_ROW_BYTES : Z := 256.

(** ** Bids *)

Section bids.
Context {C : Crypto} (w : Worker).

Definition attestation_for (o : Offer) : Attestation :=
  match wk_attestor w with
  | Some produce => produce (le64 (of_nonce o)) (wk_attest_bound_pub w)
  | None => wk_attestation w
  end.

Definition reject_bid (s : WState) (o : Offer) (reason : bytes) : Bid :=
  let f := free (wk_pools w) (ws_counters s) in
  mkBid (of_job_id o) (wk_id w) (BidReject reason) 0 0 (wk_attestation w) []
    (fr_memory_bytes f) (fr_threads f) None 0 0 0 0.

(** The rates, the estimated seconds and the cap. *)
Definition metered_bid_terms (o : Offer) : Z * Z * Z * Z :=
  let p := wp_pricing (wk_params w) in
  if negb (metered_active p) then (0, 0, 0, 0)
  else
    let rate_per_second := Z.min (effective_rate_per_second p) (umax 64) in
    let bytes := default 0 (match of_cost_hint_bytes o with
                            | Some b => Some b
                            | None => (fun r => sat_mul 64 r AVG_ROW_BYTES) <$> of_cost_hint_rows o
                            end) in
    let throughput := Z.max COLD_START_THROUGHPUT_BPS 1 in
    let estimated_seconds := Z.max ((bytes + throughput - 1) / throughput) 1 in
    let cap_seconds := Z.max (sat_mul 64 estimated_seconds (Z.max (pr_cap_multiplier p) 1)) 1 in
    (rate_per_second, pr_rate_per_gb p, estimated_seconds, cap_seconds).

Definition issuer_of (issuers : list (bytes * bytes)) (g : bytes) : option bytes :=
  snd <$> List.find (fun e => bool_decide (e.1 = g)) issuers.

Definition token_proves_group (o : Offer) (now : Z) : bool :=
  match of_group_proof o ≫= wk_parse_token w with
  | None => false
  | Some token =>
      existsb (fun hg =>
        match issuer_of (wp_group_issuers (wk_params w)) hg ≫= hex_array 32 with
        | None => false
        | Some issuer =>
            match verify_group_membership token issuer hg now with
            | Ok holder => bool_decide (from_pubkey holder = of_requester_id o)
            | Err _ => false
            end
        end) (wp_groups (wk_params w))
  end.

Definition membership_reject (s : WState) (o : Offer) (now : Z) : option Bid :=
  let p := wk_params w in
  if negb (wp_enabled p) then Some (reject_bid s o (str "host is on standby (draining)"))
  else if wp_private p && bool_decide (wp_groups p = [])
  then Some (reject_bid s o (str "private mode: host declares no membership.groups (an ungrouped host must not serve in a closed grid)"))
  else if wp_private p && negb (bool_decide (of_requester_id o ∈ wp_roster p))
  then Some (reject_bid s o (str "private mode: requester is not on the host roster (identity.allowlist)"))
  else
    let in_net :=
      match of_network o with
      | None => true
      | Some net => match wp_networks p with
                    | [] => bool_decide (net = str "default")
                    | nets => bool_decide (net ∈ nets)
                    end
      end in
    if negb in_net then Some (reject_bid s o (str "host is not in the requested network"))
    else
      let shares :=
        match wp_groups p with
        | [] => true
        | groups => match wp_group_enforcement p with
                    | EnforceSoft => existsb (fun g => bool_decide (g ∈ groups)) (of_groups o)
                    | EnforceToken => token_proves_group o now
                    end
        end in
      if negb shares then Some (reject_bid s o (str "requester shares none of the host's groups"))
      else
        let in_region :=
          match of_regions o with
          | [] => true
          | regions => match wp_region p with
                       | Some r => bool_decide (r ∈ regions)
                       | None => false
                       end
          end in
        if negb in_region then Some (reject_bid s o (str "host region not in the requested set")) else None.

Definition with_limiter (s : WState) (b : Book (list Z)) : WState :=
  mkWState (ws_counters s) (ws_blocklist s) b (ws_authorized s) (ws_capability s).

Definition cost_gate_of (c : ConfigData.CostGateConfig) : Abuse.CostGateConfig :=
  Abuse.mkCostGate (cg_max_cost_hint_rows c) (cg_max_working_set_factor c).

Definition antiabuse_reject (s : WState) (o : Offer) (now : Z) : option Bid * WState :=
  match wk_antiabuse w with
  | None => (None, s)
  | Some rt =>
      if negb (ab_enabled (aa_cfg rt)) then (None, s)
      else if aa_blocklist rt && is_blocked (ws_blocklist s) (of_requester_id o)
      then (Some (reject_bid s o (str "requester is blocklisted")), s)
      else
        let gate := if Config.cost_gate_active (aa_cfg rt)
                    then cost_gate_reason (cost_gate_of (ab_cost_gate (aa_cfg rt))) (of_cost_hint_rows o) None
                           (wp_per_job_memory_bytes (wk_params w))
                    else None in
        match gate with
        | Some reason => (Some (reject_bid s o reason), s)
        | None =>
            let class := data_class_to_cfg (of_data_class o) in
            let is_free := is_free (resolve_payment (aa_economics rt) class) in
            let limited := Config.free_rate_limit_active (aa_cfg rt)
                           && (is_free || negb (frl_prioritize_paid (ab_free_rate_limit (aa_cfg rt)))) in
            match aa_rate_limiter rt with
            | Some rl =>
                if limited
                then let '(allowed, b) := check_and_record rl (ws_limiter s) (of_requester_id o) now in
                     let s' := with_limiter s b in
                     if allowed then (None, s')
                     else (Some (reject_bid s' o (str "free-job rate limit exceeded")), s')
                else (None, s)
            | None => (None, s)
            end
        end
  end.

Definition make_bid (s : WState) (o : Offer) (now : Moment) : Bid * WState :=
  match wk_serving_block w with
  | Some reason => (reject_bid s o reason, s)
  | None =>
      match membership_reject s o (mo_group_ts now) with
      | Some rejection => (rejection, s)
      | None =>
          match antiabuse_reject s o (mo_limit_ts now) with
          | (Some rejection, s') => (rejection, s')
          | (None, s') =>
              let f := free (wk_pools w) (ws_counters s') in
              if negb (serves_data_class (wk_data_classes w) (of_data_class o))
              then (mkBid (of_job_id o) (wk_id w) (BidReject (str "data class not served")) 0 0 (wk_attestation w) []
                      (fr_memory_bytes f) (fr_threads f) None 0 0 0 0, s')
              else
                let p := wk_params w in
                let has_room := (0 <? fr_free_jobs f) && (wp_per_job_memory_bytes p <=? fr_memory_bytes f)
                             && (wp_per_job_threads p <=? fr_threads f) in
                let decision := if has_room then BidAccept else BidReject (str "at capacity") in
                let eta_ms := 10 + default 0 (of_cost_hint_rows o) / 1000 in
                let '(rate_per_second, rate_per_gb, estimated_seconds, cap_seconds) := metered_bid_terms o in
                (mkBid (of_job_id o) (wk_id w) decision eta_ms 0 (attestation_for o) []
                   (fr_memory_bytes f) (fr_threads f) (wp_region_token p)
                   rate_per_second rate_per_gb estimated_seconds cap_seconds, s')
          end
      end
  end.

(** ** The authorization ledger *)

Definition with_authorized (s : WState) (m : gmap bytes DispatchAuth) : WState :=
  mkWState (ws_counters s) (ws_blocklist s) (ws_limiter s) m (ws_capability s).

(** [map.retain(|_, a| a.expires_at > now)] *)
Definition retain_live (now : Z) (m : gmap bytes DispatchAuth) : gmap bytes DispatchAuth :=
  filter (fun e => now < au_expires_at e.2) m.

Definition authorize_dispatch (s : WState) (job : JobId) (requester : NodeId) (now : Z) : WState :=
  with_authorized s (<[job := mkAuth requester (now + DISPATCH_AUTH_TTL)]> (retain_live now (ws_authorized s))).

Definition dispatch_authorized (s : WState) (job : JobId) (peer : NodeId) (now : Z) : bool * WState :=
  let m := retain_live now (ws_authorized s) in
  (match m !! job with Some a => bool_decide (au_requester a = peer) | None => false end, with_authorized s m).

Definition accepts (b : Bid) : bool := match b_decision b with BidAccept => true | BidReject _ => false end.

Definition make_bid_authenticated (s : WState) (peer : NodeId) (o : Offer) (now : Moment) : Bid * WState :=
  if negb (bool_decide (of_requester_id o = peer))
  then (reject_bid s o (str "offer requester_id does not match the authenticated mTLS peer"), s)
  else
    let '(bid, s') := make_bid s o now in
    (bid, if accepts bid then authorize_dispatch s' (of_job_id o) peer (mo_instant now) else s').
End bids.

(** ** Execution *)

Inductive ExecOutcome := XOk (rs : ResultSet) | XAbandoned | XCapExceeded | XCancelled | XErr (e : bytes).

(** What the branches of the select find at one wake-up: whether the engine is done,
    whether anything arrived on (or happened to) the dispatch stream, the elapsed time,
    whether the ticker fires and whether the progress frame can be written. *)
Record Poll := mkPoll {
  po_done : bool; po_cancel : bool; po_elapsed_ms : Z; po_tick : bool; po_write_ok : bool; po_ts_ms : Z;
}.

(** How a dispatch goes on after its start: the spill directory, if it could be created,
    the wake-ups, the latency read after the execution, whether the commit could be
    written, the requester's answer to it and how the profile's file is written. *)
Inductive Reply := ReplyAck (ok : bool) | ReplyOther.
Record Course := mkCourse {
  co_spill_dir : option bytes; co_polls : list Poll; co_latency_ms : Z; co_commit_written : bool; co_reply : Reply;
  co_profile_ts : Z; co_profile_failed : option (option CapabilityProfile);
}.

(** A dispatch that holds its lease. *)
Record Running := mkRunning {
  rn_peer : NodeId; rn_dispatch : Dispatch; rn_mem : Z; rn_threads : Z; rn_lease : ExecLease; rn_fingerprint : bytes;
}.

Section execution.
Context {C : Crypto} {K : Codecs} (w : Worker).

Definition progress_pct (elapsed_ms : Z) : Z :=
  let deadline := wp_job_timeout (wk_params w) in
  if deadline =? 0 then 0 else Z.min (sat_mul 64 elapsed_ms 100 / Z.max deadline 1) 99.

(** The loop of [execute_with_progress]; [None] while it waits.  [exec] is what the
    engine will return, [cap] the metered cap in milliseconds. *)
Fixpoint execute_with_progress (job : JobId) (exec : result ResultSet bytes) (cap : option Z) (polls : list Poll)
    (ticking : bool) (seq : Z) : option ExecOutcome * list Progress :=
  match polls with
  | [] => (None, [])
  | p :: polls' =>
      if po_done p then (Some (match exec with Ok rs => XOk rs | Err e => XErr e end), [])
      else if po_cancel p then (Some XCancelled, [])
      else if match cap with Some c => c <=? po_elapsed_ms p | None => false end then (Some XCapExceeded, [])
      else if negb (wp_job_timeout (wk_params w) =? 0) && (wp_job_timeout (wk_params w) <=? po_elapsed_ms p)
      then (Some XAbandoned, [])
      else if ticking && po_tick p
      then
        let seq := sat_add 32 seq 1 in
        let progress := mkProgress job (wk_id w) (str "executing") 0 (progress_pct (po_elapsed_ms p)) seq (po_ts_ms p) in
        let '(r, ps) := execute_with_progress job exec cap polls' (po_write_ok p) seq in
        (r, if po_write_ok p then progress :: ps else ps)
      else execute_with_progress job exec cap polls' ticking seq
  end.

Definition with_counters (s : WState) (c : counters) : WState :=
  mkWState c (ws_blocklist s) (ws_limiter s) (ws_authorized s) (ws_capability s).

Definition admit_mem_of (d : Dispatch) : Z :=
  if dp_memory_limit_bytes d =? 0 then wp_per_job_memory_bytes (wk_params w) else dp_memory_limit_bytes d.
Definition threads_of (d : Dispatch) : Z :=
  if dp_threads d =? 0 then wp_per_job_threads (wk_params w) else dp_threads d.

Definition drop_job_lease (s : WState) (mem threads : Z) : WState :=
  with_counters s (undo_all (ws_counters s) (drop_lease (wk_governed w) mem threads)).

(** [handle_dispatch] up to the execution: the running job, or the refusal it answers. *)
Definition begin_dispatch (s : WState) (peer : NodeId) (d : Dispatch) (now : Z) : result Running Ack * WState :=
  let refuse detail := Err (mkAck (dp_job_id d) false detail) in
  let '(authorized, s) := dispatch_authorized s (dp_job_id d) peer now in
  if negb authorized then (refuse (str "dispatch not authorized: no accepting bid from this peer for this job"), s)
  else
    let admit_mem := admit_mem_of d in
    let mem := sat_add 64 admit_mem (wp_spill_tolerance_bytes (wk_params w)) in
    let threads := threads_of d in
    let spill_cap := effective_spill_cap (dp_max_spill_bytes d) (wp_max_spill_bytes (wk_params w)) in
    let '(granted, c) := run (wk_pools w) (ws_counters s) (try_admit (wk_governed w) admit_mem threads) in
    let s := with_counters s c in
    if negb granted then (refuse (str "at capacity"), s)
    else
      let run fp := (Ok (mkRunning peer d admit_mem threads (mkExecLease mem threads spill_cap) fp), s) in
      match wk_input_reader w (dp_input_snapshot d) with
      | Unpinned => run []
      | Pinned fp => run fp
      | Unavailable reason =>
          (refuse (str "pinned input version not found: " ++ reason), drop_job_lease s admit_mem threads)
      end.

Definition record_capability (s : WState) (rs : ResultSet) (now : Z) (failed : option (option CapabilityProfile)) : WState :=
  if wk_capability w
  then
    let m := mkMeasured 0 (Z.of_nat (length (Proto.rows rs))) (Z.of_nat (length (to_bytes rs))) 0 0 in
    mkWState (ws_counters s) (ws_blocklist s) (ws_limiter s) (ws_authorized s)
      (observe (ws_capability s) (wk_signer w) m now failed).2
  else s.

(** [handle_dispatch] from the execution on, once the execution is over; the lease is
    dropped on every path. *)
Definition end_dispatch (s : WState) (r : Running) (k : Course) : option (list OutFrame * WState) :=
  let d := rn_dispatch r in
  let job := dp_job_id d in
  let ctx := mkJobContext (dp_credential d) [] (dp_input_snapshot d) (dp_signed_inputs d) (co_spill_dir k) in
  let cap_deadline := match dp_cap_deadline_ms d with Some ms => if 0 <? ms then Some ms else None | None => None end in
  let '(out, progress) := execute_with_progress job (wk_engine w (dp_sql d) (rn_lease r) ctx) cap_deadline (co_polls k)
                            (negb (wp_progress_interval (wk_params w) =? 0)) 0 in
  let finish frames s := Some ((FProgress <$> progress) ++ frames, drop_job_lease s (rn_mem r) (rn_threads r)) in
  let fail detail := finish [FAck (mkAck job false detail)] s in
  out ← out;
  match out with
  | XAbandoned | XCancelled => finish [] s
  | XCapExceeded =>
      fail (str "cap deadline exceeded after " ++ show_uint (default 0 (dp_cap_deadline_ms d))
            ++ str "ms: job too large for the agreed bid cap")
  | XErr e => fail (str "exec error: " ++ e)
  | XOk rs =>
      let commit := mkCommit job (wk_id w) (canonical_hash rs) (Z.of_nat (length (Proto.rows rs))) (co_latency_ms k) (rn_fingerprint r) in
      if negb (co_commit_written k) then finish [] s
      else
        let s := record_capability s rs (co_profile_ts k) (co_profile_failed k) in
        match co_reply k with
        | ReplyAck true => finish [FCommit commit; FTransfer (send_result job rs (send_opts (wk_params w) d))] s
        | _ => finish [FCommit commit] s
        end
  end.
End execution.

(** ** What an accepted offer has cleared *)

(** The gates of [make_bid], as the operator reads them. *)
Record cleared `{C : Crypto} (w : Worker) (s : WState) (o : Offer) (now : Moment) : Prop := {
  cl_block : wk_serving_block w = None;
  cl_enabled : wp_enabled (wk_params w) = true;
  cl_private : wp_private (wk_params w) = true ->
    wp_groups (wk_params w) <> [] /\ of_requester_id o ∈ wp_roster (wk_params w);
  cl_network : forall net, of_network o = Some net ->
    net ∈ wp_networks (wk_params w) \/ wp_networks (wk_params w) = [] /\ net = str "default";
  cl_group : wp_groups (wk_params w) <> [] ->
    match wp_group_enforcement (wk_params w) with
    | EnforceSoft => exists g, g ∈ of_groups o /\ g ∈ wp_groups (wk_params w)
    | EnforceToken => exists proof token g hex issuer holder,
        of_group_proof o = Some proof /\ wk_parse_token w proof = Some token
        /\ g ∈ wp_groups (wk_params w) /\ issuer_of (wp_group_issuers (wk_params w)) g = Some hex
        /\ hex_array 32 hex = Some issuer
        /\ verify_group_membership token issuer g (mo_group_ts now) = Ok holder
        /\ from_pubkey holder = of_requester_id o
    end;
  cl_region : of_regions o <> [] -> exists r, wp_region (wk_params w) = Some r /\ r ∈ of_regions o;
  cl_antiabuse : forall rt, wk_antiabuse w = Some rt -> ab_enabled (aa_cfg rt) = true ->
    (aa_blocklist rt = true -> of_requester_id o ∉ bl_ids (ws_blocklist s))
    /\ (Config.cost_gate_active (aa_cfg rt) = true -> forall rows, of_cost_hint_rows o = Some rows ->
        0 < cg_max_cost_hint_rows (ab_cost_gate (aa_cfg rt)) -> rows <= cg_max_cost_hint_rows (ab_cost_gate (aa_cfg rt)))
    /\ (forall rl, aa_rate_limiter rt = Some rl -> Config.free_rate_limit_active (aa_cfg rt) = true ->
        resolve_payment (aa_economics rt) (data_class_to_cfg (of_data_class o)) = Free ->
        (check_and_record rl (ws_limiter s) (of_requester_id o) (mo_limit_ts now)).1 = true);
  cl_class : data_class_to_cfg (of_data_class o) ∈ wk_data_classes w;
  cl_capacity : ws_counters s AdmMem + wp_per_job_memory_bytes (wk_params w) <= adm_memory_bytes (wk_pools w)
    \/ wp_per_job_memory_bytes (wk_params w) <= 0;
}.

Section gates.
Context {C : Crypto} (w : Worker).

Lemma membership_rejects s o now b : membership_reject w s o now = Some b -> exists reason, b = reject_bid w s o reason.
Proof. unfold membership_reject. intros H. repeat case_match; simplify_eq; eauto. Qed.

Lemma antiabuse_spec s o now r s' :
  antiabuse_reject w s o now = (r, s') ->
  (forall b, r = Some b -> exists s0 reason, b = reject_bid w s0 o reason)
  /\ exists book, s' = with_limiter s book.
Proof.
  unfold antiabuse_reject. destruct s as [c bl lim au cap]. intros H.
  repeat case_match; simplify_eq; (split; [naive_solver|by eexists]).
Qed.

(** A bid names the offer's job and this worker, and touches only the rate limiter. *)
Lemma make_bid_keeps s o now b s' :
  make_bid w s o now = (b, s') ->
  b_job_id b = of_job_id o /\ b_worker_id b = wk_id w /\ exists book, s' = with_limiter s book.
Proof.
  assert (E : s = with_limiter s (ws_limiter s)) by (by destruct s).
  unfold make_bid. intros H. destruct (wk_serving_block w); [simplify_eq; eauto|].
  destruct (membership_reject w s o _) as [r|] eqn:Em.
  { apply membership_rejects in Em as [reason ->]. simplify_eq. eauto. }
  destruct (antiabuse_reject w s o _) as [[r|] s1] eqn:Ea; apply antiabuse_spec in Ea as [Hr [book ->]].
  { destruct (Hr r eq_refl) as (s0 & reason & ->). simplify_eq. eauto. }
  destruct (negb _); [simplify_eq; eauto|]. destruct (metered_bid_terms w o) as [[[r1 r2] r3] r4]. simplify_eq. eauto.
Qed.

Lemma token_proves_group_spec o now :
  token_proves_group w o now = true ->
  exists proof token g hex issuer holder,
    of_group_proof o = Some proof /\ wk_parse_token w proof = Some token
    /\ g ∈ wp_groups (wk_params w) /\ issuer_of (wp_group_issuers (wk_params w)) g = Some hex
    /\ hex_array 32 hex = Some issuer /\ verify_group_membership token issuer g now = Ok holder
    /\ from_pubkey holder = of_requester_id o.
Proof.
  unfold token_proves_group. destruct (of_group_proof o) as [proof|]; [|done]. cbn [mbind option_bind].
  destruct (wk_parse_token w proof) as [token|] eqn:Et; [|done]. intros H. apply existsb_exists in H as (g & Hg & H).
  apply list_elem_of_In in Hg. destruct (issuer_of _ g) as [hex|] eqn:Ei; [|done]. cbn [mbind option_bind] in H.
  destruct (hex_array 32 hex) as [issuer|] eqn:Eh; [|done].
  destruct (verify_group_membership _ _ _ _) as [holder|] eqn:Ev; [|done]. apply bool_decide_eq_true in H.
  by exists proof, token, g, hex, issuer, holder.
Qed.

Lemma cost_gate_rows cfg rows peak mem :
  cost_gate_reason cfg (Some rows) peak mem = None -> 0 < max_cost_hint_rows cfg -> rows <= max_cost_hint_rows cfg.
Proof.
  unfold cost_gate_reason. intros H Hp. destruct (Z.ltb_spec 0 (max_cost_hint_rows cfg)); [|lia].
  destruct (Z.ltb_spec (max_cost_hint_rows cfg) rows); [done|lia].
Qed.

(** Each gate, from the fact that it let the offer through. *)
Lemma membership_clears s o now :
  membership_reject w s o now = None ->
  wp_enabled (wk_params w) = true
  /\ (wp_private (wk_params w) = true -> wp_groups (wk_params w) <> [] /\ of_requester_id o ∈ wp_roster (wk_params w))
  /\ (forall net, of_network o = Some net ->
       net ∈ wp_networks (wk_params w) \/ wp_networks (wk_params w) = [] /\ net = str "default")
  /\ (wp_groups (wk_params w) <> [] ->
       match wp_group_enforcement (wk_params w) with
       | EnforceSoft => exists g, g ∈ of_groups o /\ g ∈ wp_groups (wk_params w)
       | EnforceToken => token_proves_group w o now = true
       end)
  /\ (of_regions o <> [] -> exists r, wp_region (wk_params w) = Some r /\ r ∈ of_regions o).
Proof.
  unfold membership_reject. cbv zeta. destruct (wp_enabled _); [|done]. cbn [negb].
  destruct (wp_private (wk_params w) && bool_decide _) eqn:E1; [done|].
  destruct (wp_private (wk_params w) && negb _) eqn:E2; [done|].
  destruct (negb (match of_network o with Some _ => _ | None => _ end)) eqn:E3; [done|]. apply negb_false_iff in E3.
  destruct (negb (match wp_groups _ with [] => _ | _ :: _ => _ end)) eqn:E4; [done|]. apply negb_false_iff in E4.
  destruct (negb (match of_regions o with [] => _ | _ :: _ => _ end)) eqn:E5; [done|]. apply negb_false_iff in E5. intros _. split_and!; [done|..].
  - intros Hp. rewrite Hp in E1, E2. cbn [andb] in E1, E2. apply bool_decide_eq_false in E1.
    apply negb_false_iff, bool_decide_eq_true in E2. done.
  - intros net Hn. rewrite Hn in E3. destruct (wp_networks _) as [|n ns]; apply bool_decide_eq_true in E3; auto.
  - intros Hg. destruct (wp_groups (wk_params w)) as [|g0 gs] eqn:Eg; [done|]. destruct (wp_group_enforcement _); [|done].
    apply existsb_exists in E4 as (g & Hg1 & Hg2). apply bool_decide_eq_true in Hg2. exists g. by rewrite list_elem_of_In.
  - intros Hr. destruct (of_regions o) as [|x xs] eqn:Er; [done|]. destruct (wp_region _) as [r|]; [|done].
    apply bool_decide_eq_true in E5. eauto.
Qed.

Lemma antiabuse_clears s o now s' :
  antiabuse_reject w s o now = (None, s') ->
  forall rt, wk_antiabuse w = Some rt -> ab_enabled (aa_cfg rt) = true ->
    (aa_blocklist rt = true -> of_requester_id o ∉ bl_ids (ws_blocklist s))
    /\ (Config.cost_gate_active (aa_cfg rt) = true -> forall rows, of_cost_hint_rows o = Some rows ->
        0 < cg_max_cost_hint_rows (ab_cost_gate (aa_cfg rt)) -> rows <= cg_max_cost_hint_rows (ab_cost_gate (aa_cfg rt)))
    /\ (forall rl, aa_rate_limiter rt = Some rl -> Config.free_rate_limit_active (aa_cfg rt) = true ->
        resolve_payment (aa_economics rt) (data_class_to_cfg (of_data_class o)) = Free ->
        (check_and_record rl (ws_limiter s) (of_requester_id o) now).1 = true).
Proof.
  intros H rt Hrt Hen. unfold antiabuse_reject in H. rewrite Hrt, Hen in H. cbn [negb] in H.
  destruct (aa_blocklist rt && _) eqn:Eb; [done|]. destruct (if Config.cost_gate_active _ then _ else _) eqn:Eg; [done|].
  split_and!.
  - intros Hb. rewrite Hb in Eb. by apply bool_decide_eq_false in Eb.
  - intros Hc rows Hr Hp. rewrite Hc, Hr in Eg. by apply (cost_gate_rows _ _ _ _ Eg).
  - intros rl Hl Ha Hf. rewrite Hl, Ha, Hf in H. cbn [is_free andb orb] in H.
    destruct (check_and_record _ _ _ _) as [[] b]; [done|done].
Qed.

Lemma accepted_cleared s o now b s' :
  make_bid w s o now = (b, s') -> accepts b = true -> cleared w s o now.
Proof.
  unfold make_bid. intros H Hacc. destruct (wk_serving_block w) eqn:Esb; [by simplify_eq|].
  destruct (membership_reject w s o _) as [r|] eqn:Em.
  { apply membership_rejects in Em as [reason ->]. by simplify_eq. }
  destruct (antiabuse_reject w s o _) as [[r|] s1] eqn:Ea.
  { apply antiabuse_spec in Ea as [Hr _]. destruct (Hr r eq_refl) as (s0 & reason & ->). by simplify_eq. }
  pose proof (antiabuse_spec _ _ _ _ _ Ea) as [_ [book ->]].
  destruct (serves_data_class _ _) eqn:Ed; cbn [negb] in H; [|by simplify_eq].
  destruct (metered_bid_terms w o) as [[[r1 r2] r3] r4]. injection H as <- <-. unfold accepts in Hacc. cbn [b_decision] in Hacc.
  destruct (_ && _) eqn:Ec in Hacc; [|done]. apply andb_true_iff in Ec as [Ec _]. apply andb_true_iff in Ec as [_ Ec].
  apply membership_clears in Em as (H1 & H2 & H3 & H4 & H5).
  split; [done|done|done|done| |done|by eapply antiabuse_clears|by apply bool_decide_eq_true in Ed|].
  - intros Hg. specialize (H4 Hg). destruct (wp_group_enforcement _); [done|]. by apply token_proves_group_spec.
  - apply Z.leb_le in Ec. cbn in Ec. unfold sat_sub in Ec. lia.
Qed.
End gates.

(** ** A worker's history *)

Inductive label :=
| LOffer (peer : NodeId) (o : Offer) (now : Moment) (b : Bid)
| LDispatch (peer : NodeId) (d : Dispatch) (now : Z) (r : result Running Ack)
| LEnd (r : Running) (frames : list OutFrame)
| LNode.

Definition wire_ok (d : Dispatch) : Prop := in_u 64 (dp_memory_limit_bytes d) /\ in_u 32 (dp_threads d).

Record Worker_wf (w : Worker) : Prop := {
  ww_pools : Pools_wf (wk_pools w);
  ww_mem : in_u 64 (wp_per_job_memory_bytes (wk_params w));
  ww_threads : in_u 32 (wp_per_job_threads (wk_params w));
}.

Section history.
Context {C : Crypto} {K : Codecs} (w : Worker).

(** What the running jobs hold of the counters. *)
Definition lease_of (r : Running) : amounts := drop_lease (wk_governed w) (rn_mem r) (rn_threads r).
Definition held (js : list Running) : amounts := js ≫= lease_of.

Definition admission_cell (c : cell) : bool := match c with AdmSlot | AdmMem | AdmThr => true | _ => false end.

(** One step of the worker; [wst_node] is what the rest of the node does meanwhile: it
    edits the deny list and reserves for its own queries, within the governor's limits. *)
Inductive wstep : WState -> list Running -> label -> WState -> list Running -> Prop :=
| wst_offer s js peer o now b s' :
    make_bid_authenticated w s peer o now = (b, s') -> wstep s js (LOffer peer o now b) s' js
| wst_started s js peer d now r s' :
    wire_ok d -> begin_dispatch w s peer d now = (Ok r, s') -> wstep s js (LDispatch peer d now (Ok r)) s' (r :: js)
| wst_refused s js peer d now a s' :
    wire_ok d -> begin_dispatch w s peer d now = (Err a, s') -> wstep s js (LDispatch peer d now (Err a)) s' js
| wst_end s js js' r k frames s' :
    js ≡ₚ r :: js' -> end_dispatch w s r k = Some (frames, s') -> wstep s js (LEnd r frames) s' js'
| wst_node s js bl c :
    (forall x, admission_cell x = true -> c x = ws_counters s x) ->
    (forall x, Governor.total x (held js) <= c x <= cap (wk_pools w) x) ->
    wstep s js LNode (mkWState c bl (ws_limiter s) (ws_authorized s) (ws_capability s)) js.

Inductive reach : list label -> WState -> list Running -> Prop :=
| reach_init s :
    ws_authorized s = ∅ -> (forall x, 0 <= ws_counters s x <= cap (wk_pools w) x) ->
    (forall x, admission_cell x = true -> ws_counters s x = 0) -> reach [] s []
| reach_step h s js l s' js' : reach h s js -> wstep s js l s' js' -> reach (h ++ [l]) s' js'.

(** The ledger, read off the history: the last acceptance of the job, as long as no
    later access has found it expired. *)
Definition mints (job : JobId) (l : label) : option DispatchAuth :=
  match l with
  | LOffer peer o now b =>
      if accepts b && bool_decide (of_job_id o = job) then Some (mkAuth peer (mo_instant now + DISPATCH_AUTH_TTL)) else None
  | _ => None
  end.
Definition sweeps (l : label) : option Z :=
  match l with
  | LOffer _ _ now b => if accepts b then Some (mo_instant now) else None
  | LDispatch _ _ now _ => Some now
  | _ => None
  end.
Definition survives (l : label) (a : DispatchAuth) : Prop := forall t, sweeps l = Some t -> t < au_expires_at a.

Lemma end_keeps s r k frames s' :
  end_dispatch w s r k = Some (frames, s') ->
  ws_authorized s' = ws_authorized s /\ ws_blocklist s' = ws_blocklist s /\ ws_limiter s' = ws_limiter s
  /\ ws_counters s' = undo_all (ws_counters s) (lease_of r).
Proof.
  unfold end_dispatch. destruct (execute_with_progress _ _ _ _ _ _ _) as [[out|] ps]; [|done]. cbn [mbind option_bind].
  unfold record_capability. intros H. repeat case_match; simplify_eq; done.
Qed.

Lemma bid_authenticated_spec s peer o now b s' :
  make_bid_authenticated w s peer o now = (b, s') ->
  ws_counters s' = ws_counters s /\ ws_blocklist s' = ws_blocklist s
  /\ (accepts b = false -> ws_authorized s' = ws_authorized s)
  /\ (accepts b = true -> of_requester_id o = peer /\ cleared w s o now
        /\ ws_authorized s' = <[of_job_id o := mkAuth peer (mo_instant now + DISPATCH_AUTH_TTL)]>
             (retain_live (mo_instant now) (ws_authorized s))).
Proof.
  unfold make_bid_authenticated. destruct (bool_decide_reflect (of_requester_id o = peer)); cbn [negb]; [|by intros [= <- <-]].
  destruct (make_bid w s o now) as [b0 s1] eqn:Eb. pose proof (make_bid_keeps _ _ _ _ _ _ Eb) as (_ & _ & book & ->).
  intros [= <- <-]. destruct (accepts b0) eqn:Ea; (split_and!; [done..|]); [|done].
  intros _. split_and!; [done|by eapply accepted_cleared|done].
Qed.

Lemma begin_ledger s peer d now r s' :
  begin_dispatch w s peer d now = (r, s') ->
  ws_authorized s' = retain_live now (ws_authorized s) /\ ws_blocklist s' = ws_blocklist s
  /\ forall run, r = Ok run -> rn_peer run = peer /\ rn_dispatch run = d
       /\ exists a, retain_live now (ws_authorized s) !! dp_job_id d = Some a /\ au_requester a = peer.
Proof.
  unfold begin_dispatch, dispatch_authorized. cbv zeta beta.
  destruct (retain_live now (ws_authorized s) !! dp_job_id d) as [a|] eqn:El; [|cbn [negb]; by intros [= <- <-]].
  destruct (bool_decide_reflect (au_requester a = peer)); cbn [negb]; [|by intros [= <- <-]].
  destruct (run _ _ _) as [[] c]; cbn [negb]; [|by intros [= <- <-]].
  destruct (wk_input_reader w _); intros [= <- <-]; split_and!; try done; intros run [= <-]; eauto.
Qed.

Lemma lookup_retain now m job a :
  retain_live now m !! job = Some a <-> m !! job = Some a /\ now < au_expires_at a.
Proof. unfold retain_live. by rewrite map_lookup_filter_Some. Qed.

(** One step of the ledger. *)
Lemma ledger_step s js l s' js' job a :
  wstep s js l s' js' ->
  ws_authorized s' !! job = Some a
  <-> mints job l = Some a \/ mints job l = None /\ ws_authorized s !! job = Some a /\ survives l a.
Proof.
  intros H. unfold survives. destruct H as [s js peer o now b s' Hb|s js peer d now r s' _ Hd|s js peer d now r s' _ Hd|s js js' r k fr s' _ He|s js bl c _ _].
  - apply bid_authenticated_spec in Hb as (_ & _ & Hrej & Hacc). cbn [mints sweeps]. destruct (accepts b); cbn [andb].
    + destruct Hacc as (_ & _ & ->); [done|]. destruct (bool_decide_reflect (of_job_id o = job)) as [<-|Hne].
      * rewrite lookup_insert_eq. naive_solver.
      * rewrite lookup_insert_ne, lookup_retain by done. naive_solver.
    + rewrite Hrej by done. naive_solver.
  - apply begin_ledger in Hd as [-> _]. rewrite lookup_retain. cbn. naive_solver.
  - apply begin_ledger in Hd as [-> _]. rewrite lookup_retain. cbn. naive_solver.
  - apply end_keeps in He as [-> _]. cbn. naive_solver.
  - cbn. naive_solver.
Qed.

(** The ledger holds exactly the live acceptances of the history. *)
Lemma ledger_spec h s js job a :
  reach h s js ->
  ws_authorized s !! job = Some a
  <-> exists h1 l h2, h = h1 ++ l :: h2 /\ mints job l = Some a /\ Forall (fun l' => mints job l' = None /\ survives l' a) h2.
Proof.
  intros Hr. induction Hr as [s He|h s js l s' js' Hr IH Hs].
  - rewrite He, lookup_empty. split; [done|]. by intros ([] & ? & ? & ? & _).
  - rewrite (ledger_step _ _ _ _ _ _ _ Hs), IH. split.
    + intros [Hm|(Hm & (h1 & l1 & h2 & -> & Hl & Hf) & Hv)].
      * by exists h, l, [].
      * exists h1, l1, (h2 ++ [l]). rewrite <- app_assoc. split_and!; [done..|]. apply Forall_app. by rewrite Forall_singleton.
    + intros (h1 & l1 & h2 & E & Hl & Hf). destruct h2 as [|l2 h2 _] using rev_ind.
      * apply app_inj_tail in E as [-> ->]. by left.
      * rewrite app_comm_cons, app_assoc in E. apply app_inj_tail in E as [-> ->].
        apply Forall_app in Hf as [Hf Hl2]. apply Forall_singleton in Hl2 as [Hn Hv]. right. split_and!; [done| |done].
        by exists h1, l1, h2.
Qed.

(** ** The budget *)

Record accounted (s : WState) (js : list Running) : Prop := {
  ac_held : forall x, Governor.total x (held js) <= ws_counters s x <= cap (wk_pools w) x;
  ac_admission : forall x, admission_cell x = true -> ws_counters s x = Governor.total x (held js);
  ac_widths : Forall (fun r => in_u 64 (rn_mem r) /\ in_u 32 (rn_threads r)) js;
}.

Lemma lease_nonneg r : in_u 64 (rn_mem r) /\ in_u 32 (rn_threads r) -> nonneg (lease_of r).
Proof.
  unfold in_u, lease_of, drop_lease, nonneg. intros [[? _] [? _]].
  destruct (wk_governed w); cbn; rewrite !Forall_cons, ?Forall_nil; cbn; lia.
Qed.

Lemma held_nonneg js : Forall (fun r => in_u 64 (rn_mem r) /\ in_u 32 (rn_threads r)) js -> nonneg (held js).
Proof.
  induction 1 as [|r js Hr _ IH]; [constructor|]. unfold held. rewrite bind_cons. apply Forall_app. split; [by apply lease_nonneg|done].
Qed.

Lemma held_cons x r js : Governor.total x (held (r :: js)) = Governor.total x (lease_of r) + Governor.total x (held js).
Proof. unfold held. by rewrite bind_cons, total_app. Qed.

Lemma held_perm x js js' : js ≡ₚ js' -> Governor.total x (held js) = Governor.total x (held js').
Proof. intros Hp. apply total_perm. unfold held. by rewrite Hp. Qed.

(** A granted admission takes exactly the lease; a refused one changes nothing. *)
Lemma admit_spec s m t :
  Worker_wf w -> in_u 64 m -> in_u 32 t -> (forall x, 0 <= s x <= cap (wk_pools w) x) ->
  let '(granted, c) := run (wk_pools w) s (try_admit (wk_governed w) m t) in
  forall x, c x = s x + (if granted then Governor.total x (drop_lease (wk_governed w) m t) else 0)
    /\ (granted = true -> 0 <= c x <= cap (wk_pools w) x).
Proof.
  intros [HP _ _] Hm Ht Hs. pose proof (program_wf (wk_pools w) (CallAdmit (wk_governed w) m t) HP (conj Hm Ht)) as Hw.
  cbn [program Governor.release] in Hw.
  assert (Hz : forall x, Governor.total x [] <= s x) by (intros x; pose proof (Hs x); cbn; lia).
  pose proof (run_spec _ [] _ _ s HP Hw (Forall_nil_2 _) Hs Hz) as Hr.
  assert (Ha : Forall (fun i => 0 <= amount i) (try_admit (wk_governed w) m t)).
  { unfold in_u in *. destruct (wk_governed w); cbn; rewrite !Forall_cons, ?Forall_nil; cbn; lia. }
  pose proof (run_cap (wk_pools w) s _ Hs Ha) as Hc. destruct (run _ s _) as [granted c]; cbn [fst snd] in *.
  intros x. rewrite Hr. split; [cbn; lia|]. intros Hg. rewrite <- Hr. by apply Hc.
Qed.

Lemma sizes_ok d : Worker_wf w -> wire_ok d -> in_u 64 (admit_mem_of w d) /\ in_u 32 (threads_of w d).
Proof. intros [_ H1 H2] [H3 H4]. unfold admit_mem_of, threads_of. by destruct (_ =? _), (_ =? _). Qed.

(** The lease of a started job is on the counters; a refusal leaves them as they were. *)
Lemma begin_counters s peer d now r s' :
  Worker_wf w -> wire_ok d -> (forall x, 0 <= ws_counters s x <= cap (wk_pools w) x) ->
  begin_dispatch w s peer d now = (r, s') ->
  match r with
  | Ok run => rn_mem run = admit_mem_of w d /\ rn_threads run = threads_of w d
      /\ forall x, ws_counters s' x = ws_counters s x + Governor.total x (lease_of run)
                   /\ 0 <= ws_counters s' x <= cap (wk_pools w) x
  | Err _ => forall x, ws_counters s' x = ws_counters s x
  end.
Proof.
  intros Hw Hd Hs. destruct (sizes_ok d Hw Hd) as [Hm Ht]. pose proof (admit_spec _ _ _ Hw Hm Ht Hs) as Ha.
  unfold begin_dispatch, dispatch_authorized. cbv zeta beta. cbn [ws_counters with_authorized].
  destruct (match _ !! _ with Some _ => _ | None => _ end); cbn [negb]; [|by intros [= <- <-]].
  destruct (run _ _ _) as [granted c]. destruct granted; cbn [negb].
  - destruct (wk_input_reader w _); intros [= <- <-]; cbn [ws_counters drop_job_lease with_counters with_authorized];
      [split_and!; [done..|]; intros x; by destruct (Ha x) as [? ?]; auto..|].
    intros x. rewrite (undo_all_spec (wk_pools w)); [| | | |].
    + destruct (Ha x) as [-> _]. lia.
    + apply Hw.
    + apply (lease_nonneg (mkRunning peer d (admit_mem_of w d) (threads_of w d) (mkExecLease 0 0 0) [])). done.
    + intros y. by apply Ha.
    + intros y. destruct (Ha y) as [-> _]. pose proof (Hs y). lia.
  - intros [= <- <-] x. cbn [ws_counters with_counters]. destruct (Ha x) as [-> _]. lia.
Qed.

Lemma accounted_step s js l s' js' : Worker_wf w -> accounted s js -> wstep s js l s' js' -> accounted s' js'.
Proof.
  intros Hw [Hh Ha Hf] H.
  assert (H0 : forall x, 0 <= ws_counters s x <= cap (wk_pools w) x).
  { intros x. pose proof (Hh x). pose proof (total_nonneg x _ (held_nonneg js Hf)). lia. }
  destruct H as [s js peer o now b s' Hb|s js peer d now r s' Hd Hb|s js peer d now a s' Hd Hb|s js js' r k fr s' Hp He|s js bl c Hc1 Hc2].
  - apply bid_authenticated_spec in Hb as (E & _). by split; rewrite ?E.
  - apply begin_counters in Hb as (Em & Et & Hx); [|done..]. destruct (sizes_ok d Hw Hd). split.
    + intros x. rewrite held_cons. destruct (Hx x) as [-> ?]. pose proof (Hh x). lia.
    + intros x E. rewrite held_cons. destruct (Hx x) as [-> _]. rewrite Ha by done. lia.
    + constructor; [|done]. by rewrite Em, Et.
  - apply begin_counters in Hb; [|done..]. split; [| |done]; intros x; rewrite Hb; auto.
  - apply end_keeps in He as (_ & _ & _ & E). rewrite Hp in Hf. apply Forall_cons in Hf as [Hr Hf].
    pose proof (held_nonneg js' Hf) as Hn.
    assert (Ex : forall x, ws_counters s' x = ws_counters s x - Governor.total x (lease_of r)).
    { intros x. rewrite E. apply (undo_all_spec (wk_pools w)); [apply Hw|by apply lease_nonneg|done|].
      intros y. pose proof (Hh y) as Hy. rewrite (held_perm y _ _ Hp), held_cons in Hy. pose proof (total_nonneg y _ Hn). lia. }
    split; [| |done]; intros x.
    + rewrite Ex. pose proof (Hh x) as Hy. rewrite (held_perm x _ _ Hp), held_cons in Hy.
      pose proof (total_nonneg x _ (lease_nonneg r Hr)). lia.
    + intros Ec. rewrite Ex, Ha by done. rewrite (held_perm x _ _ Hp), held_cons. lia.
  - split; [done| |done]. intros x E. cbn [ws_counters]. rewrite Hc1 by done. by apply Ha.
Qed.

Lemma reach_accounted h s js : Worker_wf w -> reach h s js -> accounted s js.
Proof.
  intros Hw Hr. induction Hr as [s _ H0 Ha|h s js l s' js' _ IH Hs]; [|by eapply accounted_step].
  split; [intros x; cbn; apply H0|intros x E; by rewrite Ha|done].
Qed.

Lemma lease_cells r :
  Governor.total AdmSlot (lease_of r) = 1 /\ Governor.total AdmMem (lease_of r) = rn_mem r /\ Governor.total AdmThr (lease_of r) = rn_threads r.
Proof. unfold lease_of, drop_lease. destruct (wk_governed w); cbn; unfold on_cell; cbn; repeat (case_decide; try done); lia. Qed.

Lemma held_cells js :
  Governor.total AdmSlot (held js) = Z.of_nat (length js) /\ Governor.total AdmMem (held js) = sum_by rn_mem js
  /\ Governor.total AdmThr (held js) = sum_by rn_threads js.
Proof.
  induction js as [|r js IH]; [done|]. rewrite !held_cons. destruct (lease_cells r) as (-> & -> & ->).
  destruct IH as (-> & -> & ->). cbn [length sum_by]. split_and!; [lia|done|done].
Qed.

(** ** From the history back to the offer *)

Lemma reach_split h1 l h2 s js :
  reach (h1 ++ l :: h2) s js -> exists s1 js1 s2 js2, reach h1 s1 js1 /\ wstep s1 js1 l s2 js2.
Proof.
  revert s js. induction h2 as [|l2 h2 IH] using rev_ind; intros s js Hr.
  - inversion Hr as [? ? ? ? E|h s0 js0 l0 s' js' Hr0 Hs E]; subst; [by destruct h1|].
    apply app_inj_tail in E as [-> ->]. by exists s0, js0, s, js.
  - rewrite app_comm_cons, app_assoc in Hr.
    inversion Hr as [? ? ? ? E|h s0 js0 l0 s' js' Hr0 Hs E]; subst; [by destruct (h1 ++ l :: h2)|].
    apply app_inj_tail in E as [-> ->]. by eapply IH.
Qed.

Lemma mints_some job l a :
  mints job l = Some a ->
  exists o now b, l = LOffer (au_requester a) o now b /\ accepts b = true /\ of_job_id o = job
    /\ au_expires_at a = mo_instant now + DISPATCH_AUTH_TTL.
Proof.
  destruct l as [peer o now b| | |]; cbn [mints]; try done. destruct (accepts b) eqn:Ea; [|done].
  destruct (bool_decide_reflect (of_job_id o = job)); [|done]. intros [= <-]. by exists o, now, b.
Qed.

(** Every running job was started by a dispatch of the history. *)
Lemma running_started h s js r :
  reach h s js -> r ∈ js -> exists h1 now h2, h = h1 ++ LDispatch (rn_peer r) (rn_dispatch r) now (Ok r) :: h2.
Proof.
  intros Hr. induction Hr as [s|h s js l s' js' Hr IH Hs]; [by rewrite elem_of_nil|]. intros Hin.
  assert (r ∈ js -> exists h1 now h2, h ++ [l] = h1 ++ LDispatch (rn_peer r) (rn_dispatch r) now (Ok r) :: h2) as Hold.
  { intros H. destruct (IH H) as (h1 & now & h2 & ->). exists h1, now, (h2 ++ [l]). by rewrite <- app_assoc. }
  destruct Hs as [| s js peer d now r0 s' _ Hb | |s js js' r0 k fr s' Hp He|]; auto.
  - apply elem_of_cons in Hin as [->|Hin]; [|by auto]. apply begin_ledger in Hb as (_ & _ & Hrun).
    destruct (Hrun r0 eq_refl) as (-> & -> & _). by exists h, now, [].
  - apply Hold. rewrite Hp. set_solver.
Qed.
End history.

Section guarantees.
Context {C : Crypto} {K : Codecs} (w : Worker).







(** C5: a host executes nothing it did not agree to, for nobody else, and never beyond
    its donated budget.  In every history of offers, dispatches, completions and changes
    the rest of the node makes, a job that holds a lease was dispatched by an
    authenticated peer less than five minutes after that same peer's offer for the same
    job id was accepted, with no acceptance of that job id for anybody in between; when
    it was accepted, the offer named the peer as its requester and cleared every gate
    (serving block, standby, private roster and groups, network, group proof, region,
    deny list, cost gate, free-job rate limit, data class).  All running jobs together
    stay within the memory, threads and job slots of the budget. *)
Theorem executed_jobs_were_accepted h s js r :
  Worker_wf w -> reach w h s js -> r ∈ js ->
  (exists h1 o t0 b h2 t h3 s1 js1,
     h = h1 ++ LOffer (rn_peer r) o t0 b :: h2 ++ LDispatch (rn_peer r) (rn_dispatch r) t (Ok r) :: h3
     /\ accepts b = true /\ of_job_id o = dp_job_id (rn_dispatch r) /\ t < mo_instant t0 + DISPATCH_AUTH_TTL
     /\ Forall (fun l => mints (of_job_id o) l = None) h2
     /\ reach w h1 s1 js1 /\ of_requester_id o = rn_peer r /\ cleared w s1 o t0)
  /\ sum_by rn_mem js <= adm_memory_bytes (wk_pools w) /\ sum_by rn_threads js <= adm_threads (wk_pools w)
  /\ Z.of_nat (length js) <= adm_max_jobs (wk_pools w).
Proof.
  intros Hw Hr Hin. split.
  - destruct (running_started w h s js r Hr Hin) as (ha & t & h3 & E). rewrite E in Hr.
    apply reach_split in Hr as (s1 & js1 & s2 & js2 & Hr1 & Hs).
    inversion Hs as [|? ? ? ? ? ? ? _ Hb| | |]; subst. apply begin_ledger in Hb as (_ & _ & Hrun).
    destruct (Hrun r eq_refl) as (_ & _ & a & Ha & Hreq). apply lookup_retain in Ha as [Ha Ht].
    apply (ledger_spec w _ _ _ _ _ Hr1) in Ha as (h1 & l & h2 & -> & Hm & Hf).
    apply mints_some in Hm as (o & t0 & b & -> & Hacc & Hj & He). rewrite Hreq in *. rewrite <- app_assoc.
    apply reach_split in Hr1 as (s0 & js0 & s3 & js3 & Hr0 & Hs0). inversion Hs0 as [? ? ? ? ? ? ? Hb| | | |]; subst.
    apply bid_authenticated_spec in Hb as (_ & _ & _ & Hb). destruct (Hb Hacc) as (Hpeer & Hcl & _).
    exists h1, o, t0, b, h2, t, h3. do 2 eexists. split_and!; [done|done|done|lia| |exact Hr0|done|done].
    rewrite Hj. eapply Forall_impl; [exact Hf|]. by intros l [? _].
  - pose proof (reach_accounted w h s js Hw Hr) as [Hh _ _]. destruct (held_cells w js) as (E1 & E2 & E3).
    pose proof (Hh AdmSlot) as H1. pose proof (Hh AdmMem) as H2. pose proof (Hh AdmThr) as H3.
    rewrite E1 in H1. rewrite E2 in H2. rewrite E3 in H3. cbn [cap] in *. lia.
Qed.

End guarantees.

(** ** Examples *)

(** A closed grid's host: one group, whose tokens key 7 issues; key 8 holds one. *)
Definition alice : NodeId := @from_pubkey toy_crypto (le_bytes 32 8).
Definition closed_params : WorkerParams :=
  mkWorkerParams 400 2 50 0 256 1 1024 CNone 3 64 100 60000 2000 true [] [str "prod"] (Some (str "eu")) EnforceToken
    [(str "prod", hex_encode (le_bytes 32 7))] None default_PricingEconomics true [alice].
Definition member_parse (b : bytes) : option CapabilityToken :=
  if bool_decide (b = str "token") then Some group_example else None.
Definition constant_engine (sql : bytes) (l : ExecLease) (c : JobContext) : result ResultSet bytes := Ok rs1.
Definition host_with (p : WorkerParams) : Worker :=
  mkWorker (node_id_of 1) (@identity_signer toy_crypto 1) constant_engine pools_example true [ClassPublic; ClassInternal]
    stub_l0 p None true None [] echo_input_reader None member_parse.
Definition closed_host : Worker := host_with closed_params.

Definition fresh_state : WState := mkWState (fun _ => 0) blocklist_new empty_book ∅ None.
Definition offer_of (who : NodeId) (proof : option bytes) : Offer :=
  mkOffer (str "job-7") who [] (Some 1000) None Internal 5 None [] [str "eu"] proof None.
Definition dispatch_of (sql : bytes) (mem : Z) : Dispatch :=
  mkDispatch (str "job-7") sql [] None mem 0 0 Quorum None None None None [] None.
Definition at_ (t : Z) : Moment := mkMoment 900 900 t.
Definition decide_offer (w : Worker) (s : WState) (peer : NodeId) (o : Offer) (t : Z) : bool * WState :=
  let '(b, s') := make_bid_authenticated (C := toy_crypto) w s peer o (at_ t) in (accepts b, s').

(** The member is served, and nobody else: not without the proof, not with a stolen one,
    not under the member's name on another connection. *)
Example closed_host_example :
  (decide_offer closed_host fresh_state alice (offer_of alice (Some (str "token"))) 0).1 = true
  /\ (decide_offer closed_host fresh_state alice (offer_of alice None) 0).1 = false
  /\ (decide_offer closed_host fresh_state (node_id_of 4) (offer_of (node_id_of 4) (Some (str "token"))) 0).1 = false
  /\ (decide_offer closed_host fresh_state (node_id_of 4) (offer_of alice (Some (str "token"))) 0).1 = false.
Proof. vm_compute. done. Qed.

Definition accepted_bid : Bid := (make_bid_authenticated (C := toy_crypto) closed_host fresh_state alice (offer_of alice (Some (str "token"))) (at_ 0)).1.
Definition accepted_state : WState := (make_bid_authenticated (C := toy_crypto) closed_host fresh_state alice (offer_of alice (Some (str "token"))) (at_ 0)).2.
Definition history_example : list label := [LOffer alice (offer_of alice (Some (str "token"))) (at_ 0) accepted_bid].

Lemma closed_host_wf : Worker_wf closed_host.
Proof. split; [apply pools_example_wf|vm_compute; split; congruence..]. Qed.

Lemma pools_nonneg x : 0 <= 0 <= cap pools_example x.
Proof. destruct x; vm_compute; split; congruence. Qed.

Lemma history_reached : reach (C := toy_crypto) closed_host history_example accepted_state [].
Proof.
  apply (reach_step _ [] fresh_state []).
  - apply reach_init; [done|exact pools_nonneg|done].
  - apply wst_offer. exact (surjective_pairing _).
Qed.

Definition started : result Running Ack * WState :=
  begin_dispatch closed_host accepted_state alice (dispatch_of (str "SELECT 1") 0) 7.
Definition job_example : Running :=
  mkRunning alice (dispatch_of (str "SELECT 1") 0) 400 2 (mkExecLease 450 2 0) [].
Lemma started_ok : started.1 = Ok job_example.
Proof. vm_compute. reflexivity. Qed.

Lemma job_reached : reach (C := toy_crypto) closed_host
  (history_example ++ [LDispatch alice (dispatch_of (str "SELECT 1") 0) 7 (Ok job_example)]) started.2 [job_example].
Proof.
  apply (reach_step _ history_example accepted_state []); [exact history_reached|].
  apply wst_started; [vm_compute; split; split; congruence|].
  rewrite <- started_ok. exact (surjective_pairing started).
Qed.

Lemma executed_jobs_were_accepted_witness :
  (exists h1 o t0 b h2 t h3 s1 js1,
     history_example ++ [LDispatch alice (dispatch_of (str "SELECT 1") 0) 7 (Ok job_example)]
       = h1 ++ LOffer alice o t0 b :: h2 ++ LDispatch alice (dispatch_of (str "SELECT 1") 0) t (Ok job_example) :: h3
     /\ accepts b = true /\ of_job_id o = str "job-7" /\ t < mo_instant t0 + DISPATCH_AUTH_TTL
     /\ Forall (fun l => mints (of_job_id o) l = None) h2
     /\ reach (C := toy_crypto) closed_host h1 s1 js1 /\ of_requester_id o = alice /\ cleared (C := toy_crypto) closed_host s1 o t0)
  /\ 400 <= 1000 /\ 2 <= 8 /\ 1 <= 4.
Proof.
  exact (executed_jobs_were_accepted (C := toy_crypto) closed_host _ started.2 [job_example] job_example closed_host_wf job_reached
    (list_elem_of_here _ _)).
Defined.

Definition poll_at (done tick : bool) (ms : Z) : Poll := mkPoll done false ms tick true 0.
Definition course_example : Course :=
  mkCourse None [poll_at false true 2000; poll_at false true 4000; poll_at true false 4100] 4100 true (ReplyAck true) 900 None.

Example served_job_example :
  match end_dispatch (C := toy_crypto) closed_host started.2 job_example course_example with
  | Some ([FProgress a; FProgress b; FCommit c; FTransfer (Some (Ok t))], s) =>
      pg_pct a = 3 /\ pg_pct b = 6 /\ cm_result_hash c = @canonical_hash toy_crypto rs1 /\ ws_counters s AdmMem = 0
  | _ => False
  end.
Proof. vm_compute. repeat split; reflexivity. Qed.


(** The ledger has one entry per job id: once another peer's offer with the same id is
    accepted, the first requester's dispatch is refused. *)
Definition open_host : Worker :=
  host_with (mkWorkerParams 400 2 50 0 256 1 1024 CNone 3 64 100 60000 2000 true [] [] (Some (str "eu")) EnforceSoft [] None
    default_PricingEconomics false []).
Example same_job_id_displaces :
  let '(ok1, s1) := decide_offer open_host fresh_state alice (offer_of alice None) 0 in
  let '(ok2, s2) := decide_offer open_host s1 (node_id_of 4) (offer_of (node_id_of 4) None) 1 in
  ok1 = true /\ ok2 = true
  /\ (dispatch_authorized s1 (str "job-7") alice 2).1 = true /\ (dispatch_authorized s2 (str "job-7") alice 2).1 = false.
Proof. vm_compute. done. Qed.

(** An authorization is not used up, and says nothing about the job: after one accepted
    offer, sized at 400 bytes, two different queries run at once, one of them with 500. *)
Example authorization_not_consumed :
  let '(ok, s) := decide_offer open_host fresh_state alice (offer_of alice None) 0 in
  let '(r1, s1) := begin_dispatch open_host s alice (dispatch_of (str "SELECT 1") 100) 1 in
  let '(r2, s2) := begin_dispatch open_host s1 alice (dispatch_of (str "SELECT 2") 500) 2 in
  ok = true /\ match r1, r2 with Ok a, Ok b => rn_mem a = 100 /\ rn_mem b = 500 | _, _ => False end.
Proof. vm_compute. repeat split; reflexivity. Qed.
