(* ===== verification/Spill.v ===== *)
(** * The spill directory of a served job (node/worker.rs: [SpillDirGuard] and its use in
      [handle_dispatch])

    A host makes one directory per job, named after the process and the job id the
    requester chose, and removes it with everything in it when the job ends.  The file
    system is a map from absolute paths (lists of names) to nodes, without symbolic
    links; [create_dir_all], [set_permissions] and [remove_dir_all] are what the standard
    library documents, for an account that may write everywhere. *)

From S2P Require Import Prelude Bytes Text Proto.
#[local] Open Scope duckton_scope.

Inductive node := Dir (mode : Z) | File.
Abbreviation path := (list bytes).
Abbreviation FS := (gmap path node).

(** [Path::components]: empty names and dots disappear, parents stay. *)
Definition DOTS : bytes := str "..".
Definition components (p : bytes) : path :=
  List.filter (fun c => negb (bool_decide (c = [])) && negb (bool_decide (c = str "."))) (split_on Byte.x2f p).

(** The kernel's resolution of a path: every directory on the way must exist. *)
Fixpoint walk (fs : FS) (cur : path) (cs : path) : option path :=
  match cs with
  | [] => Some cur
  | c :: cs' =>
      if decide (c = DOTS) then walk fs (removelast cur) cs'
      else match fs !! (cur ++ [c]) with
           | Some (Dir _) => walk fs (cur ++ [c]) cs'
           | Some File => match cs' with [] => Some (cur ++ [c]) | _ => None end
           | None => None
           end
  end.

(** [std::fs::create_dir_all]: the directory the path ends in, with the missing ones
    made; [None] when a file is in the way. *)
Fixpoint create_dir_all (fs : FS) (cur : path) (cs : path) : option path * FS :=
  match cs with
  | [] => (Some cur, fs)
  | c :: cs' =>
      if decide (c = DOTS) then create_dir_all fs (removelast cur) cs'
      else match fs !! (cur ++ [c]) with
           | Some (Dir _) => create_dir_all fs (cur ++ [c]) cs'
           | Some File => (None, fs)
           | None => create_dir_all (<[cur ++ [c] := Dir 493]> fs) (cur ++ [c]) cs'
           end
  end.

(** [std::fs::remove_dir_all] *)
Definition remove_dir_all (fs : FS) (cs : path) : FS :=
  match walk fs [] cs with
  | Some target => filter (fun e => ~ target `prefix_of` e.1) fs
  | None => fs
  end.

(** The name of the directory: the temporary directory joined with
    [duckdb-p2p-{pid}-{job}], which is never absolute. *)
Definition spill_name (pid : Z) (job : JobId) : bytes := str "duckdb-p2p-" ++ show_uint pid ++ str "-" ++ job.
Definition spill_path (temp : bytes) (pid : Z) (job : JobId) : bytes := temp ++ str "/" ++ spill_name pid job.

(** [SpillDirGuard::create] *)
Definition guard_create (fs : FS) (p : bytes) : bool * FS :=
  match create_dir_all fs [] (components p) with
  | (Some d, fs') => (true, <[d := Dir 448]> fs')
  | (None, fs') => (false, fs')
  end.

(** [Drop for SpillDirGuard] *)
Definition guard_drop (created : bool) (fs : FS) (p : bytes) : FS :=
  if created then remove_dir_all fs (components p) else fs.

(** ** Paths *)

Lemma split_on_app c s t : split_on c (s ++ c :: t) = split_on c s ++ split_on c t.
Proof.
  induction s as [|x s IH]; simpl; [by rewrite decide_True|].
  destruct (decide (x = c)); [by rewrite IH|]. rewrite IH. destruct (split_on c s) as [|p ps] eqn:E; [|done].
  by destruct s; simpl in E; repeat case_match.
Qed.

Lemma spill_name_plain pid job :
  0 <= pid -> Byte.x2f ∉ job -> Byte.x2f ∉ spill_name pid job.
Proof.
  intros Hp Hj. unfold spill_name. rewrite !elem_of_app. intros [H|[H|[H|H]]]; [| |  |done].
  - revert H. decide_closed.
  - by apply (show_uint_no_sep pid Byte.x2f Hp) in H.
  - revert H. decide_closed.
Qed.

Lemma components_spill temp pid job :
  0 <= pid -> Byte.x2f ∉ job -> components (spill_path temp pid job) = components temp ++ [spill_name pid job].
Proof.
  intros Hp Hj. unfold components, spill_path. change (str "/") with [Byte.x2f]. cbn [app].
  rewrite split_on_app, List.filter_app, (split_on_no_sep _ (spill_name pid job)) by (by apply spill_name_plain). done.
Qed.

Lemma spill_name_not_dots pid job : spill_name pid job <> DOTS.
Proof. done. Qed.

Lemma walk_plain fs cur cs t : DOTS ∉ cs -> walk fs cur cs = Some t -> t = cur ++ cs.
Proof.
  revert cur. induction cs as [|c cs IH]; intros cur Hd H; simpl in H; [injection H as <-; by rewrite app_nil_r|].
  rewrite decide_False in H by set_solver. destruct (fs !! _) as [[m|]|]; [|destruct cs; [|done]|done].
  - apply IH in H; [|set_solver]. by rewrite H, <- app_assoc.
  - by injection H as <-.
Qed.

(** Every directory down to [p] exists. *)
Definition is_dir (fs : FS) (p : path) : Prop := exists m, fs !! p = Some (Dir m).
Definition dirs_to (fs : FS) (p : path) : Prop := forall q, q <> [] -> q `prefix_of` p -> is_dir fs q.

Lemma walk_dirs fs cur cs : DOTS ∉ cs -> dirs_to fs (cur ++ cs) -> walk fs cur cs = Some (cur ++ cs).
Proof.
  revert cur. induction cs as [|c cs IH]; intros cur Hd H; simpl; [by rewrite app_nil_r|].
  rewrite decide_False by set_solver. destruct (H (cur ++ [c])) as [m ->].
  - by destruct cur.
  - exists cs. by rewrite <- app_assoc.
  - rewrite IH, <- app_assoc; [done|set_solver|]. by rewrite <- app_assoc.
Qed.

(** Below existing directories only the last name is made. *)
Lemma create_below fs cur cs c :
  DOTS ∉ cs -> c <> DOTS -> dirs_to fs (cur ++ cs) ->
  create_dir_all fs cur (cs ++ [c])
  = match fs !! (cur ++ cs ++ [c]) with
    | Some (Dir _) => (Some (cur ++ cs ++ [c]), fs)
    | Some File => (None, fs)
    | None => (Some (cur ++ cs ++ [c]), <[cur ++ cs ++ [c] := Dir 493]> fs)
    end.
Proof.
  revert cur. induction cs as [|a cs IH]; intros cur Hd Hc H; simpl.
  - rewrite decide_False by done. by destruct (fs !! _) as [[]|].
  - rewrite decide_False by set_solver. destruct (H (cur ++ [a])) as [m ->].
    + by destruct cur.
    + exists cs. by rewrite <- app_assoc.
    + rewrite IH, <- !app_assoc; [done|set_solver|done|]. by rewrite <- app_assoc.
Qed.

(** The spill directory of a job whose id contains no slash is confined: it is one
    entry of the temporary directory; creating it changes nothing but that entry, and
    whatever the rest of the machine does while the job runs, dropping the guard removes
    only entries of that directory, and all of them. *)
Theorem spill_dir_confined (temp : bytes) (pid : Z) (job : JobId) (fs fs1 fs2 : FS) (created : bool) :
  0 <= pid -> Byte.x2f ∉ job -> DOTS ∉ components temp -> dirs_to fs (components temp) ->
  guard_create fs (spill_path temp pid job) = (created, fs1) ->
  let own := components temp ++ [spill_name pid job] in
  (forall p, p <> own -> fs1 !! p = fs !! p) /\ (created = true -> fs1 !! own = Some (Dir 448))
  /\ (created = false -> fs !! own = Some File)
  /\ (forall p, ~ own `prefix_of` p -> guard_drop created fs2 (spill_path temp pid job) !! p = fs2 !! p)
  /\ (created = true -> dirs_to fs2 own -> forall p, own `prefix_of` p -> guard_drop created fs2 (spill_path temp pid job) !! p = None).
Proof.
  intros Hp Hj Hd Hdirs Hg own. assert (Hc : components (spill_path temp pid job) = own) by (by apply components_spill).
  assert (Hdo : DOTS ∉ own) by (unfold own; rewrite elem_of_app, list_elem_of_singleton; intros [?|E]; [done|by destruct (spill_name_not_dots pid job)]).
  unfold guard_create in Hg. rewrite Hc in Hg. unfold own in Hg. rewrite create_below in Hg by done. fold own in Hg.
  unfold guard_drop, remove_dir_all. rewrite Hc. split_and!.
  - intros p Hne. cbn [app] in Hg. fold own in Hg. destruct (fs !! own) as [[]|]; injection Hg as <- <-; rewrite ?lookup_insert_ne by done; done.
  - intros ->. cbn [app] in Hg. fold own in Hg. destruct (fs !! own) as [[]|]; [injection Hg as <-|done|injection Hg as <-]; by rewrite lookup_insert_eq.
  - intros ->. cbn [app] in Hg. fold own in Hg. by destruct (fs !! own) as [[]|].
  - intros p Hnp. destruct created; [|done]. destruct (walk fs2 [] own) as [t|] eqn:Ew; [|done].
    apply walk_plain in Ew as ->; [|done]. cbn [app]. destruct (fs2 !! p) as [n|] eqn:El.
    + by apply map_lookup_filter_Some.
    + apply map_lookup_filter_None. by left.
  - intros -> Hdd p Hpr. rewrite (walk_dirs fs2 [] own Hdo Hdd). cbn [app].
    apply map_lookup_filter_None. right. intros n _ Hn. by apply Hn.
Qed.

(** ** Examples *)

(** A machine with a temporary directory and an operator's home. *)
Definition machine : FS :=
  list_to_map ((fun p => (components (str p), Dir 493)) <$> ["/tmp"; "/home"; "/home/op"; "/home/op/keys"])
  ∪ {[ components (str "/home/op/keys/id") := File ]}.
Definition good_job : JobId := str "00112233445566778899aabbccddeeff".

Lemma machine_tmp : dirs_to machine (components (str "/tmp")).
Proof.
  intros q Hq [k Hk]. destruct q as [|a [|b q]]; [done| |]; cbn in Hk.
  - injection Hk as <- _. exists 493. reflexivity.
  - by destruct k.
Qed.

Lemma spill_created : (guard_create machine (spill_path (str "/tmp") 7 good_job)).1 = true.
Proof. vm_compute. reflexivity. Qed.

Lemma spill_dir_confined_witness :
  let own := components (str "/tmp") ++ [spill_name 7 good_job] in
  let fs1 := (guard_create machine (spill_path (str "/tmp") 7 good_job)).2 in
  (forall p, p <> own -> fs1 !! p = machine !! p)
  /\ (forall p, ~ own `prefix_of` p -> guard_drop true fs1 (spill_path (str "/tmp") 7 good_job) !! p = fs1 !! p).
Proof.
  destruct (spill_dir_confined (str "/tmp") 7 good_job machine (guard_create machine (spill_path (str "/tmp") 7 good_job)).2
    (guard_create machine (spill_path (str "/tmp") 7 good_job)).2 true) as (H1 & _ & _ & H2 & _).
  - lia.
  - decide_closed.
  - decide_closed.
  - exact machine_tmp.
  - rewrite <- spill_created. apply surjective_pairing.
  - exact (conj H1 H2).
Defined.

(** Nothing checks the job id: a requester that calls its job [x/../../home/op] has the
    host make the operator's home its spill directory and delete it when the job ends. *)
Example hostile_job_id_deletes :
  let p := spill_path (str "/tmp") 7 (str "x/../../home/op") in
  let '(created, fs1) := guard_create machine p in
  created = true /\ is_Some (machine !! components (str "/home/op/keys/id"))
  /\ guard_drop created fs1 p !! components (str "/home/op/keys/id") = None
  /\ guard_drop created fs1 p !! components (str "/home/op") = None.
Proof. vm_compute. split_and!; try reflexivity. by eexists. Qed.
