(* ===== verification/Wallet.v ===== *)
(** * The wallet and its binding to a node (settlement/wallet.rs, settlement/ton_proof.rs)

    The wallet v5r1 signer: its identity, data cell and address, the internal messages it
    emits and the signed external message that carries them, base64; and the two-way
    binding of a node and a wallet through [ton_proof].  HMAC and PBKDF2 are third-party:
    the class [Kdf].  The decoders ([read_message], [read_actions], [read_request]) are
    the TL-B layouts the comments of the source give, read with the parser of [Cell]. *)

From S2P Require Import Prelude Bytes Crypto Text Proto Merkle Settlement Cell Boc TonAbi TonRail.
#[local] Open Scope duckton_scope.

(** ** Keys *)

Class Kdf (C : Crypto) := {
  hmac_sha512 : bytes -> bytes -> bytes;             (* key, message *)
  pbkdf2_sha512 : bytes -> bytes -> Z -> bytes;      (* password, salt, rounds; 64 bytes *)
  signing_key : bytes -> seckey;                     (* SigningKey::from_bytes *)
}.

(** [s.split_whitespace()]: the characters of [whitespace] separate. *)
Fixpoint words_from (fuel : nat) (s cur : bytes) : list bytes :=
  let flush := match cur with [] => [] | _ => [cur] end in
  match fuel with
  | O => flush
  | S fuel' =>
      match s with
      | [] => flush
      | x :: s' =>
          match strip_one whitespace s with
          | Some rest => flush ++ words_from fuel' rest []
          | None => words_from fuel' s' (cur ++ [x])
          end
      end
  end.
Definition split_whitespace (s : bytes) : list bytes := words_from (S (length s)) s [].

Definition join_words (ws : list bytes) : bytes :=
  match ws with [] => [] | w :: ws' => w ++ mjoin ((fun v => str " " ++ v) <$> ws') end.

Section wallet.
Context {C : Crypto}.

Record WalletKey := mkWalletKey { wk_signing : seckey; wk_public : bytes }.

Definition from_signing (k : seckey) : WalletKey := mkWalletKey k (ed_public k).
Definition from_seed {D : Kdf C} (seed : bytes) : WalletKey := from_signing (signing_key seed).


Definition from_mnemonic {D : Kdf C} (phrase : bytes) : result WalletKey SettleError :=
  let words := split_whitespace phrase in
  if negb (length words =? 24)%nat && negb (length words =? 12)%nat
  then Err (Backend (str "mnemonic must be 12 or 24 words, got " ++ show_uint (Z.of_nat (length words))))
  else
    let entropy := hmac_sha512 (join_words words) [] in
    let check := pbkdf2_sha512 entropy (str "TON seed version") (100000 / 256) in
    if negb (byte_val (nth 0 check Byte.x00) =? 0) then Err (Backend (str "invalid TON mnemonic (failed basic-seed checksum)"))
    else Ok (from_seed (take 32 (pbkdf2_sha512 entropy (str "TON default seed") 100000))).

(** ** The v5r1 wallet *)

Definition GLOBAL_ID_MAINNET : Z := -239.
Definition GLOBAL_ID_TESTNET : Z := -3.
Definition OP_AUTH_SIGNED_EXTERNAL : Z := 1936287598.   (* 0x7369676e *)
Definition WALLET_V5R1_CODE_HASH : Hash32 :=
  map byte_of_Z [32; 131; 75; 123; 114; 177; 18; 20; 126; 27; 47; 180; 87; 184; 78; 116;
                 209; 163; 15; 4; 247; 55; 212; 246; 42; 102; 142; 149; 82; 210; 183; 47].
Definition WALLET_V5R1_CODE_DEPTH : Z := 6.

Record WalletV5R1 := mkV5 { v5_public_key : bytes; v5_global_id : Z; v5_workchain : Z; v5_subwallet : Z }.

Definition v5_new (public_key : bytes) (network_global_id : Z) : WalletV5R1 := mkV5 public_key network_global_id BASECHAIN 0.
Definition testnet (public_key : bytes) : WalletV5R1 := v5_new public_key GLOBAL_ID_TESTNET.
Definition mainnet (public_key : bytes) : WalletV5R1 := v5_new public_key GLOBAL_ID_MAINNET.

Definition wallet_id (w : WalletV5R1) : Z :=
  let context := Z.lor (Z.lor (Z.shiftl 1 31) (Z.shiftl (wrap 8 (v5_workchain w)) 23)) (Z.land (v5_subwallet w) 32767) in
  Z.lxor (wrap 32 (v5_global_id w)) context.

Definition data_cell (w : WalletV5R1) : Cell :=
  store_uint (store_u256 (store_uint (store_uint (store_uint empty_builder 1 1) 0 32) (wallet_id w) 32) (v5_public_key w)) 0 1.

Definition v5_address (w : WalletV5R1) : WalletAddress :=
  from_code_hash_state_init (v5_workchain w) WALLET_V5R1_CODE_HASH WALLET_V5R1_CODE_DEPTH (data_cell w).

(** ** Messages *)

Record InternalMessage := mkMessage {
  im_dest : WalletAddress; im_value : Amount; im_body : Cell; im_state_init : option Cell; im_mode : Z;
}.
Definition to_contract (dest : WalletAddress) (value : Amount) (body : Cell) : InternalMessage :=
  mkMessage dest value body None 3.

(** [InternalMessage::to_cell] *)
Definition message_cell (m : InternalMessage) : Cell :=
  let b := store_uint (store_uint (store_uint (store_uint (store_uint empty_builder 0 1) 1 1) 1 1) 0 1) 0 2 in
  let b := store_coins (store_address b (im_dest m)) (im_value m) in
  let b := store_coins (store_coins (store_uint b 0 1) 0) 0 in
  let b := store_uint (store_uint b 0 64) 0 32 in
  let b := match im_state_init m with
           | Some si => store_ref (store_uint (store_uint b 1 1) 1 1) si
           | None => store_uint b 0 1
           end in
  store_ref (store_uint b 1 1) (im_body m).

Definition ACTION_SEND_MSG : Z := 247711853.   (* 0x0ec3c86d *)
Definition to_out_action (m : InternalMessage) (prev : Cell) : Cell :=
  store_ref (store_uint (store_uint (store_ref empty_builder prev) ACTION_SEND_MSG 32) (im_mode m) 8) (message_cell m).

(** The cells of [build_signed_external_v5r1]. *)
Definition out_list (ms : list InternalMessage) : Cell := foldl (fun l m => to_out_action m l) empty_builder ms.
Definition inner_request (ms : list InternalMessage) : Cell :=
  store_uint (store_maybe_ref empty_builder (match ms with [] => None | _ => Some (out_list ms) end)) 0 1.
Definition signing_cell (w : WalletV5R1) (seqno valid_until : Z) (ms : list InternalMessage) : Cell :=
  store_cell_inline
    (store_uint (store_uint (store_uint (store_uint empty_builder OP_AUTH_SIGNED_EXTERNAL 32) (wallet_id w) 32) valid_until 32) seqno 32)
    (inner_request ms).
Definition signed_body (signing : Cell) (signature : bytes) : Cell :=
  store_bits (store_cell_inline empty_builder signing) signature 512.
Definition external_cell (w : WalletV5R1) (body : Cell) : Cell :=
  let b := store_uint (store_uint empty_builder 2 2) 0 2 in
  let b := store_coins (store_address b (v5_address w)) 0 in
  store_ref (store_uint (store_uint b 0 1) 1 1) body.

Definition build_signed_external_v5r1 (w : WalletV5R1) (key : WalletKey) (seqno valid_until : Z)
    (ms : list InternalMessage) : result bytes SettleError :=
  if negb (bool_decide (wk_public key = v5_public_key w)) then Err (Backend (str "wallet key does not match the wallet public key"))
  else if (255 <? length ms)%nat then Err (Backend (str "at most 255 actions per v5r1 message"))
  else
    let signing := signing_cell w seqno valid_until ms in
    let signature := ed_sign (wk_signing key) (repr_hash signing) in
    Ok (to_boc (external_cell w (signed_body signing signature))).
End wallet.

(** ** base64 *)

Definition ALPHABET : bytes := str "ABCDEFGHIJKLMNOPQRSTUVWXYZabcdefghijklmnopqrstuvwxyz0123456789+/".
Definition b64_char (v : Z) : byte := nth (Z.to_nat v) ALPHABET Byte.x00.

Fixpoint base64_encode (data : bytes) : bytes :=
  let word a b c := Z.lor (Z.lor (Z.shiftl (byte_val a) 16) (Z.shiftl (byte_val b) 8)) (byte_val c) in
  let sextet n i := b64_char (Z.land (Z.shiftr n i) 63) in
  match data with
  | [] => []
  | [a] => let n := word a Byte.x00 Byte.x00 in [sextet n 18; sextet n 12; Byte.x3d; Byte.x3d]
  | [a; b] => let n := word a b Byte.x00 in [sextet n 18; sextet n 12; sextet n 6; Byte.x3d]
  | a :: b :: c :: rest =>
      let n := word a b c in [sextet n 18; sextet n 12; sextet n 6; sextet n 0] ++ base64_encode rest
  end.

Definition base64_decode (s : bytes) : option bytes := b64_decode (trim s).

(** ** Node and wallet binding *)

Definition TON_PROOF_PREFIX : bytes := str "ton-proof-item-v2/".
Definition TON_CONNECT_PREFIX : bytes := str "ton-connect".
Definition NODE_BIND_DOMAIN : bytes := str "duckdb-p2p-wallet-bind-v1".
Definition EXPECTED_TON_PROOF_DOMAIN : bytes := str "duckdb-p2p".
Definition MAX_TON_PROOF_AGE_SECS : Z := 15 * 60.
Definition TON_PROOF_FUTURE_SKEW_SECS : Z := 5 * 60.

Record TonProof := mkProof { tp_domain : bytes; tp_timestamp : Z; tp_payload : bytes; tp_signature : bytes }.

Record NodeWalletBinding := mkBinding {
  nb_node_id : NodeId;
  nb_wallet_address : WalletAddress;
  nb_node_pubkey : bytes;
  nb_wallet_pubkey : bytes;
  nb_nonce : bytes;
  nb_expiry : Z;
  nb_sig_node : bytes;
  nb_ton_proof : TonProof;
}.

Section binding.
Context {C : Crypto}.

Definition wallet_pubkey_owns_address (pk : bytes) (a : WalletAddress) : bool :=
  bool_decide (v5_address (testnet pk) = a) || bool_decide (v5_address (mainnet pk) = a).

Definition ton_proof_message (a : WalletAddress) (p : TonProof) : bytes :=
  TON_PROOF_PREFIX ++ be_bytes 4 (workchain a) ++ hash a ++ le_bytes 4 (Z.of_nat (length (tp_domain p))) ++ tp_domain p
  ++ le_bytes 8 (tp_timestamp p) ++ tp_payload p.

Definition ton_proof_signing_hash (a : WalletAddress) (p : TonProof) : Hash32 :=
  sha256 ([Byte.xff; Byte.xff] ++ TON_CONNECT_PREFIX ++ sha256 (ton_proof_message a p)).

Definition verify_ton_proof (a : WalletAddress) (wallet_pubkey : bytes) (p : TonProof) (expected_domain : bytes) (now : Z)
  : result unit BindingError :=
  guard bool_decide (tp_domain p = expected_domain) else DomainMismatch ;;
  guard (sat_sub now (tp_timestamp p) <=? MAX_TON_PROOF_AGE_SECS)
        && (tp_timestamp p <=? sat_add 64 now TON_PROOF_FUTURE_SKEW_SECS) else ProofExpired ;;
  guard wallet_pubkey_owns_address wallet_pubkey a else WalletAddressMismatch ;;
  guard vk_from_bytes wallet_pubkey else BadKeyOrSig ;;
  guard (length (tp_signature p) =? 64)%nat else BadKeyOrSig ;;
  guard verify_strict wallet_pubkey (ton_proof_signing_hash a p) (tp_signature p) else TonProofInvalid ;;
  Ok tt.

Definition node_bind_message (a : WalletAddress) (nonce : bytes) (expiry : Z) : bytes :=
  NODE_BIND_DOMAIN ++ to_raw_bytes a ++ nonce ++ le_bytes 8 expiry.

Definition verify_binding (b : NodeWalletBinding) (now : Z) : result unit BindingError :=
  guard negb ((nb_expiry b =? 0) || (nb_expiry b <? now)) else Expired ;;
  guard bool_decide (str "b3:" ++ hex_encode (blake3 (nb_node_pubkey b)) = nb_node_id b) else NodeIdMismatch ;;
  guard vk_from_bytes (nb_node_pubkey b) else BadKeyOrSig ;;
  guard (length (nb_sig_node b) =? 64)%nat else BadKeyOrSig ;;
  guard verify_strict (nb_node_pubkey b) (node_bind_message (nb_wallet_address b) (nb_nonce b) (nb_expiry b)) (nb_sig_node b)
    else NodeSigInvalid ;;
  guard bool_decide (tp_payload (nb_ton_proof b) = nb_node_id b ++ nb_nonce b) else PayloadMismatch ;;
  verify_ton_proof (nb_wallet_address b) (nb_wallet_pubkey b) (nb_ton_proof b) EXPECTED_TON_PROOF_DOMAIN now.
End binding.

(** ** Reading a message back *)

Definition no_address : WalletAddress := mkWallet 0 [].

Definition message_head (dest : WalletAddress) (value : Amount) (init : Z) : list Field :=
  [FUint 0 1; FUint 1 1; FUint 1 1; FUint 0 1; FUint 0 2; FAddress dest; FCoins value; FUint 0 1; FCoins 0; FCoins 0;
   FUint 0 64; FUint 0 32; FUint init 1].
Definition message_tail (init : option Cell) (body : Cell) : list Field :=
  match init with Some si => [FUint 1 1; FRef si] | None => [] end ++ [FUint 1 1; FRef body].
Definition has_init (init : option Cell) : Z := match init with Some _ => 1 | None => 0 end.

Definition read_message (c : Cell) (mode : Z) : option InternalMessage :=
  match load_all (message_head no_address 0 0) (parser c) with
  | (Some [_; _; _; _; _; FAddress dest; FCoins value; _; _; _; _; _; FUint init _], p) =>
      if init =? 1
      then match load_all (message_tail (Some empty_builder) empty_builder) p with
           | (Some [_; FRef si; _; FRef body], _) => Some (mkMessage dest value body (Some si) mode)
           | _ => None
           end
      else match load_all (message_tail None empty_builder) p with
           | (Some [_; FRef body], _) => Some (mkMessage dest value body None mode)
           | _ => None
           end
  | _ => None
  end.

Definition action_fields (prev msg : Cell) (op mode : Z) : list Field := [FRef prev; FUint op 32; FUint mode 8; FRef msg].

(** The list is nested: the last action is outermost. *)
Fixpoint read_actions (fuel : nat) (c : Cell) : option (list InternalMessage) :=
  match fuel with
  | O => None
  | S fuel' =>
      if (bit_len c =? 0)%nat then Some []
      else match load_all (action_fields empty_builder empty_builder 0 0) (parser c) with
           | (Some [FRef prev; FUint op _; FUint mode _; FRef msg], _) =>
               if op =? ACTION_SEND_MSG
               then ms ← read_actions fuel' prev; m ← read_message msg mode; Some (ms ++ [m])
               else None
           | _ => None
           end
  end.

Definition request_head (op id valid_until seqno present : Z) : list Field :=
  [FUint op 32; FUint id 32; FUint valid_until 32; FUint seqno 32; FUint present 1].

(** What a signing cell asks for: the wallet id, the expiry, the sequence number and the
    messages. *)
Definition read_request (c : Cell) : option (Z * Z * Z * list InternalMessage) :=
  match load_all (request_head 0 0 0 0 0) (parser c) with
  | (Some [FUint op _; FUint id _; FUint valid_until _; FUint seqno _; FUint present _], p) =>
      if negb (op =? OP_AUTH_SIGNED_EXTERNAL) then None
      else if present =? 1
           then match load_all [FRef empty_builder] p with
                | (Some [FRef l], _) => ms ← read_actions 257 l; Some (id, valid_until, seqno, ms)
                | _ => None
                end
           else Some (id, valid_until, seqno, [])
  | _ => None
  end.

Example wallet_ids : wallet_id (testnet []) = 2147483645 /\ wallet_id (mainnet []) = 2147483409.
Proof. done. Qed.

(** ** Reading back what was built *)

Lemma rest_ok p : rest p <> [] -> parser_ok p.
Proof.
  unfold rest, parser_ok. intros H. rewrite <- length_cell_bits. destruct (Nat.le_gt_cases (p_bit p) (length (cell_bits (p_cell p)))); [done|].
  exfalso. apply H. apply drop_ge. lia.
Qed.

(** A cell of three groups of fields, read by two calls; the third group is left. *)
Lemma read_groups fs gs hs fs' gs' :
  Forall Field_wf fs -> Forall Field_wf gs -> Forall2 same_shape fs' fs -> Forall2 same_shape gs' gs ->
  mjoin (field_bits <$> (gs ++ hs)) <> [] ->
  exists p p', load_all fs' (parser (foldl store_field empty_builder (fs ++ gs ++ hs))) = (Some fs, p)
    /\ load_all gs' p = (Some gs, p').
Proof.
  intros Hf Hg Sf Sg Hne. destruct (store_all_spec (fs ++ gs ++ hs) empty_builder empty_builder_ok) as (H1 & H2 & H3).
  set (c := foldl store_field empty_builder (fs ++ gs ++ hs)) in *.
  rewrite fmap_app, join_app in H2. rewrite fmap_app, join_app in H3.
  destruct (load_all_spec fs (parser c) (mjoin (field_bits <$> (gs ++ hs))) (mjoin (field_refs <$> (gs ++ hs))))
    as (p & E & Hr & Hc & Hd); [done|unfold parser_ok; cbn; lia|..].
  { unfold rest, parser. cbn [p_bit p_cell]. rewrite drop_0. exact H2. }
  { cbn [p_next_ref parser p_cell]. rewrite drop_0. exact H3. }
  rewrite fmap_app, join_app in Hr. rewrite fmap_app, join_app in Hd. cbn [p_cell parser] in Hc.
  destruct (load_all_spec gs p (mjoin (field_bits <$> hs)) (mjoin (field_refs <$> hs))) as (p' & E' & _); [done| |done|by rewrite Hc|].
  { apply rest_ok. rewrite Hr, <- join_app, <- fmap_app. done. }
  exists p, p'. rewrite (load_all_shape _ _ _ Sf), (load_all_shape _ _ _ Sg). done.
Qed.

Definition Message_wf (m : InternalMessage) : Prop :=
  Address_wf (im_dest m) /\ 0 <= im_value m < 2 ^ 120 /\ in_u 8 (im_mode m).

Lemma message_cell_fields m :
  message_cell m = foldl store_field empty_builder
    (message_head (im_dest m) (im_value m) (has_init (im_state_init m)) ++ message_tail (im_state_init m) (im_body m) ++ []).
Proof.
  unfold message_cell, message_head, message_tail.
  destruct (im_state_init m); cbv zeta; cbn [app foldl store_field has_init]; reflexivity.
Qed.

Lemma message_head_wf dest value init : Address_wf dest -> 0 <= value < 2 ^ 120 -> 0 <= init <= 1 -> Forall Field_wf (message_head dest value init).
Proof.
  intros Ha Hv Hi. unfold message_head. rewrite !Forall_cons, Forall_nil. cbn [Field_wf]. unfold in_u, umax. split_and!; try done; lia.
Qed.

Lemma read_message_cell m : Message_wf m -> read_message (message_cell m) (im_mode m) = Some m.
Proof.
  intros (Ha & Hv & _). rewrite message_cell_fields. destruct m as [dest value body init mode]. cbn [im_dest im_value im_mode] in *.
  cbn [im_dest im_value im_state_init im_body].
  destruct (read_groups (message_head dest value (has_init init)) (message_tail init body) []
    (message_head no_address 0 0) (message_tail (match init with Some _ => Some empty_builder | None => None end) empty_builder))
    as (p & p' & E1 & E2).
  - apply message_head_wf; [done..|]. destruct init; cbn; lia.
  - destruct init; unfold message_tail; cbn [app]; rewrite !Forall_cons, Forall_nil; cbn [Field_wf]; unfold in_u, umax; split_and!; try done; lia.
  - repeat constructor.
  - destruct init; repeat constructor.
  - by destruct init.
  - unfold read_message. rewrite E1. cbn [message_head]. destruct init as [si|]; cbn [has_init Z.eqb]; by rewrite E2.
Qed.

Lemma out_list_snoc ms m : out_list (ms ++ [m]) = to_out_action m (out_list ms).
Proof. unfold out_list. by rewrite foldl_app. Qed.

Lemma to_out_action_fields m prev :
  to_out_action m prev = foldl store_field empty_builder ([] ++ action_fields prev (message_cell m) ACTION_SEND_MSG (im_mode m) ++ []).
Proof. reflexivity. Qed.

Lemma action_bits prev msg op mode :
  cell_bits (foldl store_field empty_builder (action_fields prev msg op mode)) = uint_bits op 32 ++ uint_bits mode 8.
Proof.
  destruct (store_all_spec (action_fields prev msg op mode) empty_builder empty_builder_ok) as (_ & -> & _).
  cbn [action_fields fmap list_fmap field_bits mjoin list_join app]. by rewrite app_nil_r.
Qed.

Lemma read_actions_list ms fuel :
  Forall Message_wf ms -> (length ms < fuel)%nat -> read_actions fuel (out_list ms) = Some ms.
Proof.
  revert fuel. induction ms as [|m ms IH] using rev_ind; intros fuel Hw Hl.
  { destruct fuel; [cbn in Hl; lia|done]. }
  apply Forall_app in Hw as [Hw Hm]. rewrite Forall_singleton in Hm. rewrite length_app in Hl. cbn [length] in Hl.
  destruct fuel as [|fuel]; [lia|]. rewrite out_list_snoc, to_out_action_fields. cbn [read_actions].
  destruct (read_groups [] (action_fields (out_list ms) (message_cell m) ACTION_SEND_MSG (im_mode m)) [] []
    (action_fields empty_builder empty_builder 0 0)) as (p & p' & E1 & E2); [constructor| | constructor|repeat constructor| |].
  { destruct Hm as (_ & _ & Hm). unfold action_fields. rewrite !Forall_cons, Forall_nil. cbn [Field_wf]. unfold in_u, umax in *.
    split_and!; try done; lia. }
  { by rewrite app_nil_r. }
  destruct (Nat.eqb_spec (bit_len (foldl store_field empty_builder ([] ++ action_fields (out_list ms) (message_cell m) ACTION_SEND_MSG (im_mode m) ++ []))) 0) as [E0|_].
  { rewrite app_nil_r in E0. cbn [app] in E0. rewrite <- length_cell_bits, action_bits, length_app, length_uint_bits in E0. lia. }
  rewrite <- (f_equal snd E1 : parser _ = p) in E2. rewrite E2. cbn [action_fields]. rewrite Z.eqb_refl, (IH fuel Hw ltac:(lia)). cbn [mbind option_bind].
  rewrite (read_message_cell m Hm). reflexivity.
Qed.

(** ** The signed request *)

Definition request_fields (id valid_until seqno : Z) (ms : list InternalMessage) : list Field :=
  request_head OP_AUTH_SIGNED_EXTERNAL id valid_until seqno (match ms with [] => 0 | _ => 1 end)
  ++ match ms with [] => [] | _ => [FRef (out_list ms)] end ++ [FUint 0 1].

Lemma inline_two (b : bool) (l : list Cell) (c : Cell) :
  store_cell_inline c (mkCell [byte_of_Z (if b then 128 else 0)] 2 l)
  = push_bit (mkCell (data (push_bit c b)) (bit_len (push_bit c b)) (refs (push_bit c b) ++ l)) false.
Proof. destruct c as [d n r], b; reflexivity. Qed.

Lemma inner_request_eq ms :
  inner_request ms = mkCell [byte_of_Z (if match ms with [] => false | _ => true end then 128 else 0)] 2
    (match ms with [] => [] | _ => [out_list ms] end).
Proof. destruct ms as [|m ms]; unfold inner_request; [reflexivity|]. generalize (out_list (m :: ms)). intros l. reflexivity. Qed.

Lemma signing_cell_fields w seqno valid_until ms :
  signing_cell w seqno valid_until ms = foldl store_field empty_builder (request_fields (wallet_id w) valid_until seqno ms).
Proof.
  unfold signing_cell. rewrite inner_request_eq, inline_two. unfold request_fields, request_head.
  destruct ms as [|m ms]; cbn [app foldl store_field];
    generalize (store_uint (store_uint (store_uint (store_uint empty_builder OP_AUTH_SIGNED_EXTERNAL 32) (wallet_id w) 32) valid_until 32) seqno 32).
  - intros [d n r]. cbn [store_uint down seq rev app foldl refs]. rewrite app_nil_r. reflexivity.
  - generalize (out_list (m :: ms)). intros l [d n r]. reflexivity.
Qed.

(** Bitwise operations stay within the width. *)
Lemma below_pow2 z : 0 <= z -> (z < 2 ^ 32 <-> z = 0 \/ Z.log2 z < 32).
Proof.
  intros Hz. destruct (Z.eq_dec z 0) as [->|Hne]; [split; [auto|done]|]. rewrite (Z.log2_lt_pow2 z 32) by lia. lia.
Qed.

Lemma lor_u32 a b : in_u 32 a -> in_u 32 b -> in_u 32 (Z.lor a b).
Proof.
  unfold in_u. intros [Ha Ha'] [Hb Hb']. apply below_pow2 in Ha', Hb'; [|done..]. assert (0 <= Z.lor a b) by (by apply Z.lor_nonneg).
  split; [done|]. apply below_pow2; [done|]. rewrite Z.log2_lor by done.
  destruct Ha' as [->|], Hb' as [->|]; [by left|right..]; change (Z.log2 0) with 0 in *; lia.
Qed.

Lemma wallet_id_u32 w : in_u 32 (wallet_id w).
Proof.
  assert (0 <= wrap 8 (v5_workchain w) < 2 ^ 8) by (unfold wrap; apply Z.mod_pos_bound; lia).
  apply lxor_u32; [unfold wrap; apply Z.mod_pos_bound; lia|]. apply lor_u32; [apply lor_u32|].
  - done.
  - unfold in_u. rewrite Z.shiftl_mul_pow2 by lia. lia.
  - unfold in_u. change 32767 with (Z.ones 15). rewrite Z.land_ones by lia. pose proof (Z.mod_pos_bound (v5_subwallet w) (2 ^ 15)). lia.
Qed.

Lemma request_read w seqno valid_until ms :
  in_u 32 seqno -> in_u 32 valid_until -> Forall Message_wf ms -> (length ms <= 255)%nat ->
  read_request (signing_cell w seqno valid_until ms) = Some (wallet_id w, valid_until, seqno, ms).
Proof.
  intros Hs Hv Hm Hl. rewrite signing_cell_fields. unfold request_fields, read_request.
  set (present := match ms with [] => 0 | _ => 1 end).
  assert (Hh : Forall Field_wf (request_head OP_AUTH_SIGNED_EXTERNAL (wallet_id w) valid_until seqno present)).
  { pose proof (wallet_id_u32 w). unfold request_head. rewrite !Forall_cons, Forall_nil. cbn [Field_wf]. unfold in_u in *.
    split_and!; try lia; unfold OP_AUTH_SIGNED_EXTERNAL; try lia; subst present; destruct ms; lia. }
  destruct (read_groups _ (match ms with [] => [] | _ => [FRef (out_list ms)] end) [FUint 0 1]
    (request_head 0 0 0 0 0) (match ms with [] => [] | _ => [FRef empty_builder] end) Hh) as (p & p' & E1 & E2).
  - destruct ms; [constructor|]. by constructor.
  - repeat constructor.
  - destruct ms; repeat constructor.
  - by destruct ms.
  - rewrite E1. cbn [request_head]. rewrite Z.eqb_refl. cbn [negb]. subst present. destruct ms as [|m ms]; [done|].
    cbn [Z.eqb]. rewrite E2. rewrite (read_actions_list (m :: ms) 257 Hm) by (cbn [length] in *; lia). done.
Qed.

(** ** Well-formed cells *)

Definition Cells_ok (m : InternalMessage) : Prop :=
  Tree_ok (im_body m) /\ (forall si, im_state_init m = Some si -> Tree_ok si).

Lemma message_tree m : Message_wf m -> Cells_ok m -> Tree_ok (message_cell m).
Proof.
  intros (Ha & Hv & _) [Hb Hi]. rewrite message_cell_fields. apply built_tree_ok.
  - rewrite fmap_app, join_app, length_app. pose proof (coin_bits_length (im_value m) Hv).
    destruct (im_state_init m); cbn [message_head message_tail app fmap list_fmap field_bits mjoin list_join];
      rewrite ?length_app, ?length_uint_bits; unfold address_bits, int_bits; rewrite ?length_app, ?length_uint_bits, ?length_fmap, ?length_seq;
      change (length (coin_bits 0)) with 4%nat; cbn [length]; lia.
  - destruct (im_state_init m); cbn; lia.
  - destruct (im_state_init m) as [si|]; cbn [message_head message_tail app fmap list_fmap field_refs mjoin list_join];
      rewrite ?Forall_cons, Forall_nil; auto.
Qed.

Lemma empty_tree : Tree_ok empty_builder.
Proof. constructor; [apply empty_builder_ok|cbn; lia|cbn; lia|constructor]. Qed.

Lemma out_list_tree ms : Forall Message_wf ms -> Forall Cells_ok ms -> Tree_ok (out_list ms).
Proof.
  induction ms as [|m ms IH] using rev_ind; intros Hw Hc; [apply empty_tree|].
  apply Forall_app in Hw as [Hw Hm]. apply Forall_app in Hc as [Hc Hmc]. rewrite Forall_singleton in Hm, Hmc.
  rewrite out_list_snoc, to_out_action_fields. apply built_tree_ok; [cbn; rewrite ?length_app, ?length_uint_bits; cbn; lia|cbn; lia|].
  cbn [action_fields app fmap list_fmap field_refs mjoin list_join]. repeat apply Forall_cons_2; [by apply IH|by apply message_tree|constructor].
Qed.

Lemma signing_tree w seqno valid_until ms :
  Forall Message_wf ms -> Forall Cells_ok ms -> Tree_ok (signing_cell w seqno valid_until ms).
Proof.
  intros Hw Hc. rewrite signing_cell_fields. unfold request_fields. apply built_tree_ok.
  - destruct ms; cbn; rewrite ?length_app, ?length_uint_bits; cbn; lia.
  - destruct ms; cbn; lia.
  - destruct ms; cbn [request_head app fmap list_fmap field_refs mjoin list_join]; [constructor|].
    repeat apply Forall_cons_2; [by apply out_list_tree|constructor].
Qed.

Lemma inline_spec c o :
  Cell_ok c -> Cell_ok (store_cell_inline c o) /\ cell_bits (store_cell_inline c o) = cell_bits c ++ cell_bits o
  /\ refs (store_cell_inline c o) = refs c ++ refs o.
Proof.
  intros Hc. unfold store_cell_inline. rewrite foldl_push_fmap.
  destruct (appends_push (get_bit (data o) <$> seq 0 (bit_len o)) c Hc) as (G1 & G2 & G3).
  set (x := foldl push_bit _ _) in *. cbn [refs]. rewrite G3. split_and!; [exact G1|exact G2|done].
Qed.

Lemma signed_body_spec signing sig :
  cell_bits (signed_body signing sig) = cell_bits signing ++ (get_bit sig <$> seq 0 512)
  /\ refs (signed_body signing sig) = refs signing /\ Cell_ok (signed_body signing sig).
Proof.
  destruct (inline_spec empty_builder signing empty_builder_ok) as (H1 & H2 & H3). unfold signed_body.
  destruct (store_bits_appends (store_cell_inline empty_builder signing) sig 512 H1) as (G1 & G2 & G3).
  rewrite G2, G3, H2, H3. done.
Qed.

Section signed.
Context {C : Crypto} {CL : CryptoLaws C}.

Lemma signing_bits w seqno valid_until ms : length (cell_bits (signing_cell w seqno valid_until ms)) = 130%nat.
Proof using Type.
  rewrite signing_cell_fields. destruct (store_all_spec (request_fields (wallet_id w) valid_until seqno ms) empty_builder empty_builder_ok) as (_ & -> & _).
  unfold request_fields. destruct ms; cbn [request_head app fmap list_fmap field_bits mjoin list_join];
    rewrite ?length_app, ?length_uint_bits; reflexivity.
Qed.

Lemma signed_body_tree w seqno valid_until ms sig :
  Forall Message_wf ms -> Forall Cells_ok ms -> Tree_ok (signed_body (signing_cell w seqno valid_until ms) sig).
Proof using Type.
  intros Hw Hc. pose proof (signing_tree w seqno valid_until ms Hw Hc) as Ht. inversion Ht as [? _ _ Hr Hrt]; subst.
  destruct (signed_body_spec (signing_cell w seqno valid_until ms) sig) as (H1 & H2 & H3).
  constructor; [done| |by rewrite H2|by rewrite H2].
  rewrite <- length_cell_bits, H1, length_app, length_fmap, length_seq, signing_bits. lia.
Qed.

Definition external_fields (a : WalletAddress) (body : Cell) : list Field :=
  [FUint 2 2; FUint 0 2; FAddress a; FCoins 0; FUint 0 1; FUint 1 1; FRef body].

Lemma external_cell_fields w body : external_cell w body = foldl store_field empty_builder (external_fields (v5_address w) body).
Proof using Type. unfold external_cell, external_fields. cbv zeta. cbn [foldl store_field]. reflexivity. Qed.

(** C37: the message a wallet broadcasts is exactly the one that was asked for.  Signing
    fails only for a key that is not the wallet's or for more than 255 messages.
    Otherwise what is serialised is an ordinary cell tree whose outer cell carries the
    wallet's own address and one body; the body is the signing cell followed by 64 bytes
    that verify, under the wallet's key, as a signature of that cell's hash; and reading
    the signing cell gives back the wallet id, the expiry, the sequence number and every
    internal message - destination, value, deployment, body and mode - in order. *)
Theorem signed_message_faithful (w : WalletV5R1) (k : seckey) (seqno valid_until : Z) (ms : list InternalMessage) :
  in_u 32 seqno -> in_u 32 valid_until -> Forall Message_wf ms -> Forall Cells_ok ms -> Address_wf (v5_address w) ->
  if bool_decide (ed_public k = v5_public_key w) && (length ms <=? 255)%nat
  then exists ext body signing signature,
    build_signed_external_v5r1 w (from_signing k) seqno valid_until ms = Ok (to_boc ext) /\ Tree_ok ext
    /\ (exists p, load_all (external_fields no_address empty_builder) (parser ext) = (Some (external_fields (v5_address w) body), p))
    /\ cell_bits body = cell_bits signing ++ (get_bit signature <$> seq 0 512) /\ refs body = refs signing
    /\ length signature = 64%nat /\ verify_strict (v5_public_key w) (repr_hash signing) signature = true
    /\ read_request signing = Some (wallet_id w, valid_until, seqno, ms)
  else exists e, build_signed_external_v5r1 w (from_signing k) seqno valid_until ms = Err e.
Proof using CL.
  intros Hs Hv Hm Hc Ha. unfold build_signed_external_v5r1. cbn [from_signing wk_public wk_signing].
  destruct (bool_decide_reflect (ed_public k = v5_public_key w)) as [Hk|Hk]; cbn [negb andb]; [|by eexists].
  destruct (Nat.leb_spec (length ms) 255) as [Hl|Hl]; [|rewrite (proj2 (Nat.ltb_lt _ _)) by lia; by eexists].
  rewrite (proj2 (Nat.ltb_ge _ _)) by lia.
  set (signing := signing_cell w seqno valid_until ms). set (sig := ed_sign k (repr_hash signing)).
  pose proof (signed_body_tree w seqno valid_until ms sig Hm Hc) as Hbt. fold signing in Hbt.
  destruct (signed_body_spec signing sig) as (Hb1 & Hb2 & _).
  exists (external_cell w (signed_body signing sig)), (signed_body signing sig), signing, sig.
  split; [done|]. split_and!; [| |done|done|apply ed_sign_len| |by apply request_read].
  - rewrite external_cell_fields. apply built_tree_ok; [|cbn; lia|].
    + cbn [external_fields fmap list_fmap field_bits mjoin list_join]. unfold address_bits, int_bits.
      rewrite !length_app, !length_uint_bits, length_fmap, length_seq. cbn. lia.
    + cbn [external_fields fmap list_fmap field_refs mjoin list_join app]. apply Forall_singleton. exact Hbt.
  - rewrite external_cell_fields. rewrite (load_all_shape _ (external_fields (v5_address w) (signed_body signing sig))) by (repeat constructor).
    destruct (cell_fields_roundtrip (external_fields (v5_address w) (signed_body signing sig))) as (p & E & _); [|by exists p].
    unfold external_fields. rewrite !Forall_cons, Forall_nil. cbn [Field_wf]. unfold in_u. split_and!; try done; lia.
  - rewrite <- Hk. apply verify_sign.
Qed.

(** A wallet signature authorises one request: two requests whose signing cells hash
    alike name the same wallet id (so the same network), expiry and sequence number and
    the same messages, unless sha256 collides on one of their cells. *)
Theorem signature_authorizes_one w w' seqno seqno' valid valid' ms ms' :
  in_u 32 seqno -> in_u 32 seqno' -> in_u 32 valid -> in_u 32 valid' ->
  Forall Message_wf ms -> Forall Message_wf ms' -> Forall Cells_ok ms -> Forall Cells_ok ms' ->
  (length ms <= 255)%nat -> (length ms' <= 255)%nat ->
  NoCollision sha256 (cell_queries (signing_cell w seqno valid ms) ++ cell_queries (signing_cell w' seqno' valid' ms')) ->
  repr_hash (signing_cell w seqno valid ms) = repr_hash (signing_cell w' seqno' valid' ms') ->
  wallet_id w = wallet_id w' /\ valid = valid' /\ seqno = seqno' /\ ms = ms'.
Proof using CL.
  intros Hs Hs' Hv Hv' Hm Hm' Hc Hc' Hl Hl' Hn H.
  apply repr_hash_inj in H; [|by apply signing_tree..|done].
  apply (f_equal read_request) in H. rewrite !request_read in H by done. by injection H as -> -> -> ->.
Qed.
End signed.

(** ** What a verified binding says *)

Record bound {C : Crypto} (b : NodeWalletBinding) (now : Z) : Prop := {
  bd_live : nb_expiry b <> 0 /\ now <= nb_expiry b;
  bd_node : nb_node_id b = from_pubkey (nb_node_pubkey b);
  bd_node_signed : vk_from_bytes (nb_node_pubkey b) = true /\ length (nb_sig_node b) = 64%nat
    /\ verify_strict (nb_node_pubkey b) (node_bind_message (nb_wallet_address b) (nb_nonce b) (nb_expiry b)) (nb_sig_node b) = true;
  bd_payload : tp_payload (nb_ton_proof b) = nb_node_id b ++ nb_nonce b;
  bd_domain : tp_domain (nb_ton_proof b) = EXPECTED_TON_PROOF_DOMAIN;
  bd_fresh : now - tp_timestamp (nb_ton_proof b) <= MAX_TON_PROOF_AGE_SECS
    /\ tp_timestamp (nb_ton_proof b) <= sat_add 64 now TON_PROOF_FUTURE_SKEW_SECS;
  bd_owner : nb_wallet_address b = v5_address (testnet (nb_wallet_pubkey b))
    \/ nb_wallet_address b = v5_address (mainnet (nb_wallet_pubkey b));
  bd_wallet_signed : vk_from_bytes (nb_wallet_pubkey b) = true /\ length (tp_signature (nb_ton_proof b)) = 64%nat
    /\ verify_strict (nb_wallet_pubkey b) (ton_proof_signing_hash (nb_wallet_address b) (nb_ton_proof b)) (tp_signature (nb_ton_proof b)) = true;
}.

Lemma guard_ok {A E} (c : bool) (e : E) (r : result A E) x : (guard c else e ;; r) = Ok x <-> c = true /\ r = Ok x.
Proof. destruct c; naive_solver. Qed.

Lemma verify_binding_iff {C : Crypto} b now : verify_binding b now = Ok tt <-> bound b now.
Proof.
  unfold verify_binding, verify_ton_proof. rewrite !guard_ok, !bool_decide_eq_true, !Nat.eqb_eq, negb_true_iff, orb_false_iff, andb_true_iff, !Z.leb_le, Z.eqb_neq, Z.ltb_ge.
  unfold wallet_pubkey_owns_address. rewrite orb_true_iff, !bool_decide_eq_true. unfold from_pubkey.
  split.
  - intros ((? & ?) & ? & ? & ? & ? & ? & ? & (? & ?) & Ho & ? & ? & ? & _). split; try done.
    + unfold sat_sub in *. lia.
    + destruct Ho; auto.
  - intros [(? & ?) Hn (? & ? & ?) ? ? (? & ?) Ho (? & ? & ?)]. split_and!; try done; unfold sat_sub.
    + unfold MAX_TON_PROOF_AGE_SECS in *. lia.
    + destruct Ho; auto.
Qed.

Section transfer.
Context {C : Crypto} {CL : CryptoLaws C}.

Lemma length_hex_encode (bs : bytes) : length (hex_encode bs) = (2 * length bs)%nat.
Proof using Type. induction bs as [|b bs IH]; [done|]. rewrite hex_encode_cons. cbn [length]. rewrite ?length_app. cbn [length]. lia. Qed.

Lemma node_id_length pk : length (from_pubkey pk) = 67%nat.
Proof using CL. unfold from_pubkey. rewrite length_app, length_hex_encode, blake3_len. done. Qed.

Lemma v5_address_wf pk id : Wallet_wf (v5_address (v5_new pk id)).
Proof using CL. split; [done|]. unfold v5_address, from_code_hash_state_init. cbn [hash]. apply sha256_len. Qed.

Lemma bound_address b now : bound b now -> Wallet_wf (nb_wallet_address b).
Proof using CL. intros [_ _ _ _ _ _ [->| ->] _]; apply v5_address_wf. Qed.

Lemma proof_message_inj a a' p p' :
  Wallet_wf a -> Wallet_wf a' -> tp_domain p = tp_domain p' -> in_u 64 (tp_timestamp p) -> in_u 64 (tp_timestamp p') ->
  ton_proof_message a p = ton_proof_message a' p' -> a = a' /\ tp_timestamp p = tp_timestamp p' /\ tp_payload p = tp_payload p'.
Proof using Type.
  intros Ha Ha' Hd Ht Ht' H. unfold ton_proof_message in H. rewrite Hd in H. apply app_inv_head in H.
  assert (Hw : forall b (x : bytes), be_bytes 4 (workchain b) ++ hash b ++ x = to_raw_bytes b ++ x) by (intros; unfold to_raw_bytes; by rewrite <- app_assoc).
  rewrite !Hw in H. apply app_inj_1 in H as [Ea H].
  2: { destruct Ha as [_ L], Ha' as [_ L']. unfold to_raw_bytes. rewrite !length_app, !length_be_bytes. lia. }
  apply to_raw_bytes_inj in Ea as ->; [|done..]. do 2 apply app_inv_head in H. apply app_inj_1 in H as [Et Hp]; [|by rewrite !length_le_bytes].
  apply le_bytes_inj in Et; [done|done..].
Qed.

(** C32: a wallet binding cannot be moved.  A binding that verifies names the node of the
    node key it carries; that key passes strict verification for the signature over the
    wallet address, nonce and expiry, and the wallet key it carries - the one whose
    testnet or mainnet wallet address is the named address - passes it for the signature
    over the wallet proof; the proof is for this node id and nonce under this
    application's domain, is at most fifteen minutes old, and the binding is not expired.
    When two verified bindings rest on the same signed wallet proof or on the same signed
    node statement, they name the same wallet and nonce - and, through the wallet's proof,
    the same node - unless sha256 collides on the four proof messages: nobody can present
    another node's wallet proof, or another wallet's consent, as its own. *)
Theorem binding_not_transferable (b b' : NodeWalletBinding) (now now' : Z) :
  verify_binding b now = Ok tt -> verify_binding b' now' = Ok tt ->
  in_u 64 (tp_timestamp (nb_ton_proof b)) -> in_u 64 (tp_timestamp (nb_ton_proof b')) -> in_u 64 (nb_expiry b) -> in_u 64 (nb_expiry b') ->
  let m := ton_proof_message (nb_wallet_address b) (nb_ton_proof b) in
  let m' := ton_proof_message (nb_wallet_address b') (nb_ton_proof b') in
  let outer x := [Byte.xff; Byte.xff] ++ TON_CONNECT_PREFIX ++ sha256 x in
  NoCollision sha256 [m; m'; outer m; outer m'] ->
  (nb_node_id b = from_pubkey (nb_node_pubkey b) /\ now <= nb_expiry b
   /\ verify_strict (nb_node_pubkey b) (node_bind_message (nb_wallet_address b) (nb_nonce b) (nb_expiry b)) (nb_sig_node b) = true
   /\ verify_strict (nb_wallet_pubkey b) (sha256 (outer m)) (tp_signature (nb_ton_proof b)) = true
   /\ tp_payload (nb_ton_proof b) = nb_node_id b ++ nb_nonce b
   /\ now - tp_timestamp (nb_ton_proof b) <= 900 /\ tp_domain (nb_ton_proof b) = str "duckdb-p2p"
   /\ (nb_wallet_address b = v5_address (testnet (nb_wallet_pubkey b)) \/ nb_wallet_address b = v5_address (mainnet (nb_wallet_pubkey b))))
  /\ (ton_proof_signing_hash (nb_wallet_address b) (nb_ton_proof b) = ton_proof_signing_hash (nb_wallet_address b') (nb_ton_proof b') ->
      nb_wallet_address b = nb_wallet_address b' /\ nb_node_id b = nb_node_id b' /\ nb_nonce b = nb_nonce b'
      /\ tp_timestamp (nb_ton_proof b) = tp_timestamp (nb_ton_proof b'))
  /\ (node_bind_message (nb_wallet_address b) (nb_nonce b) (nb_expiry b) = node_bind_message (nb_wallet_address b') (nb_nonce b') (nb_expiry b') ->
      nb_wallet_address b = nb_wallet_address b' /\ nb_nonce b = nb_nonce b' /\ nb_expiry b = nb_expiry b').
Proof using CL.
  intros H H' Ht Ht' He He' m m' outer Hn. apply verify_binding_iff in H, H'.
  pose proof (bound_address b now H) as Ha. pose proof (bound_address b' now' H') as Ha'.
  destruct H as [(_ & Hl) Hid (_ & _ & Hsn) Hp Hd (Hf & _) Ho (_ & _ & Hsw)], H' as [_ Hid' _ Hp' Hd' _ _ _].
  split; [by split_and!|]. split.
  - intros Eh. apply (Hn (outer m) (outer m')) in Eh; [|set_solver..]. do 2 apply app_inv_head in Eh.
    apply (Hn m m') in Eh; [|set_solver..].
    apply proof_message_inj in Eh as (Ea & Et & Ep); [|done|done|by rewrite Hd, Hd'|done|done].
    rewrite Hp, Hp' in Ep. apply app_inj_1 in Ep as [En Eno]; [done|]. by rewrite Hid, Hid', !node_id_length.
  - unfold node_bind_message. intros Em. apply app_inv_head in Em. apply app_inj_1 in Em as [Ea Em].
    2: { destruct Ha as [_ L], Ha' as [_ L']. unfold to_raw_bytes. rewrite !length_app, !length_be_bytes. lia. }
    apply to_raw_bytes_inj in Ea; [|done..]. apply app_inj_2 in Em as [En Ee]; [|by rewrite !length_le_bytes].
    apply le_bytes_inj in Ee; done.
Qed.
End transfer.

(** ** base64 round trip *)

Lemma lor_low a k y : 0 <= k -> 0 <= y < 2 ^ k -> Z.lor (a * 2 ^ k) y = a * 2 ^ k + y.
Proof.
  intros Hk Hy. assert (Z.land (a * 2 ^ k) y = 0) as E.
  { apply Z.bits_inj'. intros n Hn. rewrite Z.land_spec, Z.bits_0. destruct (Z.lt_ge_cases n k).
    - by rewrite Z.mul_pow2_bits_low.
    - rewrite <- (Z.mod_small y (2 ^ k)) by lia. rewrite Z.mod_pow2_bits_high by lia. apply andb_false_r. }
  by rewrite <- Z.lxor_lor, <- Z.add_nocarry_lxor.
Qed.

Lemma word_eq a b c : Z.lor (Z.lor (Z.shiftl (byte_val a) 16) (Z.shiftl (byte_val b) 8)) (byte_val c)
  = byte_val a * 65536 + byte_val b * 256 + byte_val c.
Proof.
  pose proof (byte_val_range b). pose proof (byte_val_range c). rewrite !Z.shiftl_mul_pow2 by lia.
  rewrite lor_low by lia. replace (byte_val a * 2 ^ 16 + byte_val b * 2 ^ 8) with ((byte_val a * 256 + byte_val b) * 2 ^ 8) by lia.
  rewrite lor_low by lia. lia.
Qed.

Lemma sextet_eq n i : 0 <= i -> Z.land (Z.shiftr n i) 63 = n / 2 ^ i mod 64.
Proof. intros Hi. change 63 with (Z.ones 6). by rewrite Z.land_ones, Z.shiftr_div_pow2 by lia. Qed.

Lemma b64_char_val v : 0 <= v < 64 -> b64_val (b64_char v) = Some v /\ b64_char v <> Byte.x3d /\ graphic (b64_char v) = true.
Proof.
  intros Hv. assert (forallb (fun i => bool_decide (b64_val (b64_char (Z.of_nat i)) = Some (Z.of_nat i))
    && negb (bool_decide (b64_char (Z.of_nat i) = Byte.x3d)) && graphic (b64_char (Z.of_nat i))) (seq 0 64) = true) as H by (vm_compute; reflexivity).
  rewrite forallb_forall in H. specialize (H (Z.to_nat v)). rewrite Z2Nat.id in H by lia.
  rewrite !andb_true_iff, negb_true_iff, bool_decide_eq_true, bool_decide_eq_false in H.
  apply and_assoc, H, in_seq. lia.
Qed.

(** One step of the loop. *)
Lemma b64_step v s buf bits : 0 <= v < 64 ->
  b64_loop (b64_char v :: s) buf bits
  = let buf' := (buf * 64) mod 2 ^ 32 + v in
    if 8 <=? bits + 6 then (fun out => byte_of_Z (buf' / 2 ^ (bits - 2)) :: out) <$> b64_loop s buf' (bits - 2)
    else b64_loop s buf' (bits + 6).
Proof.
  intros Hv. cbn [b64_loop]. destruct (b64_char_val v Hv) as (-> & _ & _). unfold wrap. rewrite Z.shiftl_mul_pow2 by lia.
  change (2 ^ 6) with 64.
  assert (Z.lor ((buf * 64) mod 2 ^ 32) v = (buf * 64) mod 2 ^ 32 + v) as ->.
  { replace ((buf * 64) mod 2 ^ 32) with ((buf mod 2 ^ 26) * 2 ^ 6); [apply lor_low; lia|]. Z.to_euclidean_division_equations; lia. }
  cbv zeta. replace (bits + 6 - 8) with (bits - 2) by lia. destruct (Z.leb_spec 8 (bits + 6)); [|done].
  rewrite Z.shiftr_div_pow2 by lia. by destruct (b64_loop s _ _).
Qed.

(** The encoded text without its padding. *)
Fixpoint sextets (data : bytes) : list Z :=
  let s n i := n / 2 ^ i mod 64 in
  match data with
  | [] => []
  | [a] => let n := byte_val a * 65536 in [s n 18; s n 12]
  | [a; b] => let n := byte_val a * 65536 + byte_val b * 256 in [s n 18; s n 12; s n 6]
  | a :: b :: c :: rest => let n := byte_val a * 65536 + byte_val b * 256 + byte_val c in [s n 18; s n 12; s n 6; s n 0] ++ sextets rest
  end.
Definition padding (data : bytes) : nat := match (length data mod 3)%nat with 1%nat => 2%nat | 2%nat => 1%nat | _ => 0%nat end.

(** Induction on a byte string in groups of three. *)
Lemma three_ind (P : bytes -> Prop) :
  P [] -> (forall a, P [a]) -> (forall a b, P [a; b]) -> (forall a b c d, P d -> P (a :: b :: c :: d)) -> forall d, P d.
Proof.
  intros H0 H1 H2 H3. assert (forall n d, (length d <= n)%nat -> P d) as H; [|intros d; by apply (H (length d))].
  induction n as [|n IH]; intros d Hd; [destruct d; [done|cbn in Hd; lia]|].
  destruct d as [|a [|b [|c d]]]; auto. apply H3, IH. cbn in Hd. lia.
Qed.

Lemma encode_sextets d : base64_encode d = (b64_char <$> sextets d) ++ replicate (padding d) Byte.x3d.
Proof.
  induction d as [|a|a b|a b c d IH] using three_ind.
  - done.
  - cbn [base64_encode sextets]. rewrite word_eq, !sextet_eq by lia. change (byte_val Byte.x00) with 0. rewrite !Z.add_0_r. done.
  - cbn [base64_encode sextets]. rewrite word_eq, !sextet_eq by lia. change (byte_val Byte.x00) with 0. rewrite !Z.add_0_r. done.
  - cbn [base64_encode sextets]. rewrite word_eq, !sextet_eq, IH by lia. cbn [app]. rewrite !fmap_cons. cbn [app]. do 4 f_equal.
    assert (padding (a :: b :: c :: d) = padding d) as ->; [|done]. unfold padding. cbn [length].
    replace (S (S (S (length d)))) with (length d + 1 * 3)%nat by lia. by rewrite Nat.Div0.mod_add.
Qed.

Lemma sextets_range d : Forall (fun v => 0 <= v < 64) (sextets d).
Proof.
  induction d as [|a|a b|a b c d IH] using three_ind; cbn [sextets app];
    repeat (apply Forall_cons_2; [apply Z.mod_pos_bound; lia|]); done.
Qed.

Lemma byte_of_Z_mod x y : x mod 256 = y mod 256 -> byte_of_Z x = byte_of_Z y.
Proof. intros E. apply byte_val_inj. by rewrite !byte_val_of_Z. Qed.

(** The three places in a group of four characters where a byte comes out. *)
Definition after (buf v : Z) : Z := (buf * 64) mod 2 ^ 32 + v.

Lemma after_u32 buf v : 0 <= v < 64 -> 0 <= after buf v < 2 ^ 32.
Proof. unfold after. intros Hv. Z.to_euclidean_division_equations; lia. Qed.

Lemma loop_first v0 v1 s buf : 0 <= v0 < 64 -> 0 <= v1 < 64 ->
  b64_loop (b64_char v0 :: b64_char v1 :: s) buf 0
  = (fun out => byte_of_Z (v0 * 4 + v1 / 16) :: out) <$> b64_loop s (after (after buf v0) v1) 4.
Proof.
  intros H0 H1. rewrite b64_step by done. change (8 <=? 0 + 6) with false. change (0 + 6) with 6. cbv iota zeta. rewrite b64_step by done.
  change (8 <=? 6 + 6) with true. change (6 - 2) with 4. cbv iota zeta. fold (after buf v0). fold (after (after buf v0) v1).
  assert (byte_of_Z (after (after buf v0) v1 / 2 ^ 4) = byte_of_Z (v0 * 4 + v1 / 16)) as ->; [|done].
  apply byte_of_Z_mod. unfold after. Z.to_euclidean_division_equations; lia.
Qed.

Lemma loop_second u v s buf : 0 <= v < 64 -> 0 <= u < 64 ->
  b64_loop (b64_char v :: s) (after buf u) 4 = (fun out => byte_of_Z (u * 16 + v / 4) :: out) <$> b64_loop s (after (after buf u) v) 2.
Proof.
  intros H0 H1. rewrite b64_step by done. change (8 <=? 4 + 6) with true. change (4 - 2) with 2. cbv iota zeta.
  fold (after (after buf u) v).
  assert (byte_of_Z (after (after buf u) v / 2 ^ 2) = byte_of_Z (u * 16 + v / 4)) as ->; [|done].
  apply byte_of_Z_mod. unfold after. Z.to_euclidean_division_equations; lia.
Qed.

Lemma loop_third u v s buf : 0 <= v < 64 -> 0 <= u < 64 ->
  b64_loop (b64_char v :: s) (after buf u) 2 = (fun out => byte_of_Z (u * 64 + v) :: out) <$> b64_loop s (after (after buf u) v) 0.
Proof.
  intros H0 H1. rewrite b64_step by done. change (8 <=? 2 + 6) with true. change (2 - 2) with 0. cbv iota zeta.
  fold (after (after buf u) v).
  assert (byte_of_Z (after (after buf u) v / 2 ^ 0) = byte_of_Z (u * 64 + v)) as ->; [|done].
  apply byte_of_Z_mod. unfold after. rewrite Z.pow_0_r, Z.div_1_r. Z.to_euclidean_division_equations; lia.
Qed.

Lemma byte_from x b : x mod 256 = byte_val b -> byte_of_Z x = b.
Proof. intros E. rewrite <- (byte_of_val b). apply byte_of_Z_mod. rewrite E. symmetry. apply Z.mod_small, byte_val_range. Qed.

Lemma loop_sextets d buf : b64_loop (b64_char <$> sextets d) buf 0 = Some d.
Proof.
  assert (R : forall x, 0 <= x mod 64 < 64) by (intros; apply Z.mod_pos_bound; lia).
  revert buf. induction d as [|a|a b|a b c d IH] using three_ind; intros buf; [done|..];
    pose proof (byte_val_range a) as Ra; try pose proof (byte_val_range b) as Rb; try pose proof (byte_val_range c) as Rc;
    cbn [sextets app]; rewrite ?fmap_cons, loop_first, ?loop_second, ?loop_third, ?IH by done;
    cbn [b64_loop fmap list_fmap option_fmap option_map]; repeat f_equal; apply byte_from; Z.to_euclidean_division_equations; lia.
Qed.

Lemma trim_padding_pad s n : Byte.x3d ∉ s -> trim_padding (s ++ replicate n Byte.x3d) = s.
Proof.
  induction s as [|c s IH]; intros Hs.
  - cbn [app]. induction n as [|n IHn]; [done|]. cbn [replicate trim_padding]. by rewrite IHn, decide_True.
  - cbn [app trim_padding]. rewrite IH by set_solver. destruct s; [|done]. by rewrite decide_False by set_solver.
Qed.

(** Decoding gives back what was encoded, whatever its length. *)
Lemma base64_roundtrip d : base64_decode (base64_encode d) = Some d.
Proof.
  unfold base64_decode, b64_decode. rewrite encode_sextets.
  assert (Hg : Forall (fun c => graphic c = true /\ c <> Byte.x3d) (b64_char <$> sextets d)).
  { rewrite Forall_fmap. eapply Forall_impl; [apply sextets_range|]. intros v Hv. destruct (b64_char_val v Hv) as (_ & ? & ?). done. }
  rewrite trim_all_graphic, trim_padding_pad.
  - apply loop_sextets.
  - intros Hin. rewrite Forall_forall in Hg. by destruct (Hg _ Hin).
  - apply Forall_app. split; [eapply Forall_impl; [exact Hg|]; by intros x [? _]|]. by apply Forall_replicate.
Qed.

(** ** Examples *)

Definition wallet_example : WalletV5R1 := testnet (le_bytes 32 9).
Definition note_cell : Cell := store_uint empty_builder 48879 16.
Definition pay_example : InternalMessage := to_contract (mkWallet 0 (replicate 32 Byte.x11)) 1500000000 note_cell.
Definition deploy_example : InternalMessage := mkMessage (mkWallet 0 (replicate 32 Byte.x22)) 70 note_cell (Some empty_builder) 3.
Definition messages_example : list InternalMessage := [pay_example; deploy_example].

Lemma note_tree : Tree_ok note_cell.
Proof. apply (built_tree_ok [FUint 48879 16]); [decide_closed..|by constructor]. Qed.

Lemma messages_wf : Forall Message_wf messages_example /\ Forall Cells_ok messages_example.
Proof.
  split; repeat apply Forall_cons_2; [split_and!; decide_closed..|constructor|split; [apply note_tree|done]|split; [apply note_tree|]|constructor].
  intros si [= <-]. apply empty_tree.
Qed.

Example reading_example :
  read_request (signing_cell wallet_example 7 1700000000 messages_example) = Some (2147483645, 1700000000, 7, messages_example).
Proof. vm_compute. reflexivity. Qed.

Lemma signed_message_faithful_witness :
  exists ext body signing signature,
    build_signed_external_v5r1 (C := toy_crypto) wallet_example (from_signing (C := toy_crypto) 9) 7 1700000000 messages_example = Ok (to_boc (C := toy_crypto) ext)
    /\ Tree_ok ext
    /\ (exists p, load_all (external_fields no_address empty_builder) (parser ext)
                  = (Some (external_fields (v5_address (C := toy_crypto) wallet_example) body), p))
    /\ cell_bits body = cell_bits signing ++ (get_bit signature <$> seq 0 512) /\ refs body = refs signing
    /\ length signature = 64%nat /\ verify_strict (Crypto := toy_crypto) (le_bytes 32 9) (repr_hash (C := toy_crypto) signing) signature = true
    /\ read_request signing = Some (2147483645, 1700000000, 7, messages_example).
Proof.
  destruct messages_wf as [Hw Hc].
  exact (signed_message_faithful (C := toy_crypto) (CL := toy_laws) wallet_example 9 7 1700000000 messages_example
    ltac:(decide_closed) ltac:(decide_closed) Hw Hc ltac:(split; [decide_closed|vm_compute; reflexivity])).
Defined.

Lemma signature_authorizes_one_witness :
  wallet_id wallet_example = wallet_id wallet_example /\ 5 = 5 /\ 7 = 7 /\ [pay_example] = [pay_example].
Proof.
  destruct messages_wf as [Hw Hc]. apply Forall_cons in Hw as [Hw _], Hc as [Hc _].
  apply (signature_authorizes_one (C := toy_crypto) (CL := toy_laws) wallet_example wallet_example 7 7 5 5 [pay_example] [pay_example]);
    [decide_closed..|by apply Forall_singleton|by apply Forall_singleton|by apply Forall_singleton|by apply Forall_singleton
    |cbn; lia|cbn; lia|decide_closed|reflexivity].
Defined.

(** Node key 8, wallet key 9. *)
Definition bound_payload (nonce : bytes) : bytes := @from_pubkey toy_crypto (le_bytes 32 8) ++ nonce.
Definition unsigned_proof : TonProof := mkProof EXPECTED_TON_PROOF_DOMAIN 1000 (bound_payload (str "n1")) [].
Definition wallet_addr : WalletAddress := v5_address (C := toy_crypto) (testnet (le_bytes 32 9)).
Definition binding_example : NodeWalletBinding :=
  mkBinding (@from_pubkey toy_crypto (le_bytes 32 8)) wallet_addr (le_bytes 32 8) (le_bytes 32 9) (str "n1") 5000
    (@ed_sign toy_crypto 8 (node_bind_message wallet_addr (str "n1") 5000))
    (mkProof EXPECTED_TON_PROOF_DOMAIN 1000 (bound_payload (str "n1"))
       (@ed_sign toy_crypto 9 (ton_proof_signing_hash (C := toy_crypto) wallet_addr unsigned_proof))).

Lemma binding_verifies : verify_binding (C := toy_crypto) binding_example 1200 = Ok tt.
Proof. vm_compute. reflexivity. Qed.

(** Stale, expired, or with another node's key: refused. *)
Example binding_refusals :
  verify_binding (C := toy_crypto) binding_example 1901 = Err ProofExpired
  /\ verify_binding (C := toy_crypto) binding_example 5001 = Err Expired
  /\ verify_binding (C := toy_crypto) (mkBinding (@from_pubkey toy_crypto (le_bytes 32 7)) wallet_addr (le_bytes 32 7) (le_bytes 32 9) (str "n1") 5000
       (@ed_sign toy_crypto 7 (node_bind_message wallet_addr (str "n1") 5000)) (nb_ton_proof binding_example)) 1200 = Err PayloadMismatch.
Proof. vm_compute. done. Qed.

Lemma binding_not_transferable_witness :
  verify_binding (C := toy_crypto) binding_example 1200 = Ok tt
  /\ nb_node_id binding_example = from_pubkey (C := toy_crypto) (nb_node_pubkey binding_example)
  /\ 1200 - tp_timestamp (nb_ton_proof binding_example) <= 900
  /\ tp_payload (nb_ton_proof binding_example) = nb_node_id binding_example ++ nb_nonce binding_example.
Proof.
  split; [exact binding_verifies|].
  destruct (binding_not_transferable (C := toy_crypto) (CL := toy_laws) binding_example binding_example 1200 1300)
    as ((H1 & _ & _ & _ & H2 & H3 & _) & _).
  - exact binding_verifies.
  - vm_compute. reflexivity.
  - decide_closed.
  - decide_closed.
  - decide_closed.
  - decide_closed.
  - decide_closed.
  - split; [exact H1|]. split; [exact H3|exact H2].
Defined.
