(* ===== verification/Sql.v ===== *)
(** * The SQL the node generates (lexical structure)

    [sql_lit] of node/datasource.rs, and the part of DuckDB's documented lexical syntax the
    generated statements use: words, punctuation, and string literals in which a doubled
    quote stands for a quote.  The reader is deliberately narrow - outside literals it
    refuses comments, escapes, prefixed literals ([E'..']), dollar quotes and adjacent
    literals - so a text it accepts has one reading.  [read_script] turns a text into the
    statements it consists of.  The lemmas give the reading of concatenated pieces. *)

From S2P Require Import Prelude Bytes Text.
#[local] Open Scope duckton_scope.

Definition quote : byte := Byte.x27.

(** [s.replace('\'', "''")] *)
Definition escape (s : bytes) : bytes := mjoin ((fun b => if bool_decide (b = quote) then [quote; quote] else [b]) <$> s).

(** [sql_lit] *)
Definition sql_lit (s : bytes) : bytes := [quote] ++ escape s ++ [quote].

(** [v.join(sep)] *)
Fixpoint join (sep : bytes) (l : list bytes) : bytes :=
  match l with
  | [] => []
  | [x] => x
  | x :: l' => x ++ sep ++ join sep l'
  end.

(** ** Tokens *)

Inductive Token := TWord (w : bytes) | TLit (s : bytes) | TPunct (b : byte).
#[global] Instance Token_eq_dec : EqDecision Token.
Proof. solve_decision. Defined.

Definition in_range (lo hi : Z) (b : byte) : bool := (lo <=? byte_val b) && (byte_val b <=? hi).
Definition is_word (b : byte) : bool := in_range 48 57 b || in_range 65 90 b || in_range 97 122 b || (byte_val b =? 95).
Definition is_space (b : byte) : bool := (byte_val b =? 32) || (byte_val b =? 10).
Definition is_punct (b : byte) : bool := bool_decide (b ∈ str "(),;=[]").

Inductive LexState :=
| LStart
| LWord (w : bytes)      (* inside a word *)
| LLit (s : bytes)       (* inside a literal *)
| LQuote (s : bytes)     (* a quote inside a literal: its end, or half of an escaped quote *)
| LAfter.                (* white space after a literal *)

Definition lex_step (st : LexState) (b : byte) : option (LexState * list Token) :=
  match st with
  | LStart =>
      if bool_decide (b = quote) then Some (LLit [], [])
      else if is_word b then Some (LWord [b], [])
      else if is_space b then Some (LStart, [])
      else if is_punct b then Some (LStart, [TPunct b]) else None
  | LWord w =>
      if is_word b then Some (LWord (w ++ [b]), [])
      else if is_space b then Some (LStart, [TWord w])
      else if is_punct b then Some (LStart, [TWord w; TPunct b]) else None
  | LLit s => if bool_decide (b = quote) then Some (LQuote s, []) else Some (LLit (s ++ [b]), [])
  | LQuote s =>
      if bool_decide (b = quote) then Some (LLit (s ++ [quote]), [])
      else if is_space b then Some (LAfter, [TLit s])
      else if is_punct b then Some (LStart, [TLit s; TPunct b]) else None
  | LAfter =>
      if is_word b then Some (LWord [b], [])
      else if is_space b then Some (LAfter, [])
      else if is_punct b then Some (LStart, [TPunct b]) else None
  end.

Fixpoint lex_run (st : LexState) (s : bytes) : option (LexState * list Token) :=
  match s with
  | [] => Some (st, [])
  | b :: s' =>
      '(st1, t1) ← lex_step st b;
      '(st2, t2) ← lex_run st1 s';
      Some (st2, t1 ++ t2)
  end.

Definition lex_end (st : LexState) : option (list Token) :=
  match st with
  | LStart | LAfter => Some []
  | LWord w => Some [TWord w]
  | LQuote s => Some [TLit s]
  | LLit _ => None
  end.

Definition lex (s : bytes) : option (list Token) :=
  '(st, t) ← lex_run LStart s; u ← lex_end st; Some (t ++ u).

(** ** Statements *)

Inductive SqlValue := SvWord (w : bytes) | SvLit (s : bytes) | SvList (l : list bytes).
#[global] Instance SqlValue_eq_dec : EqDecision SqlValue.
Proof. solve_decision. Defined.

Inductive Stmt :=
| SSet (option : bytes) (v : SqlValue)
| SLoad (extension : bytes)
| SSecret (name : bytes) (options : list (bytes * SqlValue))
| SParquetKey (name key : bytes).
#[global] Instance Stmt_eq_dec : EqDecision Stmt.
Proof. solve_decision. Defined.

Definition semi : Token := TPunct Byte.x3b.
Definition comma : Token := TPunct Byte.x2c.
Definition lpar : Token := TPunct Byte.x28.
Definition rpar : Token := TPunct Byte.x29.
Definition equals : Token := TPunct Byte.x3d.
Definition lbra : Token := TPunct Byte.x5b.
Definition rbra : Token := TPunct Byte.x5d.
Definition word (s : string) : Token := TWord (str s).

Fixpoint read_list (ts : list Token) : option (list bytes) :=
  match ts with
  | [TLit s; t] => if bool_decide (t = rbra) then Some [s] else None
  | TLit s :: t :: ts' => if bool_decide (t = comma) then cons s <$> read_list ts' else None
  | _ => None
  end.

Definition value_of (t : Token) : option SqlValue :=
  match t with TWord w => Some (SvWord w) | TLit s => Some (SvLit s) | TPunct _ => None end.

Fixpoint read_options (ts : list Token) : option (list (bytes * SqlValue)) :=
  match ts with
  | TWord k :: t :: d :: ts' =>
      v ← value_of t;
      if bool_decide (d = rpar) then match ts' with [] => Some [(k, v)] | _ => None end
      else if bool_decide (d = comma) then cons (k, v) <$> read_options ts' else None
  | _ => None
  end.

Definition read_stmt (ts : list Token) : option Stmt :=
  match ts with
  | c :: TWord k :: e :: ts' =>
      if bool_decide (c = word "SET") && bool_decide (e = equals)
      then match ts' with
           | [t] => SSet k <$> value_of t
           | b :: ts'' => if bool_decide (b = lbra) then (fun l => SSet k (SvList l)) <$> read_list ts'' else None
           | _ => None
           end
      else if bool_decide (c = word "CREATE")
      then match e :: ts' with
           | a1 :: a2 :: TWord name :: p :: os =>
               if bool_decide ([TWord k; a1; a2; p] = [word "OR"; word "REPLACE"; word "SECRET"; lpar])
               then SSecret name <$> read_options os else None
           | _ => None
           end
      else if bool_decide (c = word "PRAGMA")
      then match ts' with
           | [TLit n; d; TLit v; r] =>
               if bool_decide ([TWord k; e; d; r] = [word "add_parquet_key"; lpar; comma; rpar])
               then Some (SParquetKey n v) else None
           | _ => None
           end
      else None
  | [c; TWord x] => if bool_decide (c = word "LOAD") then Some (SLoad x) else None
  | _ => None
  end.

(** Every statement ends in a semicolon. *)
Fixpoint split_stmts (ts cur : list Token) : option (list (list Token)) :=
  match ts with
  | [] => match cur with [] => Some [] | _ => None end
  | t :: ts' => if bool_decide (t = semi) then cons cur <$> split_stmts ts' [] else split_stmts ts' (cur ++ [t])
  end.

Definition read_tokens (ts : list Token) : option (list Stmt) := ss ← split_stmts ts []; mapM read_stmt ss.
Definition read_script (s : bytes) : option (list Stmt) := ts ← lex s; read_tokens ts.

Example read_example :
  read_script (str "SET threads=4; SET a='it''s';") = Some [SSet (str "threads") (SvWord (str "4")); SSet (str "a") (SvLit (str "it's"))].
Proof. vm_compute. reflexivity. Qed.

(** ** Reading pieces *)

Lemma escape_app a b : escape (a ++ b) = escape a ++ escape b.
Proof. unfold escape. by rewrite fmap_app, join_app. Qed.

Lemma lex_run_app st a b :
  lex_run st (a ++ b) = ('(st1, t1) ← lex_run st a; '(st2, t2) ← lex_run st1 b; Some (st2, t1 ++ t2)).
Proof.
  revert st. induction a as [|x a IH]; intros st.
  - cbn. destruct (lex_run st b) as [[? ?]|]; done.
  - cbn [app lex_run]. destruct (lex_step st x) as [[st1 t1]|]; [|done]. cbn. rewrite IH.
    destruct (lex_run st1 a) as [[st2 t2]|]; [|done]. cbn.
    destruct (lex_run st2 b) as [[st3 t3]|]; [|done]. cbn. by rewrite app_assoc.
Qed.

Lemma lex_run_trans st a b st1 t1 st2 t2 :
  lex_run st a = Some (st1, t1) -> lex_run st1 b = Some (st2, t2) -> lex_run st (a ++ b) = Some (st2, t1 ++ t2).
Proof. intros H1 H2. by rewrite lex_run_app, H1; cbn; rewrite H2. Qed.

(** Whatever a value contains, escaping keeps the reader inside the literal. *)
Lemma lex_escape s v : lex_run (LLit v) (escape s) = Some (LLit (v ++ s), []).
Proof.
  revert v. induction s as [|b s IH]; intros v; [by rewrite app_nil_r|].
  change (b :: s) with ([b] ++ s). rewrite escape_app, app_assoc.
  apply (lex_run_trans _ _ _ (LLit (v ++ [b])) [] _ []); [|apply IH].
  unfold escape. cbn [fmap list_fmap mjoin list_join]. rewrite app_nil_r.
  destruct (bool_decide_reflect (b = quote)) as [->|Hb]; [reflexivity|].
  cbn [lex_run lex_step]. by rewrite bool_decide_false.
Qed.

Lemma lex_lit s : lex_run LStart (sql_lit s) = Some (LQuote s, []).
Proof.
  unfold sql_lit. apply (lex_run_trans _ _ _ (LLit []) [] _ []); [reflexivity|].
  apply (lex_run_trans _ _ _ (LLit s) [] _ []); [apply (lex_escape s [])|reflexivity].
Qed.

Definition Word (w : bytes) : Prop := w <> [] /\ Forall (fun b => is_word b = true) w.

Lemma is_word_not_quote b : is_word b = true -> b <> quote.
Proof. by intros H ->. Qed.

Lemma lex_word_from w v : Forall (fun b => is_word b = true) w -> lex_run (LWord v) w = Some (LWord (v ++ w), []).
Proof.
  intros H. revert v. induction H as [|b w Hb _ IH]; intros v; [by rewrite app_nil_r|].
  cbn [lex_run lex_step]. rewrite Hb. cbn. rewrite IH. by rewrite <- app_assoc.
Qed.

Lemma lex_word w : Word w -> lex_run LStart w = Some (LWord w, []).
Proof.
  intros [Hne H]. destruct H as [|b w Hb H]; [done|].
  cbn [lex_run lex_step]. rewrite bool_decide_false by (by apply is_word_not_quote). rewrite Hb. cbn.
  by rewrite lex_word_from.
Qed.

(** A piece of text that reads as [ts] from the start, whatever allowed byte follows it. *)
Definition state_of (t : Token) : LexState :=
  match t with TWord w => LWord w | TLit s => LQuote s | TPunct _ => LStart end.
Definition reads (s : bytes) (ts : list Token) (t : Token) : Prop := lex_run LStart s = Some (state_of t, ts) /\ (forall b, t <> TPunct b).

Lemma reads_lit s : reads (sql_lit s) [] (TLit s).
Proof. split; [apply lex_lit|done]. Qed.
Lemma reads_word w : Word w -> reads w [] (TWord w).
Proof. intros H. split; [by apply lex_word|done]. Qed.

(** A separator: punctuation, then perhaps a space. *)
Lemma step_punct t p : (forall b, t <> TPunct b) -> is_punct p = true -> lex_step (state_of t) p = Some (LStart, [t; TPunct p]).
Proof.
  intros Ht Hp. assert (Hq : p <> quote) by (by intros ->). assert (Hw : is_word p = false /\ is_space p = false).
  { unfold is_punct in Hp. apply bool_decide_eq_true in Hp. repeat (apply elem_of_cons in Hp as [->|Hp]; [done|]). by apply elem_of_nil in Hp. }
  destruct Hw as [Hw Hs]. destruct t; cbn [state_of lex_step]; [..|by destruct (Ht b)]; rewrite ?bool_decide_false by done; by rewrite ?Hw, ?Hs, Hp.
Qed.

Lemma run_punct t p : (forall b, t <> TPunct b) -> is_punct p = true -> lex_run (state_of t) [p] = Some (LStart, [t; TPunct p]).
Proof. intros Ht Hp. cbn [lex_run]. by rewrite (step_punct t p Ht Hp). Qed.

Lemma reads_punct s ts t p s' ts' t' :
  reads s ts t -> is_punct p = true -> reads s' ts' t' -> reads (s ++ p :: s') (ts ++ t :: TPunct p :: ts') t'.
Proof.
  intros [H Ht] Hp [H' Ht']. split; [|done]. apply (lex_run_trans _ _ _ _ _ _ _ H).
  apply (lex_run_trans _ [p] s' LStart [t; TPunct p] _ ts'); [|done]. by apply run_punct.
Qed.

Lemma reads_space s ts t : reads s ts t -> reads (Byte.x20 :: s) ts t.
Proof. intros [H Ht]. split; [|done]. by apply (lex_run_trans _ [Byte.x20] s LStart [] _ ts). Qed.

(** Two words, or a word and a literal, separated by a space. *)
Lemma reads_spaced s ts w s' ts' t' :
  reads s ts (TWord w) -> reads s' ts' t' -> reads (s ++ Byte.x20 :: s') (ts ++ TWord w :: ts') t'.
Proof.
  intros [H _] [H' Ht']. split; [|done]. apply (lex_run_trans _ _ _ _ _ _ _ H).
  by apply (lex_run_trans _ [Byte.x20] s' LStart [TWord w] _ ts').
Qed.

Lemma reads_end s ts t p : reads s ts t -> is_punct p = true -> lex_run LStart (s ++ [p]) = Some (LStart, ts ++ [t; TPunct p]).
Proof. intros [H Ht] Hp. apply (lex_run_trans _ _ _ _ _ _ _ H). by apply run_punct. Qed.

(** ** Reading statements *)

Definition statement (s : bytes) (st : Stmt) : Prop :=
  exists ts, lex_run LStart s = Some (LStart, ts ++ [semi]) /\ semi ∉ ts /\ read_stmt ts = Some st.

Definition script (s : bytes) (sts : list Stmt) : Prop :=
  exists tss, lex_run LStart s = Some (LStart, mjoin ((fun ts => ts ++ [semi]) <$> tss)) /\ Forall (fun ts => semi ∉ ts) tss
    /\ mapM read_stmt tss = Some sts.

Lemma split_stmts_one ts cur rest : semi ∉ ts -> split_stmts (ts ++ semi :: rest) cur = cons (cur ++ ts) <$> split_stmts rest [].
Proof.
  revert cur. induction ts as [|t ts IH]; intros cur H; cbn [app split_stmts].
  - rewrite bool_decide_true by done. by rewrite app_nil_r.
  - apply not_elem_of_cons in H as [Ht H]. rewrite bool_decide_false by done. rewrite (IH (cur ++ [t]) H).
    by rewrite <- app_assoc.
Qed.

Lemma script_reads s sts : script s sts -> read_script s = Some sts.
Proof.
  intros (tss & H & Hs & Hm). unfold read_script, lex. rewrite H. cbn. rewrite app_nil_r. unfold read_tokens.
  assert (split_stmts (mjoin ((fun ts => ts ++ [semi]) <$> tss)) [] = Some tss) as ->; [|done].
  clear H Hm. induction Hs as [|ts tss Hts Hs IH]; [done|].
  change (split_stmts ((ts ++ [semi]) ++ mjoin ((fun ts => ts ++ [semi]) <$> tss)) [] = Some (ts :: tss)).
  rewrite <- app_assoc. cbn [app]. rewrite split_stmts_one by done. by rewrite IH.
Qed.

Lemma split_stmts_inv ts cur tss :
  semi ∉ cur -> split_stmts ts cur = Some tss ->
  mjoin ((fun ts => ts ++ [semi]) <$> tss) = cur ++ ts /\ Forall (fun ts => semi ∉ ts) tss.
Proof.
  revert cur tss. induction ts as [|t ts IH]; intros cur tss Hc H; cbn [split_stmts] in H.
  - destruct cur; [|done]. injection H as <-. split; [done|constructor].
  - case_bool_decide as Ht.
    + apply fmap_Some in H as (tss' & H & ->). destruct (IH [] tss') as [E Hf]; [set_solver|done|]. subst t. split; [|by constructor].
      change ((cur ++ [semi]) ++ mjoin ((fun ts => ts ++ [semi]) <$> tss') = cur ++ semi :: ts). rewrite E. by rewrite <- app_assoc.
    + destruct (IH (cur ++ [t]) tss) as [E Hf]; [set_solver|done|]. split; [|done]. by rewrite E, <- app_assoc.
Qed.

(** A closed text is read by computation. *)
Lemma script_closed s ts tss sts :
  lex_run LStart s = Some (LStart, ts) -> split_stmts ts [] = Some tss -> mapM read_stmt tss = Some sts -> script s sts.
Proof. intros H Hs Hm. apply split_stmts_inv in Hs as [E Hf]; [|set_solver]. exists tss. by rewrite E. Qed.

Lemma script_nil : script [] [].
Proof. by exists []. Qed.

Lemma script_app s sts s' sts' : script s sts -> script s' sts' -> script (s ++ s') (sts ++ sts').
Proof.
  intros (tss & H & Hs & Hm) (tss' & H' & Hs' & Hm'). exists (tss ++ tss'). split_and!.
  - rewrite fmap_app, join_app. by apply (lex_run_trans _ _ _ _ _ _ _ H).
  - by apply Forall_app.
  - apply mapM_Some in Hm, Hm'. apply mapM_Some. by apply Forall2_app.
Qed.

Lemma script_one s st : statement s st -> script s [st].
Proof.
  intros (ts & H & Hs & Hr). exists [ts]. split_and!; [by rewrite H; cbn; rewrite app_nil_r|by constructor|].
  cbn. by rewrite Hr.
Qed.

Lemma script_space s sts : script s sts -> script (Byte.x20 :: s) sts.
Proof. intros (tss & H & ?). exists tss. split; [|done]. by apply (lex_run_trans _ [Byte.x20] s LStart [] LStart _). Qed.

Lemma statement_of s ts t st :
  reads s ts t -> semi ∉ ts -> read_stmt (ts ++ [t]) = Some st -> statement (s ++ [Byte.x3b]) st.
Proof.
  intros H Hs Hr. exists (ts ++ [t]). split_and!; [|by destruct H as [_ H]; set_solver|done].
  rewrite (reads_end _ _ _ _ H) by done. by rewrite <- app_assoc.
Qed.

(** [SET key=value;] *)
Definition value_text (v : SqlValue) : bytes :=
  match v with SvWord w => w | SvLit s => sql_lit s | SvList l => str "[" ++ join (str ", ") (sql_lit <$> l) ++ str "]" end.

Lemma set_tokens k s ts t : Word k -> reads s ts t -> reads (str "SET " ++ k ++ str "=" ++ s) (word "SET" :: TWord k :: equals :: ts) t.
Proof.
  intros Hk Hs. apply (reads_spaced (str "SET") [] (str "SET") (k ++ str "=" ++ s) (TWord k :: equals :: ts) t).
  - by split.
  - apply (reads_punct k [] (TWord k) Byte.x3d s ts t); [by apply reads_word|done|done].
Qed.

Lemma set_scalar k v :
  Word k -> match v with SvWord w => Word w | SvLit _ => True | SvList _ => False end ->
  statement (str "SET " ++ k ++ str "=" ++ value_text v ++ str ";") (SSet k v).
Proof.
  intros Hk Hv. rewrite !app_assoc, <- !(app_assoc _ k), <- (app_assoc _ (k ++ _)), <- (app_assoc k).
  assert (exists t, reads (value_text v) [] t /\ value_of t = Some v) as (t & Ht & Hval).
  { destruct v as [w|s|]; [exists (TWord w)|exists (TLit s)|done]; (split; [|done]); [by apply reads_word|apply reads_lit]. }
  apply (statement_of _ _ _ _ (set_tokens k (value_text v) [] t Hk Ht)); [set_solver|].
  cbn. by rewrite Hval.
Qed.

Lemma lits_read l : l <> [] ->
  exists ts t, reads (join (str ", ") (sql_lit <$> l)) ts t /\ semi ∉ ts /\ read_list (ts ++ [t; rbra]) = Some l.
Proof.
  induction l as [|s l IH]; [done|]. intros _. destruct l as [|s' l].
  - exists [], (TLit s). split_and!; [apply reads_lit|set_solver|done].
  - destruct IH as (ts & t & H & Hs & Hr); [done|]. exists (TLit s :: comma :: ts), t. split_and!.
    + apply (reads_punct (sql_lit s) [] (TLit s) Byte.x2c (Byte.x20 :: _) ts t); [apply reads_lit|done|].
      by apply reads_space.
    + set_solver.
    + cbn [app]. destruct ts as [|x ts]; cbn [app read_list] in *; by rewrite Hr.
Qed.

Lemma set_list k l : Word k -> l <> [] -> statement (str "SET " ++ k ++ str "=" ++ value_text (SvList l) ++ str ";") (SSet k (SvList l)).
Proof.
  intros Hk Hl. destruct (lits_read l Hl) as (ts & t & H & Hs & Hr). cbn [value_text].
  exists (word "SET" :: TWord k :: equals :: lbra :: ts ++ [t; rbra]). split_and!.
  - destruct H as [H Ht]. replace ((_ :: _) ++ [semi]) with (word "SET" :: TWord k :: equals :: lbra :: ts ++ [t; rbra; semi])
      by (cbn [app]; by rewrite <- app_assoc).
    apply (lex_run_trans _ (str "SET ") _ LStart [word "SET"] _ (TWord k :: equals :: lbra :: ts ++ [t; rbra; semi])); [done|].
    apply (lex_run_trans _ _ _ _ _ _ (TWord k :: equals :: lbra :: ts ++ [t; rbra; semi]) (lex_word k Hk)).
    apply (lex_run_trans _ (str "=") _ LStart [TWord k; equals] _ (lbra :: ts ++ [t; rbra; semi])); [by apply (run_punct (TWord k))|].
    rewrite <- app_assoc.
    apply (lex_run_trans _ (str "[") _ LStart [lbra] _ (ts ++ [t; rbra; semi])); [done|].
    rewrite <- app_assoc. apply (lex_run_trans _ _ _ _ _ _ _ H).
    apply (lex_run_trans _ (str "]") _ LStart [t; rbra] _ [semi]); [|done].
    by apply run_punct.
  - destruct H as [_ H]. set_solver.
  - cbn [read_stmt]. rewrite (bool_decide_true (word "SET" = word "SET")), (bool_decide_true (equals = equals)) by done.
    cbn [andb]. destruct ts as [|x ts]; cbn [app] in *; rewrite bool_decide_true by done; by rewrite Hr.
Qed.

(** An option of a secret: a key, a space and a value. *)
Definition option_text (o : bytes * SqlValue) : bytes := o.1 ++ str " " ++ value_text o.2.
Definition Option_ok (o : bytes * SqlValue) : Prop :=
  Word o.1 /\ match o.2 with SvWord w => Word w | SvLit _ => True | SvList _ => False end.

Lemma option_reads o : Option_ok o -> exists t, reads (option_text o) [TWord o.1] t /\ value_of t = Some o.2.
Proof.
  destruct o as [k v]. intros [Hk Hv]. cbn [fst snd] in *.
  destruct v as [w|s|]; [exists (TWord w)|exists (TLit s)|done]; (split; [|done]).
  - apply (reads_spaced k [] k w [] (TWord w)); by apply reads_word.
  - apply (reads_spaced k [] k (sql_lit s) [] (TLit s)); [by apply reads_word|apply reads_lit].
Qed.

Lemma options_read os : os <> [] -> Forall Option_ok os ->
  exists ts t, reads (join (str ", ") (option_text <$> os)) ts t /\ semi ∉ ts /\ read_options (ts ++ [t; rpar]) = Some os.
Proof.
  intros Hne H. induction H as [|o os Ho H IH]; [done|]. destruct (option_reads o Ho) as (t & Ht & Hv).
  destruct os as [|o' os].
  - exists [TWord o.1], t. split_and!; [done|set_solver|]. cbn [app read_options]. rewrite Hv. cbn. by destruct o.
  - destruct IH as (ts & t' & Hr & Hs & Ho'); [done|]. exists (TWord o.1 :: t :: comma :: ts), t'. split_and!.
    + apply (reads_punct (option_text o) [TWord o.1] t Byte.x2c (Byte.x20 :: _) ts t'); [done|done|]. by apply reads_space.
    + destruct Ht as [_ Ht]. set_solver.
    + cbn [app read_options]. rewrite Hv. cbn. rewrite Ho'. by destruct o.
Qed.

(** [CREATE OR REPLACE SECRET name (options);] *)
Lemma secret_statement name os : Word name -> os <> [] -> Forall Option_ok os ->
  statement (str "CREATE OR REPLACE SECRET " ++ name ++ str " (" ++ join (str ", ") (option_text <$> os) ++ str ");") (SSecret name os).
Proof.
  intros Hn Hne Hos. destruct (options_read os Hne Hos) as (ts & t & [H Ht] & Hs & Hr).
  set (rest := ts ++ [t; rpar]). exists (word "CREATE" :: word "OR" :: word "REPLACE" :: word "SECRET" :: TWord name :: lpar :: rest). split_and!.
  - apply (lex_run_trans _ _ _ LStart [word "CREATE"; word "OR"; word "REPLACE"; word "SECRET"] _ (TWord name :: lpar :: rest ++ [semi])); [done|].
    apply (lex_run_trans _ _ _ _ [] _ (TWord name :: lpar :: rest ++ [semi]) (lex_word name Hn)).
    apply (lex_run_trans _ (str " (") _ LStart [TWord name; lpar] _ (rest ++ [semi])); [done|].
    unfold rest. rewrite <- app_assoc. apply (lex_run_trans _ _ _ _ _ _ _ H).
    apply (lex_run_trans _ (str ")") (str ";") LStart [t; rpar] LStart [semi]); [by apply run_punct|done].
  - unfold rest. set_solver.
  - trans (SSecret name <$> read_options rest); [reflexivity|]. unfold rest. by rewrite Hr.
Qed.

(** [LOAD extension;] *)
Lemma load_statement x : Word x -> statement (str "LOAD " ++ x ++ str ";") (SLoad x).
Proof.
  intros Hx. exists [word "LOAD"; TWord x]. split_and!; [|set_solver|done].
  apply (lex_run_trans _ (str "LOAD ") _ LStart [word "LOAD"] _ [TWord x; semi]); [done|].
  apply (lex_run_trans _ _ _ _ [] _ _ (lex_word x Hx)). by apply (run_punct (TWord x)).
Qed.

(** [PRAGMA add_parquet_key('name', 'key');] *)
Lemma key_statement n k : statement (str "PRAGMA add_parquet_key(" ++ sql_lit n ++ str ", " ++ sql_lit k ++ str ");") (SParquetKey n k).
Proof.
  exists [word "PRAGMA"; word "add_parquet_key"; lpar; TLit n; comma; TLit k; rpar]. split_and!; [|set_solver|done].
  apply (lex_run_trans _ _ _ LStart [word "PRAGMA"; word "add_parquet_key"; lpar] _ [TLit n; comma; TLit k; rpar; semi]); [done|].
  apply (lex_run_trans _ _ _ _ [] _ _ (lex_lit n)).
  apply (lex_run_trans _ (str ", ") _ LStart [TLit n; comma] _ [TLit k; rpar; semi]); [done|].
  apply (lex_run_trans _ _ _ _ [] _ _ (lex_lit k)). done.
Qed.
