(* ===== verification/Sealing.v ===== *)
(** * Sealed keys (trust/sealing.rs) and attestation-gated key release (node/storage.rs:
      [Enclave], [KeyRelease])

    X25519, the two AEAD ciphers and the JSON codec are third-party: the class [SealCrypto]
    with the laws the code relies on.  Random values (the ephemeral secret, the nonces) are
    arguments. *)

From S2P Require Import Prelude Bytes Crypto Text Proto Attest.
#[local] Open Scope duckton_scope.

Record SealedBlob := mkBlob { sb_ephemeral_pub : bytes; sb_nonce : bytes; sb_ciphertext : bytes }.

Class SealCrypto := {
  x_secret : Type;
  x_public : x_secret -> bytes;
  x_dh : x_secret -> bytes -> bytes;
  chacha_encrypt : bytes -> bytes -> bytes -> bytes;              (* key, nonce, plaintext *)
  chacha_decrypt : bytes -> bytes -> bytes -> option bytes;
  xchacha_encrypt : bytes -> bytes -> bytes -> bytes;
  xchacha_decrypt : bytes -> bytes -> bytes -> option bytes;
  blob_json : SealedBlob -> bytes;
  parse_blob : bytes -> option SealedBlob;
}.
Class SealLaws (S : SealCrypto) : Prop := {
  x_dh_comm a b : x_dh a (x_public b) = x_dh b (x_public a);
  chacha_open k n p : chacha_decrypt k n (chacha_encrypt k n p) = Some p;
  xchacha_open k n p : xchacha_decrypt k n (xchacha_encrypt k n p) = Some p;
  blob_open b : parse_blob (blob_json b) = Some b;
}.

Definition KDF_DOMAIN : bytes := str "duckdb-p2p-seal-v1".

Section sealing.
Context {C : Crypto} {S : SealCrypto}.

Definition derive_key (shared ephemeral_pub recipient_pub : bytes) : bytes :=
  blake3 (KDF_DOMAIN ++ shared ++ ephemeral_pub ++ recipient_pub).

(** [SealedBlob::to_hex], [SealedBlob::from_hex] *)
Definition blob_to_hex (b : SealedBlob) : bytes := hex_encode (blob_json b).
Definition blob_from_hex (s : bytes) : option SealedBlob := b ← hex_decode s; parse_blob b.

(** [seal_to], with its random ephemeral secret and nonce *)
Definition seal_to (ephemeral : x_secret) (nonce : bytes) (recipient_pub plaintext : bytes) : SealedBlob :=
  let key := derive_key (x_dh ephemeral recipient_pub) (x_public ephemeral) recipient_pub in
  mkBlob (x_public ephemeral) nonce (chacha_encrypt key nonce plaintext).

(** [SealingKeypair::open] *)
Definition open (secret : x_secret) (b : SealedBlob) : option bytes :=
  let key := derive_key (x_dh secret (sb_ephemeral_pub b)) (sb_ephemeral_pub b) (x_public secret) in
  chacha_decrypt key (sb_nonce b) (sb_ciphertext b).

Definition encrypt_at_rest (key nonce plaintext : bytes) : bytes := nonce ++ xchacha_encrypt key nonce plaintext.
Definition decrypt_at_rest (key blob : bytes) : option bytes :=
  if (length blob <? 24)%nat then None else xchacha_decrypt key (take 24 blob) (drop 24 blob).

(** The enclave: a sealing key and an attestor ([MockAttestor]: authority key, measurement
    and level). *)
Record Enclave := mkEnclave { en_sealing : x_secret; en_authority : seckey; en_measurement : bytes; en_level : AttestationLevel }.

Definition sealing_pubkey (e : Enclave) : bytes := x_public (en_sealing e).
Definition attest {J : EvidenceJson} (e : Enclave) (nonce : bytes) : Attestation :=
  produce (en_authority e) (en_measurement e) (en_level e) nonce (sealing_pubkey e).
Definition open_key (e : Enclave) (b : SealedBlob) : option bytes :=
  k ← open (en_sealing e) b; if (length k =? 32)%nat then Some k else None.

(** [KeyRelease::release] *)
Definition release {J : EvidenceJson} (ephemeral : x_secret) (seal_nonce : bytes) (v : AllowlistVerifier) (att : Attestation)
    (nonce enclave_sealing_pub data_key : bytes) : result SealedBlob AttestError :=
  _ <-? verify_attestation v att nonce enclave_sealing_pub ;;
  Ok (seal_to ephemeral seal_nonce enclave_sealing_pub data_key).

(** ** Opening what was sealed *)

Context {SL : SealLaws S}.

Lemma open_seal secret ephemeral nonce p : open secret (seal_to ephemeral nonce (x_public secret) p) = Some p.
Proof using SL. unfold open, seal_to. cbn [sb_ephemeral_pub sb_nonce sb_ciphertext]. rewrite x_dh_comm. apply chacha_open. Qed.

Lemma blob_hex_roundtrip b : blob_from_hex (blob_to_hex b) = Some b.
Proof using SL. unfold blob_from_hex, blob_to_hex. rewrite hex_decode_encode. cbn. apply blob_open. Qed.

Lemma at_rest_roundtrip key nonce p : length nonce = 24%nat -> decrypt_at_rest key (encrypt_at_rest key nonce p) = Some p.
Proof using SL.
  intros Hn. unfold decrypt_at_rest, encrypt_at_rest. rewrite length_app, Hn. rewrite (proj2 (Nat.ltb_ge _ _)) by lia.
  rewrite take_app_length' by done. rewrite drop_app_length' by done. apply xchacha_open.
Qed.
End sealing.

(** C36: a data key leaves the requester only for an attested enclave, and reaches it.
    Whatever attestation is presented, a key is released only when the trusted authority
    signed, for this requester's nonce, an allow-listed measurement at the required level
    or above together with the very public key the data key is then sealed to; the holder
    of that key opens the released blob to the data key.  An enclave whose measurement and
    level are accepted passes the check with the evidence it produces for the nonce and
    recovers the key. *)
Theorem key_release_attested {C : Crypto} {CL : CryptoLaws C} {S : SealCrypto} {SL : SealLaws S} {J : EvidenceJson} {JL : EvidenceJsonLaws J}
    (v : AllowlistVerifier) (nonce data_key ephemeral_nonce : bytes) (ephemeral : x_secret) :
  (forall att pub blob, release ephemeral ephemeral_nonce v att nonce pub data_key = Ok blob ->
     level_le (required_level v) (att_level att) = true
     /\ (exists ev sig, parse_evidence (att_evidence att) = Some ev /\ measurement ev ∈ allowed_measurements v
          /\ verify_strict (trusted_authority v) (evidence_signing_bytes (att_level att) (measurement ev) nonce pub) sig = true)
     /\ forall secret, x_public secret = pub -> open secret blob = Some data_key)
  /\ (forall e, length data_key = 32%nat -> ed_public (en_authority e) = trusted_authority v ->
      en_measurement e ∈ allowed_measurements v -> level_le (required_level v) (en_level e) = true ->
      exists blob, release ephemeral ephemeral_nonce v (attest e nonce) nonce (sealing_pubkey e) data_key = Ok blob
        /\ open_key e blob = Some data_key).
Proof.
  split.
  - intros att pub blob H. unfold release in H. apply res_bind_ok in H as ([] & Hv & [= <-]).
    apply verify_attestation_ok in Hv as (Hl & ev & sig & Hp & Hm & _ & Hs). split_and!; [done|by exists ev, sig|].
    intros secret <-. apply open_seal.
  - intros e Hk Ha Hm Hl. unfold release, attest. destruct v as [auth allowed required]. cbn in Ha, Hm, Hl. subst auth.
    rewrite produced_verifies by done. eexists. split; [reflexivity|]. unfold open_key, sealing_pubkey. rewrite open_seal.
    cbn. by rewrite Hk.
Qed.

(** ** An instance *)

(** X25519 as addition of numbers, ciphers that append the key as a tag. *)
Definition toy_cipher (k n p : bytes) : bytes := put_text k ++ put_text n ++ p.
Definition toy_decipher (k n c : bytes) : option bytes :=
  '(k', r) ← get_text c; '(n', r') ← get_text r; if bool_decide ((k', n') = (k, n)) then Some r' else None.

#[export] Instance toy_seal : SealCrypto := {|
  x_secret := byte; x_public s := le_bytes 32 (byte_val s); x_dh s p := le_bytes 32 (byte_val s * le_val p);
  chacha_encrypt := toy_cipher; chacha_decrypt := toy_decipher; xchacha_encrypt := toy_cipher; xchacha_decrypt := toy_decipher;
  blob_json b := put_text (sb_ephemeral_pub b) ++ put_text (sb_nonce b) ++ put_text (sb_ciphertext b);
  parse_blob s := '(a, s) ← get_text s; '(b, s) ← get_text s; '(c, s) ← get_text s; match s with [] => Some (mkBlob a b c) | _ => None end;
|}.

Lemma toy_opens k n p : toy_decipher k n (toy_cipher k n p) = Some p.
Proof.
  unfold toy_decipher, toy_cipher. rewrite get_put. cbn [mbind option_bind]. rewrite get_put. cbn [mbind option_bind].
  by rewrite bool_decide_true.
Qed.

#[export] Instance toy_seal_laws : SealLaws toy_seal.
Proof.
  split.
  - intros a b. cbn [x_dh x_public toy_seal]. pose proof (byte_val_range a). pose proof (byte_val_range b).
    rewrite !le_val_bytes by (split; [lia|]; change (256 ^ Z.of_nat 32) with (2 ^ 256); lia). by rewrite Z.mul_comm.
  - apply toy_opens.
  - apply toy_opens.
  - intros [a b c]. cbn [blob_json parse_blob toy_seal sb_ephemeral_pub sb_nonce sb_ciphertext].
    rewrite get_put. cbn [mbind option_bind]. rewrite get_put. cbn [mbind option_bind].
    by rewrite <- (app_nil_r (put_text c)), get_put.
Qed.

Lemma key_release_attested_witness :
  let C := toy_crypto in
  let e := mkEnclave (C := C) Byte.x07 (5 : Z) (str "img-1") L2 in
  let v := mkVerifier (ed_public (Crypto := C) (5 : Z)) {[str "img-1"]} L1 in
  exists blob, release (C := C) (S := toy_seal) Byte.x09 (le_bytes 12 1) v (attest e (le_bytes 8 77)) (le_bytes 8 77) (sealing_pubkey e) (le_bytes 32 3) = Ok blob
    /\ open_key e blob = Some (le_bytes 32 3).
Proof.
  intros C e v. apply (key_release_attested (C := C) (S := toy_seal) (J := toy_json) v (le_bytes 8 77) (le_bytes 32 3) (le_bytes 12 1) Byte.x09);
    [done|done|set_solver|done].
Defined.

(** Another enclave's key does not open the blob. *)
Example other_enclave_refused :
  let C := toy_crypto in
  let blob := seal_to (C := C) (S := toy_seal) Byte.x09 (le_bytes 12 1) (x_public (SealCrypto := toy_seal) Byte.x07) (le_bytes 32 3) in
  open (C := C) (S := toy_seal) Byte.x08 blob = None.
Proof. vm_compute. reflexivity. Qed.
