(* ===== verification/DataSource.v ===== *)
(** * Data sources (node/datasource.rs and the credential issuers of node/storage.rs)

    Formats, per-job credentials, the storage providers that turn a credential into a
    [CREATE SECRET] statement, the registry built from the configuration, sealed
    credential tokens and the rewriting of pinned objects to signed URLs.  The JSON codec
    of a credential is third-party: [CredentialJson].  [str::to_uppercase] (the full
    Unicode mapping) is an argument; nothing is assumed of it, since the code checks its
    result. *)

From S2P Require Import Prelude Bytes Crypto Text Proto ConfigData Config Worker Sql Attest Sealing.
#[local] Open Scope duckton_scope.

Inductive DataSourceError :=
| UnknownProvider (id : bytes)
| MissingField (field provider : bytes)
| MalformedToken (e : bytes)
| UnsupportedFormat (f : bytes)
| SealingKeyUnavailable
| SealOpenFailed
| InvalidSecretKey (k : bytes).

(** ** Formats *)

Inductive DataFormat := Csv | Json | Parquet | Delta | Iceberg | OtherFormat (s : bytes).

(** [DataFormat::parse] *)
Definition parse_format (s : bytes) : DataFormat :=
  let l := to_ascii_lowercase (trim s) in
  if bool_decide (l = str "csv") then Csv
  else if bool_decide (l = str "json") || bool_decide (l = str "ndjson") then Json
  else if bool_decide (l = str "parquet") then Parquet
  else if bool_decide (l = str "delta") || bool_decide (l = str "deltalake") || bool_decide (l = str "delta_lake") then Delta
  else if bool_decide (l = str "iceberg") then Iceberg
  else OtherFormat l.

(** [DataFormat::as_str] *)
Definition format_str (f : DataFormat) : bytes :=
  match f with
  | Csv => str "csv" | Json => str "json" | Parquet => str "parquet" | Delta => str "delta" | Iceberg => str "iceberg"
  | OtherFormat s => s
  end.

(** [DataFormat::required_extensions] *)
Definition format_extensions (f : DataFormat) : list bytes :=
  match f with
  | Csv => []
  | Json => [str "json"]
  | Parquet => [str "parquet"]
  | Delta => [str "delta"; str "parquet"]
  | Iceberg => [str "iceberg"; str "parquet"]
  | OtherFormat _ => []
  end.

(** ** Credentials *)

Record CloudCredential := mkCloud {
  cc_key_id : option bytes;
  cc_secret : option bytes;
  cc_session_token : option bytes;
  cc_connection_string : option bytes;
  cc_region : option bytes;
  cc_endpoint : option bytes;
  cc_url_style : option bytes;
  cc_use_ssl : option bool;
  cc_extra : list (bytes * bytes);
}.
Definition default_CloudCredential : CloudCredential := mkCloud None None None None None None None None [].

Class CredentialJson := {
  cred_json : CloudCredential -> bytes;                       (* serde_json::to_string, to_vec *)
  parse_cred : bytes -> result CloudCredential bytes;         (* serde_json::from_str, from_slice *)
}.
(** A struct is written as one JSON object, and reads back. *)
Class CredentialJsonLaws (J : CredentialJson) : Prop := {
  parse_cred_json c : parse_cred (cred_json c) = Ok c;
  cred_json_object c : exists s, cred_json c = str "{" ++ s ++ str "}";
}.

Definition SEALED_TOKEN_PREFIX : bytes := str "sealed:v1:".

Definition is_sealed_token (token : bytes) : bool := starts_with SEALED_TOKEN_PREFIX (trim_start token).

Record ProviderOptions := mkOptions {
  po_endpoint : option bytes;
  po_region : option bytes;
  po_url_style : option bytes;
  po_use_ssl : option bool;
  po_extra : list (bytes * bytes);
}.
Definition default_ProviderOptions : ProviderOptions := mkOptions None None None None [].

(** [s.trim_start_matches('/')] *)
Fixpoint trim_slashes (s : bytes) : bytes :=
  match s with
  | Byte.x2f :: s' => trim_slashes s'
  | _ => s
  end.

Definition ends_with_slash (s : bytes) : bool := bool_decide (last s = Some Byte.x2f).

Definition scope_url (scheme prefix : bytes) : bytes :=
  let p := trim prefix in
  let url := if contains (str "://") p then p else scheme ++ str "://" ++ trim_slashes p in
  if ends_with_slash url then url else url ++ str "/".

Definition or_else {A} (a b : option A) : option A := match a with Some _ => a | None => b end.

Section datasource.
Context {C : Crypto} {S : SealCrypto} {J : CredentialJson} (to_uppercase : bytes -> bytes).

(** [CloudCredential::from_scoped] *)
Definition from_scoped (cred : ScopedCredential) : result CloudCredential DataSourceError :=
  let t := trim (cr_token cred) in
  if is_sealed_token t then Err SealingKeyUnavailable
  else if bool_decide (t = []) || negb (starts_with (str "{") t) then Ok default_CloudCredential
  else match parse_cred t with Ok c => Ok c | Err e => Err (MalformedToken e) end.

Definition to_token (c : CloudCredential) : bytes := cred_json c.

(** [CloudCredential::seal_token] *)
Definition seal_token (ephemeral : x_secret) (nonce : bytes) (c : CloudCredential) (recipient_pub : bytes) : bytes :=
  SEALED_TOKEN_PREFIX ++ blob_to_hex (seal_to ephemeral nonce recipient_pub (cred_json c)).

(** [CloudCredential::unseal] *)
Definition unseal (token : bytes) (keypair : x_secret) : result CloudCredential DataSourceError :=
  let t := trim_start token in
  guard starts_with SEALED_TOKEN_PREFIX t else MalformedToken (str "not a sealed token") ;;
  blob <-? ok_or (blob_from_hex (drop (length SEALED_TOKEN_PREFIX) t)) SealOpenFailed ;;
  plaintext <-? ok_or (open keypair blob) SealOpenFailed ;;
  match parse_cred plaintext with Ok c => Ok c | Err e => Err (MalformedToken e) end.

(** [secret_key_ident]; the bytes of a non-ASCII character are never in the ranges. *)
Definition ident_start (b : byte) : bool := (byte_val b =? 95) || in_range 65 90 b.
Definition ident_rest (b : byte) : bool := ident_start b || in_range 48 57 b.
Definition secret_key_ident (key : bytes) : result bytes DataSourceError :=
  let upper := to_uppercase key in
  let valid := match upper with c :: cs => ident_start c && forallb ident_rest cs | [] => false end in
  if valid then Ok upper else Err (InvalidSecretKey key).

(** ** Providers *)

Record StorageProvider := mkProvider {
  provider_id : bytes;
  url_schemes : list bytes;
  required_extensions : list bytes;
  create_secret_sql : bytes -> ScopedCredential -> ProviderOptions -> result (option bytes) DataSourceError;
}.

Definition opt_part (key : string) (v : option bytes) : list bytes :=
  match v with Some x => [str key ++ str " " ++ sql_lit x] | None => [] end.

(** The loop over [c.extra], which stops at the first bad key. *)
Fixpoint extra_parts (extra : list (bytes * bytes)) : result (list bytes) DataSourceError :=
  match extra with
  | [] => Ok []
  | (k, v) :: rest =>
      key <-? secret_key_ident k ;;
      ps <-? extra_parts rest ;;
      Ok ((key ++ str " " ++ sql_lit v) :: ps)
  end.

Definition secret_text (name : bytes) (parts : list bytes) : bytes :=
  str "CREATE OR REPLACE SECRET " ++ name ++ str " (" ++ join (str ", ") parts ++ str ");".

(** [S3Provider] *)
Definition s3_create_secret_sql (name : bytes) (cred : ScopedCredential) (opts : ProviderOptions) : result (option bytes) DataSourceError :=
  c <-? from_scoped cred ;;
  key_id <-? ok_or (cc_key_id c) (MissingField (str "key_id") (str "s3")) ;;
  secret <-? ok_or (cc_secret c) (MissingField (str "secret") (str "s3")) ;;
  let region := or_else (cc_region c) (po_region opts) in
  let endpoint := or_else (cc_endpoint c) (po_endpoint opts) in
  let url_style := or_else (cc_url_style c) (po_url_style opts) in
  let use_ssl := or_else (cc_use_ssl c) (po_use_ssl opts) in
  let head := [str "TYPE s3"; str "KEY_ID " ++ sql_lit key_id; str "SECRET " ++ sql_lit secret]
    ++ opt_part "SESSION_TOKEN" (cc_session_token c) ++ opt_part "REGION" region
    ++ opt_part "ENDPOINT" endpoint ++ opt_part "URL_STYLE" url_style
    ++ match use_ssl with Some b => [str "USE_SSL " ++ (if b : bool then str "true" else str "false")] | None => [] end in
  extra <-? extra_parts (cc_extra c) ;;
  Ok (Some (secret_text name (head ++ extra ++ [str "SCOPE " ++ sql_lit (scope_url (str "s3") (cr_prefix cred))]))).

Definition S3Provider : StorageProvider := mkProvider (str "s3") [str "s3"] [str "httpfs"] s3_create_secret_sql.

(** [AzureProvider]; the options are not used. *)
Definition az_create_secret_sql (name : bytes) (cred : ScopedCredential) (_ : ProviderOptions) : result (option bytes) DataSourceError :=
  c <-? from_scoped cred ;;
  conn <-? ok_or (cc_connection_string c) (MissingField (str "connection_string") (str "az")) ;;
  let head := [str "TYPE azure"; str "CONNECTION_STRING " ++ sql_lit conn] in
  extra <-? extra_parts (cc_extra c) ;;
  Ok (Some (secret_text name (head ++ extra ++ [str "SCOPE " ++ sql_lit (scope_url (str "azure") (cr_prefix cred))]))).

Definition AzureProvider : StorageProvider :=
  mkProvider (str "az") [str "az"; str "abfss"; str "azure"] [str "azure"] az_create_secret_sql.

(** [GcsProvider] *)
Definition gcs_create_secret_sql (name : bytes) (cred : ScopedCredential) (opts : ProviderOptions) : result (option bytes) DataSourceError :=
  c <-? from_scoped cred ;;
  key_id <-? ok_or (cc_key_id c) (MissingField (str "key_id") (str "gcs")) ;;
  secret <-? ok_or (cc_secret c) (MissingField (str "secret") (str "gcs")) ;;
  let head := [str "TYPE gcs"; str "KEY_ID " ++ sql_lit key_id; str "SECRET " ++ sql_lit secret]
    ++ opt_part "SESSION_TOKEN" (cc_session_token c) ++ opt_part "ENDPOINT" (or_else (cc_endpoint c) (po_endpoint opts)) in
  extra <-? extra_parts (cc_extra c) ;;
  Ok (Some (secret_text name (head ++ extra ++ [str "SCOPE " ++ sql_lit (scope_url (str "gcs") (cr_prefix cred))]))).

Definition GcsProvider : StorageProvider := mkProvider (str "gcs") [str "gcs"; str "gs"] [str "httpfs"] gcs_create_secret_sql.

Definition no_secret (_ : bytes) (_ : ScopedCredential) (_ : ProviderOptions) : result (option bytes) DataSourceError := Ok None.
Definition HttpsProvider : StorageProvider := mkProvider (str "https") [str "http"; str "https"] [str "httpfs"] no_secret.
Definition LocalFileProvider : StorageProvider := mkProvider (str "local-fake") [str "file"] [] no_secret.

Definition is_one_of (id : bytes) (l : list string) : bool := existsb (fun s => bool_decide (id = str s)) l.

Definition default_provider (id : bytes) : option StorageProvider :=
  if is_one_of id ["s3"%string] then Some S3Provider
  else if is_one_of id ["az"; "azure"; "abfss"]%string then Some AzureProvider
  else if is_one_of id ["gcs"; "gs"]%string then Some GcsProvider
  else if is_one_of id ["https"; "http"]%string then Some HttpsProvider
  else if is_one_of id ["local-fake"; "local"]%string then Some LocalFileProvider
  else None.

(** ** The registry *)

Record ProviderRegistry := mkRegistry { rg_providers : gmap bytes StorageProvider; rg_options : gmap bytes ProviderOptions }.
Definition empty_registry : ProviderRegistry := mkRegistry ∅ ∅.

Definition register (r : ProviderRegistry) (p : StorageProvider) : ProviderRegistry :=
  mkRegistry (<[provider_id p := p]> (rg_providers r)) (rg_options r).
Definition set_options (r : ProviderRegistry) (id : bytes) (o : ProviderOptions) : ProviderRegistry :=
  mkRegistry (rg_providers r) (<[id := o]> (rg_options r)).
Definition options_for (r : ProviderRegistry) (id : bytes) : ProviderOptions := default default_ProviderOptions (rg_options r !! id).

Definition secret_sql_for (r : ProviderRegistry) (name : bytes) (cred : ScopedCredential) : result (option bytes) DataSourceError :=
  p <-? ok_or (rg_providers r !! cr_provider cred) (UnknownProvider (cr_provider cred)) ;;
  create_secret_sql p name cred (options_for r (cr_provider cred)).

(** ** The engine's setup *)

Record StorageSetup := mkSetup {
  ss_enable_remote_access : bool;
  ss_preload_extensions : list bytes;
  ss_allowed_local_paths : list bytes;
  ss_require_extensions : bool;
  ss_temp_file_encryption : bool;
  ss_providers : ProviderRegistry;
  ss_sealing : option x_secret;
  ss_max_result_bytes : Z;
}.

Definition strict : StorageSetup := mkSetup false [] [] false true empty_registry None MAX_RESULT_BYTES.

Definition with_max_result_bytes (s : StorageSetup) (max : Z) : StorageSetup :=
  mkSetup (ss_enable_remote_access s) (ss_preload_extensions s) (ss_allowed_local_paths s) (ss_require_extensions s)
    (ss_temp_file_encryption s) (ss_providers s) (ss_sealing s) max.
Definition with_sealing (s : StorageSetup) (k : x_secret) : StorageSetup :=
  mkSetup (ss_enable_remote_access s) (ss_preload_extensions s) (ss_allowed_local_paths s) (ss_require_extensions s)
    (ss_temp_file_encryption s) (ss_providers s) (Some k) (ss_max_result_bytes s).

Definition resolve_credential (s : StorageSetup) (cred : ScopedCredential) : result ScopedCredential DataSourceError :=
  if negb (is_sealed_token (cr_token cred)) then Ok cred
  else
    key <-? ok_or (ss_sealing s) SealingKeyUnavailable ;;
    opened <-? unseal (cr_token cred) key ;;
    Ok (mkCredential (cr_provider cred) (to_token opened) (cr_prefix cred) (cr_expires_at cred)).

(** [v.trim().parse::<bool>().ok()] *)
Definition parse_bool (s : bytes) : option bool :=
  let t := trim s in
  if bool_decide (t = str "true") then Some true else if bool_decide (t = str "false") then Some false else None.

Definition RESERVED : list bytes := [str "endpoint"; str "region"; str "url_style"; str "use_ssl"].

Definition provider_options (cfg : StorageConfig) (id : bytes) : ProviderOptions :=
  let kv := default [] (map_get id (sto_provider_options cfg)) in
  mkOptions (or_else (map_get (str "endpoint") kv) (sto_endpoint cfg))
    (or_else (map_get (str "region") kv) (sto_region cfg))
    (or_else (map_get (str "url_style") kv) (sto_url_style cfg))
    (or_else (v ← map_get (str "use_ssl") kv; parse_bool v) (sto_use_ssl cfg))
    (List.filter (fun e => negb (bool_decide (e.1 ∈ RESERVED))) kv).

(** [StorageSetup::from_config] *)
Definition from_config (cfg : StorageConfig) : StorageSetup :=
  let registry := foldl (fun r id => match default_provider id with Some p => register r p | None => r end)
    empty_registry (sto_enabled_providers cfg) in
  let registry := foldl (fun r id => set_options r id (provider_options cfg id))
    registry (sto_enabled_providers cfg ++ (fst <$> sto_provider_options cfg)) in
  mkSetup (sto_enable_remote_access cfg) (sto_preload_extensions cfg) (sto_allowed_local_paths cfg)
    (sto_require_extensions cfg) (sto_temp_file_encryption cfg) registry None MAX_RESULT_BYTES.
End datasource.

(** ** Signed URLs *)

(** [s.replace(from, to)] for a non-empty [from]: matches do not overlap, left to right;
    [skip] counts the bytes of a match still to be dropped. *)
Fixpoint replace_from (from to : bytes) (skip : nat) (s : bytes) : bytes :=
  match s with
  | [] => []
  | b :: s' =>
      match skip with
      | Datatypes.S k => replace_from from to k s'
      | O => if starts_with from s then to ++ replace_from from to (length from - 1) s' else b :: replace_from from to O s'
      end
  end.
Definition replace (from to s : bytes) : bytes := replace_from from to 0 s.

Definition rewrite_signed_urls (sql : bytes) (signed : list SignedInput) : bytes :=
  let pairs := isort (fun a b => (length (si_uri b) <=? length (si_uri a))%nat) signed in
  foldl (fun out s => match si_uri s with [] => out | _ => replace (sql_lit (si_uri s)) (sql_lit (si_url s)) out end) sql pairs.

(** ** Issuing credentials (the requester's side, node/storage.rs)

    Random material ([rand_hex]) and the clock are arguments; [now_secs() + ttl_secs] is a
    checked sum. *)

Section issue.
Context {C : Crypto} {S : SealCrypto} {J : CredentialJson}.

Record StorageCredentialProvider := mkIssuer { is_provider_id : bytes; issue : (nat -> bytes) -> Z -> bytes -> Z -> option ScopedCredential }.

Definition expiry (now ttl : Z) : option Z := checked_add 64 now ttl.

(** [rnd n] is the [n]-th draw, hex-encoded at the length the caller asks for. *)
Definition FakeStsS3Provider (region : bytes) : StorageCredentialProvider :=
  mkIssuer (str "s3") (fun rnd now prefix ttl =>
    e ← expiry now ttl;
    Some (mkCredential (str "s3")
      (to_token (mkCloud (Some (str "ASIA" ++ rnd 0%nat)) (Some (rnd 1%nat)) (Some (rnd 2%nat)) None (Some region) None None None []))
      prefix e)).

Definition FakeAzureSasProvider : StorageCredentialProvider :=
  mkIssuer (str "az") (fun rnd now prefix ttl =>
    e ← expiry now ttl;
    let sas := str "sv=2024-11-04&sp=r&sr=c&se=" ++ show_uint e ++ str "&sig=" ++ rnd 0%nat in
    Some (mkCredential (str "az")
      (to_token (mkCloud None None None
        (Some (str "BlobEndpoint=https://acct.blob.core.windows.net;SharedAccessSignature=" ++ sas)) None None None None []))
      prefix e)).

Definition FakeGcsProvider : StorageCredentialProvider :=
  mkIssuer (str "gcs") (fun rnd now prefix ttl =>
    e ← expiry now ttl;
    Some (mkCredential (str "gcs")
      (to_token (mkCloud (Some (str "GOOG1" ++ rnd 0%nat)) (Some (rnd 1%nat)) (Some (rnd 2%nat)) None None None None None []))
      prefix e)).

Definition LocalFakeStorage : StorageCredentialProvider :=
  mkIssuer (str "local-fake") (fun rnd now prefix ttl =>
    e ← expiry now ttl; Some (mkCredential (str "local-fake") (rnd 0%nat) prefix e)).

Definition default_credential_provider (cfg : StorageConfig) : option StorageCredentialProvider :=
  let id := to_ascii_lowercase (trim (sto_provider cfg)) in
  if is_one_of id ["s3"%string] then Some (FakeStsS3Provider (default (str "us-east-1") (sto_region cfg)))
  else if is_one_of id ["az"; "azure"; "abfss"]%string then Some FakeAzureSasProvider
  else if is_one_of id ["gcs"; "gs"]%string then Some FakeGcsProvider
  else None.

Definition sealed_credential (ephemeral : x_secret) (nonce : bytes) (now : Z) (provider worker_sealing_pub : bytes)
    (cred : CloudCredential) (prefix : bytes) (ttl_secs : Z) : option ScopedCredential :=
  e ← expiry now ttl_secs;
  Some (mkCredential provider (seal_token ephemeral nonce cred worker_sealing_pub) prefix e).
End issue.

(** ** What the generated statement says *)

Definition lit_field (key : string) (v : option bytes) : list (bytes * SqlValue) :=
  match v with Some x => [(str key, SvLit x)] | None => [] end.
Definition bool_field (key : string) (v : option bool) : list (bytes * SqlValue) :=
  match v with Some b => [(str key, SvWord (if b : bool then str "true" else str "false"))] | None => [] end.

Inductive CloudKind := KS3 | KAzure | KGcs.
Definition provider_of {J : CredentialJson} (up : bytes -> bytes) (k : CloudKind) : StorageProvider :=
  match k with KS3 => S3Provider up | KAzure => AzureProvider up | KGcs => GcsProvider up end.

(** The options a secret is meant to have: the credential's own values, the configured
    defaults where it has none, its extra options under their upper-case names, and the
    scope it is limited to. *)
Definition extra_fields (up : bytes -> bytes) (c : CloudCredential) : list (bytes * SqlValue) :=
  (fun e => (up e.1, SvLit e.2)) <$> cc_extra c.
Definition secret_fields (up : bytes -> bytes) (k : CloudKind) (c : CloudCredential) (o : ProviderOptions) (prefix : bytes) : list (bytes * SqlValue) :=
  match k with
  | KS3 => (str "TYPE", SvWord (str "s3")) :: lit_field "KEY_ID" (cc_key_id c) ++ lit_field "SECRET" (cc_secret c)
      ++ lit_field "SESSION_TOKEN" (cc_session_token c) ++ lit_field "REGION" (or_else (cc_region c) (po_region o))
      ++ lit_field "ENDPOINT" (or_else (cc_endpoint c) (po_endpoint o)) ++ lit_field "URL_STYLE" (or_else (cc_url_style c) (po_url_style o))
      ++ bool_field "USE_SSL" (or_else (cc_use_ssl c) (po_use_ssl o))
      ++ extra_fields up c ++ [(str "SCOPE", SvLit (scope_url (str "s3") prefix))]
  | KAzure => (str "TYPE", SvWord (str "azure")) :: lit_field "CONNECTION_STRING" (cc_connection_string c)
      ++ extra_fields up c ++ [(str "SCOPE", SvLit (scope_url (str "azure") prefix))]
  | KGcs => (str "TYPE", SvWord (str "gcs")) :: lit_field "KEY_ID" (cc_key_id c) ++ lit_field "SECRET" (cc_secret c)
      ++ lit_field "SESSION_TOKEN" (cc_session_token c) ++ lit_field "ENDPOINT" (or_else (cc_endpoint c) (po_endpoint o))
      ++ extra_fields up c ++ [(str "SCOPE", SvLit (scope_url (str "gcs") prefix))]
  end.

(** What a provider cannot do without. *)
Definition has_keys (k : CloudKind) (c : CloudCredential) : bool :=
  match k with
  | KAzure => bool_decide (is_Some (cc_connection_string c))
  | _ => bool_decide (is_Some (cc_key_id c)) && bool_decide (is_Some (cc_secret c))
  end.
Definition extra_ok (up : bytes -> bytes) (c : CloudCredential) : bool := forallb (fun e => is_ok (secret_key_ident up e.1)) (cc_extra c).

Section minted.
Context {J : CredentialJson} (up : bytes -> bytes).

Lemma ident_word b : ident_rest b = true -> is_word b = true.
Proof using Type. unfold ident_rest, ident_start, is_word. rewrite !orb_true_iff. tauto. Qed.

Lemma secret_key_ident_ok k u : secret_key_ident up k = Ok u -> u = up k /\ Word u.
Proof using Type.
  unfold secret_key_ident. destruct (up k) as [|c cs]; [done|].
  destruct (ident_start c && forallb ident_rest cs) eqn:E; [|done]. intros [= <-]. split; [done|]. split; [done|].
  apply andb_true_iff in E as [E1 E2]. constructor; [apply ident_word; unfold ident_rest; by rewrite E1|].
  apply Forall_forall. intros x Hx. apply ident_word. rewrite forallb_forall in E2. apply E2. by apply list_elem_of_In.
Qed.

Lemma extra_parts_ok c ps :
  extra_parts up (cc_extra c) = Ok ps -> ps = option_text <$> extra_fields up c /\ Forall Option_ok (extra_fields up c) /\ extra_ok up c = true.
Proof using Type.
  unfold extra_fields, extra_ok. revert ps. induction (cc_extra c) as [|[k v] l IH]; intros ps H; cbn in H.
  - injection H as <-. split_and!; [done|constructor|done].
  - apply res_bind_ok in H as (u & Hu & H). apply res_bind_ok in H as (ps' & Hps & [= <-]).
    pose proof (secret_key_ident_ok k u Hu) as [-> Hw]. destruct (IH ps' Hps) as (-> & Hf & Hx).
    split_and!; [done|by constructor|]. cbn. by rewrite Hu.
Qed.

Lemma extra_parts_err c e : extra_parts up (cc_extra c) = Err e -> extra_ok up c = false.
Proof using Type.
  unfold extra_ok. induction (cc_extra c) as [|[k v] l IH]; intros H; cbn in H; [done|]. cbn.
  destruct (secret_key_ident up k); cbn in *; [|done]. destruct (extra_parts up l); [done|]. by apply IH.
Qed.

Lemma lit_field_text key v : option_text <$> lit_field key v = opt_part key v.
Proof using Type. by destruct v. Qed.

Lemma bool_field_text v :
  option_text <$> bool_field "USE_SSL" v
  = match v with Some b => [str "USE_SSL " ++ (if b : bool then str "true" else str "false")] | None => [] end.
Proof using Type. by destruct v as [[]|]. Qed.

Lemma create_secret_spec k name cred o :
  match create_secret_sql (provider_of up k) name cred o with
  | Ok r => exists c, from_scoped cred = Ok c /\ has_keys k c = true /\ extra_ok up c = true
      /\ Forall Option_ok (extra_fields up c)
      /\ r = Some (secret_text name (option_text <$> secret_fields up k c o (cr_prefix cred)))
  | Err e => forall c, from_scoped cred = Ok c -> has_keys k c && extra_ok up c = false
  end.
Proof using Type.
  destruct k; cbn [provider_of S3Provider AzureProvider GcsProvider create_secret_sql];
    unfold s3_create_secret_sql, az_create_secret_sql, gcs_create_secret_sql, has_keys;
    (destruct (from_scoped cred) as [c|e]; [|done]); cbn [res_bind];
    [destruct (cc_key_id c) as [kid|] eqn:E1; cbn [ok_or res_bind]; [|by intros ? [= <-]; rewrite E1];
     destruct (cc_secret c) as [sec|] eqn:E2; cbn [ok_or res_bind]; [|by intros ? [= <-]; rewrite E1, E2]
    |destruct (cc_connection_string c) as [con|] eqn:E1; cbn [ok_or res_bind]; [|by intros ? [= <-]; rewrite E1]
    |destruct (cc_key_id c) as [kid|] eqn:E1; cbn [ok_or res_bind]; [|by intros ? [= <-]; rewrite E1];
     destruct (cc_secret c) as [sec|] eqn:E2; cbn [ok_or res_bind]; [|by intros ? [= <-]; rewrite E1, E2]];
    (destruct (extra_parts up (cc_extra c)) as [ps|e] eqn:Ex; cbn [res_bind];
     [|intros ? [= <-]; rewrite (extra_parts_err _ _ Ex); apply andb_false_r]);
    apply extra_parts_ok in Ex as (-> & Hf & Hx); exists c; (split_and!; [done| |done|done|]); rewrite ?E1, ?E2; try done;
    f_equal; f_equal; unfold secret_fields; rewrite ?E1, ?E2, !fmap_cons, !fmap_app, ?lit_field_text, ?bool_field_text; cbn [app];
    rewrite <- ?app_assoc; done.
Qed.

Lemma secret_fields_ok k c o prefix : Forall Option_ok (extra_fields up c) -> Forall Option_ok (secret_fields up k c o prefix).
Proof using Type.
  assert (Hl : forall key v, Word (str key) -> Forall Option_ok (lit_field key v)) by (intros key [x|] ?; repeat constructor; by try apply H).
  assert (Hb : forall v, Forall Option_ok (bool_field "USE_SSL" v)) by (intros [[]|]; repeat constructor; done).
  intros Hx. destruct k; unfold secret_fields; (constructor; [repeat constructor; done|]); rewrite ?Forall_app;
    (split_and!; [..|done|]); try apply Hb; try (apply Hl; by repeat constructor); by repeat constructor.
Qed.
End minted.

(** C15: the statement that installs a job's storage secret is exactly one [CREATE SECRET]
    with the intended options.  Whatever bytes the requester puts into the credential, its
    extra options and its prefix, and whatever the configuration holds, the text a cloud
    provider generates reads as a single statement that creates the named secret with the
    credential's values, the configured defaults where it has none, its extra options and
    its scope: no value can end a literal, add an option or start another statement.  A
    statement is generated exactly when the credential decodes, has the keys the provider
    needs and every extra option name is an identifier. *)
Theorem minted_secret_exact {J : CredentialJson} (up : bytes -> bytes)
    (k : CloudKind) (name : bytes) (cred : ScopedCredential) (o : ProviderOptions) :
  Word name ->
  match create_secret_sql (provider_of up k) name cred o with
  | Ok r => exists c sql, from_scoped cred = Ok c /\ has_keys k c = true /\ extra_ok up c = true /\ r = Some sql
      /\ read_script sql = Some [SSecret name (secret_fields up k c o (cr_prefix cred))]
  | Err e => forall c, from_scoped cred = Ok c -> has_keys k c && extra_ok up c = false
  end.
Proof.
  intros Hn. pose proof (create_secret_spec up k name cred o) as H.
  destruct (create_secret_sql (provider_of up k) name cred o) as [r|e]; [|done].
  destruct H as (c & Hc & Hk & Hx & Hf & ->). exists c. eexists. split_and!; [done..|].
  apply script_reads, script_one, secret_statement; [done|by destruct k|by apply secret_fields_ok].
Qed.

(** ** Sealed tokens *)

Section sealed.
Context {C : Crypto} {S : SealCrypto} {SL : SealLaws S} {J : CredentialJson} {JL : CredentialJsonLaws J} (up : bytes -> bytes).

Lemma hex_graphic bs : Forall (fun b => graphic b = true) (hex_encode bs).
Proof using Type.
  induction bs as [|b bs IH]; [constructor|]. rewrite hex_encode_cons.
  assert (Hd : forall n, 0 <= n < 16 -> graphic (hex_digit n) = true).
  { intros n Hn. unfold hex_digit, graphic. destruct (Z.ltb_spec n 10); rewrite byte_of_Z_small by lia; rewrite andb_true_iff, !Z.leb_le; lia. }
  pose proof (byte_val_range b). constructor; [apply Hd|constructor; [apply Hd|done]].
  - split; [apply Z.div_pos; lia|apply Z.div_lt_upper_bound; lia].
  - apply Z.mod_pos_bound. lia.
Qed.

Lemma sealed_token_graphic ephemeral nonce c pub : Forall (fun b => graphic b = true) (seal_token ephemeral nonce c pub).
Proof using Type. unfold seal_token. apply Forall_app. split; [repeat constructor|apply hex_graphic]. Qed.

Lemma token_trimmed ephemeral nonce c pub : trim_start (seal_token ephemeral nonce c pub) = seal_token ephemeral nonce c pub.
Proof using Type. unfold seal_token. by apply trim_start_graphic. Qed.

Lemma seal_token_sealed ephemeral nonce c pub : is_sealed_token (seal_token ephemeral nonce c pub) = true.
Proof using Type. unfold is_sealed_token. rewrite token_trimmed. apply starts_with_spec. by eexists. Qed.

Lemma unseal_token ephemeral nonce c sk : unseal (seal_token ephemeral nonce c (x_public sk)) sk = Ok c.
Proof using SL JL.
  unfold unseal. rewrite token_trimmed.
  rewrite (proj2 (starts_with_spec _ _)) by (by eexists). unfold seal_token. rewrite drop_app_length, blob_hex_roundtrip. cbn [ok_or res_bind].
  rewrite open_seal. cbn [ok_or res_bind]. by rewrite parse_cred_json.
Qed.

Lemma object_token c : trim (to_token c) = to_token c /\ is_sealed_token (to_token c) = false /\ starts_with (str "{") (to_token c) = true.
Proof using JL.
  unfold to_token. destruct (cred_json_object c) as (s & ->). change (str "{" ++ s ++ str "}") with (Byte.x7b :: s ++ [Byte.x7d]). split_and!.
  - by apply trim_graphic.
  - unfold is_sealed_token. by rewrite trim_start_graphic.
  - done.
Qed.

Lemma from_scoped_token p c prefix e : from_scoped (mkCredential p (to_token c) prefix e) = Ok c.
Proof using JL.
  destruct (object_token c) as (Ht & Hs & Hb). unfold from_scoped. cbn [cr_token]. rewrite Ht, Hs, Hb. cbn [negb].
  rewrite bool_decide_false; [|by intros E; rewrite E in Hb]. cbn [orb]. unfold to_token. by rewrite parse_cred_json.
Qed.
End sealed.

(** A sealed credential reaches the engine of the worker it was sealed for and nobody
    else's.  The token a requester seals to a worker's key is opened by that worker, just
    before the secret is made, to the requester's credential with the same provider,
    prefix and expiry.  A worker without a sealing key refuses the job, and no cloud
    provider ever makes a secret from a token that is still sealed. *)
Theorem sealed_credential_roundtrip {C : Crypto} {S : SealCrypto} {SL : SealLaws S} {J : CredentialJson} {JL : CredentialJsonLaws J}
    (up : bytes -> bytes) (s : StorageSetup) (sk ephemeral : x_secret) (nonce : bytes) (now : Z) (provider : bytes)
    (c : CloudCredential) (prefix : bytes) (ttl : Z) (cred : ScopedCredential) :
  sealed_credential ephemeral nonce now provider (x_public sk) c prefix ttl = Some cred ->
  (ss_sealing s = Some sk ->
     exists cred', resolve_credential s cred = Ok cred' /\ from_scoped cred' = Ok c
       /\ cr_provider cred' = provider /\ cr_prefix cred' = prefix /\ cr_expires_at cred' = now + ttl)
  /\ (ss_sealing s = None -> resolve_credential s cred = Err SealingKeyUnavailable)
  /\ (forall k name o, create_secret_sql (provider_of up k) name cred o = Err SealingKeyUnavailable).
Proof.
  unfold sealed_credential, expiry, checked_add. destruct (decide (now + ttl <= umax 64)); [|done]. intros [= <-]. split_and!.
  - intros Hk. unfold resolve_credential. cbn [cr_token]. rewrite seal_token_sealed. cbn [negb]. rewrite Hk. cbn [ok_or res_bind].
    rewrite unseal_token. cbn [res_bind]. eexists. split_and!; [reflexivity|apply from_scoped_token|done..].
  - intros Hk. unfold resolve_credential. cbn [cr_token]. rewrite seal_token_sealed. cbn [negb]. by rewrite Hk.
  - assert (Hf : from_scoped (mkCredential provider (seal_token ephemeral nonce c (x_public sk)) prefix (now + ttl)) = Err SealingKeyUnavailable).
    { unfold from_scoped. cbn [cr_token]. rewrite trim_all_graphic by apply sealed_token_graphic. by rewrite seal_token_sealed. }
    intros [] name o; cbn [provider_of create_secret_sql S3Provider AzureProvider GcsProvider];
      unfold s3_create_secret_sql, az_create_secret_sql, gcs_create_secret_sql; by rewrite Hf.
Qed.

(** ** Rewriting a query *)

(** A query as its text outside literals and its literals, none of them with a quote
    inside. *)
Fixpoint render (segs : list (bytes * bytes)) : bytes :=
  match segs with [] => [] | (lit, plain) :: segs' => [quote] ++ lit ++ [quote] ++ plain ++ render segs' end.

Definition no_quote (s : bytes) : Prop := quote ∉ s.
Definition Segs_ok (uris : list bytes) (segs : list (bytes * bytes)) : Prop :=
  Forall (fun e => no_quote e.1 /\ no_quote e.2 /\ e.2 ∉ uris) segs.

Definition subst_one (s : SignedInput) (e : bytes * bytes) : bytes * bytes :=
  (if bool_decide (e.1 = si_uri s) then si_url s else e.1, e.2).

Lemma escape_plain s : no_quote s -> escape s = s.
Proof.
  unfold no_quote, escape. induction s as [|b s IH]; [done|]. intros [Hb H]%not_elem_of_cons.
  cbn [fmap list_fmap mjoin list_join]. rewrite bool_decide_false by done. cbn [app]. f_equal. by apply IH.
Qed.

Lemma literal_prefix u x rest : no_quote u -> no_quote x -> starts_with (u ++ [quote]) (x ++ quote :: rest) = bool_decide (x = u).
Proof.
  intros Hu. revert u Hu. induction x as [|b x IH]; intros u Hu Hx.
  - destruct u as [|c u]; cbn [app starts_with]; [by rewrite decide_True|]. apply not_elem_of_cons in Hu as [Hc _].
    rewrite decide_False by done. by rewrite bool_decide_false.
  - apply not_elem_of_cons in Hx as [Hb Hx]. destruct u as [|c u]; cbn [app starts_with].
    + rewrite decide_False by done. by rewrite bool_decide_false.
    + apply not_elem_of_cons in Hu as [Hc Hu]. destruct (decide (c = b)) as [->|Hn].
      * rewrite IH by done. apply bool_decide_ext. split; [by intros ->|by intros [= ->]].
      * by rewrite bool_decide_false by congruence.
Qed.

Lemma open_prefix u x : no_quote x -> starts_with (u ++ [quote]) x = false.
Proof.
  intros Hx. apply not_true_is_false. intros [r E]%starts_with_spec. apply Hx. rewrite E. set_solver.
Qed.

Lemma replace_skip from to n a b : length a = n -> replace_from from to n (a ++ b) = replace_from from to 0 b.
Proof. revert n. induction a as [|x a IH]; intros n <-; [done|]. cbn [length app replace_from]. by apply IH. Qed.

Section rewriting.
Context (u v : bytes) (Hu : no_quote u).
Let pat := [quote] ++ u ++ [quote].
Let new := [quote] ++ v ++ [quote].

Lemma replace_plain p rest : no_quote p -> replace_from pat new 0 (p ++ rest) = p ++ replace_from pat new 0 rest.
Proof using Type.
  induction p as [|b p IH]; [done|]. intros [Hb Hp]%not_elem_of_cons. assert (starts_with pat (b :: p ++ rest) = false) as E.
  { unfold pat. cbn [app starts_with]. by rewrite decide_False. }
  cbn [app replace_from]. rewrite E. f_equal. by apply IH.
Qed.

(** A literal that is the pattern is replaced, any other is copied with the text after it. *)
Lemma replace_segs segs : Segs_ok [u] segs -> replace_from pat new 0 (render segs) = render (subst_one (mkSignedInput u v) <$> segs).
Proof using Hu.
  induction segs as [|[l p] segs IH]; [done|]. intros [(Hl & Hp & Hne) Hs]%Forall_cons. cbn [fst snd] in *.
  assert (Hpre : forall x rest, starts_with pat (quote :: x ++ rest) = starts_with (u ++ [quote]) (x ++ rest)).
  { intros x rest. unfold pat. cbn [app starts_with]. by rewrite decide_True. }
  cbn [render fmap list_fmap app replace_from]. rewrite Hpre, literal_prefix by done. unfold subst_one at 1. cbn [fst snd si_uri si_url].
  assert (Htail : replace_from pat new 0 (p ++ render segs) = p ++ render (subst_one (mkSignedInput u v) <$> segs)).
  { rewrite replace_plain by done. by rewrite IH. }
  case_bool_decide as E.
  - subst l. unfold new at 1. rewrite <- !app_assoc. cbn [app]. do 3 f_equal.
    replace (u ++ quote :: p ++ render segs) with ((u ++ [quote]) ++ p ++ render segs) by (by rewrite <- app_assoc).
    rewrite replace_skip; [done|]. unfold pat. rewrite !length_app. cbn. lia.
  - cbn [app]. f_equal. rewrite replace_plain by done. f_equal. cbn [replace_from]. rewrite Hpre.
    assert (starts_with (u ++ [quote]) (p ++ render segs) = false) as ->; [|by rewrite Htail].
    destruct segs as [|[l' p'] segs]; cbn [render app].
    + rewrite app_nil_r. by apply open_prefix.
    + rewrite literal_prefix by done. apply bool_decide_false. set_solver.
Qed.
End rewriting.

(** The URL of a literal: that of the first signed input with this address. *)
Definition url_of (signed : list SignedInput) (l : bytes) : bytes :=
  match List.find (fun s => bool_decide (si_uri s = l) && negb (bool_decide (si_uri s = []))) signed with
  | Some s => si_url s
  | None => l
  end.

Lemma url_of_unsigned signed l : l ∉ si_uri <$> signed -> url_of signed l = l.
Proof.
  unfold url_of. induction signed as [|s signed IH]; [done|]. rewrite fmap_cons. intros [Hs H]%not_elem_of_cons. cbn [List.find].
  rewrite bool_decide_false by done. by apply IH.
Qed.

Definition Signed_ok (signed : list SignedInput) : Prop :=
  Forall (fun s => no_quote (si_uri s) /\ no_quote (si_url s) /\ si_url s ∉ si_uri <$> signed) signed.

Lemma rewrite_pairs uris pairs p0 segs :
  (forall s, s ∈ pairs -> no_quote (si_uri s) /\ no_quote (si_url s) /\ si_uri s ∈ uris /\ si_url s ∉ uris) ->
  no_quote p0 -> Segs_ok uris segs ->
  foldl (fun out s => match si_uri s with [] => out | _ => replace (sql_lit (si_uri s)) (sql_lit (si_url s)) out end) (p0 ++ render segs) pairs
  = p0 ++ render ((fun e => (url_of pairs e.1, e.2)) <$> segs).
Proof.
  revert segs. induction pairs as [|s pairs IH]; intros segs Hp H0 Hs; cbn [foldl].
  - f_equal. f_equal. rewrite <- (list_fmap_id segs) at 1. apply list_fmap_ext. by intros ? [] _.
  - destruct (Hp s) as (Hu & Hv & Hin & Hout); [apply elem_of_cons; by left|].
    assert (Hu1 : forall ps, url_of (s :: ps) (si_uri s) = match si_uri s with [] => url_of ps (si_uri s) | _ => si_url s end).
    { intros ps. unfold url_of. cbn [List.find]. rewrite bool_decide_true by done. by destruct (si_uri s). }
    destruct (si_uri s) as [|x u] eqn:E.
    + rewrite IH; [|intros; apply Hp; apply elem_of_cons; by right|done|done]. f_equal. f_equal. apply list_fmap_ext. intros ? [l p] _. cbn [fst snd]. f_equal.
      unfold url_of. cbn [List.find]. rewrite E. by rewrite andb_false_r.
    + rewrite <- E in *. replace (sql_lit (si_uri s)) with ([quote] ++ si_uri s ++ [quote]) by (unfold sql_lit; by rewrite escape_plain).
      replace (sql_lit (si_url s)) with ([quote] ++ si_url s ++ [quote]) by (unfold sql_lit; by rewrite escape_plain).
      unfold replace. rewrite replace_plain by done. rewrite replace_segs; [|done|].
      2: { eapply Forall_impl; [exact Hs|]. intros e (? & ? & ?). split_and!; [done|done|]. intros Hx%list_elem_of_singleton. by rewrite Hx in *. }
      destruct s as [u' v']. cbn [si_uri si_url] in *. rewrite IH; [|intros; apply Hp; apply elem_of_cons; by right|done|].
      * f_equal. f_equal. rewrite <- list_fmap_compose. apply list_fmap_ext. intros ? [l p] _. cbn [compose fst snd subst_one si_uri si_url].
        f_equal. case_bool_decide as El.
        -- subst l. rewrite Hu1. apply url_of_unsigned. intros (s' & -> & Hs')%list_elem_of_fmap. apply Hout.
           destruct (Hp s') as (_ & _ & ? & _); [apply elem_of_cons; by right|done].
        -- unfold url_of. cbn [List.find si_uri]. by rewrite bool_decide_false.
      * apply Forall_fmap. eapply Forall_impl; [exact Hs|]. intros [l p] (? & ? & ?). cbn [compose fst snd subst_one si_uri si_url] in *.
        split_and!; [by case_bool_decide|done|done].
Qed.

Lemma find_filter {A} (p : A -> bool) l : List.find p l = head (List.filter p l).
Proof. induction l as [|x l IH]; [done|]. cbn. by destruct (p x). Qed.

(** In presigned mode the worker reads exactly the signed objects.  For a query whose
    literals and signed addresses contain no quotes, rewriting replaces every literal that
    is a pinned object by its signed URL - the first one given for it, whatever the order
    and lengths of the others, also when one address is a prefix of another - and leaves
    every other literal and all text between the literals as it was, as long as no signed
    URL is itself a pinned address and no pinned address stands bare between two
    literals. *)
Theorem signed_urls_rewritten (p0 : bytes) (segs : list (bytes * bytes)) (signed : list SignedInput) :
  no_quote p0 -> Segs_ok (si_uri <$> signed) segs -> Signed_ok signed ->
  rewrite_signed_urls (p0 ++ render segs) signed = p0 ++ render ((fun e => (url_of signed e.1, e.2)) <$> segs).
Proof.
  intros H0 Hs Hg. unfold rewrite_signed_urls. rewrite (rewrite_pairs (si_uri <$> signed)); [|..|done|done].
  - f_equal. f_equal. apply list_fmap_ext. intros ? [l p] _. cbn [fst snd]. f_equal. unfold url_of. rewrite !find_filter, isort_stable; [done|].
    intros a b Ha Hb. apply andb_true_iff in Ha as [Ha%bool_decide_eq_true _], Hb as [Hb%bool_decide_eq_true _].
    apply Nat.leb_le. by rewrite Ha, Hb.
  - intros s Hin%elem_of_isort. unfold Signed_ok in Hg. rewrite Forall_forall in Hg. destruct (Hg s Hin) as (? & ? & ?).
    split_and!; [done|done| |done]. apply list_elem_of_fmap. by exists s.
Qed.

(** ** Examples and witnesses *)

(** A credential as tagged texts between braces. *)
Definition put_opt (o : option bytes) : bytes := match o with Some s => Byte.x01 :: put_text s | None => [Byte.x00] end.
Definition get_opt (s : bytes) : option (option bytes * bytes) :=
  match s with
  | Byte.x00 :: r => Some (None, r)
  | Byte.x01 :: r => '(t, r) ← get_text r; Some (Some t, r)
  | _ => None
  end.
Lemma get_put_opt o r : get_opt (put_opt o ++ r) = Some (o, r).
Proof. destruct o as [s|]; [|done]. cbn [put_opt app get_opt]. by rewrite get_put. Qed.

Fixpoint put_pairs (l : list (bytes * bytes)) : bytes :=
  match l with [] => [Byte.x7d] | (k, v) :: l' => Byte.x2c :: put_text k ++ put_text v ++ put_pairs l' end.
Fixpoint get_pairs (fuel : nat) (s : bytes) : option (list (bytes * bytes)) :=
  match fuel, s with
  | Datatypes.S f, Byte.x2c :: r =>
      '(k, r) ← get_text r; '(v, r) ← get_text r; l ← get_pairs f r; Some ((k, v) :: l)
  | Datatypes.S f, [Byte.x7d] => Some []
  | _, _ => None
  end.
Lemma get_put_pairs l fuel : (length l < fuel)%nat -> get_pairs fuel (put_pairs l) = Some l.
Proof.
  revert fuel. induction l as [|[k v] l IH]; intros [|f] Hf; try (cbn in Hf; lia); [done|].
  cbn [put_pairs get_pairs]. rewrite get_put. cbn [mbind option_bind]. rewrite get_put. cbn [mbind option_bind].
  rewrite IH by (cbn in Hf; lia). done.
Qed.
Lemma put_pairs_length l : (length l < length (put_pairs l))%nat.
Proof. induction l as [|[k v] l IH]; cbn [put_pairs length]; [lia|]. rewrite !length_app. lia. Qed.
Lemma put_pairs_last l : exists s, put_pairs l = s ++ str "}".
Proof.
  induction l as [|[k v] l (s & IH)]; [by exists []|]. exists (Byte.x2c :: put_text k ++ put_text v ++ s).
  cbn [put_pairs app]. by rewrite IH, <- !app_assoc.
Qed.

Definition ssl_text (b : option bool) : option bytes := (fun x : bool => if x then str "t" else str "f") <$> b.
Definition text_ssl (o : option bytes) : option bool := (fun t => bool_decide (t = str "t")) <$> o.

#[export] Instance toy_cred_json : CredentialJson := {|
  cred_json c := str "{" ++ put_opt (cc_key_id c) ++ put_opt (cc_secret c) ++ put_opt (cc_session_token c) ++ put_opt (cc_connection_string c)
    ++ put_opt (cc_region c) ++ put_opt (cc_endpoint c) ++ put_opt (cc_url_style c) ++ put_opt (ssl_text (cc_use_ssl c)) ++ put_pairs (cc_extra c);
  parse_cred s :=
    match ('(a, s) ← get_opt (drop 1 s); '(b, s) ← get_opt s; '(c, s) ← get_opt s; '(d, s) ← get_opt s; '(e, s) ← get_opt s;
           '(f, s) ← get_opt s; '(g, s) ← get_opt s; '(h, s) ← get_opt s; x ← get_pairs (length s) s;
           Some (mkCloud a b c d e f g (text_ssl h) x)) with Some c => Ok c | None => Err (str "malformed") end;
|}.
#[export] Instance toy_cred_json_laws : CredentialJsonLaws toy_cred_json.
Proof.
  split.
  - intros [a b c d e f g h x]. cbn [cred_json parse_cred toy_cred_json cc_key_id cc_secret cc_session_token cc_connection_string cc_region
      cc_endpoint cc_url_style cc_use_ssl cc_extra]. rewrite drop_app_length' by done.
    do 8 (rewrite get_put_opt; cbn [mbind option_bind]). rewrite get_put_pairs by apply put_pairs_length. cbn. by destruct h as [[]|].
  - intros c. destruct (put_pairs_last (cc_extra c)) as (s & E). cbn [cred_json toy_cred_json]. rewrite E.
    exists (put_opt (cc_key_id c) ++ put_opt (cc_secret c) ++ put_opt (cc_session_token c) ++ put_opt (cc_connection_string c)
      ++ put_opt (cc_region c) ++ put_opt (cc_endpoint c) ++ put_opt (cc_url_style c) ++ put_opt (ssl_text (cc_use_ssl c)) ++ s).
    by rewrite <- !app_assoc.
Qed.

Definition hostile_text : bytes := str "k'); ATTACH 'x.db' (READ_ONLY); --".
Definition hostile_cloud : CloudCredential :=
  mkCloud (Some hostile_text) (Some (str "'")) None None None None None (Some false) [(str "kms_key_id", hostile_text)].
Definition hostile_credential : ScopedCredential := mkCredential (str "s3") (to_token hostile_cloud) (str " bucket/it's ") 0.

Lemma minted_secret_exact_witness :
  Word (str "job_secret")
  /\ match create_secret_sql (provider_of to_ascii_uppercase KS3) (str "job_secret") hostile_credential default_ProviderOptions with
     | Ok r => exists c sql, from_scoped hostile_credential = Ok c /\ has_keys KS3 c = true /\ extra_ok to_ascii_uppercase c = true /\ r = Some sql
         /\ read_script sql = Some [SSecret (str "job_secret") (secret_fields to_ascii_uppercase KS3 c default_ProviderOptions (cr_prefix hostile_credential))]
     | Err e => forall c, from_scoped hostile_credential = Ok c -> has_keys KS3 c && extra_ok to_ascii_uppercase c = false
     end.
Proof.
  assert (H : Word (str "job_secret")) by (split; [done|repeat constructor]). apply (conj H).
  apply (minted_secret_exact to_ascii_uppercase KS3 (str "job_secret") hostile_credential default_ProviderOptions H).
Defined.

(** The text in full: one statement, five options, the hostile values inside literals. *)
Example hostile_values_stay_values :
  match create_secret_sql (provider_of to_ascii_uppercase KS3) (str "job_secret") hostile_credential default_ProviderOptions with
  | Ok (Some sql) => read_script sql
  | _ => None
  end = Some [SSecret (str "job_secret")
          [(str "TYPE", SvWord (str "s3")); (str "KEY_ID", SvLit hostile_text); (str "SECRET", SvLit (str "'"));
           (str "USE_SSL", SvWord (str "false")); (str "KMS_KEY_ID", SvLit hostile_text); (str "SCOPE", SvLit (str "s3://bucket/it's/"))]].
Proof. vm_compute. reflexivity. Qed.

Example hostile_key_refused :
  secret_key_ident to_ascii_uppercase (str "x) AS y; ATTACH") = Err (InvalidSecretKey (str "x) AS y; ATTACH")).
Proof. vm_compute. reflexivity. Qed.

Lemma sealed_credential_roundtrip_witness :
  exists cred, sealed_credential (C := toy_crypto) (S := toy_seal) Byte.x09 (le_bytes 12 1) 1000 (str "s3") (x_public (SealCrypto := toy_seal) Byte.x07)
      hostile_cloud (str "bucket/") 60 = Some cred
    /\ exists cred', resolve_credential (C := toy_crypto) (with_sealing strict (Byte.x07 : x_secret (SealCrypto := toy_seal))) cred = Ok cred'
         /\ from_scoped cred' = Ok hostile_cloud /\ cr_provider cred' = str "s3" /\ cr_prefix cred' = str "bucket/" /\ cr_expires_at cred' = 1000 + 60.
Proof.
  eexists. split; [reflexivity|].
  eapply (sealed_credential_roundtrip (C := toy_crypto) (S := toy_seal) to_ascii_uppercase
            (with_sealing strict (Byte.x07 : x_secret (SealCrypto := toy_seal))) Byte.x07 Byte.x09 (le_bytes 12 1) 1000 (str "s3")
            hostile_cloud (str "bucket/") 60); reflexivity.
Defined.

Definition two_objects : list SignedInput :=
  [mkSignedInput (str "s3://b/k") (str "https://h/k?sig=1"); mkSignedInput (str "s3://b/k2") (str "https://h/k2?sig=2")].

Lemma signed_urls_rewritten_witness :
  rewrite_signed_urls (str "SELECT * FROM " ++ render [(str "s3://b/k2", str " JOIN "); (str "s3://b/k", str " ON x="); (str "k", [])]) two_objects
  = str "SELECT * FROM " ++ render [(str "https://h/k2?sig=2", str " JOIN "); (str "https://h/k?sig=1", str " ON x="); (str "k", [])].
Proof.
  refine (signed_urls_rewritten (str "SELECT * FROM ") [(str "s3://b/k2", str " JOIN "); (str "s3://b/k", str " ON x="); (str "k", [])] two_objects _ _ _);
    unfold Segs_ok, Signed_ok, no_quote; decide_closed.
Defined.

(** A literal that quotes a pinned address inside it is changed too. *)
Example quoted_address_inside_literal :
  rewrite_signed_urls (str "SELECT 'see ''s3://b/k'' there'") two_objects = str "SELECT 'see ''https://h/k?sig=1'' there'".
Proof. vm_compute. reflexivity. Qed.

(** Options configured under an alias never reach the provider. *)
Definition gs_config : StorageConfig :=
  default_StorageConfig <| sto_enabled_providers := [str "gs"] |>
    <| sto_provider_options := [(str "gs", [(str "endpoint", str "storage.internal")])] |>.
Example alias_options_lost :
  let r := ss_providers (from_config (S := toy_seal) to_ascii_uppercase gs_config) in
  is_Some (rg_providers r !! str "gcs") /\ rg_providers r !! str "gs" = None
  /\ po_endpoint (options_for r (str "gs")) = Some (str "storage.internal") /\ po_endpoint (options_for r (str "gcs")) = None.
Proof. split_and!; [|vm_compute; reflexivity..]. eexists. vm_compute. reflexivity. Qed.
