(* ===== verification/DuckEngine.v ===== *)
(** * The locked-down engine (node/duckdb_engine.rs and the statements of node/engine.rs)

    How the engine prepares a connection before the untrusted query runs on it, and how
    the result is pulled into memory.  DuckDB is third-party: the class [DuckDb] has the
    calls the code makes, on a connection the calls change; [DuckDbLaws] is the documented
    effect of the statements on the connection's settings.  A result set may be
    endless: [fetch] is one step of a cursor and the loop takes fuel. *)

From S2P Require Import Prelude Bytes Crypto Text Proto ConfigData Worker RunQuery Sql Sealing DataSource.
#[local] Open Scope duckton_scope.

Inductive EngineError := Exec (msg : bytes) | Rejected (msg : bytes).

(** The values DuckDB hands out ([duckdb::types::ValueRef]); a [Float] is its 32-bit
    pattern, a [Double] its 64-bit pattern, anything else is its debug text. *)
Inductive ValueRef :=
| RNull | RBoolean (b : bool)
| RTinyInt (i : Z) | RSmallInt (i : Z) | RInt (i : Z) | RBigInt (i : Z) | RHugeInt (i : Z)
| RUTinyInt (i : Z) | RUSmallInt (i : Z) | RUInt (i : Z) | RUBigInt (i : Z)
| RFloat (bits : Z) | RDouble (bits : Z) | RText (b : bytes) | RBlob (b : bytes) | ROther (debug : bytes).

Class DuckDb := {
  Conn : Type;
  Cursor : Type;
  open_in_memory : result Conn bytes;
  library_version : Conn -> result bytes bytes;
  execute_batch : Conn -> bytes -> Conn * result unit bytes;
  Prepared : Type;
  prepare : Conn -> bytes -> result Prepared bytes;
  query : Prepared -> result Cursor bytes;
  column_names : Cursor -> list bytes;
  fetch : Cursor -> result (option (list (result ValueRef bytes) * Cursor)) bytes;
  mint_temp_dir : result bytes bytes;                             (* a fresh private directory *)
}.

(** ** Values *)

(** [String::from_utf8_lossy]: each maximal invalid part becomes U+FFFD. *)
Definition REPLACEMENT : bytes := byte_of_Z <$> [239; 191; 189].
Definition cont (lo hi : Z) (b : byte) : bool := (lo <=? byte_val b) && (byte_val b <=? hi).

(** How many continuation bytes a first byte wants, and the range of the first of them. *)
Definition lead (b : byte) : option (nat * Z * Z) :=
  let v := byte_val b in
  if (194 <=? v) && (v <=? 223) then Some (1%nat, 128, 191)
  else if v =? 224 then Some (2%nat, 160, 191)
  else if v =? 237 then Some (2%nat, 128, 159)
  else if (225 <=? v) && (v <=? 239) then Some (2%nat, 128, 191)
  else if v =? 240 then Some (3%nat, 144, 191)
  else if (241 <=? v) && (v <=? 243) then Some (3%nat, 128, 191)
  else if v =? 244 then Some (3%nat, 128, 143)
  else None.

(** [acc] holds the bytes of the character being read, [want] continuation bytes to come,
    the next one in [lo..hi]. *)
Fixpoint lossy_from (acc : bytes) (want : nat) (lo hi : Z) (s : bytes) : bytes :=
  match s with
  | [] => match acc with [] => [] | _ => REPLACEMENT end
  | b :: s' =>
      let fresh :=
        if byte_val b <? 128 then b :: lossy_from [] 0 128 191 s'
        else match lead b with
             | Some (n, l, h) => lossy_from [b] n l h s'
             | None => REPLACEMENT ++ lossy_from [] 0 128 191 s'
             end in
      match acc with
      | [] => fresh
      | _ =>
          if cont lo hi b
          then match want with
               | 1%nat => acc ++ [b] ++ lossy_from [] 0 128 191 s'
               | _ => lossy_from (acc ++ [b]) (want - 1) 128 191 s'
               end
          else REPLACEMENT ++ fresh
      end
  end.
Definition from_utf8_lossy (s : bytes) : bytes := lossy_from [] 0 128 191 s.

(** [f as f64] on bit patterns *)
Definition widen (bits : Z) : Z :=
  let sign := Z.shiftl (Z.shiftr bits 31) 63 in
  let e := Z.land (Z.shiftr bits 23) 255 in
  let m := Z.land bits 8388607 in
  if e =? 255 then sign + Z.shiftl 2047 52 + (if m =? 0 then 0 else Z.lor (Z.shiftl 1 51) (Z.shiftl m 29))
  else if e =? 0
       then if m =? 0 then sign
            else let k := Z.log2 m in sign + Z.shiftl (k + 874) 52 + Z.shiftl (m - 2 ^ k) (52 - k)
       else sign + Z.shiftl (e + 896) 52 + Z.shiftl m 29.

Definition in_i64 (i : Z) : bool := (- 2 ^ 63 <=? i) && (i <? 2 ^ 63).

Definition value_from_ref (v : ValueRef) : Value :=
  match v with
  | RNull => VNull
  | RBoolean b => VBool b
  | RTinyInt i | RSmallInt i | RInt i | RBigInt i => VInt i
  | RHugeInt i => if in_i64 i then VInt i else VText (show_int i)
  | RUTinyInt i | RUSmallInt i | RUInt i => VInt i
  | RUBigInt i => if in_i64 i then VInt i else VText (show_int i)
  | RFloat f => VFloat (widen f)
  | RDouble f => VFloat f
  | RText b => VText (from_utf8_lossy b)
  | RBlob b => VBlob b
  | ROther d => VText d
  end.

Definition value_estimated_size (v : Value) : Z :=
  match v with
  | VNull | VBool _ => 1
  | VInt _ | VFloat _ => 8
  | VText s => Z.of_nat (length s) + 1
  | VBlob b => Z.of_nat (length b)
  end.

(** ** The engine *)

Definition EXTENSION_HARDENING_SQL : bytes :=
  str "SET autoinstall_known_extensions=false; SET autoload_known_extensions=false; SET allow_community_extensions=false; SET allow_unsigned_extensions=false;".
Definition DENY_UNREDACTED_SECRETS_SQL : bytes := str "SET allow_unredacted_secrets=false;".
Definition LOCK_CONFIGURATION_SQL : bytes := str "SET lock_configuration=true;".

Section engine.
Context {C : Crypto} {S : SealCrypto} {J : CredentialJson} {D : DuckDb} (up : bytes -> bytes) (show_error : DataSourceError -> bytes).

(** One batch whose failure rejects the job, with the message's prefix. *)
Definition step (what : string) (sql : bytes) (c : Conn) : result Conn EngineError :=
  match execute_batch c sql with
  | (c', Ok _) => Ok c'
  | (_, Err e) => Err (Rejected (str what ++ str ": " ++ e))
  end.

Definition harden_extensions (c : Conn) : result Conn EngineError := step "extension hardening" EXTENSION_HARDENING_SQL c.

Definition load_text (ext : bytes) : bytes := str "LOAD " ++ ext ++ str ";".

(** [DuckDbEngine::with_setup]: the extensions are tried once, in order. *)
Fixpoint preload (require : bool) (exts : list bytes) (httpfs : bool) (c : Conn) : result bool EngineError :=
  match exts with
  | [] => Ok httpfs
  | ext :: exts' =>
      match execute_batch c (load_text ext) with
      | (c', Ok _) => preload require exts' (httpfs || bool_decide (to_ascii_lowercase ext = str "httpfs")) c'
      | (c', Err e) =>
          if require
          then Err (Exec (str "preload extension '" ++ ext ++ str "' failed at init: " ++ e
            ++ str " (install it in the worker image, or set storage.require_extensions=false)"))
          else preload require exts' httpfs c'
      end
  end.

Record DuckDbEngine := mkEngine { de_version : bytes; de_setup : StorageSetup }.

Definition without_encryption (s : StorageSetup) : StorageSetup :=
  mkSetup (ss_enable_remote_access s) (ss_preload_extensions s) (ss_allowed_local_paths s) (ss_require_extensions s)
    false (ss_providers s) (ss_sealing s) (ss_max_result_bytes s).

Definition with_setup (setup : StorageSetup) : result DuckDbEngine EngineError :=
  c <-? match open_in_memory with Ok c => Ok c | Err e => Err (Exec (str "open: " ++ e)) end ;;
  version <-? match library_version c with Ok v => Ok v | Err e => Err (Exec (str "version: " ++ e)) end ;;
  c1 <-? harden_extensions c ;;
  httpfs_loaded <-? preload (ss_require_extensions setup) (ss_preload_extensions setup) false c1 ;;
  Ok (mkEngine (str "duckdb-" ++ version)
        (if ss_temp_file_encryption setup && negb httpfs_loaded then without_encryption setup else setup)).

(** *** [run_locked], steps 1 to 8 *)

Definition budget_mb (lease : ExecLease) : Z := Z.max (el_memory_bytes lease / (1024 * 1024)) 64.

Definition budget_sql (lease : ExecLease) (setup : StorageSetup) (tmp_path : bytes) : bytes :=
  str "SET memory_limit='" ++ show_uint (budget_mb lease) ++ str "MB'; SET threads=" ++ show_uint (Z.max (el_threads lease) 1)
  ++ str "; SET temp_directory='" ++ tmp_path ++ str "';"
  ++ (if ss_temp_file_encryption setup then str " SET temp_file_encryption=true;" else [])
  ++ (if 0 <? el_max_spill_bytes lease then str " SET max_temp_directory_size='" ++ show_uint (el_max_spill_bytes lease) ++ str "B';" else []).

(** The [LOAD]s of one job; a failure counts only when extensions are required. *)
Fixpoint load_all_extensions (require : bool) (exts : list bytes) (c : Conn) : result Conn EngineError :=
  match exts with
  | [] => Ok c
  | ext :: exts' =>
      match execute_batch c (load_text ext) with
      | (c', Ok _) => load_all_extensions require exts' c'
      | (c', Err e) => if require then Err (Rejected (str "LOAD " ++ ext ++ str ": " ++ e)) else load_all_extensions require exts' c'
      end
  end.

Definition dirs_sql (paths : list bytes) : bytes :=
  str "SET allowed_directories=[" ++ join (str ", ") ((fun p => str "'" ++ escape p ++ str "'") <$> paths) ++ str "];".

Definition key_sql (name key : bytes) : bytes :=
  str "PRAGMA add_parquet_key('" ++ escape name ++ str "', '" ++ escape (from_utf8_lossy key) ++ str "');".

Fixpoint add_keys (keys : list (bytes * bytes)) (c : Conn) : result Conn EngineError :=
  match keys with
  | [] => Ok c
  | (name, key) :: keys' => c' <-? step "add_parquet_key" (key_sql name key) c ;; add_keys keys' c'
  end.

Definition install_secret (setup : StorageSetup) (cred : option ScopedCredential) (c : Conn) : result Conn EngineError :=
  match cred with
  | None => Ok c
  | Some cred =>
      match resolve_credential setup cred with
      | Err e => Err (Rejected (str "credential: " ++ show_error e))
      | Ok cred' =>
          match secret_sql_for (ss_providers setup) (str "job_secret") cred' with
          | Ok (Some sql) => step "create secret" sql c
          | Ok None => Ok c
          | Err e => Err (Rejected (str "credential: " ++ show_error e))
          end
      end
  end.

Definition external_sql (external : bool) : bytes :=
  str "SET enable_external_access=" ++ (if external then str "true" else str "false") ++ str ";".

Definition lockdown (lease : ExecLease) (setup : StorageSetup) (ctx : JobContext) (tmp_dir : bytes) (c0 : Conn) : result Conn EngineError :=
  let strict_local := match ss_allowed_local_paths setup with [] => true | _ => false end in
  c1 <-? step "budget setup" (budget_sql lease setup (escape tmp_dir)) c0 ;;
  c2 <-? harden_extensions c1 ;;
  c3 <-? load_all_extensions (ss_require_extensions setup) (ss_preload_extensions setup) c2 ;;
  c4 <-? (if strict_local then Ok c3 else step "allowed_directories" (dirs_sql (ss_allowed_local_paths setup)) c3) ;;
  c5 <-? add_keys (cx_parquet_keys ctx) c4 ;;
  c6 <-? install_secret setup (cx_credential ctx) c5 ;;
  c7 <-? step "external access" (external_sql (ss_enable_remote_access setup)) c6 ;;
  c8 <-? (if strict_local then step "disabled_filesystems" (str "SET disabled_filesystems='LocalFileSystem';") c7 else Ok c7) ;;
  c9 <-? step "redact secrets" DENY_UNREDACTED_SECRETS_SQL c8 ;;
  step "lock configuration" LOCK_CONFIGURATION_SQL c9.

(** *** Pulling the result *)

Definition ok_or_exec {A} (what : bytes) (r : result A bytes) : result A EngineError :=
  match r with Ok a => Ok a | Err e => Err (Exec (what ++ str ": " ++ e)) end.

(** [for i in 0..column_count]: every column must be there. *)
Fixpoint read_row (n i : nat) (row : list (result ValueRef bytes)) (materialized : Z) : result (list Value * Z) EngineError :=
  match n with
  | O => Ok ([], materialized)
  | Datatypes.S n' =>
      v <-? ok_or_exec (str "get col " ++ show_uint (Z.of_nat i)) (default (Err (str "invalid column index")) (row !! i)) ;;
      let value := value_from_ref v in
      let m := sat_add 64 materialized (value_estimated_size value) in
      rest <-? read_row n' (i + 1) row m ;;
      Ok (value :: rest.1, rest.2)
  end.

(** [None]: the cursor is not exhausted after [fuel] rows. *)
Fixpoint pull_rows (fuel : nat) (cap : Z) (columns : nat) (cur : Cursor) (materialized : Z) : option (result (list (list Value)) EngineError) :=
  match fuel with
  | O => None
  | Datatypes.S fuel' =>
      match fetch cur with
      | Err e => Some (Err (Exec (str "fetch: " ++ e)))
      | Ok None => Some (Ok [])
      | Ok (Some (row, cur')) =>
          match read_row columns 0 row materialized with
          | Err e => Some (Err e)
          | Ok (out_row, m) =>
              if negb (cap =? 0) && (cap <? m)
              then Some (Err (Exec (str "result exceeds max_result_bytes (" ++ show_uint cap
                     ++ str "): query produces too large a result to materialize")))
              else match pull_rows fuel' cap columns cur' m with
                   | Some (Ok rows) => Some (Ok (out_row :: rows))
                   | r => r
                   end
          end
      end
  end.

Definition run_query_text (fuel : nat) (setup : StorageSetup) (sql : bytes) (c : Conn) : option (result ResultSet EngineError) :=
  match (stmt <-? ok_or_exec (str "prepare") (prepare c sql) ;; ok_or_exec (str "query") (query stmt)) with
  | Err e => Some (Err e)
  | Ok cur =>
      let columns := column_names cur in
      match pull_rows fuel (ss_max_result_bytes setup) (length columns) cur 0 with
      | Some (Ok rows) => Some (Ok (mkResultSet columns rows))
      | Some (Err e) => Some (Err e)
      | None => None
      end
  end.

Definition query_text (sql : bytes) (ctx : JobContext) : bytes :=
  match cx_signed_inputs ctx with [] => sql | signed => rewrite_signed_urls sql signed end.

(** The job's own directory, or a fresh one. *)
Definition temp_dir (ctx : JobContext) : result bytes EngineError :=
  match cx_spill_dir ctx with
  | Some dir => Ok dir
  | None => match mint_temp_dir with Ok d => Ok d | Err e => Err (Rejected (str "temp dir: " ++ e)) end
  end.

Definition run_locked (fuel : nat) (sql : bytes) (lease : ExecLease) (setup : StorageSetup) (ctx : JobContext) : option (result ResultSet EngineError) :=
  match (c0 <-? ok_or_exec (str "open") open_in_memory ;; dir <-? temp_dir ctx ;; lockdown lease setup ctx dir c0) with
  | Err e => Some (Err e)
  | Ok c => run_query_text fuel setup (query_text sql ctx) c
  end.
End engine.

(** ** What the statements do *)

Definition apply_stmt (st : Stmt) (settings : bytes -> option SqlValue) : bytes -> option SqlValue :=
  match st with
  | SSet k v => fun x => if bool_decide (x = k) then Some v else settings x
  | _ => settings
  end.

(** [SET k=v] gives the option its value; nothing else the node sends changes one, and a
    [LOAD] that fails changes nothing. *)
Class DuckDbLaws (D : DuckDb) := {
  setting : Conn -> bytes -> option SqlValue;
  batch_settings c sql c' sts x :
    execute_batch c sql = (c', Ok tt) -> read_script sql = Some sts ->
    setting c' x = foldl (fun s st => apply_stmt st s) (setting c) sts x;
  load_settings c x c' e k : Word x -> execute_batch c (load_text x) = (c', Err e) -> setting c' k = setting c k;
}.

(** The settings a connection is meant to have when the query starts. *)
Definition true_word : SqlValue := SvWord (str "true").
Definition false_word : SqlValue := SvWord (str "false").
Definition budget_settings {S : SealCrypto} (lease : ExecLease) (setup : StorageSetup) (dir : bytes) : list (bytes * SqlValue) :=
  [(str "memory_limit", SvLit (show_uint (budget_mb lease) ++ str "MB")); (str "threads", SvWord (show_uint (Z.max (el_threads lease) 1)));
   (str "temp_directory", SvLit dir)]
  ++ (if ss_temp_file_encryption setup then [(str "temp_file_encryption", true_word)] else [])
  ++ (if 0 <? el_max_spill_bytes lease then [(str "max_temp_directory_size", SvLit (show_uint (el_max_spill_bytes lease) ++ str "B"))] else []).
Definition hardening_settings : list (bytes * SqlValue) :=
  [(str "autoinstall_known_extensions", false_word); (str "autoload_known_extensions", false_word);
   (str "allow_community_extensions", false_word); (str "allow_unsigned_extensions", false_word)].
Definition lockdown_settings {S : SealCrypto} (lease : ExecLease) (setup : StorageSetup) (dir : bytes) : list (bytes * SqlValue) :=
  budget_settings lease setup dir ++ hardening_settings
  ++ match ss_allowed_local_paths setup with [] => [] | l => [(str "allowed_directories", SvList l)] end
  ++ [(str "enable_external_access", if ss_enable_remote_access setup then true_word else false_word)]
  ++ match ss_allowed_local_paths setup with [] => [(str "disabled_filesystems", SvLit (str "LocalFileSystem"))] | _ => [] end
  ++ [(str "allow_unredacted_secrets", false_word); (str "lock_configuration", true_word)].

Definition sets (l : list (bytes * SqlValue)) : list Stmt := (fun e => SSet e.1 e.2) <$> l.

Lemma set_text k v :
  Word k -> match v with SvWord w => Word w | SvLit _ => True | SvList _ => False end ->
  script (str "SET " ++ k ++ str "=" ++ value_text v ++ str ";") (sets [(k, v)]).
Proof. intros Hk Hv. by apply script_one, set_scalar. Qed.

Lemma show_uint_plain n : 0 <= n -> no_quote (show_uint n).
Proof. intros Hn. by apply show_uint_no_sep. Qed.

Lemma digit_word d : 0 <= d < 10 -> is_word (digit d) = true.
Proof.
  intros Hd. unfold is_word, in_range, digit. rewrite !byte_of_Z_small by lia.
  rewrite (proj2 (Z.leb_le 48 (48 + d))), (proj2 (Z.leb_le (48 + d) 57)) by lia. done.
Qed.

Lemma show_uint_word n : 0 <= n -> Word (show_uint n).
Proof. intros Hn. split; [apply show_uint_nonempty|]. apply show_uint_digits; [done|]. apply digit_word. Qed.

Lemma lit_plain s : no_quote s -> sql_lit s = str "'" ++ s ++ str "'".
Proof. intros H. unfold sql_lit. by rewrite escape_plain. Qed.

Lemma no_quote_app a b : no_quote a -> no_quote b -> no_quote (a ++ b).
Proof. unfold no_quote. intros Ha Hb. rewrite elem_of_app. tauto. Qed.

Ltac solve_word := split; [done|repeat constructor].

Lemma budget_script {S : SealCrypto} lease setup dir :
  0 <= el_max_spill_bytes lease -> script (budget_sql lease setup (escape dir)) (sets (budget_settings lease setup dir)).
Proof.
  intros Hsp. unfold budget_sql, budget_settings.
  assert (Hmb : 0 <= budget_mb lease) by (unfold budget_mb; lia).
  pose proof (set_text (str "memory_limit") (SvLit (show_uint (budget_mb lease) ++ str "MB")) ltac:(solve_word) I) as H1.
  pose proof (set_text (str "threads") (SvWord (show_uint (Z.max (el_threads lease) 1))) ltac:(solve_word) (show_uint_word (Z.max (el_threads lease) 1) ltac:(lia))) as H2.
  pose proof (set_text (str "temp_directory") (SvLit dir) ltac:(solve_word) I) as H3.
  pose proof (script_app _ _ _ _ H1 (script_app _ _ _ _ (script_space _ _ H2) (script_space _ _ H3))) as H. clear H1 H2 H3.
  set (enc := if ss_temp_file_encryption setup then str " SET temp_file_encryption=true;" else []).
  set (cap := if 0 <? el_max_spill_bytes lease then _ else []).
  assert (He : script enc (sets (if ss_temp_file_encryption setup then [(str "temp_file_encryption", true_word)] else []))).
  { unfold enc. destruct (ss_temp_file_encryption setup); [|apply script_nil]. apply script_space, (set_text (str "temp_file_encryption") true_word); solve_word. }
  assert (Hc : script cap (sets (if 0 <? el_max_spill_bytes lease then [(str "max_temp_directory_size", SvLit (show_uint (el_max_spill_bytes lease) ++ str "B"))] else []))).
  { unfold cap. destruct (0 <? el_max_spill_bytes lease); [|apply script_nil]. apply script_space.
    pose proof (set_text (str "max_temp_directory_size") (SvLit (show_uint (el_max_spill_bytes lease) ++ str "B")) ltac:(solve_word) I) as H'.
    cbn [value_text] in H'. rewrite lit_plain in H' by (apply no_quote_app; [by apply show_uint_plain|by apply (bool_decide_unpack _)]).
    by rewrite <- !app_assoc in H'. }
  pose proof (script_app _ _ _ _ H (script_app _ _ _ _ He Hc)) as Hall. clear H He Hc.
  cbn [value_text] in Hall. rewrite (lit_plain (_ ++ str "MB")) in Hall by (apply no_quote_app; [by apply show_uint_plain|by apply (bool_decide_unpack _)]).
  unfold sets in *. rewrite <- !fmap_app in Hall. unfold sql_lit in Hall.
  repeat (rewrite <- app_assoc in Hall || rewrite <- app_comm_cons in Hall). exact Hall.
Qed.

Ltac read_closed := eapply script_closed; [vm_compute; reflexivity|vm_compute; reflexivity|vm_compute; reflexivity].

Lemma hardening_script : script EXTENSION_HARDENING_SQL (sets hardening_settings).
Proof. read_closed. Qed.
Lemma redact_script : script DENY_UNREDACTED_SECRETS_SQL (sets [(str "allow_unredacted_secrets", false_word)]).
Proof. read_closed. Qed.
Lemma lock_script : script LOCK_CONFIGURATION_SQL (sets [(str "lock_configuration", true_word)]).
Proof. read_closed. Qed.
Lemma no_local_script :
  script (str "SET disabled_filesystems='LocalFileSystem';") (sets [(str "disabled_filesystems", SvLit (str "LocalFileSystem"))]).
Proof. read_closed. Qed.

Lemma dirs_script l : l <> [] -> script (dirs_sql l) (sets [(str "allowed_directories", SvList l)]).
Proof.
  intros Hl. apply script_one.
  pose proof (set_list (str "allowed_directories") l ltac:(solve_word) Hl) as H. cbn [value_text] in H.
  unfold dirs_sql. rewrite <- !app_assoc in H. exact H.
Qed.

Lemma key_script n k : script (key_sql n k) [SParquetKey n (from_utf8_lossy k)].
Proof.
  apply script_one. pose proof (key_statement n (from_utf8_lossy k)) as H. unfold sql_lit in H.
  repeat (rewrite <- app_assoc in H || rewrite <- app_comm_cons in H). exact H.
Qed.

Lemma external_script b : script (external_sql b) (sets [(str "enable_external_access", if b then true_word else false_word)]).
Proof. destruct b; read_closed. Qed.

(** What a list of assignments leaves behind. *)
Lemma sets_value l s k v : NoDup (fst <$> l) -> (k, v) ∈ l -> foldl (fun s st => apply_stmt st s) s (sets l) k = Some v.
Proof.
  unfold sets. revert s. induction l as [|[k' v'] l IH]; intros s Hd Hin; [by apply elem_of_nil in Hin|].
  rewrite fmap_cons in Hd. apply NoDup_cons in Hd as [Hk Hd]. cbn [fmap list_fmap foldl fst snd apply_stmt].
  apply elem_of_cons in Hin as [[= <- <-]|Hin]; [|by apply IH].
  assert (Hsame : forall s l, k ∉ fst <$> l -> foldl (fun s st => apply_stmt st s) s ((fun e : bytes * SqlValue => SSet e.1 e.2) <$> l) k = s k).
  { clear. intros s l. revert s. induction l as [|[k' v'] l IH]; intros s H; [done|]. rewrite fmap_cons in H. apply not_elem_of_cons in H as [H1 H2].
    cbn [fmap list_fmap foldl fst snd apply_stmt]. unfold fmap in IH. rewrite IH by done. by rewrite bool_decide_false. }
  unfold fmap in Hsame. rewrite Hsame by done. by rewrite bool_decide_true.
Qed.

(** The providers of a registry are the ones of [default_provider]. *)
Definition Known {J : CredentialJson} (up : bytes -> bytes) (r : ProviderRegistry) : Prop :=
  forall id p, rg_providers r !! id = Some p -> exists id', default_provider up id' = Some p.

Lemma from_config_known {S : SealCrypto} {J : CredentialJson} up cfg : Known up (ss_providers (from_config up cfg)).
Proof.
  unfold from_config. cbn [ss_providers].
  assert (Hopt : forall l r, rg_providers (foldl (fun r id => set_options r id (provider_options cfg id)) r l) = rg_providers r).
  { induction l as [|id l IH]; intros r; [done|]. cbn [foldl]. by rewrite IH. }
  unfold Known. rewrite Hopt.
  assert (Hreg : forall l r, Known up r -> Known up (foldl (fun r id => match default_provider up id with Some p => register r p | None => r end) r l)).
  { induction l as [|id l IH]; intros r Hr; [done|]. cbn [foldl]. apply IH. destruct (default_provider up id) as [p|] eqn:E; [|done].
    intros id' p'. cbn [register rg_providers]. rewrite lookup_insert_Some. intros [[_ <-]|[_ H]]; [by exists id|by apply (Hr id')]. }
  apply (Hreg _ empty_registry). intros id p H. cbn in H. by rewrite lookup_empty in H.
Qed.

Lemma default_provider_kind {J : CredentialJson} up id p :
  default_provider up id = Some p -> (exists k, p = provider_of up k) \/ create_secret_sql p = no_secret.
Proof.
  unfold default_provider. repeat (destruct (is_one_of _ _); [intros [= <-]|]); try done;
    [left; by exists KS3|left; by exists KAzure|left; by exists KGcs|by right|by right].
Qed.

Lemma secret_script {S : SealCrypto} {J : CredentialJson} up r name cred sql :
  Known up r -> Word name -> secret_sql_for r name cred = Ok (Some sql) -> exists os, script sql [SSecret name os].
Proof.
  intros Hk Hn H. unfold secret_sql_for in H. apply res_bind_ok in H as (p & Hp%ok_or_ok & H). apply Hk in Hp as (id & Hid).
  destruct (default_provider_kind up id p Hid) as [(k & ->)|E]; [|by rewrite E in H].
  pose proof (create_secret_spec up k name cred (options_for r (cr_provider cred))) as Hs. rewrite H in Hs.
  destruct Hs as (c & _ & _ & _ & Hf & [= ->]). eexists. apply script_one, secret_statement; [done|by destruct k|by apply secret_fields_ok].
Qed.

Section laws.
Context {C : Crypto} {S : SealCrypto} {J : CredentialJson} {D : DuckDb} {DL : DuckDbLaws D} (up : bytes -> bytes) (show_error : DataSourceError -> bytes).

(** From [c] to [c'] the settings changed by the assignments [l]. *)
Definition after (c : Conn) (l : list (bytes * SqlValue)) (c' : Conn) : Prop :=
  forall x, setting c' x = foldl (fun s st => apply_stmt st s) (setting c) (sets l) x.

Lemma foldl_ext sts (s s' : bytes -> option SqlValue) x : (forall y, s y = s' y) ->
  foldl (fun s st => apply_stmt st s) s sts x = foldl (fun s st => apply_stmt st s) s' sts x.
Proof using Type.
  revert s s'. induction sts as [|st sts IH]; intros s s' H; [by apply H|]. cbn [foldl]. apply IH. intros y.
  destruct st; cbn [apply_stmt]; try apply H. by destruct (bool_decide _).
Qed.

Lemma after_trans c l c' l' c'' : after c l c' -> after c' l' c'' -> after c (l ++ l') c''.
Proof using Type.
  intros H H' x. rewrite (H' x). unfold sets. rewrite fmap_app, foldl_app. apply foldl_ext. exact H.
Qed.

Lemma step_after what sql c c' l : step what sql c = Ok c' -> script sql (sets l) -> after c l c'.
Proof using Type.
  unfold step. destruct (execute_batch c sql) as [c1 [[]|e]] eqn:E; [|done]. intros [= <-] Hs x.
  by apply (batch_settings _ _ _ _ x E), script_reads.
Qed.

Lemma step_same what sql c c' st : step what sql c = Ok c' -> script sql [st] -> (forall s, apply_stmt st s = s) -> after c [] c'.
Proof using Type.
  unfold step. destruct (execute_batch c sql) as [c1 [[]|e]] eqn:E; [|done]. intros [= <-] Hs Hst x.
  rewrite (batch_settings _ _ _ _ x E (script_reads _ _ Hs)). cbn [foldl]. by rewrite Hst.
Qed.

Lemma loads_after require exts c c' : Forall Word exts -> load_all_extensions require exts c = Ok c' -> after c [] c'.
Proof using Type.
  intros H. revert c. induction H as [|x exts Hx H IH]; intros c Hl; cbn [load_all_extensions] in Hl; [by injection Hl as <-|].
  destruct (execute_batch c (load_text x)) as [c1 [[]|e]] eqn:E.
  - apply (after_trans c [] c1 []); [|by apply IH]. intros k.
    by rewrite (batch_settings _ _ _ _ k E (script_reads _ _ (script_one _ _ (load_statement x Hx)))).
  - destruct require; [done|]. apply (after_trans c [] c1 []); [|by apply IH]. intros k. by apply (load_settings _ _ _ _ k Hx E).
Qed.

Lemma keys_after keys c c' : add_keys keys c = Ok c' -> after c [] c'.
Proof using Type.
  revert c. induction keys as [|[n k] keys IH]; intros c H; cbn [add_keys] in H; [by injection H as <-|].
  apply res_bind_ok in H as (c1 & H1 & H). apply (after_trans c [] c1 []); [|by apply IH].
  by apply (step_same _ _ _ _ _ H1 (key_script n k)).
Qed.

Lemma secret_after setup cred c c' :
  Known up (ss_providers setup) -> install_secret show_error setup cred c = Ok c' -> after c [] c'.
Proof using Type.
  intros Hk H. unfold install_secret in H. destruct cred as [cred|]; [|by injection H as <-].
  destruct (resolve_credential setup cred) as [cred'|]; [|done].
  destruct (secret_sql_for _ _ cred') as [[sql|]|] eqn:E; [|by injection H as <-|done].
  assert (Hw : Word (str "job_secret")) by solve_word. destruct (secret_script up _ _ _ _ Hk Hw E) as (os & Hs). by apply (step_same _ _ _ _ _ H Hs).
Qed.

Lemma lockdown_after lease setup ctx dir c0 c :
  Forall Word (ss_preload_extensions setup) -> Known up (ss_providers setup) -> 0 <= el_max_spill_bytes lease ->
  lockdown show_error lease setup ctx dir c0 = Ok c -> after c0 (lockdown_settings lease setup dir) c.
Proof using Type.
  intros Hw Hk Hsp H. unfold lockdown in H. cbv zeta in H.
  apply res_bind_ok in H as (c1 & H1 & H). apply res_bind_ok in H as (c2 & H2 & H). apply res_bind_ok in H as (c3 & H3 & H).
  apply res_bind_ok in H as (c4 & H4 & H). apply res_bind_ok in H as (c5 & H5 & H). apply res_bind_ok in H as (c6 & H6 & H).
  apply res_bind_ok in H as (c7 & H7 & H). apply res_bind_ok in H as (c8 & H8 & H). apply res_bind_ok in H as (c9 & H9 & H).
  apply step_after with (l := budget_settings lease setup dir) in H1; [|by apply budget_script].
  apply step_after with (l := hardening_settings) in H2; [|apply hardening_script].
  apply loads_after in H3; [|done]. apply keys_after in H5. apply (secret_after _ _ _ _ Hk) in H6.
  apply step_after with (l := [(str "enable_external_access", if ss_enable_remote_access setup then true_word else false_word)]) in H7; [|apply external_script].
  apply step_after with (l := [(str "allow_unredacted_secrets", false_word)]) in H9; [|apply redact_script].
  apply step_after with (l := [(str "lock_configuration", true_word)]) in H; [|apply lock_script].
  pose proof (after_trans _ _ _ _ _ H9 H) as Hlast. unfold lockdown_settings.
  apply (after_trans _ _ _ _ _ H1), (after_trans _ _ _ _ _ H2), (after_trans _ [] _ _ _ H3).
  destruct (ss_allowed_local_paths setup) as [|p ps].
  - injection H4 as <-. apply (after_trans _ [] _ _ _ H5), (after_trans _ [] _ _ _ H6), (after_trans _ _ _ _ _ H7).
    apply (after_trans _ _ c8); [|done]. apply (step_after _ _ _ _ _ H8), no_local_script.
  - injection H8 as <-. apply step_after with (l := [(str "allowed_directories", SvList (p :: ps))]) in H4; [|by apply dirs_script].
    apply (after_trans _ _ _ _ _ H4), (after_trans _ [] _ _ _ H5), (after_trans _ [] _ _ _ H6), (after_trans _ _ _ _ _ H7). done.
Qed.

Lemma lockdown_keys_distinct lease setup dir : NoDup (fst <$> lockdown_settings lease setup dir).
Proof using Type.
  unfold lockdown_settings, budget_settings. destruct (ss_temp_file_encryption setup), (0 <? el_max_spill_bytes lease), (ss_allowed_local_paths setup);
    apply (bool_decide_unpack _); vm_compute; exact I.
Qed.
End laws.

(** C11: the untrusted query starts on a connection that is locked down exactly as
    configured, whatever the job brings with it.  For every job context - hostile
    credentials, key names, keys and directory names included - and every database that
    executes [SET] statements as documented, the engine either refuses the job before the
    query text is looked at, or reaches a connection whose settings are all the intended
    ones: the memory, thread and spill budget of the lease, the extension switches off,
    network access as configured, local files limited to the allowed directories or
    switched off, secrets redacted and the configuration locked.  The preparation does not
    depend on the query, and the query's result is that of the (rewritten) text on this
    connection. *)
Theorem query_runs_locked_down {C : Crypto} {S : SealCrypto} {J : CredentialJson} {D : DuckDb} {DL : DuckDbLaws D}
    (up : bytes -> bytes) (show_error : DataSourceError -> bytes) (lease : ExecLease) (setup : StorageSetup) (ctx : JobContext) :
  Forall Word (ss_preload_extensions setup) -> Known up (ss_providers setup) -> 0 <= el_max_spill_bytes lease ->
  (exists e, forall fuel sql, run_locked show_error fuel sql lease setup ctx = Some (Err e))
  \/ (exists dir c, temp_dir ctx = Ok dir
      /\ Forall (fun kv => setting c kv.1 = Some kv.2) (lockdown_settings lease setup dir)
      /\ forall fuel sql, run_locked show_error fuel sql lease setup ctx = run_query_text fuel setup (query_text sql ctx) c).
Proof.
  intros Hw Hk Hsp. unfold run_locked.
  destruct (ok_or_exec (str "open") open_in_memory) as [c0|e]; cbn [res_bind]; [|left; by exists e].
  destruct (temp_dir ctx) as [dir|e] eqn:Ed; cbn [res_bind]; [|left; by exists e].
  destruct (lockdown show_error lease setup ctx dir c0) as [c|e] eqn:El; [|left; by exists e].
  right. exists dir, c. split_and!; [done| |done]. apply (lockdown_after up) in El; [|done..].
  apply Forall_forall. intros [k v] Hin. cbn [fst snd]. rewrite (El k). by apply sets_value, Hin; apply lockdown_keys_distinct.
Qed.

(** ** How much of a result is kept in memory *)

Definition row_weight (vs : list Value) : Z := sum_by value_estimated_size vs.

Lemma value_size_nonneg v : 0 <= value_estimated_size v.
Proof. destruct v; cbn; lia. Qed.

Lemma row_weight_nonneg vs : 0 <= row_weight vs.
Proof. apply sum_by_nonneg. intros v _. apply value_size_nonneg. Qed.

Section pulled.
Context {D : DuckDb}.

Lemma read_row_weight n i row m vs m' : 0 <= m <= umax 64 -> read_row n i row m = Ok (vs, m') -> m' = Z.min (m + row_weight vs) (umax 64).
Proof using Type.
  revert i m vs m'. induction n as [|n IH]; intros i m vs m' Hm H; cbn [read_row] in H.
  - injection H as <- <-. unfold row_weight. cbn. lia.
  - apply res_bind_ok in H as (v & _ & H). cbv zeta in H. apply res_bind_ok in H as ([vs' m1] & H & [= <- <-]).
    pose proof (value_size_nonneg (value_from_ref v)). apply IH in H as ->; [|unfold sat_add; lia].
    unfold row_weight. cbn [fst sum_by foldr]. unfold sat_add. fold (row_weight vs').
    pose proof (row_weight_nonneg vs'). unfold row_weight, sum_by in *. cbn. lia.
Qed.

Lemma pull_rows_weight fuel cap n cur m rows :
  0 <= m <= cap -> 0 < cap < umax 64 -> pull_rows fuel cap n cur m = Some (Ok rows) -> m + sum_by row_weight rows <= cap.
Proof using Type.
  revert cur m rows. induction fuel as [|fuel IH]; intros cur m rows Hm Hc H; cbn [pull_rows] in H; [done|].
  destruct (fetch cur) as [[[row cur']|]|]; [|injection H as <-; cbn; lia|done].
  destruct (read_row n 0 row m) as [[vs m1]|] eqn:E; [|done]. apply read_row_weight in E; [|lia].
  destruct (negb (cap =? 0) && (cap <? m1)) eqn:Ec; [done|].
  assert (m1 <= cap) by (destruct (Z.ltb_spec cap m1); [|done]; destruct (Z.eqb_spec cap 0); [lia|done]).
  pose proof (row_weight_nonneg vs). destruct (pull_rows fuel cap n cur' m1) as [[rows'|]|] eqn:Er; [|done|done].
  injection H as <-. apply IH in Er; [|lia|done]. unfold sum_by in *. cbn. lia.
Qed.

Lemma pull_rows_ends fuel cap n cur m :
  (forall cur row cur' m vs m', fetch cur = Ok (Some (row, cur')) -> read_row n 0 row m = Ok (vs, m') -> 1 <= row_weight vs) ->
  0 <= m <= cap -> 0 < cap < umax 64 -> cap - m < Z.of_nat fuel -> exists r, pull_rows fuel cap n cur m = Some r.
Proof using Type.
  intros Hw. revert cur m. induction fuel as [|fuel IH]; intros cur m Hm Hc Hf; [lia|]. cbn [pull_rows].
  destruct (fetch cur) as [[[row cur']|]|] eqn:Ef; [|by eexists..].
  destruct (read_row n 0 row m) as [[vs m1]|] eqn:E; [|by eexists]. pose proof (Hw _ _ _ _ _ _ Ef E).
  apply read_row_weight in E; [|lia].
  destruct (negb (cap =? 0) && (cap <? m1)) eqn:Ec; [by eexists|].
  assert (m1 <= cap) by (destruct (Z.ltb_spec cap m1); [|done]; destruct (Z.eqb_spec cap 0); [lia|done]).
  destruct (IH cur' m1) as (r & ->); [lia|done|lia|]. destruct r; by eexists.
Qed.
End pulled.

(** A query cannot fill the host's memory with its result.  Whatever the database
    hands out - a result that never ends included - the rows kept never exceed the
    configured number of bytes by the engine's own estimate, and when every row counts
    for at least one byte the loop ends after at most that many rows plus one, with a
    result or an error.  The hypothesis is needed: a row of empty blobs counts for nothing,
    and for an endless column of them the loop never ends. *)
Theorem result_materialization_bounded {D : DuckDb} (cap : Z) (columns : nat) (cur : Cursor) :
  0 < cap < umax 64 ->
  (forall fuel rows, pull_rows fuel cap columns cur 0 = Some (Ok rows) -> sum_by row_weight rows <= cap)
  /\ ((forall cur row cur' m vs m', fetch cur = Ok (Some (row, cur')) -> read_row columns 0 row m = Ok (vs, m') -> 1 <= row_weight vs) ->
      exists r, pull_rows (Z.to_nat cap + 1) cap columns cur 0 = Some r)
  /\ (columns = 1%nat -> fetch cur = Ok (Some ([Ok (RBlob [])], cur)) -> forall fuel, pull_rows fuel cap columns cur 0 = None).
Proof.
  intros Hc. split_and!.
  - intros fuel rows H. apply pull_rows_weight in H; [|lia|done]. lia.
  - intros Hw. apply pull_rows_ends; [done|lia|done|lia].
  - intros -> Hf fuel. assert (Hr : read_row 1 0 [Ok (RBlob [])] 0 = Ok ([VBlob []], 0)) by reflexivity.
    induction fuel as [|fuel IH]; [done|]. cbn [pull_rows]. rewrite Hf, Hr. rewrite (proj2 (Z.ltb_ge cap 0)) by lia.
    rewrite andb_false_r. by rewrite IH.
Qed.

(** ** An instance *)

(** Settings as a function; a cursor of [Some n] has [n] rows left, [None] never ends. *)
#[export] Instance toy_duckdb : DuckDb := {|
  Conn := bytes -> option SqlValue;
  Cursor := option nat;
  open_in_memory := Ok (fun _ => None);
  library_version _ := Ok (str "v1.3.0");
  execute_batch c sql :=
    match read_script sql with
    | Some sts =>
        if bool_decide (SLoad (str "missing") ∈ sts) then (c, Err (str "not found"))
        else (foldl (fun s st => apply_stmt st s) c sts, Ok tt)
    | None => (c, Err (str "syntax error"))
    end;
  Prepared := bytes;
  prepare _ sql := Ok sql;
  query sql := Ok (if bool_decide (sql = str "endless") then None else Some (length sql));
  column_names _ := [str "v"];
  fetch cur :=
    match cur with
    | None => Ok (Some ([Ok (RBlob [])], None))
    | Some O => Ok None
    | Some (Datatypes.S n) => Ok (Some ([Ok (RInt (Z.of_nat n))], Some n))
    end;
  mint_temp_dir := Ok (str "/tmp/duckdb-p2p-job-x");
|}.

#[export] Instance toy_duckdb_laws : DuckDbLaws toy_duckdb.
Proof.
  refine {| setting := fun (c : Conn (DuckDb := toy_duckdb)) x => c x |}.
  - intros c sql c' sts x H Hr. cbn [execute_batch toy_duckdb] in H. rewrite Hr in H.
    destruct (bool_decide _); [done|]. by injection H as <-.
  - intros c x c' e k _ H. cbn [execute_batch toy_duckdb] in H.
    destruct (read_script _) as [sts|]; [|by injection H as <-]. destruct (bool_decide _); [by injection H as <-|done].
Defined.

Definition remote_config : StorageConfig :=
  default_StorageConfig <| sto_enabled_providers := [str "s3"] |> <| sto_enable_remote_access := true |>
    <| sto_preload_extensions := [str "httpfs"; str "missing"] |> <| sto_require_extensions := false |>.
Definition remote_setup : StorageSetup (S := toy_seal) := from_config to_ascii_uppercase remote_config.
Definition small_lease : ExecLease := mkExecLease (512 * 1024 * 1024) 4 1000.
Definition hostile_ctx : JobContext :=
  mkJobContext (Some hostile_credential) [(str "k', 'x'); SET lock_configuration=false; --", str "0123")] None []
    (Some (str "/tmp/it's'; SET threads=64; --")).

Lemma query_runs_locked_down_witness :
  let run := run_locked (C := toy_crypto) (S := toy_seal) (D := toy_duckdb) (fun _ => str "refused") in
  (exists e, forall fuel sql, run fuel sql small_lease remote_setup hostile_ctx = Some (Err e))
  \/ (exists dir c, temp_dir (D := toy_duckdb) hostile_ctx = Ok dir
      /\ Forall (fun kv => setting (D := toy_duckdb) c kv.1 = Some kv.2) (lockdown_settings small_lease remote_setup dir)
      /\ forall fuel sql, run fuel sql small_lease remote_setup hostile_ctx = run_query_text (D := toy_duckdb) fuel remote_setup (query_text sql hostile_ctx) c).
Proof.
  intros run. apply (query_runs_locked_down (C := toy_crypto) (S := toy_seal) (D := toy_duckdb) (DL := toy_duckdb_laws) to_ascii_uppercase).
  - repeat constructor; done.
  - apply from_config_known.
  - done.
Defined.

(** The hostile job runs: the toy database accepts every statement and the query's rows
    come out. *)
Example hostile_job_runs :
  run_locked (C := toy_crypto) (S := toy_seal) (D := toy_duckdb) (fun _ => str "refused") 10 (str "ab") small_lease remote_setup hostile_ctx
  = Some (Ok (mkResultSet [str "v"] [[VInt 1]; [VInt 0]])).
Proof. vm_compute. reflexivity. Qed.

Lemma result_materialization_bounded_witness :
  (forall fuel rows, pull_rows (D := toy_duckdb) fuel 100 1 (Some 3%nat) 0 = Some (Ok rows) -> sum_by row_weight rows <= 100)
  /\ forall fuel, pull_rows (D := toy_duckdb) fuel 100 1 None 0 = None.
Proof.
  split.
  - apply (result_materialization_bounded (D := toy_duckdb) 100 1 (Some 3%nat)). done.
  - apply (result_materialization_bounded (D := toy_duckdb) 100 1 None); done.
Defined.

(** Conversions at the edges: integers that do not fit are written out, a float widens
    exactly, bytes that are not UTF-8 are replaced - which changes a binary Parquet key. *)
Example value_edges :
  value_from_ref (RUBigInt (2 ^ 63)) = VText (str "9223372036854775808") /\ value_from_ref (RHugeInt (- 2 ^ 63)) = VInt (- 2 ^ 63)
  /\ widen 1065353216 = 4607182418800017408 /\ widen 1 = 3936146074321813504.
Proof. vm_compute. done. Qed.
Example binary_key_changed : from_utf8_lossy (byte_of_Z <$> [65; 255; 192; 128; 226; 130; 66]) =
  byte_of_Z <$> [65; 239; 191; 189; 239; 191; 189; 239; 191; 189; 239; 191; 189; 66].
Proof. vm_compute. reflexivity. Qed.

Lemma utf8_valid_kept s : Forall (fun b => byte_val b < 128) s -> from_utf8_lossy s = s.
Proof.
  unfold from_utf8_lossy. induction 1 as [|b s Hb _ IH]; [done|]. cbn [lossy_from]. rewrite (proj2 (Z.ltb_lt _ _)) by done. by rewrite IH.
Qed.
