(* ===== verification/Presign.v ===== *)
(** * Presigned URLs (node/storage.rs: [S3PresignProvider], [FakePresignProvider] and the
      calendar they use; [aws_uri_encode] of node/datasource.rs)

    The query-string form of AWS Signature Version 4: percent-encoding, the canonical
    request, the chain of HMACs and the date, computed from a Unix timestamp with civil
    calendar arithmetic.  HMAC-SHA256 is third-party: the class [Mac]. *)

From S2P Require Import Prelude Bytes Crypto Text Sql DataSource.
#[local] Open Scope duckton_scope.

Class Mac := hmac_sha256 : bytes -> bytes -> bytes.      (* key, message *)

(** ** Percent-encoding *)

Definition unreserved (b : byte) : bool :=
  in_range 65 90 b || in_range 97 122 b || in_range 48 57 b || bool_decide (b ∈ str "-_.~").

(** [{b:02X}] *)
Definition upper_hex (n : Z) : byte := byte_of_Z (if n <? 10 then 48 + n else 55 + n).
Definition encode_byte (encode_slash : bool) (b : byte) : bytes :=
  if unreserved b then [b]
  else if bool_decide (b = Byte.x2f) && negb encode_slash then str "/"
  else [Byte.x25; upper_hex (byte_val b / 16); upper_hex (byte_val b mod 16)].
Definition aws_uri_encode (s : bytes) (encode_slash : bool) : bytes := mjoin (encode_byte encode_slash <$> s).

(** ** The calendar *)

(** [civil_from_days]; Rust's [/] truncates, but every dividend here is non-negative. *)
Definition civil_from_days (z : Z) : Z * Z * Z :=
  let z := z + 719468 in
  let era := Z.quot (if 0 <=? z then z else z - 146096) 146097 in
  let doe := z - era * 146097 in
  let yoe := (doe - doe / 1460 + doe / 36524 - doe / 146096) / 365 in
  let y := yoe + era * 400 in
  let doy := doe - (365 * yoe + yoe / 4 - yoe / 100) in
  let mp := (5 * doy + 2) / 153 in
  let d := doy - (153 * mp + 2) / 5 + 1 in
  let m := if mp <? 10 then mp + 3 else mp - 9 in
  (y + (if m <=? 2 then 1 else 0), m, d).

(** [{n:0w}] *)
Definition pad (w : nat) (n : Z) : bytes := replicate (w - length (show_uint n)) Byte.x30 ++ show_uint n.

Definition format_amz_date (epoch_secs : Z) : bytes * bytes :=
  let days := epoch_secs / 86400 in
  let rem := epoch_secs mod 86400 in
  let '(y, mo, d) := civil_from_days days in
  (pad 4 y ++ pad 2 mo ++ pad 2 d ++ str "T" ++ pad 2 (rem / 3600) ++ pad 2 (rem mod 3600 / 60) ++ pad 2 (rem mod 60) ++ str "Z",
   pad 4 y ++ pad 2 mo ++ pad 2 d).

(** ** Signature Version 4 *)

(** [s.split_once("://")] *)
Fixpoint split_scheme (s : bytes) : option bytes :=
  match s with
  | [] => None
  | _ :: s' => if starts_with (str "://") s then Some (drop 3 s) else split_scheme s'
  end.
Definition after_scheme (uri : bytes) : bytes := default uri (split_scheme uri).

Section presign.
Context {C : Crypto} {M : Mac}.

Definition sha256_hex (data : bytes) : bytes := hex_encode (sha256 data).

Definition sigv4_signing_key (secret datestamp region service : bytes) : bytes :=
  let k_date := hmac_sha256 (str "AWS4" ++ secret) datestamp in
  let k_region := hmac_sha256 k_date region in
  let k_service := hmac_sha256 k_region service in
  hmac_sha256 k_service (str "aws4_request").

Record S3PresignProvider := mkPresign {
  ps_access_key : bytes; ps_secret_key : bytes; ps_region : bytes; ps_endpoint : option bytes; ps_use_ssl : bool;
}.
Definition presign_new (access_key secret_key region : bytes) : S3PresignProvider := mkPresign access_key secret_key region None true.
Definition with_endpoint (p : S3PresignProvider) (endpoint : bytes) (use_ssl : bool) : S3PresignProvider :=
  mkPresign (ps_access_key p) (ps_secret_key p) (ps_region p) (Some endpoint) use_ssl.

Definition nl : bytes := [Byte.x0a].

(** The query parameters, sorted by key; keys and values percent-encoded. *)
Definition canonical_query (credential amz_date : bytes) (ttl_secs : Z) : bytes :=
  let params := isort (fun a b : bytes * bytes => lex_leb a.1 b.1)
    [(str "X-Amz-Algorithm", str "AWS4-HMAC-SHA256"); (str "X-Amz-Credential", credential); (str "X-Amz-Date", amz_date);
     (str "X-Amz-Expires", show_uint ttl_secs); (str "X-Amz-SignedHeaders", str "host")] in
  join (str "&") ((fun p => aws_uri_encode p.1 true ++ str "=" ++ aws_uri_encode p.2 true) <$> params).

Definition canonical_request (canonical_uri query host : bytes) : bytes :=
  str "GET" ++ nl ++ canonical_uri ++ nl ++ query ++ nl ++ (str "host:" ++ host ++ nl) ++ nl ++ str "host" ++ nl ++ str "UNSIGNED-PAYLOAD".

Definition string_to_sign (amz_date scope request : bytes) : bytes :=
  str "AWS4-HMAC-SHA256" ++ nl ++ amz_date ++ nl ++ scope ++ nl ++ sha256_hex request.

(** [presign_at] *)
Definition presign_at (p : S3PresignProvider) (uri : bytes) (ttl_secs now : Z) : result bytes DataSourceError :=
  let missing := MalformedToken (str "s3 uri missing bucket/key: " ++ uri) in
  bk <-? ok_or (split_once Byte.x2f (after_scheme uri)) missing ;;
  let '(bucket, key) := bk in
  guard negb (bool_decide (bucket = []) || bool_decide (key = [])) else missing ;;
  let scheme := if ps_use_ssl p then str "https" else str "http" in
  let '(host, canonical_uri) :=
    match ps_endpoint p with
    | Some ep => (ep, str "/" ++ bucket ++ str "/" ++ aws_uri_encode key false)
    | None => (bucket ++ str ".s3." ++ ps_region p ++ str ".amazonaws.com", str "/" ++ aws_uri_encode key false)
    end in
  let '(amz_date, datestamp) := format_amz_date now in
  let scope := datestamp ++ str "/" ++ ps_region p ++ str "/s3/aws4_request" in
  let query := canonical_query (ps_access_key p ++ str "/" ++ scope) amz_date ttl_secs in
  let to_sign := string_to_sign amz_date scope (canonical_request canonical_uri query host) in
  let key := sigv4_signing_key (ps_secret_key p) datestamp (ps_region p) (str "s3") in
  Ok (scheme ++ str "://" ++ host ++ canonical_uri ++ str "?" ++ query ++ str "&X-Amz-Signature=" ++ hex_encode (hmac_sha256 key to_sign)).

(** [FakePresignProvider::presign]; [now_secs() + ttl_secs] is a checked sum. *)
Definition fake_presign (host uri : bytes) (ttl_secs now : Z) : option bytes :=
  let path := trim_slashes (after_scheme uri) in
  expires_at ← checked_add 64 now ttl_secs;
  let sig := hex_encode (take 16 (blake3 (str "duckdb-p2p-presign-v1" ++ uri))) in
  Some (str "https://" ++ host ++ str "/" ++ aws_uri_encode path false
    ++ str "?X-Amz-Algorithm=AWS4-HMAC-SHA256&X-Amz-Expires=" ++ show_uint ttl_secs ++ str "&X-Amz-Date=" ++ show_uint expires_at
    ++ str "&X-Amz-SignedHeaders=host&X-Amz-Signature=" ++ sig).
End presign.

(** ** The calendar, day by day *)

Definition leap (y : Z) : bool := (y mod 4 =? 0) && (negb (y mod 100 =? 0) || (y mod 400 =? 0)).
Definition days_in_month (y m : Z) : Z :=
  if m =? 2 then (if leap y then 29 else 28)
  else if (m =? 4) || (m =? 6) || (m =? 9) || (m =? 11) then 30 else 31.
Definition next_day (ymd : Z * Z * Z) : Z * Z * Z :=
  let '(y, m, d) := ymd in
  if d <? days_in_month y m then (y, m, d + 1)
  else if m <? 12 then (y, m + 1, 1) else (y + 1, 1, 1).

(** Years that start in March, [yoe] of them in an era of 400. *)
Definition year_start (yoe : Z) : Z := 365 * yoe + yoe / 4 - yoe / 100.
Definition year_of (doe : Z) : Z := (doe - doe / 1460 + doe / 36524 - doe / 146096) / 365.
Definition year_len (yoe : Z) : Z := if leap (yoe + 1) then 366 else 365.
Definition month_day (y doy : Z) : Z * Z * Z :=
  let mp := (5 * doy + 2) / 153 in
  let m := if mp <? 10 then mp + 3 else mp - 9 in
  (y + (if m <=? 2 then 1 else 0), m, doy - (153 * mp + 2) / 5 + 1).

Ltac dlia := Z.to_euclidean_division_equations; lia.

Lemma leap_spec y : leap y = true <-> y mod 4 = 0 /\ (y mod 100 <> 0 \/ y mod 400 = 0).
Proof. unfold leap. rewrite andb_true_iff, orb_true_iff, negb_true_iff, !Z.eqb_eq, Z.eqb_neq. tauto. Qed.

Lemma year_len_cases y :
  (year_len y = 366 /\ (y + 1) mod 4 = 0 /\ ((y + 1) mod 100 <> 0 \/ (y + 1) mod 400 = 0))
  \/ (year_len y = 365 /\ ((y + 1) mod 4 <> 0 \/ ((y + 1) mod 100 = 0 /\ (y + 1) mod 400 <> 0))).
Proof.
  unfold year_len. pose proof (leap_spec (y + 1)) as H. destruct (leap (y + 1)); [left; tauto|right; split; [done|]].
  assert (~ ((y + 1) mod 4 = 0 /\ ((y + 1) mod 100 <> 0 \/ (y + 1) mod 400 = 0))) by (intros X; by apply H in X). lia.
Qed.

Lemma year_of_start y d : 0 <= y < 400 -> 0 <= d < year_len y -> year_of (year_start y + d) = y.
Proof. intros Hy Hd. destruct (year_len_cases y) as [(E & H)|(E & H)]; rewrite E in Hd; unfold year_of, year_start; dlia. Qed.

Lemma year_of_range doe : 0 <= doe < 146097 -> 0 <= year_of doe < 400 /\ 0 <= doe - year_start (year_of doe) < year_len (year_of doe).
Proof.
  intros Hd. assert (Hr : 0 <= year_of doe < 400) by (unfold year_of; dlia). split; [done|].
  destruct (year_len_cases (year_of doe)) as [(E & H)|(E & H)]; rewrite E; revert H Hr; unfold year_start, year_of; intros; dlia.
Qed.

Lemma year_start_next y : 0 <= y < 399 -> year_start (y + 1) = year_start y + year_len y.
Proof. intros Hy. destruct (year_len_cases y) as [(E & H)|(E & H)]; rewrite E; unfold year_start; dlia. Qed.

Lemma leap_period y k : leap (y + k * 400) = leap y.
Proof.
  unfold leap. replace (y + k * 400) with (y + (k * 100) * 4) by lia. rewrite Z.mod_add by lia.
  replace (y + k * 100 * 4) with (y + (k * 4) * 100) by lia. rewrite Z.mod_add by lia.
  replace (y + k * 4 * 100) with (y + k * 400) by lia. by rewrite Z.mod_add by lia.
Qed.

(** The days of one year, by computation: the step to the next day, and the last day. *)
Definition md (doy : Z) : Z * Z * Z := month_day 0 doy.
Definition next_in (l : bool) (omd : Z * Z * Z) : Z * Z * Z :=
  let '(o, m, d) := omd in
  let dim := if m =? 2 then (if l then 29 else 28) else if (m =? 4) || (m =? 6) || (m =? 9) || (m =? 11) then 30 else 31 in
  if d <? dim then (o, m, d + 1) else if m <? 12 then (o, m + 1, 1) else (o + 1, 1, 1).
Definition february_ok (omd : Z * Z * Z) : bool := let '(o, m, _) := omd in negb (m =? 2) || (o =? 1).
Definition day_ok (l : bool) (i : nat) : bool :=
  let doy := Z.of_nat i in
  february_ok (md doy) && bool_decide (next_in l (md doy) = if doy + 1 <? (if l then 366 else 365) then md (doy + 1) else (1, 3, 1)).

Lemma days_ok (l : bool) (i : nat) : (i < (if l then 366 else 365))%nat -> day_ok l i = true.
Proof.
  assert (H : forallb (day_ok true) (seq 0 366) && forallb (day_ok false) (seq 0 365) = true) by (vm_compute; reflexivity).
  apply andb_true_iff in H as [H1 H2]. rewrite forallb_forall in H1, H2. intros Hi. destruct l; [apply H1|apply H2]; apply in_seq; lia.
Qed.

Lemma month_day_shift y doy : month_day y doy = (let '(o, m, d) := md doy in (y + o, m, d)).
Proof. unfold md, month_day. cbv zeta. by destruct (_ <=? 2). Qed.

Lemma next_day_shift y omd :
  february_ok omd = true -> next_day (let '(o, m, d) := omd in (y + o, m, d)) = (let '(o, m, d) := next_in (leap (y + 1)) omd in (y + o, m, d)).
Proof.
  destruct omd as [[o m] d]. unfold february_ok, next_day, next_in, days_in_month. intros H. cbv zeta.
  assert (Hl : (if m =? 2 then (if leap (y + o) then 29 else 28) else if (m =? 4) || (m =? 6) || (m =? 9) || (m =? 11) then 30 else 31)
    = (if m =? 2 then (if leap (y + 1) then 29 else 28) else if (m =? 4) || (m =? 6) || (m =? 9) || (m =? 11) then 30 else 31)).
  { destruct (Z.eqb_spec m 2) as [->|Hm]; [|done]. cbn in H. apply Z.eqb_eq in H. by subst o. }
  rewrite Hl. destruct (_ <? _); [done|]. destruct (m <? 12); [done|]. by rewrite Z.add_assoc.
Qed.

Lemma next_day_year y doy :
  0 <= doy < year_len y -> next_day (month_day y doy) = if doy + 1 <? year_len y then month_day y (doy + 1) else month_day (y + 1) 0.
Proof.
  intros Hd. rewrite !month_day_shift. pose proof (days_ok (leap (y + 1)) (Z.to_nat doy)) as H. unfold year_len in *.
  assert (Hi : (Z.to_nat doy < (if leap (y + 1) then 366 else 365))%nat) by (destruct (leap (y + 1)); lia).
  specialize (H Hi). unfold day_ok in H. rewrite Z2Nat.id in H by lia. apply andb_true_iff in H as [Hf Hn%bool_decide_eq_true].
  rewrite next_day_shift by done. rewrite Hn. destruct (_ <? _); [done|]. change (md 0) with (0, 3, 1). cbv iota beta. by rewrite Z.add_0_r.
Qed.

Lemma civil_split z :
  let w := z + 719468 in
  let doe := w mod 146097 in
  civil_from_days z = month_day (year_of doe + w / 146097 * 400) (doe - year_start (year_of doe)).
Proof.
  intros w doe. unfold civil_from_days. fold w. cbv zeta.
  assert (E : Z.quot (if 0 <=? w then w else w - 146096) 146097 = w / 146097).
  { destruct (Z.leb_spec 0 w); dlia. }
  rewrite E. replace (w - w / 146097 * 146097) with doe by (unfold doe; pose proof (Z.div_mod w 146097); lia). reflexivity.
Qed.

(** A year later in the cycle of 400 years has the same days. *)
Lemma next_day_era y era doy :
  0 <= doy < year_len y ->
  next_day (month_day (y + era * 400) doy)
  = if doy + 1 <? year_len y then month_day (y + era * 400) (doy + 1) else month_day (y + 1 + era * 400) 0.
Proof.
  intros Hd. assert (E : year_len (y + era * 400) = year_len y).
  { unfold year_len. replace (y + era * 400 + 1) with (y + 1 + era * 400) by lia. by rewrite leap_period. }
  rewrite next_day_year by (by rewrite E). rewrite E. destruct (_ <? _); [done|]. f_equal. lia.
Qed.

Lemma civil_next z : civil_from_days (z + 1) = next_day (civil_from_days z).
Proof.
  rewrite !civil_split. cbv zeta. set (w := z + 719468). replace (z + 1 + 719468) with (w + 1) by lia.
  set (era := w / 146097). set (doe := w mod 146097).
  assert (Hw : w = era * 146097 + doe /\ 0 <= doe < 146097) by (unfold era, doe; dlia). clearbody era doe. destruct Hw as [-> Hdoe].
  destruct (year_of_range doe Hdoe) as [Hy Hd]. set (y := year_of doe) in *. rewrite next_day_era by done.
  destruct (Z.ltb_spec (doe - year_start y + 1) (year_len y)) as [Hs|Hs].
  - (* the same year *)
    assert (Hdoe' : doe + 1 < 146097).
    { destruct (Z.eq_dec doe 146096) as [->|]; [|lia]. vm_compute in y. subst y. vm_compute in Hs. done. }
    replace ((era * 146097 + doe + 1) / 146097) with era by dlia. replace ((era * 146097 + doe + 1) mod 146097) with (doe + 1) by dlia.
    assert (Ey : year_of (doe + 1) = y).
    { replace (doe + 1) with (year_start y + (doe - year_start y + 1)) by lia. apply year_of_start; lia. }
    rewrite Ey. f_equal. lia.
  - assert (Hlast : doe = year_start y + year_len y - 1) by lia.
    destruct (Z.eq_dec y 399) as [E399|Hne].
    + (* the last day of the era *)
      rewrite E399 in *. assert (doe = 146096) as -> by (rewrite Hlast; reflexivity).
      replace ((era * 146097 + 146096 + 1) / 146097) with (era + 1) by dlia. replace ((era * 146097 + 146096 + 1) mod 146097) with 0 by dlia.
      change (year_of 0) with 0. change (year_start 0) with 0. f_equal; lia.
    + (* the last day of a year *)
      assert (Hn : doe + 1 = year_start (y + 1)) by (rewrite year_start_next by lia; lia).
      assert (Ey : year_of (doe + 1) = y + 1).
      { rewrite Hn, <- (Z.add_0_r (year_start (y + 1))). apply year_of_start; [lia|]. unfold year_len. destruct (leap _); lia. }
      assert (Hdoe' : doe + 1 < 146097).
      { rewrite Hn. unfold year_start. dlia. }
      replace ((era * 146097 + doe + 1) / 146097) with era by dlia. replace ((era * 146097 + doe + 1) mod 146097) with (doe + 1) by dlia.
      rewrite Ey. f_equal. lia.
Qed.

(** C34: the date a URL is signed with is the date of the calendar.  The day-count
    arithmetic gives 1 January 1970 for day 0 and, for every day before or after, moves to
    the next day of the Gregorian calendar (months of 28 to 31 days, leap years every
    fourth year but for three centuries out of four) when the count goes up by one; and
    the time of day printed after it is the rest of the timestamp, in range. *)
Theorem amz_date_is_calendar :
  civil_from_days 0 = (1970, 1, 1)
  /\ (forall z, civil_from_days (z + 1) = next_day (civil_from_days z))
  /\ (forall epoch_secs, 0 <= epoch_secs ->
        exists y m d hh mm ss, civil_from_days (epoch_secs / 86400) = (y, m, d)
          /\ epoch_secs = epoch_secs / 86400 * 86400 + hh * 3600 + mm * 60 + ss
          /\ 0 <= hh < 24 /\ 0 <= mm < 60 /\ 0 <= ss < 60
          /\ format_amz_date epoch_secs
             = (pad 4 y ++ pad 2 m ++ pad 2 d ++ str "T" ++ pad 2 hh ++ pad 2 mm ++ pad 2 ss ++ str "Z", pad 4 y ++ pad 2 m ++ pad 2 d)).
Proof.
  split_and!; [reflexivity|apply civil_next|]. intros e He. destruct (civil_from_days (e / 86400)) as [[y m] d] eqn:E.
  exists y, m, d, (e mod 86400 / 3600), (e mod 86400 mod 3600 / 60), (e mod 86400 mod 60). split_and!; try dlia; [done|].
  unfold format_amz_date. by rewrite E.
Qed.

Example dates : civil_from_days 19782 = (2024, 2, 29) /\ civil_from_days (- 1) = (1969, 12, 31)
  /\ format_amz_date 1369353600 = (str "20130524T000000Z", str "20130524").
Proof. vm_compute. done. Qed.

(** ** Reading a URL back *)

Definition upper_hex_val (b : byte) : option Z :=
  if in_range 48 57 b then Some (byte_val b - 48) else if in_range 65 70 b then Some (byte_val b - 55) else None.
Fixpoint percent_decode (s : bytes) : option bytes :=
  match s with
  | [] => Some []
  | Byte.x25 :: a :: b :: s' => x ← upper_hex_val a; y ← upper_hex_val b; cons (byte_of_Z (16 * x + y)) <$> percent_decode s'
  | Byte.x25 :: _ => None
  | b :: s' => cons b <$> percent_decode s'
  end.

Lemma upper_hex_ok n : 0 <= n < 16 -> upper_hex_val (upper_hex n) = Some n.
Proof.
  intros Hn. assert (H : forallb (fun i => bool_decide (upper_hex_val (upper_hex (Z.of_nat i)) = Some (Z.of_nat i))) (seq 0 16) = true) by (vm_compute; reflexivity).
  rewrite forallb_forall in H. specialize (H (Z.to_nat n)). rewrite Z2Nat.id in H by lia. eapply bool_decide_eq_true, H, in_seq. lia.
Qed.

Lemma decode_other b s : b <> Byte.x25 -> percent_decode (b :: s) = cons b <$> percent_decode s.
Proof. intros H. destruct b; done. Qed.

Lemma decode_byte slash b s : percent_decode (encode_byte slash b ++ s) = cons b <$> percent_decode s.
Proof.
  unfold encode_byte. destruct (unreserved b) eqn:E; [by apply decode_other; intros ->|].
  destruct (bool_decide_reflect (b = Byte.x2f)) as [->|Hb]; [destruct slash|]; cbn [andb negb app].
  - reflexivity.
  - reflexivity.
  - pose proof (byte_val_range b). cbn [percent_decode]. rewrite !upper_hex_ok by dlia. cbn [mbind option_bind].
    replace (16 * (byte_val b / 16) + byte_val b mod 16) with (byte_val b) by dlia. by rewrite byte_of_val.
Qed.

Lemma decode_encode s slash : percent_decode (aws_uri_encode s slash) = Some s.
Proof.
  unfold aws_uri_encode. induction s as [|b s IH]; [done|].
  change (percent_decode (encode_byte slash b ++ mjoin (encode_byte slash <$> s)) = Some (b :: s)). by rewrite decode_byte, IH.
Qed.

(** What an encoded text is made of: nothing that separates parameters. *)
Lemma encoded_bytes s b : b ∈ aws_uri_encode s true -> unreserved b = true \/ b = Byte.x25.
Proof.
  unfold aws_uri_encode. intros (l & Hb & (x & -> & _)%list_elem_of_fmap)%list_elem_of_join. unfold encode_byte in Hb.
  destruct (unreserved x) eqn:E; [left; by apply list_elem_of_singleton in Hb as ->|]. rewrite andb_false_r in Hb.
  assert (Hh : forall n, 0 <= n < 16 -> unreserved (upper_hex n) = true).
  { intros n Hn. assert (H : forallb (fun i => unreserved (upper_hex (Z.of_nat i))) (seq 0 16) = true) by (vm_compute; reflexivity).
    rewrite forallb_forall in H. specialize (H (Z.to_nat n)). rewrite Z2Nat.id in H by lia. apply H, in_seq. lia. }
  pose proof (byte_val_range x). rewrite !elem_of_cons in Hb. destruct Hb as [->|[->|[->|Hb]]]; [by right|left; apply Hh; dlia..|by apply elem_of_nil in Hb].
Qed.

Lemma encoded_no_sep s c : unreserved c = false -> c <> Byte.x25 -> c ∉ aws_uri_encode s true.
Proof. intros Hc Hp H. apply encoded_bytes in H as [H|H]; congruence. Qed.

Lemma split_on_join c l : l <> [] -> Forall (fun s => c ∉ s) l -> split_on c (join [c] l) = l.
Proof.
  intros Hne H. induction H as [|s l Hs H IH]; [done|]. destruct l as [|t l]; [by apply split_on_no_sep|].
  change (join [c] (s :: t :: l)) with (s ++ c :: join [c] (t :: l)). rewrite split_on_cons by done. by rewrite IH.
Qed.

Definition read_param (s : bytes) : option (bytes * bytes) :=
  '(k, v) ← split_once Byte.x3d s; k' ← percent_decode k; v' ← percent_decode v; Some (k', v').
Definition read_query (q : bytes) : option (list (bytes * bytes)) := mapM read_param (split_on Byte.x26 q).

Definition encode_param (p : bytes * bytes) : bytes := aws_uri_encode p.1 true ++ str "=" ++ aws_uri_encode p.2 true.

Lemma read_encoded ps : ps <> [] -> read_query (join (str "&") (encode_param <$> ps)) = Some ps.
Proof.
  intros Hne. unfold read_query. rewrite split_on_join.
  - apply mapM_Some, Forall2_fmap_l, Forall_Forall2_diag, Forall_forall. intros [k v] _. change (read_param (encode_param (k, v)) = Some (k, v)).
    unfold read_param, encode_param. cbn [fst snd].
    assert (E : split_once Byte.x3d (aws_uri_encode k true ++ str "=" ++ aws_uri_encode v true) = Some (aws_uri_encode k true, aws_uri_encode v true)).
    { apply split_once_spec. split; [done|]. by apply encoded_no_sep. }
    rewrite E. cbn [mbind option_bind]. rewrite !decode_encode. done.
  - by destruct ps.
  - apply Forall_fmap, Forall_forall. intros [k v] _. cbn [compose]. unfold encode_param. rewrite !elem_of_app. cbn [fst snd].
    intros [H|[H|H]]; [by apply encoded_no_sep in H| |by apply encoded_no_sep in H]. by apply list_elem_of_singleton in H.
Qed.

(** A presigned URL says what was asked for and carries the signature of exactly that.
    Signing fails only for an address without a bucket or a key.  Otherwise the URL is
    made of the host of the bucket (or the configured endpoint), a path that decodes to
    the object's key, and a query that reads back as the five parameters of Signature
    Version 4 - algorithm, the requester's access key with the scope of the day, the
    signing date, the time to live and the signed header - whatever characters keys and
    names contain; the signature after it is the HMAC, under the key derived from the
    secret for this day and region, of the request for this host, path and query.  The
    secret itself enters the URL only through that HMAC. *)
Theorem presigned_url_reads_back {C : Crypto} {M : Mac} (p : S3PresignProvider) (uri : bytes) (ttl_secs now : Z) :
  match presign_at p uri ttl_secs now with
  | Ok url => exists bucket key host path query amz_date datestamp,
      after_scheme uri = bucket ++ str "/" ++ key /\ bucket <> [] /\ key <> [] /\ Byte.x2f ∉ bucket
      /\ format_amz_date now = (amz_date, datestamp)
      /\ (let scope := datestamp ++ str "/" ++ ps_region p ++ str "/s3/aws4_request" in
          url = (if ps_use_ssl p then str "https" else str "http") ++ str "://" ++ host ++ path ++ str "?" ++ query
                ++ str "&X-Amz-Signature="
                ++ hex_encode (hmac_sha256 (sigv4_signing_key (ps_secret_key p) datestamp (ps_region p) (str "s3"))
                                 (string_to_sign amz_date scope (canonical_request path query host)))
          /\ read_query query = Some
               [(str "X-Amz-Algorithm", str "AWS4-HMAC-SHA256"); (str "X-Amz-Credential", ps_access_key p ++ str "/" ++ scope);
                (str "X-Amz-Date", amz_date); (str "X-Amz-Expires", show_uint ttl_secs); (str "X-Amz-SignedHeaders", str "host")])
      /\ match ps_endpoint p with
         | Some ep => host = ep /\ exists enc, path = str "/" ++ bucket ++ str "/" ++ enc /\ percent_decode enc = Some key
         | None => host = bucket ++ str ".s3." ++ ps_region p ++ str ".amazonaws.com"
             /\ exists enc, path = str "/" ++ enc /\ percent_decode enc = Some key
         end
  | Err _ => forall bucket key, after_scheme uri = bucket ++ str "/" ++ key -> Byte.x2f ∉ bucket -> bucket = [] \/ key = []
  end.
Proof.
  unfold presign_at. cbv zeta. destruct (split_once Byte.x2f (after_scheme uri)) as [[bucket key]|] eqn:Es; cbn [ok_or res_bind].
  2: { intros b k E Hb. assert (X : split_once Byte.x2f (after_scheme uri) = Some (b, k)) by (by apply split_once_spec). congruence. }
  pose proof Es as Hs. apply split_once_spec in Hs as [E Hb].
  destruct (bool_decide_reflect (bucket = [])) as [Eb|Nb]; cbn [orb negb];
    [|destruct (bool_decide_reflect (key = [])) as [Ek|Nk]; cbn [negb]].
  1,2: intros b k E' Hb'; assert (X : split_once Byte.x2f (after_scheme uri) = Some (b, k)) by (by apply split_once_spec);
    rewrite Es in X; injection X as <- <-; tauto.
  destruct (format_amz_date now) as [amz_date datestamp].
  assert (Hq : forall cred, read_query (canonical_query cred amz_date ttl_secs) = Some
               [(str "X-Amz-Algorithm", str "AWS4-HMAC-SHA256"); (str "X-Amz-Credential", cred);
                (str "X-Amz-Date", amz_date); (str "X-Amz-Expires", show_uint ttl_secs); (str "X-Amz-SignedHeaders", str "host")]).
  { intros cred. by apply read_encoded. }
  destruct (ps_endpoint p) as [ep|]; eexists bucket, key, _, _, _, amz_date, datestamp; (split_and!; [exact E|done|done|done|done|reflexivity|apply Hq|done|]);
    eexists; (split; [reflexivity|apply decode_encode]).
Qed.

(** The example of the AWS documentation, with a stand-in for HMAC. *)
#[export] Instance toy_mac : Mac := fun k m => take 32 (toy_digest 3 (k ++ m)).
Example presigned_example :
  match presign_at (C := toy_crypto) (presign_new (str "AKID") (str "s") (str "us-east-1")) (str "s3://examplebucket/a b/test.txt") 86400 1369353600 with
  | Ok url => starts_with (str "https://examplebucket.s3.us-east-1.amazonaws.com/a%20b/test.txt?X-Amz-Algorithm=AWS4-HMAC-SHA256&X-Amz-Credential=AKID%2F20130524%2Fus-east-1%2Fs3%2Faws4_request&X-Amz-Date=20130524T000000Z&X-Amz-Expires=86400&X-Amz-SignedHeaders=host&X-Amz-Signature=") url
  | Err _ => false
  end = true.
Proof. vm_compute. reflexivity. Qed.

Lemma amz_date_is_calendar_witness :
  civil_from_days (19782 + 1) = next_day (civil_from_days 19782) /\ next_day (civil_from_days 19782) = (2024, 3, 1).
Proof. split; [apply amz_date_is_calendar|vm_compute; reflexivity]. Defined.
