(* ===== verification/Sandbox.v ===== *)
(** * The operating-system sandbox (node/sandbox.rs, sandbox/macos.rs, sandbox/linux.rs)

    What a job is allowed, resolved from the configuration and its lease: resource limits,
    the egress allow-list, the file scope; the Seatbelt profile, nftables rules, cgroup
    files and seccomp list generated from it; and what [setrlimit] leaves behind in the
    child.  The policies are texts the operating system reads: [read_profile] reads a
    Seatbelt profile back.  Installing them is the kernel's and not modelled. *)

From S2P Require Import Prelude Bytes Text ConfigData Config Sql Presign DataSource.
#[local] Open Scope duckton_scope.

(** ** Limits *)

Record JobBudget := mkBudget { jb_memory_bytes : Z; jb_threads : Z }.

Record ResourceLimits := mkLimits {
  rl_memory_bytes : option Z;
  rl_cpu_seconds : option Z;
  rl_max_file_size_bytes : option Z;
  rl_max_open_files : option Z;
  rl_max_processes : option Z;
}.

Definition nz (v : Z) : option Z := if 0 <? v then Some v else None.

(** [ResourceLimits::resolve] *)
Definition resolve_limits (cfg : SandboxConfig) (budget : JobBudget) : ResourceLimits :=
  let l := sb_limits cfg in
  match sbl_mode l with
  | LimitsInheritBudget =>
      mkLimits (nz (jb_memory_bytes budget)) (nz (sbl_cpu_seconds l)) (nz (sbl_max_file_size_bytes l)) (nz (sbl_max_open_files l))
        (if 0 <? jb_threads budget then Some (jb_threads budget + 8) else None)
  | LimitsExplicit =>
      mkLimits (nz (sbl_memory_bytes l)) (nz (sbl_cpu_seconds l)) (nz (sbl_max_file_size_bytes l)) (nz (sbl_max_open_files l))
        (nz (sbl_max_processes l))
  end.

(** ** Egress *)

Record EgressEndpoint := mkEndpoint { ee_host : bytes; ee_port : option Z }.
#[global] Instance EgressEndpoint_eq_dec : EqDecision EgressEndpoint.
Proof. solve_decision. Defined.

Definition to_authority (e : EgressEndpoint) : bytes :=
  match ee_port e with Some p => ee_host e ++ str ":" ++ show_uint p | None => ee_host e end.

(** [s.rsplit_once(c)] *)
Definition rsplit_once (c : byte) (s : bytes) : option (bytes * bytes) :=
  '(a, b) ← split_once c (rev s); Some (rev b, rev a).

(** [s.split(['/', '?', '#']).next()] *)
Fixpoint until_path (s : bytes) : bytes :=
  match s with
  | [] => []
  | b :: s' => if bool_decide (b ∈ str "/?#") then [] else b :: until_path s'
  end.

Definition parse_endpoint (s : bytes) : option EgressEndpoint :=
  let s := trim s in
  if bool_decide (s = []) then None
  else
    let authority := until_path (after_scheme s) in
    let authority := match rsplit_once Byte.x40 authority with Some (_, h) => h | None => authority end in
    if bool_decide (authority = []) then None
    else match rsplit_once Byte.x3a authority with
         | Some (host, port) =>
             if bool_decide (host = []) then Some (mkEndpoint authority None)
             else match parse_uint 16 port with
                  | Some p => Some (mkEndpoint host (Some p))
                  | None => Some (mkEndpoint authority None)
                  end
         | None => Some (mkEndpoint authority None)
         end.

Definition well_known_endpoints (provider : bytes) (region : option bytes) : list EgressEndpoint :=
  if is_one_of provider ["s3"%string]
  then mkEndpoint (str "s3.amazonaws.com") (Some 443)
       :: match trim <$> region with
          | Some [] | None => []
          | Some r => [mkEndpoint (str "s3." ++ r ++ str ".amazonaws.com") (Some 443)]
          end
  else if is_one_of provider ["az"; "azure"; "abfss"]%string
  then [mkEndpoint (str "*.blob.core.windows.net") (Some 443); mkEndpoint (str "*.dfs.core.windows.net") (Some 443)]
  else if is_one_of provider ["gcs"; "gs"]%string then [mkEndpoint (str "storage.googleapis.com") (Some 443)]
  else [].

Definition push (out : list EgressEndpoint) (ep : option EgressEndpoint) : list EgressEndpoint :=
  match ep with
  | Some e => if bool_decide (e ∈ out) then out else out ++ [e]
  | None => out
  end.

(** What is offered to [push], in order. *)
Definition egress_candidates (cfg : SandboxConfig) (storage : StorageConfig) : list (option EgressEndpoint) :=
  (if bool_decide (sb_egress_mode cfg = EgressInheritStorage)
   then [parse_endpoint (default [] (sto_endpoint storage))]
        ++ omap (fun e : bytes * list (bytes * bytes) => parse_endpoint <$> map_get (str "endpoint") e.2) (sto_provider_options storage)
        ++ (Some <$> mjoin ((fun p => well_known_endpoints p (sto_region storage)) <$> sto_enabled_providers storage))
   else [])
  ++ (parse_endpoint <$> sb_egress_allowlist cfg).

(** [EgressAllowList::derive] *)
Definition derive (cfg : SandboxConfig) (storage : StorageConfig) : list EgressEndpoint := foldl push [] (egress_candidates cfg storage).

(** ** The resolved policy *)

Record SandboxSpec := mkSpec {
  sp_limits : ResourceLimits;
  sp_egress : list EgressEndpoint;
  sp_read_only_paths : list bytes;
  sp_writable_paths : list bytes;
  sp_allow_network : bool;
}.

(** [SandboxSpec::resolve] *)
Definition resolve_spec (cfg : SandboxConfig) (storage : StorageConfig) (budget : JobBudget) (temp_dir : bytes) : SandboxSpec :=
  let egress := derive cfg storage in
  mkSpec (resolve_limits cfg budget) egress (sto_allowed_local_paths storage) [temp_dir]
    (sto_enable_remote_access storage && negb (bool_decide (egress = []))).

Inductive TargetOs := Android | Ios | Linux | Macos | Windows | OtherUnix | OtherOs.
Definition is_unix (t : TargetOs) : bool := match t with Windows | OtherOs => false | _ => true end.

Definition effective_backend (t : TargetOs) (b : SandboxBackend) : SandboxBackend :=
  match b with
  | BackendAuto =>
      match t with
      | Android => BackendAndroid | Ios => BackendIos | Linux => BackendCgroupsSeccomp | Macos => BackendMacosSeatbelt
      | Windows => BackendWindowsJobObject | OtherUnix => BackendRlimit | OtherOs => BackendNone
      end
  | other => other
  end.

Inductive SandboxKind := NoopSandbox | RlimitSandbox | MacosSandbox | LinuxSandbox | WindowsSandbox | IosSandbox.

(** [build] *)
Definition build (t : TargetOs) (cfg : SandboxConfig) : SandboxKind :=
  if negb (sb_enabled cfg) then NoopSandbox
  else match effective_backend t (sb_backend cfg) with
       | BackendNone => NoopSandbox
       | BackendRlimit => if is_unix t then RlimitSandbox else NoopSandbox
       | BackendMacosSeatbelt => if is_unix t then MacosSandbox else NoopSandbox
       | BackendCgroupsSeccomp | BackendAndroid => if is_unix t then LinuxSandbox else NoopSandbox
       | BackendWindowsJobObject => match t with Windows => WindowsSandbox | _ => NoopSandbox end
       | BackendIos => IosSandbox
       | BackendAuto => NoopSandbox
       end.

(** ** Resource limits of the child *)

Inductive Resource := RLIMIT_AS | RLIMIT_CPU | RLIMIT_FSIZE | RLIMIT_NOFILE | RLIMIT_NPROC.
#[global] Instance Resource_eq_dec : EqDecision Resource.
Proof. solve_decision. Defined.

Definition setting_of (r : Resource) (o : option Z) : list (Resource * Z) := match o with Some v => [(r, v)] | None => [] end.
Definition rlimit_settings (l : ResourceLimits) : list (Resource * Z) :=
  setting_of RLIMIT_AS (rl_memory_bytes l) ++ setting_of RLIMIT_CPU (rl_cpu_seconds l) ++ setting_of RLIMIT_FSIZE (rl_max_file_size_bytes l)
  ++ setting_of RLIMIT_NOFILE (rl_max_open_files l) ++ setting_of RLIMIT_NPROC (rl_max_processes l).

(** A process's limits: the soft one and the hard one, [None] for no limit. *)
Record Rlimit := mkRlimit { rlim_cur : option Z; rlim_max : option Z }.
Abbreviation Rlimits := (Resource -> Rlimit).

(** The hook that runs in the child before the program starts. *)
Definition apply_rlimit (ls : Rlimits) (s : Resource * Z) : Rlimits :=
  let cur := ls s.1 in
  let new_cur := match rlim_max cur with None => s.2 | Some max => Z.min s.2 max end in
  fun r => if bool_decide (r = s.1) then mkRlimit (Some new_cur) (rlim_max cur) else ls r.
Definition apply_rlimits (ls : Rlimits) (l : ResourceLimits) : Rlimits := foldl apply_rlimit ls (rlimit_settings l).

(** ** Texts for the operating system *)

Definition dquote : byte := Byte.x22.
Definition backslash : byte := Byte.x5c.

(** [sb_str]: a backslash before every backslash and quote.  The two passes of the code
    do the same, since the first one adds no quotes. *)
Definition replace_byte (c : byte) (to : bytes) (s : bytes) : bytes := mjoin ((fun b => if bool_decide (b = c) then to else [b]) <$> s).
Definition sb_str (s : bytes) : bytes := replace_byte dquote [backslash; dquote] (replace_byte backslash [backslash; backslash] s).

Definition quoted (s : bytes) : bytes := [dquote] ++ s ++ [dquote].
Definition line (s : bytes) : bytes := s ++ nl.

(** [BTreeSet<u16>] of the ports that are given *)
Fixpoint insert_port (p : Z) (l : list Z) : list Z :=
  match l with
  | [] => [p]
  | q :: l' => if p <? q then p :: l else if p =? q then l else q :: insert_port p l'
  end.
Definition egress_ports (l : list EgressEndpoint) : list Z :=
  foldl (fun ps e => match ee_port e with Some p => insert_port p ps | None => ps end) [] l.

Definition network_ports (l : list EgressEndpoint) : list Z := match egress_ports l with [] => [443] | ps => ps end.

Definition read_line (p : bytes) : bytes := line (str "(allow file-read* (subpath " ++ quoted (sb_str p) ++ str "))").
Definition write_line (p : bytes) : bytes := line (str "(allow file-write* (subpath " ++ quoted (sb_str p) ++ str "))").
Definition net_line (proto : string) (port : Z) : bytes :=
  line (str "(allow network-outbound (remote " ++ str proto ++ str " " ++ quoted (str "*:" ++ show_uint port) ++ str "))").

Definition nonblank (l : list bytes) : list bytes := List.filter (fun p => negb (bool_decide (p = []))) (trim <$> l).

Definition seatbelt_profile (spec : SandboxSpec) : bytes :=
  line (str "(version 1)") ++ line (str "(deny default)") ++ line (str "(import " ++ quoted (str "system.sb") ++ str ")")
  ++ line (str "(allow process-fork)") ++ line (str "(allow process-exec)")
  ++ mjoin (read_line <$> nonblank (sp_read_only_paths spec))
  ++ mjoin ((fun w => read_line w ++ write_line w) <$> nonblank (sp_writable_paths spec))
  ++ (if sp_allow_network spec && negb (bool_decide (sp_egress spec = []))
      then net_line "udp" 53 ++ net_line "tcp" 53 ++ mjoin (net_line "tcp" <$> network_ports (sp_egress spec))
      else []).

(** [nftables_egress_rules] *)
Definition nftables_egress_rules (egress : list EgressEndpoint) (allow_network : bool) : list bytes :=
  [str "table inet p2p_sandbox {"; str "  chain output {"; str "    type filter hook output priority 0; policy drop;";
   str "    ip daddr 169.254.0.0/16 drop"; str "    ip daddr 127.0.0.0/8 drop"; str "    ip6 daddr fe80::/10 drop"; str "    ip6 daddr ::1 drop";
   str "    ct state established,related accept"]
  ++ (if allow_network && negb (bool_decide (egress = []))
      then [str "    udp dport 53 accept"; str "    tcp dport 53 accept"]
           ++ ((fun p => str "    tcp dport " ++ show_uint p ++ str " accept") <$> network_ports egress)
      else [])
  ++ [str "  }"; str "}"].

(** [CgroupV2Policy] *)
Record CgroupV2Policy := mkCgroup { cg_memory_max : option Z; cg_memory_swap_max : option Z; cg_cpu_max : option (Z * Z); cg_pids_max : option Z }.
Definition cgroup_from_spec (spec : SandboxSpec) : CgroupV2Policy :=
  let m := rl_memory_bytes (sp_limits spec) in
  mkCgroup m ((fun _ => 0) <$> m) None (rl_max_processes (sp_limits spec)).
Definition with_cpu_quota (p : CgroupV2Policy) (threads : Z) : CgroupV2Policy :=
  if 0 <? threads then mkCgroup (cg_memory_max p) (cg_memory_swap_max p) (Some (threads * 100000, 100000)) (cg_pids_max p) else p.
Definition or_max (o : option Z) : bytes := match o with Some v => show_uint v | None => str "max" end.
Definition interface_files (p : CgroupV2Policy) : list (bytes * bytes) :=
  [(str "memory.max", or_max (cg_memory_max p))]
  ++ match cg_memory_swap_max p with Some s => [(str "memory.swap.max", show_uint s)] | None => [] end
  ++ [(str "cpu.max", match cg_cpu_max p with Some (q, per) => show_uint q ++ str " " ++ show_uint per | None => str "max 100000" end);
      (str "pids.max", or_max (cg_pids_max p))].

(** [SeccompPolicy::compute_baseline] *)
Definition BASELINE_SYSCALLS : list bytes := str <$>
  ["mmap"; "munmap"; "mremap"; "mprotect"; "brk"; "madvise"; "read"; "write"; "pread64"; "pwrite64"; "readv"; "writev"; "lseek";
   "openat"; "open"; "close"; "fstat"; "stat"; "lstat"; "newfstatat"; "fsync"; "fdatasync"; "ftruncate"; "unlink"; "unlinkat";
   "getdents64"; "clone"; "clone3"; "futex"; "set_robust_list"; "get_robust_list"; "rseq"; "sched_yield"; "sched_getaffinity";
   "gettid"; "clock_gettime"; "clock_nanosleep"; "nanosleep"; "getrandom"; "getpid"; "exit"; "exit_group"; "rt_sigaction";
   "rt_sigprocmask"; "rt_sigreturn"; "prlimit64"; "uname"; "sysinfo"; "epoll_create1"; "epoll_ctl"; "epoll_wait"; "eventfd2"; "pipe2"]%string.
Definition NETWORK_SYSCALLS : list bytes := str <$>
  ["socket"; "connect"; "sendto"; "recvfrom"; "sendmsg"; "recvmsg"; "setsockopt"; "getsockopt"; "getsockname"; "getpeername";
   "shutdown"; "bind"; "poll"; "ppoll"; "select"]%string.
Definition compute_baseline (allow_network : bool) : list bytes := BASELINE_SYSCALLS ++ (if allow_network then NETWORK_SYSCALLS else []).
Definition seccomp_allows (allow_network : bool) (syscall : bytes) : bool := bool_decide (syscall ∈ compute_baseline allow_network).

(** ** Reading a profile

    The profile language is S-expressions: atoms, strings with backslash escapes,
    parentheses.  The reader knows the rules a profile is meant to consist of. *)

Inductive STok := SOpen | SClose | SAtom (a : bytes) | SStr (s : bytes).
#[global] Instance STok_eq_dec : EqDecision STok.
Proof. solve_decision. Defined.

Inductive SState := BStart | BAtom (a : bytes) | BStr (s : bytes) | BEsc (s : bytes).

Definition atom_byte (b : byte) : bool := graphic b && negb (bool_decide (b ∈ [dquote; backslash; Byte.x28; Byte.x29; Byte.x3b])).

Definition sb_step (st : SState) (b : byte) : option (SState * list STok) :=
  match st with
  | BStart =>
      if bool_decide (b = Byte.x28) then Some (BStart, [SOpen])
      else if bool_decide (b = Byte.x29) then Some (BStart, [SClose])
      else if bool_decide (b = dquote) then Some (BStr [], [])
      else if is_space b then Some (BStart, [])
      else if atom_byte b then Some (BAtom [b], []) else None
  | BAtom a =>
      if bool_decide (b = Byte.x28) then Some (BStart, [SAtom a; SOpen])
      else if bool_decide (b = Byte.x29) then Some (BStart, [SAtom a; SClose])
      else if is_space b then Some (BStart, [SAtom a])
      else if atom_byte b then Some (BAtom (a ++ [b]), []) else None
  | BStr s =>
      if bool_decide (b = backslash) then Some (BEsc s, [])
      else if bool_decide (b = dquote) then Some (BStart, [SStr s])
      else Some (BStr (s ++ [b]), [])
  | BEsc s => if bool_decide (b = backslash) || bool_decide (b = dquote) then Some (BStr (s ++ [b]), []) else None
  end.

Fixpoint sb_run (st : SState) (s : bytes) : option (SState * list STok) :=
  match s with
  | [] => Some (st, [])
  | b :: s' => '(st1, t1) ← sb_step st b; '(st2, t2) ← sb_run st1 s'; Some (st2, t1 ++ t2)
  end.

Inductive Rule := RVersion | RDenyDefault | RImport (s : bytes) | RProcess (what : bytes)
| RRead (path : bytes) | RWrite (path : bytes) | RNet (proto addr : bytes).
#[global] Instance Rule_eq_dec : EqDecision Rule.
Proof. solve_decision. Defined.

Definition atom (s : string) : STok := SAtom (str s).
Definition rule_tokens (r : Rule) : list STok :=
  match r with
  | RVersion => [SOpen; atom "version"; atom "1"; SClose]
  | RDenyDefault => [SOpen; atom "deny"; atom "default"; SClose]
  | RImport s => [SOpen; atom "import"; SStr s; SClose]
  | RProcess w => [SOpen; atom "allow"; SAtom w; SClose]
  | RRead p => [SOpen; atom "allow"; atom "file-read*"; SOpen; atom "subpath"; SStr p; SClose; SClose]
  | RWrite p => [SOpen; atom "allow"; atom "file-write*"; SOpen; atom "subpath"; SStr p; SClose; SClose]
  | RNet q a => [SOpen; atom "allow"; atom "network-outbound"; SOpen; atom "remote"; SAtom q; SStr a; SClose; SClose]
  end.

Fixpoint read_rules (fuel : nat) (ts : list STok) : option (list Rule) :=
  match fuel with
  | O => None
  | S fuel' =>
      match ts with
      | [] => Some []
      | SOpen :: SAtom a :: SAtom b :: SClose :: r =>
          x ← (if bool_decide ((a, b) = (str "version", str "1")) then Some RVersion
               else if bool_decide ((a, b) = (str "deny", str "default")) then Some RDenyDefault
               else if bool_decide (a = str "allow") then Some (RProcess b) else None);
          cons x <$> read_rules fuel' r
      | SOpen :: SAtom a :: SStr s :: SClose :: r =>
          if bool_decide (a = str "import") then cons (RImport s) <$> read_rules fuel' r else None
      | SOpen :: SAtom a :: SAtom b :: SOpen :: SAtom c :: SStr s :: SClose :: SClose :: r =>
          x ← (if bool_decide ((a, c) = (str "allow", str "subpath"))
               then if bool_decide (b = str "file-read*") then Some (RRead s)
                    else if bool_decide (b = str "file-write*") then Some (RWrite s) else None
               else None);
          cons x <$> read_rules fuel' r
      | SOpen :: SAtom a :: SAtom b :: SOpen :: SAtom c :: SAtom q :: SStr s :: SClose :: SClose :: r =>
          if bool_decide ((a, b, c) = (str "allow", str "network-outbound", str "remote"))
          then cons (RNet q s) <$> read_rules fuel' r else None
      | _ => None
      end
  end.

Definition read_profile (s : bytes) : option (list Rule) :=
  match sb_run BStart s with
  | Some (BStart, ts) => read_rules (S (length ts)) ts
  | _ => None
  end.

(** The rules a policy stands for. *)
Definition intended_rules (spec : SandboxSpec) : list Rule :=
  [RVersion; RDenyDefault; RImport (str "system.sb"); RProcess (str "process-fork"); RProcess (str "process-exec")]
  ++ (RRead <$> nonblank (sp_read_only_paths spec))
  ++ mjoin ((fun w => [RRead w; RWrite w]) <$> nonblank (sp_writable_paths spec))
  ++ (if sp_allow_network spec && negb (bool_decide (sp_egress spec = []))
      then [RNet (str "udp") (str "*:53"); RNet (str "tcp") (str "*:53")]
           ++ ((fun p => RNet (str "tcp") (str "*:" ++ show_uint p)) <$> network_ports (sp_egress spec))
      else []).

Lemma sb_run_trans st a b st1 t1 st2 t2 :
  sb_run st a = Some (st1, t1) -> sb_run st1 b = Some (st2, t2) -> sb_run st (a ++ b) = Some (st2, t1 ++ t2).
Proof.
  revert st t1. induction a as [|x a IH]; intros st t1 H1 H2; cbn [sb_run app] in *.
  - by injection H1 as -> <-.
  - destruct (sb_step st x) as [[st' t']|]; [|done]. cbn [mbind option_bind] in *.
    destruct (sb_run st' a) as [[st'' t'']|] eqn:E; [|done]. injection H1 as -> <-. rewrite (IH st' t'' E H2). cbn. by rewrite app_assoc.
Qed.

Definition sb_escape (b : byte) : bytes := if bool_decide (b = backslash) || bool_decide (b = dquote) then [backslash; b] else [b].

Lemma replace_byte_app c to a b : replace_byte c to (a ++ b) = replace_byte c to a ++ replace_byte c to b.
Proof. unfold replace_byte. by rewrite fmap_app, join_app. Qed.

Lemma sb_str_eq s : sb_str s = mjoin (sb_escape <$> s).
Proof.
  induction s as [|b s IH]; [done|]. change (sb_str ([b] ++ s) = sb_escape b ++ mjoin (sb_escape <$> s)). rewrite <- IH.
  unfold sb_str. rewrite !replace_byte_app. f_equal. unfold sb_escape, replace_byte.
  destruct (bool_decide_reflect (b = backslash)) as [->|Hb]; [reflexivity|].
  cbn [fmap list_fmap mjoin list_join]. rewrite !(bool_decide_false (b = backslash)) by done. cbn [app fmap list_fmap mjoin list_join orb].
  rewrite app_nil_r. by destruct (bool_decide_reflect (b = dquote)) as [->|].
Qed.

Lemma sb_run_str s v : sb_run (BStr v) (sb_str s) = Some (BStr (v ++ s), []).
Proof.
  rewrite sb_str_eq. revert v. induction s as [|b s IH]; intros v; [by rewrite app_nil_r|].
  change (sb_run (BStr v) (sb_escape b ++ mjoin (sb_escape <$> s)) = Some (BStr (v ++ b :: s), [])).
  apply (sb_run_trans _ _ _ (BStr (v ++ [b])) [] _ []); [|rewrite IH; by rewrite <- app_assoc].
  unfold sb_escape. destruct (bool_decide_reflect (b = backslash)) as [->|Hb]; [reflexivity|].
  destruct (bool_decide_reflect (b = dquote)) as [->|Hd]; [reflexivity|]. cbn. by rewrite !bool_decide_false.
Qed.

(** A line reads as its rule: [pre] up to the string, the string, [post] after it. *)
Lemma sb_line pre s post ts1 ts2 :
  sb_run BStart pre = Some (BStart, ts1) -> sb_run BStart post = Some (BStart, ts2) ->
  sb_run BStart (pre ++ quoted (sb_str s) ++ post) = Some (BStart, ts1 ++ [SStr s] ++ ts2).
Proof.
  intros H1 H2. apply (sb_run_trans _ _ _ _ _ _ _ H1). apply (sb_run_trans _ _ _ BStart [SStr s] _ ts2); [|done].
  unfold quoted. apply (sb_run_trans _ [dquote] _ (BStr []) [] BStart [SStr s]); [done|].
  apply (sb_run_trans _ _ _ (BStr s) [] BStart [SStr s]); [apply (sb_run_str s [])|reflexivity].
Qed.

Lemma plain_sb_str s : dquote ∉ s -> backslash ∉ s -> sb_str s = s.
Proof.
  intros Hd Hb. rewrite sb_str_eq. induction s as [|b s IH]; [done|]. apply not_elem_of_cons in Hd as [? ?], Hb as [? ?].
  change (sb_escape b ++ mjoin (sb_escape <$> s) = b :: s). rewrite IH by done. unfold sb_escape. by rewrite !bool_decide_false.
Qed.

Definition reads_as (s : bytes) (rs : list Rule) : Prop := sb_run BStart s = Some (BStart, mjoin (rule_tokens <$> rs)).

Lemma reads_as_app a rs b rs' : reads_as a rs -> reads_as b rs' -> reads_as (a ++ b) (rs ++ rs').
Proof. unfold reads_as. rewrite fmap_app, join_app. intros H1 H2. by apply (sb_run_trans _ _ _ _ _ _ _ H1). Qed.

Lemma reads_as_list {A} (f : A -> bytes) (g : A -> list Rule) l :
  (forall x, reads_as (f x) (g x)) -> reads_as (mjoin (f <$> l)) (mjoin (g <$> l)).
Proof.
  intros H. induction l as [|x l IH]; [done|]. change (reads_as (f x ++ mjoin (f <$> l)) (g x ++ mjoin (g <$> l))).
  by apply reads_as_app.
Qed.

Lemma read_line_ok p : reads_as (read_line p) [RRead p].
Proof.
  unfold reads_as, read_line, line. rewrite <- !app_assoc.
  apply (sb_line _ p _ [SOpen; atom "allow"; atom "file-read*"; SOpen; atom "subpath"] [SClose; SClose]); reflexivity.
Qed.
Lemma write_line_ok p : reads_as (write_line p) [RWrite p].
Proof.
  unfold reads_as, write_line, line. rewrite <- !app_assoc.
  apply (sb_line _ p _ [SOpen; atom "allow"; atom "file-write*"; SOpen; atom "subpath"] [SClose; SClose]); reflexivity.
Qed.

Lemma show_uint_graphic n : 0 <= n -> dquote ∉ show_uint n /\ backslash ∉ show_uint n.
Proof. intros Hn. split; by apply show_uint_no_sep. Qed.

Lemma net_line_ok proto port : 0 <= port -> (proto = "udp"%string \/ proto = "tcp"%string) ->
  reads_as (net_line proto port) [RNet (str proto) (str "*:" ++ show_uint port)].
Proof.
  intros Hp Hq. unfold reads_as, net_line, line. destruct (show_uint_graphic port Hp) as [Hd Hb].
  assert (Hd' : dquote ∉ str "*:") by decide_closed. assert (Hb' : backslash ∉ str "*:") by decide_closed.
  assert (E : sb_str (str "*:" ++ show_uint port) = str "*:" ++ show_uint port) by (apply plain_sb_str; rewrite elem_of_app; tauto).
  rewrite <- E at 1.
  rewrite <- !app_assoc, (app_assoc (str "(allow network-outbound (remote ")), (app_assoc _ (str " ")).
  destruct Hq as [->| ->].
  - apply (sb_line _ _ _ [SOpen; atom "allow"; atom "network-outbound"; SOpen; atom "remote"; atom "udp"] [SClose; SClose]); reflexivity.
  - apply (sb_line _ _ _ [SOpen; atom "allow"; atom "network-outbound"; SOpen; atom "remote"; atom "tcp"] [SClose; SClose]); reflexivity.
Qed.

Lemma rule_tokens_nonempty r : (1 <= length (rule_tokens r))%nat.
Proof. destruct r; cbn; lia. Qed.

Lemma read_one r rest fuel : read_rules (S fuel) (rule_tokens r ++ rest) = cons r <$> read_rules fuel rest.
Proof. destruct r; cbn [rule_tokens app read_rules atom]; reflexivity. Qed.

Lemma read_rules_tokens rs fuel : (length (mjoin (rule_tokens <$> rs)) < fuel)%nat -> read_rules fuel (mjoin (rule_tokens <$> rs)) = Some rs.
Proof.
  revert fuel. induction rs as [|r rs IH]; intros [|fuel] Hf; try (cbn in Hf; lia); [done|].
  change (mjoin (rule_tokens <$> r :: rs)) with (rule_tokens r ++ mjoin (rule_tokens <$> rs)) in *.
  rewrite read_one, IH; [done|]. rewrite length_app in Hf. pose proof (rule_tokens_nonempty r). lia.
Qed.

Lemma reads_as_profile s rs : reads_as s rs -> read_profile s = Some rs.
Proof. unfold reads_as, read_profile. intros ->. by apply read_rules_tokens, Nat.lt_succ_diag_r. Qed.

(** ** Ports *)

Definition Port_ok (e : EgressEndpoint) : Prop := match ee_port e with Some p => in_u 16 p | None => True end.

Lemma parse_nonempty_nonneg s n : parse_nonempty s = Some n -> 0 <= n.
Proof.
  assert (H : forall s acc n, 0 <= acc -> parse_digits s acc = Some n -> 0 <= n).
  { clear. induction s as [|c s IH]; intros acc n Ha H; cbn [parse_digits] in H; [by injection H as <-|].
    destruct (digit_val c) as [d|] eqn:E; [|done]. apply IH in H; [done|]. unfold digit_val in E.
    repeat case_match; simplify_eq; lia. }
  unfold parse_nonempty. destruct s; [done|]. by apply H.
Qed.

Lemma parse_uint_range w s n : parse_uint w s = Some n -> 0 <= n <= umax w.
Proof.
  unfold parse_uint. destruct (parse_nonempty _) as [m|] eqn:E; [|done]. destruct (Z.leb_spec m (umax w)); [|done].
  intros [= <-]. apply parse_nonempty_nonneg in E. done.
Qed.

Lemma parse_endpoint_port s e : parse_endpoint s = Some e -> Port_ok e.
Proof.
  unfold parse_endpoint. destruct (bool_decide _); [done|]. set (a := match rsplit_once Byte.x40 _ with Some (_, h) => h | None => _ end).
  destruct (bool_decide (a = [])); [done|]. destruct (rsplit_once Byte.x3a a) as [[host port]|]; [|by intros [= <-]].
  destruct (bool_decide (host = [])); [by intros [= <-]|]. destruct (parse_uint 16 port) as [p|] eqn:E; [|by intros [= <-]].
  intros [= <-]. apply parse_uint_range in E. unfold Port_ok, in_u, umax in *. cbn in *. lia.
Qed.

Lemma well_known_ports p r : Forall Port_ok (well_known_endpoints p r).
Proof.
  unfold well_known_endpoints. destruct (is_one_of p ["s3"%string]).
  { constructor; [done|]. destruct (trim <$> r) as [[|]|]; [constructor|by repeat constructor|constructor]. }
  destruct (is_one_of p _); [by repeat constructor|]. destruct (is_one_of p _); by repeat constructor.
Qed.

Lemma foldl_push_elem l out e : e ∈ foldl push out l <-> e ∈ out \/ Some e ∈ l.
Proof.
  revert out. induction l as [|o l IH]; intros out; cbn [foldl]; [rewrite elem_of_nil; tauto|]. rewrite IH, elem_of_cons.
  destruct o as [x|]; cbn [push]; [|naive_solver]. destruct (bool_decide_reflect (x ∈ out)) as [H|H].
  - split; [tauto|]. intros [?|[[= ->]|?]]; auto.
  - rewrite elem_of_app, list_elem_of_singleton. naive_solver.
Qed.

(** An endpoint is allowed exactly when some source of the configuration names it. *)
Lemma derive_exact cfg storage e : e ∈ derive cfg storage <-> Some e ∈ egress_candidates cfg storage.
Proof. unfold derive. rewrite foldl_push_elem, elem_of_nil. tauto. Qed.

Lemma derive_ports cfg storage : Forall Port_ok (derive cfg storage).
Proof.
  apply Forall_forall. intros e H%derive_exact. unfold egress_candidates in H. apply elem_of_app in H as [H|H].
  - destruct (bool_decide _); [|by apply elem_of_nil in H]. rewrite !elem_of_app in H. destruct H as [H|[H|H]].
    + apply list_elem_of_singleton in H. by eapply parse_endpoint_port.
    + apply list_elem_of_omap in H as (x & _ & H). destruct (map_get _ _); [|done]. injection H as H. by eapply parse_endpoint_port.
    + apply list_elem_of_fmap in H as (x & [= ->] & H). apply list_elem_of_join in H as (l & H & (p & -> & _)%list_elem_of_fmap).
      pose proof (well_known_ports p (sto_region storage)) as Hw. rewrite Forall_forall in Hw. by apply Hw.
  - apply list_elem_of_fmap in H as (s & H & _). by eapply parse_endpoint_port.
Qed.

Lemma insert_port_in p l x : x ∈ insert_port p l <-> x = p \/ x ∈ l.
Proof.
  induction l as [|q l IH]; cbn [insert_port]; [by rewrite list_elem_of_singleton, elem_of_nil; tauto|].
  destruct (p <? q); [by rewrite elem_of_cons|]. destruct (Z.eqb_spec p q) as [->|]; [rewrite elem_of_cons; tauto|].
  rewrite !elem_of_cons, IH. tauto.
Qed.

Lemma egress_ports_in l x : x ∈ egress_ports l <-> exists e, e ∈ l /\ ee_port e = Some x.
Proof.
  unfold egress_ports. assert (H : forall l ps, x ∈ foldl (fun ps e => match ee_port e with Some p => insert_port p ps | None => ps end) ps l <->
    x ∈ ps \/ exists e, e ∈ l /\ ee_port e = Some x).
  { clear. induction l as [|e l IH]; intros ps; cbn [foldl]; [set_solver|]. rewrite IH. setoid_rewrite elem_of_cons.
    destruct (ee_port e) as [p|] eqn:E; rewrite ?insert_port_in; naive_solver. }
  rewrite H, elem_of_nil. naive_solver.
Qed.

(** The ports that endpoints name, or 443 alone when none names one. *)
Lemma network_ports_in l x :
  x ∈ network_ports l <-> (exists e, e ∈ l /\ ee_port e = Some x) \/ x = 443 /\ forall e, e ∈ l -> ee_port e = None.
Proof.
  rewrite <- egress_ports_in. pose proof (egress_ports_in l) as Hin. unfold network_ports. destruct (egress_ports l) as [|p ps].
  - rewrite list_elem_of_singleton, elem_of_nil. split; [intros ->; right|by intros [[]|[? _]]]. split; [done|]. intros e He.
    destruct (ee_port e) as [q|] eqn:E; [|done]. exfalso. eapply elem_of_nil, Hin. by exists e.
  - split; [by left|]. intros [?|[_ Hno]]; [done|]. exfalso. destruct (proj1 (Hin p)) as (e & He & E); [apply elem_of_cons; by left|].
    by rewrite Hno in E.
Qed.

Lemma profile_reads spec : Forall Port_ok (sp_egress spec) -> reads_as (seatbelt_profile spec) (intended_rules spec).
Proof.
  intros Hp. unfold seatbelt_profile, intended_rules.
  apply (reads_as_app _ [RVersion] _ (RDenyDefault :: _)); [reflexivity|]. apply (reads_as_app _ [RDenyDefault] _ (RImport _ :: _)); [reflexivity|].
  apply (reads_as_app _ [RImport (str "system.sb")] _ (RProcess _ :: _)); [reflexivity|].
  apply (reads_as_app _ [RProcess (str "process-fork")] _ (RProcess _ :: _)); [reflexivity|].
  apply (reads_as_app _ [RProcess (str "process-exec")]); [reflexivity|].
  apply reads_as_app.
  { assert (E : forall l, RRead <$> l = mjoin ((fun p => [RRead p]) <$> l)) by (induction l as [|x l IH]; [done|]; cbn; by f_equal).
    rewrite E. apply (reads_as_list read_line (fun p => [RRead p])). apply read_line_ok. }
  apply reads_as_app.
  { apply reads_as_list. intros w. apply (reads_as_app _ [RRead w] _ [RWrite w]); [apply read_line_ok|apply write_line_ok]. }
  destruct (sp_allow_network spec && _); [|reflexivity].
  apply (reads_as_app _ [RNet (str "udp") (str "*:53")] _ (RNet _ _ :: _)); [reflexivity|].
  apply (reads_as_app _ [RNet (str "tcp") (str "*:53")]); [reflexivity|].
  assert (Hports : Forall (fun x => 0 <= x) (network_ports (sp_egress spec))).
  { apply Forall_forall. intros x [(e & He & Ex)|[-> _]]%network_ports_in; [|lia]. rewrite Forall_forall in Hp. specialize (Hp e He).
    unfold Port_ok in Hp. rewrite Ex in Hp. apply Hp. }
  induction Hports as [|x l Hx Hl IH]; [reflexivity|].
  change (reads_as (net_line "tcp" x ++ mjoin (net_line "tcp" <$> l)) ([RNet (str "tcp") (str "*:" ++ show_uint x)] ++ ((fun p => RNet (str "tcp") (str "*:" ++ show_uint p)) <$> l))).
  apply reads_as_app; [|done]. apply net_line_ok; auto.
Qed.

Lemma nonblank_in l p : p ∈ nonblank l <-> p <> [] /\ exists d, d ∈ l /\ p = trim d.
Proof.
  unfold nonblank. rewrite list_elem_of_In, filter_In, <- list_elem_of_In, list_elem_of_fmap, negb_true_iff, bool_decide_eq_false. naive_solver.
Qed.

(** *** What a policy grants *)

(** An endpoint a job may reach, by what the configuration says: an explicit entry or,
    when egress follows storage, the storage endpoint, the endpoint option of a provider,
    or a public endpoint of an enabled provider. *)
Inductive allowed (cfg : SandboxConfig) (storage : StorageConfig) : EgressEndpoint -> Prop :=
| allowed_explicit s e : s ∈ sb_egress_allowlist cfg -> parse_endpoint s = Some e -> allowed cfg storage e
| allowed_storage s e : sb_egress_mode cfg = EgressInheritStorage -> sto_endpoint storage = Some s -> parse_endpoint s = Some e ->
    allowed cfg storage e
| allowed_option p opts s e : sb_egress_mode cfg = EgressInheritStorage -> (p, opts) ∈ sto_provider_options storage ->
    map_get (str "endpoint") opts = Some s -> parse_endpoint s = Some e -> allowed cfg storage e
| allowed_s3 : sb_egress_mode cfg = EgressInheritStorage -> str "s3" ∈ sto_enabled_providers storage ->
    allowed cfg storage (mkEndpoint (str "s3.amazonaws.com") (Some 443))
| allowed_s3_region r : sb_egress_mode cfg = EgressInheritStorage -> str "s3" ∈ sto_enabled_providers storage ->
    sto_region storage = Some r -> trim r <> [] ->
    allowed cfg storage (mkEndpoint (str "s3." ++ trim r ++ str ".amazonaws.com") (Some 443))
| allowed_azure p host : sb_egress_mode cfg = EgressInheritStorage -> p ∈ sto_enabled_providers storage ->
    p ∈ [str "az"; str "azure"; str "abfss"] -> host ∈ [str "*.blob.core.windows.net"; str "*.dfs.core.windows.net"] ->
    allowed cfg storage (mkEndpoint host (Some 443))
| allowed_gcs p : sb_egress_mode cfg = EgressInheritStorage -> p ∈ sto_enabled_providers storage -> p ∈ [str "gcs"; str "gs"] ->
    allowed cfg storage (mkEndpoint (str "storage.googleapis.com") (Some 443)).

(** The rules of a job's profile, by what the configuration says. *)
Inductive granted (cfg : SandboxConfig) (storage : StorageConfig) (temp_dir : bytes) : Rule -> Prop :=
| granted_version : granted cfg storage temp_dir RVersion
| granted_deny : granted cfg storage temp_dir RDenyDefault
| granted_import : granted cfg storage temp_dir (RImport (str "system.sb"))
| granted_fork : granted cfg storage temp_dir (RProcess (str "process-fork"))
| granted_exec : granted cfg storage temp_dir (RProcess (str "process-exec"))
| granted_input d : d ∈ sto_allowed_local_paths storage -> trim d <> [] -> granted cfg storage temp_dir (RRead (trim d))
| granted_read : trim temp_dir <> [] -> granted cfg storage temp_dir (RRead (trim temp_dir))
| granted_write : trim temp_dir <> [] -> granted cfg storage temp_dir (RWrite (trim temp_dir))
| granted_dns e q : sto_enable_remote_access storage = true -> allowed cfg storage e -> q ∈ [str "udp"; str "tcp"] ->
    granted cfg storage temp_dir (RNet q (str "*:53"))
| granted_port e port : sto_enable_remote_access storage = true -> allowed cfg storage e -> ee_port e = Some port ->
    granted cfg storage temp_dir (RNet (str "tcp") (str "*:" ++ show_uint port))
| granted_https e : sto_enable_remote_access storage = true -> allowed cfg storage e ->
    (forall e', allowed cfg storage e' -> ee_port e' = None) -> granted cfg storage temp_dir (RNet (str "tcp") (str "*:443")).

Lemma one_of_in id l : is_one_of id l = true <-> id ∈ (fun s => str s) <$> l.
Proof.
  unfold is_one_of. rewrite existsb_exists, list_elem_of_fmap. setoid_rewrite bool_decide_eq_true. setoid_rewrite <- list_elem_of_In. naive_solver.
Qed.

Lemma well_known_in p region e :
  e ∈ well_known_endpoints p region <->
  p = str "s3" /\ e = mkEndpoint (str "s3.amazonaws.com") (Some 443)
  \/ p = str "s3" /\ (exists r, region = Some r /\ trim r <> [] /\ e = mkEndpoint (str "s3." ++ trim r ++ str ".amazonaws.com") (Some 443))
  \/ p ∈ [str "az"; str "azure"; str "abfss"] /\ (exists h, h ∈ [str "*.blob.core.windows.net"; str "*.dfs.core.windows.net"] /\ e = mkEndpoint h (Some 443))
  \/ p ∈ [str "gcs"; str "gs"] /\ e = mkEndpoint (str "storage.googleapis.com") (Some 443).
Proof.
  unfold well_known_endpoints.
  pose proof (one_of_in p ["s3"%string]) as H1. pose proof (one_of_in p ["az"; "azure"; "abfss"]%string) as H2.
  pose proof (one_of_in p ["gcs"; "gs"]%string) as H3. cbn [fmap list_fmap] in H1, H2, H3. rewrite list_elem_of_singleton in H1.
  assert (Hd1 : p = str "s3" -> p ∉ [str "az"; str "azure"; str "abfss"] /\ p ∉ [str "gcs"; str "gs"]).
  { intros ->. split; apply (bool_decide_unpack _); vm_compute; exact I. }
  assert (Hd2 : p ∈ [str "az"; str "azure"; str "abfss"] -> p ∉ [str "gcs"; str "gs"]).
  { intros Hp. rewrite !elem_of_cons, elem_of_nil in Hp. destruct Hp as [->|[->|[->|[]]]]; apply (bool_decide_unpack _); vm_compute; exact I. }
  destruct (is_one_of p ["s3"%string]).
  - pose proof (proj1 H1 eq_refl) as Ep. destruct (Hd1 Ep) as [Na Ng]. rewrite elem_of_cons. split.
    + intros [->|H]; [by left|]. right. left. split; [done|]. destruct region as [r|]; [|by apply elem_of_nil in H]. exists r.
      cbn [fmap option_fmap option_map] in H. destruct (trim r) as [|c t]; [by apply elem_of_nil in H|]. by apply list_elem_of_singleton in H.
    + intros [[_ ->]|[[_ (r & -> & Hr & ->)]|[[Hq _]|[Hq _]]]]; [by left| |by destruct Na|by destruct Ng]. right.
      cbn [fmap option_fmap option_map]. destruct (trim r) as [|c t]; [done|]. by apply list_elem_of_singleton.
  - assert (Ns : p <> str "s3") by (intros E; apply H1 in E; discriminate E). destruct (is_one_of p ["az"; "azure"; "abfss"]%string).
    + pose proof (proj1 H2 eq_refl) as Hp. specialize (Hd2 Hp). rewrite elem_of_cons, list_elem_of_singleton. split.
      * intros H. right. right. left. split; [done|]. destruct H as [->| ->]; eexists; (split; [|reflexivity]); rewrite elem_of_cons, list_elem_of_singleton; auto.
      * intros [[? _]|[[? _]|[[_ (h & Hh & ->)]|[? _]]]]; [done..| |done]. rewrite elem_of_cons, list_elem_of_singleton in Hh. destruct Hh as [->| ->]; auto.
    + assert (Na : p ∉ [str "az"; str "azure"; str "abfss"]) by (intros E; apply H2 in E; discriminate E). destruct (is_one_of p ["gcs"; "gs"]%string).
      * rewrite list_elem_of_singleton. split; [intros ->; right; right; right; split; [by apply H3|done]|].
        intros [[? _]|[[? _]|[[? _]|[_ ->]]]]; done.
      * split; [by intros ?%elem_of_nil|]. intros [[? _]|[[? _]|[[? _]|[Hq _]]]]; [done..|]. apply H3 in Hq. discriminate Hq.
Qed.

(** The list the code derives holds the allowed endpoints, and nothing else. *)
Lemma derive_allowed cfg storage e : e ∈ derive cfg storage <-> allowed cfg storage e.
Proof.
  rewrite derive_exact. unfold egress_candidates. rewrite elem_of_app, list_elem_of_fmap.
  assert (Hn : parse_endpoint [] = None) by reflexivity. split.
  - intros [H|(s & H & Hs)]; [|by eapply allowed_explicit].
    destruct (bool_decide_reflect (sb_egress_mode cfg = EgressInheritStorage)) as [Hm|]; [|by apply elem_of_nil in H].
    rewrite !elem_of_app, list_elem_of_singleton, list_elem_of_omap, list_elem_of_fmap in H. destruct H as [H|[(x & Hx & H)|(x & [= ->] & H)]].
    + destruct (sto_endpoint storage) as [s|] eqn:E; cbn [from_option] in H; [by eapply allowed_storage|by rewrite Hn in H].
    + destruct x as [p opts]. cbn [snd] in H. destruct (map_get _ opts) as [s|] eqn:E; [|done]. injection H as H. by eapply allowed_option.
    + apply list_elem_of_join in H as (l & H & (p & -> & Hp)%list_elem_of_fmap).
      apply well_known_in in H as [[-> ->]|[[-> (r & Er & Hr & ->)]|[[Hq (h & Hh & ->)]|[Hq ->]]]].
      * by apply allowed_s3.
      * by eapply allowed_s3_region.
      * by eapply allowed_azure.
      * by eapply allowed_gcs.
  - assert (Hwk : forall p, sb_egress_mode cfg = EgressInheritStorage -> p ∈ sto_enabled_providers storage ->
        forall e, e ∈ well_known_endpoints p (sto_region storage) ->
        Some e ∈ Some <$> mjoin ((fun p => well_known_endpoints p (sto_region storage)) <$> sto_enabled_providers storage)).
    { intros p _ Hp x Hx. apply list_elem_of_fmap_2, list_elem_of_join. eexists. split; [exact Hx|]. by apply list_elem_of_fmap_2'  with p. }
    intros [s x Hs E|s x Hm Hs E|p opts s x Hm Ho Hs E|Hm Hp|r Hm Hp Hr Ht|p h Hm Hp Hq Hh|p Hm Hp Hq];
      [right; by exists s|left; rewrite bool_decide_true by done; rewrite !elem_of_app..].
    + left. rewrite Hs. cbn [from_option id]. rewrite E. by apply list_elem_of_singleton.
    + right. left. apply list_elem_of_omap. exists (p, opts). split; [done|]. cbn [snd]. rewrite Hs. cbn. by rewrite E.
    + right. right. apply (Hwk (str "s3") Hm Hp), well_known_in. naive_solver.
    + right. right. apply (Hwk (str "s3") Hm Hp), well_known_in. naive_solver.
    + right. right. apply (Hwk p Hm Hp), well_known_in. naive_solver.
    + right. right. apply (Hwk p Hm Hp), well_known_in. naive_solver.
Qed.

Lemma intended_granted cfg storage budget temp_dir r :
  r ∈ intended_rules (resolve_spec cfg storage budget temp_dir) <-> granted cfg storage temp_dir r.
Proof.
  unfold intended_rules. cbn [sp_read_only_paths sp_writable_paths sp_allow_network sp_egress resolve_spec].
  pose proof (fun e => derive_allowed cfg storage e) as Hall. set (eg := derive cfg storage) in *.
  assert (Hw : forall r, r ∈ mjoin ((fun w => [RRead w; RWrite w]) <$> nonblank [temp_dir])
    <-> trim temp_dir <> [] /\ (r = RRead (trim temp_dir) \/ r = RWrite (trim temp_dir))).
  { intros x. rewrite list_elem_of_join. setoid_rewrite list_elem_of_fmap. setoid_rewrite nonblank_in. setoid_rewrite list_elem_of_singleton. split.
    - intros (l & Hl & w & -> & Hne & d & -> & ->). rewrite elem_of_cons, list_elem_of_singleton in Hl. done.
    - intros [Hne Hx]. exists [RRead (trim temp_dir); RWrite (trim temp_dir)]. split; [by rewrite elem_of_cons, list_elem_of_singleton|].
      exists (trim temp_dir). split; [done|]. split; [done|]. by exists temp_dir. }
  rewrite !elem_of_app, Hw, list_elem_of_fmap. setoid_rewrite nonblank_in. split.
  - intros [H|[(p & -> & Hne & d & Hd & ->)|[[Hne [->| ->]]|H]]]; [|by constructor..|].
    + rewrite !elem_of_cons, elem_of_nil in H. destruct H as [H|[H|[H|[H|[H|[]]]]]]; subst r; constructor.
    + destruct (sto_enable_remote_access storage) eqn:Er; [|by apply elem_of_nil in H].
      destruct eg as [|e0 eg']; [by apply elem_of_nil in H|]. rewrite bool_decide_false in H by done. cbn [andb negb] in H.
      assert (He0 : allowed cfg storage e0) by (apply Hall, elem_of_cons; by left).
      rewrite elem_of_app, list_elem_of_fmap, elem_of_cons, list_elem_of_singleton in H.
      destruct H as [[->| ->]|(x & -> & Hx)]; [eapply granted_dns; [done|exact He0|set_solver]..|].
      apply network_ports_in in Hx as [(e & He%Hall & Ex)|[-> Hno]]; [exact (granted_port _ _ _ e _ Er He Ex)|].
      eapply granted_https; [done|exact He0|]. intros e' He'. apply Hno. by apply Hall.
  - assert (Hnet : forall e x, sto_enable_remote_access storage = true -> allowed cfg storage e ->
      x ∈ [RNet (str "udp") (str "*:53"); RNet (str "tcp") (str "*:53")] ++ ((fun p => RNet (str "tcp") (str "*:" ++ show_uint p)) <$> network_ports eg) ->
      x ∈ (if (sto_enable_remote_access storage && negb (bool_decide (eg = []))) && negb (bool_decide (eg = []))
           then [RNet (str "udp") (str "*:53"); RNet (str "tcp") (str "*:53")] ++ ((fun p => RNet (str "tcp") (str "*:" ++ show_uint p)) <$> network_ports eg)
           else [])).
    { intros e x -> He%Hall Hx. destruct eg as [|e0 eg']; [by apply elem_of_nil in He|]. by rewrite bool_decide_false. }
    intros [ | | | | |d Hd Hne|Hne|Hne|e q Hr He Hq|e x Hr He Ex|e Hr He Hno].
    1-5: left; rewrite !elem_of_cons; tauto.
    + right. left. exists (trim d). split; [done|]. split; [done|]. by exists d.
    + right. right. left. by auto.
    + right. right. left. by auto.
    + right. right. right. eapply Hnet; [done|exact He|]. rewrite elem_of_app. left.
      rewrite elem_of_cons, list_elem_of_singleton in Hq. rewrite elem_of_cons, list_elem_of_singleton. destruct Hq as [->| ->]; auto.
    + right. right. right. eapply Hnet; [done|exact He|]. rewrite elem_of_app, list_elem_of_fmap. right. exists x. split; [done|].
      apply network_ports_in. left. exists e. split; [by apply Hall|done].
    + right. right. right. eapply Hnet; [done|exact He|]. rewrite elem_of_app, list_elem_of_fmap. right. exists 443. split; [done|].
      apply network_ports_in. right. split; [done|]. intros e' He'. by apply Hno, Hall.
Qed.

(** C35: the sandbox profile of a job grants exactly what its policy says.  Whatever
    characters the configured paths, endpoints and the job's directory contain, the
    generated profile reads back as a list of rules that begins by denying everything
    and holds exactly these: the system import and the two process rules; reading of the
    configured directories and of the job's own; writing of the job's own; and, only when
    remote access is on and some endpoint is allowed, DNS and the TCP ports that the
    allowed endpoints name - or 443 alone when none of them names one.  An endpoint is
    allowed when it is an entry of the explicit list or, when egress follows storage, the
    configured storage endpoint, the endpoint option of some provider, or a public
    endpoint of an enabled provider.  An empty path grants nothing. *)
Theorem sandbox_profile_exact (cfg : SandboxConfig) (storage : StorageConfig) (budget : JobBudget) (temp_dir : bytes) :
  exists rules,
    read_profile (seatbelt_profile (resolve_spec cfg storage budget temp_dir)) = Some (RVersion :: RDenyDefault :: rules)
    /\ (forall r, r ∈ RVersion :: RDenyDefault :: rules <-> granted cfg storage temp_dir r)
    /\ (forall e, e ∈ derive cfg storage <-> allowed cfg storage e).
Proof.
  pose proof (intended_granted cfg storage budget temp_dir) as Hg.
  assert (Hr : read_profile (seatbelt_profile (resolve_spec cfg storage budget temp_dir)) = Some (intended_rules (resolve_spec cfg storage budget temp_dir)))
    by apply reads_as_profile, profile_reads, derive_ports.
  unfold intended_rules in Hr, Hg. eexists. split; [exact Hr|]. split; [exact Hg|]. intros e. apply derive_allowed.
Qed.

(** ** The child's limits *)

Lemma rlimit_keys_distinct l : NoDup (fst <$> rlimit_settings l).
Proof. destruct l as [[] [] [] [] []]; apply (bool_decide_unpack _); vm_compute; exact I. Qed.

(** Every configured resource ends with a soft limit of at most the configured value and
    at most the hard limit, which stays; the others keep theirs. *)
Lemma rlimits_applied ls l r :
  rlim_max (apply_rlimits ls l r) = rlim_max (ls r)
  /\ match snd <$> List.find (fun s => bool_decide (s.1 = r)) (rlimit_settings l) with
     | Some v => exists c, rlim_cur (apply_rlimits ls l r) = Some c /\ c <= v /\ match rlim_max (ls r) with Some h => c <= h | None => True end
     | None => rlim_cur (apply_rlimits ls l r) = rlim_cur (ls r)
     end.
Proof.
  unfold apply_rlimits. pose proof (rlimit_keys_distinct l) as Hd. revert ls. induction (rlimit_settings l) as [|[r' v] ss IH]; intros ls; [done|].
  rewrite fmap_cons in Hd. apply NoDup_cons in Hd as [Hr Hd]. cbn [foldl List.find fst].
  destruct (IH Hd (apply_rlimit ls (r', v))) as [H1 H2]. clear IH. unfold apply_rlimit in H1, H2 |- *. cbn [fst snd] in *.
  destruct (bool_decide_reflect (r' = r)) as [->|Hne].
  - rewrite bool_decide_true in H1, H2 by done. cbn [rlim_max rlim_cur] in *. split; [done|]. cbn [fmap option_fmap option_map snd].
    destruct (List.find _ ss) as [[r2 v2]|] eqn:E.
    + exfalso. apply find_some in E as [E1 E2]. apply bool_decide_eq_true in E2 as E2'. cbn in E2'. subst r2. apply Hr, list_elem_of_fmap.
      exists (r, v2). split; [done|]. by apply list_elem_of_In.
    + cbn in H2. rewrite H2. eexists. split; [reflexivity|]. destruct (rlim_max (ls r)); split; lia.
  - rewrite bool_decide_false in H1, H2 by congruence. done.
Qed.

(** The soft limit can also go up. *)
Definition shell_limits : Rlimits := fun _ => mkRlimit (Some 256) None.
Example soft_limit_raised :
  rlim_cur (apply_rlimits shell_limits (mkLimits None None None (Some 4096) None) RLIMIT_NOFILE) = Some 4096.
Proof. reflexivity. Qed.

Example endpoints :
  parse_endpoint (str " https://user@minio.local:9000/bucket?x ") = Some (mkEndpoint (str "minio.local") (Some 9000))
  /\ parse_endpoint (str "[::1]:9000") = Some (mkEndpoint (str "[::1]") (Some 9000))
  /\ parse_endpoint (str "fe80::1") = Some (mkEndpoint (str "fe80:") (Some 1))
  /\ parse_endpoint (str "host:99999") = Some (mkEndpoint (str "host:99999") None)
  /\ parse_endpoint (str "https:///x") = None.
Proof. vm_compute. done. Qed.

(** An endpoint without a port is unreachable when another one names a port. *)
Example portless_endpoint_shadowed :
  network_ports [mkEndpoint (str "a") None; mkEndpoint (str "b") (Some 9000)] = [9000].
Proof. reflexivity. Qed.

Example no_sockets_without_network : seccomp_allows false (str "connect") = false /\ seccomp_allows true (str "connect") = true.
Proof. vm_compute. done. Qed.

(** A job directory whose name tries to open the network adds no rule of its own. *)
Lemma sandbox_profile_exact_witness :
  let storage := default_StorageConfig <| sto_enable_remote_access := true |> <| sto_enabled_providers := [str "s3"] |> in
  let spec := resolve_spec default_SandboxConfig storage (mkBudget 1000 2) (str "/tmp/a) (allow network*)") in
  sp_allow_network spec = true
  /\ exists rules, read_profile (seatbelt_profile spec) = Some rules /\ RNet (str "tcp") (str "*:443") ∈ rules
     /\ RWrite (str "/tmp/a) (allow network*)") ∈ rules.
Proof.
  intros storage spec. split; [vm_compute; reflexivity|].
  destruct (sandbox_profile_exact default_SandboxConfig storage (mkBudget 1000 2) (str "/tmp/a) (allow network*)")) as (rules & E & H & _).
  exists (RVersion :: RDenyDefault :: rules). split; [exact E|]. split; apply H.
  - apply (granted_port _ _ _ (mkEndpoint (str "s3.amazonaws.com") (Some 443)) 443); [reflexivity| |reflexivity].
    apply allowed_s3; [reflexivity|]. by apply list_elem_of_singleton.
  - apply (granted_write default_SandboxConfig storage (str "/tmp/a) (allow network*)")). vm_compute. discriminate.
Defined.
