(* ===== verification/Subprocess.v ===== *)
(** * One process per job (node/subprocess.rs)

    The framed protocol between the host and the sandboxed child that runs one job, the
    child's side ([serve_job]) and the host's side ([run]).  The wire codec is plain
    JSON by a third-party crate: [JobCodec], of which it is assumed that requests,
    heartbeats, errors and results without floating-point values read back.  A pipe is the list of bytes written to it.  The operating system is a
    record of what each call answers; the directories under the temporary directory are a
    set, so that what is left behind can be stated. *)

From S2P Require Import Prelude Bytes Text Proto Input ConfigData RunQuery Worker DuckEngine Sandbox.
#[local] Open Scope duckton_scope.

Definition MAX_FRAME_BYTES : Z := 256 * 1024 * 1024.

Record JobRequest := mkRequest {
  rq_sql : bytes;
  rq_memory_bytes : Z;
  rq_threads : Z;
  rq_max_spill_bytes : Z;
  rq_credential : option ScopedCredential;
  rq_parquet_keys : list (bytes * bytes);
  rq_input_snapshot : option InputSnapshot;
  rq_signed_inputs : list SignedInput;
  rq_progress_interval_ms : Z;
}.

Record JobResponse := mkResponse { rs_result : option ResultSet; rs_error : option bytes }.
Record JobProgress := mkJobProgress { jp_stage : bytes; jp_rows_processed : Z; jp_pct : Z; jp_seq : Z; jp_ts_ms : Z }.
Inductive JobFrame := FProgress (p : JobProgress) | FDone (r : JobResponse).

Class JobCodec := {
  encode_request : JobRequest -> bytes;
  decode_request : bytes -> result JobRequest bytes;
  encode_frame : JobFrame -> bytes;
  decode_frame : bytes -> result JobFrame bytes;
}.
(** A result without floating-point values. *)
Definition no_floats (rs : ResultSet) : bool :=
  forallb (forallb (fun v => match v with VFloat _ => false | _ => true end)) (rows rs).

(** The codec is JSON: texts, integers and booleans read back as they were.  A number that
    is not finite does not, and a finite one may come back with another last digit, so
    nothing is assumed of a result with floating-point values. *)
Class JobCodecLaws (K : JobCodec) : Prop := {
  decode_encode_request r : decode_request (encode_request r) = Ok r;
  decode_encode_progress p : decode_frame (encode_frame (FProgress p)) = Ok (FProgress p);
  decode_encode_error e : decode_frame (encode_frame (FDone (mkResponse None (Some e)))) = Ok (FDone (mkResponse None (Some e)));
  decode_encode_plain rs : no_floats rs = true ->
    decode_frame (encode_frame (FDone (mkResponse (Some rs) None))) = Ok (FDone (mkResponse (Some rs) None));
}.

(** ** Frames *)

(** [(bytes.len() as u32).to_le_bytes()], then the bytes *)
Definition write_frame (b : bytes) : bytes := le_bytes 4 (wrap 32 (Z.of_nat (length b))) ++ b.

(** [read_exact] *)
Definition read_exact (n : nat) (s : bytes) : result (bytes * bytes) bytes :=
  if (n <=? length s)%nat then Ok (take n s, drop n s) else Err (str "early eof").

Definition read_frame (s : bytes) : result (bytes * bytes) bytes :=
  l <-? read_exact 4 s ;;
  let n := le_val l.1 in
  guard negb (MAX_FRAME_BYTES <? n) else str "job frame exceeds the maximum size" ;;
  read_exact (Z.to_nat n) l.2.

(** [EngineError]'s display *)
Definition show_engine_error (e : EngineError) : bytes :=
  match e with
  | Exec m => str "execution failed: " ++ m
  | Rejected m => str "query rejected by lockdown policy: " ++ m
  end.

Section subprocess.
Context {K : JobCodec}.
Abbreviation Engine := (bytes -> ExecLease -> JobContext -> result ResultSet EngineError).

(** *** The child *)

Definition progress_frame (seq ts : Z) : bytes := write_frame (encode_frame (FProgress (mkJobProgress (str "executing") 0 0 seq ts))).

(** The heartbeats: one to start with, then one per tick of the timer, when it is on. *)
Fixpoint heartbeats (ticks : nat) (seq : Z) (clock : nat -> Z) : bytes :=
  progress_frame seq (clock ticks)
  ++ match ticks with O => [] | S t => heartbeats t (sat_add 32 seq 1) clock end.

(** [serve_job]: what the child writes; [ticks] timer ticks pass while the engine runs. *)
Definition serve_job (engine : Engine) (ticks : nat) (clock : nat -> Z) (input : bytes) : result bytes bytes :=
  f <-? read_frame input ;;
  req <-? decode_request f.1 ;;
  let ctx := mkJobContext (rq_credential req) (rq_parquet_keys req) (rq_input_snapshot req) (rq_signed_inputs req) None in
  let lease := mkExecLease (rq_memory_bytes req) (rq_threads req) (rq_max_spill_bytes req) in
  let beats := heartbeats (if 0 <? rq_progress_interval_ms req then ticks else O) 1 clock in
  let resp := match engine (rq_sql req) lease ctx with
              | Ok rs => mkResponse (Some rs) None
              | Err e => mkResponse None (Some (show_engine_error e))
              end in
  Ok (beats ++ write_frame (encode_frame (FDone resp))).

(** *** The host *)

Record SubprocessEngine := mkSubprocess {
  se_sandbox_cfg : SandboxConfig;
  se_storage_cfg : StorageConfig;
  se_progress_interval_ms : Z;
}.

(** What the operating system answers: making the directory, building the sandboxed
    command, spawning it, writing to its input; and what the child writes back. *)
Record Os := mkOs {
  os_mkdir : result unit bytes;
  os_command : SandboxSpec -> result unit bytes;
  os_spawn : result unit bytes;
  os_write : result unit bytes;
  os_child : bytes -> bytes;
}.

(** The loop over the child's frames; [None]: out of fuel. *)
Fixpoint read_until_done (fuel : nat) (s : bytes) : option (result JobResponse EngineError) :=
  match fuel with
  | O => None
  | S fuel' =>
      match read_frame s with
      | Err e => Some (Err (Exec (str "read job frame: " ++ e)))
      | Ok (b, rest) =>
          match decode_frame b with
          | Err e => Some (Err (Exec (str "decode job frame: " ++ e)))
          | Ok (FProgress _) => read_until_done fuel' rest
          | Ok (FDone resp) => Some (Ok resp)
          end
      end
  end.

(** [SubprocessEngine::run]; the directories that exist are threaded through. *)
Definition run (se : SubprocessEngine) (os : Os) (job_tmp sql : bytes) (lease : ExecLease) (ctx : JobContext) (dirs : gset bytes) :
    result ResultSet EngineError * gset bytes :=
  match os_mkdir os with
  | Err e => (Err (Rejected (str "temp dir: " ++ e)), dirs)
  | Ok _ =>
      let dirs := {[job_tmp]} ∪ dirs in
      let spec := resolve_spec (se_sandbox_cfg se) (se_storage_cfg se) (mkBudget (el_memory_bytes lease) (el_threads lease)) job_tmp in
      match os_command os spec with
      | Err e => (Err (Rejected (str "build sandbox command: " ++ e)), dirs)
      | Ok _ =>
          match os_spawn os with
          | Err e => (Err (Exec (str "spawn job executor: " ++ e)), dirs)
          | Ok _ =>
              let req := mkRequest sql (el_memory_bytes lease) (el_threads lease) (el_max_spill_bytes lease) (cx_credential ctx)
                (cx_parquet_keys ctx) (cx_input_snapshot ctx) (cx_signed_inputs ctx) (se_progress_interval_ms se) in
              let input := write_frame (encode_request req) in
              match os_write os with
              | Err e => (Err (Exec (str "write job request: " ++ e)), dirs)
              | Ok _ =>
                  let output := os_child os input in
                  match read_until_done (S (length output)) output with
                  | None => (Err (Exec []), dirs)
                  | Some (Err e) => (Err e, dirs)
                  | Some (Ok resp) =>
                      (match rs_result resp, rs_error resp with
                       | Some rs, _ => Ok rs
                       | None, Some e => Err (Exec e)
                       | None, None => Err (Exec (str "empty job response"))
                       end, dirs ∖ {[job_tmp]})
                  end
              end
          end
      end
  end.

(** ** Frames survive the pipe *)

Lemma read_exact_prefix n a b : length a = n -> read_exact n (a ++ b) = Ok (a, b).
Proof using Type.
  intros <-. unfold read_exact. rewrite length_app, (proj2 (Nat.leb_le _ _)) by lia. by rewrite take_app_length, drop_app_length.
Qed.

Definition small (b : bytes) : Prop := Z.of_nat (length b) <= MAX_FRAME_BYTES.

Lemma read_write_frame b rest : small b -> read_frame (write_frame b ++ rest) = Ok (b, rest).
Proof using Type.
  unfold small, MAX_FRAME_BYTES. intros Hb. unfold read_frame, write_frame. rewrite <- app_assoc.
  rewrite read_exact_prefix by apply length_le_bytes. cbn [res_bind fst snd].
  rewrite le_val_bytes by (unfold wrap; change (256 ^ Z.of_nat 4) with (2 ^ 32); apply Z.mod_pos_bound; lia).
  unfold wrap. rewrite Z.mod_small by lia. unfold MAX_FRAME_BYTES. rewrite (proj2 (Z.ltb_ge _ _)) by lia. cbn [negb].
  rewrite Nat2Z.id. by apply read_exact_prefix.
Qed.

(** The loop never runs out of fuel: every frame takes at least four bytes. *)
Lemma read_until_done_ends fuel s : (length s < fuel)%nat -> exists r, read_until_done fuel s = Some r.
Proof using Type.
  revert s. induction fuel as [|fuel IH]; intros s Hf; [lia|]. cbn [read_until_done].
  destruct (read_frame s) as [[b rest]|e] eqn:E; [|by eexists]. destruct (decode_frame b) as [[p|resp]|e]; [|by eexists..].
  apply IH. unfold read_frame in E. apply res_bind_ok in E as ([l s'] & E1 & E). cbn [fst snd] in E.
  unfold read_exact in E1. destruct (Nat.leb_spec 4 (length s)); [|done]. injection E1 as <- <-.
  destruct (negb _); [|done]. unfold read_exact in E. destruct (_ <=? _)%nat; [|done]. injection E as <- <-.
  rewrite !length_drop. lia.
Qed.

Context {KL : JobCodecLaws K}.

Lemma heartbeats_skipped ticks seq clock rest fuel :
  (forall seq ts, in_u 32 seq -> in_u 64 ts -> small (encode_frame (FProgress (mkJobProgress (str "executing") 0 0 seq ts)))) ->
  (forall t, in_u 64 (clock t)) -> in_u 32 seq ->
  read_until_done (S ticks + fuel) (heartbeats ticks seq clock ++ rest) = read_until_done fuel rest.
Proof using KL.
  intros Hs Hc. revert seq. induction ticks as [|t IH]; intros seq Hq; cbn [heartbeats]; rewrite <- ?app_assoc.
  - cbn [app Nat.add]. cbn [read_until_done]. unfold progress_frame. rewrite read_write_frame by (by apply Hs). by rewrite decode_encode_progress.
  - change (S (S t) + fuel)%nat with (S (S t + fuel)). cbn [read_until_done]. unfold progress_frame at 1.
    rewrite read_write_frame by (by apply Hs). rewrite decode_encode_progress. apply IH. unfold in_u, sat_add, umax in *. lia.
Qed.

Lemma heartbeats_length ticks seq clock : (S ticks <= length (heartbeats ticks seq clock))%nat.
Proof using Type.
  revert seq. induction ticks as [|t IH]; intros seq; cbn [heartbeats]; rewrite length_app; unfold progress_frame, write_frame; rewrite length_app, length_le_bytes.
  - cbn. lia.
  - specialize (IH (sat_add 32 seq 1)). lia.
Qed.
End subprocess.

(** C17: running a job in a child process gives what the engine in the process would give.
    When the operating system grants every call and the child is [serve_job] around an
    engine - however many heartbeats it sends meanwhile - the host obtains the engine's
    own result for the same query, lease and context (less the spill directory, which the
    child makes itself), or its error as a text, and the job's directory is gone
    afterwards.  This needs the request and the reply to fit a frame of 256 MiB, and the
    reply to read back from its JSON, which every error does and every result without
    floating-point values: a larger result, or one with an infinite or undefined number
    that JSON cannot spell, which the engine itself would deliver, makes the call fail
    and leaves the job's directory behind. *)
Theorem subprocess_transparent {K : JobCodec} {KL : JobCodecLaws K}
    (se : SubprocessEngine) (os : Os) (engine : bytes -> ExecLease -> JobContext -> result ResultSet EngineError)
    (ticks : nat) (clock : nat -> Z) (job_tmp sql : bytes) (lease : ExecLease) (ctx : JobContext) (dirs : gset bytes) :
  let req := mkRequest sql (el_memory_bytes lease) (el_threads lease) (el_max_spill_bytes lease) (cx_credential ctx)
    (cx_parquet_keys ctx) (cx_input_snapshot ctx) (cx_signed_inputs ctx) (se_progress_interval_ms se) in
  let child_ctx := mkJobContext (cx_credential ctx) (cx_parquet_keys ctx) (cx_input_snapshot ctx) (cx_signed_inputs ctx) None in
  let outcome := engine sql lease child_ctx in
  let reply := match outcome with Ok rs => mkResponse (Some rs) None | Err e => mkResponse None (Some (show_engine_error e)) end in
  os_mkdir os = Ok tt -> (forall spec, os_command os spec = Ok tt) -> os_spawn os = Ok tt -> os_write os = Ok tt ->
  (forall i, os_child os i = match serve_job engine ticks clock i with Ok o => o | Err _ => [] end) ->
  small (encode_request req) -> (forall t, in_u 64 (clock t)) ->
  (forall seq ts, in_u 32 seq -> in_u 64 ts -> small (encode_frame (FProgress (mkJobProgress (str "executing") 0 0 seq ts)))) ->
  (match outcome with Ok rs => no_floats rs = true | Err _ => True end -> decode_frame (encode_frame (FDone reply)) = Ok (FDone reply))
  /\ (small (encode_frame (FDone reply)) -> decode_frame (encode_frame (FDone reply)) = Ok (FDone reply) ->
     run se os job_tmp sql lease ctx dirs
     = (match outcome with Ok rs => Ok rs | Err e => Err (Exec (show_engine_error e)) end, ({[job_tmp]} ∪ dirs) ∖ {[job_tmp]}))
  /\ (forall e, small (encode_frame (FDone reply)) -> decode_frame (encode_frame (FDone reply)) = Err e ->
     run se os job_tmp sql lease ctx dirs = (Err (Exec (str "decode job frame: " ++ e)), {[job_tmp]} ∪ dirs))
  /\ (MAX_FRAME_BYTES < Z.of_nat (length (encode_frame (FDone reply))) < 2 ^ 32 ->
     run se os job_tmp sql lease ctx dirs = (Err (Exec (str "read job frame: job frame exceeds the maximum size")), {[job_tmp]} ∪ dirs)).
Proof.
  intros req child_ctx outcome reply Hm Hc Hs Hw Hch Hr Hcl Hb. unfold run. rewrite Hm, Hc, Hs, Hw. fold req. rewrite Hch.
  set (n := if 0 <? se_progress_interval_ms se then ticks else O).
  assert (Es : serve_job engine ticks clock (write_frame (encode_request req)) = Ok (heartbeats n 1 clock ++ write_frame (encode_frame (FDone reply)))).
  { unfold serve_job. rewrite <- (app_nil_r (write_frame (encode_request req))), read_write_frame by done. cbn [res_bind fst].
    rewrite decode_encode_request. cbn [res_bind rq_sql rq_memory_bytes rq_threads rq_max_spill_bytes rq_credential rq_parquet_keys rq_input_snapshot rq_signed_inputs rq_progress_interval_ms req].
    by destruct lease. }
  rewrite Es. set (w := write_frame (encode_frame (FDone reply))).
  assert (Hloop : read_until_done (S (length (heartbeats n 1 clock ++ w))) (heartbeats n 1 clock ++ w) = read_until_done (S (length (heartbeats n 1 clock ++ w)) - S n) w).
  { pose proof (heartbeats_length n 1 clock). rewrite length_app.
    replace (S (length (heartbeats n 1 clock) + length w)) with (S n + (S (length (heartbeats n 1 clock) + length w) - S n))%nat at 1 by lia.
    by apply heartbeats_skipped. }
  assert (Hfuel : exists k, (S (length (heartbeats n 1 clock ++ w)) - S n)%nat = S k).
  { pose proof (heartbeats_length n 1 clock). rewrite length_app. exists (length (heartbeats n 1 clock) + length w - S n)%nat. lia. }
  destruct Hfuel as (k & Ek). rewrite Hloop, Ek. cbn [read_until_done]. split_and!.
  - unfold reply. destruct outcome as [rs|e]; [apply decode_encode_plain|intros _; apply decode_encode_error].
  - intros Hd Hback. unfold w. rewrite <- (app_nil_r (write_frame _)), read_write_frame by done. rewrite Hback. unfold reply.
    by destruct outcome.
  - intros e Hd Hback. unfold w. rewrite <- (app_nil_r (write_frame _)), read_write_frame by done. by rewrite Hback.
  - intros Hd. assert (E : read_frame w = Err (str "job frame exceeds the maximum size")); [|by rewrite E].
    unfold w, read_frame, write_frame. rewrite read_exact_prefix by apply length_le_bytes. cbn [res_bind fst snd].
    rewrite le_val_bytes by (unfold wrap; change (256 ^ Z.of_nat 4) with (2 ^ 32); apply Z.mod_pos_bound; lia).
    unfold wrap. rewrite Z.mod_small by (unfold MAX_FRAME_BYTES in Hd; lia). by rewrite (proj2 (Z.ltb_lt _ _)) by lia.
Qed.

(** Whatever the operating system and the child do, the directory goes away exactly when a
    last frame was read; every earlier failure leaves it. *)
Lemma run_leaves_directory {K : JobCodec} se os job_tmp sql lease ctx dirs :
  os_mkdir os = Ok tt ->
  (run se os job_tmp sql lease ctx dirs).2 = {[job_tmp]} ∪ dirs
  \/ exists input resp, read_until_done (S (length (os_child os input))) (os_child os input) = Some (Ok resp)
     /\ (run se os job_tmp sql lease ctx dirs).2 = ({[job_tmp]} ∪ dirs) ∖ {[job_tmp]}.
Proof.
  intros Hm. unfold run. rewrite Hm. cbv zeta. destruct (os_command os _) as [|e]; [|by left]. destruct (os_spawn os) as [|e]; [|by left].
  destruct (os_write os) as [|e]; [|by left]. destruct (read_until_done _ _) as [[resp|e]|] eqn:E; [|by left|by left].
  right. eexists _, resp. split; [exact E|done].
Qed.

(** The out-of-fuel branch of [run] is dead. *)
Lemma run_loop_ends {K : JobCodec} (s : bytes) : read_until_done (S (length s)) s <> None.
Proof. destruct (read_until_done_ends (S (length s)) s) as (r & ->); [lia|done]. Qed.

(** ** An instance *)

(** A codec from the countability of the messages: a message is a number, written in as
    many bytes as it needs.  Heartbeats in range have a fixed size. *)
#[local] Instance credential_eq : EqDecision ScopedCredential.
Proof. solve_decision. Defined.
#[local] Instance credential_countable : Countable ScopedCredential.
Proof.
  refine (inj_countable' (fun c => (cr_provider c, cr_token c, cr_prefix c, cr_expires_at c)) (fun '(a, b, c, d) => mkCredential a b c d) _). by intros [].
Defined.
#[local] Instance signed_eq : EqDecision SignedInput.
Proof. solve_decision. Defined.
#[local] Instance signed_countable : Countable SignedInput.
Proof. refine (inj_countable' (fun c => (si_uri c, si_url c)) (fun '(a, b) => mkSignedInput a b) _). by intros []. Defined.
#[local] Instance version_countable : Countable ObjectVersion.
Proof.
  refine (inj_countable'
    (fun v => match v with
              | S3 a b n => inl (inl (a, b, n)) | Azure a b => inl (inr (a, b)) | Gcs g => inr (inl g)
              | ContentAddressed h => inr (inr (inl h)) | Lakehouse f i => inr (inr (inr (f, i)))
              end)
    (fun x => match x with
              | inl (inl (a, b, n)) => S3 a b n | inl (inr (a, b)) => Azure a b | inr (inl g) => Gcs g
              | inr (inr (inl h)) => ContentAddressed h | inr (inr (inr (f, i))) => Lakehouse f i
              end) _). by intros [].
Defined.
#[local] Instance pinned_countable : Countable PinnedObject.
Proof. refine (inj_countable' (fun o => (uri o, provider o, version o)) (fun '(a, b, c) => mkPinned a b c) _). by intros []. Defined.
#[local] Instance snapshot_eq : EqDecision InputSnapshot.
Proof. solve_decision. Defined.
#[local] Instance snapshot_countable : Countable InputSnapshot.
Proof. refine (inj_countable' (fun s => (fingerprint s, objects s)) (fun '(a, b) => mkSnapshot a b) _). by intros []. Defined.
#[local] Instance request_eq : EqDecision JobRequest.
Proof. solve_decision. Defined.
#[local] Instance request_countable : Countable JobRequest.
Proof.
  refine (inj_countable' (fun r => (rq_sql r, (((rq_memory_bytes r, rq_threads r), (rq_max_spill_bytes r, rq_credential r)), ((rq_parquet_keys r,
      rq_input_snapshot r), (rq_signed_inputs r, rq_progress_interval_ms r)))))
    (fun '(a, (((b, c), (d, e)), ((f, g), (h, i)))) => mkRequest a b c d e f g h i) _). by intros [].
Defined.
#[local] Instance value_countable : Countable Value.
Proof.
  refine (inj_countable'
    (fun v => match v with
              | VNull => inl (inl tt) | VBool b => inl (inr b) | VInt i => inr (inl (inl i)) | VFloat f => inr (inl (inr f))
              | VText s => inr (inr (inl s)) | VBlob s => inr (inr (inr s))
              end)
    (fun x => match x with
              | inl (inl _) => VNull | inl (inr b) => VBool b | inr (inl (inl i)) => VInt i | inr (inl (inr f)) => VFloat f
              | inr (inr (inl s)) => VText s | inr (inr (inr s)) => VBlob s
              end) _). by intros [].
Defined.
#[local] Instance result_eq : EqDecision ResultSet.
Proof. solve_decision. Defined.
#[local] Instance result_countable : Countable ResultSet.
Proof. refine (inj_countable' (fun r => (columns r, rows r)) (fun '(a, b) => mkResultSet a b) _). by intros []. Defined.
#[local] Instance response_eq : EqDecision JobResponse.
Proof. solve_decision. Defined.
#[local] Instance response_countable : Countable JobResponse.
Proof. refine (inj_countable' (fun r => (rs_result r, rs_error r)) (fun '(a, b) => mkResponse a b) _). by intros []. Defined.
#[local] Instance progress_eq : EqDecision JobProgress.
Proof. solve_decision. Defined.
#[local] Instance progress_countable : Countable JobProgress.
Proof.
  refine (inj_countable' (fun p => (jp_stage p, jp_rows_processed p, jp_pct p, jp_seq p, jp_ts_ms p)) (fun '(a, b, c, d, e) => mkJobProgress a b c d e) _).
  by intros [].
Defined.

Definition pos_bytes (p : positive) : bytes := le_bytes (Z.to_nat (Z.log2 (Z.pos p) / 8 + 1)) (Z.pos p).
Definition bytes_pos (b : bytes) : option positive := match le_val b with Z.pos p => Some p | _ => None end.
Lemma pos_bytes_back p : bytes_pos (pos_bytes p) = Some p.
Proof.
  unfold bytes_pos, pos_bytes. rewrite le_val_bytes; [done|]. split; [lia|]. rewrite pow_256.
  pose proof (Z.log2_nonneg (Z.pos p)). pose proof (Z.log2_spec (Z.pos p) ltac:(lia)) as [_ H'].
  eapply Z.lt_le_trans; [exact H'|]. apply Z.pow_le_mono_r; [lia|].
  pose proof (Z.div_mod (Z.log2 (Z.pos p)) 8). pose proof (Z.mod_pos_bound (Z.log2 (Z.pos p)) 8).
  assert (0 <= Z.log2 (Z.pos p) / 8) by (apply Z.div_pos; lia). rewrite Z2Nat.id by lia. lia.
Qed.

Definition in_range64 (z : Z) : bool := (0 <=? z) && (z <? 2 ^ 64).
(** Like JSON, the codec has no way to write a number that is not finite. *)
Definition finite_value (v : Value) : bool :=
  match v with VFloat bits => negb (Z.land (Z.shiftr bits 52) 2047 =? 2047) | _ => true end.
Definition json_able (r : JobResponse) : bool :=
  match rs_result r with Some rs => forallb (forallb finite_value) (rows rs) | None => true end.
#[export] Instance number_codec : JobCodec := {|
  encode_request r := pos_bytes (encode r);
  decode_request b := ok_or (p ← bytes_pos b; decode p) (str "malformed");
  encode_frame f :=
    match f with
    | FProgress p =>
        if in_range64 (jp_rows_processed p) && in_range64 (jp_pct p) && in_range64 (jp_seq p) && in_range64 (jp_ts_ms p)
        then Byte.x00 :: le_bytes 8 (jp_rows_processed p) ++ le_bytes 8 (jp_pct p) ++ le_bytes 8 (jp_seq p) ++ le_bytes 8 (jp_ts_ms p) ++ jp_stage p
        else Byte.x01 :: pos_bytes (encode p)
    | FDone r => (if json_able r then Byte.x02 else Byte.x03) :: pos_bytes (encode r)
    end;
  decode_frame b :=
    match b with
    | Byte.x00 :: s => Ok (FProgress (mkJobProgress (drop 32 s) (le_val (take 8 s)) (le_val (take 8 (drop 8 s)))
        (le_val (take 8 (drop 16 s))) (le_val (take 8 (drop 24 s)))))
    | Byte.x01 :: s => ok_or (p ← bytes_pos s; FProgress <$> decode p) (str "malformed")
    | Byte.x02 :: s => ok_or (p ← bytes_pos s; FDone <$> decode p) (str "malformed")
    | Byte.x03 :: _ => Err (str "invalid type: null, expected f64")
    | _ => Err (str "malformed")
    end;
|}.

Lemma four_fields a b c d s :
  in_range64 a = true -> in_range64 b = true -> in_range64 c = true -> in_range64 d = true ->
  let t := le_bytes 8 a ++ le_bytes 8 b ++ le_bytes 8 c ++ le_bytes 8 d ++ s in
  le_val (take 8 t) = a /\ le_val (take 8 (drop 8 t)) = b /\ le_val (take 8 (drop 16 t)) = c /\ le_val (take 8 (drop 24 t)) = d /\ drop 32 t = s.
Proof.
  assert (Hv : forall z r, in_range64 z = true -> le_val (take 8 (le_bytes 8 z ++ r)) = z).
  { intros z r H. unfold in_range64 in H. apply andb_true_iff in H as [?%Z.leb_le ?%Z.ltb_lt].
    rewrite take_app_length' by (by rewrite length_le_bytes). apply le_val_bytes. split; [done|]. change (256 ^ Z.of_nat 8) with (2 ^ 64). done. }
  assert (Hd : forall n z r, drop (8 + n) (le_bytes 8 z ++ r) = drop n r).
  { intros n z r. rewrite <- drop_drop. by rewrite drop_app_length' by (by rewrite length_le_bytes). }
  intros Ha Hb Hc Hdd t. unfold t. split_and!; [by apply Hv| | | |].
  - change 8%nat with (8 + 0)%nat at 2. rewrite Hd, drop_0. by apply Hv.
  - change 16%nat with (8 + (8 + 0))%nat. rewrite !Hd, drop_0. by apply Hv.
  - change 24%nat with (8 + (8 + (8 + 0)))%nat. rewrite !Hd, drop_0. by apply Hv.
  - change 32%nat with (8 + (8 + (8 + (8 + 0))))%nat. by rewrite !Hd, drop_0.
Qed.

Lemma plain_json_able rs : no_floats rs = true -> json_able (mkResponse (Some rs) None) = true.
Proof.
  unfold no_floats, json_able. cbn [rs_result]. rewrite !forallb_forall. intros H r Hr. specialize (H r Hr). rewrite forallb_forall in *.
  intros v Hv. specialize (H v Hv). by destruct v.
Qed.

Lemma done_back r : json_able r = true -> decode_frame (encode_frame (FDone r)) = Ok (FDone r).
Proof.
  intros H. cbn [decode_frame encode_frame number_codec]. rewrite H, pos_bytes_back. cbn [mbind option_bind]. by rewrite decode_encode.
Qed.

#[export] Instance number_codec_laws : JobCodecLaws number_codec.
Proof.
  split.
  - intros r. cbn [decode_request encode_request number_codec]. rewrite pos_bytes_back. cbn [mbind option_bind]. by rewrite decode_encode.
  - intros p. cbn [decode_frame encode_frame number_codec]. destruct (_ && _) eqn:E.
    + rewrite !andb_true_iff in E. destruct E as [[[Ha Hb] Hc] Hd].
      destruct (four_fields _ _ _ _ (jp_stage p) Ha Hb Hc Hd) as (-> & -> & -> & -> & ->). by destruct p.
    + rewrite pos_bytes_back. cbn [mbind option_bind]. by rewrite decode_encode.
  - intros e. by apply done_back.
  - intros rs H. by apply done_back, plain_json_able.
Qed.

Definition demo_engine (sql : bytes) (l : ExecLease) (c : JobContext) : result ResultSet EngineError :=
  if bool_decide (sql = str "boom") then Err (Exec (str "no such table"))
  else if bool_decide (sql = str "inf") then Ok (mkResultSet [str "x"] [[VFloat (2047 * 2 ^ 52)]])
  else Ok (mkResultSet [str "x"] [[VInt 7]]).
Definition demo_os : Os :=
  mkOs (Ok tt) (fun _ => Ok tt) (Ok tt) (Ok tt) (fun i => match serve_job demo_engine 2 (fun _ => 5) i with Ok o => o | Err _ => [] end).
Definition demo_ctx : JobContext := mkJobContext None [] None [] (Some (str "/tmp/spill")).
Definition demo_host : SubprocessEngine := mkSubprocess default_SandboxConfig default_StorageConfig 500.

Lemma demo_heartbeats_small seq ts :
  in_u 32 seq -> in_u 64 ts -> small (encode_frame (FProgress (mkJobProgress (str "executing") 0 0 seq ts))).
Proof.
  intros Hq Ht. unfold small. cbn [encode_frame number_codec jp_rows_processed jp_pct jp_seq jp_ts_ms jp_stage].
  replace (in_range64 0 && in_range64 0 && in_range64 seq && in_range64 ts) with true.
  - cbn [length]. rewrite !length_app, !length_le_bytes. vm_compute. discriminate.
  - unfold in_range64, in_u in *. symmetry. rewrite !andb_true_iff, !Z.leb_le, !Z.ltb_lt. lia.
Qed.

Lemma subprocess_transparent_witness :
  (run demo_host demo_os (str "/tmp/p2p-job-1") (str "q") (mkExecLease 1000 2 0) demo_ctx ∅).1 = Ok (mkResultSet [str "x"] [[VInt 7]]).
Proof.
  assert (Hq : small (encode_request (mkRequest (str "q") 1000 2 0 None [] None [] 500))) by (vm_compute; discriminate).
  assert (Ht5 : in_u 64 5) by (unfold in_u; lia).
  destruct (subprocess_transparent demo_host demo_os demo_engine 2 (fun _ => 5) (str "/tmp/p2p-job-1") (str "q") (mkExecLease 1000 2 0)
    demo_ctx ∅ eq_refl (fun _ => eq_refl) eq_refl eq_refl (fun _ => eq_refl) Hq (fun _ => Ht5) demo_heartbeats_small)
    as (Hb & Ht & _).
  refine (f_equal fst (Ht _ (Hb _))); [vm_compute; discriminate|reflexivity].
Defined.

(** An infinite value in the result makes the call fail, though the engine delivered it. *)
Example infinite_value_lost :
  (run demo_host demo_os (str "/tmp/p2p-job-1") (str "inf") (mkExecLease 1000 2 0) demo_ctx ∅).1
  = Err (Exec (str "decode job frame: invalid type: null, expected f64")).
Proof. vm_compute. reflexivity. Qed.

(** A child that dies leaves the job's directory. *)
Example dead_child_leaves_directory :
  (run demo_host (mkOs (Ok tt) (fun _ => Ok tt) (Ok tt) (Ok tt) (fun _ => [])) (str "/tmp/p2p-job-1") (str "q") (mkExecLease 1000 2 0) demo_ctx ∅).1
  = Err (Exec (str "read job frame: early eof"))
  /\ str "/tmp/p2p-job-1" ∈ (run demo_host (mkOs (Ok tt) (fun _ => Ok tt) (Ok tt) (Ok tt) (fun _ => [])) (str "/tmp/p2p-job-1") (str "q")
       (mkExecLease 1000 2 0) demo_ctx ∅).2.
Proof. split; [vm_compute; reflexivity|]. apply (bool_decide_unpack _). vm_compute. exact I. Qed.
