(* ===== verification/Decimal.v ===== *)
(** * Decimal floating-point numbers: [str::parse::<f64>] of the Rust standard library

    The grammar of [f64::from_str] and its correctly rounded value: the exact rational
    [digits * 10^exponent] rounded to the nearest binary64, ties to even.  The quotient of
    a negative exponent is taken with 55 or more significant bits and a sticky bit, which
    decides every rounding as the exact value would. *)

From S2P Require Import Prelude Bytes F64 Text.
From Stdlib Require Import SpecFloat.

(** [n / d], rounded once; [n] and [d] positive. *)
Definition round_ratio (negative : bool) (n d : Z) : f64 :=
  let k := Z.max 0 (55 + Z.log2 d - Z.log2 n) in
  let q := n * 2 ^ k / d in
  let sticky := if n * 2 ^ k mod d =? 0 then 0 else 1 in
  let m := 2 * q + sticky in
  binary_normalize 53 1024 (if negative then - m else m) (- k - 1) negative.

(** [m * 10^e] *)
Definition f64_of_decimal (negative : bool) (m e : Z) : f64 :=
  if m =? 0 then S754_zero negative
  else if 0 <=? e then binary_normalize 53 1024 (if negative then - (m * 10 ^ e) else m * 10 ^ e) 0 negative
  else round_ratio negative m (10 ^ (- e)).

Fixpoint take_digits (s : bytes) : bytes * bytes :=
  match s with
  | [] => ([], [])
  | c :: s' => match digit_val c with
               | Some _ => let '(ds, rest) := take_digits s' in (c :: ds, rest)
               | None => ([], s)
               end
  end.

(** An optional sign: whether it is a minus, and what follows. *)
Definition take_sign (s : bytes) : bool * bytes :=
  match s with
  | Byte.x2d :: s' => (true, s')
  | Byte.x2b :: s' => (false, s')
  | _ => (false, s)
  end.

(** [Exp]: nothing, or [e] with a signed number. *)
Definition parse_exponent (s : bytes) : option Z :=
  match s with
  | [] => Some 0
  | c :: s' =>
      if bool_decide (c = Byte.x65 \/ c = Byte.x45)
      then let '(negative, ds) := take_sign s' in
           n ← parse_nonempty ds; Some (if negative then - n else n)
      else None
  end.

Definition parse_number (negative : bool) (s : bytes) : option f64 :=
  let '(int, s1) := take_digits s in
  let '(frac, s2) := match s1 with Byte.x2e :: s' => take_digits s' | _ => ([], s1) end in
  m ← parse_nonempty (int ++ frac);
  e ← parse_exponent s2;
  Some (f64_of_decimal negative m (e - Z.of_nat (length frac))).

Definition parse_f64 (s : bytes) : option f64 :=
  let '(negative, body) := take_sign s in
  let l := to_ascii_lowercase body in
  if bool_decide (l = str "inf" \/ l = str "infinity") then Some (S754_infinity negative)
  else if bool_decide (l = str "nan") then Some S754_nan
  else parse_number negative body.

Lemma take_digits_all ds : Forall (fun c => is_Some (digit_val c)) ds -> take_digits ds = (ds, []).
Proof. induction 1 as [|c ds [n Hc] _ IH]; [done|]. simpl. by rewrite Hc, IH. Qed.

Example numbers :
  parse_f64 <$> (str <$> ["0.7"; "12"; "1e3"; "-2.5e-1"; ".5"; "5."; "0.1"; "NaN"; "-inf"; "0.30000000000000004"; "9007199254740993"]%string)
  = [Some (lit 7 10); Some (f64_of_Z 12); Some (f64_of_Z 1000); Some (lit (-1) 4); Some (lit 1 2); Some (f64_of_Z 5); Some (lit 1 10);
     Some S754_nan; Some (S754_infinity true); Some (fadd (lit 1 10) (lit 2 10)); Some (f64_of_Z 9007199254740992)].
Proof. vm_compute. reflexivity. Qed.

Example not_numbers : parse_f64 <$> (str <$> [""; "."; "e5"; "1e"; "1 "; "0x10"; "1_000"; "--1"]%string) = repeat None 8.
Proof. vm_compute. reflexivity. Qed.

(** The smallest and the largest magnitudes: subnormals, underflow, overflow. *)
Example number_edges :
  parse_f64 (str "4.9e-324") = Some (S754_finite false 1 (-1074)) /\ parse_f64 (str "2e-324") = Some (S754_zero false)
  /\ parse_f64 (str "1.7976931348623157e308") = Some (S754_finite false 9007199254740991 971)
  /\ parse_f64 (str "1.7976931348623159e308") = Some (S754_infinity false).
Proof. vm_compute. done. Qed.

(** ** Printing: [x.to_string()]

    The shortest digits that read back as [x], the closest ones when there are several,
    written without an exponent. *)

(** The exponent [k] with [10^k <= n/d < 10^(k+1)]. *)
Definition decimal_exponent (n d : Z) : Z :=
  if d <=? n then Z.of_nat (length (show_uint (n / d))) - 1 else - Z.of_nat (length (show_uint (div_ceil d n - 1))).

(** [n/d] scaled to an integer part and a remainder: [(q, r)] with [n/d = (q + r) * 10^e]
    and [r] given as a comparison of [2 r] with one. *)
Definition scaled (n d e : Z) : Z * comparison :=
  let '(n', d') := if 0 <=? e then (n, d * 10 ^ e) else (n * 10 ^ (- e), d) in
  (n' / d', Z.compare (2 * (n' mod d')) d').

(** The digits of precision [p] that read back as [x], if any. *)
Definition digits_at (x : f64) (n d : Z) (p : Z) : option (Z * Z) :=
  let e := decimal_exponent n d - (p - 1) in
  let '(q, half) := scaled n d e in
  let reads c := bool_decide (SFcompare (f64_of_decimal false c e) x = Some Eq) in
  let next := if q + 1 =? 10 ^ p then (1, e + p) else (q + 1, e) in
  match reads q, reads (q + 1), half with
  | true, true, Gt => Some next
  | true, true, Eq => Some (if Z.even q then (q, e) else next)
  | true, _, _ => Some (q, e)
  | false, true, _ => Some next
  | false, false, _ => None
  end.

(** Seventeen digits always suffice for a binary64. *)
Fixpoint shortest (fuel : nat) (p : Z) (x : f64) (n d : Z) : Z * Z :=
  match fuel with
  | O => (fst (scaled n d (decimal_exponent n d - 16)), decimal_exponent n d - 16)
  | S f => match digits_at x n d p with Some r => r | None => shortest f (p + 1) x n d end
  end.

Definition place_point (c e : Z) : bytes :=
  let ds := show_uint c in
  if 0 <=? e then ds ++ repeat (digit 0) (Z.to_nat e)
  else let frac := Z.to_nat (- e) in
       if (frac <? length ds)%nat then take (length ds - frac) ds ++ str "." ++ drop (length ds - frac) ds
       else str "0." ++ repeat (digit 0) (frac - length ds) ++ ds.

Definition show_f64 (x : f64) : bytes :=
  match x with
  | S754_nan => str "NaN"
  | S754_infinity s => (if s then str "-" else []) ++ str "inf"
  | S754_zero s => (if s then str "-" else []) ++ str "0"
  | S754_finite s m e =>
      let '(n, d) := if 0 <=? e then (Zpos m * 2 ^ e, 1) else (Zpos m, 2 ^ (- e)) in
      let '(c, e10) := shortest 17 1 (S754_finite false m e) n d in
      (if s then str "-" else []) ++ place_point c e10
  end.

Example printed :
  show_f64 <$> [lit 7 10; f64_of_Z 12; fadd (lit 1 10) (lit 2 10); lit (-1) 4; f64_of_Z 0; lit 1 3; fdiv (f64_of_Z 1) (f64_of_Z 10000000); f64_of_Z (10 ^ 21)]
  = str <$> ["0.7"; "12"; "0.30000000000000004"; "-0.25"; "0"; "0.3333333333333333"; "0.0000001"; "1000000000000000000000"]%string.
Proof. vm_compute. reflexivity. Qed.

Example printed_reads_back :
  parse_f64 <$> (show_f64 <$> [lit 7 10; S754_finite false 1 (-1074); lit 1 3])
  = Some <$> [lit 7 10; S754_finite false 1 (-1074); lit 1 3].
Proof. vm_compute. reflexivity. Qed.
