(* ===== verification/Toml.v ===== *)
(** * Ordered maps and TOML values (crates/config/src/store.rs)

    [BTreeMap<String, V>] and [toml::value::Table] as lists of entries in key order; TOML
    values as trees; the two tree operations of the settings store: writing a value at a
    dotted key ([set_path]) and laying a sparse tree over a full one ([deep_merge]). *)

From S2P Require Import Prelude Bytes F64 Text.

(** ** [BTreeMap<String, V>] *)

Section btree.
Context {V : Type}.

Abbreviation bmap := (list (bytes * V)).

Fixpoint bt_get (k : bytes) (m : bmap) : option V :=
  match m with
  | [] => None
  | (k', v) :: m' => if decide (k' = k) then Some v else bt_get k m'
  end.

(** [insert]: replaces the value of a key that is present. *)
Fixpoint bt_insert (k : bytes) (v : V) (m : bmap) : bmap :=
  match m with
  | [] => [(k, v)]
  | (k', v') :: m' =>
      if decide (k' = k) then (k, v) :: m'
      else if lex_leb k k' then (k, v) :: (k', v') :: m'
      else (k', v') :: bt_insert k v m'
  end.

(** [collect()] into a map: a later entry replaces an earlier one with its key. *)
Definition bt_collect (l : bmap) : bmap := foldl (fun m e => bt_insert e.1 e.2 m) [] l.

(** Entries in strictly increasing key order. *)
Definition lex_lt (a b : bytes) : Prop := lex_leb a b = true /\ a <> b.
Definition bt_wf (m : bmap) : Prop := StronglySorted lex_lt m.*1.

Lemma bt_get_insert k v m : bt_get k (bt_insert k v m) = Some v.
Proof.
  induction m as [|[k' v'] m IH]; simpl; [by rewrite decide_True|].
  repeat (case_decide || case_match); subst; simpl; by repeat case_decide.
Qed.

Lemma bt_get_insert_ne k k' v m : k <> k' -> bt_get k (bt_insert k' v m) = bt_get k m.
Proof.
  intros Hne. induction m as [|[x w] m IH]; simpl; [by rewrite decide_False|].
  repeat (case_decide || case_match); subst; simpl; repeat case_decide; try done; congruence.
Qed.

Lemma bt_get_in k v m : bt_get k m = Some v -> (k, v) ∈ m.
Proof.
  induction m as [|[x w] m IH]; simpl; [done|]. case_decide as E; [|intros; right; auto].
  intros [= ->]. subst. by left.
Qed.

Lemma bt_insert_keys k v m x : x ∈ (bt_insert k v m).*1 <-> x = k \/ x ∈ m.*1.
Proof.
  induction m as [|[y w] m IH]; simpl.
  { rewrite list_elem_of_singleton. set_solver. }
  repeat (case_decide || case_match); subst; simpl; rewrite ?elem_of_cons, ?IH, ?elem_of_cons; tauto.
Qed.

Lemma bt_insert_wf k v m : bt_wf m -> bt_wf (bt_insert k v m).
Proof.
  unfold bt_wf. induction m as [|[x w] m IH]; simpl; intros H; [repeat constructor|].
  apply StronglySorted_inv in H as [Hm Hx]. repeat (case_decide || case_match); subst; simpl.
  - by constructor.
  - assert (Hk : lex_lt k x) by (split; congruence). constructor; [by constructor|]. constructor; [done|].
    eapply Forall_impl; [exact Hx|]. intros y [Hy Ny]. destruct Hk as [Hk Nk].
    split; [by eapply lex_leb_trans|]. intros ->. by apply Nk, lex_leb_antisym.
  - constructor; [by apply IH|]. apply Forall_forall. intros y [->|Hy]%bt_insert_keys.
    + split; [|done]. destruct (lex_leb_total x k); congruence.
    + rewrite Forall_forall in Hx. by apply Hx.
Qed.

Lemma bt_wf_nodup m : bt_wf m -> NoDup m.*1.
Proof.
  unfold bt_wf. induction m as [|[x w] m IH]; simpl; intros H; [constructor|].
  apply StronglySorted_inv in H as [Hm Hx]. constructor; [|by apply IH].
  intros Hin. rewrite Forall_forall in Hx. by destruct (Hx _ Hin).
Qed.

Lemma bt_get_some k v m : NoDup m.*1 -> (k, v) ∈ m -> bt_get k m = Some v.
Proof.
  induction m as [|[x w] m IH]; simpl; [by intros _ ?%elem_of_nil|]. intros [Hx Hm]%NoDup_cons [E|Hin]%elem_of_cons.
  - injection E as -> ->. by rewrite decide_True.
  - rewrite decide_False; [by apply IH|]. intros ->. by apply Hx, (list_elem_of_fmap_2 fst _ (k, v)).
Qed.

Lemma bt_get_none k m : k ∉ m.*1 -> bt_get k m = None.
Proof. induction m as [|[x w] m IH]; simpl; [done|]. intros [? ?]%not_elem_of_cons. rewrite decide_False by done. by apply IH. Qed.

End btree.

Arguments bt_wf {V} m.

(** ** Values *)

#[local] Unset Elimination Schemes.
Inductive Toml :=
| TString (s : bytes)
| TInteger (n : Z)
| TFloat (x : f64)
| TBoolean (b : bool)
| TDatetime (s : bytes)
| TArray (l : list Toml)
| TTable (t : list (bytes * Toml)).
#[local] Set Elimination Schemes.

Definition is_table (v : Toml) : bool := match v with TTable _ => true | _ => false end.
Definition is_scalar (v : Toml) : bool := match v with TArray _ | TTable _ => false | _ => true end.

Lemma scalar_not_table v : is_scalar v = true -> is_table v = false.
Proof. by destruct v. Qed.

(** Induction that reaches the values of arrays and tables. *)
Section toml_ind.
Context (P : Toml -> Prop) (Hscalar : forall v, is_scalar v = true -> P v) (Harray : forall l, Forall P l -> P (TArray l))
  (Htable : forall t, Forall (fun e => P e.2) t -> P (TTable t)).

Fixpoint Toml_ind (v : Toml) : P v :=
  match v with
  | TArray l =>
      Harray l ((fix go l := match l return Forall P l with
                             | [] => Forall_nil_2 _
                             | x :: l => Forall_cons_2 _ _ _ (Toml_ind x) (go l)
                             end) l)
  | TTable t =>
      Htable t ((fix go t := match t return Forall (fun e => P e.2) t with
                             | [] => Forall_nil_2 _
                             | e :: t => Forall_cons_2 _ _ _ (Toml_ind e.2) (go t)
                             end) t)
  | v => Hscalar v eq_refl
  end.
End toml_ind.

(** Every table of the tree has its keys in order. *)
Inductive Toml_wf : Toml -> Prop :=
| wf_scalar v : is_scalar v = true -> Toml_wf v
| wf_array l : Forall Toml_wf l -> Toml_wf (TArray l)
| wf_table t : bt_wf t -> Forall (fun e => Toml_wf e.2) t -> Toml_wf (TTable t).

(** The value at a path of keys. *)
Fixpoint get_path (p : list bytes) (v : Toml) : option Toml :=
  match p with
  | [] => Some v
  | k :: p' => match v with TTable t => bt_get k t ≫= get_path p' | _ => None end
  end.

(** ** Writing at a dotted key *)

Fixpoint set_path_inner (table : list (bytes * Toml)) (parts : list bytes) (val : Toml) : list (bytes * Toml) :=
  match parts with
  | [] => table
  | [head] => bt_insert head val table
  | head :: rest =>
      let child := match bt_get head table with Some (TTable c) => c | _ => [] end in
      bt_insert head (TTable (set_path_inner child rest val)) table
  end.

(** [dotted.split('.').filter(|p| !p.is_empty())] *)
Definition key_parts (dotted : bytes) : list bytes := List.filter (fun p => negb (bool_decide (p = []))) (split_on Byte.x2e dotted).

Definition set_path (table : list (bytes * Toml)) (dotted : bytes) (val : Toml) : list (bytes * Toml) :=
  set_path_inner table (key_parts dotted) val.

(** ** Laying one tree over another *)

Fixpoint deep_merge (overlay base : Toml) {struct overlay} : Toml :=
  match overlay, base with
  | TTable o, TTable b =>
      TTable ((fix go (o : list (bytes * Toml)) (b : list (bytes * Toml)) : list (bytes * Toml) :=
                 match o with
                 | [] => b
                 | (k, ov) :: o' =>
                     go o' (bt_insert k
                              (match bt_get k b with
                               | Some child => if is_table child && is_table ov then deep_merge ov child else ov
                               | None => ov
                               end) b)
                 end) o b)
  | o, _ => o
  end.

(** One level of the merge, as a function of the entries. *)
Definition merge_entry (k : bytes) (ov : Toml) (b : list (bytes * Toml)) : Toml :=
  match bt_get k b with
  | Some child => if is_table child && is_table ov then deep_merge ov child else ov
  | None => ov
  end.
Definition merge_entries (o b : list (bytes * Toml)) : list (bytes * Toml) :=
  foldl (fun b e => bt_insert e.1 (merge_entry e.1 e.2 b) b) b o.

Lemma deep_merge_tables o b : deep_merge (TTable o) (TTable b) = TTable (merge_entries o b).
Proof. simpl. f_equal. revert b. induction o as [|[k ov] o IH]; intros b; [done|]. apply IH. Qed.

Lemma merge_entries_get o b k :
  NoDup o.*1 ->
  bt_get k (merge_entries o b)
  = match bt_get k o with Some ov => Some (merge_entry k ov b) | None => bt_get k b end.
Proof.
  unfold merge_entries. revert b. induction o as [|[x ov] o IH]; intros b Hnd; [done|].
  apply NoDup_cons in Hnd as [Hx Hnd]. simpl. rewrite IH by done. case_decide as E; subst.
  - rewrite (bt_get_none k o) by done. apply bt_get_insert.
  - unfold merge_entry. by rewrite bt_get_insert_ne by congruence.
Qed.

Lemma merge_entries_wf o b : bt_wf b -> bt_wf (merge_entries o b).
Proof. unfold merge_entries. revert b. induction o as [|[x ov] o IH]; intros b Hb; [done|]. by apply IH, bt_insert_wf. Qed.

(** ** What the operations do to the values at paths *)

(** [p] and [q] part ways at some key. *)
Definition apart (p q : list bytes) : Prop := ~ p `prefix_of` q /\ ~ q `prefix_of` p.

Lemma apart_cons k p q : apart (k :: p) (k :: q) <-> apart p q.
Proof. unfold apart. split; intros [H1 H2]; split; intros H; [by apply H1, prefix_cons|by apply H2, prefix_cons|by apply H1, (prefix_cons_inv_2 k k)|by apply H2, (prefix_cons_inv_2 k k)]. Qed.

Lemma get_path_set parts v t : parts <> [] -> get_path parts (TTable (set_path_inner t parts v)) = Some v.
Proof.
  revert t. induction parts as [|h rest IH]; intros t Hne; [done|]. destruct rest as [|h' rest].
  - simpl. by rewrite bt_get_insert.
  - change (get_path (h :: h' :: rest) (TTable (set_path_inner t (h :: h' :: rest) v)))
      with (bt_get h (bt_insert h (TTable (set_path_inner (match bt_get h t with Some (TTable c) => c | _ => [] end) (h' :: rest) v)) t)
              ≫= get_path (h' :: rest)).
    rewrite bt_get_insert. cbn [mbind option_bind]. by apply IH.
Qed.

Lemma get_path_set_apart parts q v t : apart parts q -> get_path q (TTable (set_path_inner t parts v)) = get_path q (TTable t).
Proof.
  revert t q. induction parts as [|h rest IH]; intros t q Ha; [by destruct Ha as [Ha _]; destruct Ha; apply prefix_nil|].
  destruct q as [|k q]; [by destruct Ha as [_ Ha]; destruct Ha; apply prefix_nil|]. cbn [get_path].
  destruct (decide (k = h)) as [->|Hne].
  2: { assert (E : bt_get k (set_path_inner t (h :: rest) v) = bt_get k t) by (destruct rest; by apply bt_get_insert_ne). by rewrite E. }
  apply apart_cons in Ha. destruct rest as [|h' rest]; [by destruct Ha as [Ha _]; destruct Ha; apply prefix_nil|].
  change (set_path_inner t (h :: h' :: rest) v)
    with (bt_insert h (TTable (set_path_inner (match bt_get h t with Some (TTable c) => c | _ => [] end) (h' :: rest) v)) t).
  rewrite bt_get_insert. cbn [mbind option_bind]. rewrite IH by done.
  destruct q as [|k' q]; [by destruct Ha as [_ Ha]; destruct Ha; apply prefix_nil|].
  by destruct (bt_get h t) as [[]|].
Qed.

(** No leaf of the overlay stands at a prefix of [p]. *)
Definition leaves_alone (o : Toml) (p : list bytes) : Prop :=
  get_path p o = None /\ forall q v, q `prefix_of` p -> get_path q o = Some v -> is_table v = true.

Lemma merge_leaf p o b v : Toml_wf o -> get_path p o = Some v -> is_table v = false -> get_path p (deep_merge o b) = Some v.
Proof.
  revert o b. induction p as [|k p IH]; intros o b Hwf; cbn [get_path].
  - intros [= ->] Hv. by destruct v.
  - destruct o as [| | | | | |o]; try done. intros H Hv. apply bind_Some in H as (ov & Hov & H).
    inversion Hwf as [| |? Hb Hall]; subst; [done|]. rewrite Forall_forall in Hall.
    assert (Hwo : Toml_wf ov) by (by apply (Hall (k, ov)), bt_get_in).
    destruct b as [| | | | | |b]; try (cbn; by rewrite Hov).
    rewrite deep_merge_tables. rewrite merge_entries_get by (by apply bt_wf_nodup). rewrite Hov. cbn [mbind option_bind].
    unfold merge_entry. destruct (bt_get k b) as [child|]; [|done]. destruct (is_table child && is_table ov); [by apply IH|done].
Qed.

Lemma merge_alone p o b : Toml_wf o -> is_table o = true -> is_table b = true -> leaves_alone o p -> get_path p (deep_merge o b) = get_path p b.
Proof.
  revert o b. induction p as [|k p IH]; intros o b Hwf Ho Hb [Hn Ha]; cbn [get_path] in *; [done|].
  destruct o as [| | | | | |o]; try done. destruct b as [| | | | | |b]; try done.
  inversion Hwf as [| |? Hwb Hall]; subst; [done|]. rewrite Forall_forall in Hall.
  rewrite deep_merge_tables, merge_entries_get by (by apply bt_wf_nodup). destruct (bt_get k o) as [ov|] eqn:Eo; [|done].
  cbn [mbind option_bind] in *. assert (Hwo : Toml_wf ov) by (by apply (Hall (k, ov)), bt_get_in).
  assert (Ht : is_table ov = true). { apply (Ha [k] ov); [by apply prefix_cons, prefix_nil|]. cbn. by rewrite Eo. }
  assert (Hl : leaves_alone ov p).
  { split; [done|]. intros q v Hq Hv. apply (Ha (k :: q) v); [by apply prefix_cons|]. cbn. by rewrite Eo. }
  unfold merge_entry. destruct (bt_get k b) as [child|].
  - rewrite Ht, andb_true_r. destruct (is_table child) eqn:Ec; [by apply IH|].
    destruct p as [|k' p]; [by destruct Hl|]. rewrite Hn. by destruct child.
  - by rewrite Hn.
Qed.

(** Writing keeps a tree well formed. *)
Lemma set_path_inner_wf t parts v : Toml_wf (TTable t) -> Toml_wf v -> Toml_wf (TTable (set_path_inner t parts v)).
Proof.
  revert t. induction parts as [|h rest IH]; intros t Ht Hv; [done|].
  assert (Hins : forall w, Toml_wf w -> Toml_wf (TTable (bt_insert h w t))).
  { intros w Hw. inversion Ht as [| |? Hb Hall]; subst; [done|]. constructor; [by apply bt_insert_wf|].
    clear -Hall Hw. induction t as [|[x y] t IHt]; simpl; [by apply Forall_singleton|]. apply Forall_cons in Hall as [Hy Hall].
    repeat (case_decide || case_match); subst; rewrite ?Forall_cons; auto. }
  destruct rest as [|h' rest]; [by apply Hins|].
  change (set_path_inner t (h :: h' :: rest) v)
    with (bt_insert h (TTable (set_path_inner (match bt_get h t with Some (TTable c) => c | _ => [] end) (h' :: rest) v)) t).
  apply Hins, IH; [|done]. inversion Ht as [| |? Hb Hall]; subst; [done|]. rewrite Forall_forall in Hall.
  destruct (bt_get h t) as [[| | | | | |c]|] eqn:E; try (by apply wf_table; [constructor|constructor]).
  by apply (Hall (h, TTable c)), bt_get_in.
Qed.

(** No plain value stands strictly above the end of [p]. *)
Definition open_path (t : list (bytes * Toml)) (p : list bytes) : Prop :=
  forall q v, q `prefix_of` p -> q <> p -> get_path q (TTable t) = Some v -> is_table v = true.

Lemma open_path_child h h' rest t c :
  open_path t (h :: h' :: rest) -> bt_get h t = Some c -> exists ct, c = TTable ct /\ open_path ct (h' :: rest).
Proof.
  intros Ho E. assert (Ht : is_table c = true).
  { apply (Ho [h] c); [by apply prefix_cons, prefix_nil|done|]. cbn. by rewrite E. }
  destruct c as [| | | | | |ct]; try done. exists ct. split; [done|]. intros q v Hq Hne Hv.
  apply (Ho (h :: q) v); [by apply prefix_cons|congruence|]. cbn. by rewrite E.
Qed.

(** Setting one key leaves every other value of the merged tree as it was. *)
Lemma merge_set_apart p q v o b :
  Toml_wf (TTable o) -> Toml_wf v -> apart p q -> open_path o p ->
  get_path q (deep_merge (TTable (set_path_inner o p v)) b) = get_path q (deep_merge (TTable o) b).
Proof.
  revert q o b. induction p as [|h rest IH]; intros q o b Hwf Hv Ha Ho; [by destruct Ha as [Ha _]; destruct Ha; apply prefix_nil|].
  destruct b as [| | | | | |b]; try by apply get_path_set_apart.
  destruct q as [|k q]; [by destruct Ha as [_ Ha]; destruct Ha; apply prefix_nil|].
  pose proof (set_path_inner_wf o (h :: rest) v Hwf Hv) as Hwf'.
  assert (Hnd : forall t, Toml_wf (TTable t) -> NoDup t.*1) by (intros t Ht; inversion Ht; subst; [done|by apply bt_wf_nodup]).
  rewrite !deep_merge_tables. cbn [get_path]. rewrite !merge_entries_get by auto.
  destruct (decide (k = h)) as [->|Hne].
  2: { assert (E : bt_get k (set_path_inner o (h :: rest) v) = bt_get k o) by (destruct rest; by apply bt_get_insert_ne). by rewrite E. }
  apply apart_cons in Ha. destruct rest as [|h' rest]; [by destruct Ha as [Ha _]; destruct Ha; apply prefix_nil|].
  destruct q as [|k' q]; [by destruct Ha as [_ Ha]; destruct Ha; apply prefix_nil|].
  change (set_path_inner o (h :: h' :: rest) v)
    with (bt_insert h (TTable (set_path_inner (match bt_get h o with Some (TTable c) => c | _ => [] end) (h' :: rest) v)) o).
  rewrite bt_get_insert. cbn [mbind option_bind]. unfold merge_entry. destruct (bt_get h o) as [c|] eqn:Eo.
  - destruct (open_path_child _ _ _ _ _ Ho Eo) as (ct & -> & Hct). cbn [mbind option_bind is_table].
    assert (Hwc : Toml_wf (TTable ct)).
    { inversion Hwf as [| |? _ Hall]; subst; [done|]. rewrite Forall_forall in Hall. by apply (Hall (h, TTable ct)), bt_get_in. }
    destruct (bt_get h b) as [child|]; [|by apply get_path_set_apart]. rewrite !andb_true_r.
    destruct (is_table child); [by apply IH|by apply get_path_set_apart].
  - assert (Hnil : Toml_wf (TTable [])) by (by apply wf_table; constructor).
    assert (Hop : open_path [] (h' :: rest)) by (intros [|x r] w _ _; cbn; [by intros [= <-]|done]).
    destruct (bt_get h b) as [child|]; cbn [mbind option_bind is_table]; [|by rewrite get_path_set_apart].
    rewrite andb_true_r. destruct (is_table child) eqn:Ec; [|rewrite get_path_set_apart by done; by destruct child].
    destruct child; try done. by rewrite IH.
Qed.
