(* ===== verification/Environment.v ===== *)
(** * The environment layer of the configuration (crates/config/src/lib.rs)

    [GridConfig::load]: defaults or a file, then the [P2P_*] environment variables, then
    validation.  Each arm of the [match] of [apply_env_map] is an entry of a table - its
    variable names, how the value is read, and the field it assigns - in the order of the
    source; applying the environment looks every variable up in the table.  Reading TOML
    into the configuration struct is generated by serde, a third-party crate: a parameter.
    Variables that are not valid Unicode are not modelled ([std::env::vars] panics). *)

From S2P Require Import Prelude Bytes F64 Text Proto Escrow ConfigData Config Decimal Toml.
#[local] Open Scope duckton_scope.

(** ** Fields *)

Record Lens (R A : Type) := mkLens { lget : R -> A; lset : A -> R -> R }.
Arguments mkLens {R A}. Arguments lget {R A}. Arguments lset {R A}.

(** [self.p.q = x], [self.p.q.r = x] *)
Definition at2 {R S A} (p : R -> S) {_ : Field p} (q : S -> A) {_ : Field q} : Lens R A :=
  mkLens (fun r => q (p r)) (fun x r => update p (update q (fun _ => x)) r).
Definition at3 {R S T A} (p : R -> S) {_ : Field p} (q : S -> T) {_ : Field q} (f : T -> A) {_ : Field f} : Lens R A :=
  mkLens (fun r => f (q (p r))) (fun x r => update p (update q (update f (fun _ => x))) r).

(** ** Values: what an arm makes of the text of variable [k] *)

Definition Reader (A : Type) : Type := bytes -> bytes -> result A ConfigError.

Definition read_with {A} (f : bytes -> option A) : Reader A := fun k v => ok_or (f v) (ConfigEnv k).
Definition map_value {A B} (f : A -> B) (r : Reader A) : Reader B := fun k v => x <-? r k v ;; Ok (f x).

Definition text : Reader bytes := fun _ v => Ok v.
(** [parse(k, v)?] at the field's type; no surrounding space is accepted. *)
Definition flag : Reader bool :=
  read_with (fun v => if bool_decide (v = str "true") then Some true else if bool_decide (v = str "false") then Some false else None).
Definition uint (w : Z) : Reader Z := read_with (parse_uint w).
Definition float : Reader f64 := read_with parse_f64.
Definition unless_empty : Reader (option bytes) := fun _ v => Ok (if bool_decide (v = []) then None else Some v).
Definition unless_blank : Reader (option bytes) := fun _ v => Ok (if blank v then None else Some v).
Definition nonempty (s : bytes) : bool := negb (bool_decide (s = [])).
Definition comma_list : Reader (list bytes) := fun _ v => Ok (List.filter nonempty (split_on Byte.x2c v)).
Definition trimmed_list : Reader (list bytes) := fun _ v => Ok (List.filter nonempty (trim <$> split_on Byte.x2c v)).

(** [match v.as_str()] with an error arm, on the text itself or on its folded form, and
    with a default arm. *)
Definition keyword {A} (cases : list (string * A)) (v : bytes) : option A := snd <$> List.find (fun e => bool_decide (str e.1 = v)) cases.
Definition fold_case (v : bytes) : bytes := to_ascii_lowercase (trim v).
Definition one_of {A} (cases : list (string * A)) : Reader A := read_with (keyword cases).
Definition one_of_folded {A} (cases : list (string * A)) : Reader A := read_with (fun v => keyword cases (fold_case v)).
Definition folded_or {A} (cases : list (string * A)) (other : A) : Reader A := fun _ v => Ok (default other (keyword cases (fold_case v))).

Definition credential_mode : Reader CredentialMode := fun k v =>
  ok_or (keyword [("presigned", Presigned); ("scoped_secret", ScopedSecret); ("scoped-secret", ScopedSecret); ("sealed", Sealed)]%string (fold_case v))
    (ConfigInvalid (str "P2P_STORAGE_CREDENTIAL_MODE")).

(** [group=hex,group2=hex] *)
Fixpoint issuer_entries (k : bytes) (entries : list bytes) (map : list (bytes * bytes)) : result (list (bytes * bytes)) ConfigError :=
  match entries with
  | [] => Ok map
  | entry :: rest =>
      gh <-? ok_or (split_once Byte.x3d entry) (ConfigEnv k) ;;
      issuer_entries k rest (bt_insert (trim gh.1) (trim gh.2) map)
  end.
Definition group_issuers : Reader (list (bytes * bytes)) := fun k v =>
  issuer_entries k (List.filter (fun s => negb (blank s)) (split_on Byte.x2c v)) [].

(** ** The arms *)

Record Arm := mkArm {
  arm_keys : list bytes;
  arm_type : Type;
  arm_parse : Reader arm_type;
  arm_field : Lens GridConfig arm_type;
}.
Definition arm {A} (keys : list string) (r : Reader A) (l : Lens GridConfig A) : Arm := mkArm (str <$> keys) A r l.
Definition arm_get (a : Arm) : GridConfig -> arm_type a := lget (arm_field a).
Definition arm_set (a : Arm) : arm_type a -> GridConfig -> GridConfig := lset (arm_field a).

#[local] Open Scope string_scope.

(** Network and transport *)
Definition env_transport : list Arm := [
  arm ["P2P_BIND_ADDR"] text (at2 gc_network net_bind_addr);
  arm ["P2P_ADVERTISED_ADDR"] (map_value Some text) (at2 gc_network net_advertised_addr);
  arm ["P2P_IDLE_TIMEOUT_MS"] (uint 64) (at2 gc_network net_idle_timeout_ms);
  arm ["P2P_CONNECT_TIMEOUT_MS"] (uint 64) (at2 gc_network net_connect_timeout_ms);
  arm ["P2P_TRANSPORT_GSO"] flag (at3 gc_transport tr_quic quic_gso);
  arm ["P2P_TRANSPORT_CONGESTION"] (one_of [("bbr", Bbr); ("cubic", Cubic); ("newreno", NewReno)]) (at3 gc_transport tr_quic quic_congestion);
  arm ["P2P_TRANSPORT_ENABLE_0RTT"] flag (at3 gc_transport tr_quic quic_enable_0rtt);
  arm ["P2P_TRANSPORT_RESULT_PARALLELISM"] (uint 64) (at3 gc_transport tr_result rt_parallelism);
  arm ["P2P_TRANSPORT_COMPRESSION"] (one_of [("none", AlgoNone); ("lz4", AlgoLz4); ("zstd", AlgoZstd)]) (at3 gc_transport tr_compression cmp_algorithm)
].

(** Discovery, gossip and NAT traversal *)
Definition env_discovery : list Arm := [
  arm ["P2P_DISCOVERY_MODE"] (one_of [("static", DiscoverStatic); ("kademlia", DiscoverKademlia)]) (at2 gc_discovery disc_mode);
  arm ["P2P_BOOTSTRAP"; "P2P_DISCOVERY_BOOTSTRAP"] comma_list (at2 gc_discovery disc_bootstrap);
  arm ["P2P_DISCOVERY_LISTEN_ADDRS"] comma_list (at2 gc_discovery disc_listen_addrs);
  arm ["P2P_DISCOVERY_KEY_PATH"] unless_empty (at2 gc_discovery disc_key_path);
  arm ["P2P_DISCOVERY_GOSSIP_TOPIC"] text (at3 gc_discovery disc_gossip gos_topic);
  arm ["P2P_DISCOVERY_GOSSIP_HEARTBEAT_MS"] (uint 64) (at3 gc_discovery disc_gossip gos_heartbeat_ms);
  arm ["P2P_DISCOVERY_GOSSIP_FANOUT"] (uint 64) (at3 gc_discovery disc_gossip gos_fanout);
  arm ["P2P_DISCOVERY_CAPABILITY_TTL_SECS"] (uint 64) (at3 gc_discovery disc_gossip gos_capability_ttl_secs);
  arm ["P2P_DISCOVERY_KAD_REPLICATION"] (uint 64) (at3 gc_discovery disc_kademlia kad_replication_factor);
  arm ["P2P_DISCOVERY_KAD_QUERY_PARALLELISM"] (uint 64) (at3 gc_discovery disc_kademlia kad_query_parallelism);
  arm ["P2P_DISCOVERY_KAD_RECORD_TTL_SECS"] (uint 64) (at3 gc_discovery disc_kademlia kad_record_ttl_secs);
  arm ["P2P_CANDIDATE_SAMPLE_SIZE"] (uint 64) (at2 gc_discovery disc_candidate_sample_size);
  arm ["P2P_DISCOVERY_NAT_AUTONAT"] flag (at3 gc_discovery disc_nat nat_autonat);
  arm ["P2P_DISCOVERY_NAT_DCUTR"] flag (at3 gc_discovery disc_nat nat_dcutr);
  arm ["P2P_DISCOVERY_NAT_RELAY_CLIENT"] flag (at3 gc_discovery disc_nat nat_relay_client);
  arm ["P2P_DISCOVERY_NAT_ACT_AS_RELAY"] flag (at3 gc_discovery disc_nat nat_act_as_relay);
  arm ["P2P_DISCOVERY_NAT_MDNS"] flag (at3 gc_discovery disc_nat nat_mdns);
  arm ["P2P_DISCOVERY_NAT_EXTERNAL_ADDRESSES"] comma_list (at3 gc_discovery disc_nat nat_external_addresses);
  arm ["P2P_DISCOVERY_NAT_RELAYS"] comma_list (at3 gc_discovery disc_nat nat_relays);
  arm ["P2P_DISCOVERY_NAT_MAX_RELAYS"] (uint 64) (at3 gc_discovery disc_nat nat_max_relays)
].

(** Scheduler and worker *)
Definition env_scheduler : list Arm := [
  arm ["P2P_TRUST_STORE_PATH"] (map_value Some text) (at2 gc_trust tru_store_path);
  arm ["P2P_REPLICAS"] (uint 64) (at2 gc_scheduler sch_replicas);
  arm ["P2P_QUORUM"] (uint 64) (at2 gc_scheduler sch_quorum);
  arm ["P2P_MAX_INFLIGHT_JOBS"] (uint 64) (at2 gc_scheduler sch_max_inflight_jobs);
  arm ["P2P_SCHEDULER_ATTEMPT_DEADLINE_MS"] (uint 64) (at2 gc_scheduler sch_attempt_deadline_ms);
  arm ["P2P_SCHEDULER_MAX_RETRIES"; "P2P_MAX_RETRIES"] (uint 32) (at2 gc_scheduler sch_max_retries);
  arm ["P2P_SCHEDULER_MAX_TOTAL_DURATION_MS"] (uint 64) (at2 gc_scheduler sch_max_total_duration_ms);
  arm ["P2P_SCHEDULER_BACKOFF_INITIAL_MS"] (uint 64) (at2 gc_scheduler sch_backoff_initial_ms);
  arm ["P2P_SCHEDULER_BACKOFF_MAX_MS"] (uint 64) (at2 gc_scheduler sch_backoff_max_ms);
  arm ["P2P_SCHEDULER_BACKOFF_JITTER_FRAC"] float (at2 gc_scheduler sch_backoff_jitter_frac);
  arm ["P2P_SCHEDULER_RETRY_BUDGET_MAX_TOKENS"] float (at2 gc_scheduler sch_retry_budget_max_tokens);
  arm ["P2P_SCHEDULER_RETRY_BUDGET_REFILL_PER_SEC"] float (at2 gc_scheduler sch_retry_budget_refill_per_sec);
  arm ["P2P_SCHEDULER_PROGRESS_INTERVAL_MS"] (uint 64) (at2 gc_scheduler sch_progress_interval_ms);
  arm ["P2P_SCHEDULER_PROGRESS_STALL_MULTIPLIER"] (uint 32) (at2 gc_scheduler sch_progress_stall_multiplier);
  arm ["P2P_SCHEDULER_REQUIRE_STAKED_HOSTS"; "P2P_REQUIRE_STAKED_HOSTS"] flag (at2 gc_scheduler sch_require_staked_hosts);
  arm ["P2P_WORKER_JOB_TIMEOUT_MS"] (uint 64) (at2 gc_worker wrk_job_timeout_ms);
  arm ["P2P_WORKER_PROGRESS_INTERVAL_MS"] (uint 64) (at2 gc_worker wrk_progress_interval_ms);
  arm ["P2P_WORKER_ENABLED"] flag (at2 gc_worker wrk_enabled)
].

(** Routing labels, closure posture and identity *)
Definition env_membership : list Arm := [
  arm ["P2P_MEMBERSHIP_NETWORKS"] comma_list (at2 gc_membership mem_networks);
  arm ["P2P_MEMBERSHIP_GROUPS"] comma_list (at2 gc_membership mem_groups);
  arm ["P2P_MEMBERSHIP_REGION"] unless_blank (at2 gc_membership mem_region);
  arm ["P2P_MEMBERSHIP_GROUP_ENFORCEMENT"] (folded_or [("token", EnforceToken)] EnforceSoft) (at2 gc_membership mem_group_enforcement);
  arm ["P2P_MEMBERSHIP_REGION_TRUST"] (folded_or [("attested", RegionAttested)] RegionDeclared) (at2 gc_membership mem_region_trust);
  arm ["P2P_MEMBERSHIP_GROUP_TOKEN"] unless_blank (at2 gc_membership mem_group_token);
  arm ["P2P_MEMBERSHIP_GROUP_ISSUERS"] group_issuers (at2 gc_membership mem_group_issuers);
  arm ["P2P_SECURITY_MODE"] (one_of_folded [("private", ModePrivate); ("public", ModePublic)]) (at2 gc_security sec_mode);
  arm ["P2P_IDENTITY_KEY_PATH"] unless_blank (at2 gc_identity idc_key_path);
  arm ["P2P_IDENTITY_PINNING_MODE"] (one_of_folded [("allowlist", Allowlist); ("tofu", Tofu)]) (at2 gc_identity idc_pinning_mode);
  arm ["P2P_IDENTITY_ALLOWLIST"] trimmed_list (at2 gc_identity idc_allowlist)
].

(** Liveness, budget and trust *)
Definition env_liveness : list Arm := [
  arm ["P2P_LIVENESS_PHI_ENABLED"] flag (at3 gc_liveness lv_phi phi_enabled);
  arm ["P2P_LIVENESS_PHI_CONVICT_THRESHOLD"] float (at3 gc_liveness lv_phi phi_convict_threshold);
  arm ["P2P_LIVENESS_PHI_WINDOW_SIZE"] (uint 64) (at3 gc_liveness lv_phi phi_window_size);
  arm ["P2P_LIVENESS_PHI_MIN_STD_MS"] float (at3 gc_liveness lv_phi phi_min_std_ms);
  arm ["P2P_LIVENESS_PHI_ACCEPTABLE_PAUSE_MS"] float (at3 gc_liveness lv_phi phi_acceptable_pause_ms);
  arm ["P2P_LIVENESS_PHI_FIRST_INTERVAL_MS"] float (at3 gc_liveness lv_phi phi_first_interval_ms);
  arm ["P2P_LIVENESS_SWIM_ENABLED"] flag (at3 gc_liveness lv_swim swim_enabled);
  arm ["P2P_LIVENESS_SWIM_INDIRECT_PROBE_COUNT"] (uint 64) (at3 gc_liveness lv_swim swim_indirect_probe_count);
  arm ["P2P_LIVENESS_SWIM_PROBE_TIMEOUT_MS"] (uint 64) (at3 gc_liveness lv_swim swim_probe_timeout_ms);
  arm ["P2P_LIVENESS_SWIM_INDIRECT_PROBE_TIMEOUT_MS"] (uint 64) (at3 gc_liveness lv_swim swim_indirect_probe_timeout_ms);
  arm ["P2P_BUDGET_MEMORY_BYTES"] (uint 64) (at2 gc_budget bud_memory_bytes);
  arm ["P2P_BUDGET_THREADS"] (uint 32) (at2 gc_budget bud_threads);
  arm ["P2P_BUDGET_MAX_JOBS"] (uint 32) (at2 gc_budget bud_max_jobs);
  arm ["P2P_BUDGET_MAX_SPILL_BYTES"] (uint 64) (at2 gc_budget bud_max_spill_bytes);
  arm ["P2P_BUDGET_LOCAL_RESERVED_FRACTION"] float (at2 gc_budget bud_local_reserved_fraction);
  arm ["P2P_METADATA_REFRESH_INTERVAL_SECS"] (uint 64) (at2 gc_metadata md_refresh_interval_secs);
  arm ["P2P_MIN_TRUST"] float (at2 gc_trust tru_min_trust);
  arm ["P2P_MIN_ATTESTATION"] text (at2 gc_trust tru_min_attestation);
  arm ["P2P_CANARY_RATE"] float (at2 gc_trust tru_canary_rate);
  arm ["P2P_POW_DIFFICULTY_BITS"] (uint 32) (at2 gc_sybil syb_pow_difficulty_bits);
  arm ["P2P_WORKER_POOL_SIZE"] (uint 64) (at2 gc_limits lim_worker_pool_size)
].

(** Storage *)
Definition env_storage : list Arm := [
  arm ["P2P_STORAGE_PROVIDER"] text (at2 gc_storage sto_provider);
  arm ["P2P_STORAGE_CREDENTIAL_MODE"] credential_mode (at2 gc_storage sto_credential_mode);
  arm ["P2P_STORAGE_ENDPOINT"] (map_value Some text) (at2 gc_storage sto_endpoint);
  arm ["P2P_STORAGE_REGION"] (map_value Some text) (at2 gc_storage sto_region);
  arm ["P2P_STORAGE_URL_STYLE"] (map_value Some text) (at2 gc_storage sto_url_style);
  arm ["P2P_STORAGE_USE_SSL"] (map_value Some flag) (at2 gc_storage sto_use_ssl);
  arm ["P2P_STORAGE_ENABLE_REMOTE_ACCESS"] flag (at2 gc_storage sto_enable_remote_access);
  arm ["P2P_STORAGE_REQUIRE_EXTENSIONS"] flag (at2 gc_storage sto_require_extensions);
  arm ["P2P_STORAGE_TEMP_FILE_ENCRYPTION"] flag (at2 gc_storage sto_temp_file_encryption);
  arm ["P2P_STORAGE_PRELOAD_EXTENSIONS"] comma_list (at2 gc_storage sto_preload_extensions);
  arm ["P2P_STORAGE_ENABLED_FORMATS"] comma_list (at2 gc_storage sto_enabled_formats);
  arm ["P2P_STORAGE_ENABLED_PROVIDERS"] comma_list (at2 gc_storage sto_enabled_providers);
  arm ["P2P_STORAGE_ALLOWED_LOCAL_PATHS"] comma_list (at2 gc_storage sto_allowed_local_paths)
].

(** Planner *)
Definition env_planner : list Arm := [
  arm ["P2P_PLANNER_ENABLED"] flag (at2 gc_planner pl_enabled);
  arm ["P2P_PLANNER_LOCAL_EXECUTION_ENABLED"; "P2P_PLANNER_LOCAL_EXECUTION"] flag (at2 gc_planner pl_local_execution_enabled);
  arm ["P2P_PLANNER_PREFER"] (one_of_folded [("local", PreferLocal); ("remote", PreferRemote); ("auto", PreferAuto)]) (at2 gc_planner pl_prefer);
  arm ["P2P_PLANNER_RAM_FRACTION"] float (at2 gc_planner pl_ram_fraction);
  arm ["P2P_PLANNER_MAX_CONCURRENT_LOCAL_JOBS"] (uint 64) (at2 gc_planner pl_max_concurrent_local_jobs);
  arm ["P2P_PLANNER_SIZE_THRESHOLD_BYTES"] (uint 64) (at2 gc_planner pl_size_threshold_bytes);
  arm ["P2P_PLANNER_SPILL_TOLERANCE_BYTES"] (uint 64) (at2 gc_planner pl_spill_tolerance_bytes);
  arm ["P2P_PLANNER_MAX_LOCAL_LATENCY_MS"] (uint 64) (at2 gc_planner pl_max_local_latency_ms)
].

(** Sandbox *)
Definition env_sandbox : list Arm := [
  arm ["P2P_SANDBOX_ENABLED"] flag (at2 gc_sandbox sb_enabled);
  arm ["P2P_SANDBOX_BACKEND"] (one_of_folded [("auto", BackendAuto); ("none", BackendNone); ("rlimit", BackendRlimit);
      ("cgroups-seccomp", BackendCgroupsSeccomp); ("cgroups", BackendCgroupsSeccomp); ("cgroup", BackendCgroupsSeccomp);
      ("seccomp", BackendCgroupsSeccomp); ("linux", BackendCgroupsSeccomp);
      ("macos-seatbelt", BackendMacosSeatbelt); ("macos", BackendMacosSeatbelt); ("seatbelt", BackendMacosSeatbelt);
      ("windows-jobobject", BackendWindowsJobObject); ("windows", BackendWindowsJobObject);
      ("jobobject", BackendWindowsJobObject); ("job-object", BackendWindowsJobObject);
      ("android", BackendAndroid); ("ios", BackendIos)]) (at2 gc_sandbox sb_backend);
  arm ["P2P_SANDBOX_LIMITS_MODE"] (one_of_folded [("inherit_budget", LimitsInheritBudget); ("inherit", LimitsInheritBudget); ("explicit", LimitsExplicit)]) (at3 gc_sandbox sb_limits sbl_mode);
  arm ["P2P_SANDBOX_MEMORY_BYTES"] (uint 64) (at3 gc_sandbox sb_limits sbl_memory_bytes);
  arm ["P2P_SANDBOX_CPU_SECONDS"] (uint 64) (at3 gc_sandbox sb_limits sbl_cpu_seconds);
  arm ["P2P_SANDBOX_MAX_FILE_SIZE_BYTES"] (uint 64) (at3 gc_sandbox sb_limits sbl_max_file_size_bytes);
  arm ["P2P_SANDBOX_MAX_OPEN_FILES"] (uint 64) (at3 gc_sandbox sb_limits sbl_max_open_files);
  arm ["P2P_SANDBOX_MAX_PROCESSES"] (uint 64) (at3 gc_sandbox sb_limits sbl_max_processes);
  arm ["P2P_SANDBOX_EGRESS_MODE"] (one_of_folded [("inherit_storage", EgressInheritStorage); ("inherit", EgressInheritStorage); ("explicit", EgressExplicit)]) (at2 gc_sandbox sb_egress_mode);
  arm ["P2P_SANDBOX_EGRESS_ALLOWLIST"] comma_list (at2 gc_sandbox sb_egress_allowlist);
  arm ["P2P_SANDBOX_TEMP_DIR_POLICY"] (one_of_folded [("ephemeral", TempEphemeral); ("inherit", TempInherit); ("custom", TempCustom)]) (at2 gc_sandbox sb_temp_dir_policy);
  arm ["P2P_SANDBOX_TEMP_DIR"] (map_value Some text) (at2 gc_sandbox sb_temp_dir)
].

(** Economics *)
Definition env_economics : list Arm := [
  arm ["P2P_ECONOMICS_ENABLED"] flag (at2 gc_economics ec_enabled);
  arm ["P2P_ECONOMICS_DEFAULT_PAYMENT"] (one_of [("free", PrefFree); ("paid", PrefPaid); ("auto", PrefAuto)]) (at2 gc_economics ec_default_payment);
  arm ["P2P_ECONOMICS_FEE_RECIPIENT"] (map_value Some text) (at2 gc_economics ec_fee_recipient);
  arm ["P2P_ECONOMICS_NETWORK"] (one_of [("testnet", Testnet); ("mainnet", Mainnet)]) (at2 gc_economics ec_network);
  arm ["P2P_ECONOMICS_MAINNET_CONFIRMED"] flag (at2 gc_economics ec_mainnet_confirmed)
].

(** Abuse control *)
Definition env_antiabuse : list Arm := [
  arm ["P2P_ANTIABUSE_ENABLED"] flag (at2 gc_antiabuse ab_enabled);
  arm ["P2P_ANTIABUSE_FAULT_ATTRIBUTION_ENABLED"] flag (at3 gc_antiabuse ab_fault_attribution fa_enabled);
  arm ["P2P_ANTIABUSE_JOB_CONSENSUS_FRACTION"] float (at3 gc_antiabuse ab_fault_attribution fa_job_consensus_fraction);
  arm ["P2P_ANTIABUSE_REQUESTER_TRUST_ENABLED"] flag (at3 gc_antiabuse ab_requester_trust rqt_enabled);
  arm ["P2P_ANTIABUSE_REQUESTER_NEGATIVE_FLOOR"] float (at3 gc_antiabuse ab_requester_trust rqt_negative_floor_weight);
  arm ["P2P_ANTIABUSE_REQUESTER_POSITIVE_FLOOR"] float (at3 gc_antiabuse ab_requester_trust rqt_positive_floor_weight);
  arm ["P2P_ANTIABUSE_REQUESTER_AGE_SATURATION"] (uint 64) (at3 gc_antiabuse ab_requester_trust rqt_age_saturation);
  arm ["P2P_ANTIABUSE_COST_GATE_ENABLED"] flag (at3 gc_antiabuse ab_cost_gate cg_enabled);
  arm ["P2P_ANTIABUSE_COST_GATE_MAX_COST_HINT_ROWS"] (uint 64) (at3 gc_antiabuse ab_cost_gate cg_max_cost_hint_rows);
  arm ["P2P_ANTIABUSE_COST_GATE_MAX_WORKING_SET_FACTOR"] float (at3 gc_antiabuse ab_cost_gate cg_max_working_set_factor);
  arm ["P2P_ANTIABUSE_NONDETERMINISM_ENABLED"] flag (at3 gc_antiabuse ab_nondeterminism nd_enabled);
  arm ["P2P_ANTIABUSE_FREE_RATE_LIMIT_ENABLED"] flag (at3 gc_antiabuse ab_free_rate_limit frl_enabled);
  arm ["P2P_ANTIABUSE_FREE_RATE_MAX_PER_WINDOW"] (uint 32) (at3 gc_antiabuse ab_free_rate_limit frl_max_free_per_window);
  arm ["P2P_ANTIABUSE_FREE_RATE_WINDOW_SECS"] (uint 64) (at3 gc_antiabuse ab_free_rate_limit frl_window_secs);
  arm ["P2P_ANTIABUSE_FREE_RATE_REQUIRE_POW_BITS"] (uint 32) (at3 gc_antiabuse ab_free_rate_limit frl_require_pow_bits);
  arm ["P2P_ANTIABUSE_AUTO_BLOCK_ENABLED"] flag (at3 gc_antiabuse ab_blocklist blp_auto_block_enabled);
  arm ["P2P_ANTIABUSE_AUTO_BLOCK_TRUST_FLOOR"] float (at3 gc_antiabuse ab_blocklist blp_auto_block_trust_floor);
  arm ["P2P_ANTIABUSE_HONOR_GOSSIP_SIGNALS"] flag (at3 gc_antiabuse ab_blocklist blp_honor_gossip_signals);
  arm ["P2P_ANTIABUSE_HONOR_GLOBAL_PARAMS"] flag (at3 gc_antiabuse ab_blocklist blp_honor_global_params);
  arm ["P2P_ANTIABUSE_GOSSIP_PEER_SCORING"] flag (at3 gc_antiabuse ab_gossip gh_peer_scoring);
  arm ["P2P_ANTIABUSE_GOSSIP_DIVERSE_BOOTSTRAP"] flag (at3 gc_antiabuse ab_gossip gh_diverse_bootstrap)
].

#[local] Close Scope string_scope.

Definition env_table : list Arm :=
  env_transport ++ env_discovery ++ env_scheduler ++ env_membership ++ env_liveness ++ env_storage ++ env_planner ++ env_sandbox
  ++ env_economics ++ env_antiabuse.

Definition find_arm (k : bytes) : option Arm := List.find (fun a => bool_decide (k ∈ arm_keys a)) env_table.

(** A variable that no arm names is ignored. *)
Fixpoint apply_env_map (env : list (bytes * bytes)) (c : GridConfig) : result GridConfig ConfigError :=
  match env with
  | [] => Ok c
  | (k, v) :: env' =>
      match find_arm k with
      | None => apply_env_map env' c
      | Some a => x <-? arm_parse a k v ;; apply_env_map env' (arm_set a x c)
      end
  end.

(** [env::vars().filter(|(k, _)| k.starts_with("P2P_")).collect()] *)
Definition grid_vars (vars : list (bytes * bytes)) : list (bytes * bytes) :=
  bt_collect (List.filter (fun e => starts_with (str "P2P_") e.1) vars).
Definition apply_env (vars : list (bytes * bytes)) (c : GridConfig) : result GridConfig ConfigError := apply_env_map (grid_vars vars) c.

(** [toml::from_str::<GridConfig>] *)
Class ConfigFile := config_from_str : bytes -> option GridConfig.

Definition from_toml_str {T : ConfigFile} (text : bytes) : result GridConfig ConfigError := ok_or (config_from_str text) ConfigToml.
Definition from_toml_file {T : ConfigFile} (read_to_string : bytes -> option bytes) (path : bytes) : result GridConfig ConfigError :=
  text <-? ok_or (read_to_string path) (ConfigIo path) ;;
  from_toml_str text.

(** The layer below the environment. *)
Definition load_file {T : ConfigFile} (read_to_string : bytes -> option bytes) (vars : list (bytes * bytes)) (file : option bytes)
  : result GridConfig ConfigError :=
  match file, bt_get (str "P2P_CONFIG") vars with
  | Some p, _ => from_toml_file read_to_string p
  | None, Some p => from_toml_file read_to_string p
  | None, None => Ok default_GridConfig
  end.

Definition load {T : ConfigFile} (read_to_string : bytes -> option bytes) (vars : list (bytes * bytes)) (file : option bytes)
  : result GridConfig ConfigError :=
  cfg <-? load_file read_to_string vars file ;;
  cfg <-? apply_env vars cfg ;;
  _ <-? validate cfg ;;
  Ok cfg.

(** ** The arms are independent *)

Lemma table_keys_distinct : NoDup (mjoin (arm_keys <$> env_table)).
Proof. apply (bool_decide_unpack _). vm_compute. exact I. Qed.

(** Reading the fields of [l] in [c'] gives what it gives in [c]. *)
Fixpoint same_fields (l : list Arm) (c c' : GridConfig) : Prop :=
  match l with
  | [] => True
  | a :: l' => arm_get a c' = arm_get a c /\ same_fields l' c c'
  end.

Lemma same_fields_refl l c : same_fields l c c.
Proof. induction l as [|a l IH]; [done|]. by split. Qed.

(** The arm at position [i] reads back what it wrote and leaves the fields of the others alone. *)
Definition independent_at (i : nat) : Prop :=
  match env_table !! i with
  | Some a => forall x c, arm_get a (arm_set a x c) = x
      /\ same_fields (take i env_table) c (arm_set a x c) /\ same_fields (drop (S i) env_table) c (arm_set a x c)
  | None => True
  end.

Ltac fields_agree :=
  lazymatch goal with |- same_fields ?l ?c _ => exact_no_check (same_fields_refl l c) end.

Lemma table_independent i : independent_at i.
Proof.
  do 138 (destruct i as [|i]; [hnf; intros x c; split; [reflexivity|]; split; fields_agree|]).
  exact I.
Qed.

Lemma same_fields_at l c c' a : same_fields l c c' -> a ∈ l -> arm_get a c' = arm_get a c.
Proof. induction l as [|b l IH]; [by intros _ ?%elem_of_nil|]. intros [Hb Hl] [->|Ha]%elem_of_cons; auto. Qed.

Lemma arm_reads_back a x c : a ∈ env_table -> arm_get a (arm_set a x c) = x.
Proof. intros (i & Hi)%list_elem_of_lookup. pose proof (table_independent i) as H. unfold independent_at in H. rewrite Hi in H. by destruct (H x c). Qed.

Lemma arm_frame a b x c : a ∈ env_table -> b ∈ env_table -> a <> b -> arm_get a (arm_set b x c) = arm_get a c.
Proof.
  intros (i & Hi)%list_elem_of_lookup (j & Hj)%list_elem_of_lookup Hne. pose proof (table_independent j) as H.
  unfold independent_at in H. rewrite Hj in H. destruct (H x c) as (_ & Hb & Ha). destruct (Nat.lt_trichotomy i j) as [Hlt|[->|Hgt]].
  - apply (same_fields_at _ _ _ _ Hb). apply list_elem_of_lookup. exists i. by rewrite lookup_take_lt.
  - congruence.
  - apply (same_fields_at _ _ _ _ Ha). apply list_elem_of_lookup. exists (i - S j)%nat. rewrite lookup_drop.
    by replace (S j + (i - S j))%nat with i by lia.
Qed.

Lemma find_arm_some k a : find_arm k = Some a -> a ∈ env_table /\ k ∈ arm_keys a.
Proof. intros [Hin Hk]%find_some. split; [by apply list_elem_of_In|]. by apply bool_decide_eq_true in Hk. Qed.

Lemma keys_apart a b k : a ∈ env_table -> b ∈ env_table -> k ∈ arm_keys a -> k ∈ arm_keys b -> a = b.
Proof.
  intros (l1 & l2 & E)%list_elem_of_split Hb Ka Kb. pose proof table_keys_distinct as H. rewrite E in *.
  rewrite fmap_app, join_app in H. cbn in H. apply NoDup_app in H as (_ & H1 & H2). apply NoDup_app in H2 as (_ & H2 & _).
  assert (Hin : forall l, b ∈ l -> k ∈ mjoin (arm_keys <$> l)).
  { intros l Hl. apply list_elem_of_join. exists (arm_keys b). split; [done|]. by apply list_elem_of_fmap_2. }
  apply elem_of_app in Hb as [Hb|[->|Hb]%elem_of_cons]; [|done|].
  - exfalso. apply (H1 k); [by apply Hin|]. apply elem_of_app. by left.
  - exfalso. apply (H2 k Ka). by apply Hin.
Qed.

Lemma find_arm_key a k : a ∈ env_table -> k ∈ arm_keys a -> find_arm k = Some a.
Proof.
  intros Ha Hk. destruct (find_arm k) as [b|] eqn:E.
  - destruct (find_arm_some _ _ E) as [Hb Kb]. f_equal. by eapply keys_apart.
  - exfalso. pose proof (find_none _ _ E a (proj1 (list_elem_of_In _ _) Ha)) as H. cbn in H. by apply bool_decide_eq_false in H.
Qed.

(** ** What the environment layer does *)

(** The last entry, in the order of the environment, that names a variable of [a]. *)
Definition last_assigned (a : Arm) (env : list (bytes * bytes)) : option (bytes * bytes) :=
  last (List.filter (fun e => bool_decide (e.1 ∈ arm_keys a)) env).

Definition readable (env : list (bytes * bytes)) : Prop :=
  forall k v a, (k, v) ∈ env -> find_arm k = Some a -> exists x, arm_parse a k v = Ok x.

(** Every assigned field holds the value of its last variable, every other reading of the
    configuration that no arm can change is as before. *)
Definition assigned (env : list (bytes * bytes)) (c c' : GridConfig) : Prop :=
  (forall a, a ∈ env_table ->
     match last_assigned a env with
     | Some (k, v) => arm_parse a k v = Ok (arm_get a c')
     | None => arm_get a c' = arm_get a c
     end)
  /\ (forall (B : Type) (f : GridConfig -> B), (forall a x c, a ∈ env_table -> f (arm_set a x c) = f c) -> f c' = f c).

Lemma assigned_nil c : assigned [] c c.
Proof. by split. Qed.

Lemma last_assigned_cons a e env :
  last_assigned a (e :: env)
  = match last_assigned a env with Some e' => Some e' | None => if bool_decide (e.1 ∈ arm_keys a) then Some e else None end.
Proof.
  unfold last_assigned. cbn [List.filter]. destruct (bool_decide (e.1 ∈ arm_keys a)); [|by destruct (last _)]. by rewrite last_cons.
Qed.

Lemma assigned_skip k v env c c' : find_arm k = None -> assigned env c c' -> assigned ((k, v) :: env) c c'.
Proof.
  intros Hk [Ha Hf]. split; [|done]. intros a Hin. specialize (Ha a Hin). rewrite last_assigned_cons.
  destruct (last_assigned a env) as [[k' v']|]; [done|]. cbn [fst]. case_bool_decide as Hka; [|done].
  by rewrite (find_arm_key a k) in Hk.
Qed.

Lemma assigned_step k v env b x c c' :
  find_arm k = Some b -> arm_parse b k v = Ok x -> assigned env (arm_set b x c) c' -> assigned ((k, v) :: env) c c'.
Proof.
  intros Hk Hx [Ha Hf]. destruct (find_arm_some _ _ Hk) as [Hb Kb]. split.
  - intros a Hin. specialize (Ha a Hin). rewrite last_assigned_cons. destruct (last_assigned a env) as [[k' v']|]; [done|]. cbn [fst].
    rewrite Ha. case_bool_decide as Hka.
    + assert (a = b) as -> by (by eapply keys_apart). by rewrite arm_reads_back.
    + apply arm_frame; [done..|]. by intros ->.
  - intros B f H. by rewrite Hf, H.
Qed.

Lemma apply_env_map_exact env c :
  match apply_env_map env c with
  | Ok c' => readable env /\ assigned env c c'
  | Err e => exists before k v after a, env = before ++ (k, v) :: after /\ readable before /\ find_arm k = Some a /\ arm_parse a k v = Err e
  end.
Proof.
  revert c. induction env as [|[k v] env IH]; intros c; cbn [apply_env_map].
  { split; [by intros ? ? ? ?%elem_of_nil|apply assigned_nil]. }
  assert (Hr : forall l, (forall a, find_arm k = Some a -> exists x, arm_parse a k v = Ok x) -> readable l -> readable ((k, v) :: l)).
  { intros l Hk Hl k' v' a [[= -> ->]|Hin]%elem_of_cons; eauto. }
  destruct (find_arm k) as [b|] eqn:Ek.
  - destruct (arm_parse b k v) as [x|e] eqn:Ex; cbn [res_bind].
    + specialize (IH (arm_set b x c)). destruct (apply_env_map env (arm_set b x c)) as [c'|e].
      * destruct IH as [H1 H2]. split; [apply Hr; [naive_solver|done]|by eapply assigned_step].
      * destruct IH as (before & k' & v' & after & a & -> & H1 & H2 & H3). exists ((k, v) :: before), k', v', after, a.
        split_and!; [done| |done..]. apply Hr; [naive_solver|done].
    + exists [], k, v, env, b. split_and!; [done| |done..]. by intros ? ? ? ?%elem_of_nil.
  - specialize (IH c). destruct (apply_env_map env c) as [c'|e].
    + destruct IH as [H1 H2]. split; [by apply Hr|by apply assigned_skip].
    + destruct IH as (before & k' & v' & after & a & -> & H1 & H2 & H3). exists ((k, v) :: before), k', v', after, a.
      split_and!; [done| |done..]. by apply Hr.
Qed.

(** A configuration that loads is its file (or the defaults) with the environment on top,
    and nothing else.  For every arm of the table above, the field it names holds the value
    read from the last of its variables in key order, or the file's value when none is
    set; every other field is the one of the file; all values were readable by their arm's
    reader (which for the two enforcement tiers of membership accepts any text), and the
    result passed validation.  When a value cannot be read, loading fails with the error of
    the first such variable, whatever the others hold. *)
Theorem load_layers {T : ConfigFile} (read_to_string : bytes -> option bytes) (vars : list (bytes * bytes)) (file : option bytes) :
  let env := grid_vars vars in
  match load_file read_to_string vars file, load read_to_string vars file with
  | Ok base, Ok c => validate c = Ok tt /\ readable env /\ assigned env base c
  | Ok base, Err e =>
      (exists before k v after a, env = before ++ (k, v) :: after /\ readable before /\ find_arm k = Some a /\ arm_parse a k v = Err e)
      \/ (exists c, assigned env base c /\ validate c = Err e)
  | Err e, r => r = Err e
  end.
Proof.
  cbv zeta. unfold load. destruct (load_file read_to_string vars file) as [base|e]; cbn [res_bind]; [|done].
  pose proof (apply_env_map_exact (grid_vars vars) base) as H. unfold apply_env.
  destruct (apply_env_map (grid_vars vars) base) as [c|e]; cbn [res_bind]; [|by left]. destruct H as [Hr Ha].
  destruct (validate c) as [[]|e] eqn:Ev; cbn [res_bind]; [done|]. right. by exists c.
Qed.

Definition var (k v : string) : bytes * bytes := (str k, str v).

(** Two names for one field: the later one in key order wins, not the order they were set in. *)
Example aliases_in_key_order :
  let c := apply_env [var "P2P_SCHEDULER_MAX_RETRIES" "2"; var "P2P_MAX_RETRIES" "7"; var "PATH" "/bin"; var "P2P_UNKNOWN" "?"] default_GridConfig in
  (sch_max_retries ∘ gc_scheduler) <$> (match c with Ok c => Some c | Err _ => None end) = Some 2.
Proof. vm_compute. reflexivity. Qed.

(** An unreadable value is reported with its variable, the first in key order. *)
Example bad_value_named :
  apply_env [var "P2P_REPLICAS" "three"; var "P2P_MIN_TRUST" "0,9"] default_GridConfig = Err (ConfigEnv (str "P2P_MIN_TRUST")).
Proof. vm_compute. reflexivity. Qed.

(** A misspelt enforcement tier is not an error: it switches token enforcement off. *)
Example misspelt_enforcement_is_soft :
  let strict := default_GridConfig <| gc_membership := default_MembershipConfig <| mem_group_enforcement := EnforceToken |> |> in
  let c := apply_env [var "P2P_MEMBERSHIP_GROUP_ENFORCEMENT" "tokens"] strict in
  (mem_group_enforcement ∘ gc_membership) <$> (match c with Ok c => Some c | Err _ => None end) = Some EnforceSoft
  /\ (match c with Ok c => validate c | Err e => Err e end) = Ok tt.
Proof. vm_compute. done. Qed.
