(* ===== verification/Settings.v ===== *)
(** * The settings store (crates/config/src/store.rs)

    The runtime layer of the configuration that is changed through SQL: reading, the
    generic and the grouped setters with their guards, secrets kept in files of their own,
    and the rows shown to the user.  The files are a map from paths to texts (a file that
    is missing or cannot be read has none); whether a directory can be made and what a
    failed write leaves behind is decided by the disk, a parameter.  The text form of TOML
    and the generated conversion between the configuration struct and a TOML value are
    third-party code: classes with the laws that are used.  Error texts are represented by
    the parameter or file they name; file permissions are not modelled. *)

From S2P Require Import Prelude Bytes F64 Text Proto Escrow ConfigData Config Decimal Toml Environment.
#[local] Open Scope duckton_scope.

(** ** Parameters *)

Abbreviation table := (list (bytes * Toml)).
Abbreviation Files := (gmap bytes bytes).

(** [toml::from_str], [toml::to_string_pretty], [Value::to_string] *)
Class TomlText := {
  toml_parse : bytes -> option table;
  toml_print : table -> option bytes;
  toml_show : Toml -> bytes;
}.
Class TomlTextLaws (T : TomlText) : Prop := {
  parse_print : forall t s, Toml_wf (TTable t) -> toml_print t = Some s -> toml_parse s = Some t;
  parse_wf : forall s t, toml_parse s = Some t -> Toml_wf (TTable t);
}.

(** [Value::try_from(&GridConfig)] and [value.try_into::<GridConfig>()] *)
Class ConfigSerde := {
  to_value : GridConfig -> option Toml;
  from_value : Toml -> option GridConfig;
}.

(** The disk: whether the directory of a path can be made, and the outcome of a write; a
    write that fails may leave the file truncated. *)
Inductive WriteOutcome := Written | Failed (rest : option bytes).
Record Disk := mkDisk { dk_mkdir : bytes -> bool; dk_write : bytes -> bytes -> WriteOutcome }.

Inductive StoreError :=
| StoreConfig (e : ConfigError)
| BadParam (what : bytes)
| Blocked (what : bytes)
| StoreIo (path : bytes).

Record SettingRow := mkRow { row_group : bytes; row_key : bytes; row_value : bytes }.

Record ConfigStore := mkStore { runtime_path : bytes; base_path : option bytes; secrets_dir : bytes }.

(** ** Reading the arguments of a setter *)

Definition one_of_ci (v : bytes) (allowed : list string) : bool :=
  existsb (fun a => bool_decide (to_ascii_lowercase (str a) = to_ascii_lowercase (trim v))) allowed.
Definition validate_one_of (name : string) (v : bytes) (allowed : list string) : result unit StoreError :=
  if one_of_ci v allowed then Ok tt else Err (BadParam (str name)).

Definition parse_bool_raw (v : bytes) (name : string) : result bool StoreError :=
  let t := fold_case v in
  if bool_decide (t ∈ (str <$> ["true"; "1"; "yes"; "on"]%string)) then Ok true
  else if bool_decide (t ∈ (str <$> ["false"; "0"; "no"; "off"]%string)) then Ok false
  else Err (BadParam (str name)).
Definition parse_bool (v : bytes) (name : string) : result Toml StoreError := b <-? parse_bool_raw v name ;; Ok (TBoolean b).
Definition parse_int (v : bytes) (name : string) : result Toml StoreError :=
  ok_or (TInteger <$> Text.parse_int 64 (trim v)) (BadParam (str name)).
Definition parse_float (v : bytes) (name : string) : result Toml StoreError :=
  ok_or (TFloat <$> parse_f64 (trim v)) (BadParam (str name)).

(** A boolean, then an integer, then a float, else the text as given. *)
Definition parse_scalar (s : bytes) : Toml :=
  let t := trim s in
  let l := to_ascii_lowercase t in
  if bool_decide (l = str "true" \/ l = str "false") then TBoolean (bool_decide (l = str "true"))
  else match Text.parse_int 64 t with
       | Some i => TInteger i
       | None => match parse_f64 t with Some f => TFloat f | None => TString s end
       end.

Definition friendly_settlement (s : bytes) : result string StoreError :=
  ok_or (keyword [("noop", "noop"); ("free", "noop"); ("off", "noop"); ("mock", "mock"); ("test", "mock");
                  ("ton", "onchain"); ("onchain", "onchain"); ("on-chain", "onchain"); ("channel", "channel")]%string (fold_case s))
    (BadParam (str "settlement")).

(** Switching to mainnet needs the confirmation, switching back withdraws it. *)
Definition network_change_pairs (net : bytes) (confirm : bool) : result table StoreError :=
  match keyword [("testnet", false); ("mainnet", true)]%string (fold_case net) with
  | Some false => Ok [(str "economics.network", TString (str "testnet")); (str "economics.mainnet_confirmed", TBoolean false)]
  | Some true =>
      if negb confirm then Err (Blocked (str "mainnet"))
      else Ok [(str "economics.network", TString (str "mainnet")); (str "economics.mainnet_confirmed", TBoolean true)]
  | None => Err (BadParam (str "network"))
  end.

(** An absolute path without [..]. *)
Definition validate_secret_file_path (field : string) (value : bytes) : result unit StoreError :=
  if negb (starts_with (str "/") value) then Err (BadParam (str field))
  else if bool_decide (str ".." ∈ split_on Byte.x2f value) then Err (BadParam (str field))
  else Ok tt.

(** ** The pairs of the groups that only read their arguments *)

Section pairs.
Context (uppercase : bytes -> bytes) (params : list (bytes * bytes)).

Definition arg (k : string) : option bytes := bt_get (str k) params.

(** [if let Some(v) = get(..) { out.push((key, f(v)?)) }] *)
Definition push (v : option bytes) (key : bytes) (f : bytes -> result Toml StoreError) (out : table) : result table StoreError :=
  match v with
  | Some v => x <-? f v ;; Ok (out ++ [(key, x)])
  | None => Ok out
  end.

(** [for k in [..] { if let Some(v) = get(k) { out.push((format!("{prefix}{k}"), f(v, k)?)) } }] *)
Fixpoint push_each (prefix : string) (ks : list string) (f : bytes -> string -> result Toml StoreError) (out : table) : result table StoreError :=
  match ks with
  | [] => Ok out
  | k :: ks' =>
      out <-? push (arg k) (str prefix ++ str k) (fun v => f v k) out ;;
      push_each prefix ks' f out
  end.

Definition string_value (v : bytes) : result Toml StoreError := Ok (TString v).

Definition economics_pairs : result table StoreError :=
  out <-? push (arg "enabled") (str "economics.enabled") (fun v => parse_bool v "enabled") [] ;;
  out <-? push (arg "settlement") (str "economics.settlement") (fun v => s <-? friendly_settlement v ;; Ok (TString (str s))) out ;;
  out <-? push (arg "default_payment") (str "economics.default_payment")
            (fun v => _ <-? validate_one_of "default_payment" v ["free"; "paid"; "auto"]%string ;; Ok (TString v)) out ;;
  out <-? push (arg "fee_recipient") (str "economics.fee_recipient") string_value out ;;
  confirm <-? match arg "confirm" with Some v => b <-? parse_bool_raw v "confirm" ;; Ok (Some b) | None => Ok None end ;;
  match arg "network", confirm with
  | Some net, _ => ps <-? network_change_pairs net (default false confirm) ;; Ok (out ++ ps)
  | None, Some c => Ok (out ++ [(str "economics.mainnet_confirmed", TBoolean c)])
  | None, None => Ok out
  end.

Definition planner_pairs : result table StoreError :=
  out <-? push (arg "prefer") (str "planner.prefer")
            (fun v => let lc := fold_case v in
                      _ <-? validate_one_of "prefer" lc ["local"; "remote"; "auto"]%string ;; Ok (TString lc)) [] ;;
  out <-? push (match arg "local_execution" with Some v => Some v | None => arg "local_execution_enabled" end)
            (str "planner.local_execution_enabled") (fun v => parse_bool v "local_execution") out ;;
  push (arg "enabled") (str "planner.enabled") (fun v => parse_bool v "enabled") out.

Definition trust_pairs : result table StoreError :=
  out <-? push (arg "min_trust") (str "trust.min_trust") (fun v => parse_float v "min_trust") [] ;;
  push (match arg "min_attest" with Some v => Some v | None => arg "min_attestation" end) (str "trust.min_attestation")
    (fun v => let up := uppercase (trim v) in
              _ <-? validate_one_of "min_attest" up ["L0"; "L1"; "L2"]%string ;; Ok (TString up)) out.

Definition selection_pairs : result table StoreError :=
  out <-? push (arg "replicas") (str "scheduler.replicas") (fun v => parse_int v "replicas") [] ;;
  out <-? push (arg "quorum") (str "scheduler.quorum") (fun v => parse_int v "quorum") out ;;
  push_each "economics.selection." ["checksum_min"; "n_public"; "n_default"; "n_max"]%string parse_int out.

Definition fees_pairs : result table StoreError :=
  push_each "economics.fees." ["platform_fee_pct"; "participation_commission_frac"; "verification_surcharge_pct"; "bonus_aggressiveness"]%string
    parse_float [].
Definition pricing_pairs : result table StoreError := push_each "economics.pricing." ["unit_price"; "max_bid"]%string parse_int [].
Definition bidding_pairs : result table StoreError :=
  push_each "economics.ranking." ["w_quality"; "w_stake"; "w_price"; "stake_reliability_floor"]%string parse_float [].

Definition contracts_pairs (net : bytes) : result table StoreError :=
  let fix go ks out :=
    match ks with
    | [] => Ok out
    | k :: ks' => out <-? push (arg k) (str "economics." ++ net ++ str ".contracts." ++ str k) string_value out ;; go ks' out
    end in
  go ["stake_vault"; "job_escrow"; "record_anchor"; "global_params"]%string [].

End pairs.

(** ** Effects: the files are read and written, a step can fail *)

Definition M (A : Type) : Type := Files -> result A StoreError * Files.
Definition ret {A} (x : A) : M A := fun fs => (Ok x, fs).
Definition raise {A} (e : StoreError) : M A := fun fs => (Err e, fs).
Definition bind {A B} (m : M A) (k : A -> M B) : M B :=
  fun fs => match m fs with (Ok x, fs') => k x fs' | (Err e, fs') => (Err e, fs') end.
Definition lift {A} (r : result A StoreError) : M A := fun fs => (r, fs).
#[local] Notation "x <-! m ;; k" := (bind m (fun x => k)) (at level 100, m at next level, right associativity).

Section store.
Context {T : TomlText} {F : ConfigFile} {S : ConfigSerde} (uppercase : bytes -> bytes) (disk : Disk) (vars : list (bytes * bytes)) (st : ConfigStore).

Definition config_error {A} (r : result A ConfigError) : result A StoreError :=
  match r with Ok x => Ok x | Err e => Err (StoreConfig e) end.

(** [std::fs::write] after [create_dir_all] on its directory. *)
Definition write_file (path text : bytes) : M unit := fun fs =>
  if negb (dk_mkdir disk path) then (Err (StoreIo path), fs)
  else match dk_write disk path text with
       | Written => (Ok tt, <[path := text]> fs)
       | Failed None => (Err (StoreIo path), fs)
       | Failed (Some rest) => (Err (StoreIo path), <[path := rest]> fs)
       end.

Definition load_base (fs : Files) : result GridConfig StoreError := config_error (load (fun p => fs !! p) vars (base_path st)).

(** A file that cannot be read counts as empty. *)
Definition read_runtime (fs : Files) : result table StoreError :=
  match fs !! runtime_path st with
  | Some text => ok_or (toml_parse text) (BadParam (runtime_path st))
  | None => Ok []
  end.

(** The tree of the base configuration with the runtime layer on top. *)
Definition merged_tree (base : GridConfig) (runtime : table) : option Toml := deep_merge (TTable runtime) <$> to_value base.

Definition merge_runtime (base : GridConfig) (runtime : table) : result GridConfig StoreError :=
  v <-? ok_or (merged_tree base runtime) (BadParam (str "base")) ;;
  ok_or (from_value v) (BadParam (str "rejected")).

Definition effective (fs : Files) : result GridConfig StoreError :=
  base <-? load_base fs ;;
  runtime <-? read_runtime fs ;;
  cfg <-? merge_runtime base runtime ;;
  _ <-? config_error (validate cfg) ;;
  Ok cfg.

Definition write_runtime (runtime : table) : M unit :=
  text <-! lift (ok_or (toml_print runtime) (BadParam (str "serialize"))) ;;
  write_file (runtime_path st) text.

Definition set_pairs (runtime : table) (pairs : table) : table := foldl (fun t e => set_path t e.1 e.2) runtime pairs.

Definition set (pairs : table) : M GridConfig := fun fs =>
  (runtime <-! lift (read_runtime fs) ;;
   let runtime := set_pairs runtime pairs in
   base <-! lift (load_base fs) ;;
   cfg <-! lift (merge_runtime base runtime) ;;
   _ <-! lift (config_error (validate cfg)) ;;
   if mainnet_blocked (gc_economics cfg) then raise (Blocked (str "mainnet"))
   else _ <-! write_runtime runtime ;; ret cfg) fs.

Definition set_kv (key value : bytes) : M GridConfig := set [(trim key, parse_scalar value)].

(** [remove_file]; a missing file is fine. *)
Definition reset (removable : bool) : M unit := fun fs =>
  if removable || bool_decide (fs !! runtime_path st = None) then (Ok tt, delete (runtime_path st) fs) else (Err (StoreIo (runtime_path st)), fs).

(** [dir.join(name)] for a relative name *)
Definition join (dir name : bytes) : bytes :=
  if bool_decide (dir = []) || bool_decide (last dir = Some Byte.x2f) then dir ++ name else dir ++ str "/" ++ name.

(** [self.secrets_dir.join(safe)] *)
Definition safe_char (c : byte) : byte :=
  let v := byte_val c in
  if ((48 <=? v) && (v <=? 57)) || ((65 <=? v) && (v <=? 90)) || ((97 <=? v) && (v <=? 122)) || bool_decide (c ∈ [Byte.x2e; Byte.x2d; Byte.x5f])
  then c else Byte.x5f.
Definition secret_path (name : bytes) : bytes := join (secrets_dir st) (safe_char <$> name).

Definition store_secret (name secret : bytes) : M bytes :=
  _ <-! write_file (secret_path name) secret ;; ret (secret_path name).

(** A reference to a file of the user's, or a secret that is put into a file of ours. *)
Definition secret_pair (params : list (bytes * bytes)) (file_arg raw_arg : string) (key name : bytes) (out : table) : M table :=
  match arg params file_arg, arg params raw_arg with
  | Some v, _ => _ <-! lift (validate_secret_file_path file_arg v) ;; ret (out ++ [(key, TString v)])
  | None, Some secret => path <-! store_secret name secret ;; ret (out ++ [(key, TString path)])
  | None, None => ret out
  end.

Definition wallet_pairs (params : list (bytes * bytes)) (net : bytes) : M table :=
  out <-! lift (push (arg params "rpc") (str "economics." ++ net ++ str ".rpc") string_value []) ;;
  out <-! lift (push (arg params "address") (str "economics." ++ net ++ str ".wallet.address") string_value out) ;;
  out <-! secret_pair params "mnemonic_file" "mnemonic" (str "economics." ++ net ++ str ".wallet.mnemonic_file") (net ++ str ".mnemonic") out ;;
  secret_pair params "api_key_file" "api_key" (str "economics." ++ net ++ str ".api_key_file") (net ++ str ".api_key") out.

Definition active_network : M bytes := fun fs => (cfg <-? effective fs ;; Ok (network_as_str (ec_network (gc_economics cfg))), fs).

Definition group_pairs (group : bytes) (params : list (bytes * bytes)) : M table :=
  if bool_decide (group = str "economics") then lift (economics_pairs params)
  else if bool_decide (group = str "planner") then lift (planner_pairs params)
  else if bool_decide (group = str "trust") then lift (trust_pairs uppercase params)
  else if bool_decide (group = str "selection") then lift (selection_pairs params)
  else if bool_decide (group = str "fees") then lift (fees_pairs params)
  else if bool_decide (group = str "pricing") then lift (pricing_pairs params)
  else if bool_decide (group = str "bidding") then lift (bidding_pairs params)
  else if bool_decide (group = str "contracts") then net <-! active_network ;; lift (contracts_pairs params net)
  else if bool_decide (group = str "wallet") then net <-! active_network ;; wallet_pairs params net
  else raise (BadParam group).

Definition apply_group (group : bytes) (params : list (bytes * bytes)) : M GridConfig :=
  pairs <-! group_pairs group params ;;
  match pairs with
  | [] => fun fs => (effective fs, fs)
  | _ => set pairs
  end.

End store.

(** ** The rows shown to the user *)

Definition is_secret_key (key : bytes) : bool :=
  bool_decide (to_ascii_lowercase key
    ∈ (str <$> ["mnemonic"; "api_key"; "apikey"; "secret"; "private_key"; "privatekey"; "seed"; "passphrase"]%string)).

Definition is_zero (v : Toml) : bool :=
  match v with TInteger 0 => true | TFloat f => feq f (f64_of_Z 0) | _ => false end.
Definition is_false (v : Toml) : bool := match v with TBoolean b => negb b | _ => false end.

Definition inert_note (key : bytes) (leaf : Toml) : option bytes :=
  let note k (c : bool) (s : string) (other : option bytes) := if bool_decide (key = str k) && c then Some (str s) else other in
  note "economics.enabled" (is_false leaf) " (active: no — free / no-chain grid)"
  (note "scheduler.require_staked_hosts" (is_false leaf) " (active: no)"
  (note "sandbox.enabled" (is_false leaf) " (no-op: OS sandbox off — jobs run in-process under the DuckDB lockdown)"
  (note "economics.ranking.capability_weight" (is_zero leaf) " (no-op at 0)"
  (note "economics.ranking.exploration_rate" (is_zero leaf) " (no-op at 0)"
  (note "liveness.phi.enabled" (is_false leaf) " (active: no)"
  (note "liveness.swim.enabled" (is_false leaf) " (active: no)" None)))))).

Section rows.
Context {T : TomlText}.

Definition show_bool (b : bool) : bytes := if b then str "true" else str "false".

Fixpoint display_value (v : Toml) : bytes :=
  match v with
  | TString s => s
  | TInteger i => show_int i
  | TFloat f => show_f64 f
  | TBoolean b => show_bool b
  | TArray a => (fix go (a : list Toml) : bytes :=
                   match a with
                   | [] => []
                   | [x] => display_value x
                   | x :: a' => display_value x ++ str ", " ++ go a'
                   end) a
  | other => toml_show other
  end.

(** [prefix.rsplit('.').next()] *)
Definition last_part (p : bytes) : bytes := default [] (last (split_on Byte.x2e p)).

Definition leaf_row (prefix : bytes) (leaf : Toml) : SettingRow :=
  let '(group, key) := default (prefix, prefix) (split_once Byte.x2e prefix) in
  let value := if is_secret_key (last_part prefix) then str "<redacted>" else display_value leaf in
  mkRow group key (value ++ default [] (inert_note prefix leaf)).

Definition child_prefix (prefix k : bytes) : bytes := match prefix with [] => k | _ => prefix ++ str "." ++ k end.

Fixpoint walk (prefix : bytes) (v : Toml) {struct v} : list SettingRow :=
  match v with
  | TTable t => (fix go (t : table) : list SettingRow :=
                   match t with
                   | [] => []
                   | (k, child) :: t' => walk (child_prefix prefix k) child ++ go t'
                   end) t
  | leaf => [leaf_row prefix leaf]
  end.

Definition flatten_settings {S : ConfigSerde} (cfg : GridConfig) : list SettingRow :=
  match to_value cfg with Some v => walk [] v | None => [] end.

(** [format!("{:?}", x).to_lowercase()] *)
Definition rail_name (r : SettlementRail) : bytes :=
  match r with RailNoop => str "noop" | RailChannel => str "channel" | RailOnchain => str "onchain" | RailMock => str "mock" end.
Definition payment_name (p : PaymentPref) : bytes := match p with PrefFree => str "free" | PrefPaid => str "paid" | PrefAuto => str "auto" end.
Definition prefer_name (p : PreferMode) : bytes := match p with PreferLocal => str "local" | PreferRemote => str "remote" | PreferAuto => str "auto" end.

Definition status (k : string) (v : bytes) : SettingRow := mkRow (str "status") (str k) v.

Definition status_rows (cfg : GridConfig) : list SettingRow :=
  let e := gc_economics cfg in
  let payment := resolve_payment e ClassPublic in
  let wallet := active_settings e in
  [status "network" (network_as_str (ec_network e));
   status "network_confirmed" (match ec_network e with Mainnet => show_bool (ec_mainnet_confirmed e) | Testnet => str "n/a (testnet)" end);
   status "rpc_endpoint" (resolved_rpc e);
   status "explorer" (resolved_explorer e);
   status "economics_enabled" (if ec_enabled e then str "true" else str "false (active: no — free / no-chain grid)");
   status "settlement" (rail_name (ec_settlement e));
   status "default_payment" (payment_name (ec_default_payment e));
   status "public_jobs" (match payment with Paid => str "paid" | Free => str "free" end);
   status "wallet_configured" (show_bool (bool_decide (is_Some (wal_mnemonic_file (ns_wallet wallet)))));
   status "fee_recipient_set" (show_bool (bool_decide (is_Some (ec_fee_recipient e))));
   status "planner_prefer" (prefer_name (pl_prefer (gc_planner cfg)));
   status "execution_mode" (if pl_local_execution_enabled (gc_planner cfg) then str "local+grid" else str "remote-only (never executes locally)")]
  ++ (if mainnet_blocked e
      then [status "WARNING" (str "mainnet selected but NOT confirmed — paid/on-chain actions are blocked (real TON). Run p2p_economics(network => 'mainnet', confirm => true).")]
      else match ec_network e with
           | Mainnet => [status "WARNING" (str "MAINNET active — real TON is at stake for paid/on-chain actions.")]
           | Testnet => []
           end).

End rows.

(** ** The directory of the store *)

Definition pick_config_dir (p2p_config_dir xdg_config_home appdata home : option bytes) (windows : bool) : option bytes :=
  let nonempty (o : option bytes) := match o with Some ((_ :: _) as d) => Some d | _ => None end in
  match p2p_config_dir with
  | Some d => Some d
  | None =>
  match xdg_config_home with
  | Some x => Some (join x (str "duckdb-p2p"))
  | None =>
  match (if windows then nonempty appdata else None) with
  | Some a => Some (join a (str "duckdb-p2p"))
  | None =>
  match nonempty home with
  | Some h => Some (join (join h (str ".config")) (str "duckdb-p2p"))
  | None => (fun a => join a (str "duckdb-p2p")) <$> appdata
  end end end end.

(** ** What the setters do *)

Section laws.
Context {T : TomlText} {TL : TomlTextLaws T} {F : ConfigFile} {S : ConfigSerde}.
Context (uppercase : bytes -> bytes) (disk : Disk) (vars : list (bytes * bytes)) (st : ConfigStore).

(** The base file is not the runtime file. *)
Definition separate : Prop :=
  forall p, base_path st = Some p \/ bt_get (str "P2P_CONFIG") vars = Some p -> p <> runtime_path st.

Lemma load_base_ext fs fs' :
  (forall p, base_path st = Some p \/ bt_get (str "P2P_CONFIG") vars = Some p -> fs' !! p = fs !! p) ->
  load_base vars st fs' = load_base vars st fs.
Proof using Type.
  intros H. unfold load_base, load, load_file. destruct (base_path st) as [p|].
  - unfold from_toml_file. by rewrite (H p) by (by left).
  - destruct (bt_get (str "P2P_CONFIG") vars) as [p|]; [|done]. unfold from_toml_file. by rewrite (H p) by (by right).
Qed.

Lemma load_base_write fs text : separate -> load_base vars st (<[runtime_path st := text]> fs) = load_base vars st fs.
Proof using Type. intros Hs. apply load_base_ext. intros p Hp. apply lookup_insert_ne. symmetry. by apply Hs. Qed.

Lemma read_runtime_wf fs runtime : read_runtime st fs = Ok runtime -> Toml_wf (TTable runtime).
Proof using TL.
  unfold read_runtime. destruct (fs !! runtime_path st) as [text|].
  - destruct (toml_parse text) as [t|] eqn:E; [|done]. intros [= <-]. by eapply parse_wf.
  - intros [= <-]. by apply wf_table; constructor.
Qed.

Lemma set_pairs_wf runtime pairs : Toml_wf (TTable runtime) -> Forall (fun e => Toml_wf e.2) pairs -> Toml_wf (TTable (set_pairs runtime pairs)).
Proof using Type.
  unfold set_pairs. revert runtime. induction pairs as [|[k v] pairs IH]; intros runtime Hr Hp; [done|].
  apply Forall_cons in Hp as [Hv Hp]. apply IH; [|done]. by apply set_path_inner_wf.
Qed.

(** A successful change, step by step. *)
Lemma set_ok pairs fs c fs' :
  set disk vars st pairs fs = (Ok c, fs') ->
  exists runtime base text,
    read_runtime st fs = Ok runtime /\ load_base vars st fs = Ok base /\ merge_runtime base (set_pairs runtime pairs) = Ok c
    /\ validate c = Ok tt /\ mainnet_blocked (gc_economics c) = false
    /\ toml_print (set_pairs runtime pairs) = Some text /\ fs' = <[runtime_path st := text]> fs.
Proof using Type.
  unfold set, bind, lift, raise, ret. destruct (read_runtime st fs) as [runtime|]; [|done].
  destruct (load_base vars st fs) as [base|]; [|done]. destruct (merge_runtime base (set_pairs runtime pairs)) as [cfg|] eqn:Em; [|done].
  destruct (validate cfg) as [[]|] eqn:Ev; [|done]. cbn [config_error]. destruct (mainnet_blocked (gc_economics cfg)) eqn:Eb; [done|].
  unfold write_runtime, write_file, bind, lift. destruct (toml_print (set_pairs runtime pairs)) as [text|] eqn:Ep; [|done]. cbn [ok_or].
  destruct (dk_mkdir disk (runtime_path st)); [|done]. destruct (dk_write disk (runtime_path st) text) as [|[rest|]]; [|done..].
  cbn. intros [= <- <-]. by exists runtime, base, text.
Qed.

(** A refused change leaves the files alone; only a failing disk can touch the one file. *)
Lemma set_err pairs fs e fs' :
  set disk vars st pairs fs = (Err e, fs') ->
  fs' = fs \/ (e = StoreIo (runtime_path st) /\ exists rest, fs' = <[runtime_path st := rest]> fs).
Proof using Type.
  unfold set, bind, lift, raise, ret. destruct (read_runtime st fs) as [runtime|]; [|intros [= _ <-]; by left].
  destruct (load_base vars st fs) as [base|]; [|intros [= _ <-]; by left].
  destruct (merge_runtime base (set_pairs runtime pairs)) as [cfg|]; [|intros [= _ <-]; by left].
  destruct (config_error (validate cfg)) as [[]|]; [|intros [= _ <-]; by left].
  destruct (mainnet_blocked (gc_economics cfg)); [intros [= _ <-]; by left|].
  unfold write_runtime, write_file, bind, lift. destruct (ok_or (toml_print (set_pairs runtime pairs)) _) as [text|]; [|intros [= _ <-]; by left].
  destruct (dk_mkdir disk (runtime_path st)); cbn; [|intros [= _ <-]; by left].
  destruct (dk_write disk (runtime_path st) text) as [|[rest|]]; cbn; [done| |intros [= _ <-]; by left].
  intros [= <- <-]. right. split; [done|]. by exists rest.
Qed.

Lemma effective_after runtime base text fs c :
  separate -> Toml_wf (TTable runtime) -> toml_print runtime = Some text -> load_base vars st fs = Ok base ->
  merge_runtime base runtime = Ok c -> validate c = Ok tt -> effective vars st (<[runtime_path st := text]> fs) = Ok c.
Proof using TL.
  intros Hs Hw Hp Hb Hm Hv. unfold effective. rewrite load_base_write, Hb by done. cbn [res_bind]. unfold read_runtime.
  rewrite lookup_insert_eq, (parse_print _ _ Hw Hp). cbn [ok_or res_bind]. rewrite Hm. cbn [res_bind]. by rewrite Hv.
Qed.

(** Changing one key: the tree the new configuration is read from has the value at the key,
    and every value whose key parts from it is the one it was. *)
Definition takes_effect (fs : Files) (key : bytes) (v : Toml) (c : GridConfig) : Prop :=
  exists runtime base before after,
    read_runtime st fs = Ok runtime /\ load_base vars st fs = Ok base /\ merged_tree base runtime = Some before /\ from_value after = Some c
    /\ get_path (key_parts key) after = Some v
    /\ (open_path runtime (key_parts key) -> forall q, apart (key_parts key) q -> get_path q after = get_path q before).

Lemma set_takes_effect fs key v c fs' :
  set disk vars st [(key, v)] fs = (Ok c, fs') -> key_parts key <> [] -> is_scalar v = true -> takes_effect fs key v c.
Proof using TL.
  intros (runtime & base & text & Hr & Hb & Hm & _)%set_ok Hk Hv. unfold merge_runtime, merged_tree in Hm.
  destruct (to_value base) as [bv|] eqn:Ev; [|done]. cbn [fmap option_fmap option_map ok_or res_bind] in Hm.
  destruct (from_value _) as [c'|] eqn:Ef; [|done]. injection Hm as ->.
  pose proof (read_runtime_wf _ _ Hr) as Hw. assert (Hwv : Toml_wf v) by (by apply wf_scalar).
  assert (Hw' : Toml_wf (TTable (set_pairs runtime [(key, v)]))) by (apply set_pairs_wf; [done|by apply Forall_singleton]).
  exists runtime, base, (deep_merge (TTable runtime) bv), (deep_merge (TTable (set_pairs runtime [(key, v)])) bv).
  split_and!; [done|done|unfold merged_tree; by rewrite Ev|done| |].
  - apply merge_leaf; [done| |by apply scalar_not_table]. cbn. by apply get_path_set.
  - intros Ho q Ha. by apply merge_set_apart.
Qed.

(** *** Secrets *)

Definition secret_files : list bytes :=
  net ← [str "testnet"; str "mainnet"]; [secret_path st (net ++ str ".mnemonic"); secret_path st (net ++ str ".api_key")].

(** Two states of the files that differ in the secret files only. *)
Definition same_public (fs fs' : Files) : Prop := forall p, p ∉ secret_files -> fs' !! p = fs !! p.

(** The same arguments, up to what the secrets are. *)
Definition same_arguments (params params' : list (bytes * bytes)) : Prop :=
  (forall k, k <> "mnemonic"%string -> k <> "api_key"%string -> arg params' k = arg params k)
  /\ (forall k, is_Some (arg params' k) <-> is_Some (arg params k)).

(** The configuration files are not secret files, and whether a secret can be written does
    not depend on what it is. *)
Definition secrets_apart : Prop :=
  runtime_path st ∉ secret_files
  /\ (forall p, base_path st = Some p \/ bt_get (str "P2P_CONFIG") vars = Some p -> p ∉ secret_files)
  /\ (forall p t t', p ∈ secret_files -> dk_write disk p t = Written -> dk_write disk p t' = Written).

(** Two runs with the same answer, in states with the same public files. *)
Definition indistinct {A} (m m' : M A) : Prop :=
  forall fs fs', same_public fs fs' -> (m' fs').1 = (m fs).1 /\ same_public (m fs).2 (m' fs').2.

Lemma indistinct_bind {A B} (m m' : M A) (k k' : A -> M B) :
  indistinct m m' -> (forall x, indistinct (k x) (k' x)) -> indistinct (bind m k) (bind m' k').
Proof using Type.
  intros Hm Hk fs fs' Hs. destruct (Hm fs fs' Hs) as [Hr Hf]. unfold bind.
  destruct (m fs) as [[x|e] fs1], (m' fs') as [[x'|e'] fs1']; cbn in *; try done; simplify_eq; [by apply Hk|done].
Qed.

Lemma indistinct_lift {A} (r : result A StoreError) : indistinct (lift r) (lift r).
Proof using Type. by intros fs fs' Hs. Qed.

Lemma write_public path text : path ∉ secret_files -> indistinct (write_file disk path text) (write_file disk path text).
Proof using Type.
  intros Hp fs fs' Hs. unfold write_file. destruct (dk_mkdir disk path); [|done]. cbn.
  assert (Hi : forall t, same_public (<[path := t]> fs) (<[path := t]> fs')).
  { intros t p Hn. destruct (decide (p = path)) as [->|]; [by rewrite !lookup_insert_eq|]. rewrite !lookup_insert_ne by congruence. by apply Hs. }
  destruct (dk_write disk path text) as [|[rest|]]; cbn; auto.
Qed.

Lemma write_secret path secret secret' :
  secrets_apart -> path ∈ secret_files -> indistinct (write_file disk path secret) (write_file disk path secret').
Proof using Type.
  intros (_ & _ & Hd) Hp fs fs' Hs. unfold write_file. destruct (dk_mkdir disk path); [|done]. cbn.
  assert (Hi : forall t t', same_public (<[path := t]> fs) (<[path := t']> fs')).
  { intros t t' p Hn. rewrite !lookup_insert_ne by congruence. by apply Hs. }
  assert (Hl : forall t, same_public (<[path := t]> fs) fs' /\ same_public fs (<[path := t]> fs')).
  { intros t. split; intros p Hn; rewrite lookup_insert_ne by congruence; by apply Hs. }
  destruct (dk_write disk path secret) as [|o] eqn:E1; [rewrite (Hd _ _ secret' Hp E1); cbn; auto|].
  destruct (dk_write disk path secret') as [|o'] eqn:E2; [by rewrite (Hd _ _ secret Hp E2) in E1|].
  destruct o, o'; cbn; (split; [done|]); first [apply Hi|apply Hl|done].
Qed.

Lemma effective_public fs fs' : secrets_apart -> same_public fs fs' -> effective vars st fs' = effective vars st fs /\ read_runtime st fs' = read_runtime st fs /\ load_base vars st fs' = load_base vars st fs.
Proof using Type.
  intros (Hr & Hb & _) Hs. assert (Hl : load_base vars st fs' = load_base vars st fs) by (apply load_base_ext; intros p Hp; by apply Hs, Hb).
  assert (Hrr : read_runtime st fs' = read_runtime st fs) by (unfold read_runtime; by rewrite (Hs _ Hr)).
  split_and!; [|done|done]. unfold effective. by rewrite Hl, Hrr.
Qed.

Lemma set_public pairs : secrets_apart -> indistinct (set disk vars st pairs) (set disk vars st pairs).
Proof using Type.
  intros Ha fs fs' Hs. destruct (effective_public _ _ Ha Hs) as (_ & Hr & Hb). unfold set. rewrite Hr, Hb. revert fs fs' Hs Hr Hb.
  intros fs fs' Hs _ _. apply (indistinct_bind (lift (read_runtime st fs)) (lift (read_runtime st fs))); [apply indistinct_lift| |done].
  intros runtime. apply indistinct_bind; [apply indistinct_lift|]. intros base. apply indistinct_bind; [apply indistinct_lift|].
  intros cfg. apply indistinct_bind; [apply indistinct_lift|]. intros _. destruct (mainnet_blocked (gc_economics cfg)); [by intros ? ? ?|].
  apply indistinct_bind; [|intros _; by intros ? ? ?]. unfold write_runtime. apply indistinct_bind; [apply indistinct_lift|].
  intros text. apply write_public. by destruct Ha.
Qed.

Lemma secret_pair_public params params' file_arg raw_arg key name out :
  secrets_apart -> same_arguments params params' -> file_arg <> "mnemonic"%string -> file_arg <> "api_key"%string -> secret_path st name ∈ secret_files ->
  indistinct (secret_pair disk st params file_arg raw_arg key name out) (secret_pair disk st params' file_arg raw_arg key name out).
Proof using Type.
  intros Ha [Hp Hi] H1 H2 Hn. unfold secret_pair. rewrite (Hp file_arg) by done. destruct (arg params file_arg) as [v|].
  { apply indistinct_bind; [apply indistinct_lift|]. intros _. by intros ? ? ?. }
  specialize (Hi raw_arg). destruct (arg params raw_arg) as [s|], (arg params' raw_arg) as [s'|]; [| | |by intros ? ? ?].
  - apply indistinct_bind; [|intros path; by intros ? ? ?]. unfold store_secret. apply indistinct_bind; [by apply write_secret|].
    intros _. by intros ? ? ?.
  - by destruct (proj2 Hi ltac:(done)).
  - by destruct (proj1 Hi ltac:(done)).
Qed.

Lemma network_secret net name : net = str "testnet" \/ net = str "mainnet" -> name = net ++ str ".mnemonic" \/ name = net ++ str ".api_key" ->
  secret_path st name ∈ secret_files.
Proof using Type. unfold secret_files. intros [->| ->] [->| ->]; cbn; rewrite !elem_of_cons; clear; tauto. Qed.

Lemma push_each_args params params' prefix ks f out :
  (forall k, k ∈ ks -> arg params' k = arg params k) -> push_each params' prefix ks f out = push_each params prefix ks f out.
Proof using Type.
  revert out. induction ks as [|k ks IH]; intros out H; [done|]. cbn. rewrite (H k) by (by left). destruct (push _ _ _ _); [|done]. cbn.
  apply IH. intros. apply H. by right.
Qed.

Lemma active_network_public : secrets_apart -> indistinct (active_network vars st) (active_network vars st).
Proof using Type. intros Ha fs fs' Hs. unfold active_network. destruct (effective_public _ _ Ha Hs) as (-> & _). done. Qed.

Lemma group_pairs_public group params params' :
  secrets_apart -> same_arguments params params' ->
  indistinct (group_pairs uppercase disk vars st group params) (group_pairs uppercase disk vars st group params').
Proof using Type.
  intros Ha Hp. pose proof Hp as [He _]. unfold group_pairs.
  assert (Hk : forall ks : list string, "mnemonic"%string ∉ ks -> "api_key"%string ∉ ks -> forall k, k ∈ ks -> arg params' k = arg params k).
  { intros ks H1 H2 k Hin. apply He; by intros ->. }
  assert (E1 : economics_pairs params' = economics_pairs params) by (unfold economics_pairs; by rewrite !He).
  assert (E2 : planner_pairs params' = planner_pairs params) by (unfold planner_pairs; by rewrite !He).
  assert (E3 : trust_pairs uppercase params' = trust_pairs uppercase params) by (unfold trust_pairs; by rewrite !He).
  assert (E4 : selection_pairs params' = selection_pairs params).
  { unfold selection_pairs. rewrite !He by done. do 2 (destruct (push _ _ _ _); [cbn [res_bind]|done]). apply push_each_args, Hk; by apply (bool_decide_unpack _). }
  assert (E5 : fees_pairs params' = fees_pairs params) by (apply push_each_args, Hk; by apply (bool_decide_unpack _)).
  assert (E6 : pricing_pairs params' = pricing_pairs params) by (apply push_each_args, Hk; by apply (bool_decide_unpack _)).
  assert (E7 : bidding_pairs params' = bidding_pairs params) by (apply push_each_args, Hk; by apply (bool_decide_unpack _)).
  assert (E8 : forall net, contracts_pairs params' net = contracts_pairs params net) by (intros net; unfold contracts_pairs; by rewrite !He).
  rewrite E1, E2, E3, E4, E5, E6, E7. repeat (case_bool_decide; [apply indistinct_lift|]). case_bool_decide.
  { apply indistinct_bind; [by apply active_network_public|]. intros net. rewrite E8. apply indistinct_lift. }
  case_bool_decide; [|by intros ? ? ?]. intros fs fs' Hs. unfold bind, active_network.
  destruct (effective_public _ _ Ha Hs) as (-> & _). destruct (effective vars st fs) as [cfg|]; [|done]. cbn [res_bind].
  assert (Hnet : network_as_str (ec_network (gc_economics cfg)) = str "testnet" \/ network_as_str (ec_network (gc_economics cfg)) = str "mainnet")
    by (destruct (ec_network _); cbn; auto).
  revert fs fs' Hs. unfold wallet_pairs. rewrite !He by done.
  apply indistinct_bind; [apply indistinct_lift|]. intros o1. apply indistinct_bind; [apply indistinct_lift|]. intros o2.
  apply indistinct_bind; [apply secret_pair_public; try done; apply (network_secret _ _ Hnet); by left|]. intros o3.
  apply secret_pair_public; try done. apply (network_secret _ _ Hnet). by right.
Qed.

(** *** What a setter leaves on the disk *)

Lemma set_spec (pairs : table) (fs : Files) :
  separate -> Forall (fun e => Toml_wf e.2) pairs ->
  match set disk vars st pairs fs with
  | (Ok c, fs') =>
      effective vars st fs' = Ok c /\ validate c = Ok tt /\ mainnet_blocked (gc_economics c) = false
      /\ (forall p, p <> runtime_path st -> fs' !! p = fs !! p)
      /\ (forall key v, pairs = [(key, v)] -> key_parts key <> [] -> is_scalar v = true -> takes_effect fs key v c)
  | (Err e, fs') => fs' = fs \/ (e = StoreIo (runtime_path st) /\ forall p, p <> runtime_path st -> fs' !! p = fs !! p)
  end.
Proof using TL.
  intros Hs Hp. destruct (set disk vars st pairs fs) as [[c|e] fs'] eqn:E.
  - destruct (set_ok _ _ _ _ E) as (runtime & base & text & Hr & Hb & Hm & Hv & Hn & Ht & ->). split_and!; [|done|done| |].
    + eapply effective_after; eauto. apply set_pairs_wf; [by eapply read_runtime_wf|done].
    + intros p Hne. by apply lookup_insert_ne.
    + intros key v ->. by apply (set_takes_effect _ _ _ _ _ E).
  - apply set_err in E as [->|(-> & rest & ->)]; [by left|]. right. split; [done|]. intros p Hne. by apply lookup_insert_ne.
Qed.

(** A step that gives plain values only, and touches only the files of [ps]. *)
Definition frugal (ps : list bytes) (m : M table) : Prop :=
  forall fs, (forall p, p ∉ ps -> (m fs).2 !! p = fs !! p) /\ forall pairs, (m fs).1 = Ok pairs -> Forall (fun e => Toml_wf e.2) pairs.

Definition plain_values (r : result table StoreError) : Prop := forall pairs, r = Ok pairs -> Forall (fun e => Toml_wf e.2) pairs.

Lemma frugal_lift ps r : plain_values r -> frugal ps (lift r).
Proof using Type. intros H fs. split; [done|]. exact H. Qed.

Lemma frugal_bind {A} ps (m : M A) (k : A -> M table) :
  (forall fs p, p ∉ ps -> (m fs).2 !! p = fs !! p) -> (forall fs x fs', m fs = (Ok x, fs') -> frugal ps (k x)) -> frugal ps (bind m k).
Proof using Type.
  intros Hm Hk fs. specialize (Hm fs). unfold bind. destruct (m fs) as [[x|e] fs1] eqn:E; [|by split].
  destruct (Hk _ _ _ E fs1) as [H1 H2]. split; [|exact H2]. intros p Hp. by rewrite H1, Hm.
Qed.

Lemma plain_push v key f out :
  Forall (fun e => Toml_wf e.2) out -> (forall t x, f t = Ok x -> is_scalar x = true) -> plain_values (push v key f out).
Proof using Type.
  intros Ho Hf pairs. destruct v as [t|]; [|by intros [= <-]]. cbn. destruct (f t) as [x|] eqn:E; [|done]. intros [= <-].
  apply Forall_app. split; [done|]. apply Forall_singleton, wf_scalar. by eapply Hf.
Qed.

Lemma plain_push_bind v key f out (k : table -> result table StoreError) :
  Forall (fun e => Toml_wf e.2) out -> (forall t x, f t = Ok x -> is_scalar x = true) ->
  (forall out, Forall (fun e => Toml_wf e.2) out -> plain_values (k out)) -> plain_values (res_bind (push v key f out) k).
Proof using Type.
  intros Ho Hf Hk pairs. pose proof (plain_push v key f out Ho Hf) as H. destruct (push v key f out) as [out'|]; [|done]. cbn. by apply Hk, H.
Qed.

Lemma plain_push_each params prefix ks f out :
  Forall (fun e => Toml_wf e.2) out -> (forall t k x, f t k = Ok x -> is_scalar x = true) -> plain_values (push_each params prefix ks f out).
Proof using Type.
  intros Ho Hf. revert out Ho. induction ks as [|k ks IH]; intros out Ho; cbn [push_each]; [by intros ? [= <-]|].
  apply plain_push_bind; [done| |exact IH]. intros t x. apply Hf.
Qed.

Lemma scalar_bool v n x : parse_bool v n = Ok x -> is_scalar x = true.
Proof using Type. unfold parse_bool. destruct (parse_bool_raw v n); [|done]. by intros [= <-]. Qed.
Lemma scalar_int v n x : parse_int v n = Ok x -> is_scalar x = true.
Proof using Type. unfold parse_int. destruct (Text.parse_int _ _); [|done]. by intros [= <-]. Qed.
Lemma scalar_float v n x : parse_float v n = Ok x -> is_scalar x = true.
Proof using Type. unfold parse_float. destruct (parse_f64 _); [|done]. by intros [= <-]. Qed.
Lemma scalar_string v x : string_value v = Ok x -> is_scalar x = true.
Proof using Type. by intros [= <-]. Qed.

#[local] Ltac scalar_read := cbv beta zeta; first [apply scalar_bool | apply scalar_int | apply scalar_float | apply scalar_string
  | match goal with |- res_bind ?r _ = _ -> _ => destruct r; [by intros [= <-]|done] end].
#[local] Ltac plain := repeat (first [apply plain_push_each; [done|intros ? ? ?; scalar_read]
  | apply plain_push_bind; [done|intros ? ?; scalar_read|intros ? ?] | apply plain_push; [done|intros ? ?; scalar_read]]).

Lemma economics_plain params : plain_values (economics_pairs params).
Proof using Type.
  unfold economics_pairs. plain. destruct (match arg params "confirm" with Some v => _ | None => _ end) as [confirm|]; [|done]. cbn [res_bind].
  destruct (arg params "network") as [net|].
  - unfold network_change_pairs. intros pairs. destruct (keyword _ _) as [[]|]; [| |done].
    + destruct (negb _); [done|]. intros [= <-]. apply Forall_app. split; [done|]. by repeat constructor.
    + intros [= <-]. apply Forall_app. split; [done|]. by repeat constructor.
  - intros pairs. destruct confirm as [c|]; intros [= <-]; [|done]. apply Forall_app. split; [done|]. by repeat constructor.
Qed.

Lemma planner_plain params : plain_values (planner_pairs params).
Proof using Type. unfold planner_pairs. plain. Qed.
Lemma trust_plain params : plain_values (trust_pairs uppercase params).
Proof using Type. unfold trust_pairs. plain. Qed.
Lemma selection_plain params : plain_values (selection_pairs params).
Proof using Type. unfold selection_pairs. plain. Qed.

Lemma contracts_plain params net : plain_values (contracts_pairs params net).
Proof using Type.
  unfold contracts_pairs. do 4 (apply plain_push_bind; [done|apply scalar_string|intros ? ?]). by intros ? [= <-].
Qed.

Lemma write_file_frame path text fs p : p <> path -> (write_file disk path text fs).2 !! p = fs !! p.
Proof using Type.
  intros Hp. unfold write_file. destruct (dk_mkdir disk path); [|done]. cbn. destruct (dk_write disk path text) as [|[rest|]]; cbn; [| |done];
    by rewrite lookup_insert_ne.
Qed.

Lemma secret_pair_frugal ps params file_arg raw_arg key name out :
  secret_path st name ∈ ps -> Forall (fun e => Toml_wf e.2) out -> frugal ps (secret_pair disk st params file_arg raw_arg key name out).
Proof using Type.
  intros Hn Ho. assert (Hout : forall t, plain_values (Ok (out ++ [(key, TString t)]))).
  { intros t pairs [= <-]. apply Forall_app. split; [done|]. by repeat constructor. }
  unfold secret_pair. destruct (arg params file_arg) as [v|].
  { apply frugal_bind; [done|]. intros _ _ _ _. by apply (frugal_lift ps (Ok _)). }
  destruct (arg params raw_arg) as [secret|]; [|apply (frugal_lift ps (Ok _)); by intros ? [= <-]].
  apply frugal_bind; [|intros; by apply (frugal_lift ps (Ok _))]. intros fs p Hp. unfold store_secret, bind.
  assert (Hw : (write_file disk (secret_path st name) secret fs).2 !! p = fs !! p) by (apply write_file_frame; by intros ->).
  by destruct (write_file disk (secret_path st name) secret fs) as [[[]|e] fs1].
Qed.

(** The pairs of a group are plain values; only the wallet group writes, and only secrets. *)
Lemma group_pairs_frugal ps group params :
  (group = str "wallet" -> forall p, p ∈ secret_files -> p ∈ ps) -> frugal ps (group_pairs uppercase disk vars st group params).
Proof using Type.
  intros Hps. unfold group_pairs.
  case_bool_decide; [apply frugal_lift, economics_plain|]. case_bool_decide; [apply frugal_lift, planner_plain|].
  case_bool_decide; [apply frugal_lift, trust_plain|]. case_bool_decide; [apply frugal_lift, selection_plain|].
  do 3 (case_bool_decide; [apply frugal_lift; unfold fees_pairs, pricing_pairs, bidding_pairs; plain|]).
  case_bool_decide; [apply frugal_bind; [done|intros; apply frugal_lift, contracts_plain]|].
  case_bool_decide as Hw; [|by apply (frugal_lift ps (Err _))]. apply frugal_bind; [done|]. intros fs net fs' En.
  assert (Hnet : net = str "testnet" \/ net = str "mainnet").
  { unfold active_network in En. destruct (effective vars st fs) as [cfg|]; [|done]. cbn in En. injection En as <- _. destruct (ec_network _); cbn; auto. }
  assert (Hin : forall name, name = net ++ str ".mnemonic" \/ name = net ++ str ".api_key" -> secret_path st name ∈ ps).
  { intros name Hn. by apply Hps, (network_secret net). }
  assert (Hpush : forall v key out, Forall (fun e => Toml_wf e.2) out -> plain_values (push v key string_value out)).
  { intros v key out Ho. by apply plain_push; [|apply scalar_string]. }
  unfold wallet_pairs. apply frugal_bind; [done|]. intros fs1 out1 fs2 [E1 _]%pair_equal_spec. apply Hpush in E1; [|constructor].
  apply frugal_bind; [done|]. intros fs3 out2 fs4 [E2 _]%pair_equal_spec. apply Hpush in E2; [|done].
  apply frugal_bind.
  - intros fs5 p Hp. by apply (secret_pair_frugal ps); [apply Hin; by left| |].
  - intros fs5 out3 fs6 E3. assert (Forall (fun e => Toml_wf e.2) out3).
    { eapply (secret_pair_frugal ps) with (fs := fs5); [apply Hin; by left|exact E2|]. by rewrite E3. }
    apply secret_pair_frugal; [apply Hin; by right|done].
Qed.

Lemma effective_valid fs c : effective vars st fs = Ok c -> validate c = Ok tt.
Proof using Type.
  unfold effective. intros (base & _ & (runtime & _ & (cfg & _ & ([] & Hv & [= <-])%res_bind_ok)%res_bind_ok)%res_bind_ok)%res_bind_ok.
  by destruct (validate cfg) as [[]|].
Qed.

(** C38: a change of settings happens completely and for good, or not at all.  When
    [ConfigStore::set] succeeds, the configuration it returns is valid, is not an
    unconfirmed mainnet, and is the one every later reader of the store gets; a single
    changed key has its new value in it and nothing else moved.  When it fails - a bad
    value, a configuration that does not validate, mainnet without confirmation - the files
    are untouched; only a write the disk itself broke off can leave the runtime file
    damaged, and then that is the error returned.  A grouped setter that succeeds likewise
    returns the valid configuration every later reader gets, and one that fails leaves the
    runtime file as it was, up to the same broken write; neither touches any other file -
    except that the wallet group stores a raw mnemonic or API key in a secret file before
    the rest of its arguments are checked, and keeps it when the call then fails. *)
Theorem settings_transactional (fs : Files) :
  separate -> runtime_path st ∉ secret_files ->
  (forall p, base_path st = Some p \/ bt_get (str "P2P_CONFIG") vars = Some p -> p ∉ secret_files) ->
  (forall pairs, Forall (fun e => Toml_wf e.2) pairs ->
     match set disk vars st pairs fs with
     | (Ok c, fs') =>
         effective vars st fs' = Ok c /\ validate c = Ok tt /\ mainnet_blocked (gc_economics c) = false
         /\ (forall p, p <> runtime_path st -> fs' !! p = fs !! p)
         /\ (forall key v, pairs = [(key, v)] -> key_parts key <> [] -> is_scalar v = true -> takes_effect fs key v c)
     | (Err e, fs') => fs' = fs \/ (e = StoreIo (runtime_path st) /\ forall p, p <> runtime_path st -> fs' !! p = fs !! p)
     end)
  /\ (forall group params,
     let written := if bool_decide (group = str "wallet") then secret_files else [] in
     match apply_group uppercase disk vars st group params fs with
     | (Ok c, fs') => effective vars st fs' = Ok c /\ validate c = Ok tt /\ forall p, p <> runtime_path st -> p ∉ written -> fs' !! p = fs !! p
     | (Err e, fs') =>
         (fs' !! runtime_path st = fs !! runtime_path st \/ e = StoreIo (runtime_path st))
         /\ forall p, p <> runtime_path st -> p ∉ written -> fs' !! p = fs !! p
     end).
Proof using TL.
  intros Hs Hr Hb. split; [intros pairs; by apply set_spec|]. intros group params written.
  assert (Hw : forall p, p ∈ written -> p ∈ secret_files) by (unfold written; case_bool_decide; [done|by intros p ?%elem_of_nil]).
  assert (Hf : frugal written (group_pairs uppercase disk vars st group params))
    by (apply group_pairs_frugal; intros ->; unfold written; by rewrite bool_decide_true).
  destruct (Hf fs) as [H1 H2]. unfold apply_group, bind.
  destruct (group_pairs uppercase disk vars st group params fs) as [[pairs|e] fs1]; cbn [fst snd] in *.
  2: { split; [left; apply H1; by intros ?%Hw|]. intros p _. apply H1. }
  specialize (H2 pairs eq_refl). destruct pairs as [|e0 pairs].
  - destruct (effective vars st fs1) as [c|e] eqn:E.
    + split; [done|]. split; [by eapply effective_valid|]. intros p _. apply H1.
    + split; [left; apply H1; by intros ?%Hw|]. intros p _. apply H1.
  - pose proof (set_spec (e0 :: pairs) fs1 Hs H2) as H. destruct (set disk vars st (e0 :: pairs) fs1) as [[c|e] fs2].
    + destruct H as (He & Hv & _ & Hp & _). split_and!; [done|done|]. intros p Hne Hn. by rewrite Hp, H1.
    + assert (Hrt : fs1 !! runtime_path st = fs !! runtime_path st) by (apply H1; by intros ?%Hw).
      destruct H as [->|[-> Hp]]; [split; [by left|intros p _; apply H1]|]. split; [by right|]. intros p Hne Hn. by rewrite Hp, H1.
Qed.

(** Secrets stay in their own files.  Whatever mnemonic and API key are handed to a
    grouped setter, its answer, the runtime file and every other file come out the same:
    only the contents of the per-network secret files under the secrets directory depend
    on them, also when the call fails half-way.  Nothing of a secret can therefore reach
    the persisted settings, an error or the rows shown to a user. *)
Theorem secrets_stay_out (group : bytes) (params params' : list (bytes * bytes)) (fs : Files) :
  secrets_apart -> same_arguments params params' ->
  let run := apply_group uppercase disk vars st group params fs in
  let run' := apply_group uppercase disk vars st group params' fs in
  run'.1 = run.1 /\ (forall p, p ∉ secret_files -> run'.2 !! p = run.2 !! p).
Proof using Type.
  intros Ha Hp. cbv zeta. assert (H : indistinct (apply_group uppercase disk vars st group params) (apply_group uppercase disk vars st group params')).
  { unfold apply_group. apply indistinct_bind; [by apply group_pairs_public|]. intros [|e pairs]; [|by apply set_public].
    intros f f' Hs. cbn. by destruct (effective_public _ _ Ha Hs) as (-> & _). }
  by destruct (H fs fs) as [H1 H2].
Qed.

End laws.

(** ** The rows hide what is named as a secret *)

Section redaction.
Context {T : TomlText}.

Lemma split_on_not_nil c s : split_on c s <> [].
Proof using Type. destruct s as [|x s]; [done|]. cbn. case_decide; [done|]. by destruct (split_on c s). Qed.

Lemma split_on_sep c a b : split_on c (a ++ c :: b) = split_on c a ++ split_on c b.
Proof using Type.
  induction a as [|x a IH]; cbn; [by rewrite decide_True|]. rewrite IH. case_decide; [done|].
  pose proof (split_on_not_nil c a). by destruct (split_on c a).
Qed.

Lemma last_part_child prefix k : last_part (child_prefix prefix k) = last_part k.
Proof using Type.
  destruct prefix as [|x p]; [done|]. unfold child_prefix, last_part. change (str ".") with [Byte.x2e].
  change ([Byte.x2e] ++ k) with (Byte.x2e :: k). rewrite split_on_sep. pose proof (split_on_not_nil Byte.x2e k).
  destruct (split_on Byte.x2e k) as [|y l] eqn:E using rev_ind; [done|]. by rewrite app_assoc, !last_snoc.
Qed.

Lemma secret_not_inert p leaf : is_secret_key (last_part p) = true -> inert_note p leaf = None.
Proof using Type.
  intros H. unfold inert_note. repeat (case_bool_decide; [subst p; vm_compute in H; discriminate|]). done.
Qed.

(** The tree without its secret-named plain values. *)
Fixpoint mask (v : Toml) : Toml :=
  match v with
  | TTable t => TTable ((fix go (t : table) : table :=
                           match t with
                           | [] => []
                           | (k, child) :: t' => (k, if negb (is_table child) && is_secret_key (last_part k) then TString [] else mask child) :: go t'
                           end) t)
  | leaf => leaf
  end.

(** Two configurations that differ in secret-named values only are shown alike. *)
Theorem rows_redacted prefix v : is_table v = true -> walk prefix (mask v) = walk prefix v.
Proof using Type.
  revert prefix. induction v as [v Hv|l _|t IH] using Toml_ind; intros prefix Ht; [by destruct v|done|]. clear Ht.
  induction t as [|[k child] t IHt]; [done|]. apply Forall_cons in IH as [Hc IH]. cbn [snd] in Hc. specialize (IHt IH).
  change (walk prefix (mask (TTable ((k, child) :: t))))
    with (walk (child_prefix prefix k) (if negb (is_table child) && is_secret_key (last_part k) then TString [] else mask child)
            ++ walk prefix (mask (TTable t))).
  change (walk prefix (TTable ((k, child) :: t))) with (walk (child_prefix prefix k) child ++ walk prefix (TTable t)).
  rewrite IHt. f_equal. destruct (is_table child) eqn:Et; cbn [negb andb]; [by apply Hc|].
  destruct (is_secret_key (last_part k)) eqn:Es; [|by destruct child].
  assert (Hr : forall w, is_table w = false -> walk (child_prefix prefix k) w = [leaf_row (child_prefix prefix k) w]) by (by intros []).
  rewrite !Hr by done. unfold leaf_row. rewrite last_part_child, Es. rewrite !secret_not_inert by (by rewrite last_part_child). done.
Qed.

End redaction.

(** ** Concrete instances *)

(** A text form for everything but floats and dates. *)
Abbreviation leaf_code := (list Z + (Z + bool))%type.

Fixpoint tree_of (v : Toml) : gen_tree leaf_code :=
  match v with
  | TString s => GenLeaf (inl (byte_val <$> s))
  | TInteger n => GenLeaf (inr (inl n))
  | TBoolean b => GenLeaf (inr (inr b))
  | TArray l => GenNode 0 (map tree_of l)
  | TTable t => GenNode 1 (map (fun e => GenNode 2 [GenLeaf (inl (byte_val <$> e.1)); tree_of e.2]) t)
  | _ => GenNode 3 []
  end.

Fixpoint of_tree (t : gen_tree leaf_code) : Toml :=
  match t with
  | GenLeaf (inl s) => TString (byte_of_Z <$> s)
  | GenLeaf (inr (inl n)) => TInteger n
  | GenLeaf (inr (inr b)) => TBoolean b
  | GenNode 0 ts => TArray (map of_tree ts)
  | GenNode _ ts => TTable (map (fun e => match e with
                                          | GenNode _ [GenLeaf (inl k); child] => (byte_of_Z <$> k, of_tree child)
                                          | _ => ([], TBoolean false)
                                          end) ts)
  end.

Fixpoint plain (v : Toml) : bool :=
  match v with
  | TString _ | TInteger _ | TBoolean _ => true
  | TArray l => forallb plain l
  | TTable t => forallb (fun e => plain e.2) t
  | _ => false
  end.

Fixpoint wfb (v : Toml) : bool :=
  match v with
  | TArray l => forallb wfb l
  | TTable t => bool_decide (bt_wf t) && forallb (fun e => wfb e.2) t
  | _ => true
  end.

Lemma forallb_iff {A} (f : A -> bool) (P : A -> Prop) l : Forall (fun x => f x = true <-> P x) l -> forallb f l = true <-> Forall P l.
Proof. induction 1 as [|x l Hx _ IH]; [done|]. cbn. by rewrite andb_true_iff, Forall_cons, Hx, IH. Qed.

Lemma wfb_sound v : wfb v = true <-> Toml_wf v.
Proof.
  induction v as [v Hv|l IH|t IH] using Toml_ind; [split; intros _; [by apply wf_scalar|by destruct v]| |]; cbn [wfb].
  - rewrite (forallb_iff _ _ _ IH). split; [by apply wf_array|by inversion 1].
  - rewrite andb_true_iff, bool_decide_eq_true, (forallb_iff _ (fun e => Toml_wf e.2) _ IH). split; [intros []; by apply wf_table|by inversion 1].
Qed.

Lemma bytes_code (s : bytes) : byte_of_Z <$> (byte_val <$> s) = s.
Proof. rewrite <- list_fmap_compose. rewrite <- (list_fmap_id s) at 2. apply list_fmap_ext. intros _ b _. apply byte_of_val. Qed.

Lemma of_tree_of v : plain v = true -> of_tree (tree_of v) = v.
Proof.
  induction v as [v Hv|l IH|t IH] using Toml_ind; [destruct v; try done; cbn; by rewrite bytes_code| |]; intros Hp; cbn in Hp |- *; f_equal.
  - induction IH as [|x l Hx _ IHl]; [done|]. cbn in Hp. apply andb_true_iff in Hp as [H1 H2]. cbn. by rewrite Hx, IHl.
  - induction IH as [|[k child] t Hc _ IHt]; [done|]. cbn in Hp. apply andb_true_iff in Hp as [H1 H2].
    cbn in Hc |- *. by rewrite bytes_code, Hc, IHt.
Qed.

Fixpoint bits (p : positive) : bytes := match p with xH => [] | xO p => Byte.x30 :: bits p | xI p => Byte.x31 :: bits p end.
Fixpoint unbits (s : bytes) : positive := match s with [] => xH | Byte.x30 :: s => xO (unbits s) | _ :: s => xI (unbits s) end.
Lemma unbits_bits p : unbits (bits p) = p.
Proof. induction p as [p IH|p IH|]; cbn; by rewrite ?IH. Qed.

#[export] Instance toy_toml : TomlText := {|
  toml_parse s := match decode (unbits s) with
                  | Some tree => match of_tree tree with TTable t => if wfb (TTable t) then Some t else None | _ => None end
                  | None => None
                  end;
  toml_print t := if plain (TTable t) then Some (bits (encode (tree_of (TTable t)))) else None;
  toml_show _ := [];
|}.
#[export] Instance toy_toml_laws : TomlTextLaws toy_toml.
Proof.
  split; cbn [toml_parse toml_print toy_toml].
  - intros t s Hw. destruct (plain (TTable t)) eqn:Hp; [|done]. intros Hs. assert (s = bits (encode (tree_of (TTable t)))) as -> by congruence.
    rewrite unbits_bits, decode_encode. cbv beta iota.
    rewrite of_tree_of by done. by rewrite (proj2 (wfb_sound _) Hw).
  - intros s t. destruct (decode _) as [tree|]; [|done]. destruct (of_tree tree) as [| | | | | |t']; try done.
    destruct (wfb (TTable t')) eqn:E; [|done]. intros [= <-]. by apply wfb_sound.
Qed.

(** A configuration file that says nothing, and a struct form of the network settings. *)
#[export] Instance toy_file : ConfigFile := fun _ => Some default_GridConfig.
#[export] Instance toy_serde : ConfigSerde := {|
  to_value c := Some (TTable [(str "economics", TTable [(str "mainnet_confirmed", TBoolean (ec_mainnet_confirmed (gc_economics c)));
                                                        (str "network", TString (network_as_str (ec_network (gc_economics c))))])]);
  from_value v :=
    match get_path [str "economics"; str "network"] v, get_path [str "economics"; str "mainnet_confirmed"] v with
    | Some (TString n), Some (TBoolean b) =>
        net ← keyword [("testnet", Testnet); ("mainnet", Mainnet)]%string n;
        Some (default_GridConfig <| gc_economics := default_EconomicsConfig <| ec_network := net |> <| ec_mainnet_confirmed := b |> |>)
    | _, _ => None
    end;
|}.
Definition good_disk : Disk := mkDisk (fun _ => true) (fun _ _ => Written).
Definition demo_store : ConfigStore := mkStore (str "/etc/grid/runtime.toml") None (str "/etc/grid/secrets").

Lemma demo_separate : separate [] demo_store.
Proof. intros p [H|H]; discriminate. Qed.

Lemma settings_transactional_witness :
  let fs : Files := ∅ in
  let pairs := [(str "economics.network", TString (str "mainnet")); (str "economics.mainnet_confirmed", TBoolean true)] in
  let r := set good_disk [] demo_store pairs fs in
  is_ok r.1 = true /\ effective [] demo_store r.2 = r.1
  /\ (set good_disk [] demo_store (take 1 pairs) fs).2 = fs /\ (set good_disk [] demo_store (take 1 pairs) fs).1 = Err (Blocked (str "mainnet")).
Proof.
  cbv zeta. split; [vm_compute; reflexivity|]. split; [|split; vm_compute; reflexivity].
  assert (Hw : Forall (fun e : bytes * Toml => Toml_wf e.2) [(str "economics.network", TString (str "mainnet")); (str "economics.mainnet_confirmed", TBoolean true)]).
  { repeat (apply Forall_cons_2; [by apply wf_scalar|]). constructor. }
  destruct (settings_transactional id good_disk [] demo_store ∅ demo_separate) as [H0 _];
    [apply (bool_decide_unpack _); vm_compute; exact I|intros p [Hp|Hp]; discriminate Hp|]. specialize (H0 _ Hw). rename H0 into H.
  assert (E : is_ok (set good_disk [] demo_store [(str "economics.network", TString (str "mainnet")); (str "economics.mainnet_confirmed", TBoolean true)] ∅).1 = true)
    by (vm_compute; reflexivity).
  revert H E. generalize (set good_disk [] demo_store [(str "economics.network", TString (str "mainnet")); (str "economics.mainnet_confirmed", TBoolean true)] ∅).
  intros [[c|e] fs'] H E; [exact (proj1 H)|discriminate E].
Defined.

Definition wallet_call (secret : string) : list (bytes * bytes) := [(str "address", str "EQ1"); (str "mnemonic", str secret)].

Lemma secrets_stay_out_witness :
  let run secret := apply_group id good_disk [] demo_store (str "wallet") (wallet_call secret) ∅ in
  is_ok (run "abandon ability"%string).1 = true
  /\ (run "zoo zone"%string).1 = (run "abandon ability"%string).1
  /\ (run "zoo zone"%string).2 !! str "/etc/grid/secrets/testnet.mnemonic" = Some (str "zoo zone")
  /\ (run "zoo zone"%string).2 !! str "/etc/grid/runtime.toml" = (run "abandon ability"%string).2 !! str "/etc/grid/runtime.toml".
Proof.
  cbv zeta. split; [vm_compute; reflexivity|].
  assert (Ha : secrets_apart good_disk [] demo_store).
  { split; [apply (bool_decide_unpack _); vm_compute; exact I|]. split; [intros p [H|H]; discriminate|done]. }
  assert (Hp : same_arguments (wallet_call "abandon ability") (wallet_call "zoo zone")).
  { split; intros k; unfold arg, wallet_call; cbn [bt_get]; repeat case_decide; try done.
    intros Hk _. exfalso. apply Hk. assert (E : String.string_of_list_byte (str "mnemonic") = String.string_of_list_byte (str k)) by congruence.
    unfold str in E. by rewrite !String.string_of_list_byte_of_string in E. }
  destruct (secrets_stay_out id good_disk [] demo_store (str "wallet") _ _ ∅ Ha Hp) as [H1 H2].
  split; [exact H1|]. split; [vm_compute; reflexivity|]. apply H2. apply (bool_decide_unpack _). vm_compute. exact I.
Defined.

(** A raw secret is stored before the rest of the call is checked: a wallet call that fails
    has already replaced the mnemonic. *)
Example failed_call_replaces_mnemonic :
  let fs : Files := {[ str "/etc/grid/secrets/testnet.mnemonic" := str "the old one" ]} in
  let r := apply_group id good_disk [] demo_store (str "wallet") [(str "api_key_file", str "keys/api"); (str "mnemonic", str "a new one")] fs in
  r.1 = Err (BadParam (str "api_key_file")) /\ r.2 !! str "/etc/grid/secrets/testnet.mnemonic" = Some (str "a new one").
Proof. vm_compute. done. Qed.

(** Leaving mainnet with the generic setter keeps the confirmation, so that the way back
    needs none; the grouped setter asks for it every time. *)
Example mainnet_reentered_unconfirmed :
  let go (m : M GridConfig) (fs : Files) := (m fs).2 in
  let on_mainnet := go (apply_group id good_disk [] demo_store (str "economics") [(str "confirm", str "true"); (str "network", str "mainnet")]) ∅ in
  let left_by_key := go (set_kv good_disk [] demo_store (str "economics.network") (str "testnet")) on_mainnet in
  let left_by_group := go (apply_group id good_disk [] demo_store (str "economics") [(str "network", str "testnet")]) on_mainnet in
  let back := set_kv good_disk [] demo_store (str "economics.network") (str "mainnet") in
  is_ok (back left_by_key).1 = true /\ (back left_by_group).1 = Err (Blocked (str "mainnet")).
Proof. vm_compute. done. Qed.

(** What counts as a secret is the exact name of the last part of a key. *)
Example secret_names :
  is_secret_key <$> (str <$> ["mnemonic"; "API_KEY"; "secret"; "secret_access_key"; "session_token"; "password"]%string)
  = [true; true; true; false; false; false].
Proof. vm_compute. reflexivity. Qed.

Example rows_of_a_tree :
  walk [] (TTable [(str "economics", TTable [(str "enabled", TBoolean false); (str "seed", TString (str "s3cret"))]); (str "trust", TTable [(str "min_trust", TFloat (lit 7 10))])])
  = [mkRow (str "economics") (str "enabled") (str "false (active: no — free / no-chain grid)");
     mkRow (str "economics") (str "seed") (str "<redacted>"); mkRow (str "trust") (str "min_trust") (str "0.7")].
Proof. vm_compute. reflexivity. Qed.

Example scalars : parse_scalar <$> (str <$> [" TRUE "; "-7"; "1e1"; "nan"; " x "]%string)
  = [TBoolean true; TInteger (-7); TFloat (f64_of_Z 10); TFloat SpecFloat.S754_nan; TString (str " x ")].
Proof. vm_compute. reflexivity. Qed.

Example directories :
  pick_config_dir None None (Some (str "C:/App")) (Some (str "/home/op")) false = Some (str "/home/op/.config/duckdb-p2p")
  /\ pick_config_dir None None (Some (str "C:/App")) (Some (str "/home/op")) true = Some (str "C:/App/duckdb-p2p")
  /\ pick_config_dir None None (Some []) (Some []) true = Some (str "duckdb-p2p") /\ pick_config_dir None None None (Some []) false = None.
Proof. vm_compute. done. Qed.
