(* ===== verification/Bindings.v ===== *)
(** * The binding and block-list files (crates/config/src/binding.rs, blocklist.rs)

    Two stores that keep a list of entries in a TOML file of their own: the wallet bound to
    a node, and the persisted deny list.  The files, the disk and the text of TOML are
    those of [Settings].  [Abuse] works with the deny list as a list of entries; here the
    file is shown to implement it. *)

From S2P Require Import Prelude Bytes F64 Text Signing Abuse ConfigData Config Toml Environment Settings.
#[local] Open Scope duckton_scope.

Section stores.
Context {T : TomlText} (disk : Disk) (path : bytes).

(** [t.get(k).and_then(Value::as_str)], [t.get(k).and_then(Value::as_integer)] *)
Definition str_field (k : string) (t : table) : option bytes := match bt_get (str k) t with Some (TString s) => Some s | _ => None end.
Definition int_field (k : string) (t : table) : option Z := match bt_get (str k) t with Some (TInteger n) => Some n | _ => None end.

(** [table.get("entry")]: the tables of the array, read one by one. *)
Definition entries {E : Type} (f : table -> option E) (t : table) : list E :=
  match bt_get (str "entry") t with
  | Some (TArray vs) => omap (fun v => match v with TTable t => f t | _ => None end) vs
  | _ => []
  end.

Definition read_entries {E : Type} (f : table -> option E) (fs : Files) : result (list E) StoreError :=
  match fs !! path with
  | None => Ok []
  | Some text => t <-? ok_or (toml_parse text) (Settings.BadParam path) ;; Ok (entries f t)
  end.

Definition write_entries {E : Type} (g : E -> table) (es : list E) : M unit :=
  bind (lift (ok_or (toml_print [(str "entry", TArray ((fun e => TTable (g e)) <$> es))]) (Settings.BadParam (str "serialize"))))
    (fun text => write_file disk path text).

(** ** Bindings of nodes to wallets *)

Record BindingEntry := mkBinding { be_node_id : bytes; be_wallet : bytes; be_binding_hash : bytes; be_ts : Z }.

Definition binding_of_table (t : table) : option BindingEntry :=
  let node_id := default [] (str_field "node_id" t) in
  let wallet := default [] (str_field "wallet" t) in
  if bool_decide (node_id = []) || bool_decide (wallet = []) then None
  else Some (mkBinding node_id wallet (default [] (str_field "binding_hash" t)) (wrap 64 (default 0 (int_field "ts" t)))).

Definition table_of_binding (e : BindingEntry) : table :=
  bt_collect [(str "node_id", TString (be_node_id e)); (str "wallet", TString (be_wallet e));
              (str "binding_hash", TString (be_binding_hash e)); (str "ts", TInteger (to_signed 64 (be_ts e)))].

Definition read_bindings : Files -> result (list BindingEntry) StoreError := read_entries binding_of_table.
Definition write_bindings : list BindingEntry -> M unit := write_entries table_of_binding.

Definition get_binding (node_id : bytes) (fs : Files) : result (option BindingEntry) StoreError :=
  es <-? read_bindings fs ;; Ok (List.find (fun e => bool_decide (be_node_id e = node_id)) es).

Definition without_node (node_id : bytes) (es : list BindingEntry) : list BindingEntry :=
  List.filter (fun e => negb (bool_decide (be_node_id e = node_id))) es.

Definition bind_node (node_id wallet binding_hash : bytes) (ts : Z) : M unit := fun fs =>
  let node_id := trim node_id in
  let wallet := trim wallet in
  if bool_decide (node_id = []) || bool_decide (wallet = []) then (Err (Settings.BadParam (str "bind")), fs)
  else match read_bindings fs with
       | Err e => (Err e, fs)
       | Ok es => write_bindings (without_node node_id es ++ [mkBinding node_id wallet (trim binding_hash) ts]) fs
       end.

Definition unbind_node (node_id : bytes) : M bool := fun fs =>
  let node_id := trim node_id in
  match read_bindings fs with
  | Err e => (Err e, fs)
  | Ok es =>
      let kept := without_node node_id es in
      let removed := negb (length kept =? length es)%nat in
      if removed then bind (write_bindings kept) (fun _ => ret removed) fs else (Ok removed, fs)
  end.

(** ** The deny list *)

Definition block_of_table (t : table) : option BlockEntry :=
  let id := default [] (str_field "id" t) in
  if bool_decide (id = []) then None
  else Some (mkEntryB id (default KNodeId (k ← str_field "kind" t; kind_parse k)) (default [] (str_field "reason" t))
               (default (str "manual") (str_field "source" t)) (wrap 64 (default 0 (int_field "ts" t)))).

Definition table_of_block (e : BlockEntry) : table :=
  bt_collect [(str "id", TString (b_id e)); (str "kind", TString (kind_as_str (b_kind e))); (str "reason", TString (b_reason e));
              (str "source", TString (b_source e)); (str "ts", TInteger (to_signed 64 (b_ts e)))].

Definition read_blocklist : Files -> result (list BlockEntry) StoreError := read_entries block_of_table.
Definition write_blocklist : list BlockEntry -> M unit := write_entries table_of_block.

Definition file_is_blocked (id : bytes) (fs : Files) : result bool StoreError :=
  es <-? read_blocklist fs ;; Ok (existsb (fun e => bool_decide (b_id e = id)) es).

Definition file_block (id : bytes) (kind : BlockKind) (reason source : bytes) (ts : Z) : M unit := fun fs =>
  let id := trim id in
  if bool_decide (id = []) then (Err (Settings.BadParam (str "block")), fs)
  else match read_blocklist fs with
       | Err e => (Err e, fs)
       | Ok es => write_blocklist (List.filter (fun e => negb (bool_decide (b_id e = id))) es ++ [mkEntryB id kind reason source ts]) fs
       end.

Definition file_unblock (id : bytes) : M bool := fun fs =>
  let id := trim id in
  match read_blocklist fs with
  | Err e => (Err e, fs)
  | Ok es =>
      let kept := List.filter (fun e => negb (bool_decide (b_id e = id))) es in
      let removed := negb (length kept =? length es)%nat in
      if removed then bind (write_blocklist kept) (fun _ => ret removed) fs else (Ok removed, fs)
  end.

End stores.

(** ** Writing and reading back *)

Lemma ts_roundtrip ts : in_u 64 ts -> wrap 64 (to_signed 64 ts) = ts.
Proof.
  unfold in_u, wrap, to_signed. intros H. case_decide; [|by apply Z.mod_small].
  replace (ts - 2 ^ 64) with (ts + -1 * 2 ^ 64) by lia. rewrite Z_mod_plus_full. by apply Z.mod_small.
Qed.

Definition binding_ok (e : BindingEntry) : Prop := be_node_id e <> [] /\ be_wallet e <> [] /\ in_u 64 (be_ts e).
Definition block_ok (e : BlockEntry) : Prop := b_id e <> [] /\ in_u 64 (b_ts e).

Lemma binding_roundtrip e : binding_ok e -> binding_of_table (table_of_binding e) = Some e.
Proof.
  destruct e as [n w h ts]. intros (Hn & Hw & Ht). cbn in Hn, Hw, Ht. unfold binding_of_table.
  change (str_field "node_id" (table_of_binding (mkBinding n w h ts))) with (Some n).
  change (str_field "wallet" (table_of_binding (mkBinding n w h ts))) with (Some w).
  change (str_field "binding_hash" (table_of_binding (mkBinding n w h ts))) with (Some h).
  change (int_field "ts" (table_of_binding (mkBinding n w h ts))) with (Some (to_signed 64 ts)).
  unfold default, from_option, id. by rewrite !bool_decide_eq_false_2, ts_roundtrip.
Qed.

Lemma kind_roundtrip k : kind_parse (kind_as_str k) = Some k.
Proof. destruct k; vm_compute; reflexivity. Qed.

Lemma block_roundtrip e : block_ok e -> block_of_table (table_of_block e) = Some e.
Proof.
  destruct e as [i k r s ts]. intros (Hn & Ht). cbn in Hn, Ht. unfold block_of_table.
  change (str_field "id" (table_of_block (mkEntryB i k r s ts))) with (Some i).
  change (str_field "kind" (table_of_block (mkEntryB i k r s ts))) with (Some (kind_as_str k)).
  change (str_field "reason" (table_of_block (mkEntryB i k r s ts))) with (Some r).
  change (str_field "source" (table_of_block (mkEntryB i k r s ts))) with (Some s).
  change (int_field "ts" (table_of_block (mkEntryB i k r s ts))) with (Some (to_signed 64 ts)).
  cbn [mbind option_bind]. unfold default, from_option, id. by rewrite bool_decide_eq_false_2, kind_roundtrip, ts_roundtrip.
Qed.

Lemma bt_collect_wf {V} (l : list (bytes * V)) : bt_wf (bt_collect l).
Proof.
  unfold bt_collect. assert (H : bt_wf (V := V) []) by constructor. revert H. generalize (@nil (bytes * V)).
  induction l as [|e l IH]; intros m Hm; [done|]. by apply IH, bt_insert_wf.
Qed.

Lemma bt_collect_values {V} (P : V -> Prop) (l : list (bytes * V)) : Forall (fun e => P e.2) l -> Forall (fun e => P e.2) (bt_collect l).
Proof.
  unfold bt_collect. intros Hl. assert (H : Forall (fun e : bytes * V => P e.2) []) by constructor. revert H. generalize (@nil (bytes * V)).
  induction Hl as [|[k v] l Hv Hl IH]; intros m Hm; [done|]. apply IH. clear IH Hl. cbn in Hv |- *.
  induction Hm as [|[k' v'] m Hv' Hm IHm]; cbn; [by apply Forall_singleton|].
  repeat (case_decide || case_match); rewrite ?Forall_cons; auto.
Qed.

Lemma scalars_wf l : Forall (fun e => is_scalar e.2 = true) l -> Toml_wf (TTable (bt_collect l)).
Proof. intros H. apply wf_table; [apply bt_collect_wf|]. apply (bt_collect_values Toml_wf). eapply Forall_impl; [exact H|]. intros e He. by apply wf_scalar. Qed.

Section files.
Context {T : TomlText} {TL : TomlTextLaws T} (disk : Disk) (path : bytes).

(** What a successful write leaves is read back entry by entry; a failed one has its error. *)
Lemma write_read {E} (f : table -> option E) (g : E -> table) (es : list E) fs :
  (forall e, Toml_wf (TTable (g e))) -> Forall (fun e => f (g e) = Some e) es ->
  match write_entries disk path g es fs with
  | (Ok _, fs') => read_entries path f fs' = Ok es /\ forall p, p <> path -> fs' !! p = fs !! p
  | (Err _, fs') => forall p, p <> path -> fs' !! p = fs !! p
  end.
Proof using TL.
  intros Hw Hg. unfold write_entries, Settings.bind, lift, write_file. set (root := [(str "entry", _)]).
  destruct (toml_print root) as [text|] eqn:Ep; cbn [ok_or]; [|done]. destruct (dk_mkdir disk path); [|done]. cbn [negb].
  assert (Hwf : Toml_wf (TTable root)).
  { apply wf_table; [by repeat constructor|]. apply Forall_singleton. cbn. apply wf_array, Forall_fmap, Forall_forall. intros e _. apply Hw. }
  destruct (dk_write disk path text) as [|[rest|]]; [|intros p Hp; by apply lookup_insert_ne|done]. split; [|intros p Hp; by apply lookup_insert_ne].
  unfold read_entries. rewrite lookup_insert_eq, (parse_print _ _ Hwf Ep). cbn [ok_or res_bind]. f_equal. unfold entries, root.
  cbn [bt_get]. rewrite decide_True by done. clear -Hg. induction Hg as [|e es He _ IH]; [done|]. cbn. rewrite He. f_equal. apply IH.
Qed.

Lemma read_bindings_ok fs es : read_bindings path fs = Ok es -> Forall binding_ok es.
Proof using Type.
  unfold read_bindings, read_entries. destruct (fs !! path); [|by intros [= <-]]. destruct (toml_parse _) as [t|]; [|done]. cbn.
  intros [= <-]. unfold entries. destruct (bt_get _ t) as [[| | | | |vs|]|]; try done. apply Forall_forall.
  intros e (v & _ & He)%list_elem_of_omap. destruct v as [| | | | | |t']; try done. unfold binding_of_table in He.
  destruct (bool_decide_reflect (default [] (str_field "node_id" t') = [])), (bool_decide_reflect (default [] (str_field "wallet" t') = []));
    try done. injection He as <-. split_and!; [done..|]. apply Z.mod_pos_bound. lia.
Qed.

Lemma read_blocklist_ok fs es : read_blocklist path fs = Ok es -> Forall block_ok es.
Proof using Type.
  unfold read_blocklist, read_entries. destruct (fs !! path); [|by intros [= <-]]. destruct (toml_parse _) as [t|]; [|done]. cbn.
  intros [= <-]. unfold entries. destruct (bt_get _ t) as [[| | | | |vs|]|]; try done. apply Forall_forall.
  intros e (v & _ & He)%list_elem_of_omap. destruct v as [| | | | | |t']; try done. unfold block_of_table in He.
  case_bool_decide; [done|]. injection He as <-. split; [done|]. apply Z.mod_pos_bound. lia.
Qed.

End files.

Section persistence.
Context {T : TomlText} {TL : TomlTextLaws T} (disk : Disk) (path : bytes).

Lemma find_without n m es :
  List.find (fun e => bool_decide (be_node_id e = n)) (without_node m es)
  = if decide (n = m) then None else List.find (fun e => bool_decide (be_node_id e = n)) es.
Proof using Type.
  unfold without_node. induction es as [|e es IH]; cbn; [by case_decide|]. destruct (bool_decide_reflect (be_node_id e = m)) as [Em|Em]; cbn [negb].
  - rewrite IH. case_decide; [done|]. by rewrite bool_decide_eq_false_2 by congruence.
  - cbn. rewrite IH. destruct (bool_decide_reflect (be_node_id e = n)); [by rewrite decide_False by congruence|done].
Qed.

Lemma find_app {A} (f : A -> bool) l1 l2 : List.find f (l1 ++ l2) = match List.find f l1 with Some x => Some x | None => List.find f l2 end.
Proof using Type. induction l1 as [|x l1 IH]; [done|]. cbn. by destruct (f x). Qed.

Lemma filter_ok {A} (f : A -> bool) (P : A -> Prop) l : Forall P l -> Forall P (List.filter f l).
Proof using Type. induction 1 as [|x l Hx _ IH]; cbn; [done|]. destruct (f x); auto. Qed.

Lemma filter_same {A} (f : A -> bool) l : length (List.filter f l) = length l -> List.filter f l = l.
Proof using Type.
  intros H%filter_length_forallb. rewrite forallb_forall in H. induction l as [|x l IH]; [done|]. cbn. rewrite (H x) by (by left).
  f_equal. apply IH. intros y Hy. apply H. by right.
Qed.

Lemma write_bindings_read es fs : Forall binding_ok es ->
  match write_bindings disk path es fs with
  | (Ok _, fs') => read_bindings path fs' = Ok es
  | (Err _, fs') => forall p, p <> path -> fs' !! p = fs !! p
  end.
Proof using TL.
  intros He. unfold write_bindings, read_bindings.
  assert (H1 : forall e, Toml_wf (TTable (table_of_binding e))) by (intros e; apply scalars_wf; repeat (apply Forall_cons; split; [done|]); by apply Forall_nil).
  assert (H2 : Forall (fun e => binding_of_table (table_of_binding e) = Some e) es) by (eapply Forall_impl; [exact He|]; intros e; apply binding_roundtrip).
  pose proof (write_read disk path binding_of_table table_of_binding es fs H1 H2) as H. destruct (write_entries disk path table_of_binding es fs) as [[] fs']; [by destruct H|done].
Qed.

Lemma write_blocklist_read es fs : Forall block_ok es ->
  match write_blocklist disk path es fs with
  | (Ok _, fs') => read_blocklist path fs' = Ok es
  | (Err _, fs') => forall p, p <> path -> fs' !! p = fs !! p
  end.
Proof using TL.
  intros He. unfold write_blocklist, read_blocklist.
  assert (H1 : forall e, Toml_wf (TTable (table_of_block e))) by (intros e; apply scalars_wf; repeat (apply Forall_cons; split; [done|]); by apply Forall_nil).
  assert (H2 : Forall (fun e => block_of_table (table_of_block e) = Some e) es) by (eapply Forall_impl; [exact He|]; intros e; apply block_roundtrip).
  pose proof (write_read disk path block_of_table table_of_block es fs H1 H2) as H. destruct (write_entries disk path table_of_block es fs) as [[] fs']; [by destruct H|done].
Qed.

Lemma bind_node_spec node wallet hash ts fs : in_u 64 ts ->
  match bind_node disk path node wallet hash ts fs with
  | (Ok _, fs') => forall n, get_binding path n fs'
      = if decide (n = trim node) then Ok (Some (mkBinding n (trim wallet) (trim hash) ts)) else get_binding path n fs
  | (Err _, fs') => forall p, p <> path -> fs' !! p = fs !! p
  end.
Proof using TL.
  intros Ht. unfold bind_node. destruct (bool_decide_reflect (trim node = [])), (bool_decide_reflect (trim wallet = [])); cbn [orb]; try done.
  destruct (read_bindings path fs) as [es|e] eqn:Er; [|done]. pose proof (read_bindings_ok _ _ _ Er) as Hes.
  set (es' := without_node (trim node) es ++ _). assert (Hok : Forall binding_ok es').
  { apply Forall_app. split; [by apply filter_ok|]. by apply Forall_singleton. }
  pose proof (write_bindings_read es' fs Hok) as Hw. destruct (write_bindings disk path es' fs) as [[[]|e] fs']; [|done].
  intros m. unfold get_binding. rewrite Hw, Er. cbn [res_bind]. unfold es'. rewrite find_app, find_without. case_decide as E; subst.
  - cbn. by rewrite bool_decide_eq_true_2.
  - cbn. rewrite bool_decide_eq_false_2 by congruence. by destruct (List.find _ es).
Qed.

Lemma unbind_node_spec node fs :
  match unbind_node disk path node fs with
  | (Ok removed, fs') => forall n, get_binding path n fs' = if decide (n = trim node) then Ok None else get_binding path n fs
  | (Err _, fs') => forall p, p <> path -> fs' !! p = fs !! p
  end.
Proof using TL.
  unfold unbind_node. destruct (read_bindings path fs) as [es|e] eqn:Er; [|done]. pose proof (read_bindings_ok _ _ _ Er) as Hes.
  assert (Hk : forall fs', read_bindings path fs' = Ok (without_node (trim node) es) -> forall n,
            get_binding path n fs' = if decide (n = trim node) then Ok None else get_binding path n fs).
  { intros fs' Hr n. unfold get_binding. rewrite Hr, Er. cbn [res_bind]. rewrite find_without. by case_decide. }
  destruct (length (without_node (trim node) es) =? length es)%nat eqn:El; cbn [negb].
  - apply Hk. rewrite Er. f_equal. symmetry. by apply filter_same, Nat.eqb_eq.
  - unfold Settings.bind. pose proof (write_bindings_read (without_node (trim node) es) fs (filter_ok _ _ _ Hes)) as Hw.
    destruct (write_bindings disk path (without_node (trim node) es) fs) as [[[]|e] fs']; [|done]. cbn. by apply Hk.
Qed.

Lemma file_block_spec id kind reason source ts fs : in_u 64 ts ->
  match file_block disk path id kind reason source ts fs with
  | (Ok _, fs') => exists es es', read_blocklist path fs = Ok es /\ store_block es id kind reason source ts = Ok es' /\ read_blocklist path fs' = Ok es'
  | (Err _, fs') => forall p, p <> path -> fs' !! p = fs !! p
  end.
Proof using TL.
  intros Ht. unfold file_block. destruct (bool_decide_reflect (trim id = [])) as [|Hn]; [done|].
  destruct (read_blocklist path fs) as [es|e] eqn:Er; [|done]. pose proof (read_blocklist_ok _ _ _ Er) as Hes.
  set (es' := List.filter _ es ++ _). assert (Hok : Forall block_ok es').
  { apply Forall_app. split; [by apply filter_ok|]. by apply Forall_singleton. }
  pose proof (write_blocklist_read es' fs Hok) as Hw. destruct (write_blocklist disk path es' fs) as [[[]|e] fs']; [|done].
  exists es, es'. split_and!; [done| |done]. unfold store_block. by destruct (trim id).
Qed.

Lemma file_unblock_spec id fs :
  match file_unblock disk path id fs with
  | (Ok removed, fs') => exists es, read_blocklist path fs = Ok es
      /\ removed = (store_unblock es id).1 /\ read_blocklist path fs' = Ok (store_unblock es id).2
  | (Err _, fs') => forall p, p <> path -> fs' !! p = fs !! p
  end.
Proof using TL.
  unfold file_unblock. destruct (read_blocklist path fs) as [es|e] eqn:Er; [|done]. pose proof (read_blocklist_ok _ _ _ Er) as Hes.
  cbv zeta. set (kept := List.filter _ es).
  assert (Hu : store_unblock es id = (negb (length kept =? length es)%nat, if negb (length kept =? length es)%nat then kept else es)) by done.
  destruct (length kept =? length es)%nat eqn:El; cbn [negb] in *; [exists es; by rewrite Hu|].
  unfold Settings.bind. pose proof (write_blocklist_read kept fs (filter_ok _ _ _ Hes)) as Hw.
  destruct (write_blocklist disk path kept fs) as [[[]|e] fs']; [|done]. unfold ret. exists es. by rewrite Hu.
Qed.

End persistence.

(** Bindings and blocks survive a restart.  A node bound to a wallet is found with
    exactly that wallet, hash and time by every later reader of the file, the bindings of
    all other nodes stay as they were, and unbinding removes that node alone; blocking and
    unblocking through the file does to its entries what the deny list does in memory.
    When the call fails, at most the store's own file was touched. *)
Theorem stores_persist {T : TomlText} {TL : TomlTextLaws T} (disk : Disk) (path : bytes) (fs : Files)
    (node wallet hash id reason source : bytes) (kind : BlockKind) (ts : Z) :
  in_u 64 ts ->
  (match bind_node disk path node wallet hash ts fs with
   | (Ok _, fs') => forall n, get_binding path n fs'
       = if decide (n = trim node) then Ok (Some (mkBinding n (trim wallet) (trim hash) ts)) else get_binding path n fs
   | (Err _, fs') => forall p, p <> path -> fs' !! p = fs !! p
   end)
  /\ (match unbind_node disk path node fs with
      | (Ok removed, fs') => forall n, get_binding path n fs' = if decide (n = trim node) then Ok None else get_binding path n fs
      | (Err _, fs') => forall p, p <> path -> fs' !! p = fs !! p
      end)
  /\ (match file_block disk path id kind reason source ts fs with
      | (Ok _, fs') => exists es es', read_blocklist path fs = Ok es /\ store_block es id kind reason source ts = Ok es' /\ read_blocklist path fs' = Ok es'
      | (Err _, fs') => forall p, p <> path -> fs' !! p = fs !! p
      end)
  /\ (match file_unblock disk path id fs with
      | (Ok removed, fs') => exists es, read_blocklist path fs = Ok es /\ removed = (store_unblock es id).1 /\ read_blocklist path fs' = Ok (store_unblock es id).2
      | (Err _, fs') => forall p, p <> path -> fs' !! p = fs !! p
      end).
Proof.
  intros Ht. split_and!; [by apply bind_node_spec|apply unbind_node_spec|by apply file_block_spec|apply file_unblock_spec].
Qed.

Lemma stores_persist_witness :
  let path := str "/etc/grid/bindings.toml" in
  let r := bind_node good_disk path (str " b3:aa ") (str "0:11") [] (2 ^ 64 - 1) ∅ in
  is_ok r.1 = true
  /\ get_binding path (str "b3:aa") r.2 = Ok (Some (mkBinding (str "b3:aa") (str "0:11") [] (2 ^ 64 - 1)))
  /\ get_binding path (str "b3:bb") r.2 = Ok None.
Proof.
  cbv zeta. assert (Ht : in_u 64 (2 ^ 64 - 1)) by (unfold in_u; lia).
  destruct (stores_persist good_disk (str "/etc/grid/bindings.toml") ∅ (str " b3:aa ") (str "0:11") [] [] [] [] KNodeId (2 ^ 64 - 1) Ht) as [H _].
  assert (E : is_ok (bind_node good_disk (str "/etc/grid/bindings.toml") (str " b3:aa ") (str "0:11") [] (2 ^ 64 - 1) ∅).1 = true) by (vm_compute; reflexivity).
  split; [exact E|]. revert H E. generalize (bind_node good_disk (str "/etc/grid/bindings.toml") (str " b3:aa ") (str "0:11") [] (2 ^ 64 - 1) ∅).
  intros [[u|e] fs'] H E; [|discriminate E]. cbn [snd]. split; [rewrite (H (str "b3:aa"))|rewrite (H (str "b3:bb"))]; vm_compute; reflexivity.
Defined.
