(* ===== verification/InputResolver.v ===== *)
(** * Finding and pinning the inputs of a query (crates/node/src/input_resolver.rs)

    Before a job is dispatched its SQL is scanned for the objects it reads, and each is
    resolved to a concrete version, so that all replicas read the same bytes.  The scanner
    works on bytes as the source does; object stores are probes (a record of operations),
    the local file system is a parameter of the one probe that is built in. *)

From S2P Require Import Prelude Bytes Crypto Text Input Toml Sql.
#[local] Open Scope duckton_scope.

Inductive InputResolveError := NotPinnable (what : bytes) | Unavailable (what : bytes).

Inductive SourceKind := KObject | KGlob | KDelta | KIceberg.
#[global] Instance SourceKind_eq_dec : EqDecision SourceKind.
Proof. solve_decision. Defined.

Record SqlSource := mkSource { src_uri : bytes; src_kind : SourceKind }.
#[global] Instance SqlSource_eq_dec : EqDecision SqlSource.
Proof. solve_decision. Defined.

Record SqlSources := mkSources { sources : list SqlSource; dynamic : bool }.

Definition READER_FNS : list bytes :=
  str <$> ["read_parquet"; "read_csv_auto"; "read_csv"; "read_json_auto"; "read_json"; "read_ndjson"; "read_ndjson_auto"; "parquet_scan"]%string.
Definition LAKEHOUSE_FNS : list (bytes * SourceKind) := [(str "delta_scan", KDelta); (str "iceberg_scan", KIceberg)].

(** ** Scanning *)

Record Literal := mkLiteral { lit_start : nat; lit_value : bytes }.

(** [val.push(b as char)]: a byte is the character with its code, in UTF-8. *)
Definition push_char (val : bytes) (b : byte) : bytes :=
  val ++ (if byte_val b <? 128 then [b] else [byte_of_Z (192 + byte_val b / 64); byte_of_Z (128 + byte_val b mod 64)]).

(** The scan at offset [i]: outside a literal, or in the one that starts at an offset. *)
Fixpoint scan (inside : option (nat * bytes)) (i : nat) (s : bytes) : list Literal :=
  match s, inside with
  | [], None => []
  | [], Some (start, val) => [mkLiteral start val]
  | c :: s', None => if bool_decide (c = quote) then scan (Some (i, [])) (S i) s' else scan None (S i) s'
  | c :: s', Some (start, val) =>
      if bool_decide (c = quote)
      then match s' with
           | c' :: s'' => if bool_decide (c' = quote) then scan (Some (start, push_char val quote)) (S (S i)) s''
                          else mkLiteral start val :: scan None (S i) s'
           | [] => [mkLiteral start val]
           end
      else scan (Some (start, push_char val c)) (S i) s'
  end.
Definition string_literals (sql : bytes) : list Literal := scan None 0 sql.

(** [j] after the blanks at the start of the text. *)
Fixpoint skip_blanks (i : nat) (s : bytes) : nat * bytes :=
  match s with
  | Byte.x20 :: s' => skip_blanks (S i) s'
  | _ => (i, s)
  end.

Definition ident_byte (b : byte) : bool := in_range 48 57 b || in_range 65 90 b || in_range 97 122 b || bool_decide (b = Byte.x5f).

(** [skip] bytes of an occurrence that was just looked at remain. *)
Fixpoint fn_calls (name : bytes) (skip : nat) (prev : option byte) (i : nat) (s : bytes) : list nat :=
  match s with
  | [] => []
  | c :: s' =>
      match skip with
      | S k => fn_calls name k (Some c) (S i) s'
      | O =>
          if starts_with name s
          then let '(j, rest) := skip_blanks (i + length name) (drop (length name) s) in
               let prev_ok := match prev with None => true | Some b => negb (ident_byte b) end in
               (if prev_ok && starts_with (str "(") rest then [S j] else [])
               ++ fn_calls name (length name - 1) (Some c) (S i) s'
          else fn_calls name 0 (Some c) (S i) s'
      end
  end.
Definition fn_call_offsets (lower name : bytes) : list nat := fn_calls name 0 None 0 lower.

(** [.filter(|l| l.start >= offset).min_by_key(|l| l.start)], with its index. *)
Fixpoint first_literal_from (n : nat) (literals : list Literal) (offset : nat) : option (nat * Literal) :=
  match literals with
  | [] => None
  | l :: ls =>
      match (if (offset <=? lit_start l)%nat then Some (n, l) else None), first_literal_from (S n) ls offset with
      | Some (i, a), Some (j, b) => if (lit_start a <=? lit_start b)%nat then Some (i, a) else Some (j, b)
      | Some x, None | None, Some x => Some x
      | None, None => None
      end
  end.
Definition first_literal_after (literals : list Literal) (offset : nat) : option nat := fst <$> first_literal_from 0 literals offset.

Definition is_glob (s : bytes) : bool := existsb (fun b => bool_decide (b ∈ [Byte.x2a; Byte.x3f; Byte.x5b])) s.
Definition ends_with (p s : bytes) : bool := starts_with (rev p) (rev s).

Definition SCHEMES : list bytes :=
  str <$> ["s3://"; "gs://"; "gcs://"; "az://"; "abfss://"; "azure://"; "https://"; "http://"; "file://"]%string.
Definition EXTS : list bytes := str <$> [".parquet"; ".csv"; ".json"; ".ndjson"; ".tsv"]%string.
Definition looks_like_object_uri (lower : bytes) : bool :=
  existsb (fun s => starts_with s lower) SCHEMES || existsb (fun e => ends_with e lower) EXTS
  || (is_glob lower && existsb (fun e => contains (tail e) lower) EXTS).

Definition object_kind (v : bytes) : SourceKind := if is_glob v then KGlob else KObject.

(** The state of the collection: the sources, the flag and the literals taken. *)
Record Found := mkFound { f_sources : list SqlSource; f_dynamic : bool; f_consumed : list bool }.

Definition take_call (literals : list Literal) (lakehouse : option SourceKind) (f : Found) (call : nat) : Found :=
  match first_literal_after literals call with
  | None => mkFound (f_sources f) true (f_consumed f)
  | Some i =>
      let v := default [] (lit_value <$> literals !! i) in
      match lakehouse with
      | Some kind => mkFound (f_sources f ++ [mkSource v kind]) (f_dynamic f) (<[i := true]> (f_consumed f))
      | None =>
          if default false (f_consumed f !! i) then f
          else mkFound (f_sources f ++ [mkSource v (object_kind v)]) (f_dynamic f) (<[i := true]> (f_consumed f))
      end
  end.

Definition take_calls (literals : list Literal) (lower : bytes) (f : Found) (fn : bytes * option SourceKind) : Found :=
  foldl (take_call literals fn.2) f (fn_call_offsets lower fn.1).

Definition take_bare (il : bool * Literal) : list SqlSource :=
  if il.1 then [] else if looks_like_object_uri (to_ascii_lowercase (lit_value il.2)) then [mkSource (lit_value il.2) (object_kind (lit_value il.2))] else [].

(** [Vec::dedup] *)
Fixpoint dedup (l : list SqlSource) : list SqlSource :=
  match l with
  | [] => []
  | a :: l' => match l' with
               | b :: _ => if bool_decide (a = b) then dedup l' else a :: dedup l'
               | [] => [a]
               end
  end.

Definition parse_input_sources (sql : bytes) : SqlSources :=
  let lower := to_ascii_lowercase sql in
  let literals := string_literals sql in
  let fns := ((fun e : bytes * SourceKind => (e.1, Some e.2)) <$> LAKEHOUSE_FNS) ++ ((fun n => (n, None)) <$> READER_FNS) in
  let f := foldl (take_calls literals lower) (mkFound [] false (replicate (length literals) false)) fns in
  let all := f_sources f ++ (zip (f_consumed f) literals ≫= take_bare) in
  mkSources (dedup (isort (fun a b => lex_leb (src_uri a) (src_uri b)) all)) (f_dynamic f).

Definition provider_for_uri (uri : bytes) : string :=
  let lower := to_ascii_lowercase uri in
  let has (s : string) := starts_with (str s) lower in
  if has "s3://" then "s3"
  else if has "gs://" || has "gcs://" then "gcs"
  else if has "az://" || has "abfss://" || has "azure://" then "az"
  else if has "http://" || has "https://" then "https"
  else "local-fake".

(** ** Probes *)

Record ObjectVersionProbe := mkProbe {
  schemes : list bytes;
  head_object : bytes -> result PinnedObject InputResolveError;
  list_objects : bytes -> result (list PinnedObject) InputResolveError;
}.

(** The local file system: the bytes of a file, and the names in a directory with whether
    each is a plain file. *)
Record LocalFs := mkLocalFs { fs_read : bytes -> option bytes; fs_read_dir : bytes -> option (list (bytes * bool)) }.

Section resolver.
Context {C : Crypto} (local : LocalFs).

Definition strip_file (uri : bytes) : bytes := if starts_with (str "file://") uri then drop 7 uri else uri.

Definition pin_file (path uri : bytes) : result PinnedObject InputResolveError :=
  bytes <-? ok_or (fs_read local path) (Unavailable path) ;;
  Ok (mkPinned uri (str "local-fake") (ContentAddressed (hex_encode (blake3 bytes)))).

Definition local_head (uri : bytes) : result PinnedObject InputResolveError := pin_file (strip_file uri) uri.

(** [raw.rfind('/')]: what is before and after the last slash. *)
Fixpoint rsplit_slash (s : bytes) : option (bytes * bytes) :=
  match s with
  | [] => None
  | c :: s' => match rsplit_slash s' with
               | Some (a, b) => Some (c :: a, b)
               | None => if bool_decide (c = Byte.x2f) then Some ([], s') else None
               end
  end.

Definition name_matches (pattern name : bytes) : bool :=
  if bool_decide (pattern = str "*") then true
  else if starts_with (str "*") pattern then ends_with (tail pattern) name
  else bool_decide (name = pattern).

Fixpoint pin_matching (dir pattern : bytes) (entries : list (bytes * bool)) : result (list PinnedObject) InputResolveError :=
  match entries with
  | [] => Ok []
  | (name, is_file) :: rest =>
      if is_file && name_matches pattern name
      then let uri := dir ++ str "/" ++ name in
           o <-? pin_file uri uri ;;
           os <-? pin_matching dir pattern rest ;;
           Ok (o :: os)
      else pin_matching dir pattern rest
  end.

Definition local_list (glob : bytes) : result (list PinnedObject) InputResolveError :=
  let raw := strip_file glob in
  let '(dir, pattern) := default (str ".", raw) (rsplit_slash raw) in
  if contains (str "/") pattern || contains (str "**") pattern then Err (NotPinnable glob)
  else
    entries <-? ok_or (fs_read_dir local dir) (Unavailable dir) ;;
    out <-? pin_matching dir pattern entries ;;
    Ok (isort (fun a b => lex_leb (uri a) (uri b)) out).

Definition LocalFsProbe : ObjectVersionProbe := mkProbe [str "file"] local_head local_list.

(** *** Delta tables *)

(** [Path::extension] and [Path::file_stem] of a name. *)
Fixpoint rsplit_dot (s : bytes) : option (bytes * bytes) :=
  match s with
  | [] => None
  | c :: s' => match rsplit_dot s' with
               | Some (a, b) => Some (c :: a, b)
               | None => if bool_decide (c = Byte.x2e) then Some ([], s') else None
               end
  end.
Definition stem_ext (name : bytes) : option (bytes * bytes) :=
  match rsplit_dot name with Some ([], _) => None | r => r end.

Fixpoint trim_zeros (s : bytes) : bytes := match s with Byte.x30 :: s' => trim_zeros s' | _ => s end.

(** The version a name of the log stands for. *)
Definition commit_version (name : bytes) : option Z :=
  match stem_ext name with
  | Some (stem, ext) =>
      if bool_decide (ext = str "json")
      then match parse_uint 64 (trim_zeros stem) with
           | Some v => Some v
           | None => if forallb (fun c => bool_decide (c = Byte.x30)) stem then Some 0 else None
           end
      else None
  | None => None
  end.

Definition max_version (m : option Z) (name : bytes) : option Z :=
  match commit_version name with
  | Some v => Some (match m with Some m => Z.max m v | None => v end)
  | None => m
  end.

Definition delta_latest_version (table_dir : bytes) : option Z :=
  entries ← fs_read_dir local (table_dir ++ str "/_delta_log");
  foldl max_version None entries.*1.

Definition pin_delta_table (uri : bytes) : result PinnedObject InputResolveError :=
  version <-? ok_or (delta_latest_version (strip_file uri)) (Unavailable (strip_file uri)) ;;
  Ok (mkPinned uri (str "delta") (Lakehouse (str "delta") (show_uint version))).

(** *** The resolver *)

Abbreviation ManifestResolver := (list (bytes * ObjectVersionProbe)).

Definition register (r : ManifestResolver) (p : ObjectVersionProbe) : ManifestResolver := foldl (fun r s => bt_insert s p r) r (schemes p).
Definition new_resolver : ManifestResolver := register [] LocalFsProbe.

(** [uri.split("://").next()] where it contains the separator. *)
Fixpoint before_scheme (s : bytes) : option bytes :=
  if starts_with (str "://") s then Some []
  else match s with
       | [] => None
       | c :: s' => (fun p => c :: p) <$> before_scheme s'
       end.

Definition probe_for (r : ManifestResolver) (uri : bytes) : option ObjectVersionProbe := bt_get (default (str "file") (before_scheme uri)) r.

Definition resolve_source (r : ManifestResolver) (s : SqlSource) : result (list PinnedObject) InputResolveError :=
  match src_kind s with
  | KDelta => o <-? pin_delta_table (src_uri s) ;; Ok [o]
  | KIceberg => Err (NotPinnable (src_uri s))
  | KGlob =>
      probe <-? ok_or (probe_for r (src_uri s)) (NotPinnable (src_uri s)) ;;
      listed <-? list_objects probe (src_uri s) ;;
      match listed with [] => Err (Unavailable (src_uri s)) | _ => Ok listed end
  | KObject =>
      probe <-? ok_or (probe_for r (src_uri s)) (NotPinnable (src_uri s)) ;;
      o <-? head_object probe (src_uri s) ;; Ok [o]
  end.

Fixpoint resolve_sources (r : ManifestResolver) (ss : list SqlSource) (objects : list PinnedObject) : result (list PinnedObject) InputResolveError :=
  match ss with
  | [] => Ok objects
  | s :: ss' => os <-? resolve_source r s ;; resolve_sources r ss' (objects ++ os)
  end.

Definition resolve (r : ManifestResolver) (sql : bytes) : result (option InputSnapshot) InputResolveError :=
  let parsed := parse_input_sources sql in
  if dynamic parsed then Err (NotPinnable (str "non-literal"))
  else match sources parsed with
       | [] => Ok None
       | ss => objects <-? resolve_sources r ss [] ;; Ok (Some (from_objects objects))
       end.

End resolver.

(** ** Literals are read as they were written *)

(** SQL text: some text, then literals with text after each. *)
Fixpoint with_literals (segs : list (bytes * bytes)) : bytes :=
  match segs with
  | [] => []
  | (l, p) :: segs' => sql_lit l ++ p ++ with_literals segs'
  end.

(** Plain text between ASCII literals; two literals never touch. *)
Definition ascii (s : bytes) : Prop := Forall (fun b => byte_val b < 128) s.
Definition literals_ok (segs : list (bytes * bytes)) : Prop :=
  Forall (fun e => ascii e.1 /\ quote ∉ e.2 /\ e.2 <> []) segs.

Lemma scan_plain p i rest : quote ∉ p -> scan None i (p ++ rest) = scan None (i + length p) rest.
Proof.
  revert i. induction p as [|c p IH]; intros i Hp; cbn [app length]; [by rewrite Nat.add_0_r|].
  apply not_elem_of_cons in Hp as [Hc Hp]. cbn [scan]. rewrite bool_decide_eq_false_2 by congruence. rewrite IH by done. f_equal. lia.
Qed.

Lemma push_ascii val b : byte_val b < 128 -> push_char val b = val ++ [b].
Proof. intros H. unfold push_char. by rewrite (proj2 (Z.ltb_lt _ _)) by lia. Qed.

Lemma scan_literal start val i l c rest :
  ascii l -> c <> quote ->
  exists j, scan (Some (start, val)) i (escape l ++ quote :: c :: rest) = mkLiteral start (val ++ l) :: scan None j (c :: rest).
Proof.
  intros Hl Hc. revert val i. induction Hl as [|b l Hb Hl IH]; intros val i.
  - exists (S i). change (escape [] ++ quote :: c :: rest) with (quote :: c :: rest). cbn [scan].
    rewrite bool_decide_eq_true_2, bool_decide_eq_false_2 by done. by rewrite app_nil_r.
  - change (escape (b :: l)) with ((if bool_decide (b = quote) then [quote; quote] else [b]) ++ escape l).
    case_bool_decide as E; subst; cbn [app scan].
    + rewrite !bool_decide_eq_true_2 by done. rewrite push_ascii by done. destruct (IH (val ++ [quote]) (S (S i))) as [j ->].
      exists j. by rewrite <- app_assoc.
    + rewrite bool_decide_eq_false_2 by done. rewrite push_ascii by done. destruct (IH (val ++ [b]) (S i)) as [j ->].
      exists j. by rewrite <- app_assoc.
Qed.

Lemma scan_segments segs i : literals_ok segs -> lit_value <$> scan None i (with_literals segs) = segs.*1.
Proof.
  revert i. induction segs as [|[l p] segs IH]; intros i Hok; [done|]. apply Forall_cons in Hok as [(Hl & Hp & Hne) Hok]. cbn [fst snd] in *.
  destruct p as [|c p]; [done|]. cbn [with_literals]. unfold sql_lit. rewrite <- !app_assoc. cbn [app scan]. rewrite bool_decide_eq_true_2 by done.
  assert (c <> quote) by (apply not_elem_of_cons in Hp as [? _]; congruence).
  destruct (scan_literal i [] (S i) l c (p ++ with_literals segs) Hl ltac:(done)) as [j ->]. cbn [fmap list_fmap lit_value app]. f_equal.
  change (c :: p ++ with_literals segs) with ((c :: p) ++ with_literals segs). rewrite scan_plain by done. by apply IH.
Qed.

Lemma literals_read_back p0 segs : quote ∉ p0 -> literals_ok segs -> lit_value <$> string_literals (p0 ++ with_literals segs) = segs.*1.
Proof. intros H0 Hok. unfold string_literals. rewrite scan_plain by done. by apply scan_segments. Qed.

(** ** What the collection holds *)

Lemma elem_of_dedup x l : x ∈ dedup l <-> x ∈ l.
Proof.
  induction l as [|a l IH]; [done|]. destruct l as [|b l]; [done|].
  change (dedup (a :: b :: l)) with (if bool_decide (a = b) then dedup (b :: l) else a :: dedup (b :: l)).
  case_bool_decide as E; [subst; rewrite IH, !elem_of_cons; tauto|]. by rewrite !elem_of_cons, IH, elem_of_cons.
Qed.

Lemma first_literal_lookup n ls offset i l : first_literal_from n ls offset = Some (i, l) -> (n <= i)%nat /\ ls !! (i - n)%nat = Some l.
Proof.
  revert n i l. induction ls as [|a ls IH]; intros n i l; cbn [first_literal_from]; [done|].
  assert (Hrec : forall j b, first_literal_from (S n) ls offset = Some (j, b) -> (n <= j)%nat /\ (a :: ls) !! (j - n)%nat = Some b).
  { intros j b [Hj Hb]%IH. split; [lia|]. replace (j - n)%nat with (S (j - S n)) by lia. done. }
  assert (Hhere : (n <= n)%nat /\ (a :: ls) !! (n - n)%nat = Some a) by (split; [lia|]; by rewrite Nat.sub_diag).
  destruct (offset <=? lit_start a)%nat, (first_literal_from (S n) ls offset) as [[j b]|] eqn:E; [case_match| | |done]; intros [= <- <-]; auto.
Qed.

Lemma first_literal_after_lookup ls offset i : first_literal_after ls offset = Some i -> exists l, ls !! i = Some l.
Proof.
  unfold first_literal_after. destruct (first_literal_from 0 ls offset) as [[j l]|] eqn:E; [|done]. intros [= <-].
  apply first_literal_lookup in E as [_ E]. rewrite Nat.sub_0_r in E. by exists l.
Qed.

Section collection.
Context (literals : list Literal).

Abbreviation values := (lit_value <$> literals).

(** Sources are literals, and every literal taken is a source. *)
Definition collected (f : Found) : Prop :=
  length (f_consumed f) = length literals
  /\ (forall s, s ∈ f_sources f -> src_uri s ∈ values)
  /\ (forall i l, f_consumed f !! i = Some true -> literals !! i = Some l -> lit_value l ∈ src_uri <$> f_sources f).

(** Nothing is lost from one state to the next. *)
Definition grows (f f' : Found) : Prop :=
  (forall s, s ∈ f_sources f -> s ∈ f_sources f') /\ (f_dynamic f = true -> f_dynamic f' = true).

Lemma grows_refl f : grows f f.
Proof using Type. by split. Qed.
Lemma grows_trans f g h : grows f g -> grows g h -> grows f h.
Proof using Type. intros [H1 H2] [H3 H4]. split; auto. Qed.

(** A call is either counted as dynamic or has its literal among the sources. *)
Definition call_handled (f : Found) (call : nat) : Prop :=
  match first_literal_after literals call with
  | None => f_dynamic f = true
  | Some i => exists l, literals !! i = Some l /\ lit_value l ∈ src_uri <$> f_sources f
  end.

Lemma call_handled_grows f f' call : grows f f' -> call_handled f call -> call_handled f' call.
Proof using Type.
  intros [Hs Hd]. unfold call_handled. destruct (first_literal_after literals call) as [i|]; [|auto].
  intros (l & Hl & (s & E & Hin)%list_elem_of_fmap). exists l. split; [done|]. rewrite E. by apply list_elem_of_fmap_2, Hs.
Qed.

(** A literal is taken: its value becomes a source. *)
Lemma consume_spec f i l kind :
  collected f -> literals !! i = Some l ->
  let f' := mkFound (f_sources f ++ [mkSource (lit_value l) kind]) (f_dynamic f) (<[i := true]> (f_consumed f)) in
  collected f' /\ grows f f' /\ lit_value l ∈ src_uri <$> f_sources f'.
Proof using Type.
  intros (Hn & Hs & Hc) Hl. cbv zeta. assert (Hin : lit_value l ∈ values) by (by apply list_elem_of_fmap_2; apply list_elem_of_lookup; exists i).
  assert (Hnew : lit_value l ∈ src_uri <$> (f_sources f ++ [mkSource (lit_value l) kind])).
  { rewrite fmap_app, elem_of_app. right. by apply list_elem_of_singleton. }
  split_and!; [split_and!| |done]; cbn [f_sources f_dynamic f_consumed].
  - by rewrite length_insert.
  - intros s [Hin'| ->%list_elem_of_singleton]%elem_of_app; [by apply Hs|done].
  - intros j l' Hj Hl'. destruct (decide (i = j)) as [<-|Hne]; [by simplify_eq|]. rewrite list_lookup_insert_ne in Hj by done.
    rewrite fmap_app, elem_of_app. left. by eapply Hc.
  - split; [|done]. intros s Hin'. apply elem_of_app. by left.
Qed.

Lemma take_call_spec lakehouse f call :
  collected f -> collected (take_call literals lakehouse f call) /\ grows f (take_call literals lakehouse f call)
                 /\ call_handled (take_call literals lakehouse f call) call.
Proof using Type.
  intros Hf. unfold call_handled, take_call. destruct (first_literal_after literals call) as [i|] eqn:E.
  2: { split_and!; [done|by split|done]. }
  destruct (first_literal_after_lookup _ _ _ E) as [l Hl]. rewrite Hl. cbn [fmap option_fmap option_map default from_option].
  destruct lakehouse as [kind|].
  - destruct (consume_spec f i l kind Hf Hl) as (H1 & H2 & H3). split_and!; [done|done|]. by exists l.
  - destruct (default false (f_consumed f !! i)) eqn:Ec.
    + split_and!; [done|by apply grows_refl|]. exists l. split; [done|]. destruct Hf as (_ & _ & Hc). apply (Hc i); [|done].
      by destruct (f_consumed f !! i) as [[]|].
    + destruct (consume_spec f i l (object_kind (lit_value l)) Hf Hl) as (H1 & H2 & H3). split_and!; [done|done|]. by exists l.
Qed.

Lemma take_calls_spec lower f fn :
  collected f -> let f' := take_calls literals lower f fn in
  collected f' /\ grows f f' /\ Forall (call_handled f') (fn_call_offsets lower fn.1).
Proof using Type.
  unfold take_calls. generalize (fn_call_offsets lower fn.1). intros calls. revert f. induction calls as [|call calls IH]; intros f Hf; cbn [foldl].
  { split_and!; [done|apply grows_refl|constructor]. }
  destruct (take_call_spec fn.2 f call Hf) as (H1 & H2 & H3). destruct (IH _ H1) as (H4 & H5 & H6).
  split_and!; [done|by eapply grows_trans|]. constructor; [by eapply call_handled_grows|done].
Qed.

Lemma take_all_spec lower fns f :
  collected f -> let f' := foldl (take_calls literals lower) f fns in
  collected f' /\ grows f f' /\ Forall (fun fn => Forall (call_handled f') (fn_call_offsets lower fn.1)) fns.
Proof using Type.
  revert f. induction fns as [|fn fns IH]; intros f Hf; cbn [foldl]; [split_and!; [done|apply grows_refl|constructor]|].
  destruct (take_calls_spec lower f fn Hf) as (H1 & H2 & H3). destruct (IH _ H1) as (H4 & H5 & H6).
  split_and!; [done|by eapply grows_trans|]. constructor; [|done]. eapply Forall_impl; [exact H3|]. intros call. by apply call_handled_grows.
Qed.

(** What a pass over the calls adds: a source is the first literal after one of the calls,
    and a call without one is what makes the query dynamic. *)
Definition stems (lower : bytes) (fns : list (bytes * option SourceKind)) (f f' : Found) : Prop :=
  (forall s, s ∈ f_sources f' -> s ∈ f_sources f
     \/ exists fn call i l, fn ∈ fns /\ call ∈ fn_call_offsets lower fn.1 /\ first_literal_after literals call = Some i
          /\ literals !! i = Some l /\ s = mkSource (lit_value l) (default (object_kind (lit_value l)) fn.2))
  /\ (f_dynamic f' = true -> f_dynamic f = true
     \/ exists fn call, fn ∈ fns /\ call ∈ fn_call_offsets lower fn.1 /\ first_literal_after literals call = None).

Lemma take_call_stems lower fns fn f call :
  fn ∈ fns -> call ∈ fn_call_offsets lower fn.1 -> stems lower fns f (take_call literals fn.2 f call).
Proof using Type.
  intros Hfn Hcall. unfold take_call. destruct (first_literal_after literals call) as [i|] eqn:E.
  2: { split; [by left|]. intros _. right. by exists fn, call. }
  destruct (first_literal_after_lookup _ _ _ E) as [l Hl]. rewrite Hl. cbn [fmap option_fmap option_map default from_option id].
  assert (Hnew : forall kind, kind = default (object_kind (lit_value l)) fn.2 ->
    stems lower fns f (mkFound (f_sources f ++ [mkSource (lit_value l) kind]) (f_dynamic f) (<[i := true]> (f_consumed f)))).
  { intros kind ->. split; cbn [f_sources f_dynamic]; [|by left]. intros s [Hs| ->%list_elem_of_singleton]%elem_of_app; [by left|].
    right. by exists fn, call, i, l. }
  destruct fn.2 as [kind|]; [by apply Hnew|]. destruct (default false _); [by split; left|]. by apply Hnew.
Qed.

Lemma stems_refl lower fns f : stems lower fns f f.
Proof using Type. by split; left. Qed.
Lemma stems_trans lower fns f g h : stems lower fns f g -> stems lower fns g h -> stems lower fns f h.
Proof using Type.
  intros [H1 H2] [H3 H4]. split; [intros s [Hs|?]%H3; [by apply H1|by right]|]. intros [Hd|?]%H4; [by apply H2|by right].
Qed.

Lemma foldl_stems {X} lower fns (step : Found -> X -> Found) xs f :
  (forall f x, x ∈ xs -> stems lower fns f (step f x)) -> stems lower fns f (foldl step f xs).
Proof using Type.
  revert f. induction xs as [|x xs IH]; intros f H; [apply stems_refl|]. cbn [foldl]. eapply stems_trans; [apply H; by left|].
  apply IH. intros. apply H. by right.
Qed.

Lemma take_all_stems lower fns f : stems lower fns f (foldl (take_calls literals lower) f fns).
Proof using Type. apply foldl_stems. intros g fn Hfn. apply foldl_stems. intros h call Hcall. by apply take_call_stems. Qed.

End collection.

(** The functions whose first literal argument is an input. *)
Definition reader_names : list bytes := LAKEHOUSE_FNS.*1 ++ READER_FNS.

(** The sources of a query: the literal a table function or a reader is called with - the
    first one that starts after the call's parenthesis - and every literal that has the
    form of a data object. *)
Inductive scanned (sql : bytes) : SqlSource -> Prop :=
| scanned_table name kind call i l : (name, kind) ∈ LAKEHOUSE_FNS -> call ∈ fn_call_offsets (to_ascii_lowercase sql) name ->
    first_literal_after (string_literals sql) call = Some i -> string_literals sql !! i = Some l -> scanned sql (mkSource (lit_value l) kind)
| scanned_reader name call i l : name ∈ READER_FNS -> call ∈ fn_call_offsets (to_ascii_lowercase sql) name ->
    first_literal_after (string_literals sql) call = Some i -> string_literals sql !! i = Some l ->
    scanned sql (mkSource (lit_value l) (object_kind (lit_value l)))
| scanned_bare l : l ∈ string_literals sql -> looks_like_object_uri (to_ascii_lowercase (lit_value l)) = true ->
    scanned sql (mkSource (lit_value l) (object_kind (lit_value l))).

(** A reader call whose argument is not a literal, with none after it either. *)
Definition call_without_literal (sql : bytes) : Prop :=
  exists name call, name ∈ reader_names /\ call ∈ fn_call_offsets (to_ascii_lowercase sql) name /\ first_literal_after (string_literals sql) call = None.

Lemma parse_scanned sql :
  let p := parse_input_sources sql in (forall s, s ∈ sources p -> scanned sql s) /\ (dynamic p = true -> call_without_literal sql).
Proof.
  cbv zeta. unfold parse_input_sources. set (ls := string_literals sql). set (lower := to_ascii_lowercase sql).
  set (f0 := mkFound [] false (replicate (length ls) false)). set (fns := (_ <$> LAKEHOUSE_FNS) ++ _).
  destruct (take_all_stems ls lower fns f0) as [Hs Hd]. cbn [sources dynamic].
  assert (Hfns : forall fn, fn ∈ fns -> match fn.2 with Some kind => (fn.1, kind) ∈ LAKEHOUSE_FNS | None => fn.1 ∈ READER_FNS end).
  { intros fn [([n k] & -> & H)%list_elem_of_fmap|(n & -> & H)%list_elem_of_fmap]%elem_of_app; exact H. }
  split.
  - intros s H. rewrite elem_of_dedup, elem_of_isort in H. apply elem_of_app in H as [H|H].
    + destruct (Hs s H) as [?%elem_of_nil|(fn & call & i & l & Hfn & Hcall & Hi & Hl & ->)]; [done|]. specialize (Hfns fn Hfn).
      destruct fn as [n [kind|]]; cbn [fst snd default from_option id] in *; [by eapply scanned_table|by eapply scanned_reader].
    + apply list_elem_of_bind in H as ([b l] & H & Hz). unfold take_bare in H. cbn [fst snd] in H. destruct b; [by apply elem_of_nil in H|].
      destruct (looks_like_object_uri _) eqn:E; [|by apply elem_of_nil in H]. apply list_elem_of_singleton in H as ->.
      apply scanned_bare; [by apply elem_of_zip_r in Hz|done].
  - intros [?|(fn & call & Hfn & Hcall & Hn)]%Hd; [done|]. exists fn.1, call. split_and!; [|done..]. specialize (Hfns fn Hfn).
    unfold reader_names. apply elem_of_app. destruct fn.2 as [kind|]; [left|by right]. apply list_elem_of_fmap. by exists (fn.1, kind).
Qed.

Lemma parse_spec sql :
  let p := parse_input_sources sql in
  let ls := string_literals sql in
  (forall s, s ∈ sources p -> src_uri s ∈ lit_value <$> ls)
  /\ (forall l, l ∈ ls -> looks_like_object_uri (to_ascii_lowercase (lit_value l)) = true -> lit_value l ∈ src_uri <$> sources p)
  /\ (forall name call, name ∈ reader_names -> call ∈ fn_call_offsets (to_ascii_lowercase sql) name ->
        match first_literal_after ls call with
        | None => dynamic p = true
        | Some i => exists l, ls !! i = Some l /\ lit_value l ∈ src_uri <$> sources p
        end).
Proof.
  cbv zeta. unfold parse_input_sources. set (ls := string_literals sql). set (lower := to_ascii_lowercase sql).
  set (f0 := mkFound [] false (replicate (length ls) false)). set (fns := (_ <$> LAKEHOUSE_FNS) ++ _).
  assert (H0 : collected ls f0).
  { split_and!; cbn; [by rewrite length_replicate|by intros s ?%elem_of_nil|]. intros i l Hi. by apply lookup_replicate in Hi as [? _]. }
  destruct (take_all_spec ls lower fns f0 H0) as ((Hn & Hs & Hc) & _ & Hcalls). set (f := foldl _ f0 fns) in *.
  set (all := f_sources f ++ _).
  assert (Hin : forall s, s ∈ sources (mkSources (dedup (isort (fun a b => lex_leb (src_uri a) (src_uri b)) all)) (f_dynamic f)) <-> s ∈ all).
  { intros s. cbn [sources]. by rewrite elem_of_dedup, elem_of_isort. }
  assert (Hup : forall u, u ∈ src_uri <$> f_sources f -> u ∈ src_uri <$> sources (mkSources (dedup (isort (fun a b => lex_leb (src_uri a) (src_uri b)) all)) (f_dynamic f))).
  { intros u (s & -> & Hu)%list_elem_of_fmap. apply list_elem_of_fmap_2, Hin, elem_of_app. by left. }
  split_and!.
  - intros s [Hf|Hb]%Hin%elem_of_app; [by apply Hs|]. apply list_elem_of_bind in Hb as ([b l] & Hb & Hz). unfold take_bare in Hb. cbn [fst snd] in Hb.
    destruct b; [by apply elem_of_nil in Hb|]. case_match; [|by apply elem_of_nil in Hb]. apply list_elem_of_singleton in Hb as ->.
    cbn [src_uri]. apply list_elem_of_fmap_2. by apply elem_of_zip_r in Hz.
  - intros l Hl Hk. apply list_elem_of_lookup in Hl as [i Hi]. assert (Hb : exists b, f_consumed f !! i = Some b).
    { apply lookup_lt_is_Some. rewrite Hn. by eapply lookup_lt_Some. }
    destruct Hb as [[] Hb]; [by apply Hup, (Hc i)|]. apply list_elem_of_fmap. exists (mkSource (lit_value l) (object_kind (lit_value l))). split; [done|].
    apply Hin, elem_of_app. right. apply list_elem_of_bind. exists (false, l). split; [unfold take_bare; cbn [fst snd]; rewrite Hk; by apply list_elem_of_singleton|].
    apply list_elem_of_lookup. exists i. apply lookup_zip_with_Some. by exists false, l.
  - intros name call Hname Hcall. assert (Hfn : exists k, (name, k) ∈ fns).
    { unfold fns, reader_names in *. apply elem_of_app in Hname as [([n k] & -> & Hn')%list_elem_of_fmap|Hn'].
      - exists (Some k). apply elem_of_app. left. apply list_elem_of_fmap. by exists (n, k).
      - exists None. apply elem_of_app. right. apply list_elem_of_fmap. by exists name. }
    destruct Hfn as [k Hfn]. rewrite Forall_forall in Hcalls. specialize (Hcalls _ Hfn). rewrite Forall_forall in Hcalls.
    specialize (Hcalls call Hcall). unfold call_handled in Hcalls. destruct (first_literal_after ls call) as [i|]; [|done].
    destruct Hcalls as (l & Hl & Hu). exists l. split; [done|]. by apply Hup.
Qed.

(** ** What resolving does *)

Section resolving.
Context {C : Crypto} (local : LocalFs) (r : list (bytes * ObjectVersionProbe)).

Lemma resolve_source_nonempty s os : resolve_source local r s = Ok os -> os <> [].
Proof using Type.
  unfold resolve_source. destruct (src_kind s).
  - intros (p & _ & (o & _ & [= <-])%res_bind_ok)%res_bind_ok. done.
  - intros (p & _ & ([|] & _ & H)%res_bind_ok)%res_bind_ok; [done|]. by injection H as <-.
  - intros (o & _ & [= <-])%res_bind_ok. done.
  - done.
Qed.

Lemma resolve_sources_spec ss objs :
  match resolve_sources local r ss objs with
  | Ok all =>
      (forall o, o ∈ objs -> o ∈ all)
      /\ (forall s, s ∈ ss -> exists os, resolve_source local r s = Ok os /\ forall o, o ∈ os -> o ∈ all)
      /\ (forall o, o ∈ all -> o ∈ objs \/ exists s os, s ∈ ss /\ resolve_source local r s = Ok os /\ o ∈ os)
  | Err e => exists s, s ∈ ss /\ resolve_source local r s = Err e
  end.
Proof using Type.
  revert objs. induction ss as [|s ss IH]; intros objs; cbn [resolve_sources]; [split_and!; [done|by intros s ?%elem_of_nil|auto]|].
  destruct (resolve_source local r s) as [os|e] eqn:E; cbn [res_bind]; [|exists s; split; [by left|done]].
  specialize (IH (objs ++ os)). destruct (resolve_sources local r ss (objs ++ os)) as [all|e].
  - destruct IH as (H1 & H2 & H3). split_and!.
    + intros o Ho. apply H1, elem_of_app. by left.
    + intros s' [->|Hs]%elem_of_cons; [|by apply H2]. exists os. split; [done|]. intros o Ho. apply H1, elem_of_app. by right.
    + intros o [[Ho|Ho]%elem_of_app|(s' & os' & Hs & Hr & Ho)]%H3; [by left| |].
      * right. exists s, os. split_and!; [by left|done..].
      * right. exists s', os'. split_and!; [by right|done..].
  - destruct IH as (s' & Hs & Hr). exists s'. split; [by right|done].
Qed.

(** A literal stands in the manifest: all objects a probe answers for it, and at least one. *)
Definition pinned (sql : bytes) (snap : InputSnapshot) (u : bytes) : Prop :=
  exists kind os, scanned sql (mkSource u kind) /\ resolve_source local r (mkSource u kind) = Ok os /\ os <> [] /\ forall o, o ∈ os -> o ∈ objects snap.

(** C39: every source that the scan of a query finds is pinned, and nothing but those.  When
    resolving a query gives a manifest, it holds every literal that has the form of a data
    object and, for every call of a reader or table function, the first literal after the
    call, each with all the versions a probe answered for it and at least one; every object
    in it comes from such a literal; and its fingerprint is the one of these objects.  When
    it gives none, the query has no such literal and no such call.  An error means that
    some call has no literal after it, or that such a source could not be resolved.
    Literals are what was written: in a query of plain text and ASCII literals, quotes
    escaped by doubling, exactly those.  The scan is not a parser: of a list of paths it
    sees the first and those of a known form, a reader given a variable takes the next
    literal wherever it stands, and an apostrophe in a comment shifts all literals after
    it (the examples at the end of this file). *)
Theorem inputs_all_pinned (sql : bytes) :
  let literals := string_literals sql in
  let calls name := fn_call_offsets (to_ascii_lowercase sql) name in
  match resolve local r sql with
  | Ok (Some snap) =>
      (forall l, l ∈ literals -> looks_like_object_uri (to_ascii_lowercase (lit_value l)) = true -> pinned sql snap (lit_value l))
      /\ (forall name call, name ∈ reader_names -> call ∈ calls name ->
            exists i l, first_literal_after literals call = Some i /\ literals !! i = Some l /\ pinned sql snap (lit_value l))
      /\ (forall o, o ∈ objects snap -> exists s os, scanned sql s /\ resolve_source local r s = Ok os /\ o ∈ os)
      /\ fingerprint snap = compute_fingerprint (objects snap)
  | Ok None =>
      (forall l, l ∈ literals -> looks_like_object_uri (to_ascii_lowercase (lit_value l)) = false)
      /\ (forall name, name ∈ reader_names -> calls name = [])
  | Err e => call_without_literal sql \/ exists s, scanned sql s /\ resolve_source local r s = Err e
  end
  /\ (forall p0 segs, quote ∉ p0 -> literals_ok segs -> sql = p0 ++ with_literals segs -> lit_value <$> literals = segs.*1).
Proof using Type.
  cbv zeta. split; [|intros p0 segs H0 Hok ->; by apply literals_read_back].
  destruct (parse_spec sql) as (_ & Hl & Hc). destruct (parse_scanned sql) as [Hs Hd]. unfold resolve.
  destruct (dynamic (parse_input_sources sql)) eqn:Ed; [left; by apply Hd|].
  assert (Hcall : forall name call, name ∈ reader_names -> call ∈ fn_call_offsets (to_ascii_lowercase sql) name ->
            exists i l, first_literal_after (string_literals sql) call = Some i /\ string_literals sql !! i = Some l
                        /\ lit_value l ∈ src_uri <$> sources (parse_input_sources sql)).
  { intros name call Hn Hin. specialize (Hc name call Hn Hin). destruct (first_literal_after _ call) as [i|]; [|done].
    destruct Hc as (l & ? & ?). by exists i, l. }
  destruct (sources (parse_input_sources sql)) as [|s0 ss] eqn:Es.
  - split.
    + intros l Hin. apply not_true_iff_false. intros Hk. specialize (Hl l Hin Hk). by apply elem_of_nil in Hl.
    + intros name Hn. destruct (fn_call_offsets (to_ascii_lowercase sql) name) as [|call cs] eqn:E; [done|].
      destruct (Hcall name call Hn) as (i & l & _ & _ & H); [rewrite E; by left|]. by apply elem_of_nil in H.
  - rewrite <- Es in *. pose proof (resolve_sources_spec (sources (parse_input_sources sql)) []) as H.
    destruct (resolve_sources local r (sources (parse_input_sources sql)) []) as [all|e]; cbn [res_bind].
    + destruct H as (_ & H2 & H3). assert (Hobj : forall o, o ∈ objects (from_objects all) <-> o ∈ all) by (intros o; apply elem_of_isort).
      assert (Hp : forall u, u ∈ src_uri <$> sources (parse_input_sources sql) -> pinned sql (from_objects all) u).
      { intros u ([v kind] & -> & Hin)%list_elem_of_fmap. destruct (H2 _ Hin) as (os & Hr & Ho). exists kind, os.
        split_and!; [by apply Hs|done|by eapply resolve_source_nonempty|]. intros o Hin'. by apply Hobj, Ho. }
      split_and!; [intros l Hin Hk; by apply Hp, Hl| | |done].
      * intros name call Hn Hin. destruct (Hcall name call Hn Hin) as (i & l & ? & ? & ?). exists i, l. auto.
      * intros o [Ho|(s & os & Hin & Hr & Ho)]%Hobj%H3; [by apply elem_of_nil in Ho|]. exists s, os. auto.
    + right. destruct H as (s & Hin & Hr). exists s. auto.
Qed.

End resolving.

(** The current version of a Delta table is the highest commit of its log. *)
Lemma delta_version_max m names :
  match foldl max_version m names with
  | Some v => (m = Some v \/ exists n, n ∈ names /\ commit_version n = Some v)
              /\ (forall w, m = Some w -> w <= v) /\ (forall n w, n ∈ names -> commit_version n = Some w -> w <= v)
  | None => m = None /\ forall n, n ∈ names -> commit_version n = None
  end.
Proof.
  revert m. induction names as [|n names IH]; intros m; cbn [foldl].
  { destruct m as [v|]; split_and!; try done; [by left|intros w [= ->]; lia|by intros n w ?%elem_of_nil|by intros n ?%elem_of_nil]. }
  specialize (IH (max_version m n)). destruct (foldl max_version (max_version m n) names) as [v|]; unfold max_version in IH.
  - destruct (commit_version n) as [u|] eqn:E.
    + destruct IH as (H1 & H2 & H3). specialize (H2 _ eq_refl). split_and!.
      * destruct H1 as [[= <-]|(n' & ? & ?)]; [|right; exists n'; split; [by right|done]].
        destruct m as [m|]; [|right; exists n; split; [by left|done]]. destruct (Z.max_spec m u) as [[_ ->]|[_ ->]]; [right; exists n; split; [by left|done]|by left].
      * intros w ->. lia.
      * intros n' w [->|Hn]%elem_of_cons Hw; [|by eapply H3]. rewrite E in Hw. injection Hw as <-. destruct m; lia.
    + destruct IH as (H1 & H2 & H3). split_and!; [destruct H1 as [->|(n' & ? & ?)]; [by left|right; exists n'; split; [by right|done]]|done|].
      intros n' w [->|Hn]%elem_of_cons Hw; [congruence|by eapply H3].
  - destruct (commit_version n) as [u|] eqn:E; [by destruct IH|]. destruct IH as [-> H]. split; [done|]. intros n' [->|Hn]%elem_of_cons; auto.
Qed.

Example commits :
  commit_version <$> (str <$> ["00000000000000000012.json"; "00000000000000000000.json"; "7.crc"; ".json"; "x1.json"; "00000000000000000003.checkpoint.parquet"]%string)
  = [Some 12; Some 0; None; None; None; None].
Proof. vm_compute. reflexivity. Qed.

Definition uris (sql : string) : list bytes * bool := let p := parse_input_sources (str sql) in (src_uri <$> sources p, dynamic p).

Example usual_queries :
  uris "SELECT * FROM READ_PARQUET ('s3://b/x.parquet') JOIN 'y.csv' USING (id) WHERE name = 'it''s'" = ([str "s3://b/x.parquet"; str "y.csv"], false)
  /\ uris "SELECT * FROM read_parquet($1)" = ([], true)
  /\ uris "SELECT 1" = ([], false).
Proof. vm_compute. done. Qed.

(** A reader with a bind variable takes the next literal of the query for its path,
    however far away it is. *)
Example literal_elsewhere_taken : uris "SELECT * FROM read_parquet($1) WHERE region = 'north'" = ([str "north"], false).
Proof. vm_compute. reflexivity. Qed.

(** Of a list of paths the first is taken; the others only when their ending is known. *)
Example list_half_pinned : uris "SELECT * FROM read_csv(['a.txt', 'b.txt'])" = ([str "a.txt"], false).
Proof. vm_compute. reflexivity. Qed.

(** A path outside ASCII is not the path that was written. *)
Example path_mangled : uris "FROM 's3://b/é.parquet'" = ([str "s3://b/Ã©.parquet"], false).
Proof. vm_compute. reflexivity. Qed.

(** An apostrophe in a comment turns literals inside out: the file is not seen. *)
Example apostrophe_in_comment : uris "/* don't */ SELECT * FROM 'a.parquet'" = ([], false).
Proof. vm_compute. reflexivity. Qed.

(** A pattern with text before the star matches nothing on the local file system: the
    inputs count as unavailable, where any other pattern that is not supported is to fall
    back. *)
Example prefix_pattern_unavailable {C : Crypto} :
  let fs := mkLocalFs (fun _ => Some []) (fun d => if bool_decide (d = str "data") then Some [(str "part-1.parquet", true); (str "x.parquet", true)] else None) in
  (match resolve fs (new_resolver fs) (str "FROM 'data/part-*.parquet'") with Err e => Some e | Ok _ => None end) = Some (Unavailable (str "data/part-*.parquet"))
  /\ (match resolve fs (new_resolver fs) (str "FROM 'data/*.parquet'") with Ok (Some s) => uri <$> objects s | _ => [] end)
     = [str "data/part-1.parquet"; str "data/x.parquet"].
Proof. vm_compute. done. Qed.

Definition one_file : LocalFs := mkLocalFs (fun p => if bool_decide (p = str "a.parquet") then Some (str "PAR1") else None) (fun _ => None).
Definition one_query : bytes := str "SELECT * FROM read_parquet('a.parquet')".

Lemma inputs_all_pinned_witness :
  exists snap, resolve (C := toy_crypto) one_file (new_resolver (C := toy_crypto) one_file) one_query = Ok (Some snap)
    /\ pinned one_file (new_resolver (C := toy_crypto) one_file) one_query snap (str "a.parquet").
Proof.
  assert (Hk : (match resolve (C := toy_crypto) one_file (new_resolver (C := toy_crypto) one_file) one_query with Ok (Some _) => true | _ => false end) = true)
    by (vm_compute; reflexivity).
  destruct (inputs_all_pinned (C := toy_crypto) one_file (new_resolver (C := toy_crypto) one_file) one_query) as [H _]. revert H Hk.
  generalize (resolve (C := toy_crypto) one_file (new_resolver (C := toy_crypto) one_file) one_query). intros [[snap|]|e] H Hk; [|discriminate Hk..].
  exists snap. split; [reflexivity|]. refine (proj1 H (mkLiteral 27 (str "a.parquet")) _ _); [|vm_compute; reflexivity].
  apply list_elem_of_lookup. exists 0%nat. vm_compute. reflexivity.
Defined.
