(* ===== verification/Preflight.v ===== *)
(** * Sizing a query before it runs (crates/node/src/estimator.rs, the metadata readers;
      crates/node/src/node.rs: [preflight_estimate] and what it calls)

    Before a query is planned, the node sizes it from file metadata alone: a bounded
    sample of CSV and JSON files, the commit log of Delta tables, the length of anything
    else.  The file system and the JSON parser are parameters.  [None] outside a result is
    an overflow the estimator's plain additions panic on. *)

From S2P Require Import Prelude Bytes F64 Text Decimal Toml Sql InputResolver Estimator.
#[local] Open Scope duckton_scope.

(** ** JSON values (serde_json::Value) *)

(** Numbers as serde_json keeps them: unsigned, negative, floating. *)
Inductive Json :=
| JNull
| JBool (b : bool)
| JUint (n : Z)
| JNegInt (n : Z)
| JFloat (f : f64)
| JString (s : bytes)
| JArray (vs : list Json)
| JObject (m : list (bytes * Json)).

(** [serde_json::from_str] *)
Class JsonText := { json_from_str : bytes -> option Json }.

Definition json_get (k : string) (v : Json) : option Json := match v with JObject m => bt_get (str k) m | _ => None end.
Definition as_str (v : Json) : option bytes := match v with JString s => Some s | _ => None end.
Definition json_str (k : string) (v : Json) : option bytes := json_get k v ≫= as_str.
Definition as_u64 (v : Json) : option Z := match v with JUint n => Some n | _ => None end.
Definition as_array (v : Json) : option (list Json) := match v with JArray vs => Some vs | _ => None end.
Definition as_object (v : Json) : option (list (bytes * Json)) := match v with JObject m => Some m | _ => None end.

Definition json_as_f64 (v : Json) : option f64 :=
  match v with
  | JUint n | JNegInt n => Some (f64_of_Z n)
  | JFloat f => Some f
  | JString s => parse_f64 s
  | _ => None
  end.

(** ** What is asked of the file system *)

(** The length of a file, one [read] of at most so many bytes, a whole text file, whether
    a path is a directory, whether it exists, and the names in a directory. *)
Record MetaFs := mkMetaFs {
  mf_len : bytes -> option Z;
  mf_sample : bytes -> nat -> option bytes;
  mf_text : bytes -> option bytes;
  mf_is_dir : bytes -> bool;
  mf_exists : bytes -> bool;
  mf_names : bytes -> option (list bytes);
}.

(** ** Text files *)

Fixpoint newline_positions (i : nat) (buf : bytes) : list nat :=
  match buf with
  | [] => []
  | b :: rest => if bool_decide (b = Byte.x0a) then i :: newline_positions (S i) rest else newline_positions (S i) rest
  end.

Definition count_byte (c : byte) (s : bytes) : Z := Z.of_nat (length (List.filter (fun b => bool_decide (b = c)) s)).

(** What [csv_metadata] makes of the file's length and the sample. *)
Definition csv_of_sample (delimiter : byte) (object_bytes : Z) (buf : bytes) : TextMetadata :=
  let nls := newline_positions 0 buf in
  let header_end := default (length buf) (head nls) in
  let header := take header_end buf in
  let total_columns := match header with [] => 1 | _ => count_byte delimiter header + 1 end in
  let sample_rows := sat_sub (Z.of_nat (length nls)) 1 in
  let sample_bytes := match last nls with
                      | Some end_ => if 0 <? sample_rows then sat_sub (Z.of_nat end_) (Z.of_nat header_end + 1) else 0
                      | None => 0
                      end in
  mkTextMeta object_bytes sample_bytes sample_rows total_columns.

Section reading.
Context {J : JsonText} (fs : MetaFs).

(** The length, and a sample of at most [limit] bytes. *)
Definition probe_text (path : bytes) (limit : Z) : option (Z * bytes) :=
  object_bytes ← mf_len fs path;
  buf ← mf_sample fs path (Z.to_nat (Z.min limit object_bytes));
  Some (object_bytes, buf).

Definition csv_metadata (path : bytes) (delimiter : byte) (sample_limit_bytes : Z) : option TextMetadata :=
  '(object_bytes, buf) ← probe_text path sample_limit_bytes;
  Some (csv_of_sample delimiter object_bytes buf).

Definition ndjson_of_sample (object_bytes : Z) (buf : bytes) : TextMetadata :=
  let nls := newline_positions 0 buf in
  let sample_bytes := match last nls with Some i => Z.of_nat i + 1 | None => 0 end in
  let total_columns :=
    default 1 (end_ ← head nls;
               v ← json_from_str (take end_ buf);
               m ← as_object v;
               Some (Z.of_nat (length m))) in
  mkTextMeta object_bytes sample_bytes (Z.of_nat (length nls)) (Z.max total_columns 1).

Definition ndjson_metadata (path : bytes) (sample_limit_bytes : Z) : option TextMetadata :=
  '(object_bytes, buf) ← probe_text path sample_limit_bytes;
  Some (ndjson_of_sample object_bytes buf).

(** ** The Delta commit log *)

Definition parse_delta_schema_columns (schema : bytes) : option (list bytes) :=
  v ← json_from_str schema;
  fields ← json_get "fields" v ≫= as_array;
  Some (omap (M := list) (fun f => json_str "name" f) fields).

Abbreviation Bounds := (list (bytes * (option f64 * option f64))).
Definition set_min (b : Bounds) (e : bytes * Json) : Bounds :=
  bt_insert e.1 (json_as_f64 e.2, snd (default (None, None) (bt_get e.1 b))) b.
Definition set_max (b : Bounds) (e : bytes * Json) : Bounds :=
  bt_insert e.1 (fst (default (None, None) (bt_get e.1 b)), json_as_f64 e.2) b.

Definition parse_delta_stats (stats : option Json) : Z * Bounds :=
  match (s ← stats; match s with JString t => json_from_str t | other => Some other end) with
  | None => (0, [])
  | Some parsed =>
      let num_records := default 0 (json_get "numRecords" parsed ≫= as_u64) in
      let mins := default [] (json_get "minValues" parsed ≫= as_object) in
      let maxs := default [] (json_get "maxValues" parsed ≫= as_object) in
      (num_records, foldl set_max (foldl set_min [] mins) maxs)
  end.

(** What one line of a commit does, in the order of the loop's body. *)
Definition delta_actions (v : Json) : list DeltaAction :=
  match (m ← json_get "metaData" v; s ← json_str "schemaString" m; parse_delta_schema_columns s) with
  | Some cols => [DMeta cols]
  | None => []
  end
  ++ match json_get "remove" v ≫= json_str "path" with Some p => [DRemove p] | None => [] end
  ++ match json_get "add" v with
     | Some add =>
         let '(num_records, bounds) := parse_delta_stats (json_get "stats" add) in
         [DAdd (default [] (json_str "path" add))
            (mkDataFile (default 0 (json_get "size" add ≫= as_u64)) num_records bounds)]
     | None => []
     end.

(** [str::lines] *)
Definition strip_cr (l : bytes) : bytes := match rev l with Byte.x0d :: r => rev r | _ => l end.
Definition lines (text : bytes) : list bytes :=
  let ps := split_on Byte.x0a text in
  let ps := match last ps with Some [] => removelast ps | _ => ps end in
  strip_cr <$> ps.

Definition log_actions (text : bytes) : list DeltaAction :=
  lines text ≫= fun l =>
    if bool_decide (trim l = []) then [] else match json_from_str l with Some v => delta_actions v | None => [] end.

Definition is_commit (name : bytes) : bool :=
  match stem_ext name with Some (_, ext) => bool_decide (ext = str "json") | None => false end.

Definition delta_metadata (table_dir : bytes) : option TableFilesMetadata :=
  let log_dir := table_dir ++ str "/_delta_log" in
  names ← mf_names fs log_dir;
  texts ← mapM (fun n => mf_text fs (log_dir ++ str "/" ++ n)) (isort lex_leb (List.filter is_commit names));
  let actions := texts ≫= log_actions in
  let live := isort (fun a b => lex_leb a.1 b.1) (delta_live actions) in
  Some (mkTableFiles (ds_columns (foldl delta_step (mkDelta [] [] []) actions)) live.*2).

(** ** The pre-flight estimate *)

Definition PREFLIGHT_TEXT_SAMPLE_BYTES : Z := 64 * 1024.

Definition raw_scan_estimate (scanned_bytes : Z) : ScanEstimate := mkScan scanned_bytes 0 0 0 1 1 0.

(** [Path::file_name]: the last component that is not [.], unless it is [..]. *)
Definition file_name (path : bytes) : option bytes :=
  match last (List.filter (fun c => negb (bool_decide (c = [] \/ c = str "."))) (split_on Byte.x2f path)) with
  | Some c => if bool_decide (c = str "..") then None else Some c
  | None => None
  end.
(** [Path::extension], lower case. *)
Definition extension (path : bytes) : option bytes :=
  name ← file_name path; '(_, ext) ← stem_ext name; Some (to_ascii_lowercase ext).

Definition has_extension (path : bytes) (exts : list string) : bool :=
  match extension path with Some e => bool_decide (e ∈ str <$> exts) | None => false end.

Definition scan_estimate_for_path (path : bytes) (params : EstimateParams) : option (option ScanEstimate) :=
  if mf_is_dir fs path
  then if mf_is_dir fs (path ++ str "/_delta_log")
       then match delta_metadata path with
            | Some meta => Some <$> estimate_table_files meta ProjAll [] params
            | None => Some None
            end
       else Some None
  else
    let text m := (fun meta => estimate_text meta ProjAll [] params) <$> m in
    Some (if has_extension path ["csv"%string] then text (csv_metadata path Byte.x2c PREFLIGHT_TEXT_SAMPLE_BYTES)
          else if has_extension path ["tsv"%string] then text (csv_metadata path Byte.x09 PREFLIGHT_TEXT_SAMPLE_BYTES)
          else if has_extension path ["json"; "ndjson"; "jsonl"]%string then text (ndjson_metadata path PREFLIGHT_TEXT_SAMPLE_BYTES)
          else if has_extension path ["parquet"%string]
          then (fun size => raw_scan_estimate (as_uint 64 (fround (fmul (f64_of_Z size) (columnar_decompression_ratio params))))) <$> mf_len fs path
          else raw_scan_estimate <$> mf_len fs path).

Definition looks_like_data (path : bytes) : bool :=
  has_extension path ["parquet"; "csv"; "tsv"; "json"; "ndjson"; "jsonl"]%string.

(** The scan of [extract_string_literals], outside a literal or in one. *)
Fixpoint extract (inside : option bytes) (s : bytes) : list bytes :=
  match s, inside with
  | [], None => []
  | [], Some lit => [lit]
  | c :: s', None => if bool_decide (c = quote) then extract (Some []) s' else extract None s'
  | c :: s', Some lit =>
      if bool_decide (c = quote)
      then match s' with
           | c' :: s'' => if bool_decide (c' = quote) then extract (Some (push_char lit quote)) s'' else lit :: extract None s'
           | [] => [lit]
           end
      else extract (Some (push_char lit c)) s'
  end.
Definition extract_string_literals (sql : bytes) : list bytes := extract None sql.

Record Sized := mkSized { sz_scanned : Z; sz_rows : Z; sz_sources : nat }.

(** The loop of [size_data_sources]. *)
Fixpoint size_literals (params : EstimateParams) (lits : list bytes) (acc : Sized) : option (option Sized) :=
  match lits with
  | [] => Some (Some acc)
  | lit :: rest =>
      if contains (str "://") lit then Some None
      else if is_glob lit then Some None
      else if negb (looks_like_data lit) && negb (mf_exists fs lit) then size_literals params rest acc
      else match scan_estimate_for_path lit params with
           | None => None
           | Some None => Some None
           | Some (Some est) =>
               size_literals params rest
                 (mkSized (sat_add 64 (sz_scanned acc) (sc_scanned_uncompressed_bytes est))
                    (sat_add 64 (sz_rows acc) (sc_total_rows est)) (S (sz_sources acc)))
           end
  end.

Definition size_data_sources (sql : bytes) : option (option WorkingSetEstimate) :=
  let params := default_params in
  match size_literals params (extract_string_literals sql) (mkSized 0 0 0) with
  | None => None
  | Some None => Some None
  | Some (Some t) =>
      if (sz_sources t =? 0)%nat then Some None
      else
        let width := if 0 <? sz_rows t then sz_scanned t / sz_rows t else 0 in
        Some (Some (estimate_working_set
                      (mkScan (sz_scanned t) (sz_rows t) (sz_rows t) width (sz_sources t) (sz_sources t) 0) streaming params))
  end.

Definition preflight_estimate (sql : bytes) : option (option WorkingSetEstimate) :=
  if negb (has_data_source sql) then Some (Some (mkWorkingSet 0 0 0 0 0 0 0 0)) else size_data_sources sql.
End reading.

(** ** EXPLAIN annotations *)

(** The text after the first occurrence. *)
Fixpoint after (p s : bytes) : option bytes :=
  if starts_with p s then Some (drop (length p) s) else match s with [] => None | _ :: s' => after p s' end.

Definition grouped (c : byte) : bool := in_range 48 57 c || bool_decide (c = Byte.x2c) || bool_decide (c = Byte.x5f).
Fixpoint take_grouped (s : bytes) : bytes := match s with c :: s' => if grouped c then c :: take_grouped s' else [] | [] => [] end.
Fixpoint drop_grouped (s : bytes) : bytes := match s with c :: s' => if grouped c then drop_grouped s' else s | [] => [] end.

Definition parse_grouped_digits (rest : bytes) : option Z := parse_uint 64 (List.filter (in_range 48 57) (take_grouped rest)).

Definition line_cardinalities (line : bytes) : list Z :=
  match after (str "EC:") line ≫= (fun r => parse_grouped_digits (trim_start r)) with Some v => [v] | None => [] end
  ++ match after (str "~") line with
     | Some r => let rest := trim_start r in
                 if starts_with (str "row") (trim_start (drop_grouped rest))
                 then match parse_grouped_digits rest with Some v => [v] | None => [] end else []
     | None => []
     end.

Definition bump (m : option Z) (v : Z) : option Z := Some (match m with Some m => Z.max m v | None => v end).
Definition parse_explain_cardinality (explain_text : bytes) : option Z :=
  foldl bump None ((split_on Byte.x0a explain_text ≫= split_on Byte.x7c) ≫= fun raw => line_cardinalities (trim raw)).

(** ** The two scanners of the node agree *)

Lemma extract_scan n : forall inside i s, (length s <= n)%nat ->
  extract (snd <$> inside) s = lit_value <$> scan inside i s.
Proof.
  induction n as [|n IH]; intros inside i [|c s] Hn; cbn in Hn; try lia; destruct inside as [[st v]|]; try done; cbn.
  - destruct (bool_decide (c = quote)); [|by rewrite <- (IH (Some (st, push_char v c)) (S i) s) by lia].
    destruct s as [|c' s]; [done|]. cbn in Hn. destruct (bool_decide (c' = quote)).
    + by rewrite <- (IH (Some (st, push_char v quote)) (S (S i)) s) by lia.
    + cbn [fmap list_fmap lit_value]. f_equal. by rewrite <- (IH None (S i) (c' :: s)) by (cbn; lia).
  - destruct (bool_decide (c = quote)).
    + by rewrite <- (IH (Some (i, [])) (S i) s) by lia.
    + by rewrite <- (IH None (S i) s) by lia.
Qed.

(** The pre-flight scanner finds the literals the input resolver finds. *)
Theorem literals_agree sql : extract_string_literals sql = lit_value <$> string_literals sql.
Proof. apply (extract_scan (length sql) None). lia. Qed.

(** ** What an estimate covers *)

Section estimates.
Context {J : JsonText} (fs : MetaFs).
Context (lengths : forall p n, mf_len fs p = Some n -> in_u 64 n).

Definition unreachable (lit : bytes) : bool := contains (str "://") lit || is_glob lit.
Definition is_source (lit : bytes) : bool := looks_like_data lit || mf_exists fs lit.

Lemma table_scan_range meta proj preds ep e : estimate_table_files meta proj preds ep = Some e -> in_u 64 (sc_scanned_uncompressed_bytes e).
Proof.
  unfold estimate_table_files. set (step := fun (acc : option (Z * Z * nat)) f => _).
  assert (Hs : forall files acc t, foldl step acc files = Some t ->
    (forall a, acc = Some a -> in_u 64 a.1.1) -> in_u 64 t.1.1).
  { induction files as [|f files IH]; intros acc t H Ha; [by apply Ha|]. cbn in H. apply (IH _ _ H). clear H IH. intros a Hst. subst step. cbn in Hst.
    destruct (file_pruned preds f); [by apply Ha|]. destruct acc as [[[b r] u]|]; [|done]. cbn in Hst.
    specialize (Ha _ eq_refl). cbn in Ha. destruct (checked_add 64 r _); [|done]. cbn in Hst.
    destruct (checked_add 64 b _) eqn:Ec; [|done]. injection Hst as <-. cbn. revert Ec. unfold checked_add. case_match; [|done].
    intros [= <-]. pose proof (as_uint_range 64 (fround (fmul (fmul (f64_of_Z (df_size_bytes f)) (columnar_decompression_ratio ep))
      (projection_ratio (projected_count proj (Z.max (Z.of_nat (length (tf_all_columns meta))) 1)) (Z.max (Z.of_nat (length (tf_all_columns meta))) 1))))).
    unfold in_u, umax in *. lia. }
  destruct (foldl step _ _) as [[[b r] u]|] eqn:E; [|done]. cbn. intros [= <-]. cbn.
  apply (Hs _ _ _ E). intros a [= <-]. cbn. unfold in_u. lia.
Qed.

Lemma path_scan_range path ep e : scan_estimate_for_path fs path ep = Some (Some e) -> in_u 64 (sc_scanned_uncompressed_bytes e).
Proof using lengths.
  assert (Hu : forall x, in_u 64 (as_uint 64 x)) by (intros x; pose proof (as_uint_range 64 x); unfold in_u, umax in *; lia).
  assert (Ht : forall m, in_u 64 (sc_scanned_uncompressed_bytes (estimate_text m ProjAll [] ep))) by (intros m; apply Hu).
  unfold scan_estimate_for_path. destruct (mf_is_dir fs path).
  - destruct (mf_is_dir fs _); [|done]. destruct (delta_metadata fs path); [|done].
    destruct (estimate_table_files _ _ _ _) eqn:E; [|done]. intros [= <-]. by apply table_scan_range in E.
  - intros H. apply (inj Some) in H.
    repeat match type of H with context [if ?c then _ else _] => destruct c end;
      apply fmap_Some in H as (m & Hm & ->); [apply Ht..|apply Hu|by eapply lengths].
Qed.

(** Every literal of the query was looked at: none is remote or a pattern, and each that
    names data was sized. *)
Definition sized (ep : EstimateParams) (lits : list bytes) (scans : list ScanEstimate) : Prop :=
  Forall (fun l => unreachable l = false) lits
  /\ Forall2 (fun l e => scan_estimate_for_path fs l ep = Some (Some e)) (List.filter is_source lits) scans.

Lemma scans_nonneg ep ls scans :
  Forall2 (fun l e => scan_estimate_for_path fs l ep = Some (Some e)) ls scans -> 0 <= sum_by sc_scanned_uncompressed_bytes scans.
Proof using lengths.
  induction 1 as [|l e ls scans He _ IH]; [done|]. apply path_scan_range in He. unfold in_u in He. simpl. lia.
Qed.

Lemma size_literals_spec ep lits : forall acc, in_u 64 (sz_scanned acc) ->
  match size_literals fs ep lits acc with
  | None => exists l, l ∈ lits /\ is_source l = true /\ scan_estimate_for_path fs l ep = None
  | Some None => exists l, l ∈ lits /\ (unreachable l = true \/ is_source l = true /\ scan_estimate_for_path fs l ep = Some None)
  | Some (Some t) =>
      exists scans, sized ep lits scans /\ sz_sources t = (sz_sources acc + length scans)%nat
        /\ sz_scanned t = Z.min (sz_scanned acc + sum_by sc_scanned_uncompressed_bytes scans) (umax 64)
  end.
Proof using lengths.
  induction lits as [|l lits IH]; intros acc Ha; cbn [size_literals].
  { exists []. split; [by repeat constructor|]. cbn. unfold in_u, umax in *. lia. }
  destruct (contains _ l) eqn:Ec; [exists l; split; [by left|]; left; unfold unreachable; by rewrite Ec|].
  destruct (is_glob l) eqn:Eg; [exists l; split; [by left|]; left; unfold unreachable; by rewrite Eg, orb_true_r|].
  assert (Hr : unreachable l = false) by (unfold unreachable; by rewrite Ec, Eg).
  rewrite <- negb_orb. fold (is_source l). destruct (is_source l) eqn:Es; cbn [negb].
  - destruct (scan_estimate_for_path fs l ep) as [[e|]|] eqn:Ee;
      [|exists l; split; [by left|by right]|exists l; by split; [left|]].
    pose proof (path_scan_range _ _ _ Ee) as He.
    assert (Ha' : in_u 64 (sat_add 64 (sz_scanned acc) (sc_scanned_uncompressed_bytes e)))
      by (unfold in_u, sat_add, umax in *; lia).
    specialize (IH (mkSized (sat_add 64 (sz_scanned acc) (sc_scanned_uncompressed_bytes e))
      (sat_add 64 (sz_rows acc) (sc_total_rows e)) (S (sz_sources acc))) Ha').
    destruct (size_literals _ _ _ _) as [[t|]|].
    + destruct IH as (scans & [Hu Hf] & Hn & Hs). exists (e :: scans). split; [|split].
      * split; [by constructor|]. cbn [List.filter]. rewrite Es. by constructor.
      * cbn in Hn |- *. lia.
      * rewrite Hs. cbn [sz_scanned]. simpl.
        pose proof (scans_nonneg _ _ _ Hf).
        unfold in_u, sat_add, umax in *. lia.
    + destruct IH as (l' & Hl & H). exists l'. split; [by right|done].
    + destruct IH as (l' & Hl & H). exists l'. split; [by right|done].
  - specialize (IH acc Ha). destruct (size_literals _ _ _ _) as [[t|]|].
    + destruct IH as (scans & [Hu Hf] & Hn & Hs). exists scans. split; [|done].
      split; [by constructor|]. cbn [List.filter]. by rewrite Es.
    + destruct IH as (l' & Hl & H). exists l'. split; [by right|done].
    + destruct IH as (l' & Hl & H). exists l'. split; [by right|done].
Qed.

(** What the pre-flight estimate says of a query.  A query without a data source is
    sized at zero.  Otherwise there is an estimate exactly when every literal of the query
    could be looked at - none is remote or a pattern, each one that names data was sized -
    and at least one names data; it then counts the bytes of all of them, saturating, and
    claims no more memory than the bounded scan buffer.  Where the estimate is missing,
    the literal responsible exists, or nothing named data.  Only a Delta table whose
    recorded sizes add up to more than 64 bits makes the code panic. *)
Theorem preflight_sizes_every_source (sql : bytes) :
  let lits := extract_string_literals sql in
  match preflight_estimate fs sql with
  | None => has_data_source sql = true /\ exists l, l ∈ lits /\ is_source l = true /\ scan_estimate_for_path fs l default_params = None
  | Some None =>
      has_data_source sql = true
      /\ (List.filter is_source lits = []
          \/ exists l, l ∈ lits /\ (unreachable l = true \/ is_source l = true /\ scan_estimate_for_path fs l default_params = Some None))
  | Some (Some est) =>
      in_u 64 (ws_scanned_uncompressed_bytes est)
      /\ ws_peak_working_set_bytes est = Z.min (ws_scanned_uncompressed_bytes est) (scan_buffer_cap_bytes default_params)
      /\ if has_data_source sql
         then exists scans, scans <> [] /\ sized default_params lits scans
                /\ ws_scanned_uncompressed_bytes est = Z.min (sum_by sc_scanned_uncompressed_bytes scans) (umax 64)
         else ws_scanned_uncompressed_bytes est = 0
  end.
Proof using lengths.
  intros lits. unfold preflight_estimate. destruct (has_data_source sql) eqn:Eh; cbn [negb]; [|by vm_compute].
  pose proof (size_literals_spec default_params lits (mkSized 0 0 0) ltac:(unfold in_u; cbn; lia)) as H.
  unfold size_data_sources. fold lits. destruct (size_literals _ _ _ _) as [[t|]|]; [|by split; [|right]|done].
  destruct H as (scans & Hsz & Hn & Hs). cbn [sz_scanned sz_sources] in Hn, Hs. rewrite Z.add_0_l in Hs. cbn in Hn.
  destruct (Nat.eqb_spec (sz_sources t) 0) as [H0|H0].
  { split; [done|]. left. destruct Hsz as [_ Hf]. destruct scans; [|cbn in Hn; lia]. by apply Forall2_nil_inv_r in Hf. }
  cbn [ws_scanned_uncompressed_bytes ws_peak_working_set_bytes estimate_working_set streaming qs_group_by qs_hash_join qs_sort_or_window
       sc_scanned_uncompressed_bytes].
  pose proof (scans_nonneg _ _ _ (proj2 Hsz)).
  split; [unfold in_u, umax in *; lia|]. split.
  { rewrite Hs. unfold sat_add, umax. assert (Hc : 0 <= scan_buffer_cap_bytes default_params <= 2 ^ 64 - 1) by (vm_compute; split; congruence). lia. }
  exists scans. split; [intros ->; cbn in Hn; lia|done].
Qed.
End estimates.

(** ** Examples *)

(** A parser of the few lines the examples use. *)
Definition tiny_json : JsonText := {| json_from_str := fun s =>
  if bool_decide (s = str "add") then Some (JObject [(str "add", JObject [(str "path", JString (str "p1")); (str "size", JUint 100);
    (str "stats", JString (str "stats"))])])
  else if bool_decide (s = str "stats") then Some (JObject [(str "maxValues", JObject [(str "a", JUint 9)]);
    (str "minValues", JObject [(str "a", JUint 1); (str "b", JString (str "2.5"))]); (str "numRecords", JUint 7)])
  else if bool_decide (s = str "meta") then Some (JObject [(str "metaData", JObject [(str "schemaString", JString (str "schema"))])])
  else if bool_decide (s = str "schema") then Some (JObject [(str "fields", JArray [JObject [(str "name", JString (str "a"))]; JNull])])
  else None |}.

Example csv_sample :
  csv_of_sample Byte.x2c 1000 (str "id,name" ++ [Byte.x0a] ++ str "1,ann" ++ [Byte.x0a] ++ str "2,bob" ++ [Byte.x0a] ++ str "3,c")
    = mkTextMeta 1000 11 2 2
  /\ csv_of_sample Byte.x2c 3 (str "a,b") = mkTextMeta 3 0 0 2
  /\ csv_of_sample Byte.x2c 0 [] = mkTextMeta 0 0 0 1.
Proof. vm_compute. done. Qed.

Example delta_line :
  delta_actions (J := tiny_json) (JObject [(str "add", JObject [(str "path", JString (str "p1")); (str "size", JUint 100); (str "stats", JString (str "stats"))])])
    = [DAdd (str "p1") (mkDataFile 100 7 [(str "a", (Some (f64_of_Z 1), Some (f64_of_Z 9))); (str "b", (Some (lit 5 2), None))])].
Proof. vm_compute. done. Qed.

(** One table of a hundred bytes on disk, one CSV file, nothing else. *)
Definition tiny_fs : MetaFs := mkMetaFs
  (fun p => if bool_decide (p = str "/d/x.csv") then Some 12 else None)
  (fun p n => if bool_decide (p = str "/d/x.csv") then Some (take n (str "a,b" ++ [Byte.x0a] ++ str "1,2" ++ [Byte.x0a] ++ str "3,4" ++ [Byte.x0a])) else None)
  (fun p => if bool_decide (p = str "/t/_delta_log/00.json") then Some (str "meta" ++ [Byte.x0d; Byte.x0a] ++ str "add" ++ [Byte.x0a]) else None)
  (fun p => bool_decide (p = str "/t" \/ p = str "/t/_delta_log"))
  (fun p => bool_decide (p = str "/t"))
  (fun p => if bool_decide (p = str "/t/_delta_log") then Some [str "00.json"; str "x.tmp"] else None).

Definition scanned (sql : string) : option (option Z) :=
  match preflight_estimate (J := tiny_json) tiny_fs (str sql) with
  | Some est => Some (option_map ws_scanned_uncompressed_bytes est)
  | None => None
  end.

Example preflight_examples :
  scanned "SELECT 1 + 1" = Some (Some 0)
  /\ scanned "SELECT * FROM '/d/x.csv' WHERE a = 'y'" = Some (Some 12)
  /\ scanned "SELECT * FROM delta_scan('/t'), '/d/x.csv'" = Some (Some 412)
  /\ scanned "SELECT * FROM 's3://b/k.parquet'" = Some None
  /\ scanned "SELECT * FROM '/d/*.csv'" = Some None
  /\ scanned "SELECT * FROM '/d/missing.csv'" = Some None
  /\ scanned "SELECT * FROM range(100)" = Some None.
Proof. vm_compute. done. Qed.

Lemma preflight_sizes_every_source_witness :
  exists est, preflight_estimate (J := tiny_json) tiny_fs (str "SELECT * FROM '/d/x.csv'") = Some (Some est) /\ in_u 64 (ws_scanned_uncompressed_bytes est).
Proof.
  assert (L : forall p n, mf_len tiny_fs p = Some n -> in_u 64 n)
    by (intros p n; cbn; case_bool_decide; [intros [= <-]; unfold in_u; lia|done]).
  pose proof (preflight_sizes_every_source (J := tiny_json) tiny_fs L (str "SELECT * FROM '/d/x.csv'")) as H.
  destruct (preflight_estimate (J := tiny_json) tiny_fs (str "SELECT * FROM '/d/x.csv'")) as [[est|]|] eqn:E;
    [|exfalso; vm_compute in E; congruence..].
  exists est. split; [reflexivity|exact (proj1 H)].
Defined.

Example explain_rows :
  parse_explain_cardinality (str "| SEQ_SCAN | EC: 1,000 | FILTER ~5_000 rows | ~12 columns |") = Some 5000
  /\ parse_explain_cardinality (str "no annotation") = None.
Proof. vm_compute. done. Qed.
