(* ===== verification/Rounding.v ===== *)
(** * Bounds on rounded products of binary64 numbers

    What the components that turn percentages and budgets into integers need of
    floating-point multiplication: rounding to nearest never crosses a bound that is on
    the grid of the result.  Values are compared after scaling by [2^SCALE], so that all
    exponents are non-negative. *)

From S2P Require Import Prelude F64.
From Stdlib Require Import SpecFloat.
#[local] Open Scope duckton_scope.
#[local] Open Scope Z_scope.

Definition SCALE : Z := 4096.
(** [m * 2^e], scaled. *)
Definition val (m e : Z) : Z := m * 2 ^ (e + SCALE).

Lemma val_shift m e k : 0 <= k -> - SCALE <= e -> val m (e + k) = val (m * 2 ^ k) e.
Proof.
  intros Hk He. unfold val. replace (e + k + SCALE) with (k + (e + SCALE)) by lia. rewrite Z.pow_add_r by lia. lia.
Qed.

Lemma val_mono m n e : m <= n -> - SCALE <= e -> val m e <= val n e.
Proof. intros H He. unfold val. apply Z.mul_le_mono_nonneg_r; [apply Z.pow_nonneg; lia|done]. Qed.

(** ** Digits *)

Lemma digits_bounds p : 2 ^ (Zpos (digits2_pos p) - 1) <= Zpos p < 2 ^ Zpos (digits2_pos p).
Proof.
  induction p as [p IH|p IH|]; cbn [digits2_pos]; [| |by cbn].
  all: rewrite Pos2Z.inj_succ; set (d := Zpos (digits2_pos p)) in *; assert (1 <= d) by (unfold d; lia);
    replace (Z.succ d - 1) with (Z.succ (d - 1)) by lia; rewrite !Z.pow_succ_r by lia; lia.
Qed.

(** ** Shifting right *)

(** [r] or [s] records whether a bit was lost. *)
Definition lost (x : shr_record) : bool := shr_r x || shr_s x.

Lemma shr_1_spec x :
  0 <= shr_m x -> 0 <= shr_m (shr_1 x)
  /\ shr_m x = 2 * shr_m (shr_1 x) + (if shr_r (shr_1 x) then 1 else 0)
  /\ shr_s (shr_1 x) = lost x.
Proof. destruct x as [[|[p|p|]|p] r s]; cbn; intros H; try lia; repeat split; lia. Qed.

(** After [n] steps: the quotient, and a remainder that is zero when nothing was lost. *)
Definition shifted (m n : Z) (x y : shr_record) : Prop :=
  0 <= shr_m y /\ exists r, 0 <= r < 2 ^ n /\ m = shr_m y * 2 ^ n + r /\ (lost y = false <-> lost x = false /\ r = 0).

Lemma shifted_step m n x y : 0 <= n -> shifted m n x y -> shifted m (n + 1) x (shr_1 y).
Proof.
  intros Hn (Hy & r & Hr & Hm & Hl). destruct (shr_1_spec y Hy) as (H0 & H1 & Hs). split; [done|].
  exists ((if shr_r (shr_1 y) then 1 else 0) * 2 ^ n + r). rewrite Z.pow_add_r, Z.pow_1_r by lia.
  split; [destruct (shr_r (shr_1 y)); lia|]. split; [rewrite Hm, H1; destruct (shr_r (shr_1 y)); lia|].
  unfold lost at 1. rewrite Hs, orb_false_iff, Hl. destruct (shr_r (shr_1 y)); split; [by intros [? _]|intros [_ E]; lia|intros (_ & ? & ->); split; [done|lia]|].
  intros [? E]. split_and!; [done..|lia].
Qed.

Lemma iter_shifted m x p : forall n y, 0 <= n -> shifted m n x y -> shifted m (n + Zpos p) x (iter_pos shr_1 p y).
Proof.
  induction p as [p IH|p IH|]; intros n y Hn H; cbn [iter_pos].
  - replace (n + Zpos p~1) with (n + 1 + Zpos p + Zpos p) by lia. apply IH; [lia|]. apply IH; [lia|]. by apply shifted_step.
  - replace (n + Zpos p~0) with (n + Zpos p + Zpos p) by lia. apply IH; [lia|]. by apply IH.
  - by apply shifted_step.
Qed.

(** [shr_fexp] on an exact mantissa. *)
Lemma shr_fexp_spec m e :
  0 <= m ->
  let k := Z.max (fexp 53 1024 (Zdigits2 m + e) - e) 0 in
  let '(y, e') := shr_fexp 53 1024 m e loc_Exact in
  e' = e + k /\ shifted m k (Build_shr_record m false false) y.
Proof.
  intros Hm. unfold shr_fexp, shr. cbn [shr_record_of_loc].
  set (x := Build_shr_record m false false).
  assert (H0 : shifted m 0 x x) by (split; [done|]; exists 0; cbn; split; [lia|]; split; [lia|done]).
  destruct (fexp 53 1024 (Zdigits2 m + e) - e) as [|p|p]; cbn [Z.max]; [by split; [lia|]| |by split; [lia|]].
  split; [lia|]. replace (Z.max (Zpos p) 0) with (0 + Zpos p) by lia. by apply iter_shifted.
Qed.

Lemma round_even_le q l : round_nearest_even q l <= q + (if l is loc_Exact then 0 else 1) /\ q <= round_nearest_even q l.
Proof. destruct l as [|[]]; cbn; [lia|destruct (Z.even q); lia|lia|lia]. Qed.

(** *** The bound *)

Section bound.
Context (u B : Z) (Hu : 0 <= u <= 1074) (HB : 0 <= B < 2 ^ 53).

Lemma exponent_bound n x : 0 < n -> - SCALE <= x -> val n x <= val B (- u) -> x < 53 - u.
Proof using Hu HB.
  intros Hn Hx Hv. assert (SCALE = 4096) by reflexivity. unfold val in Hv. assert (Hlt : 2 ^ (x + SCALE) < 2 ^ (53 - u + SCALE)).
  { replace (53 - u + SCALE) with (53 + (- u + SCALE)) by lia. rewrite (Z.pow_add_r 2 53) by lia.
    assert (0 < 2 ^ (x + SCALE)) by (apply Z.pow_pos_nonneg; lia). assert (0 < 2 ^ (- u + SCALE)) by (apply Z.pow_pos_nonneg; lia). nia. }
  apply Z.pow_lt_mono_r_iff in Hlt; lia.
Qed.

(** The unit in which a number below the bound is rounded divides the bound. *)
Lemma grid_bound m e : 0 < m -> - SCALE <= e -> val m e <= val B (- u) -> fexp 53 1024 (Zdigits2 m + e) <= - u.
Proof using Hu HB.
  intros Hm He H. assert (Hd : 2 ^ (Zdigits2 m - 1) <= m) by (destruct m; [lia|apply digits_bounds|lia]).
  assert (1 <= Zdigits2 m) by (destruct m; cbn; lia).
  assert (Hv : val 1 (e + (Zdigits2 m - 1)) <= val B (- u)).
  { etransitivity; [|exact H]. rewrite val_shift by lia. apply val_mono; lia. }
  apply exponent_bound in Hv; [|lia..]. unfold fexp, emin. lia.
Qed.

(** One shift, with the mantissa rounded to nearest, stays below the bound. *)
Lemma rounded_shift m e :
  0 < m -> - SCALE <= e -> val m e <= val B (- u) ->
  let '(y, e1) := shr_fexp 53 1024 m e loc_Exact in
  let n := round_nearest_even (shr_m y) (loc_of_shr_record y) in
  0 <= shr_m y <= n /\ val n e1 <= val B (- u) /\ Z.max e (-1074) <= e1 <= Z.max e (- u).
Proof using Hu HB.
  intros Hm He H. pose proof (grid_bound m e Hm He H) as Hgrid.
  pose proof (shr_fexp_spec m e ltac:(lia)) as H1. destruct (shr_fexp 53 1024 m e loc_Exact) as [y e1].
  set (k := Z.max (fexp 53 1024 (Zdigits2 m + e) - e) 0) in H1. destruct H1 as (-> & Hq & r & Hr & Hmr & Hlost).
  assert (Hk : 0 <= k) by lia. set (q := shr_m y) in *. cbv zeta. set (n := round_nearest_even q (loc_of_shr_record y)).
  assert (Hek : e + k <= Z.max e (- u)) by (clear -Hgrid; unfold k; lia).
  pose proof (round_even_le q (loc_of_shr_record y)) as [Hup Hlo]. fold n in Hup, Hlo.
  assert (Hmin : -1074 <= e + k) by (unfold k, fexp, emin; lia). split_and!; [done|done| |lia|done].
  destruct (lost y) eqn:El.
  - assert (Hr0 : 0 < r) by (destruct (Z.eq_dec r 0) as [->|]; [|lia]; exfalso; by assert (true = false) by (apply Hlost; done)).
    assert (Hkp : 0 < k) by (destruct (Z.eq_dec k 0) as [E|]; [rewrite E in Hr; cbn in Hr; lia|lia]).
    assert (Hle : e + k <= - u) by (clear -Hgrid Hkp; unfold k in *; lia).
    replace (- u) with (e + k + (- u - (e + k))) in H |- * by lia. rewrite (val_shift B (e + k)) in H |- * by lia.
    assert (q < B * 2 ^ (- u - (e + k))).
    { assert (Hlt : val q (e + k) < val (B * 2 ^ (- u - (e + k))) (e + k)).
      { eapply Z.lt_le_trans; [|exact H]. rewrite val_shift by lia. unfold val. apply Z.mul_lt_mono_pos_r; [apply Z.pow_pos_nonneg; lia|lia]. }
      unfold val in Hlt. apply Z.mul_lt_mono_pos_r in Hlt; [done|apply Z.pow_pos_nonneg; lia]. }
    apply val_mono; [|lia]. destruct (loc_of_shr_record y); lia.
  - destruct (proj1 Hlost eq_refl) as [_ ->].
    assert (El' : loc_of_shr_record y = loc_Exact) by (destruct y as [? [] []]; done).
    unfold n. rewrite El'. cbn [round_nearest_even]. rewrite val_shift by lia. by replace (q * 2 ^ k) with m by lia.
Qed.

(** A float between zero and the bound, with its exponent below another. *)
Definition below (top : Z) (x : f64) : Prop :=
  match x with
  | S754_zero _ => True
  | S754_finite false m e => -1074 <= e <= top /\ val (Zpos m) e <= val B (- u)
  | _ => False
  end.

Lemma round_bound m e :
  0 < m -> - SCALE <= e -> val m e <= val B (- u) -> below (Z.max e (- u)) (binary_round_aux 53 1024 false m e loc_Exact).
Proof using Hu HB.
  intros Hm He H. unfold binary_round_aux. pose proof (rounded_shift m e Hm He H) as H1.
  destruct (shr_fexp 53 1024 m e loc_Exact) as [y e1]. cbv zeta in H1. set (n := round_nearest_even _ _) in *.
  destruct H1 as (Hn & Hnv & He1). destruct (Z.eq_dec n 0) as [->|Hn0].
  { unfold shr_fexp. cbn [Zdigits2 shr_record_of_loc]. unfold shr. destruct (fexp 53 1024 (0 + e1) - e1) as [|p|p]; cbn; try done.
    assert (E : forall q, shr_m (iter_pos shr_1 q (Build_shr_record 0 false false)) = 0); [|by rewrite E].
    intros q. destruct (iter_shifted 0 (Build_shr_record 0 false false) q 0 (Build_shr_record 0 false false)) as (H0 & r & Hr & Hm0 & _);
      [lia|split; [done|]; exists 0; cbn; split_and!; [lia..|done]|].
    assert (0 < 2 ^ (0 + Zpos q)) by (apply Z.pow_pos_nonneg; lia). nia. }
  pose proof (grid_bound n e1 ltac:(lia) ltac:(lia) Hnv) as Hgrid. pose proof (shr_fexp_spec n e1 ltac:(lia)) as H2.
  destruct (shr_fexp 53 1024 n e1 loc_Exact) as [y2 e2]. destruct H2 as (-> & Hm2 & r2 & Hr2 & Hnr & _).
  set (k2 := Z.max (fexp 53 1024 (Zdigits2 n + e1) - e1) 0) in *. assert (Hk2 : 0 <= k2) by lia.
  assert (He2 : e1 + k2 <= Z.max e (- u)) by (clear -Hgrid He1; unfold k2; lia).
  assert (Hfin : val (shr_m y2) (e1 + k2) <= val B (- u)).
  { etransitivity; [|exact Hnv]. rewrite val_shift by lia. apply val_mono; lia. }
  destruct (shr_m y2) as [|p|p]; [done| |lia].
  assert (e1 + k2 < 53 - u) by (eapply exponent_bound; [| |exact Hfin]; lia).
  rewrite (proj2 (Z.leb_le _ _)) by lia. cbn. lia.
Qed.
End bound.

(** ** Integers *)

Lemma iter_xO m d : Zpos (Pos.iter xO m d) = Zpos m * 2 ^ Zpos d.
Proof.
  induction d as [|d IH] using Pos.peano_ind; [cbn; lia|]. rewrite Pos.iter_succ, Pos2Z.inj_succ, Z.pow_succ_r by lia.
  rewrite Pos2Z.inj_xO, IH. lia.
Qed.

(** Normalising keeps a number below the bound. *)
Lemma normalize_below u B z e s :
  0 <= u <= 1074 -> 0 <= B < 2 ^ 53 -> 0 <= z -> -1074 <= e -> val z e <= val B (- u) ->
  below u B (Z.max e (- u)) (binary_normalize 53 1024 z e s).
Proof.
  intros Hu HB Hz He H. unfold binary_normalize. assert (Hs : SCALE = 4096) by reflexivity. destruct z as [|p|p]; [done| |lia].
  unfold binary_round, shl_align. set (t := fexp 53 1024 (Zpos (digits2_pos p) + e)).
  assert (Ht : t = Z.max (Zpos (digits2_pos p) + e - 53) (-1074)) by reflexivity.
  destruct (t - e) as [|d|d] eqn:Ed; [by apply round_bound; [..|lia|]|by apply round_bound; [..|lia|]|].
  assert (Hb : below u B (Z.max t (- u)) (binary_round_aux 53 1024 false (Zpos (Pos.iter xO p d)) t loc_Exact)).
  { apply round_bound; [done|done|lia|lia|]. rewrite iter_xO. rewrite <- val_shift by lia. by replace (t + Zpos d) with e by lia. }
  unfold below in *. destruct (binary_round_aux _ _ _ _ _ _) as [| | |[] ? ?]; try done. lia.
Qed.

(** The conversion of an integer below [2^53] does not exceed it. *)
Lemma of_Z_below n : 0 <= n < 2 ^ 53 -> below 0 n 0 (f64_of_Z n).
Proof. intros Hn. apply (normalize_below 0 n n 0); [lia|done|lia|lia|apply Z.le_refl]. Qed.

Lemma as_uint_below w u B top x : 0 <= u -> 0 <= w -> - SCALE <= - u -> below u B top x -> as_uint w x * 2 ^ u <= Z.max B 0.
Proof.
  intros Hu Hw Hs H. assert (HS : SCALE = 4096) by reflexivity. destruct x as [s|s| |[] m e]; cbn [below as_uint] in H |- *; try done; [lia..|]. destruct H as [He H].
  assert (0 < 2 ^ u) by (apply Z.pow_pos_nonneg; lia).
  set (v := if 0 <=? e then _ else _). assert (Hv : v * 2 ^ u <= B); [|assert (Z.min v (umax w) * 2 ^ u <= v * 2 ^ u) by (apply Z.mul_le_mono_nonneg_r; lia); lia].
  unfold v, val in *. destruct (Z.leb_spec 0 e).
  - replace (e + SCALE) with (e + u + (- u + SCALE)) in H by lia. rewrite (Z.pow_add_r 2 (e + u)), Z.mul_assoc in H by lia.
    apply Z.mul_le_mono_pos_r in H; [|apply Z.pow_pos_nonneg; lia]. rewrite Z.pow_add_r in H by lia. lia.
  - pose proof (Z.mul_div_le (Zpos m) (2 ^ (- e)) ltac:(apply Z.pow_pos_nonneg; lia)) as Hd.
    assert (0 < 2 ^ (- e)) by (apply Z.pow_pos_nonneg; lia). set (q := Zpos m / 2 ^ (- e)) in *.
    assert (Hq : val q 0 <= val (Zpos m) e).
    { replace 0 with (e + - e) by lia. rewrite val_shift by lia. apply val_mono; lia. }
    unfold val in Hq. assert (Hqb : q * 2 ^ (0 + SCALE) <= B * 2 ^ (- u + SCALE)) by lia.
    replace (0 + SCALE) with (u + (- u + SCALE)) in Hqb by lia. rewrite (Z.pow_add_r 2 u), Z.mul_assoc in Hqb by lia.
    by apply Z.mul_le_mono_pos_r in Hqb; [|apply Z.pow_pos_nonneg; lia].
Qed.

(** ** Products *)

(** A number of the type, as every [f64] is. *)
Definition fvalid (x : f64) : Prop := valid_binary 53 1024 x = true.

Lemma bounded_spec m e : bounded 53 1024 m e = true -> -1074 <= e <= 971 /\ Zpos m < 2 ^ 53 /\ (-1074 < e -> 2 ^ 52 <= Zpos m).
Proof.
  unfold bounded, canonical_mantissa. intros [Hc He]%andb_true_iff. apply Z.eqb_eq in Hc. apply Z.leb_le in He.
  unfold fexp, emin in Hc. pose proof (digits_bounds m) as Hd. set (d := Zpos (digits2_pos m)) in *. split; [lia|]. split.
  - eapply Z.lt_le_trans; [apply Hd|]. apply Z.pow_le_mono_r; lia.
  - intros. replace 52 with (d - 1) by lia. apply Hd.
Qed.

(** The comparison of floats is the comparison of their values. *)
Lemma fle_val m e m' e' :
  bounded 53 1024 m e = true -> bounded 53 1024 m' e' = true -> fle (S754_finite false m e) (S754_finite false m' e') = true ->
  val (Zpos m) e <= val (Zpos m') e' /\ e <= e'.
Proof.
  intros (He & Hm & _)%bounded_spec (He' & Hm' & Hn')%bounded_spec. assert (SCALE = 4096) by reflexivity.
  unfold fle, SFleb. cbn [SFcompare]. destruct (Z.compare_spec e e') as [->|Hlt|]; [| |done].
  - change (Pos.compare_cont Eq m m') with (Pos.compare m m').
    destruct (Pos.compare_spec m m') as [->|Hl|Hl]; intros; try done; (split; [apply val_mono|]; lia).
  - intros _. specialize (Hn' ltac:(lia)). split; [|lia]. replace e' with (e + (e' - e)) by lia. rewrite val_shift by lia. apply val_mono; [|lia].
    assert (2 ^ 1 <= 2 ^ (e' - e)) by (apply Z.pow_le_mono_r; lia). change (2 ^ 1) with 2 in *. change (2 ^ 53) with (2 * 2 ^ 52) in Hm. nia.
Qed.

(** [x * c] for [0 <= x <= lim], where [lim * c] is at most [B * 2^-u]. *)
Lemma mul_below u B x ml el mc ec :
  0 <= u <= 1074 -> 0 <= B < 2 ^ 53 -> fvalid x -> bounded 53 1024 ml el = true -> -2000 <= ec <= 0 ->
  fle (f64_of_Z 0) x = true -> fle x (S754_finite false ml el) = true ->
  val (Zpos (ml * mc)) (el + ec) <= val B (- u) ->
  below u B (Z.max (el + ec) (- u)) (fmul x (S754_finite false mc ec)).
Proof.
  intros Hu HB Hx Hl Hec H0 H1 Hv. assert (Hs : SCALE = 4096) by reflexivity.
  destruct x as [s|[]| |[] m e]; try done. cbn [fvalid valid_binary] in Hx. apply bounded_spec in Hx as Hb. apply bounded_spec in Hl as Hbl.
  destruct (fle_val _ _ _ _ Hx Hl H1) as [Hle Hee]. unfold fmul. cbn [SFmul xorb].
  assert (Hprod : val (Zpos (m * mc)) (e + ec) <= val B (- u)).
  { etransitivity; [|exact Hv]. assert (Hsc : forall a x, -1074 <= x -> val (Zpos (a * mc)) (x + ec) * 2 ^ (- ec) = Zpos mc * val (Zpos a) x).
    { intros a x Hx'. unfold val. rewrite <- Z.mul_assoc, <- Z.pow_add_r by lia. replace (x + ec + SCALE + - ec) with (x + SCALE) by lia. lia. }
    apply (Z.mul_le_mono_pos_r _ _ (2 ^ (- ec))); [apply Z.pow_pos_nonneg; lia|]. rewrite !Hsc by lia. apply Z.mul_le_mono_nonneg_l; lia. }
  pose proof (round_bound u B Hu HB (Zpos (m * mc)) (e + ec) ltac:(lia) ltac:(lia) Hprod) as H.
  destruct (binary_round_aux _ _ _ _ _ _) as [|[]| |[] ? ?]; try done. destruct H as [[? ?] ?]. split; [|done]. lia.
Qed.

(** Two positive factors, each below a bound. *)
Lemma mul_bounds u B u' B' m e m' e' :
  0 <= u -> 0 <= u' -> 0 <= u + u' <= 1074 -> 0 <= B -> 0 <= B * B' < 2 ^ 53 -> -1074 <= e -> -1074 <= e' ->
  val (Zpos m) e <= val B (- u) -> val (Zpos m') e' <= val B' (- u') ->
  below (u + u') (B * B') (Z.max (e + e') (- (u + u'))) (fmul (S754_finite false m e) (S754_finite false m' e')).
Proof.
  intros Hu Hu' Huu HB HBB He He' H H'. assert (Hs : SCALE = 4096) by reflexivity. unfold fmul. cbn [SFmul xorb].
  apply round_bound; [done|done|lia|lia|]. unfold val in *.
  assert (E : forall a x b y, -1074 <= x -> -1074 <= y -> a * b * 2 ^ (x + y + SCALE) * 2 ^ SCALE = a * 2 ^ (x + SCALE) * (b * 2 ^ (y + SCALE))).
  { intros a x b y Hx Hy. rewrite <- Z.mul_assoc, <- Z.pow_add_r by lia. replace (x + y + SCALE + SCALE) with (x + SCALE + (y + SCALE)) by lia.
    rewrite Z.pow_add_r by lia. ring. }
  apply (Z.mul_le_mono_pos_r _ _ (2 ^ SCALE)); [apply Z.pow_pos_nonneg; lia|].
  rewrite Pos2Z.inj_mul, E by lia. replace (- (u + u')) with (- u + - u') by lia. rewrite E by lia.
  apply Z.mul_le_mono_nonneg; try done; apply Z.mul_nonneg_nonneg; try lia; apply Z.pow_nonneg; lia.
Qed.

(** [1.0 - f] for a fraction [f]. *)
Lemma one_minus_below f : fvalid f -> in01 f -> below 0 1 0 (fsub (f64_of_Z 1) f).
Proof.
  intros Hv [H0 H1]. assert (Hs : SCALE = 4096) by reflexivity. change (f64_of_Z 1) with (S754_finite false (2 ^ 52) (-52)) in *.
  destruct f as [s|[]| |[] m e]; try done.
  cbn [fvalid valid_binary] in Hv. apply bounded_spec in Hv as Hb. destruct (fle_val m e (2 ^ 52) (-52) Hv eq_refl H1) as [Hle Hee].
  unfold fsub. cbn [SFsub]. rewrite (Z.min_r _ _ Hee). cbn [cond_Zopp].
  assert (Ea : Zpos (fst (shl_align (2 ^ 52) (-52) e)) = 2 ^ (- e)).
  { unfold shl_align. destruct (e - -52) as [|d|d] eqn:Ed; [replace e with (-52) by lia; reflexivity|lia|]. cbn [fst].
 rewrite iter_xO. replace (- e) with (52 + Zpos d) by lia. rewrite Z.pow_add_r by lia. reflexivity. }
  assert (Eb : fst (shl_align m e e) = m) by (unfold shl_align; by rewrite Z.sub_diag). rewrite Ea, Eb.
  replace 0 with (Z.max e (- 0)) at 2 by lia. apply normalize_below; [lia|lia| |lia|].
  - assert (Hz : Zpos m * 2 ^ (e + SCALE) <= 2 ^ (- e) * 2 ^ (e + SCALE)); [|apply Z.mul_le_mono_pos_r in Hz; [lia|apply Z.pow_pos_nonneg; lia]].
    unfold val in Hle. etransitivity; [exact Hle|]. rewrite <- Z.pow_add_r by lia. change (Zpos (2 ^ 52)) with (2 ^ 52). rewrite <- Z.pow_add_r by lia.
    apply Z.pow_le_mono_r; lia.
  - unfold val. etransitivity; [apply Z.mul_le_mono_nonneg_r with (m := 2 ^ (- e)); [apply Z.pow_nonneg; lia|lia]|].
    rewrite <- Z.pow_add_r by lia. rewrite Z.mul_1_l. apply Z.pow_le_mono_r; lia.
Qed.

(** *** Shares of an integer *)

Lemma floor_below B top x : 0 <= B < 2 ^ 53 -> below 0 B top x -> as_uint 64 (ffloor x) <= B.
Proof.
  intros HB H. assert (Hs : SCALE = 4096) by reflexivity. destruct x as [s|s| |[] m e]; try done; [cbn; lia|].
  unfold ffloor, fround_with. destruct (Z.leb_spec 0 e) as [|Hneg].
  - pose proof (as_uint_below 64 0 B top (S754_finite false m e) ltac:(lia) ltac:(lia) ltac:(lia) H). lia.
  - destruct H as [He H]. assert (Hd : 0 < 2 ^ (- e)) by (apply Z.pow_pos_nonneg; lia). set (q := Zpos m / 2 ^ (- e)).
    assert (Hq : 0 <= q <= B).
    { split; [apply Z.div_pos; lia|]. unfold val in H. apply Z.div_le_upper_bound; [done|].
      apply (Z.mul_le_mono_pos_r _ _ (2 ^ (e + SCALE))); [apply Z.pow_pos_nonneg; lia|]. etransitivity; [exact H|].
      rewrite (Z.mul_comm (2 ^ (- e))), <- Z.mul_assoc, <- Z.pow_add_r by lia. apply Z.eq_le_incl. f_equal. f_equal. lia. }
    destruct (q =? 0); [cbn; lia|].
    pose proof (as_uint_below 64 0 q 0 (f64_of_Z q) ltac:(lia) ltac:(lia) ltac:(lia) (of_Z_below q ltac:(lia))). lia.
Qed.

(** A factor of at most one, by its value. *)
Lemma times_below n x top :
  0 <= n < 2 ^ 53 -> below 0 1 top x -> exists t, below 0 n t (fmul (f64_of_Z n) x).
Proof.
  intros Hn Hx. pose proof (of_Z_below n Hn) as Hz.
  destruct (f64_of_Z n) as [s|s| |[] m e] eqn:En; try done.
  - exists 0. destruct x as [s'|s'| |[] m' e']; done.
  - destruct x as [s'|s'| |[] m' e']; try done; [by exists 0|]. destruct Hz as [Hz1 Hz2]. destruct Hx as [Hx1 Hx2].
    eexists. replace n with (n * 1) by lia. apply (mul_bounds 0 n 0 1); lia || done.
Qed.

(** A fraction of an integer is at most the integer. *)
Lemma fraction_below x : fvalid x -> in01 x -> exists top, below 0 1 top x.
Proof.
  intros Hv [H0 H1]. destruct x as [s|[]| |[] m e]; try done; [by exists 0|]. cbn [fvalid valid_binary] in Hv.
  change (f64_of_Z 1) with (S754_finite false (2 ^ 52) (-52)) in H1. destruct (fle_val m e (2 ^ 52) (-52) Hv eq_refl H1) as [Hle Hee].
  apply bounded_spec in Hv. exists 0. cbn [below]. split; [lia|]. etransitivity; [exact Hle|]. vm_compute. congruence.
Qed.

Lemma share_of_integer n x : 0 <= n < 2 ^ 53 -> fvalid x -> in01 x -> as_uint 64 (fmul (f64_of_Z n) x) <= n.
Proof.
  intros Hn Hv Hx. destruct (fraction_below x Hv Hx) as [top Hb]. destruct (times_below n x top Hn Hb) as [t Ht].
  pose proof (as_uint_below 64 0 n t _ ltac:(lia) ltac:(lia) ltac:(cbv; congruence) Ht). lia.
Qed.

Lemma rest_of_integer n x : 0 <= n < 2 ^ 53 -> fvalid x -> in01 x -> as_uint 64 (ffloor (fmul (f64_of_Z n) (fsub (f64_of_Z 1) x))) <= n.
Proof.
  intros Hn Hv Hx. destruct (times_below n _ _ Hn (one_minus_below x Hv Hx)) as [t Ht]. by eapply floor_below.
Qed.

(** ** Basis points *)

(** [(x * 10_000.0).round().clamp(0.0, 65_535.0) as u16] *)
Definition basis_points (x : f64) : Z := as_uint 16 (fclamp (fround (fmul x (f64_of_Z 10000))) (f64_of_Z 0) (f64_of_Z 65535)).

Definition clamped_points (y : f64) : Z := as_uint 16 (fclamp y (f64_of_Z 0) (f64_of_Z 65535)).

Lemma small_points n : 0 <= n <= 10000 -> clamped_points (f64_of_Z n) = n.
Proof.
  assert (H : forallb (fun k => clamped_points (f64_of_Z k) =? k) (seqZ 0 10001) = true) by (vm_compute; reflexivity).
  intros Hn. rewrite forallb_forall in H. apply Z.eqb_eq, H, list_elem_of_In, elem_of_seqZ. lia.
Qed.

Lemma points_bound u B top y N :
  0 <= u <= 1074 -> 0 <= N <= 10000 -> top < 0 -> 2 * B < (2 * N + 1) * 2 ^ u -> below u B top y -> clamped_points (fround y) <= N.
Proof.
  intros Hu HN Ht HB H. assert (Hs : SCALE = 4096) by reflexivity. destruct y as [s|s| |[] m e]; cbn [below] in H; try done.
  - replace (clamped_points (fround (S754_zero s))) with 0; [lia|]. by destruct s; vm_compute.
  - destruct H as [He H]. unfold fround, fround_with. rewrite (proj2 (Z.leb_gt _ _)) by lia.
    set (d := 2 ^ (- e)). assert (Hd : 0 < d) by (apply Z.pow_pos_nonneg; lia). assert (H2u : 0 < 2 ^ u) by (apply Z.pow_pos_nonneg; lia).
    assert (Hmd : Zpos m * 2 ^ u <= B * d).
    { apply (Z.mul_le_mono_pos_r _ _ (2 ^ (e + SCALE) * 2 ^ (- u + SCALE))); [apply Z.mul_pos_pos; apply Z.pow_pos_nonneg; lia|].
      unfold val in H. assert (E1 : 2 ^ u * 2 ^ (- u + SCALE) = 2 ^ SCALE) by (rewrite <- Z.pow_add_r by lia; f_equal; lia).
      assert (E2 : d * 2 ^ (e + SCALE) = 2 ^ SCALE) by (unfold d; rewrite <- Z.pow_add_r by lia; f_equal; lia).
      replace (Zpos m * 2 ^ u * (2 ^ (e + SCALE) * 2 ^ (- u + SCALE))) with (Zpos m * 2 ^ (e + SCALE) * (2 ^ u * 2 ^ (- u + SCALE))) by ring.
      replace (B * d * (2 ^ (e + SCALE) * 2 ^ (- u + SCALE))) with (B * 2 ^ (- u + SCALE) * (d * 2 ^ (e + SCALE))) by ring.
      rewrite E1, E2. apply Z.mul_le_mono_nonneg_r; [apply Z.pow_nonneg; lia|done]. }
    assert (Hn : (2 * Zpos m + d) / (2 * d) <= N).
    { apply Z.lt_succ_r. apply Z.div_lt_upper_bound; [lia|]. assert (2 * Zpos m < (2 * N + 1) * d); [|replace (2 * d * Z.succ N) with ((2 * N + 1) * d + d) by (unfold Z.succ; ring); lia].
      apply (Z.mul_lt_mono_pos_r (2 ^ u)); [done|]. nia. }
    assert (0 <= (2 * Zpos m + d) / (2 * d)) by (apply Z.div_pos; lia).
    destruct (Z.eqb_spec ((2 * Zpos m + d) / (2 * d)) 0); [|rewrite small_points; lia].
    replace (clamped_points (S754_zero false)) with 0; [lia|by vm_compute].
Qed.

(** A share of the whole is at most 10000 basis points, one of a tenth at most 1000: the
    float [0.1] is a little more than a tenth, but its product rounds down. *)
Lemma share_points x : fvalid x -> in01 x -> basis_points x <= 10000.
Proof.
  intros Hx [H0 H1]. apply (points_bound 39 (10000 * 2 ^ 39) (-39) _ 10000); [lia..|].
  change (f64_of_Z 10000) with (S754_finite false (10000 * 2 ^ 39) (-39)). change (f64_of_Z 1) with (S754_finite false (2 ^ 52) (-52)) in H1.
  apply (mul_below 39 (10000 * 2 ^ 39) x (2 ^ 52) (-52) (10000 * 2 ^ 39) (-39)); [lia|lia|done|reflexivity|lia|done|done|].
  vm_compute. congruence.
Qed.

Lemma tenth_points x : fvalid x -> fle (f64_of_Z 0) x = true -> fle x (lit 1 10) = true -> basis_points x <= 1000.
Proof.
  intros Hx H0 H1. apply (points_bound 43 (1000 * 2 ^ 43 + 1) (-43) _ 1000); [lia..|].
  change (f64_of_Z 10000) with (S754_finite false (10000 * 2 ^ 39) (-39)).
  change (lit 1 10) with (S754_finite false 7205759403792794 (-56)) in H1.
  apply (mul_below 43 (1000 * 2 ^ 43 + 1) x 7205759403792794 (-56) (10000 * 2 ^ 39) (-39)); [lia|lia|done|reflexivity|lia|done|done|].
  vm_compute. congruence.
Qed.
