(* ===== verification/Wiring.v ===== *)
(** * From [economics] to the money rail (crates/settlement/src/wiring.rs)

    Which settlement, anchor, parameter reader and stake registry a node is given for a
    configuration, and the on-chain parameters derived from it.  Files are read through a
    parameter, the compiled escrow contract is a build artifact (a parameter too), and the
    [ton-live] feature is a flag.  The theorems: a rail that can move funds is built only
    when asked for and never on unconfirmed mainnet, with the very rates of the parameters
    published on chain; and the parameters derived from a validated configuration are
    within their widths and pass every on-chain check, but for the one on the sum of the
    slash shares, which the rounding to basis points can break, and the bound on the
    ranking weights, which nothing off chain checks. *)

From S2P Require Import Prelude Bytes F64 Crypto Text Proto Merkle Settlement Escrow Cell Boc TonAbi EscrowAbi TonRail Wallet ConfigData Config Rounding.
From Stdlib Require Import ZifyBool.
#[local] Open Scope duckton_scope.

(** ** Secrets, addresses and the endpoint *)

Record TonWiring := mkWiring {
  w_rpc_endpoint : bytes;
  w_api_key : option bytes;
  w_network : bytes;
  w_stake_vault : option WalletAddress;
  w_job_escrow : option WalletAddress;
  w_record_anchor : option WalletAddress;
  w_global_params : option WalletAddress;
}.

Definition mainnet_unconfirmed : SettleError :=
  Backend (str "mainnet is selected but NOT confirmed " ++ [Byte.xe2; Byte.x80; Byte.x94]
           ++ str " real TON is at stake. Re-run `CALL p2p_economics(network => 'mainnet', confirm => true)` (or set economics.mainnet_confirmed = true) before any paid/on-chain action.").
(** [econ.guard_mainnet().map_err(SettleError::Backend)] *)
Definition mainnet_gate (e : EconomicsConfig) : result unit SettleError :=
  match guard_mainnet e with Ok _ => Ok tt | Err _ => Err mainnet_unconfirmed end.

Definition parse_addr (s : option bytes) : option WalletAddress :=
  v ← s; match from_any_str v with Ok a => Some a | Err _ => None end.

(** [ToncenterRpc]: the endpoint without its trailing slashes, the API key and the wallet
    derived from the mnemonic. *)
Record ToncenterRpc {C : Crypto} := mkToncenter {
  tc_rpc : bytes; tc_api_key : option bytes; tc_wallet : WalletV5R1; tc_key : WalletKey;
}.
Arguments ToncenterRpc : clear implicits.

(** [s.trim_end_matches('/')] *)
Fixpoint trim_slashes (s : bytes) : bytes :=
  match s with
  | [] => []
  | c :: s' => match trim_slashes s' with
               | [] => if decide (c = Byte.x2f) then [] else [c]
               | r => c :: r
               end
  end.

Definition global_id (network : bytes) : Z :=
  if bool_decide (to_ascii_lowercase network = str "mainnet") then GLOBAL_ID_MAINNET else GLOBAL_ID_TESTNET.
Definition toncenter_new {C : Crypto} {D : Kdf C} (endpoint : bytes) (api_key : option bytes) (network mnemonic : bytes)
  : result (ToncenterRpc C) SettleError :=
  key <-? from_mnemonic mnemonic ;;
  Ok (mkToncenter C (trim_slashes endpoint) api_key (v5_new (wk_public key) (global_id network)) key).
Definition wallet_address {C : Crypto} (r : ToncenterRpc C) : WalletAddress := v5_address (tc_wallet r).

(** ** The collaborators *)

(** [InMemoryStakeRegistry]: its thresholds and cap; the stakes start empty. *)
Record StakeRegistry := mkRegistry { rg_config : StakeConfig; rg_cap : Amount; rg_stakes : registry }.

Definition nanoton (whole : Z) : Amount := whole * NANOTON_PER_TON.
Definition registry_from_config (s : StakeEconomics) : StakeRegistry :=
  mkRegistry (mkStakeConfig (nanoton (stk_min_stake s)) (nanoton (stk_min_stake_internal s)) (nanoton (stk_min_stake_sensitive s)))
    (nanoton (stk_stake_cap s)) ∅.

(** [dyn Settlement], [dyn RecordAnchor] and [dyn ParamsSource] as they are built here. *)
Inductive SettlementImpl {C : Crypto} := NoopRail | MockRail | TonRailImpl (rpc : ToncenterRpc C) (t : TonSettlement).
Inductive AnchorImpl {C : Crypto} := NoopAnchor | MemoryAnchor | TonAnchorImpl (rpc : ToncenterRpc C) (anchor : WalletAddress).
Arguments SettlementImpl : clear implicits. Arguments AnchorImpl : clear implicits.

Record SettlementStack {C : Crypto} := mkStack {
  st_settlement : SettlementImpl C;
  st_record_anchor : AnchorImpl C;
  st_params_source : option (ToncenterRpc C * WalletAddress);
  st_stake_registry : option StakeRegistry;
  st_onchain : bool;
}.
Arguments SettlementStack : clear implicits.

Section stack.
Context {C : Crypto} {D : Kdf C}.
(** [std::fs::read_to_string], an error as its text; the embedded contract; the feature. *)
Context (read_to_string : bytes -> result bytes bytes) (embedded_job_escrow_code : result Cell SettleError) (ton_live : bool).

Definition unreadable (what path e : bytes) : SettleError :=
  Backend (str "cannot read " ++ what ++ str " " ++ path ++ str ": " ++ e).
Definition read_file (what path : bytes) : result bytes SettleError :=
  match read_to_string path with Ok raw => Ok (trim raw) | Err e => Err (unreadable what path e) end.

Definition read_optional_secret (path : option bytes) : result (option bytes) SettleError :=
  match path with
  | None => Ok None
  | Some p =>
      if blank p then Ok None
      else key <-? read_file (str "api_key_file") p ;; Ok (if bool_decide (key = []) then None else Some key)
  end.

Definition resolve_ton_wiring (econ : EconomicsConfig) : result TonWiring SettleError :=
  _ <-? mainnet_gate econ ;;
  let settings := active_settings econ in
  api_key <-? read_optional_secret (ns_api_key_file settings) ;;
  let contracts := ns_contracts settings in
  Ok (mkWiring (resolved_rpc econ) api_key (network_as_str (ec_network econ)) (parse_addr (con_stake_vault contracts))
        (parse_addr (con_job_escrow contracts)) (parse_addr (con_record_anchor contracts)) (parse_addr (con_global_params contracts))).

Definition noop_stack : SettlementStack C := mkStack C NoopRail NoopAnchor None None false.

Definition no_mnemonic : SettleError := Backend (str "on-chain rail requires economics.<net>.wallet.mnemonic_file (a 0600 file)").
Definition mnemonic_file (econ : EconomicsConfig) : option bytes :=
  p ← wal_mnemonic_file (ns_wallet (active_settings econ)); if blank p then None else Some p.

Definition GAS : Amount := 50000000.
Definition escrow_window (econ : EconomicsConfig) : Z := Z.max (Z.min (sl_challenge_window_secs (ec_slashing econ)) (umax 32)) 600.

(** The rail of a wallet: the placeholder terms bind nothing. *)
Definition ton_settlement (econ : EconomicsConfig) (wallet : WalletAddress) (escrow_code : Cell) : TonSettlement :=
  let local_override := parse_addr (ec_fee_recipient econ) in
  let fee := basis_points (fee_platform_fee_pct (ec_fees econ)) in
  let commission := basis_points (fee_participation_commission_frac (ec_fees econ)) in
  let terms := build_escrow_terms (default wallet local_override) (replicate 32 Byte.x00) (replicate 32 Byte.x00) 0 fee commission in
  let t := with_escrow_code escrow_code terms wallet in
  let t := with_participation_commission_bps (with_platform_fee_bps (with_requester t wallet) fee) commission in
  let t := with_escrow_window (with_settle_gas (with_deploy_gas_buffer t GAS) GAS) (escrow_window econ) in
  match local_override with Some l => with_treasury t l | None => t end.

(** Each consumer gets a transport of its own, all built from the same arguments. *)
Definition live_onchain_stack (econ : EconomicsConfig) : result (SettlementStack C) SettleError :=
  wiring <-? resolve_ton_wiring econ ;;
  path <-? ok_or (mnemonic_file econ) no_mnemonic ;;
  mnemonic <-? read_file (str "mnemonic_file") path ;;
  let mk_rpc := toncenter_new (w_rpc_endpoint wiring) (w_api_key wiring) (w_network wiring) mnemonic in
  rpc <-? mk_rpc ;;
  let wallet := wallet_address rpc in
  escrow_code <-? embedded_job_escrow_code ;;
  rail_rpc <-? mk_rpc ;;
  let settlement := ton_settlement econ wallet escrow_code in
  anchor <-? match w_record_anchor wiring with
             | Some a => rpc <-? mk_rpc ;; Ok (TonAnchorImpl rpc a)
             | None => Ok NoopAnchor
             end ;;
  params <-? match w_global_params wiring with
             | Some a => rpc <-? mk_rpc ;; Ok (Some (rpc, a))
             | None => Ok None
             end ;;
  Ok (mkStack C (TonRailImpl rail_rpc settlement) anchor params None true).

Definition resolve_onchain_stack (econ : EconomicsConfig) : result (SettlementStack C) SettleError :=
  if ton_live then live_onchain_stack econ else Ok noop_stack.

Definition resolve_settlement_stack (econ : EconomicsConfig) : result (SettlementStack C) SettleError :=
  _ <-? mainnet_gate econ ;;
  if negb (ec_enabled econ) then Ok noop_stack
  else match ec_settlement econ with
       | RailNoop => Ok noop_stack
       | RailMock => Ok (mkStack C MockRail MemoryAnchor None (Some (registry_from_config (ec_stake econ))) true)
       | RailOnchain | RailChannel => resolve_onchain_stack econ
       end.
End stack.

(** ** The on-chain parameters *)

Definition u8_of (n : Z) : Z := Z.min n (umax 8).
Definition u32_of (n : Z) : Z := Z.min n (umax 32).

Definition from_config_parts (econ : EconomicsConfig) (sched : SchedulerConfig) : GlobalParams :=
  let s := ec_slashing econ in
  let f := ec_fees econ in
  let st := ec_stake econ in
  let sel := ec_selection econ in
  let r := ec_ranking econ in
  {| platform_fee_bps := basis_points (fee_platform_fee_pct f);
     surcharge_bps := basis_points (fee_verification_surcharge_pct f);
     participation_commission_bps := basis_points (fee_participation_commission_frac f);
     slash_wrong_bps := basis_points (sl_slash_wrong_result_pct s);
     slash_cheat_bps := basis_points (sl_slash_cheat_pct s);
     slash_downtime_bps := basis_points (sl_slash_downtime_pct s);
     slash_equivocation_bps := basis_points (sl_slash_equivocation_pct s);
     split_challenger_bps := basis_points (sl_slash_to_challenger s);
     split_redundancy_bps := basis_points (sl_slash_to_redundancy s);
     split_burn_bps := basis_points (sl_slash_to_burn s);
     split_treasury_bps := basis_points (sl_slash_to_treasury s);
     min_stake := nanoton (stk_min_stake st);
     min_stake_internal := nanoton (stk_min_stake_internal st);
     min_stake_sensitive := nanoton (stk_min_stake_sensitive st);
     stake_cap := nanoton (stk_stake_cap st);
     unbonding_secs := u32_of (stk_unbonding_secs st);
     challenge_window_secs := u32_of (sl_challenge_window_secs s);
     n_public := u8_of (sel_n_public sel);
     n_default := u8_of (sel_n_default sel);
     n_max := u8_of (sel_n_max sel);
     quorum := u8_of (sel_checksum_min sel);
     checksum_min := u8_of (sel_checksum_min sel);
     w_quality_bps := basis_points (rk_w_quality r);
     w_stake_bps := basis_points (rk_w_stake r);
     w_price_bps := basis_points (rk_w_price r);
     slash_failed_commitment_bps := basis_points (sl_slash_failed_commitment_pct s);
     attempt_deadline_ms := u32_of (sch_attempt_deadline_ms sched);
     progress_interval_ms := u32_of (Z.max (sch_progress_interval_ms sched) 1);
     progress_stall_mult := u8_of (Z.max (sch_progress_stall_multiplier sched) 1) |}.

Definition from_economics (econ : EconomicsConfig) : GlobalParams := from_config_parts econ default_SchedulerConfig.

(** ** The derived parameters are the ones the contract accepts *)

(** The fields as Rust holds them: unsigned 64-bit (32-bit for the multiplier) integers
    and binary64 numbers. *)
Record econ_widths (econ : EconomicsConfig) (sched : SchedulerConfig) : Prop := {
  ew_stakes : Forall (in_u 64) [stk_min_stake (ec_stake econ); stk_min_stake_internal (ec_stake econ);
                stk_min_stake_sensitive (ec_stake econ); stk_stake_cap (ec_stake econ)];
  ew_times : Forall (in_u 64) [stk_unbonding_secs (ec_stake econ); sl_challenge_window_secs (ec_slashing econ);
               sch_attempt_deadline_ms sched; sch_progress_interval_ms sched; sch_progress_stall_multiplier sched];
  ew_replicas : Forall (in_u 64) [sel_n_public (ec_selection econ); sel_n_default (ec_selection econ);
                  sel_n_max (ec_selection econ); sel_checksum_min (ec_selection econ)];
  ew_floats : Forall fvalid (fee_participation_commission_frac (ec_fees econ) :: economic_fractions econ);
}.

Lemma points_u16 x : in_u 16 (basis_points x).
Proof.
  unfold in_u, basis_points. pose proof (as_uint_range 16 (fclamp (fround (fmul x (f64_of_Z 10000))) (f64_of_Z 0) (f64_of_Z 65535)) ltac:(lia)).
  unfold umax in *. lia.
Qed.

Lemma split_checked p :
  0 <= participation_commission_bps p <= 1000 -> min_stake p <= min_stake_internal p <= min_stake_sensitive p ->
  min_stake p <= stake_cap p -> challenge_window_secs p <= unbonding_secs p ->
  1 <= checksum_min p <= n_public p -> n_public p <= n_default p <= n_max p -> 1 <= quorum p <= n_default p ->
  slash_failed_commitment_bps p <= 10000 -> 1 <= progress_interval_ms p -> 1 <= progress_stall_mult p ->
  let split := split_challenger_bps p + split_redundancy_bps p + split_burn_bps p + split_treasury_bps p in
  validate_params p = if split =? 10000 then Ok tt else Err (SplitSum split).
Proof.
  intros. unfold validate_params. fold split. destruct (split =? 10000); [|done]. cbn [negb].
  repeat (rewrite (proj2 (Z.ltb_ge _ _)) by lia; cbn [orb negb andb]).
  rewrite !(proj2 (Z.leb_le _ _)) by lia. cbn [orb negb andb].
  by repeat (rewrite (proj2 (Z.ltb_ge _ _)) by lia; cbn [orb negb andb]).
Qed.

Lemma selection_ok e :
  validate_payment e = Ok tt ->
  1 <= sel_checksum_min (ec_selection e) <= sel_n_public (ec_selection e)
  /\ sel_n_public (ec_selection e) <= sel_n_default (ec_selection e) <= sel_n_max (ec_selection e).
Proof. intros H. unfold validate_payment in H. checks_in H. destruct_and!. lia. Qed.

Lemma cap_ok e : validate_slashing e = Ok tt -> stk_min_stake (ec_stake e) <= stk_stake_cap (ec_stake e).
Proof. intros H. unfold validate_slashing in H. checks_in H. destruct_and!. lia. Qed.

Lemma commission_ok f :
  validate_fees f = Ok tt ->
  fle (f64_of_Z 0) (fee_participation_commission_frac f) = true /\ fle (fee_participation_commission_frac f) (lit 1 10) = true.
Proof. intros H. unfold validate_fees in H. checks_in H. destruct H as (_ & _ & H & _). by apply andb_true_iff in H. Qed.

Lemma derived_wf econ sched : econ_widths econ sched -> Params_wf (from_config_parts econ sched).
Proof.
  intros [H1 H2 H3 _]. rewrite ?Forall_cons in *. unfold in_u in *. destruct_and!. unfold Params_wf, params_fields.
  cbn [from_config_parts fmap list_fmap app platform_fee_bps surcharge_bps participation_commission_bps
    slash_wrong_bps slash_cheat_bps slash_downtime_bps slash_equivocation_bps split_challenger_bps split_redundancy_bps
    split_burn_bps split_treasury_bps min_stake min_stake_internal min_stake_sensitive stake_cap unbonding_secs
    challenge_window_secs n_public n_default n_max quorum checksum_min w_quality_bps w_stake_bps w_price_bps
    slash_failed_commitment_bps attempt_deadline_ms progress_interval_ms progress_stall_mult].
  repeat apply Forall_cons_2; [..|constructor]; cbn [Field_wf]; unfold u8_of, u32_of, nanoton, NANOTON_PER_TON.
  all: first [split; [apply points_u16|lia] | unfold in_u, umax in *; lia].
Qed.

Definition slash_split (p : GlobalParams) : Z :=
  split_challenger_bps p + split_redundancy_bps p + split_burn_bps p + split_treasury_bps p.

(** Every rate that was validated as a fraction is within 10000 basis points. *)
Lemma fraction_points econ x :
  economics_validate econ = Ok tt -> Forall fvalid (economic_fractions econ) -> x ∈ economic_fractions econ -> basis_points x <= 10000.
Proof.
  intros [H _]%economic_fractions_ok Hv Hx. rewrite Forall_forall in H, Hv. apply share_points; auto.
Qed.

(** The three ranking weights, which only have to be non-negative. *)
Definition weights_fit (p : GlobalParams) : bool :=
  (w_quality_bps p <=? 10000) && (w_stake_bps p <=? 10000) && (w_price_bps p <=? 10000).

(** C24: the on-chain parameters that [GlobalParams::from_config_parts] derives from an
    [economics] section that passes validation (fields within their Rust types) encode
    losslessly - every basis-point value, stake, timer and replica count fits the width
    of its on-chain field.  Whatever the scheduler section says, the check before sending
    ([GlobalParams::validate]) passes exactly when the four slash shares, which
    validation wants to sum to one up to [1e-9], sum to exactly 10000 basis points after
    each is rounded on its own; and the contract ([validateEcoParams]) accepts exactly
    when they do and none of the three ranking weights, which validation only wants to
    be non-negative, is above 10000 basis points - a ranking weight of 2.0 passes both
    checks off chain and is refused on chain.  In particular the float [0.1] as
    commission stays within the contract's cap of 1000 basis points, every other rate
    within 10000, and clipping timers to 32 bits and counts to 8 keeps their order. *)
Theorem onchain_params_accepted econ sched :
  economics_validate econ = Ok tt -> econ_widths econ sched ->
  let p := from_config_parts econ sched in
  Params_wf p
  /\ validate_params p = (if slash_split p =? 10000 then Ok tt else Err (SplitSum (slash_split p)))
  /\ validateEcoParams p = (slash_split p =? 10000) && weights_fit p.
Proof.
  intros H W p. split; [by apply derived_wf|]. destruct W as [H1 H2 H3 H4]. apply Forall_cons in H4 as [Hv Hvs].
  pose proof (fun x => fraction_points econ x H Hvs) as Hpts. rewrite ?Forall_cons in *. unfold in_u in *. destruct_and!.
  unfold economics_validate in H. checks_in H. destruct H as (Hsl & Hfee & _ & Hpay & _).
  apply stake_ok in Hsl as Hst. apply cap_ok in Hsl. apply selection_ok in Hpay. apply commission_ok in Hfee as [Hc0 Hc1].
  destruct Hst as (? & ? & _). pose proof (tenth_points _ Hv Hc0 Hc1) as Hcom.
  pose proof (points_u16 (fee_participation_commission_frac (ec_fees econ))) as [? _].
  assert (validate_params p = if slash_split p =? 10000 then Ok tt else Err (SplitSum (slash_split p))) as Hoff.
  { pose proof (Hpts (sl_slash_failed_commitment_pct (ec_slashing econ)) ltac:(unfold economic_fractions; set_solver)).
    apply split_checked; subst p; cbn -[Z.min Z.max umax basis_points nanoton];
      unfold u8_of, u32_of, nanoton, NANOTON_PER_TON, umax; try lia; done. }
  split; [done|]. apply Bool.eq_iff_eq_true. rewrite contract_stricter, Hoff. unfold weights_fit. rewrite !andb_true_iff, !Z.leb_le, Z.eqb_eq.
  rewrite !Forall_cons. unfold MAX_BPS. split.
  - intros [Hs Hr]. destruct (Z.eqb_spec (slash_split p) 10000); [|done]. destruct_and!. split_and!; done.
  - intros (Hs & (Hq & Hst) & Hp). rewrite (proj2 (Z.eqb_eq _ _) Hs).
    split; [done|]. subst p. cbn [platform_fee_bps surcharge_bps slash_wrong_bps slash_cheat_bps slash_downtime_bps slash_equivocation_bps from_config_parts].
    split_and!; try done; apply Hpts; unfold economic_fractions; set_solver.
Qed.

(** ** When a rail that can move funds is built *)

Definition moves_funds {C : Crypto} (s : SettlementStack C) : Prop :=
  (exists rpc t, st_settlement s = TonRailImpl rpc t) \/ (exists rpc a, st_record_anchor s = TonAnchorImpl rpc a)
  \/ is_Some (st_params_source s).

(** The section of the selected network. *)
Definition selected_settings (econ : EconomicsConfig) : NetworkSettings :=
  if bool_decide (ec_network econ = Mainnet) then ec_mainnet econ else ec_testnet econ.

(** What the live stack of a wallet is made of: the key is that of the mnemonic in the
    file the selected network names, the wallet that of the key on that network; the
    endpoint and the API key are those of the selected network. *)
Record live_stack {C : Crypto} {D : Kdf C} (read_to_string : bytes -> result bytes bytes) (econ : EconomicsConfig)
    (s : SettlementStack C) (rpc : ToncenterRpc C) : Prop := {
  ls_rail : exists code, st_settlement s = TonRailImpl rpc (ton_settlement econ (wallet_address rpc) code);
  ls_key : exists path raw, wal_mnemonic_file (ns_wallet (selected_settings econ)) = Some path /\ blank path = false
    /\ read_to_string path = Ok raw /\ from_mnemonic (trim raw) = Ok (tc_key rpc);
  ls_wallet : tc_wallet rpc = v5_new (wk_public (tc_key rpc))
    (if bool_decide (ec_network econ = Mainnet) then GLOBAL_ID_MAINNET else GLOBAL_ID_TESTNET);
  ls_endpoint : tc_rpc rpc = trim_slashes (default (if bool_decide (ec_network econ = Mainnet)
    then str "https://toncenter.com/api/v2/" else str "https://testnet.toncenter.com/api/v2/") (ns_rpc (selected_settings econ)));
  ls_api_key : forall k, tc_api_key rpc = Some k -> exists path raw,
    ns_api_key_file (selected_settings econ) = Some path /\ read_to_string path = Ok raw /\ k = trim raw /\ k <> [];
  ls_anchor : st_record_anchor s
    = match parse_addr (con_record_anchor (ns_contracts (selected_settings econ))) with Some a => TonAnchorImpl rpc a | None => NoopAnchor end;
  ls_params : st_params_source s = (fun a => (rpc, a)) <$> parse_addr (con_global_params (ns_contracts (selected_settings econ)));
  ls_onchain : st_onchain s = true;
}.

Section resolving.
Context {C : Crypto} {D : Kdf C} (read_to_string : bytes -> result bytes bytes) (code : result Cell SettleError).

Lemma gate_ok econ : mainnet_gate econ = Ok tt <-> mainnet_blocked econ = false.
Proof. unfold mainnet_gate, guard_mainnet. by destruct (mainnet_blocked econ). Qed.

Lemma active_selected econ : active_settings econ = selected_settings econ.
Proof. unfold active_settings, selected_settings. by destruct (ec_network econ). Qed.

Lemma api_key_read path k :
  read_optional_secret read_to_string path = Ok (Some k) ->
  exists p raw, path = Some p /\ read_to_string p = Ok raw /\ k = trim raw /\ k <> [].
Proof.
  unfold read_optional_secret, read_file. destruct path as [p|]; [|done]. destruct (blank p); [done|].
  destruct (read_to_string p) as [raw|] eqn:E; [|done]. cbn [res_bind]. cbn -[trim]. case_bool_decide as Hk; [done|].
  intros [= <-]. by exists p, raw.
Qed.

Lemma live_stack_shape econ s :
  live_onchain_stack read_to_string code econ = Ok s -> exists rpc, live_stack read_to_string econ s rpc.
Proof.
  unfold live_onchain_stack, resolve_ton_wiring. destruct (mainnet_gate econ); [|done]. cbn [res_bind].
  rewrite active_selected.
  destruct (read_optional_secret _ _) as [key|] eqn:Ek; [|done]. cbn -[toncenter_new ton_settlement mnemonic_file].
  destruct (mnemonic_file econ) as [path|] eqn:Ep; [|done]. cbn -[toncenter_new ton_settlement].
  unfold read_file. destruct (read_to_string path) as [raw|] eqn:Ef; [|done]. cbn -[toncenter_new ton_settlement].
  destruct (toncenter_new _ _ _ _) as [rpc|] eqn:Er; [|done]. cbn -[toncenter_new ton_settlement].
  destruct code as [c|]; [|done]. cbn -[toncenter_new ton_settlement]. intros H. exists rpc.
  unfold toncenter_new in Er. destruct (from_mnemonic (trim raw)) as [k|] eqn:Em; [|done]. injection Er as <-.
  unfold mnemonic_file in Ep. rewrite active_selected in Ep.
  destruct (wal_mnemonic_file (ns_wallet (selected_settings econ))) as [q|] eqn:Eq; [|done]. cbn [mbind option_bind] in Ep.
  destruct (blank q) eqn:Eb; [done|]. injection Ep as ->.
  destruct (parse_addr (con_record_anchor _)) as [an|] eqn:Ea, (parse_addr (con_global_params _)) as [gp|] eqn:Eg;
    injection H as <-; (split; rewrite ?Ea, ?Eg; [by exists c|by exists path, raw| | |intros k' Hk'; cbn in Hk'; subst key; by apply api_key_read|done..]);
    unfold resolved_rpc; rewrite ?active_selected; by destruct (ec_network econ).
Qed.
End resolving.

(** C23: [resolve_settlement_stack] defaults safely.  A stack with a component that talks
    to the chain - the escrow rail, the record anchor or the parameter reader - comes out
    only if the economics are enabled, the rail is the on-chain or channel one, the build
    has the live client, and the network is not an unconfirmed mainnet; with mainnet
    selected and not confirmed nothing at all comes out.  The rail then signs with the key
    of the mnemonic in the file that the section of the selected network names, from the
    wallet of that key on that network; endpoint, API key and contract addresses are those
    of the same section.  The rail is requester and arbiter itself, binds exactly the fee
    and commission rates of the parameters published on chain from the same
    configuration, and keeps each escrow open for at least ten minutes. *)
Theorem stack_defaults_safely {C : Crypto} {D : Kdf C} read_to_string code ton_live econ sched s :
  resolve_settlement_stack read_to_string code ton_live econ = Ok s ->
  mainnet_blocked econ = false
  /\ (st_settlement s = NoopRail \/ ec_enabled econ = true)
  /\ (moves_funds s ->
      ec_enabled econ = true /\ (ec_settlement econ = RailOnchain \/ ec_settlement econ = RailChannel) /\ ton_live = true
      /\ exists rpc t, live_stack read_to_string econ s rpc /\ st_settlement s = TonRailImpl rpc t
         /\ ts_arbiter t = wallet_address rpc /\ ts_requester t = Some (wallet_address rpc)
         /\ ts_platform_fee_bps t = platform_fee_bps (from_config_parts econ sched)
         /\ ts_participation_commission_bps t = participation_commission_bps (from_config_parts econ sched)
         /\ ts_treasury t = parse_addr (ec_fee_recipient econ)
         /\ 600 <= ts_escrow_window_secs t).
Proof.
  unfold resolve_settlement_stack. destruct (mainnet_gate econ) as [[]|] eqn:Eg; [|done]. apply gate_ok in Eg. cbn [res_bind].
  assert (Hnoop : ~ moves_funds (@noop_stack C)) by (intros [(? & ? & [=])|[(? & ? & [=])|[? [=]]]]).
  destruct (ec_enabled econ); cbn [negb]; [|intros [= <-]; split_and!; [done|by left|by intros ?%Hnoop]].
  intros H. split; [done|]. split; [by right|]. intros Hm. split; [done|].
  destruct (ec_settlement econ) eqn:Es;
    [by injection H as <-| | |injection H as <-; by destruct Hm as [(? & ? & [=])|[(? & ? & [=])|[? [=]]]]].
  all: unfold resolve_onchain_stack in H; destruct ton_live; [|by injection H as <-].
  all: destruct (live_stack_shape _ _ _ _ H) as [rpc L]; split; [by eauto|]; split; [done|].
  all: destruct (ls_rail _ _ _ _ L) as [c Ec]; exists rpc, (ton_settlement econ (wallet_address rpc) c).
  all: split; [done|]; split; [done|]; unfold ton_settlement; destruct (parse_addr (ec_fee_recipient econ)); cbn -[Z.max Z.min umax];
    unfold escrow_window; split_and!; done || lia.
Qed.

(** ** Examples *)

Lemma default_widths : econ_widths default_EconomicsConfig default_SchedulerConfig.
Proof. split; repeat constructor; done. Qed.

Lemma onchain_params_accepted_witness :
  economics_validate default_EconomicsConfig = Ok tt /\ econ_widths default_EconomicsConfig default_SchedulerConfig
  /\ let p := from_config_parts default_EconomicsConfig default_SchedulerConfig in
     Params_wf p /\ validate_params p = (if slash_split p =? 10000 then Ok tt else Err (SplitSum (slash_split p)))
     /\ validateEcoParams p = (slash_split p =? 10000) && weights_fit p.
Proof.
  split; [vm_compute; reflexivity|]. split; [exact default_widths|].
  exact (onchain_params_accepted default_EconomicsConfig default_SchedulerConfig ltac:(vm_compute; reflexivity) default_widths).
Defined.

(** Shares of 33.335 %, 33.335 %, 33.33 % and nothing pass validation and are refused on
    chain; the default shares are accepted. *)
Example rounded_shares :
  let e := default_EconomicsConfig <| ec_slashing := default_SlashingEconomics <| sl_slash_to_challenger := lit 33335 100000 |>
             <| sl_slash_to_redundancy := lit 33335 100000 |> <| sl_slash_to_burn := lit 3333 10000 |> <| sl_slash_to_treasury := f64_of_Z 0 |> |> in
  economics_validate e = Ok tt /\ validate_params (from_economics e) = Err (SplitSum 10001)
  /\ validate_params (from_economics default_EconomicsConfig) = Ok tt /\ validateEcoParams (from_economics default_EconomicsConfig) = true.
Proof. vm_compute. done. Qed.

(** A ranking weight above one passes both checks off chain and is refused on chain. *)
Example heavy_weight_refused :
  let e := default_EconomicsConfig <| ec_ranking := default_RankingEconomics <| rk_w_quality := f64_of_Z 2 |> |> in
  economics_validate e = Ok tt /\ validate_params (from_economics e) = Ok tt /\ validateEcoParams (from_economics e) = false.
Proof. vm_compute. done. Qed.

(** A key derivation for the examples: any mnemonic of the right length passes. *)
Definition toy_kdf : Kdf toy_crypto :=
  {| hmac_sha512 k m := k ++ m; pbkdf2_sha512 p s r := Byte.x00 :: take 63 p; signing_key b := (7 : @seckey toy_crypto) |}.
Definition twelve_words : bytes := mjoin (replicate 12 (str "duck ")).
Definition example_files (path : bytes) : result bytes bytes :=
  if bool_decide (path = str "/k/words") then Ok twelve_words else Err (str "not found").
Definition live_example : EconomicsConfig :=
  default_EconomicsConfig <| ec_enabled := true |> <| ec_settlement := RailOnchain |>
    <| ec_fee_recipient := Some (str "0:1111111111111111111111111111111111111111111111111111111111111111") |>
    <| ec_testnet := default_NetworkSettings <| ns_wallet := mkWalletConfig None (Some (str "/k/words")) |>
         <| ns_contracts := mkContractsConfig None None None (Some (str "not an address")) |> |>.

Definition resolve_example (live : bool) (e : EconomicsConfig) : result (SettlementStack toy_crypto) SettleError :=
  resolve_settlement_stack (D := toy_kdf) example_files (Ok empty_builder) live e.
Definition get_stack (r : result (SettlementStack toy_crypto) SettleError) : SettlementStack toy_crypto :=
  match r with Ok s => s | Err _ => noop_stack end.
Definition stack_example : SettlementStack toy_crypto := get_stack (resolve_example true live_example).

Definition on_ton (s : SettlementStack toy_crypto) : bool := match st_settlement s with TonRailImpl _ _ => true | _ => false end.
Definition refusal (r : result (SettlementStack toy_crypto) SettleError) : option SettleError :=
  match r with Ok _ => None | Err e => Some e end.

(** The on-chain rail without the live client, and a parameter contract whose address does
    not parse, are both dropped without an error. *)
Example silent_fallbacks :
  refusal (resolve_example false live_example) = None /\ on_ton (get_stack (resolve_example false live_example)) = false
  /\ on_ton stack_example = true /\ bool_decide (is_Some (st_params_source stack_example)) = false
  /\ refusal (resolve_example true (live_example <| ec_network := Mainnet |>)) = Some mainnet_unconfirmed.
Proof. split_and!; vm_compute; reflexivity. Qed.

Lemma example_moves : moves_funds stack_example.
Proof.
  assert (H : on_ton stack_example = true) by (vm_compute; reflexivity). unfold on_ton in H. left.
  destruct (st_settlement stack_example) as [| |rpc t]; [done..|]. by exists rpc, t.
Qed.

Lemma got_stack r : refusal r = None -> r = Ok (get_stack r).
Proof. by destruct r. Qed.

Lemma stack_defaults_safely_witness :
  resolve_example true live_example = Ok stack_example /\ moves_funds stack_example
  /\ exists rpc t, live_stack (D := toy_kdf) example_files live_example stack_example rpc /\ st_settlement stack_example = TonRailImpl rpc t
     /\ ts_platform_fee_bps t = platform_fee_bps (from_economics live_example) /\ 600 <= ts_escrow_window_secs t.
Proof.
  assert (E : resolve_example true live_example = Ok stack_example) by (apply got_stack; vm_compute; reflexivity).
  split; [exact E|]. split; [exact example_moves|].
  destruct (stack_defaults_safely (D := toy_kdf) example_files (Ok empty_builder) true live_example default_SchedulerConfig stack_example E)
    as (_ & _ & H).
  destruct (H example_moves) as (_ & _ & _ & rpc & t & L & Er & _ & _ & Hf & _ & _ & Hw). exists rpc, t. by split_and!.
Defined.
