(* ===== verification/Node.v ===== *)
(** * The node (crates/node/src/node.rs; the constructors of governor.rs, admission.rs and
      planner.rs)

    How a node is put together from its configuration - the three resource pools, the
    engine and the sandbox of a host, the wiring of wallet and settlement - and its query
    entry point on top of [RunQuery].  The operating system (target, [P2P_JOB_EXEC], what
    spawning a child does), name resolution, the node key and the DuckDB engine are
    parameters.  The theorems: a host that may read remote data serves only under the
    sandboxed process-per-job path; a validated configuration gives pools in which an idle
    host admits the very job it advertises, and an idle node its own query; a remote-only
    node never runs a query itself; and a node without a grid answers from its own engine. *)

From S2P Require Import Prelude Bytes F64 Text Crypto Proto Canonical Escrow Governor Capability Abuse Attest TonRail Books Signing Token Merkle Settlement Cell.
From S2P Require Import Reputation Redispatch Dispatch GridQuery ConfigData Config Overrides Estimator RunQuery Worker.
From S2P Require Import Sealing DataSource DuckEngine Sandbox Subprocess Preflight Rounding Wiring.
From Stdlib Require Import ZifyBool.
#[local] Open Scope duckton_scope.

(** ** The pools *)

(** The ceiling of [CapacityGovernor::new]. *)
Definition served_ceiling (b : BudgetConfig) (local_active : bool) : Z :=
  let fraction := if local_active then fclamp (bud_local_reserved_fraction b) (f64_of_Z 0) (f64_of_Z 1) else f64_of_Z 0 in
  let per_job_floor := Z.min (bud_per_job_memory_bytes b) (bud_memory_bytes b) in
  Z.max (as_uint 64 (ffloor (fmul (f64_of_Z (bud_memory_bytes b)) (fsub (f64_of_Z 1) fraction)))) per_job_floor.

Definition local_active (c : GridConfig) : bool := pl_enabled (gc_planner c) && pl_local_execution_enabled (gc_planner c).

(** [CapacityGovernor::new], [AdmissionController::governed] and [LocalExecutor::governed]
    with the arguments [Node] gives them. *)
Definition node_pools (c : GridConfig) : Pools :=
  let b := gc_budget c in
  {| memory_total := bud_memory_bytes b;
     threads_total := bud_threads b;
     served_memory_ceiling := served_ceiling b (local_active c);
     max_jobs := Z.max (lim_worker_pool_size (gc_limits c)) 1;
     adm_memory_bytes := bud_memory_bytes b;
     adm_threads := bud_threads b;
     adm_max_jobs := bud_max_jobs b;
     local_budget_bytes := local_budget (bud_memory_bytes b) (gc_planner c);
     local_max_jobs := Z.max (pl_max_concurrent_local_jobs (gc_planner c)) 1;
     job_threads := Z.max (bud_per_job_threads b) 1;
     min_reservation_bytes := bud_per_job_memory_bytes b |}.

(** ** The node *)

(** [dyn QueryEngine]: a node's own queries have no job context. *)
Record QueryEngine := mkEngine {
  en_version : bytes;
  en_execute : bytes -> ExecLease -> result ResultSet EngineError;
  en_execute_job : bytes -> ExecLease -> JobContext -> result ResultSet EngineError;
}.
(** An engine error is passed on as its text. *)
Definition shown {A} (r : result A EngineError) : result A bytes :=
  match r with Ok a => Ok a | Err e => Err (show_engine_error e) end.

Inductive NodeError :=
| NConfig (e : ConfigError)
| NTransport (detail : bytes)
| NQuery (e : CoordinatorError)
| NWalletRequired.

(** How workers are given read access to the inputs. *)
Inductive Access {C : Crypto} {S : SealCrypto} {J : CredentialJson} :=
| AccessNone | AccessPresigned | AccessCredential (p : StorageCredentialProvider).
Arguments Access C {S J}.

Record Node {C : Crypto} {S : SealCrypto} {J : CredentialJson} {Addr : Type} := mkNode {
  nd_config : GridConfig;
  nd_engine : QueryEngine;
  nd_id : NodeId;
  nd_seeds : list Addr;
  nd_has_grid_targets : bool;
  nd_has_wallet : bool;
  nd_local : LocalExecutor;
  nd_blocklist : bool;
  nd_access : Access C;
  nd_settlement : option (SettlementImpl C);
  nd_record_anchor : option (AnchorImpl C);
  nd_params_source : option (ToncenterRpc C * WalletAddress);
  nd_stake_registry : option StakeRegistry;
}.
Arguments Node C {S J} Addr.

(** [resolve_seeds]: the scheme and trailing slashes are dropped, an address is taken as
    it is, a name gives its first address, anything else is skipped. *)
Definition strip_scheme (scheme seed : bytes) : option bytes := if starts_with scheme seed then Some (drop (length scheme) seed) else None.
Definition seed_host (seed : bytes) : bytes :=
  trim_slashes (default seed (match strip_scheme (str "quic://") seed with Some h => Some h | None => strip_scheme (str "udp://") seed end)).
Definition resolve_seeds {Addr} (parse : bytes -> option Addr) (lookup : bytes -> list Addr) (seeds : list bytes) : list Addr :=
  seeds ≫= fun seed =>
    let host := seed_host seed in
    match parse host with
    | Some a => [a]
    | None => match lookup host with a :: _ => [a] | [] => [] end
    end.

Section build.
Context {C : Crypto} {SC : SealCrypto} {CJ : CredentialJson} {Addr : Type}.
(** Loading or making the key, binding the socket, and name resolution. *)
Context (identity : option bytes -> result NodeId bytes) (bind : GridConfig -> result unit bytes).
Context (parse_socket : bytes -> option Addr) (lookup : bytes -> list Addr).

Definition grant_access (st : StorageConfig) : Access C :=
  if sto_enable_remote_access st
  then match sto_credential_mode st with
       | Presigned => AccessPresigned
       | ScopedSecret | Sealed =>
           match default_credential_provider st with Some p => AccessCredential p | None => AccessNone end
       end
  else AccessNone.

Definition local_executor (c : GridConfig) (e : QueryEngine) : LocalExecutor :=
  mkLocalExecutor (node_pools c) true (gc_planner c) (fun sql lease => shown (en_execute e sql lease)).

(** [Node::with_config] *)
Definition with_config (c : GridConfig) (e : QueryEngine) : result (Node C Addr) NodeError :=
  match validate c with
  | Err x => Err (NConfig x)
  | Ok _ =>
      match identity (idc_key_path (gc_identity c)) with
      | Err x => Err (NTransport x)
      | Ok id =>
          match bind c with
          | Err x => Err (NTransport x)
          | Ok _ =>
              let candidates := resolve_seeds parse_socket lookup (disc_bootstrap (gc_discovery c)) in
              Ok {| nd_config := c; nd_engine := e; nd_id := id; nd_seeds := candidates;
                    nd_has_grid_targets := negb (match candidates with [] => true | _ => false end);
                    nd_has_wallet := false; nd_local := local_executor c e;
                    nd_blocklist := ab_enabled (gc_antiabuse c); nd_access := grant_access (gc_storage c);
                    nd_settlement := None; nd_record_anchor := None; nd_params_source := None; nd_stake_registry := None |}
          end
      end
  end.

(** [with_wallet] and [with_settlement_stack] *)
Definition with_wallet (n : Node C Addr) (r : StakeRegistry) : Node C Addr :=
  mkNode C SC CJ Addr (nd_config n) (nd_engine n) (nd_id n) (nd_seeds n) (nd_has_grid_targets n) true (nd_local n) (nd_blocklist n)
    (nd_access n) (nd_settlement n) (nd_record_anchor n) (nd_params_source n) (Some r).
Definition with_settlement_stack (n : Node C Addr) (s : SettlementStack C) : Node C Addr :=
  mkNode C SC CJ Addr (nd_config n) (nd_engine n) (nd_id n) (nd_seeds n) (nd_has_grid_targets n) (st_onchain s || nd_has_wallet n)
    (nd_local n) (nd_blocklist n) (nd_access n) (Some (st_settlement s)) (Some (st_record_anchor s))
    (match st_params_source s with Some p => Some p | None => nd_params_source n end)
    (match st_stake_registry s with Some r => Some r | None => nd_stake_registry n end).
End build.

(** ** Hosting *)

#[global] Instance SandboxLimitsConfig_eq_dec : EqDecision SandboxLimitsConfig.
Proof. solve_decision. Defined.
#[global] Instance SandboxConfig_eq_dec : EqDecision SandboxConfig.
Proof. solve_decision. Defined.

Section host.
Context {C : Crypto} {SC : SealCrypto} {CJ : CredentialJson} {K : JobCodec} {Addr : Type}.
(** The platform, the environment variable, and a child under a kind of sandbox. *)
Context (target : TargetOs) (job_exec : option bytes) (os : SandboxKind -> Os) (job_tmp : bytes).
Context (signer : Signer) (parse_token : bytes -> option CapabilityToken).

Definition have_executor : bool := match job_exec with Some p => negb (blank p) | None => false end.

Definition host_sandbox (c : GridConfig) : SandboxConfig :=
  if bool_decide (gc_sandbox c = default_SandboxConfig) then host_serving_secure else gc_sandbox c.

Definition egress_capable (b : SandboxBackend) : bool :=
  match b with BackendMacosSeatbelt | BackendCgroupsSeccomp | BackendAndroid | BackendWindowsJobObject => true | _ => false end.
Definition host_remote_egress_confined (c : GridConfig) : bool :=
  let sb := host_sandbox c in
  if negb (sb_enabled sb) || negb (sb_process_per_job sb) then false
  else egress_capable (effective_backend target (sb_backend sb)) && have_executor.

(** The engine that runs each job in a child of its own. *)
Definition subprocess_engine (c : GridConfig) (version : bytes) : QueryEngine :=
  let sb := host_sandbox c in
  let se := mkSubprocess sb (gc_storage c) (wrk_progress_interval_ms (gc_worker c)) in
  let exec sql lease ctx := (Subprocess.run se (os (Sandbox.build target sb)) job_tmp sql lease ctx ∅).1 in
  mkEngine (version ++ str "-subprocess") (fun sql lease => exec sql lease (mkJobContext None [] None [] None)) exec.

Definition host_engine (c : GridConfig) (e : QueryEngine) : QueryEngine :=
  let sb := host_sandbox c in
  if sb_process_per_job sb && sb_enabled sb && have_executor then subprocess_engine c (en_version e) else e.

Definition REFUSAL : bytes := str "host refuses to serve: storage.enable_remote_access=true without an active OS egress filter (enable [sandbox] with process_per_job + an egress-capable backend and set P2P_JOB_EXEC, or run behind an OS-level egress firewall). Serving foreign jobs unconfined with open egress is an SSRF risk.".

Definition host_antiabuse (c : GridConfig) : option AntiAbuseRuntime :=
  let ab := gc_antiabuse c in
  if ab_enabled ab
  then let rl := ab_free_rate_limit ab in
       Some (mkAntiAbuse ab (gc_economics c) true
         (if free_rate_limit_active ab then Some (new_limiter (frl_max_free_per_window rl) (frl_window_secs rl) (Z.to_nat (frl_max_tracked_requesters rl))) else None))
  else None.

(** [Node::host_worker] *)
Definition host_worker (n : Node C Addr) : Worker :=
  let c := nd_config n in
  {| wk_id := nd_id n; wk_signer := signer;
     wk_engine := (fun sql lease ctx => shown (en_execute_job (host_engine c (nd_engine n)) sql lease ctx));
     wk_pools := le_pools (nd_local n); wk_governed := true; wk_data_classes := bud_data_classes (gc_budget c);
     wk_attestation := stub_l0; wk_params := Worker.from_config c; wk_antiabuse := host_antiabuse c;
     wk_capability := wrk_self_measure_capability (gc_worker c); wk_attestor := None; wk_attest_bound_pub := [];
     wk_input_reader := echo_input_reader;
     wk_serving_block := (if sto_enable_remote_access (gc_storage c) && negb (host_remote_egress_confined c) then Some REFUSAL else None);
     wk_parse_token := parse_token |}.
End host.

(** ** Queries *)

Section query.
Context {C : Crypto} {SC : SealCrypto} {CJ : CredentialJson} {EJ : EvidenceJson} {L : Libm} {JT : JsonText} {Addr World : Type}.
Context (net_of : World -> Net Addr * World) (now_of : World -> Z * World).
Context (draw : Z -> Z -> World -> Z * World) (wait : Z -> World -> World).
Context (fs : MetaFs) (policy : option OnchainPolicy).

Definition is_paid (m : PaymentMode) : bool := match m with Paid => true | Free => false end.
Definition grid_unreachable (e : CoordinatorError) : bool :=
  match e with CNoCandidates | CInsufficientWorkers _ _ => true | _ => false end.

(** [Node::query]; [jobs]: the job ids of the first and of the second run. *)
Definition query (n : Node C Addr) (sql : bytes) (overrides : QueryOverrides) (jobs : JobId * JobId) (fuel : nat)
    (g : ProgressTracker) (s : counters) (gs : GridState C World)
    : option (result QueryOutcome NodeError * counters * ProgressTracker * GridState C World) :=
  match query_apply overrides (nd_config n) with
  | Err e => Some (Err (NConfig e), s, g, gs)
  | Ok cfg =>
      if is_paid (resolve_payment (gc_economics cfg) ClassPublic) && negb (nd_has_wallet n)
      then Some (Err NWalletRequired, s, g, gs)
      else
        let effective_prefer := default (pl_prefer (gc_planner cfg)) (ov_prefer overrides) in
        let local_allowed := pl_local_execution_enabled (gc_planner cfg) in
        let auto := local_allowed && bool_decide (effective_prefer = PreferAuto) in
        let ov := if auto && negb (nd_has_grid_targets n) then overrides <| ov_prefer := Some PreferLocal |> else overrides in
        estimate ← preflight_estimate fs sql;
        '(r, s1, g1, gs1) ← run_query_planned net_of now_of draw wait (nd_config n) (en_version (nd_engine n)) policy
          (Some (nd_local n)) (nd_id n) estimate sql ov jobs.1 fuel g s gs;
        match r with
        | Ok out => Some (Ok out, s1, g1, gs1)
        | Err e =>
            if grid_unreachable e && auto
            then '(r', s2, g2, gs2) ← run_query net_of now_of draw wait (nd_config n) (en_version (nd_engine n)) policy
                   (Some (nd_local n)) (nd_id n) sql (ov <| ov_prefer := Some PreferLocal |>) jobs.2 fuel g1 s1 gs1;
                 Some (match r' with Ok out => Ok out | Err e' => Err (NQuery e') end, s2, g2, gs2)
            else Some (Err (NQuery e), s1, g1, gs1)
        end
  end.
End query.

(** ** A host that reads remote data runs jobs in children *)

Lemma confined_spec target job_exec c :
  host_remote_egress_confined target job_exec c = true <->
  sb_enabled (host_sandbox c) = true /\ sb_process_per_job (host_sandbox c) = true
  /\ egress_capable (effective_backend target (sb_backend (host_sandbox c))) = true /\ have_executor job_exec = true.
Proof.
  unfold host_remote_egress_confined. destruct (sb_enabled _), (sb_process_per_job _); cbn [negb orb]; rewrite ?andb_true_iff; naive_solver.
Qed.

(** The automatic choice of a backend is never an empty one where it counts as confining. *)
Lemma auto_backend_real target cfg :
  sb_enabled cfg = true -> sb_backend cfg = BackendAuto -> egress_capable (effective_backend target BackendAuto) = true ->
  Sandbox.build target cfg = MacosSandbox \/ Sandbox.build target cfg = LinuxSandbox \/ Sandbox.build target cfg = WindowsSandbox.
Proof. unfold Sandbox.build. intros -> ->. destruct target; cbn; naive_solver. Qed.

(** What a host with remote reads enabled has checked before it takes a foreign job.
    Whenever the worker that [Node::host_worker] assembles accepts an offer although the
    configuration lets jobs reach object stores, the sandbox it serves under is enabled
    with one process per job and a backend whose name counts as able to filter egress, and
    an executor for the children is configured; every job is then run by the child-process
    engine, under the sandbox built for this platform with limits and egress rules derived
    from the configuration, and never by the node's own in-process engine.  The check goes
    by the name: a backend of another platform passes it and builds an empty sandbox
    ([foreign_backend_unconfined]).  An automatically chosen backend, which is what an
    untouched sandbox section resolves to, is a real one. *)
Theorem remote_reads_run_in_children {C : Crypto} {SC : SealCrypto} {CJ : CredentialJson} {K : JobCodec} {Addr : Type}
    target job_exec os job_tmp signer parse_token (n : Node C Addr) s o now b s' :
  let w := host_worker target job_exec os job_tmp signer parse_token n in
  let c := nd_config n in
  make_bid w s o now = (b, s') -> accepts b = true -> sto_enable_remote_access (gc_storage c) = true ->
  sb_enabled (host_sandbox c) = true /\ sb_process_per_job (host_sandbox c) = true
  /\ egress_capable (effective_backend target (sb_backend (host_sandbox c))) = true
  /\ (exists path, job_exec = Some path /\ blank path = false)
  /\ (forall sql lease ctx, wk_engine w sql lease ctx
        = shown (Subprocess.run (mkSubprocess (host_sandbox c) (gc_storage c) (wrk_progress_interval_ms (gc_worker c)))
                   (os (Sandbox.build target (host_sandbox c))) job_tmp sql lease ctx ∅).1)
  /\ (sb_backend (host_sandbox c) = BackendAuto -> Sandbox.build target (host_sandbox c) <> NoopSandbox)
  /\ (gc_sandbox c = default_SandboxConfig -> sb_backend (host_sandbox c) = BackendAuto).
Proof.
  intros w c Hb Ha Hr. destruct (accepted_cleared w s o now b s' Hb Ha) as [Hblock _ _ _ _ _ _ _ _].
  cbn [w host_worker wk_serving_block] in Hblock. fold c in Hblock. rewrite Hr in Hblock. cbn [andb] in Hblock.
  destruct (host_remote_egress_confined target job_exec c) eqn:Ec; [|done].
  apply confined_spec in Ec as (He & Hp & Hg & Hx). split_and!; [done..| | | |].
  - unfold have_executor in Hx. destruct job_exec as [p|]; [|done]. exists p. split; [done|]. by apply negb_true_iff.
  - intros sql lease ctx. cbn [w host_worker wk_engine]. fold c. unfold host_engine. by rewrite He, Hp, Hx.
  - intros Hau. rewrite Hau in Hg. destruct (auto_backend_real target (host_sandbox c) He Hau Hg) as [->|[->| ->]]; done.
  - unfold host_sandbox. intros E. by rewrite bool_decide_eq_true_2.
Qed.

(** ** The pools of a validated configuration *)

(** The fields as Rust holds them. *)
Record pool_widths (c : GridConfig) : Prop := {
  pw_bytes : Forall (in_u 64) [bud_memory_bytes (gc_budget c); bud_per_job_memory_bytes (gc_budget c);
               lim_worker_pool_size (gc_limits c); pl_max_concurrent_local_jobs (gc_planner c)];
  pw_counts : Forall (in_u 32) [bud_threads (gc_budget c); bud_max_jobs (gc_budget c); bud_per_job_threads (gc_budget c)];
  pw_floats : Forall fvalid [bud_local_reserved_fraction (gc_budget c); pl_ram_fraction (gc_planner c)];
}.

Lemma flt_fle x y : flt x y = true -> fle x y = true.
Proof. unfold flt, fle, SpecFloat.SFltb, SpecFloat.SFleb. by destruct (SpecFloat.SFcompare x y) as [[]|]. Qed.

Lemma clamp_in01 x : fvalid x -> in01 x -> fvalid (fclamp x (f64_of_Z 0) (f64_of_Z 1)) /\ in01 (fclamp x (f64_of_Z 0) (f64_of_Z 1)).
Proof.
  intros Hv Hx. unfold fclamp. destruct (flt x (f64_of_Z 0)); [vm_compute; done|]. destruct (flt (f64_of_Z 1) x); [vm_compute; done|]. done.
Qed.

Lemma fractions_ok c :
  validate c = Ok tt -> in01 (bud_local_reserved_fraction (gc_budget c)) /\ in01 (pl_ram_fraction (gc_planner c)).
Proof.
  intros H. unfold validate in H. checks_in H. destruct H as (_ & _ & _ & _ & _ & Hb & _ & _ & _ & Hp & _).
  unfold validate_budget in Hb. unfold validate_planner in Hp. checks_in Hb. checks_in Hp. unfold in01.
  destruct Hb as (_ & _ & Hb & _). destruct Hp as [Hp _]. apply andb_true_iff in Hb as [H0 H1]. apply andb_true_iff in Hp as [H2 H3].
  split_and!; [done|by apply flt_fle|by apply flt_fle|done].
Qed.

Lemma counts_ok c :
  validate c = Ok tt -> pool_widths c ->
  1 <= bud_threads (gc_budget c) /\ 1 <= bud_max_jobs (gc_budget c) /\ 1 <= lim_worker_pool_size (gc_limits c).
Proof.
  intros H [Hb Hc _]. unfold validate in H. checks_in H. destruct H as (_ & _ & _ & _ & _ & H & _).
  unfold validate_budget in H. checks_in H. rewrite ?Forall_cons in *. unfold in_u in *. destruct_and!. lia.
Qed.

Lemma node_pools_wf c : pool_widths c -> Pools_wf (node_pools c).
Proof.
  intros [Hb Hc _]. rewrite ?Forall_cons in *. unfold in_u in *. destruct_and!. unfold Pools_wf. cbn [node_pools job_threads min_reservation_bytes].
  split; [|lia]. unfold umax. intros []; cbn [cap width node_pools memory_total threads_total served_memory_ceiling max_jobs adm_memory_bytes
    adm_threads adm_max_jobs local_budget_bytes local_max_jobs]; unfold served_ceiling, local_budget;
    try match goal with |- context [as_uint 64 ?x] => pose proof (as_uint_range 64 x ltac:(lia)) end; unfold umax in *; lia.
Qed.

Lemma ceiling_bounds c :
  validate c = Ok tt -> pool_widths c -> bud_memory_bytes (gc_budget c) < 2 ^ 53 ->
  served_memory_ceiling (node_pools c) <= bud_memory_bytes (gc_budget c) /\ local_budget_bytes (node_pools c) <= bud_memory_bytes (gc_budget c).
Proof.
  intros H [Hb _ Hf] Hm. rewrite ?Forall_cons in *. unfold in_u in *. destruct Hf as (Hf1 & Hf2 & _). destruct (fractions_ok c H) as [H1 H2].
  destruct Hb as (Hmem & _). cbn [node_pools served_memory_ceiling local_budget_bytes]. unfold served_ceiling, local_budget.
  split; [|by apply share_of_integer; [lia|..]]. apply Z.max_lub; [|lia]. destruct (local_active c).
  - destruct (clamp_in01 _ Hf1 H1). by apply rest_of_integer; [lia|..].
  - apply rest_of_integer; [lia|vm_compute; done..].
Qed.

(** *** An idle node has room *)

Section idle.
Context (c : GridConfig) (H : validate c = Ok tt) (W : pool_widths c) (s : counters) (Hidle : forall x, s x = 0).

Lemma idle_admits :
  bud_per_job_memory_bytes (gc_budget c) <= bud_memory_bytes (gc_budget c) -> bud_per_job_threads (gc_budget c) <= bud_threads (gc_budget c) ->
  (Governor.run (node_pools c) s (try_admit true (bud_per_job_memory_bytes (gc_budget c)) (bud_per_job_threads (gc_budget c)))).1 = true.
Proof using H W Hidle.
  intros Hm Hth. destruct (counts_ok c H W) as (Ht & Hj & Hw). destruct W as [Hb Hcn _]. rewrite ?Forall_cons in *. unfold in_u in *. destruct_and!.
  rewrite run_granted by apply (program_targets (node_pools c) (CallAdmit true _ _)).
  cbn [try_admit on_refusal try_reserve app fmap list_fmap forallb Governor.room cap width]. rewrite !Hidle. unfold umax.
  cbn [node_pools adm_max_jobs adm_memory_bytes adm_threads max_jobs memory_total threads_total served_memory_ceiling]. unfold served_ceiling. lia.
Qed.

Lemma idle_reserves :
  bud_per_job_memory_bytes (gc_budget c) <= local_budget_bytes (node_pools c) ->
  bud_per_job_memory_bytes (gc_budget c) <= bud_memory_bytes (gc_budget c) -> bud_per_job_threads (gc_budget c) <= bud_threads (gc_budget c) ->
  (Governor.run (node_pools c) s (reserve (node_pools c) true 0)).1 = true.
Proof using H W Hidle.
  intros Hl Hm Hth. destruct (counts_ok c H W) as (Ht & Hj & Hw). destruct W as [Hb Hcn _]. rewrite ?Forall_cons in *. unfold in_u in *. destruct_and!.
  rewrite run_granted by apply (program_targets (node_pools c) (CallLocal true 0)).
  cbn [reserve on_refusal try_reserve app fmap list_fmap forallb Governor.room cap width]. rewrite !Hidle. unfold umax.
  cbn [node_pools local_max_jobs local_budget_bytes job_threads min_reservation_bytes max_jobs memory_total threads_total] in *.
  pose proof (as_uint_range 64 (fmul (f64_of_Z (bud_memory_bytes (gc_budget c))) (pl_ram_fraction (gc_planner c))) ltac:(lia)) as Hr.
  unfold local_budget, umax in *. lia.
Qed.
End idle.

Section built.
Context {C : Crypto} {SC : SealCrypto} {CJ : CredentialJson} {Addr : Type}.
Context (identity : option bytes -> result NodeId bytes) (bind : GridConfig -> result unit bytes).
Context (parse_socket : bytes -> option Addr) (lookup : bytes -> list Addr).

Lemma with_config_ok c e (n : Node C Addr) :
  with_config identity bind parse_socket lookup c e = Ok n ->
  validate c = Ok tt /\ nd_config n = c /\ nd_engine n = e /\ nd_local n = local_executor c e /\ nd_has_wallet n = false
  /\ (nd_has_grid_targets n = false <-> resolve_seeds parse_socket lookup (disc_bootstrap (gc_discovery c)) = []).
Proof.
  unfold with_config. destruct (validate c) as [[]|] eqn:Ev; [|done]. destruct (identity _); [|done]. destruct (bind c); [|done].
  intros [= <-]. cbn. split_and!; try done. by destruct (resolve_seeds _ _ _).
Qed.
End built.

(** C22: the three pools that [Node::with_config] gives a node - the governor that own and
    served work share, the admission controller of the host and the budget of own queries
    - are usable.  Their limits fit the atomics that hold them, so the worker the node
    hosts is one the accounting of served jobs holds for; the ceiling on served memory
    always leaves room for one job of the advertised size, and for memory below 2^53
    bytes neither it nor the local budget exceeds the memory there is.  So an idle host
    admits the very job it offers to run whenever the budget covers one, and an idle node
    can reserve for a query of its own whenever its local share covers the minimal
    reservation. *)
Theorem node_pools_usable {C : Crypto} {SC : SealCrypto} {CJ : CredentialJson} {K : JobCodec} {Addr : Type}
    identity bind (parse_socket : bytes -> option Addr) lookup (c : GridConfig) e (n : Node C Addr) (s : counters) :
  with_config identity bind parse_socket lookup c e = Ok n -> pool_widths c -> (forall x, s x = 0) ->
  let P := le_pools (nd_local n) in
  let b := gc_budget c in
  Pools_wf P
  /\ (forall target job_exec os job_tmp signer parse_token,
        let w := host_worker target job_exec os job_tmp signer parse_token n in wk_pools w = P /\ Worker_wf w)
  /\ Z.min (bud_per_job_memory_bytes b) (bud_memory_bytes b) <= served_memory_ceiling P
  /\ (bud_memory_bytes b < 2 ^ 53 -> served_memory_ceiling P <= memory_total P /\ local_budget_bytes P <= memory_total P)
  /\ (bud_per_job_memory_bytes b <= bud_memory_bytes b -> bud_per_job_threads b <= bud_threads b ->
      (Governor.run P s (try_admit true (bud_per_job_memory_bytes b) (bud_per_job_threads b))).1 = true
      /\ (bud_per_job_memory_bytes b <= local_budget_bytes P -> (Governor.run P s (reserve P true 0)).1 = true)).
Proof.
  intros (H & Ec & _ & El & _)%with_config_ok W Hs P b. subst P. rewrite El. cbn [local_executor le_pools].
  pose proof (node_pools_wf c W) as HP. split; [done|]. split.
  { intros target je os tmp sg pt. cbn [host_worker wk_pools]. rewrite El. split; [done|].
    split; cbn [host_worker wk_pools wk_params Worker.from_config wp_per_job_memory_bytes wp_per_job_threads]; rewrite ?El, ?Ec; [done|..];
      destruct W as [Hb Hc _]; rewrite ?Forall_cons in *; destruct_and!; done. }
  split; [cbn [node_pools served_memory_ceiling]; unfold served_ceiling; subst b; lia|]. split; [by apply ceiling_bounds|].
  intros Hm Hth. split; [by apply idle_admits|]. intros Hl. by apply idle_reserves.
Qed.

(** ** Queries *)

Definition set_prefer (p : PreferMode) (c : GridConfig) : GridConfig := c <| gc_planner := (gc_planner c) <| pl_prefer := p |> |>.

(** Pinning a call changes the planner's preference and nothing else; validation does not look at it. *)
Lemma assign_pinned p o base : query_assign (o <| ov_prefer := Some p |>) base = set_prefer p (query_assign o base).
Proof.
  pose (pin q := set_if q set_prefer).
  pose (pay o := set_if (ov_payment o) (fun p c => c <| gc_economics := (gc_economics c) <| ec_default_payment := p |> |>)).
  pose (staked o := set_if (ov_require_staked_hosts o) (fun b => on_scheduler (fun s => s <| sch_require_staked_hosts := b |>))).
  assert (E : exists head, forall q, query_assign (o <| ov_prefer := q |>) base = staked o (pay o (pin q head)) ) by (eexists; intros q; unfold query_assign;
    cbn [update ov_replicas ov_quorum ov_min_trust ov_min_attestation ov_verify ov_dispatch_timeout_ms ov_attempt_deadline_ms ov_max_retries
      ov_max_total_duration_ms ov_result_parallelism ov_compression ov_prefer ov_payment ov_require_staked_hosts]; reflexivity).
  destruct E as [head E]. rewrite E. assert (Eo : o = o <| ov_prefer := ov_prefer o |>) by (by destruct o). rewrite Eo at 3. rewrite E.
  unfold staked, pay, pin, set_if. by destruct (ov_prefer o), (ov_payment o), (ov_require_staked_hosts o).
Qed.

Lemma floors_pinned p o c : query_floors (o <| ov_prefer := Some p |>) (set_prefer p c) = set_prefer p (query_floors o c).
Proof.
  unfold query_floors. change (ov_data_class (o <| ov_prefer := Some p |>)) with (ov_data_class o).
  change (ov_regions (o <| ov_prefer := Some p |>)) with (ov_regions o).
  assert (E1 : set_if (ov_data_class o) (fun dc => on_trust (class_floor dc)) (set_prefer p c)
    = set_prefer p (set_if (ov_data_class o) (fun dc => on_trust (class_floor dc)) c)) by (by destruct (ov_data_class o)).
  rewrite E1. generalize (set_if (ov_data_class o) (fun dc => on_trust (class_floor dc)) c). intros d. cbv zeta.
  change (gc_membership (set_prefer p d)) with (gc_membership d).
  destruct (negb _ && _).
  - change (on_trust (raise_attestation (str "L1")) (set_prefer p d)) with (set_prefer p (on_trust (raise_attestation (str "L1")) d)).
    generalize (on_trust (raise_attestation (str "L1")) d). intros d'.
    change (gc_discovery (set_prefer p d')) with (gc_discovery d'). change (gc_scheduler (set_prefer p d')) with (gc_scheduler d').
    by destruct (_ <? _).
  - change (gc_discovery (set_prefer p d)) with (gc_discovery d). change (gc_scheduler (set_prefer p d)) with (gc_scheduler d).
    by destruct (_ <? _).
Qed.

Lemma validate_pinned p c : validate (set_prefer p c) = validate c.
Proof. reflexivity. Qed.

Lemma apply_pinned p o base c : query_apply o base = Ok c -> query_apply (o <| ov_prefer := Some p |>) base = Ok (set_prefer p c).
Proof. rewrite !query_apply_ok. intros [-> H]. by rewrite assign_pinned, floors_pinned, validate_pinned. Qed.

Section routing.
Context {C : Crypto} {SC : SealCrypto} {CJ : CredentialJson} {EJ : EvidenceJson} {L : Libm} {JT : JsonText} {Addr World : Type}.
Context (net_of : World -> Net Addr * World) (now_of : World -> Z * World).
Context (draw : Z -> Z -> World -> Z * World) (wait : Z -> World -> World).
Context (fs : MetaFs) (policy : option OnchainPolicy).
Abbreviation planned := (run_planned net_of now_of draw wait).
Abbreviation ask := (query net_of now_of draw wait fs policy).

(** *** Remote only *)

Lemma inactive_remote c e id job sql cfg est s :
  local_active c = false -> try_local_execution (Some (local_executor c e)) id job sql cfg est s = (Ok None, s).
Proof using Type.
  unfold local_active, try_local_execution, plan_decide. cbn [local_executor le_planner].
  destruct (pl_enabled (gc_planner c)); [|done]. cbn [andb negb]. by intros ->.
Qed.

Lemma planned_inactive c e e' base version id est input peak sql o job fuel g s gs :
  local_active c = false ->
  planned base version policy (Some (local_executor c e)) id est input peak sql o job fuel g s gs
  = planned base version policy (Some (local_executor c e')) id est input peak sql o job fuel g s gs.
Proof using Type. intros H. unfold run_planned. destruct (query_apply o base); [|done]. by rewrite !inactive_remote. Qed.

(** *** On this machine *)

(** A pinned call on an idle node runs on its own engine and gives back what it reserved. *)
Lemma pinned_runs c e base cfg id est sql o job fuel g s gs input peak rs :
  validate c = Ok tt -> pool_widths c -> local_active c = true -> (forall x, s x = 0) ->
  bud_per_job_memory_bytes (gc_budget c) <= bud_memory_bytes (gc_budget c) -> bud_per_job_threads (gc_budget c) <= bud_threads (gc_budget c) ->
  bud_per_job_memory_bytes (gc_budget c) <= local_budget_bytes (node_pools c) ->
  default 0 (ws_peak_working_set_bytes <$> est) = 0 ->
  query_apply o base = Ok cfg -> pl_prefer (gc_planner cfg) = PreferLocal -> (forall lease, en_execute e sql lease = Ok rs) ->
  exists s' out,
    planned base (en_version e) policy (Some (local_executor c e)) id est input peak sql o job fuel g s gs = Some (Ok out, s', g, gs)
    /\ (forall x, s' x = 0) /\ qo_executed_locally out = true /\ qo_result out = rs.
Proof using Type.
  intros Hv W Ha Hidle Hm Hth Hl Hpeak Hap Hpref Hrs. apply andb_true_iff in Ha as [Ha1 Ha2].
  pose proof (node_pools_wf c W) as HP. pose proof (idle_reserves c Hv W s Hidle Hl Hm Hth) as Hg.
  pose proof (reservation_returned (node_pools c) true 0 s HP ltac:(unfold in_u; lia)) as Hret.
  assert (Hs : forall x, 0 <= s x <= cap (node_pools c) x) by (intros x; rewrite Hidle; destruct HP as [HP _]; pose proof (HP x); lia).
  specialize (Hret Hs). unfold run_planned. rewrite Hap. unfold try_local_execution.
  cbn [local_executor le_planner le_pools le_governed le_engine]. unfold plan_decide. rewrite Ha1, Ha2, Hpref. cbn [pq_prefer negb].
  change (is_local (mkDecision RouteLocal ForcedLocal)) with true. cbn [negb]. rewrite Hpeak.
  destruct (Governor.run (node_pools c) s (reserve (node_pools c) true 0)) as [granted s1]. cbn [fst] in Hg. subst granted. cbn [negb].
  destruct Hret as [Hret _]. rewrite Hrs. cbn [shown]. do 2 eexists. split; [reflexivity|]. cbn [qo_executed_locally qo_result].
  split_and!; [|done..]. intros x. by rewrite Hret.
Qed.
(** Whatever a call does, its reservation is given back. *)
Lemma planned_idle c e base version id est input peak sql o job fuel g s gs r s' g' gs' :
  pool_widths c -> (forall x, s x = 0) -> (forall w, est = Some w -> in_u 64 (ws_peak_working_set_bytes w)) ->
  planned base version policy (Some (local_executor c e)) id est input peak sql o job fuel g s gs = Some (r, s', g', gs') ->
  forall x, s' x = 0.
Proof using Type.
  intros W Hidle Hest H. unfold run_planned in H. destruct (query_apply o base) as [cfg|]; [|by injection H as <- <- <- <-].
  destruct (try_local_execution _ _ _ _ _ _ _) as [r1 s1] eqn:Et.
  assert (Hs1 : forall x, s1 x = 0).
  { intros x. eapply local_execution in Et as [Hx _]; [by rewrite Hx| |exact Hest].
    intros l [= <-]. cbn [local_executor le_pools]. pose proof (node_pools_wf c W) as HP. split; [done|].
    intros y. rewrite Hidle. destruct HP as [HP _]. pose proof (HP y). lia. }
  destruct r1 as [[out|]|err]; [by injection H as <- <- <- <-| |by injection H as <- <- <- <-].
  destruct (dispatch_to_grid _ _ _ _ _ _ _ _ _) as [[d sched] q]. destruct (grid_query _ _ _ _ _ _ _ _ _ _) as [[[r2 g2] gs2]|]; [|done].
  cbn [mbind option_bind] in H. by injection H as <- <- <- <-.
Qed.

Lemma local_estimate sql est :
  preflight_estimate fs sql = Some est -> default 0 (ws_peak_working_set_bytes <$> (if has_data_source sql then None else est)) = 0.
Proof using Type. unfold preflight_estimate. destruct (has_data_source sql); [done|]. by intros [= <-]. Qed.
End routing.

Lemma applied_prefer o base c : query_apply o base = Ok c -> default (pl_prefer (gc_planner c)) (ov_prefer o) = pl_prefer (gc_planner c).
Proof.
  intros [-> _]%query_apply_ok. destruct (ov_prefer o) as [p|] eqn:E; [|done]. cbn [default].
  assert (Eo : o = o <| ov_prefer := Some p |>) by (destruct o; cbn in E |- *; by rewrite E). rewrite Eo, assign_pinned, floors_pinned. reflexivity.
Qed.

Definition switches (c : GridConfig) : bool * bool := (pl_enabled (gc_planner c), pl_local_execution_enabled (gc_planner c)).
Lemma set_if_switches {A} (o : option A) put c : (forall a c, switches (put a c) = switches c) -> switches (set_if o put c) = switches c.
Proof. intros H. destruct o; [apply H|done]. Qed.
Lemma applied_switches o base c : query_apply o base = Ok c -> switches c = switches base.
Proof.
  intros [-> _]%query_apply_ok.
  assert (E : switches (query_floors o (query_assign o base)) = switches (query_assign o base)).
  { unfold query_floors. cbv zeta. destruct (_ <? _); destruct (negb _ && _);
      exact (set_if_switches (ov_data_class o) (fun dc => on_trust (class_floor dc)) (query_assign o base) (fun _ _ => eq_refl)). }
  rewrite E. unfold query_assign. by rewrite !set_if_switches by (intros; reflexivity).
Qed.

(** C25: a node whose local execution is switched off never computes a result itself.  Two
    nodes built by [Node::with_config] from one such configuration, with any two engines
    of the same version, answer every call alike - the same outcome or error, the same
    effects on the grid, whatever the caller pins, and no local resource is touched:
    the engine plays no part, not even in the fallback for an unreachable grid. *)
Theorem remote_only_never_local {C : Crypto} {SC : SealCrypto} {CJ : CredentialJson} {EJ : EvidenceJson} {L : Libm} {JT : JsonText} {Addr World : Type}
    identity bind (parse_socket : bytes -> option Addr) lookup c e e' (n n' : Node C Addr)
    (net_of : World -> Net Addr * World) now_of draw wait fs policy sql o jobs fuel g s gs :
  with_config identity bind parse_socket lookup c e = Ok n -> with_config identity bind parse_socket lookup c e' = Ok n' ->
  en_version e = en_version e' -> pl_local_execution_enabled (gc_planner c) = false ->
  query net_of now_of draw wait fs policy n sql o jobs fuel g s gs = query net_of now_of draw wait fs policy n' sql o jobs fuel g s gs
  /\ forall r s' g' gs', query net_of now_of draw wait fs policy n sql o jobs fuel g s gs = Some (r, s', g', gs') -> s' = s.
Proof.
  intros Hn Hn' Hver Hoff. destruct (with_config_ok _ _ _ _ _ _ _ Hn) as (_ & Ec & Ee & El & Ew & _).
  destruct (with_config_ok _ _ _ _ _ _ _ Hn') as (_ & Ec' & Ee' & El' & Ew' & _).
  assert (Hsame : nd_id n = nd_id n' /\ nd_has_grid_targets n = nd_has_grid_targets n').
  { unfold with_config in Hn, Hn'. destruct (validate c); [|done]. destruct (identity _); [|done]. destruct (bind c); [|done]. by injection Hn as <-; injection Hn' as <-. }
  destruct Hsame as [Ei Et]. assert (Ha : local_active c = false) by (unfold local_active; rewrite Hoff; apply andb_false_r).
  unfold query. rewrite Ec, Ec', Ee, Ee', El, El', Ew, Ew', <- Ei, <- Et, <- Hver. destruct (query_apply o c) as [cfg|] eqn:Ea; [|by split; [|intros ? ? ? ? [= <- <- <- <-]]].
  apply applied_switches in Ea as Hsw. injection Hsw as _ Hle. rewrite Hle, Hoff. cbn [andb negb].
  destruct (is_paid _ && _); [by split; [|intros ? ? ? ? [= <- <- <- <-]]|].
  destruct (preflight_estimate fs sql) as [est|]; [|by split]. cbn [mbind option_bind]. unfold run_query_planned.
  rewrite (planned_inactive _ _ _ _ _ c e e') by done. split.
  { destruct (run_planned _ _ _ _ _ _ _ _ _ _ _ _ _ _ _ _ _ _ _) as [[[[r1 s1] g1] gs1]|]; [|done]. cbn [mbind option_bind].
    destruct r1; [done|]. by rewrite andb_false_r. }
  intros r s' g' gs'. unfold run_planned. rewrite Ea, inactive_remote by done. destruct (dispatch_to_grid _ _ _ _ _ _ _ _ _) as [[d sched] q].
  destruct (grid_query _ _ _ _ _ _ _ _ _ _) as [[[r2 g2] gs2]|]; [|done]. cbn [mbind option_bind].
  destruct r2 as [|err]; [|rewrite andb_false_r]; by intros [= <- <- <- <-].
Qed.

(** C20: a node answers without a grid.  On an idle node built by [Node::with_config] whose
    planner and local execution are on and whose budget covers one job, a call that needs
    no payment and whose query the engine can run is answered: pinned to this machine, or
    left to the node with no grid configured, it returns the engine's own rows, computed
    here, with no message sent; left to the node with a grid configured, it never fails
    because the grid has no or too few workers, for it then falls back to this machine.
    Afterwards every reserved slot, thread and byte is free again. *)
Theorem query_answers_locally {C : Crypto} {SC : SealCrypto} {CJ : CredentialJson} {EJ : EvidenceJson} {L : Libm} {JT : JsonText} {Addr World : Type}
    identity bind (parse_socket : bytes -> option Addr) lookup c e (n : Node C Addr)
    (net_of : World -> Net Addr * World) now_of draw wait fs policy sql o jobs fuel g s gs cfg est rs :
  with_config identity bind parse_socket lookup c e = Ok n -> pool_widths c -> local_active c = true -> (forall x, s x = 0) ->
  bud_per_job_memory_bytes (gc_budget c) <= bud_memory_bytes (gc_budget c) -> bud_per_job_threads (gc_budget c) <= bud_threads (gc_budget c) ->
  bud_per_job_memory_bytes (gc_budget c) <= local_budget_bytes (node_pools c) ->
  query_apply o c = Ok cfg -> is_paid (resolve_payment (gc_economics cfg) ClassPublic) = false ->
  preflight_estimate fs sql = Some est -> (forall lease, en_execute e sql lease = Ok rs) ->
  let answer := query net_of now_of draw wait fs policy n sql o jobs fuel g s gs in
  (pl_prefer (gc_planner cfg) = PreferLocal \/ pl_prefer (gc_planner cfg) = PreferAuto /\ nd_has_grid_targets n = false ->
   exists s' out, answer = Some (Ok out, s', g, gs) /\ (forall x, s' x = 0) /\ qo_executed_locally out = true /\ qo_result out = rs)
  /\ (pl_prefer (gc_planner cfg) = PreferAuto -> forall r s' g' gs', answer = Some (r, s', g', gs') ->
      (forall x, s' x = 0) /\ forall err, r = Err (NQuery err) -> grid_unreachable err = false).
Proof.
  intros Hn W Ha Hidle Hm Hth Hl Hap Hpay Hest Hrs answer. destruct (with_config_ok _ _ _ _ _ _ _ Hn) as (Hv & Ec & Ee & El & Ew & _).
  pose proof (applied_prefer o c cfg Hap) as Hpref. pose proof (applied_switches o c cfg Hap) as [= _ Hsw].
  assert (Hloc : pl_local_execution_enabled (gc_planner c) = true) by (by apply andb_true_iff in Ha as [_ ?]).
  assert (Hpeak := local_estimate fs sql est Hest). apply (apply_pinned PreferLocal) in Hap as Hpin.
  unfold answer, query. rewrite Ec, Ee, El, Hap, Hpay, Hpref, Hsw, Hloc, Hest. cbn [andb mbind option_bind]. unfold run_query_planned, run_query. split.
  - intros [Hp|[Hp Ht]]; rewrite Hp; [|rewrite Ht]; cbn [negb andb];
      [destruct (pinned_runs net_of now_of draw wait policy c e c cfg (nd_id n) _ sql o jobs.1 fuel g s gs
         (ws_scanned_uncompressed_bytes <$> est) (ws_peak_working_set_bytes <$> est) rs Hv W Ha Hidle Hm Hth Hl Hpeak Hap Hp Hrs) as (s' & out & E & H)
      |destruct (pinned_runs net_of now_of draw wait policy c e c _ (nd_id n) _ sql _ jobs.1 fuel g s gs
         (ws_scanned_uncompressed_bytes <$> est) (ws_peak_working_set_bytes <$> est) rs Hv W Ha Hidle Hm Hth Hl Hpeak Hpin eq_refl Hrs) as (s' & out & E & H)];
      rewrite ?bool_decide_eq_true_2, ?bool_decide_eq_false_2 by done; cbn [negb andb]; rewrite E; cbn [mbind option_bind]; exists s', out; done.
  - intros Hp r s' g' gs'. rewrite Hp. rewrite bool_decide_eq_true_2 by done. cbn [andb].
    set (ov := if negb (nd_has_grid_targets n) then _ else _).
    assert (Hov : query_apply (ov <| ov_prefer := Some PreferLocal |>) c = Ok (set_prefer PreferLocal cfg)) by (subst ov; by destruct (nd_has_grid_targets n)).
    destruct (run_planned _ _ _ _ _ _ _ _ _ _ _ _ _ ov _ _ _ _ _) as [[[[r1 s1] g1] gs1]|] eqn:E1; [|done]. cbn [mbind option_bind].
    assert (Hest' : forall w, (if has_data_source sql then None else est) = Some w -> in_u 64 (ws_peak_working_set_bytes w))
      by (intros w Hw; rewrite Hw in Hpeak; cbn in Hpeak; rewrite Hpeak; unfold in_u; lia).
    assert (Hs1 : forall x, s1 x = 0) by (eapply planned_idle; [exact W|exact Hidle|exact Hest'|exact E1]).
    destruct r1 as [out|err]; [intros [= <- <- <- <-]; split; [done|by intros ? [=]]|].
    destruct (grid_unreachable err) eqn:Eu; cbn [andb]; [|intros [= <- <- <- <-]; split; [done|]; by intros ? [= <-]].
    destruct (pinned_runs net_of now_of draw wait policy c e c _ (nd_id n) None sql _ jobs.2 fuel g1 s1 gs1 None None rs Hv W Ha Hs1 Hm Hth Hl eq_refl Hov eq_refl Hrs)
      as (s2 & out & E2 & Hs2 & _). rewrite E2. cbn [mbind option_bind]. intros [= <- <- <- <-]. split; [done|]. by intros ? [=].
Qed.

(** ** Examples *)

Definition echo_node_engine : QueryEngine :=
  mkEngine (str "1.0") (fun sql _ => Ok (mkResultSet [sql] [])) (fun sql _ _ => Ok (mkResultSet [sql] [])).
Definition build_example (c : GridConfig) (e : QueryEngine) : result (Node (S := toy_seal) (J := toy_cred_json) toy_crypto Z) NodeError :=
  with_config (fun _ => Ok (node_id_of 9)) (fun _ => Ok tt) (fun _ => None) (fun _ => []) c e.
Definition example_node (c : GridConfig) (e : QueryEngine) : Node (S := toy_seal) (J := toy_cred_json) toy_crypto Z :=
  {| nd_config := c; nd_engine := e; nd_id := node_id_of 9; nd_seeds := []; nd_has_grid_targets := false; nd_has_wallet := false;
     nd_local := local_executor c e; nd_blocklist := ab_enabled (gc_antiabuse c); nd_access := grant_access (gc_storage c);
     nd_settlement := None; nd_record_anchor := None; nd_params_source := None; nd_stake_registry := None |}.

Lemma example_built c e :
  validate c = Ok tt -> disc_bootstrap (gc_discovery c) = [] -> build_example c e = Ok (example_node c e).
Proof. intros H E. unfold build_example, with_config. rewrite H, E. reflexivity. Qed.

Lemma default_pool_widths : pool_widths default_GridConfig.
Proof. split; repeat constructor; done. Qed.

Lemma default_built e : build_example default_GridConfig e = Ok (example_node default_GridConfig e).
Proof. apply example_built; vm_compute; reflexivity. Qed.

Lemma node_pools_usable_witness :
  let c := default_GridConfig in
  build_example c echo_node_engine = Ok (example_node c echo_node_engine) /\ Pools_wf (node_pools c)
  /\ (Governor.run (node_pools c) (fun _ => 0) (try_admit true (bud_per_job_memory_bytes (gc_budget c)) (bud_per_job_threads (gc_budget c)))).1 = true.
Proof.
  intros c. split; [exact (default_built echo_node_engine)|].
  pose proof (default_built echo_node_engine) as E. unfold build_example in E.
  destruct (node_pools_usable (K := number_codec) (fun _ => Ok (node_id_of 9)) (fun _ => Ok tt) (fun _ => None) (fun _ => []) default_GridConfig echo_node_engine
    (example_node default_GridConfig echo_node_engine) (fun _ => 0) E default_pool_widths (fun _ => eq_refl)) as (H & _ & _ & _ & Hr).
  split; [exact H|]. destruct Hr as [Hr _]; [vm_compute; congruence|vm_compute; congruence|]. exact Hr.
Defined.

(** The grid of five workers of [GridQuery]; a call that takes any host. *)
Definition ask_example (c : GridConfig) (e : QueryEngine) (o : QueryOverrides) (sql : bytes) :=
  query (EJ := toy_json) (JT := tiny_json) (steady (five_nodes frames_flaky)) tick low_draw sleep_ms tiny_fs None (example_node c e) sql o (str "job", str "again")
    5 ∅ (fun _ => 0) (mkGridState (coordinator_example None) [] 0).

Definition other_engine : QueryEngine :=
  mkEngine (str "1.0") (fun _ _ => Err (Exec (str "broken"))) (fun _ _ _ => Err (Exec (str "broken"))).
Definition thin_client : GridConfig := default_GridConfig <| gc_planner := default_PlannerConfig <| pl_local_execution_enabled := false |> |>.

Lemma thin_built e : build_example thin_client e = Ok (example_node thin_client e).
Proof. apply example_built; vm_compute; reflexivity. Qed.

Lemma remote_only_never_local_witness :
  ask_example thin_client echo_node_engine (trusting <| ov_prefer := Some PreferLocal |>) (str "SELECT 1")
  = ask_example thin_client other_engine (trusting <| ov_prefer := Some PreferLocal |>) (str "SELECT 1").
Proof.
  pose proof (thin_built echo_node_engine) as E. pose proof (thin_built other_engine) as E'. unfold build_example in E, E'.
  exact (proj1 (remote_only_never_local (EJ := toy_json) (JT := tiny_json) _ _ _ _ thin_client echo_node_engine other_engine _ _
    (steady (five_nodes frames_flaky)) tick low_draw sleep_ms tiny_fs None (str "SELECT 1") (trusting <| ov_prefer := Some PreferLocal |>)
    (str "job", str "again") 5 ∅ (fun _ => 0) (mkGridState (coordinator_example None) [] 0) E E' eq_refl eq_refl)).
Defined.

Lemma query_answers_locally_witness :
  exists s' out, ask_example default_GridConfig echo_node_engine no_overrides (str "SELECT 1")
      = Some (Ok out, s', ∅, mkGridState (coordinator_example None) [] 0)
    /\ (forall x, s' x = 0) /\ qo_executed_locally out = true /\ qo_result out = mkResultSet [str "SELECT 1"] [].
Proof.
  pose proof (default_built echo_node_engine) as E. unfold build_example in E.
  assert (Hap : query_apply no_overrides default_GridConfig = Ok (query_floors no_overrides (query_assign no_overrides default_GridConfig)))
    by (apply query_apply_ok; split; [reflexivity|vm_compute; reflexivity]).
  refine (proj1 (query_answers_locally (EJ := toy_json) (JT := tiny_json) _ _ _ _ default_GridConfig echo_node_engine _
    (steady (five_nodes frames_flaky)) tick low_draw sleep_ms tiny_fs None (str "SELECT 1") no_overrides (str "job", str "again") 5 ∅ (fun _ => 0)
    (mkGridState (coordinator_example None) [] 0) _ _ _ E default_pool_widths eq_refl (fun _ => eq_refl) _ _ _ Hap _ _ _) _).
  - vm_compute. congruence.
  - vm_compute. congruence.
  - vm_compute. congruence.
  - vm_compute. reflexivity.
  - vm_compute. reflexivity.
  - intros lease. reflexivity.
  - right. split; vm_compute; reflexivity.
Defined.

Definition reading_host (sb : SandboxConfig) : GridConfig :=
  default_GridConfig <| gc_storage := default_StorageConfig <| sto_enable_remote_access := true |> |> <| gc_sandbox := sb |>
    <| gc_worker := default_WorkerConfig <| wrk_enabled := true |> |>.
Definition public_offer : Offer := mkOffer (str "job-1") (node_id_of 4) [] None None Public 5 None [] [] None None.
Definition hosted (target : TargetOs) (exec : option bytes) (c : GridConfig) : Worker :=
  host_worker (K := number_codec) target exec (fun _ => demo_os) (str "/tmp/p2p-job-1") (@identity_signer toy_crypto 1) (fun _ => None)
    (example_node c echo_node_engine).
Definition serves (target : TargetOs) (exec : option bytes) (c : GridConfig) : bool :=
  accepts (make_bid (C := toy_crypto) (hosted target exec c) fresh_state public_offer (at_ 0)).1.

(** With remote reads a host serves when a child executor is set, under the secure default;
    without one, or with the sandbox turned off explicitly by its backend, it refuses. *)
Example serving_examples :
  serves Linux (Some (str "/opt/p2p-job-exec")) (reading_host default_SandboxConfig) = true
  /\ serves Linux None (reading_host default_SandboxConfig) = false
  /\ serves Linux (Some (str " ")) (reading_host default_SandboxConfig) = false
  /\ serves Linux (Some (str "/opt/p2p-job-exec")) (reading_host (host_serving_secure <| sb_backend := BackendNone |>)) = false
  /\ serves Ios (Some (str "/opt/p2p-job-exec")) (reading_host default_SandboxConfig) = false.
Proof. vm_compute. done. Qed.

(** The check asks whether the backend's name can filter egress, not whether one is built:
    a backend of another platform passes it and is no sandbox at all. *)
Example foreign_backend_unconfined :
  let c := reading_host (host_serving_secure <| sb_backend := BackendWindowsJobObject |>) in
  serves Linux (Some (str "/opt/p2p-job-exec")) c = true /\ Sandbox.build Linux (host_sandbox c) = NoopSandbox.
Proof. vm_compute. done. Qed.

Lemma remote_reads_run_in_children_witness :
  serves Linux (Some (str "/opt/p2p-job-exec")) (reading_host default_SandboxConfig) = true
  /\ sb_process_per_job (host_sandbox (reading_host default_SandboxConfig)) = true
  /\ Sandbox.build Linux (host_sandbox (reading_host default_SandboxConfig)) <> NoopSandbox.
Proof.
  assert (Ha : serves Linux (Some (str "/opt/p2p-job-exec")) (reading_host default_SandboxConfig) = true) by (vm_compute; reflexivity).
  split; [exact Ha|].
  destruct (remote_reads_run_in_children (K := number_codec) Linux (Some (str "/opt/p2p-job-exec")) (fun _ => demo_os) (str "/tmp/p2p-job-1")
    (@identity_signer toy_crypto 1) (fun _ => None) (example_node (reading_host default_SandboxConfig) echo_node_engine) fresh_state public_offer (at_ 0)
    _ _ (surjective_pairing _) Ha eq_refl) as (_ & Hp & _ & _ & _ & Hb & Hd).
  split; [exact Hp|]. apply Hb. apply Hd. reflexivity.
Defined.
